(* ===== verification/_CoqProject ===== *)
-Q . S2P
Prelude.v
Errors.v
GoStrings.v
GoText.v
GoTime.v
GoNet.v
Json.v
BpfTypes.v
Mac.v
Geneve.v
Prog.v
SlotTable.v
Interleave.v
Netns.v
Netlink.v
Config.v
Maps.v
MgmtService.v
Bindings.v
Loader.v
Metadata.v
Context.v
Flock.v
Attach.v
AttachSpec.v
AttachRace.v
Provision.v
ProvisionSpec.v
Stop.v
StopSpec.v
PortSpec.v
Footprint.v
Safety.v
Status.v
StatusSpec.v
Dhcp.v
DhcpSpec.v
DhcpLife.v
Lifecycle.v
LifecycleSpec.v
Refine.v
Progress.v
StartSpec.v
Tapfd.v
TapfdSpec.v
TapfdFd.v
HostIo.v
TapfdFdSpec.v
TapServer.v
HandoffSpec.v
TapServerSpec.v
GoNetSpec.v
Typed.v
Formed.v
Daemon.v
Output.v
Cli.v
CliStart.v
Serve.v
ServeSpec.v
CliSpec.v
AttachOpenSpec.v
TapfdGet.v
TapfdGetSpec.v
Packet.v
Skb.v
Datapath.v
NatSpec.v
MgmtPath.v
PortGate.v
TransitPath.v
LivePort.v
Publication.v
PublicationSpec.v
Traffic.v
TrafficSpec.v
Layout.v
SlotMemory.v
