(* ===== verification/Prelude.v ===== *)
(** * A verification library for the sandbox connector

    The repository is an eBPF virtual switch: a command line tool and a library
    that create a switch, provision its ports, attach sandboxes to them, and
    hand tap file descriptors to virtual machines; and the three programs that
    forward the packets.  The state of a port is a slot of a memory-mapped table, shared without locks by
    every process that opened the switch and by the datapath; the address word
    of a slot (0 free, 2^32-1 reserved, else the sandbox address) is the claim
    that every operation makes by compare-and-swap.  Everything else is kept in
    pinned BPF maps, in a pin directory that doubles as a lock file, and in the
    kernel's devices and namespaces.

    ** How programs are modelled

    A function with effects is a tree of events ([Prog]): an event is one
    atomic access to the slot table or one call into a package outside the
    repository, and the tree branches on the answer.  One tree is run against a
    kernel ([run]), interleaved with others event by event ([Interleave]), and
    reasoned about by weakest preconditions in several semantics: alone on the
    table with every answer possible; under interference; with the contents of
    the maps ([Maps]); with the pin directory and lock ([StartSpec], [Flock]);
    with what the kernel answered for names ([ProvisionSpec]);
    with descriptors, namespaces and connections ([HostIo]); with what a hand-off
    sent ([AttachOpenSpec]); and, together with packets, over the table and the
    maps ([Publication], [Traffic]).  A packet program is a function of the tables, the
    packet and the counters ([Datapath]).  Pure code is ordinary functions, fallible code answers in [res] ([Errors]): a value, an
    error with its text and [errors.Is] identities, or a panic.

    ** Files, bottom up

    Language and standard library.  [Prelude]: machine words, tactics, hints.
    [Errors]: errors (pkg/vswitch/errors.go, pkg/netlink/errors.go).
    [GoStrings], [GoText], [GoTime], [GoNet], [Json]: the parts of strings,
    strconv, fmt, time, net and encoding/json the sources use; [GoNetSpec]:
    parsers produce bytes.

    Data and plans.  [BpfTypes]: pkg/internal/bpf/types.go and the value
    structures of the generated bindings.  [Mac]: pkg/internal/bpfmap/mac.go.
    [Geneve]: pkg/vswitch/geneve.go.  [Config]: pkg/vswitch/config.go, names
    and addresses of slot.go.  [MgmtService]: mgmt_service.go.  [Metadata]:
    metadata.go.

    The table and the kernel.  [Prog], [SlotTable]: pkg/internal/bpfmap
    (cas.go, slots.go, stats.go).  [Netns]: pkg/netns.  [Netlink]: pkg/netlink.
    [Bindings]: the functions bpf2go generates, pkg/internal/bpf/vswitch_x86_bpfel.go
    (the arm64 file has the same).  [Loader]: pkg/internal/bpf/loader.go.  [Maps]: the pinned maps as state.

    The switch, pkg/vswitch.  [Context]: context.go and the map reads of
    slot.go.  [Flock]: flock.go.  [Attach]: attach.go and port_up.go.
    [Provision]: provision.go.  [Stop]: stop.go.  [Status]: status.go.
    [Lifecycle]: lifecycle.go, which calls [Dhcp] (pkg/dhcp) for the transit
    address.  Each has a file of contracts: [AttachSpec], [PortSpec],
    [ProvisionSpec], [StopSpec], [StatusSpec], [LifecycleSpec] and [StartSpec],
    [DhcpSpec].  [DhcpLife]: [Serve], [Close] and the goroutine that watches the
    context, of pkg/dhcp/server.go, as threads.

    The tap fd protocol.  [Tapfd]: pkg/tapfd/request.go and payload.go;
    [TapfdFd]: open.go, send.go, recv.go; [TapServer]:
    cmd/connector-ctl/tapfd_server.go and open_port.go; [TapfdGet]:
    tapfd_get.go.  Contracts: [TapfdSpec], [TapfdFdSpec], [HandoffSpec],
    [TapServerSpec], [TapfdGetSpec].

    The process.  [Daemon]: pkg/daemon.  [Output]: the JSON documents.  [Cli]
    and [CliStart]: the commands of cmd/connector-ctl; [Serve]: serve.go;
    [CliSpec], [ServeSpec], [AttachOpenSpec]: their contracts.

    The datapath, bpf/.  [Packet]: packets as bytes and Internet checksums
    (vmlinux.h, bpf_helpers.h).  [Skb]: socket buffers and the kernel's helpers
    as a class ([BpfHelpers]) with their documented laws.  [Datapath]:
    switch_kern.c and stats.h.  [NatSpec]: what the address translation does to
    a frame; [MgmtPath], [TransitPath], [PortGate]: the paths and the gates;
    [LivePort]: from a successful attachment to a served port.  [Publication]:
    the rules under which the owner of a slot changes it while packets read;
    [PublicationSpec]: attachments, set-port-ups and detachments keep them;
    [Traffic]: the loads and the counts of packets as events among the stores of
    these tenants; [TrafficSpec]: the theorems.  [Layout]: the struct
    declarations of common.h and of the bindings of both architectures, with
    their constants; [SlotMemory]: the mapped bytes.

    Across components.  [Interleave] and [AttachRace]: concurrent attachments.
    [Footprint]: which stores and swaps each operation can issue, stated once
    for any choice of allowed ones (the class [event_class]).  [Safety],
    [Typed] and [Formed] instantiate it: Reserved ports stay so, stores fit
    their fields, and slots stay well formed while one process at a time holds
    the control lock.  [Progress]: the retry loops under interference.
    [Refine]: the abstract port machine.

    ** What the theorems show

    - Contracts of the operations, on every branch and for every answer of the
      kernel: attach, reserve, detach, set-port-up, provision, release, stop,
      start, status, statistics ([Attach_spec] to [stop_released_spec],
      [Reserve_spec], [Stats_spec], [Status_spec]).
    - Refinement: any sequence of these calls on an open switch is a run of a
      machine whose ports are free, reserved or attached ([session_refines]).
      So is any interleaving on the mapped bytes one on the table of records
      ([slot_memory_refines]).
    - Interleavings: concurrent attachments get distinct ports; only
      provisioning takes a port out of Reserved; and whatever clients send, a
      slot never counts a prefix that is not one of the metadata's, nor holds
      an unknown mode or flag ([concurrent_attaches_disjoint],
      [reserved_stays_reserved], [slots_well_formed]).
    - Packets among tenants that attach, set up and detach: behind the
      publication gate a packet works on one whole attachment, unless the port
      is taken down under it, and the counters of an attachment are what was
      counted for it ([packet_sees_one_attachment],
      [counters_belong_to_attachment]).
    - The DHCP server: no two clients are assigned one address, and however it is
      stopped its threads end and leave no listener ([server_no_conflict],
      [serve_stops]).
    - The datapath: nothing is forwarded for a port that is free or down; the
      management path translates back what it translated and keeps checksums
      valid; a packet for the transit network leaves inside exactly the
      announced headers and arrives unchanged at the other end; a successful
      attachment is served ([datapath_closed], [management_round_trip],
      [transit_frame], [transit_round_trip], [attach_goes_live]).
    - Progress: the retry loop of a forced reservation ends one round after the
      others stop changing the slot ([Reserve_progress]).
    - The provider socket: every connection gets one answer, PREPARE leaks no
      port, a hand-off delivers the right descriptors, and receivers lose and
      double-close none; attaching and opening in one command is all or nothing
      unless its roll-back is refused ([attach_open_outcome]).
    - Formats: any accepted request, error and metadata lines, GENEVE options,
      metadata and services are read back as written ([request_delivered]);
      error lines up to their sanitising.
    - Plans: floating addresses, return routes, MTUs, MACs and UDP ports of an
      accepted configuration do not overlap or overflow.
    - The command line: exit statuses, flags against files, and when the
      service ends its own process ([service_gives_up]).

    ** Fuel and bounds

    Go's unbounded loops take fuel and answer [OutOfFuel] when it ends, which
    is a third outcome beside a value and an error.  [wp] of a program excludes
    it where a contract says so: the release and stop passes need one round
    when nobody interferes ([StopSpec]), a forced reservation and an
    un-reservation one more round than there are foreign changes ([Progress]),
    a request line at most 512 bytes ([TapServerSpec]).  The accept loop, the
    keepalive loop and the loop of [serve] run for ever; their fuel counts
    connections, ticks and messages.  Parsers that recurse on a remainder take
    the length of their text.  Integers are [Z] with [u8], [u16], [u32], [u64]
    or [i64] written where Go converts or overflows; [Typed] shows that what is
    stored fits.

    ** What is not modelled

    The command-line parser and help texts; function variables that exist for
    tests (the model calls their defaults); progress messages and the clock that
    only they read in pkg/vswitch; the loop of the DHCP packet library, which
    [DhcpLife] sees as a call that returns once its listener is closed or a read
    failed; cancelling contexts elsewhere, which show as the answers of [CtxErr],
    [SleepOrDone], [TickOrDone] and [ServeSelect].  JSON decoding of the
    metadata and of the configuration file, the DHCP reply builder, the order of
    map iteration and errno texts are parameters; the kernel's packet helpers
    are a class, with an implementation ([simple_helpers]) that has the laws.

    A packet program as a whole ([Datapath]) reads one state of the tables.
    [Traffic] has its loads spread over time, with the counting of one packet,
    which the program does under a spin lock, as one event.  What it promises
    ends where the code's promises end: a packet that is overtaken by a
    detachment and a new attachment may mix the two ([detachment_mixes]), and a
    packet of an earlier generation may be delivered to the next
    ([mx_stale_generation]).  Events are atomic and in program order; the memory
    model of the processors is not expressed. *)
From Stdlib Require Export Ascii String.
From stdpp Require Export prelude strings gmap list.
From Stdlib Require Export ZArith Lia.

#[global] Open Scope Z_scope.

(** ** Machine integers

    Go's unsigned integers are modelled as [Z] with the wrap-around written
    out: [u32 z] is the conversion [uint32(z)]. *)
Definition u8 (z : Z) : Z := z mod 2 ^ 8.
Definition u16 (z : Z) : Z := z mod 2 ^ 16.
Definition u32 (z : Z) : Z := z mod 2 ^ 32.
Definition u64 (z : Z) : Z := z mod 2 ^ 64.

Definition is_u8 (z : Z) : Prop := 0 ≤ z < 2 ^ 8.
Definition is_u16 (z : Z) : Prop := 0 ≤ z < 2 ^ 16.
Definition is_u32 (z : Z) : Prop := 0 ≤ z < 2 ^ 32.
Definition is_u64 (z : Z) : Prop := 0 ≤ z < 2 ^ 64.

#[export] Instance is_u8_dec z : Decision (is_u8 z).
Proof. unfold is_u8. apply _. Defined.
#[export] Instance is_u16_dec z : Decision (is_u16 z).
Proof. unfold is_u16. apply _. Defined.
#[export] Instance is_u32_dec z : Decision (is_u32 z).
Proof. unfold is_u32. apply _. Defined.
#[export] Instance is_u64_dec z : Decision (is_u64 z).
Proof. unfold is_u64. apply _. Defined.

(** Discharge a decidable closed side condition by evaluation. *)
Ltac decide_true := apply (bool_decide_unpack _); vm_compute; exact I.

(** Hint databases: [go] closes side conditions about ranges and results,
    [gosimp] rewrites with the equations of the library. *)
Create HintDb go.
Create Rewrite HintDb gosimp.

Lemma u8_small z : is_u8 z → u8 z = z.
Proof. unfold is_u8, u8. intros; by rewrite Z.mod_small. Qed.
Lemma u16_small z : is_u16 z → u16 z = z.
Proof. unfold is_u16, u16. intros; by rewrite Z.mod_small. Qed.
Lemma u32_small z : is_u32 z → u32 z = z.
Proof. unfold is_u32, u32. intros; by rewrite Z.mod_small. Qed.
Lemma u64_small z : is_u64 z → u64 z = z.
Proof. unfold is_u64, u64. intros; by rewrite Z.mod_small. Qed.
Lemma u8_range z : is_u8 (u8 z).
Proof. apply Z.mod_pos_bound; lia. Qed.
Lemma u16_range z : is_u16 (u16 z).
Proof. apply Z.mod_pos_bound; lia. Qed.
Lemma u32_range z : is_u32 (u32 z).
Proof. apply Z.mod_pos_bound; lia. Qed.
Lemma u64_range z : is_u64 (u64 z).
Proof. apply Z.mod_pos_bound; lia. Qed.
#[export] Hint Resolve u8_range u16_range u32_range u64_range : go.

(** Bitwise facts shared by the MAC, VNI and address encodings. *)
Lemma testbit_above z n i : 0 ≤ z < 2 ^ n → 0 ≤ n ≤ i → Z.testbit z i = false.
Proof.
  intros Hz Hi. rewrite <- (Z.mod_small z (2 ^ n)) by done.
  apply Z.mod_pow2_bits_high; lia.
Qed.

Lemma land_shiftl_low a b n :
  0 ≤ n → 0 ≤ b < 2 ^ n → Z.land (Z.shiftl a n) b = 0.
Proof.
  intros Hn Hb. apply Z.bits_inj'. intros i Hi.
  rewrite Z.land_spec, Z.bits_0.
  destruct (decide (i < n)).
  - by rewrite Z.shiftl_spec_low.
  - rewrite (testbit_above b n i) by lia. by rewrite andb_false_r.
Qed.

Lemma lor_shiftl_add a b n :
  0 ≤ n → 0 ≤ b < 2 ^ n → Z.lor (Z.shiftl a n) b = a * 2 ^ n + b.
Proof.
  intros Hn Hb. rewrite <- Z.shiftl_mul_pow2 by done.
  rewrite <- Z.lxor_lor, Z.add_nocarry_lxor; eauto using land_shiftl_low.
Qed.

Lemma shiftr_lor_shiftl a b n :
  0 ≤ n → 0 ≤ b < 2 ^ n → Z.shiftr (Z.lor (Z.shiftl a n) b) n = a.
Proof.
  intros Hn Hb. rewrite lor_shiftl_add, Z.shiftr_div_pow2 by done.
  rewrite Z.div_add_l, Z.div_small; lia.
Qed.

Lemma land_ones_lor_shiftl a b n :
  0 ≤ n → 0 ≤ b < 2 ^ n → Z.land (Z.lor (Z.shiftl a n) b) (Z.ones n) = b.
Proof.
  intros Hn Hb. rewrite Z.land_ones, lor_shiftl_add by done.
  rewrite Z.add_comm, Z.mod_add by lia. by apply Z.mod_small.
Qed.
