(* ===== verification/Errors.v ===== *)
(** * Go errors and fallible results

    [error] keeps what the program can observe of a Go [error]: its rendered
    message and the identities that [errors.Is] / [errors.As] find along its
    [%w] chain.  [res] is the type of a fallible call that may also panic (a
    nil dereference or an index out of range); [OutOfFuel] is the outcome of a
    retry loop that used up the fuel the model gave it, so "returned" and
    "still retrying" stay apart.  The sentinels are the ones of
    [pkg/vswitch/errors.go]; those of the libraries the sources match on come
    after them. *)
From S2P Require Import Prelude.

(** The identities an error chain can carry. *)
Inductive sentinel :=
  (* pkg/vswitch/errors.go *)
  | ErrSwitchNotExist
  | ErrConfigMismatch
  | ErrSwitchCorrupted
  | ErrPortOutOfRange
  | ErrPortAllocated
  | ErrPortNotAttached
  | ErrStatsUnavailable
  | ErrPortsInUse
  | ErrPortsNotReleased
  | ErrPortNotProvisioned
  (* identities that come from the Go library, the kernel and the packages the
     sources call; the sources only test for them *)
  | OsErrNotExist
  | SysENOENT
  | SysENODEV
  | SysEEXIST
  | SysEOPNOTSUPP
  | LinkNotFoundError
  | NlErrDumpInterrupted
  | EbpfErrKeyNotExist
  | IoEOF
  | NetErrClosed.

#[export] Instance sentinel_eq_dec : EqDecision sentinel.
Proof. solve_decision. Defined.

Record error := MkError { emsg : string; ekinds : list sentinel }.

#[export] Instance error_eq_dec : EqDecision error.
Proof. solve_decision. Defined.

(** [fmt.Errorf] without a [%w] verb. *)
Definition errorf (msg : string) : error := MkError msg [].

(** [fmt.Errorf("<pre>%w<post>", ..., err, ...)]. *)
Definition errorw (pre : string) (e : error) (post : string) : error :=
  MkError (pre +:+ emsg e +:+ post) (ekinds e).

(** The text of the sentinels of [errors.go]. *)
Definition sentinel_text (s : sentinel) : string :=
  match s with
  | ErrSwitchNotExist => "switch does not exist"
  | ErrConfigMismatch => "configuration mismatch"
  | ErrSwitchCorrupted => "switch state corrupted"
  | ErrPortOutOfRange => "port out of range"
  | ErrPortAllocated => "port already allocated"
  | ErrPortNotAttached => "port not attached"
  | ErrStatsUnavailable => "port stats unavailable"
  | ErrPortsInUse => "ports in use"
  | ErrPortsNotReleased => "ports not released"
  | ErrPortNotProvisioned => "port not provisioned"
  | OsErrNotExist => "file does not exist"
  | SysENOENT => "no such file or directory"
  | SysENODEV => "no such device"
  | SysEEXIST => "file exists"
  | SysEOPNOTSUPP => "operation not supported"
  | LinkNotFoundError => "Link not found"
  | NlErrDumpInterrupted => "results may be incomplete or inconsistent"
  | EbpfErrKeyNotExist => "key does not exist"
  | IoEOF => "EOF"
  | NetErrClosed => "use of closed network connection"
  end.

Definition sentinel_error (s : sentinel) : error := MkError (sentinel_text s) [s].

(** [errors.Is(err, s)] for a non-nil [err]. [syscall.ENOENT] also matches
    [os.ErrNotExist]. *)
Definition errors_is (e : error) (s : sentinel) : bool :=
  bool_decide (s ∈ ekinds e) ||
  (bool_decide (s = OsErrNotExist) && bool_decide (SysENOENT ∈ ekinds e)).

(** ** The classifiers of pkg/vswitch/errors.go, on a possibly nil error *)
Definition is_opt (s : sentinel) (e : option error) : bool :=
  match e with Some e => errors_is e s | None => false end.

Definition IsNotExist := is_opt ErrSwitchNotExist.
Definition IsConfigMismatch := is_opt ErrConfigMismatch.
Definition IsSwitchCorrupted := is_opt ErrSwitchCorrupted.
Definition IsPortOutOfRange := is_opt ErrPortOutOfRange.
Definition IsPortAllocated := is_opt ErrPortAllocated.
Definition IsPortNotAttached := is_opt ErrPortNotAttached.
Definition IsPortsInUse := is_opt ErrPortsInUse.
Definition IsPortsNotReleased := is_opt ErrPortsNotReleased.
Definition IsPortNotProvisioned := is_opt ErrPortNotProvisioned.

(** [newSwitchCorruptedError]: the cause is rendered with [%v], so its
    identities are dropped. *)
Definition newSwitchCorruptedError (switchName : string) (cause : error) : error :=
  MkError ("switch " +:+ switchName +:+ ": " +:+ sentinel_text ErrSwitchCorrupted
             +:+ ": " +:+ emsg cause)
          [ErrSwitchCorrupted].

(** [netlink.IsLinkNotExist]. *)
Definition IsLinkNotExist (e : error) : bool :=
  errors_is e SysENOENT || errors_is e SysENODEV || errors_is e LinkNotFoundError.

(** [bpf.IsKeyNotExist]. *)
Definition IsKeyNotExist (e : error) : bool := errors_is e EbpfErrKeyNotExist.

(** ** Fallible results *)
Inductive res (A : Type) :=
  | Ok (a : A)
  | Err (e : error)
  | Panic
  | OutOfFuel.
Arguments Ok {A} _.
Arguments Err {A} _.
Arguments Panic {A}.
Arguments OutOfFuel {A}.

#[export] Instance res_eq_dec `{EqDecision A} : EqDecision (res A).
Proof. solve_decision. Defined.

Definition res_bind {A B} (m : res A) (f : A → res B) : res B :=
  match m with Ok a => f a | Err e => Err e | Panic => Panic | OutOfFuel => OutOfFuel end.

Definition map_err {A} (f : error → error) (m : res A) : res A :=
  match m with Ok a => Ok a | Err e => Err (f e) | Panic => Panic | OutOfFuel => OutOfFuel end.

Definition is_ok {A} (m : res A) : bool :=
  match m with Ok _ => true | _ => false end.

Definition get_ok {A} (m : res A) : option A :=
  match m with Ok a => Some a | _ => None end.

Declare Scope go_scope.
Delimit Scope go_scope with go.
Notation "'let!' x := m 'in' k" := (res_bind m (λ x, k))
  (at level 10, x pattern, m at level 100, k at level 200) : go_scope.
(** [guard! b else e in k]: the early return [if !b { return e }]. *)
Notation "'guard!' b 'else' e 'in' k" := (if b then k else Err e)
  (at level 10, b at level 100, e at level 100, k at level 200) : go_scope.
#[global] Open Scope go_scope.

(** [mapM] over a list, stopping at the first error. *)
Fixpoint res_mapM {A B} (f : A → res B) (l : list A) : res (list B) :=
  match l with
  | [] => Ok []
  | x :: l => let! y := f x in let! ys := res_mapM f l in Ok (y :: ys)
  end.

Lemma res_bind_ok {A B} (m : res A) (f : A → res B) b :
  res_bind m f = Ok b ↔ ∃ a, m = Ok a ∧ f a = Ok b.
Proof. destruct m; simpl; naive_solver. Qed.

Lemma map_err_ok {A} f (m : res A) a : map_err f m = Ok a ↔ m = Ok a.
Proof. destruct m; simpl; naive_solver. Qed.

Lemma res_mapM_ok {A B} (f : A → res B) l ys :
  res_mapM f l = Ok ys ↔ Forall2 (λ x y, f x = Ok y) l ys.
Proof.
  revert ys. induction l as [|x l IH]; intros ys; simpl.
  - split; [intros [= <-]; constructor | by inversion 1].
  - rewrite res_bind_ok. setoid_rewrite res_bind_ok. split.
    + intros (y & Hy & ys' & Hys & [= <-]). constructor; naive_solver.
    + inversion 1; subst. eexists; split; [done|]. eexists; split; [|done]. by apply IH.
Qed.

(** [invert_ok]: turn an hypothesis saying that a chain of binds and guards
    returned into the facts that each link held. *)
Ltac invert_ok_step :=
  match goal with
  | H : res_bind _ _ = Ok _ |- _ =>
      apply res_bind_ok in H; let a := fresh "a" in let H1 := fresh H in
      destruct H as (a & H1 & H)
  | H : map_err _ _ = Ok _ |- _ => apply map_err_ok in H
  | H : Ok _ = Ok _ |- _ => injection H as H; subst
  | H : Err _ = Ok _ |- _ => discriminate H
  | H : Panic = Ok _ |- _ => discriminate H
  | H : OutOfFuel = Ok _ |- _ => discriminate H
  | H : (if ?b then _ else _) = Ok _ |- _ => destruct b eqn:?
  | H : (match ?x with _ => _ end) = Ok _ |- _ => destruct x eqn:?
  end.
Ltac invert_ok := repeat (invert_ok_step; simplify_eq/=).

(** *** Functions that answer with a value or an error: they neither panic
    nor run out of fuel *)
Definition returns {A} (r : res A) : Prop :=
  match r with Ok _ | Err _ => True | _ => False end.
Lemma returns_bind {A B} (r : res A) (f : A → res B) :
  returns r → (∀ a, returns (f a)) → returns (res_bind r f).
Proof. destruct r; simpl; auto. Qed.
Lemma returns_map_err {A} f (r : res A) : returns r → returns (map_err f r).
Proof. by destruct r. Qed.
Lemma returns_mapM {A B} (f : A → res B) l : (∀ x, returns (f x)) → returns (res_mapM f l).
Proof.
  intros Hf. induction l as [|x l IH]; [done|]. simpl. apply returns_bind; [done|].
  intros y. by apply returns_bind.
Qed.

Create HintDb returns.
(** [returns] goals by following the function's text. *)
Ltac returns_step :=
  match goal with
  | |- ∀ _, _ => intro
  | |- returns (Ok _) => exact I
  | |- returns (Err _) => exact I
  | |- returns (res_bind _ _) => apply returns_bind
  | |- returns (map_err _ _) => apply returns_map_err
  | |- returns (res_mapM _ _) => apply returns_mapM
  | |- returns _ => solve [auto with returns]
  | |- returns (match ?x with _ => _ end) => destruct x
  end.
Ltac returns := repeat (cbv zeta; returns_step).
