(* ===== verification/GoStrings.v ===== *)
(** * The Go string functions the sources use

    A Go string is a byte sequence, as Rocq's [string] is.  This file gives
    executable definitions of the parts of [strings], [strconv], [fmt] and
    [encoding/hex] that the connector calls, with the round-trip lemmas the
    codecs need.  White space is Go's [unicode.IsSpace] on UTF-8 text. *)
From S2P Require Import Prelude Errors.

(** ** Bytes and characters *)
Definition byte_of (c : ascii) : Z := Z.of_nat (nat_of_ascii c).
Definition chr (z : Z) : ascii := ascii_of_nat (Z.to_nat z).
Definition str1 (z : Z) : string := String (chr z) "".
Definition nl : string := str1 10.

Lemma byte_of_range c : is_u8 (byte_of c).
Proof. pose proof (nat_ascii_bounded c). unfold is_u8, byte_of. lia. Qed.
Lemma byte_of_chr z : is_u8 z → byte_of (chr z) = z.
Proof. unfold is_u8, byte_of, chr. intros. rewrite nat_ascii_embedding; lia. Qed.
Lemma chr_byte_of c : chr (byte_of c) = c.
Proof. unfold byte_of, chr. by rewrite Nat2Z.id, ascii_nat_embedding. Qed.

Fixpoint bytes_of (s : string) : list Z :=
  match s with "" => [] | String c s => byte_of c :: bytes_of s end.
Fixpoint string_of (l : list Z) : string :=
  match l with [] => "" | z :: l => String (chr z) (string_of l) end.
Definition slen (s : string) : Z := Z.of_nat (String.length s).

(** ** Digits *)
Definition digit_val (c : ascii) : option Z :=
  let b := byte_of c in
  if (48 <=? b) && (b <=? 57) then Some (b - 48)
  else if (97 <=? b) && (b <=? 122) then Some (b - 97 + 10)
  else if (65 <=? b) && (b <=? 90) then Some (b - 65 + 10)
  else None.

Definition digit_char (d : Z) : ascii :=
  if d <? 10 then chr (48 + d) else chr (87 + d).

Lemma digit_val_char d : 0 ≤ d < 36 → digit_val (digit_char d) = Some d.
Proof.
  intros Hd. unfold digit_char, digit_val.
  destruct (d <? 10) eqn:E; rewrite byte_of_chr by (unfold is_u8; lia).
  - rewrite (proj2 (Z.leb_le _ _)), (proj2 (Z.leb_le _ _)) by lia. simpl. f_equal. lia.
  - assert ((48 <=? 87 + d) && (87 + d <=? 57) = false) as -> by lia.
    assert ((97 <=? 87 + d) && (87 + d <=? 122) = true) as -> by lia. f_equal. lia.
Qed.

Lemma digit_val_nonneg c d : digit_val c = Some d → 0 ≤ d.
Proof.
  unfold digit_val. generalize (byte_of c) as b. intros b.
  destruct ((48 <=? b) && (b <=? 57)) eqn:?; [intros [= <-]; lia|].
  destruct ((97 <=? b) && (b <=? 122)) eqn:?; [intros [= <-]; lia|].
  destruct ((65 <=? b) && (b <=? 90)) eqn:?; [intros [= <-]; lia|done].
Qed.

(** ** Printing: [%d], [%x], and their zero-padded forms *)
Fixpoint print_base (fuel : nat) (base n : Z) (acc : string) : string :=
  match fuel with
  | O => acc
  | S fuel =>
      let acc := String (digit_char (n mod base)) acc in
      if n / base =? 0 then acc else print_base fuel base (n / base) acc
  end.

(** [Z.log2 n + 1] digits are enough in any base of at least 2. *)
Definition print_fuel (n : Z) : nat := S (Z.to_nat (Z.log2 n)).
Definition fmt_base (base n : Z) : string := print_base (print_fuel n) base n "".
Definition fmt_u (n : Z) : string := fmt_base 10 n.
Definition fmt_d (n : Z) : string :=
  if n <? 0 then "-" +:+ fmt_u (- n) else fmt_u n.
Definition fmt_x (n : Z) : string := fmt_base 16 n.

Fixpoint zeros (n : nat) : string := match n with O => "" | S n => String "0" (zeros n) end.
Definition pad0 (w : nat) (s : string) : string := zeros (w - String.length s) +:+ s.
Definition fmt_02x (n : Z) : string := pad0 2 (fmt_x n).
Definition fmt_04x (n : Z) : string := pad0 4 (fmt_x n).

(** [hex.EncodeToString]. *)
Fixpoint hex_encode (l : list Z) : string :=
  match l with
  | [] => ""
  | b :: l => String (digit_char (b / 16)) (String (digit_char (b mod 16)) (hex_encode l))
  end.

(** [hex.DecodeString]: pairs are read from the left; the first bad byte is
    reported with [%#U], an odd length only after the leftover digit is good. *)
Definition hex_val (c : ascii) : option Z :=
  match digit_val c with Some d => if d <? 16 then Some d else None | None => None end.
Definition hex_upper (d : Z) : ascii := if d <? 10 then chr (48 + d) else chr (55 + d).
Definition fmt_hash_U (b : Z) : string :=
  "U+00" +:+ String (hex_upper (b / 16)) (String (hex_upper (b mod 16)) "") +:+
  (if (32 <=? b) && (b <? 127) then " '" +:+ str1 b +:+ "'"
   else if (161 <=? b) && negb (b =? 173)
        then " '" +:+ str1 (192 + b / 64) +:+ str1 (128 + b mod 64) +:+ "'"
        else "").
Definition hex_byte_error (c : ascii) : error :=
  errorf ("encoding/hex: invalid byte: " +:+ fmt_hash_U (byte_of c)).
Fixpoint hex_decode (s : string) : res (list Z) :=
  match s with
  | "" => Ok []
  | String a (String b s) =>
      match hex_val a, hex_val b with
      | None, _ => Err (hex_byte_error a)
      | _, None => Err (hex_byte_error b)
      | Some x, Some y => let! l := hex_decode s in Ok (x * 16 + y :: l)
      end
  | String a "" =>
      match hex_val a with
      | None => Err (hex_byte_error a)
      | Some _ => Err (errorf "encoding/hex: odd length hex string")
      end
  end.

(** [%q] on printable ASCII text with the usual escapes; other bytes are
    rendered [\xNN]. *)
Fixpoint quote_body (s : string) : string :=
  match s with
  | "" => ""
  | String c s =>
      let b := byte_of c in
      let r :=
        if b =? 34 then String (chr 92) (String (chr 34) "")
        else if b =? 92 then String (chr 92) (String (chr 92) "")
        else if b =? 10 then "\n"
        else if b =? 13 then "\r"
        else if b =? 9 then "\t"
        else if (32 <=? b) && (b <? 127) then String c ""
        else "\x" +:+ fmt_02x b in
      r +:+ quote_body s
  end.
Definition fmt_q (s : string) : string := str1 34 +:+ quote_body s +:+ str1 34.

(** ** Parsing numbers *)
(** The loop of [strconv.ParseUint] in a fixed base: the first bad digit and
    the first overflow end it. *)
Inductive num_error := ErrSyntax | ErrRange.

Fixpoint parse_digits (base maxv acc : Z) (s : string) : Z + num_error :=
  match s with
  | "" => inl acc
  | String c s =>
      match digit_val c with
      | Some d =>
          if base <=? d then inr ErrSyntax
          else let acc := acc * base + d in
               if maxv <? acc then inr ErrRange else parse_digits base maxv acc s
      | None => inr ErrSyntax
      end
  end.

Definition num_error_text (fn s : string) (e : num_error) : error :=
  errorf ("strconv." +:+ fn +:+ ": parsing " +:+ fmt_q s +:+ ": " +:+
          match e with ErrSyntax => "invalid syntax" | ErrRange => "value out of range" end).

(** [strconv.ParseUint(s, base, bits)] for a non-zero base. *)
Definition parse_uint (s : string) (base bits : Z) : res Z :=
  match s with
  | "" => Err (num_error_text "ParseUint" s ErrSyntax)
  | _ => match parse_digits base (2 ^ bits - 1) 0 s with
         | inl n => Ok n
         | inr e => Err (num_error_text "ParseUint" s e)
         end
  end.

(** [strconv.Atoi] on a 64-bit platform. *)
Definition atoi (s : string) : res Z :=
  let fail e := Err (num_error_text "Atoi" s e) in
  let go (neg : bool) (body : string) :=
    match body with
    | "" => fail ErrSyntax
    | _ => match parse_digits 10 (2 ^ 64 - 1) 0 body with
           | inl n =>
               if neg then if 2 ^ 63 <? n then fail ErrRange else Ok (- n)
               else if 2 ^ 63 - 1 <? n then fail ErrRange else Ok n
           | inr e => fail e
           end
    end in
  match s with
  | String c rest =>
      if byte_of c =? 45 then go true rest
      else if byte_of c =? 43 then go false rest
      else go false s
  | "" => fail ErrSyntax
  end.

Lemma atoi_returns s : returns (atoi s).
Proof. unfold atoi. repeat case_match; exact I. Qed.
#[export] Hint Resolve atoi_returns : returns.

(** [strconv.ParseBool]. *)
Definition parse_bool (s : string) : res bool :=
  if bool_decide (s ∈ ["1"; "t"; "T"; "TRUE"; "true"; "True"]) then Ok true
  else if bool_decide (s ∈ ["0"; "f"; "F"; "FALSE"; "false"; "False"]) then Ok false
  else Err (num_error_text "ParseBool" s ErrSyntax).

(** ** Searching and splitting *)
(** [strings.HasPrefix] / [strings.CutPrefix]. *)
Fixpoint cut_prefix (p s : string) : option string :=
  match p, s with
  | "", _ => Some s
  | String a p, String b s => if bool_decide (a = b) then cut_prefix p s else None
  | String _ _, "" => None
  end.
Definition has_prefix (s p : string) : bool := bool_decide (is_Some (cut_prefix p s)).

(** [strings.Cut(s, sep)]: the texts around the first [sep]. *)
Fixpoint cut_str (s sep : string) : option (string * string) :=
  match cut_prefix sep s with
  | Some rest => Some ("", rest)
  | None =>
      match s with
      | "" => None
      | String c s =>
          match cut_str s sep with
          | Some (a, b) => Some (String c a, b)
          | None => None
          end
      end
  end.
Definition contains (s sub : string) : bool := bool_decide (is_Some (cut_str s sub)).

Fixpoint all_chars (P : ascii → bool) (s : string) : bool :=
  match s with "" => true | String c s => P c && all_chars P s end.
Definition any_char (P : ascii → bool) (s : string) : bool := negb (all_chars (negb ∘ P) s).

(** [strings.ContainsAny]. *)
Definition contains_any (s set : string) : bool :=
  any_char (λ c, any_char (λ d, bool_decide (c = d)) set) s.

(** [strings.Split] on a one-byte separator. *)
Fixpoint split_on (c : ascii) (s : string) : list string :=
  match s with
  | "" => [""]
  | String d s =>
      if bool_decide (d = c) then "" :: split_on c s
      else match split_on c s with
           | w :: ws => String d w :: ws
           | [] => [String d ""]
           end
  end.

(** [strings.SplitN] on a one-byte separator, [n > 0]: the last part keeps the
    remaining separators. *)
Fixpoint split_n (n : nat) (c : ascii) (s : string) : list string :=
  match n with
  | O => []
  | S O => [s]
  | S n =>
      (fix go (s : string) : list string :=
         match s with
         | "" => [""]
         | String d s =>
             if bool_decide (d = c) then "" :: split_n n c s
             else match go s with
                  | w :: ws => String d w :: ws
                  | [] => [String d ""]
                  end
         end) s
  end.

(** [strings.Join]. *)
Fixpoint join (sep : string) (l : list string) : string :=
  match l with
  | [] => ""
  | [x] => x
  | x :: l => x +:+ sep +:+ join sep l
  end.

(** ** White space: [unicode.IsSpace] on the UTF-8 encoding

    [space_len s] is the length in bytes of the white-space rune at the head
    of [s], 0 when there is none. *)
Definition space_len (l : list Z) : nat :=
  match l with
  | [] => 0%nat
  | a :: l1 =>
      if ((9 <=? a) && (a <=? 13)) || (a =? 32) then 1%nat
      else match l1 with
      | [] => 0%nat
      | b :: l2 =>
          if (a =? 194) && ((b =? 133) || (b =? 160)) then 2%nat
          else match l2 with
          | [] => 0%nat
          | c :: _ =>
              if ((a =? 225) && (b =? 154) && (c =? 128)) ||
                 ((a =? 226) && (b =? 128) &&
                    (((128 <=? c) && (c <=? 138)) || (c =? 168) || (c =? 169) || (c =? 175))) ||
                 ((a =? 226) && (b =? 129) && (c =? 159)) ||
                 ((a =? 227) && (b =? 128) && (c =? 128))
              then 3%nat else 0%nat
          end
      end
  end.

Fixpoint str_drop (n : nat) (s : string) : string :=
  match n, s with S n, String _ s => str_drop n s | _, _ => s end.

Fixpoint trim_left_fuel (fuel : nat) (s : string) : string :=
  match fuel with
  | O => s
  | S fuel =>
      match space_len (bytes_of s) with
      | O => s
      | n => trim_left_fuel fuel (str_drop n s)
      end
  end.
Definition trim_left (s : string) : string := trim_left_fuel (String.length s) s.

(** Only white space: what [TrimRight] by white space removes as a suffix. *)
Definition all_space (s : string) : bool := bool_decide (trim_left s = "").

(** Cut the longest suffix made of white-space runes only. *)
Fixpoint trim_right (s : string) : string :=
  match s with
  | "" => ""
  | String c r => if all_space s then "" else String c (trim_right r)
  end.
Definition trim_space (s : string) : string := trim_right (trim_left s).

(** [strings.Fields]: the maximal runs of non-space runes. *)
Fixpoint fields_fuel (fuel : nat) (cur : string) (s : string) : list string :=
  let flush := if bool_decide (cur = "") then [] else [cur] in
  match fuel with
  | O => flush
  | S fuel =>
      match s with
      | "" => flush
      | String c r =>
          match space_len (bytes_of s) with
          | O => fields_fuel fuel (cur +:+ String c "") r
          | n => flush ++ fields_fuel fuel "" (str_drop n s)
          end
      end
  end.
Definition fields (s : string) : list string := fields_fuel (S (String.length s)) "" s.

(** [strings.TrimRight(s, cutset)] for a one-byte cutset. *)
Fixpoint trim_right_char (d : ascii) (s : string) : string :=
  match s with
  | "" => ""
  | String c r =>
      if all_chars (λ x, bool_decide (x = d)) s then "" else String c (trim_right_char d r)
  end.

(** [strings.ToLower], exact on every rune whose image is ASCII (A-Z, the
    dotted capital I and the Kelvin sign); the other bytes are kept, which no
    comparison with an ASCII literal can tell from Go's result. *)
Fixpoint to_lower (s : string) : string :=
  match s with
  | "" => ""
  | String c r =>
      let b := byte_of c in
      if (65 <=? b) && (b <=? 90) then String (chr (b + 32)) (to_lower r)
      else match r with
           | String c2 r2 =>
               if (b =? 196) && (byte_of c2 =? 176) then String (chr 105) (to_lower r2)
               else match r2 with
                    | String c3 r3 =>
                        if (b =? 226) && (byte_of c2 =? 132) && (byte_of c3 =? 170)
                        then String (chr 107) (to_lower r3)
                        else String c (to_lower r)
                    | "" => String c (to_lower r)
                    end
           | "" => String c (to_lower r)
           end
  end.

(** [strings.IndexByte(s, c)], -1 when absent. *)
Fixpoint index_byte (c : ascii) (s : string) : Z :=
  match s with
  | "" => -1
  | String d r =>
      if bool_decide (d = c) then 0
      else let i := index_byte c r in if i <? 0 then -1 else i + 1
  end.

(** ** Round trips of the number and byte codecs *)
Lemma parse_digits_print_base base maxv fuel n s :
  2 ≤ base ≤ 36 → 0 ≤ n ≤ maxv → n < 2 ^ Z.of_nat fuel → (0 < fuel)%nat →
  parse_digits base maxv 0 (print_base fuel base n s) = parse_digits base maxv n s.
Proof.
  intros Hb. revert n s. induction fuel as [|fuel IH]; intros n s Hn Hf Hpos; [lia|].
  assert (0 ≤ n mod base < base) by (apply Z.mod_pos_bound; lia).
  pose proof (Z.div_mod n base ltac:(lia)) as Hdm.
  assert (Hstep : ∀ acc, acc * base + n mod base = n →
    parse_digits base maxv acc (String (digit_char (n mod base)) s) = parse_digits base maxv n s).
  { intros acc Hacc. cbn [parse_digits]. rewrite digit_val_char by lia.
    assert ((base <=? n mod base) = false) as -> by lia. rewrite Hacc.
    by assert ((maxv <? n) = false) as -> by lia. }
  cbn [print_base]. destruct (n / base =? 0) eqn:E.
  - apply Hstep. lia.
  - assert (0 ≤ n / base ≤ maxv).
    { split; [apply Z.div_pos; lia|]. transitivity n; [|lia]. apply Z.div_le_upper_bound; nia. }
    assert (0 < fuel)%nat.
    { destruct fuel; [|lia]. change (Z.of_nat 1) with 1 in Hf. assert (n = 0 ∨ n = 1) as [-> | ->] by lia;
        rewrite ?Z.div_0_l, ?(Z.div_small 1) in E by lia; done. }
    rewrite IH; [apply Hstep; lia|lia| |done].
    rewrite Nat2Z.inj_succ, Z.pow_succ_r in Hf by lia.
    apply Z.div_lt_upper_bound; nia.
Qed.

Lemma print_fuel_ok n : 0 ≤ n → n < 2 ^ Z.of_nat (print_fuel n).
Proof.
  intros. unfold print_fuel. rewrite Nat2Z.inj_succ, Z2Nat.id by apply Z.log2_nonneg.
  destruct (decide (n = 0)) as [-> | ]; [done|]. apply Z.log2_spec; lia.
Qed.

Lemma parse_digits_fmt_base base maxv n s :
  2 ≤ base ≤ 36 → 0 ≤ n ≤ maxv →
  parse_digits base maxv 0 (print_base (print_fuel n) base n s) = parse_digits base maxv n s.
Proof.
  intros. apply parse_digits_print_base; [done..| |unfold print_fuel; lia].
  apply print_fuel_ok; lia.
Qed.

Lemma parse_digits_zeros base maxv k s :
  2 ≤ base ≤ 36 → 0 ≤ maxv →
  parse_digits base maxv 0 (zeros k +:+ s) = parse_digits base maxv 0 s.
Proof.
  intros Hb Hm. induction k as [|k IH]; [done|].
  cbn [zeros]. change (String "0" (zeros k) +:+ s) with (String "0" (zeros k +:+ s)).
  cbn [parse_digits]. change (digit_val "0") with (Some 0). cbv iota.
  assert ((base <=? 0) = false) as -> by lia. change (0 * base + 0) with 0.
  by assert ((maxv <? 0) = false) as -> by lia.
Qed.

Lemma print_base_nonempty fuel base n s : (0 < fuel)%nat → print_base fuel base n s ≠ "".
Proof.
  revert n s. induction fuel as [|fuel IH]; intros n s Hf; [lia|]. cbn [print_base].
  destruct (n / base =? 0); [done|]. destruct fuel; [done|]. apply IH. lia.
Qed.

Lemma parse_uint_digits s base bits n :
  s ≠ "" → parse_digits base (2 ^ bits - 1) 0 s = inl n → parse_uint s base bits = Ok n.
Proof. unfold parse_uint. destruct s; [done|]. by intros _ ->. Qed.

(** [strconv.ParseUint] reads back a zero-padded [fmt] rendering. *)
Lemma parse_uint_pad0 base bits w n :
  2 ≤ base ≤ 36 → 0 ≤ n < 2 ^ bits →
  parse_uint (pad0 w (fmt_base base n)) base bits = Ok n.
Proof.
  intros Hb Hn. apply parse_uint_digits.
  - unfold pad0, fmt_base. destruct (_ - _)%nat; [|done].
    apply print_base_nonempty. unfold print_fuel; lia.
  - unfold pad0, fmt_base. rewrite parse_digits_zeros by lia.
    by rewrite parse_digits_fmt_base by lia.
Qed.

Lemma pad0_0 s : pad0 0 s = s.
Proof. done. Qed.
Lemma parse_uint_fmt base bits n :
  2 ≤ base ≤ 36 → 0 ≤ n < 2 ^ bits → parse_uint (fmt_base base n) base bits = Ok n.
Proof. intros. rewrite <- (pad0_0 (fmt_base base n)). by apply parse_uint_pad0. Qed.

Lemma all_chars_app P s t : all_chars P (s +:+ t) = all_chars P s && all_chars P t.
Proof. induction s as [|c s IH]; simpl; [done|]. change (String c s +:+ t) with (String c (s +:+ t)).
  simpl. by rewrite IH, andb_assoc. Qed.

(** A digit character of a base of at most 36. *)
Definition is_alnum (c : ascii) : bool := bool_decide (is_Some (digit_val c)).

Lemma is_alnum_digit d : 0 ≤ d < 36 → is_alnum (digit_char d) = true.
Proof. intros. unfold is_alnum. apply bool_decide_eq_true. rewrite digit_val_char by done. eauto. Qed.

Lemma print_base_alnum fuel base n s :
  2 ≤ base ≤ 36 → all_chars is_alnum s = true →
  all_chars is_alnum (print_base fuel base n s) = true.
Proof.
  intros Hb. revert n s. induction fuel as [|fuel IH]; intros n s Hs; [done|]. cbn [print_base].
  assert (0 ≤ n mod base < base) by (apply Z.mod_pos_bound; lia).
  assert (all_chars is_alnum (String (digit_char (n mod base)) s) = true).
  { cbn [all_chars]. rewrite is_alnum_digit by lia. done. }
  destruct (n / base =? 0); auto.
Qed.

Lemma zeros_alnum k : all_chars is_alnum (zeros k) = true.
Proof. induction k; [done|]. simpl. by rewrite IHk. Qed.

Lemma pad0_alnum w base n : 2 ≤ base ≤ 36 → all_chars is_alnum (pad0 w (fmt_base base n)) = true.
Proof.
  intros. unfold pad0. rewrite all_chars_app, zeros_alnum. by apply print_base_alnum.
Qed.

Lemma hex_encode_alnum l : Forall is_u8 l → all_chars is_alnum (hex_encode l) = true.
Proof.
  unfold is_u8. induction 1 as [|b l Hb _ IH]; [done|]. simpl.
  rewrite !is_alnum_digit, IH; [done| |].
  - pose proof (Z.mod_pos_bound b 16). lia.
  - split; [apply Z.div_pos; lia|]. assert (b / 16 < 16) by (apply Z.div_lt_upper_bound; lia). lia.
Qed.

(** [hex.DecodeString] inverts [hex.EncodeToString]. *)
Lemma hex_decode_encode l : Forall is_u8 l → hex_decode (hex_encode l) = Ok l.
Proof.
  unfold is_u8. induction 1 as [|b l Hb _ IH]; [done|]. simpl.
  assert (0 ≤ b / 16 < 16) by (split; [apply Z.div_pos|apply Z.div_lt_upper_bound]; lia).
  assert (0 ≤ b mod 16 < 16) by (apply Z.mod_pos_bound; lia).
  unfold hex_val. rewrite !digit_val_char by lia.
  assert ((b / 16 <? 16) = true) as -> by lia. assert ((b mod 16 <? 16) = true) as -> by lia.
  rewrite IH. simpl. do 2 f_equal. pose proof (Z.div_mod b 16). lia.
Qed.

(** ** Splitting what was joined *)
Definition lacks (c : ascii) (s : string) : bool := all_chars (λ d, negb (bool_decide (d = c))) s.

Lemma alnum_lacks c s : digit_val c = None → all_chars is_alnum s = true → lacks c s = true.
Proof.
  intros Hc. unfold lacks. induction s as [|d s IH]; [done|]. simpl.
  intros [Hd Hs]%andb_true_iff. rewrite IH, andb_true_r by done.
  case_bool_decide; subst; [|done]. unfold is_alnum in Hd. rewrite Hc in Hd. done.
Qed.

Lemma split_on_lacks c s : lacks c s = true → split_on c s = [s].
Proof.
  induction s as [|d s IH]; [done|]. unfold lacks. simpl.
  intros [Hd Hs]%andb_true_iff. case_bool_decide; [done|]. by rewrite IH.
Qed.

Lemma split_on_app c a b : lacks c a = true → split_on c (a +:+ String c b) = a :: split_on c b.
Proof.
  induction a as [|d a IH]; simpl.
  - intros _. change ("" +:+ String c b) with (String c b). simpl. by rewrite bool_decide_true.
  - unfold lacks. simpl. intros [Hd Hs]%andb_true_iff.
    change (String d a +:+ String c b) with (String d (a +:+ String c b)). simpl.
    case_bool_decide; [done|]. by rewrite IH.
Qed.

Lemma split_n_app n c a b :
  lacks c a = true → split_n (S (S n)) c (a +:+ String c b) = a :: split_n (S n) c b.
Proof.
  induction a as [|d a IH]; simpl.
  - intros _. change ("" +:+ String c b) with (String c b). by rewrite bool_decide_true.
  - unfold lacks. simpl. intros [Hd Hs]%andb_true_iff.
    change (String d a +:+ String c b) with (String d (a +:+ String c b)).
    case_bool_decide; [done|]. simpl in IH. by rewrite IH.
Qed.

Lemma split_on_sep c a b :
  lacks c a = true → split_on c (a +:+ String c "" +:+ b) = a :: split_on c b.
Proof. apply split_on_app. Qed.
Lemma split_n_sep n c a b :
  lacks c a = true → split_n (S (S n)) c (a +:+ String c "" +:+ b) = a :: split_n (S n) c b.
Proof. apply split_n_app. Qed.

Lemma split_n_1 c s : split_n 1 c s = [s].
Proof. done. Qed.

Lemma split_join c l :
  l ≠ [] → Forall (λ s, lacks c s = true) l → split_on c (join (String c "") l) = l.
Proof.
  intros Hne Hl. induction Hl as [|x l Hx Hl IH]; [done|]. destruct l as [|y l].
  - simpl. by apply split_on_lacks.
  - change (join (String c "") (x :: y :: l)) with (x +:+ String c (join (String c "") (y :: l))).
    rewrite split_on_app by done. by rewrite IH.
Qed.

Lemma bytes_of_string_of l : Forall is_u8 l → bytes_of (string_of l) = l.
Proof. induction 1 as [|b l Hb _ IH]; [done|]. simpl. by rewrite byte_of_chr, IH. Qed.
Lemma string_of_bytes_of s : string_of (bytes_of s) = s.
Proof. induction s as [|c s IH]; [done|]. simpl. by rewrite chr_byte_of, IH. Qed.
Lemma bytes_of_range s : Forall is_u8 (bytes_of s).
Proof. induction s; constructor; auto using byte_of_range. Qed.
Lemma str_app_assoc (a b c : string) : (a +:+ b) +:+ c = a +:+ (b +:+ c).
Proof. induction a as [|x a IH]; [done|].
  change ((String x a +:+ b) +:+ c) with (String x ((a +:+ b) +:+ c)). by rewrite IH. Qed.
#[export] Hint Rewrite str_app_assoc : gosimp.

(** ** [filepath.Join] for an absolute first element: join, then clean *)
Fixpoint clean_parts (stack parts : list string) : list string :=
  match parts with
  | [] => rev stack
  | p :: parts =>
      if bool_decide (p ∈ [""; "."]) then clean_parts stack parts
      else if bool_decide (p = "..") then clean_parts (tail stack) parts
      else clean_parts (p :: stack) parts
  end.
Definition clean_abs (path : string) : string := "/" +:+ join "/" (clean_parts [] (split_on "/" path)).
Definition path_join (elems : list string) : string :=
  clean_abs (join "/" (List.filter (λ e, negb (bool_decide (e = ""))) elems)).

Example ex_path_join : path_join ["/sys/fs/bpf"; "sw0/../sw1/./"; "slots_v2"] = "/sys/fs/bpf/sw1/slots_v2".
Proof. vm_compute. reflexivity. Qed.
