(* ===== verification/GoText.v ===== *)
(** * Words and UTF-8 text

    Lemmas on [strings.Fields], [strings.TrimSpace] and [strings.Cut] for texts
    made of solid ASCII words, and the decoding step of a [range] loop over a
    string. *)
From S2P Require Import Prelude Errors GoStrings.

(** ** Runes *)
Definition is_cont (b : Z) : bool := (128 <=? b) && (b <=? 191).
Definition between (lo hi b : Z) : bool := (lo <=? b) && (b <=? hi).

(** [utf8.DecodeRune]: the length of the valid rune at the head, 0 when the
    byte there starts none. *)
Definition rune_len (l : list Z) : nat :=
  match l with
  | [] => 0%nat
  | a :: l =>
      if between 0 127 a then 1
      else match l with
      | [] => 0%nat
      | b :: l =>
          if between 194 223 a then (if is_cont b then 2%nat else 0%nat)
          else match l with
          | [] => 0%nat
          | c :: l =>
              if between 224 239 a then
                let ok := if a =? 224 then between 160 191 b
                          else if a =? 237 then between 128 159 b else is_cont b in
                if ok && is_cont c then 3%nat else 0%nat
              else match l with
              | [] => 0%nat
              | d :: _ =>
                  let ok := if a =? 240 then between 144 191 b
                            else if a =? 244 then between 128 143 b
                            else between 241 243 a && is_cont b in
                  if ok && is_cont c && is_cont d then 4%nat else 0%nat
              end
          end
      end
  end.

Fixpoint str_take (n : nat) (s : string) : string :=
  match n, s with S n, String c s => String c (str_take n s) | _, _ => "" end.

(** The replacement rune U+FFFD, which [range] yields for a bad byte. *)
Definition rune_error : string := string_of [239; 191; 189].

(** ** Solid characters: ASCII, neither NUL nor white space *)
Definition solid (c : ascii) : bool :=
  let b := byte_of c in between 1 127 b && negb (between 9 13 b) && negb (b =? 32).
Definition word (s : string) : Prop := s ≠ "" ∧ all_chars solid s = true.

#[export] Instance word_dec s : Decision (word s).
Proof. unfold word. apply _. Defined.

Lemma solid_not_space c l : solid c = true → space_len (byte_of c :: l) = 0%nat.
Proof.
  unfold solid, between. intros H. pose proof (byte_of_range c) as Hr. unfold is_u8 in Hr.
  set (b := byte_of c) in *. cbn [space_len].
  assert (((9 <=? b) && (b <=? 13)) || (b =? 32) = false) as -> by lia.
  destruct l as [|b1 l]; [done|].
  assert (b =? 194 = false) as -> by lia. cbn [andb].
  destruct l as [|b2 l]; [done|].
  assert (b =? 225 = false) as -> by lia. assert (b =? 226 = false) as -> by lia.
  assert (b =? 227 = false) as -> by lia. done.
Qed.

Lemma app_cons c (s t : string) : String c s +:+ t = String c (s +:+ t).
Proof. done. Qed.
Lemma str_app_nil (s : string) : s +:+ "" = s.
Proof. induction s as [|c s IH]; [done|]. by rewrite app_cons, IH. Qed.
Lemma str_app_inj (a s t : string) : a +:+ s = a +:+ t → s = t.
Proof. induction a as [|c a IH]; [done|]. rewrite !app_cons. intros [= E]. auto. Qed.
Lemma length_str_app (s t : string) : String.length (s +:+ t) = (String.length s + String.length t)%nat.
Proof. induction s as [|c s IH]; [done|]. rewrite app_cons. simpl. by rewrite IH. Qed.
Lemma slen_app (s t : string) : slen (s +:+ t) = slen s + slen t.
Proof. unfold slen. rewrite length_str_app. lia. Qed.

(** *** Fields *)
Lemma fields_fuel_solid s fuel cur rest :
  all_chars solid s = true →
  fields_fuel (String.length s + fuel) cur (s +:+ rest) = fields_fuel fuel (cur +:+ s) rest.
Proof.
  revert cur. induction s as [|c s IH]; intros cur; [by rewrite str_app_nil|].
  intros [Hc Hs]%andb_true_iff. rewrite app_cons. cbn [String.length Nat.add fields_fuel].
  cbn [bytes_of]. rewrite solid_not_space by done. rewrite IH by done.
  by rewrite str_app_assoc, app_cons.
Qed.

Lemma fields_join ws : Forall word ws → fields (join " " ws) = ws.
Proof.
  intros Hws. unfold fields.
  enough (∀ fuel, (String.length (join " " ws) < fuel)%nat → fields_fuel fuel "" (join " " ws) = ws) as H
    by (apply H; lia).
  induction Hws as [|w ws [Hne Hw] Hws IH]; intros fuel Hf.
  - destruct fuel; done.
  - destruct ws as [|w' ws].
    + change (join " " [w]) with w in *. replace fuel with (String.length w + (fuel - String.length w))%nat by lia.
      rewrite <-(str_app_nil w) at 3. rewrite fields_fuel_solid by done.
      destruct (fuel - String.length w)%nat eqn:E; [lia|]. simpl.
      by rewrite bool_decide_false.
    + change (join " " (w :: w' :: ws)) with (w +:+ String " " (join " " (w' :: ws))) in *.
      rewrite length_str_app in Hf. cbn [String.length] in Hf.
      replace fuel with (String.length w + S (fuel - String.length w - 1))%nat by lia.
      rewrite fields_fuel_solid by done. cbn [fields_fuel].
      change (space_len (bytes_of (String " " (join " " (w' :: ws))))) with 1%nat. cbv iota.
      change (("" : string) +:+ w) with w. rewrite bool_decide_false by done.
      cbn [str_drop app]. f_equal. apply IH. lia.
Qed.

(** *** TrimSpace *)
Definition starts_solid (s : string) : bool := match s with String c _ => solid c | "" => false end.
Fixpoint ends_solid (s : string) : bool :=
  match s with "" => false | String c "" => solid c | String _ s => ends_solid s end.

Lemma has_solid_drop n s :
  (n = 0 ∨ n = space_len (bytes_of s))%nat → any_char solid s = true → any_char solid (str_drop n s) = true.
Proof.
  unfold any_char. rewrite !negb_true_iff. intros [->| ->]; [done|].
  destruct s as [|a [|b [|c s]]]; cbn [bytes_of space_len]; try done.
  all: repeat case_match; cbn [str_drop all_chars compose]; try done.
  all: try (generalize (all_chars (negb ∘ solid) s); intros r).
  all: unfold compose, solid, between; generalize dependent (byte_of a); try generalize dependent (byte_of b);
    try generalize dependent (byte_of c); clear; intros; try (destruct r); cbn [andb] in *;
    rewrite ?andb_true_r, ?andb_false_r in *; first [done|lia].
Qed.
Lemma has_solid_trim fuel s : any_char solid s = true → any_char solid (trim_left_fuel fuel s) = true.
Proof.
  revert s. induction fuel as [|fuel IH]; intros s Hs; [done|]. cbn [trim_left_fuel].
  destruct (space_len (bytes_of s)) eqn:E; [done|]. apply IH, has_solid_drop; [by right|done].
Qed.
Lemma all_space_solid s : any_char solid s = true → all_space s = false.
Proof.
  intros H. unfold all_space. apply bool_decide_eq_false. intros E.
  pose proof (has_solid_trim (String.length s) s H) as H'. unfold trim_left in E. by rewrite E in H'.
Qed.
Lemma ends_solid_any s : ends_solid s = true → any_char solid s = true.
Proof.
  unfold any_char. rewrite negb_true_iff. induction s as [|c s IH]; [done|]. cbn [ends_solid all_chars].
  destruct s as [|d s]; [simpl; by intros ->|]. intros H. rewrite (IH H). apply andb_false_r.
Qed.
Lemma trim_right_id s : ends_solid s = true → trim_right s = s.
Proof.
  induction s as [|c s IH]; [done|]. intros H. cbn [trim_right].
  rewrite all_space_solid by (by apply ends_solid_any). f_equal.
  destruct s as [|d s]; [done|]. by apply IH.
Qed.
Lemma trim_space_id s : starts_solid s = true → ends_solid s = true → trim_space s = s.
Proof.
  intros H1 H2. unfold trim_space. destruct s as [|c s]; [done|]. unfold trim_left. cbn [String.length trim_left_fuel bytes_of].
  rewrite solid_not_space by done. by apply trim_right_id.
Qed.

Lemma word_starts w : word w → starts_solid w = true.
Proof. intros [? H]. destruct w; [done|]. by apply andb_true_iff in H as [? _]. Qed.
Lemma word_ends w : word w → ends_solid w = true.
Proof.
  intros [Hne H]. induction w as [|c w IH]; [done|]. apply andb_true_iff in H as [Hc H].
  destruct w as [|d w]; [done|]. by apply IH.
Qed.
Lemma ends_solid_app s t : ends_solid t = true → ends_solid (s +:+ t) = true.
Proof.
  intros H. induction s as [|c s IH]; [done|]. rewrite app_cons. cbn [ends_solid].
  destruct (s +:+ t) eqn:E; [|done]. destruct s; [|done]. change ("" +:+ t) with t in E. by rewrite E in H.
Qed.
Lemma starts_solid_app s t : starts_solid s = true → starts_solid (s +:+ t) = true.
Proof. by destruct s. Qed.
Lemma join_ends ws : ws ≠ [] → Forall word ws → ends_solid (join " " ws) = true.
Proof.
  intros Hne H. induction H as [|w ws Hw Hws IH]; [done|]. destruct ws as [|w' ws]; [by apply word_ends|].
  change (ends_solid (w +:+ (" " +:+ join " " (w' :: ws))) = true). apply ends_solid_app, ends_solid_app. by apply IH.
Qed.
Lemma join_starts ws : ws ≠ [] → Forall word ws → starts_solid (join " " ws) = true.
Proof.
  intros Hne H. destruct H as [|w ws Hw Hws]; [done|]. destruct ws as [|w' ws]; [by apply word_starts|].
  change (starts_solid (w +:+ (" " +:+ join " " (w' :: ws))) = true). by apply starts_solid_app, word_starts.
Qed.
Lemma trim_space_words ws : Forall word ws → trim_space (join " " ws) = join " " ws.
Proof.
  intros H. destruct (decide (ws = [])) as [->|Hne]; [done|].
  apply trim_space_id; [by apply join_starts|by apply join_ends].
Qed.
Lemma trim_space_nl s : starts_solid s = true → ends_solid s = true → trim_space (s +:+ str1 10) = s.
Proof.
  intros H1 H2. unfold trim_space, trim_left.
  destruct s as [|c s]; [done|]. rewrite app_cons. cbn [String.length trim_left_fuel bytes_of].
  rewrite solid_not_space by done. rewrite <-app_cons. revert H2. clear H1. generalize (String c s) as t. clear c s.
  induction t as [|c t IH]; intros Ht; [done|]. rewrite app_cons. cbn [trim_right].
  assert (any_char solid (String c (t +:+ str1 10)) = true) as Hany.
  { apply ends_solid_any in Ht. unfold any_char in *. rewrite negb_true_iff in *. cbn [all_chars] in *.
    rewrite all_chars_app. destruct (all_chars _ t); [|by rewrite andb_false_r].
    rewrite andb_true_r in Ht. by rewrite Ht. }
  rewrite all_space_solid by done. f_equal. destruct t as [|d t]; [done|]. by apply IH.
Qed.

(** *** Joining *)
Lemma join_cons sep w ws : ws ≠ [] → join sep (w :: ws) = w +:+ sep +:+ join sep ws.
Proof. by destruct ws. Qed.
Lemma all_chars_join P sep ws :
  all_chars P sep = true → Forall (λ w, all_chars P w = true) ws → all_chars P (join sep ws) = true.
Proof.
  intros Hs H. induction H as [|w ws Hw Hws IH]; [done|]. destruct ws as [|w' ws]; [done|].
  rewrite join_cons, !all_chars_app, Hw, Hs, IH by done. done.
Qed.
Lemma all_chars_mono (P Q : ascii → bool) s :
  (∀ c, P c = true → Q c = true) → all_chars P s = true → all_chars Q s = true.
Proof. intros H. induction s as [|c s IH]; [done|]. simpl. intros [? ?]%andb_true_iff. rewrite H, IH by done. done. Qed.

(** ** Cutting at a character *)
Lemma cut_char c a b : lacks c a = true → cut_str (a +:+ String c b) (String c "") = Some (a, b).
Proof.
  intros H. induction a as [|d a IH].
  - change ("" +:+ String c b) with (String c b). cbn [cut_str cut_prefix]. by rewrite bool_decide_true.
  - unfold lacks in H. simpl in H. apply andb_true_iff in H as [Hd Ha]. rewrite app_cons. cbn [cut_str cut_prefix].
    rewrite bool_decide_false; [by rewrite IH|]. intros ->. by rewrite bool_decide_true in Hd.
Qed.
Lemma cut_prefix_app p s : cut_prefix p (p +:+ s) = Some s.
Proof. induction p as [|c p IH]; [done|]. rewrite app_cons. cbn [cut_prefix]. by rewrite bool_decide_true. Qed.
Lemma has_prefix_app p s : has_prefix (p +:+ s) p = true.
Proof. unfold has_prefix. rewrite cut_prefix_app. by apply bool_decide_eq_true. Qed.
Lemma index_byte_app c a b : lacks c a = true → index_byte c (a +:+ String c b) = slen a.
Proof.
  intros H. induction a as [|d a IH].
  - change ("" +:+ String c b) with (String c b). cbn [index_byte]. by rewrite bool_decide_true.
  - unfold lacks in H. simpl in H. apply andb_true_iff in H as [Hd Ha]. rewrite app_cons. cbn [index_byte].
    destruct (bool_decide (d = c)); [done|]. rewrite IH by done. unfold slen. cbn [String.length].
    rewrite (proj2 (Z.ltb_ge _ 0)) by lia. lia.
Qed.
Lemma str_take_app s t : str_take (String.length s) (s +:+ t) = s.
Proof. induction s as [|c s IH]; [by destruct t|]. rewrite app_cons. simpl. by rewrite IH. Qed.
Lemma str_drop_app s t : str_drop (String.length s) (s +:+ t) = t.
Proof. induction s as [|c s IH]; [by destruct t|]. rewrite app_cons. simpl. by rewrite IH. Qed.

(** *** White space in arbitrary bytes *)
Inductive spaces : string → Prop :=
  | spaces_nil : spaces ""
  | spaces_cons s n : space_len (bytes_of s) = S n → spaces (str_drop (S n) s) → spaces s.

Lemma space_len_app x z n : space_len (bytes_of x) = S n →
  space_len (bytes_of (x +:+ z)) = S n ∧ str_drop (S n) (x +:+ z) = str_drop (S n) x +:+ z ∧
  (String.length (str_drop (S n) x) < String.length x)%nat.
Proof.
  destruct x as [|a [|b [|c x]]]; rewrite ?app_cons; cbn [bytes_of space_len]; intros H; [done|..];
    repeat case_match; simplify_eq; cbn [str_drop String.length]; (split_and!; [done|done|lia]).
Qed.
Lemma spaces_app x z : spaces x → spaces z → spaces (x +:+ z).
Proof.
  induction 1 as [|x n Hx _ IH]; intros Hz; [done|]. destruct (space_len_app x z n Hx) as (H1 & H2 & _).
  apply (spaces_cons _ n); [done|]. rewrite H2. auto.
Qed.
Lemma all_space_spaces s : all_space s = true ↔ spaces s.
Proof.
  unfold all_space, trim_left. rewrite bool_decide_eq_true. split.
  - generalize (String.length s) as fuel. intros fuel. revert s. induction fuel as [|fuel IH]; intros s; cbn [trim_left_fuel].
    + intros ->. constructor.
    + destruct (space_len (bytes_of s)) as [|n] eqn:E; [intros ->; constructor|]. intros H%IH. by eapply spaces_cons.
  - intros H. assert (Hl : (String.length s ≤ String.length s)%nat) by lia. revert Hl. generalize (String.length s) at 2 3 as fuel.
    induction H as [|s n Hs _ IH]; intros fuel Hf; [by destruct fuel|].
    destruct (space_len_app s "" n Hs) as (_ & _ & Hlt). destruct fuel as [|fuel]; [lia|].
    cbn [trim_left_fuel]. rewrite Hs. apply IH. lia.
Qed.

Lemma trim_right_split s : ∃ z, s = trim_right s +:+ z ∧ spaces z.
Proof.
  induction s as [|c s (z & Hs & Hz)]; [exists ""; split; [done|constructor]|]. cbn [trim_right].
  destruct (all_space (String c s)) eqn:E; [exists (String c s); split; [done|by apply all_space_spaces]|].
  exists z. split; [|done]. rewrite app_cons. congruence.
Qed.
Lemma trim_right_idem s : trim_right (trim_right s) = trim_right s.
Proof.
  induction s as [|c s IH]; [done|]. cbn [trim_right]. destruct (all_space (String c s)) eqn:E; [done|].
  cbn [trim_right]. rewrite IH. destruct (all_space (String c (trim_right s))) eqn:E'; [|done].
  exfalso. apply all_space_spaces in E'. destruct (trim_right_split s) as (z & Hs & Hz).
  assert (H : spaces (String c s)) by (rewrite Hs, <-app_cons; by apply spaces_app).
  apply all_space_spaces in H. congruence.
Qed.

(** A line of ASCII words in front of a text. *)
Definition printable (c : ascii) : bool := solid c || bool_decide (c = " "%char).
Lemma spaces_behind a t : all_chars printable a = true → spaces (a +:+ t) → spaces t.
Proof.
  induction a as [|c a IH]; [done|]. cbn [all_chars]. intros [Hc Ha]%andb_true_iff H. apply IH; [done|].
  rewrite app_cons in H. inversion H as [|s n Hn Hs]; subst. cbn [bytes_of] in Hn.
  unfold printable in Hc. destruct (solid c) eqn:E; [by rewrite solid_not_space in Hn|].
  apply bool_decide_eq_true in Hc. subst c. injection Hn as <-. exact Hs.
Qed.
Lemma trim_right_behind a t :
  all_chars printable a = true → trim_right t = t → t ≠ "" → trim_right (a +:+ t) = a +:+ t.
Proof.
  intros Ha Ht Hne. induction a as [|c a IH]; [done|]. pose proof Ha as Ha'. cbn [all_chars] in Ha'.
  apply andb_true_iff in Ha' as [_ Ha']. rewrite app_cons. cbn [trim_right]. rewrite IH by done.
  destruct (all_space (String c (a +:+ t))) eqn:E; [|done]. exfalso. apply all_space_spaces in E.
  rewrite <-app_cons in E. apply spaces_behind, all_space_spaces in E; [|done].
  destruct t as [|d t]; [done|]. cbn [trim_right] in Ht. by rewrite E in Ht.
Qed.
Lemma trim_left_solid s : starts_solid s = true → trim_left s = s.
Proof.
  destruct s as [|c s]; [done|]. intros H. unfold trim_left. cbn [String.length trim_left_fuel bytes_of].
  by rewrite solid_not_space.
Qed.
Lemma trim_char_id d s : lacks d s = true → trim_right_char d s = s.
Proof.
  unfold lacks. induction s as [|c s IH]; [done|]. cbn [all_chars trim_right_char]. intros [Hc Hs]%andb_true_iff.
  apply negb_true_iff, bool_decide_eq_false in Hc. rewrite bool_decide_false by congruence. cbn [andb]. by rewrite IH.
Qed.

Lemma fields_fuel_enough f : ∀ s f' cur, (String.length s < f)%nat → (String.length s < f')%nat →
  fields_fuel f cur s = fields_fuel f' cur s.
Proof.
  induction f as [|f IH]; intros s f' cur Hf Hf'; [lia|]. destruct f' as [|f']; [lia|]. cbn [fields_fuel].
  destruct s as [|c s]; [done|]. destruct (space_len (bytes_of (String c s))) as [|n] eqn:E.
  - cbn [String.length] in *. apply IH; lia.
  - destruct (space_len_app (String c s) "" n E) as (_ & _ & Hlt). f_equal. apply IH; lia.
Qed.
Lemma fields_word w s : word w → fields (w +:+ String " " s) = w :: fields s.
Proof.
  intros [Hne Hw]. unfold fields.
  rewrite (fields_fuel_enough _ _ (String.length w + S (S (String.length s))))
    by (rewrite length_str_app; cbn [String.length]; lia).
  rewrite fields_fuel_solid by done. change (("" : string) +:+ w) with w. cbn [fields_fuel].
  change (space_len (bytes_of (String " " s))) with 1%nat. cbv iota. rewrite bool_decide_false by done. done.
Qed.

Lemma fields_behind ws s : Forall word ws → ws ≠ [] → fields (join " " ws +:+ String " " s) = ws ++ fields s.
Proof.
  induction 1 as [|w ws Hw Hws IH]; intros Hne; [done|]. destruct ws as [|w' ws]; [by apply fields_word|].
  rewrite join_cons, !str_app_assoc by done. change (" " +:+ ?x) with (String " " x). rewrite fields_word by done.
  cbn [app]. f_equal. by apply IH.
Qed.

(** *** Cutting, both ways *)
Lemma cut_char_spec c s :
  match cut_str s (String c "") with
  | Some (a, b) => s = a +:+ String c b ∧ lacks c a = true
  | None => lacks c s = true
  end.
Proof.
  unfold lacks. induction s as [|d s IH]; [done|]. cbn [cut_str cut_prefix]. case_bool_decide as E; [by subst|].
  destruct (cut_str s (String c "")) as [[a b]|].
  - destruct IH as [-> Ha]. split; [done|]. cbn [all_chars]. rewrite Ha. rewrite bool_decide_false by congruence. done.
  - cbn [all_chars]. rewrite IH. rewrite bool_decide_false by congruence. done.
Qed.
Lemma contains_any_lacks s set d : contains_any s set = false → lacks d set = false → lacks d s = true.
Proof.
  unfold contains_any, lacks. unfold any_char at 1. rewrite negb_false_iff. intros H Hd.
  eapply all_chars_mono; [|exact H]. intros c Hc. unfold compose in Hc. apply negb_true_iff in Hc.
  apply negb_true_iff, bool_decide_eq_false. intros ->. unfold any_char in Hc. apply negb_false_iff in Hc.
  assert (all_chars (λ e, negb (bool_decide (e = d))) set = true); [|congruence].
  eapply all_chars_mono; [|exact Hc]. intros e He. unfold compose in He. apply negb_true_iff, bool_decide_eq_false in He.
  apply negb_true_iff, bool_decide_eq_false. congruence.
Qed.
