(* ===== verification/GoTime.v ===== *)
(** * [time.Duration]

    Durations are signed 64-bit nanoseconds: their text ([Duration.String]),
    [Duration.Round], and the saturating difference of two clock readings. *)
From S2P Require Import Prelude Errors GoStrings.

Definition Nanosecond : Z := 1.
Definition Microsecond : Z := 1000 * Nanosecond.
Definition Millisecond : Z := 1000 * Microsecond.
Definition Second : Z := 1000 * Millisecond.
Definition Minute : Z := 60 * Second.
Definition Hour : Z := 60 * Minute.

Definition i64 (z : Z) : Z := (z + 2 ^ 63) mod 2 ^ 64 - 2 ^ 63.
Definition minDuration : Z := - 2 ^ 63.
Definition maxDuration : Z := 2 ^ 63 - 1.
Definition is_i64 (z : Z) : Prop := minDuration ≤ z ≤ maxDuration.

(** [Time.Sub]. *)
Definition time_sub (t u : Z) : Z := Z.min maxDuration (Z.max minDuration (t - u)).

(** [Duration.Round]; [Go]'s [%] takes the sign of the dividend. *)
Definition lessThanHalf (x y : Z) : bool := u64 (x + x) <? u64 y.
Definition dur_round (d m : Z) : Z :=
  if m <=? 0 then d
  else
    let r := Z.rem d m in
    if d <? 0 then
      if lessThanHalf (- r) m then i64 (d - r)
      else let d1 := i64 (d - m - r) in if d1 <? d then d1 else minDuration
    else if lessThanHalf r m then d - r
    else let d1 := i64 (d + m - r) in if d <? d1 then d1 else maxDuration.

(** [fmtFrac]: the last [prec] digits of [v] with the point in front, trailing
    zeros dropped, nothing when all are zero. *)
Fixpoint fmt_frac (prec : nat) (v : Z) (print : bool) (acc : string) : string :=
  match prec with
  | O => if print then "." +:+ acc else acc
  | S prec =>
      let digit := v mod 10 in
      let print := print || negb (digit =? 0) in
      fmt_frac prec (v / 10) print (if print then fmt_u digit +:+ acc else acc)
  end.
Definition frac (prec : nat) (v : Z) : string := fmt_frac prec v false "".

Definition dur_abs_string (u : Z) : string :=
  if u <? Second then
    if u =? 0 then "0s"
    else if u <? Microsecond then fmt_u u +:+ "ns"
    else if u <? Millisecond then fmt_u (u / Microsecond) +:+ frac 3 u +:+ string_of [194; 181] +:+ "s"
    else fmt_u (u / Millisecond) +:+ frac 6 u +:+ "ms"
  else
    let secs := u / Second in
    let s := fmt_u (secs mod 60) +:+ frac 9 u +:+ "s" in
    let mins := secs / 60 in
    if 0 <? mins then
      let ms := fmt_u (mins mod 60) +:+ "m" +:+ s in
      let hours := mins / 60 in
      if 0 <? hours then fmt_u hours +:+ "h" +:+ ms else ms
    else s.
Definition dur_string (d : Z) : string :=
  if d <? 0 then "-" +:+ dur_abs_string (- d) else dur_abs_string d.

Example dur_string_1 : dur_string (90 * Second) = "1m30s". Proof. reflexivity. Qed.
Example dur_string_2 : dur_string (Hour) = "1h0m0s". Proof. reflexivity. Qed.
Example dur_string_3 : dur_string 1500000000 = "1.5s". Proof. reflexivity. Qed.
Example dur_string_4 : dur_string 1500 = ("1.5" +:+ string_of [194; 181] +:+ "s"). Proof. reflexivity. Qed.
Example dur_string_5 : dur_string (dur_round (90 * Second + 500 * Millisecond) Second) = "1m31s". Proof. reflexivity. Qed.
Example dur_string_6 : dur_string (-1000001) = "-1.000001ms". Proof. reflexivity. Qed.
