(* ===== verification/GoNet.v ===== *)
(** * The parts of Go's [net] package the sources use

    A [net.IP] is a byte slice that may be nil: [option (list Z)].  The parsers
    follow [net/netip]: four decimal octets without leading zeros, or IPv6 with
    at most one ellipsis and an optional trailing dotted quad. *)
From S2P Require Import Prelude Errors GoStrings.

Definition IP := option (list Z).
Definition HardwareAddr := list Z.
Record IPNet := MkIPNet { net_ip : IP; net_mask : list Z }.

#[export] Instance IPNet_eq_dec : EqDecision IPNet.
Proof. solve_decision. Defined.

Definition ip_bytes (ip : IP) : list Z := default [] ip.

Definition v4InV6Prefix : list Z := [0;0;0;0;0;0;0;0;0;0;255;255].

(** [IP.To4]. *)
Definition To4 (ip : IP) : IP :=
  match ip with
  | None => None
  | Some l =>
      if bool_decide (length l = 4%nat) then Some l
      else if bool_decide (length l = 16%nat) && bool_decide (take 12 l = v4InV6Prefix)
           then Some (drop 12 l) else None
  end.

(** [net.IPv4(a, b, c, d)]: the 16-byte form. *)
Definition IPv4 (a b c d : Z) : IP := Some (v4InV6Prefix ++ [a; b; c; d]).

(** ** Rendering *)
Definition fmt_v4 (l : list Z) : string := join "." (map fmt_u l).

Definition groups (l : list Z) : list Z :=
  (fix go (l : list Z) : list Z :=
     match l with a :: b :: l => (a * 256 + b) :: go l | _ => [] end) l.

(** The length of the run of zero groups at the head. *)
Fixpoint zero_run (l : list Z) : nat :=
  match l with 0 :: l => S (zero_run l) | _ => O end.
(** Start and length of the first longest run of at least [best] + 1 zeros. *)
Fixpoint longest_run (l : list Z) (i best_at best : nat) : nat * nat :=
  match l with
  | [] => (best_at, best)
  | _ :: l' =>
      let r := zero_run l in
      if bool_decide (best < r)%nat then longest_run l' (S i) i r
      else longest_run l' (S i) best_at best
  end.
Definition fmt_v6 (l : list Z) : string :=
  let g := groups l in
  let '(at_, len) := longest_run g 0 0 1 in
  if bool_decide (1 < len)%nat
  then join ":" (map fmt_x (take at_ g)) +:+ "::" +:+ join ":" (map fmt_x (drop (at_ + len) g))
  else join ":" (map fmt_x g).

(** [IP.String]. *)
Definition ip_string (ip : IP) : string :=
  match ip_bytes ip with
  | [] => "<nil>"
  | l =>
      match To4 (Some l) with
      | Some v4 => fmt_v4 v4
      | None => if bool_decide (length l = 16%nat) then fmt_v6 l else "?" +:+ hex_encode l
      end
  end.

(** [HardwareAddr.String]. *)
Definition mac_string (m : HardwareAddr) : string := join ":" (map fmt_02x m).

(** ** Parsing addresses *)
Definition dec_digit (c : ascii) : option Z :=
  match digit_val c with Some d => if d <? 10 then Some d else None | None => None end.

Fixpoint parse_octet (digits : nat) (val : Z) (s : string) : option Z :=
  match s with
  | "" => if bool_decide (digits = O) then None else Some val
  | String c s =>
      match dec_digit c with
      | Some d =>
          if bool_decide (digits = 1%nat) && (val =? 0) then None
          else let val := val * 10 + d in
               if 255 <? val then None else parse_octet (S digits) val s
      | None => None
      end
  end.

Definition parse_v4 (s : string) : option (list Z) :=
  match split_on "." s with
  | [a; b; c; d] =>
      match parse_octet 0 0 a, parse_octet 0 0 b, parse_octet 0 0 c, parse_octet 0 0 d with
      | Some a, Some b, Some c, Some d => Some [a; b; c; d]
      | _, _, _, _ => None
      end
  | _ => None
  end.

(** One hexadecimal group: its value, its number of digits and what follows. *)
Fixpoint parse_group (off : nat) (acc : Z) (s : string) : option (nat * Z * string) :=
  match s with
  | "" => Some (off, acc, s)
  | String c r =>
      match hex_val c with
      | Some d => if bool_decide (3 < off)%nat then None else parse_group (S off) (acc * 16 + d) r
      | None => Some (off, acc, s)
      end
  end.

(** The loop of [parseIPv6]: [ip] holds the bytes so far. *)
Fixpoint parse_v6_loop (fuel : nat) (ip : list Z) (ell : option nat) (s : string)
    : option (list Z * option nat * string) :=
  match fuel with
  | O => Some (ip, ell, s)
  | S fuel =>
      if bool_decide (16 ≤ length ip)%nat then Some (ip, ell, s)
      else match parse_group 0 0 s with
      | None | Some (O, _, _) => None
      | Some (_, acc, rest) =>
          match rest with
          | "" => Some (ip ++ [acc / 256; acc mod 256], ell, "")
          | String c r =>
              if bool_decide (c = "."%char) then
                if bool_decide (ell = None) && negb (bool_decide (length ip = 12%nat)) then None
                else if bool_decide (16 < length ip + 4)%nat then None
                else match parse_v4 s with
                     | Some q => Some (ip ++ q, ell, "")
                     | None => None
                     end
              else if bool_decide (c = ":"%char) then
                let ip := ip ++ [acc / 256; acc mod 256] in
                match r with
                | "" => None
                | String c2 r2 =>
                    if bool_decide (c2 = ":"%char) then
                      match ell with
                      | Some _ => None
                      | None =>
                          match r2 with
                          | "" => Some (ip, Some (length ip), "")
                          | _ => parse_v6_loop fuel ip (Some (length ip)) r2
                          end
                      end
                    else parse_v6_loop fuel ip ell r
                end
              else None
          end
      end
  end.

Definition parse_v6 (s : string) : option (list Z) :=
  let finish (r : option (list Z * option nat * string)) :=
    match r with
    | Some (ip, ell, "") =>
        if bool_decide (length ip < 16)%nat then
          match ell with
          | Some k => Some (take k ip ++ replicate (16 - length ip) 0 ++ drop k ip)
          | None => None
          end
        else match ell with Some _ => None | None => Some ip end
    | _ => None
    end in
  match cut_prefix "::" s with
  | Some "" => Some (replicate 16 0)
  | Some r => finish (parse_v6_loop 9 [] (Some O) r)
  | None => finish (parse_v6_loop 9 [] None s)
  end.

(** [netip.ParseAddr] without a zone: the first of [.], [:] and [%] decides
    the syntax; the result is 4 or 16 bytes. *)
Fixpoint addr_mark (t : string) : option ascii :=
  match t with
  | "" => None
  | String c t => if bool_decide (c ∈ ["."; ":"; "%"]%char) then Some c else addr_mark t
  end.
Definition parse_addr (s : string) : option (list Z) :=
  match addr_mark s with
  | Some c => if bool_decide (c = "."%char) then parse_v4 s
              else if bool_decide (c = ":"%char) then parse_v6 s
              else None
  | None => None
  end.

Definition to16 (l : list Z) : list Z :=
  if bool_decide (length l = 4%nat) then v4InV6Prefix ++ l else l.

(** [net.ParseIP]: nil on a bad text, else always 16 bytes. *)
Definition ParseIP (s : string) : IP := to16 <$> parse_addr s.

(** ** Masks and CIDRs *)
(** [net.CIDRMask(ones, bits)] for [0 <= ones <= bits], [bits] 32 or 128. *)
Fixpoint mask_bytes (n : nat) (ones : Z) : list Z :=
  match n with
  | O => []
  | S n => (if 8 <=? ones then 255 else if 0 <? ones then 255 - (2 ^ (8 - ones) - 1) else 0)
             :: mask_bytes n (ones - 8)
  end.
Definition CIDRMask (ones bits : Z) : list Z := mask_bytes (Z.to_nat (bits / 8)) ones.

(** [IP.Mask] in the case [ParseCIDR] uses: 16 bytes and a 4- or 16-byte mask. *)
Definition ip_mask (ip mask : list Z) : list Z :=
  let ip := if bool_decide (length mask = 4%nat) && bool_decide (take 12 ip = v4InV6Prefix)
            then drop 12 ip else ip in
  zip_with Z.land ip mask.

(** [IP.Mask] in general; nil when the lengths do not agree. *)
Definition IP_Mask (ip : IP) (mask : list Z) : IP :=
  let l := ip_bytes ip in
  let mask := if bool_decide (length mask = 16%nat) && bool_decide (length l = 4%nat)
                 && bool_decide (take 12 mask = replicate 12 255) then drop 12 mask else mask in
  let l := if bool_decide (length mask = 4%nat) && bool_decide (length l = 16%nat)
              && bool_decide (take 12 l = v4InV6Prefix) then drop 12 l else l in
  if bool_decide (length l = length mask) then Some (zip_with Z.land l mask) else None.

(** [IP.Equal]: an IPv4 address and its 16-byte form are the same. *)
Definition IP_Equal (a b : IP) : bool :=
  let x := ip_bytes a in
  let y := ip_bytes b in
  if bool_decide (length x = length y) then bool_decide (x = y)
  else if bool_decide (length x = 4%nat) && bool_decide (length y = 16%nat)
  then bool_decide (take 12 y = v4InV6Prefix) && bool_decide (x = drop 12 y)
  else if bool_decide (length x = 16%nat) && bool_decide (length y = 4%nat)
  then bool_decide (take 12 x = v4InV6Prefix) && bool_decide (drop 12 x = y)
  else false.
Definition IP_IsUnspecified (ip : IP) : bool :=
  IP_Equal ip (IPv4 0 0 0 0) || IP_Equal ip (Some (replicate 16 0)).

(** [dtoi] on the whole text. *)
Fixpoint dtoi (n : Z) (s : string) : option Z :=
  match s with
  | "" => Some n
  | String c s =>
      match dec_digit c with
      | Some d => let n := n * 10 + d in if 16777215 <=? n then None else dtoi n s
      | None => None
      end
  end.

Definition cidr_error (s : string) : error := errorf ("invalid CIDR address: " +:+ s).

(** [net.ParseCIDR]: the address and its network. *)
Definition ParseCIDR (s : string) : res (IP * IPNet) :=
  match cut_str s "/" with
  | None => Err (cidr_error s)
  | Some (addr, mask) =>
      match parse_addr addr with
      | None => Err (cidr_error s)
      | Some l =>
          let bits := 8 * Z.of_nat (length l) in
          match mask with
          | "" => Err (cidr_error s)
          | _ => match dtoi 0 mask with
                 | None => Err (cidr_error s)
                 | Some n =>
                     if bits <? n then Err (cidr_error s)
                     else let m := CIDRMask n bits in
                          Ok (Some (to16 l), MkIPNet (Some (ip_mask (to16 l) m)) m)
                 end
          end
      end
  end.

Lemma ParseCIDR_returns s : returns (ParseCIDR s).
Proof. unfold ParseCIDR. repeat (case_match; try exact I). Qed.
#[export] Hint Resolve ParseCIDR_returns : returns.

(** [networkNumberAndMask]. *)
Definition network_number_and_mask (n : IPNet) : option (list Z * list Z) :=
  let ip := match To4 (net_ip n) with Some x => x | None => ip_bytes (net_ip n) end in
  if negb (bool_decide (length ip = 4%nat)) && negb (bool_decide (length ip = 16%nat)) then None
  else if bool_decide (length (net_mask n) = 4%nat) then
    if bool_decide (length ip = 4%nat) then Some (ip, net_mask n) else None
  else if bool_decide (length (net_mask n) = 16%nat) then
    Some (ip, if bool_decide (length ip = 4%nat) then drop 12 (net_mask n) else net_mask n)
  else None.

(** [IPNet.Contains]. *)
Definition net_contains (n : IPNet) (ip : IP) : bool :=
  let x := match To4 ip with Some x => x | None => ip_bytes ip end in
  match network_number_and_mask n with
  | Some (nn, m) => bool_decide (length x = length nn) &&
                    bool_decide (zip_with Z.land nn m = zip_with Z.land x m)
  | None => bool_decide (x = [])
  end.

(** [simpleMaskLength]: the number of leading ones, [None] when a one follows. *)
Definition byte_ones (b : Z) : option Z :=
  if b =? 255 then Some 8 else if b =? 254 then Some 7 else if b =? 252 then Some 6
  else if b =? 248 then Some 5 else if b =? 240 then Some 4 else if b =? 224 then Some 3
  else if b =? 192 then Some 2 else if b =? 128 then Some 1 else if b =? 0 then Some 0 else None.
Fixpoint mask_length (l : list Z) : option Z :=
  match l with
  | [] => Some 0
  | b :: l =>
      match byte_ones b with
      | Some 8 => match mask_length l with Some n => Some (8 + n) | None => None end
      | Some n => if forallb (Z.eqb 0) l then Some n else None
      | None => None
      end
  end.

(** [IPMask.Size], the number of ones: zero for a mask that is not one. *)
Definition mask_ones (m : list Z) : Z := default 0 (mask_length m).

(** [IPNet.String]. *)
Definition net_string (n : IPNet) : string :=
  match network_number_and_mask n with
  | None => "<nil>"
  | Some (nn, m) =>
      ip_string (Some nn) +:+ "/" +:+
      match mask_length m with Some l => fmt_u l | None => hex_encode m end
  end.

(** ** Hardware addresses *)
Definition xtoi2 (a b : ascii) : option Z :=
  match hex_val a, hex_val b with Some x, Some y => Some (x * 16 + y) | _, _ => None end.

(** [n] bytes of two digits separated by [sep]; the text after the last byte
    must be empty, as the length checks of [ParseMAC] make it. *)
Fixpoint mac_pairs (n : nat) (sep : ascii) (s : string) : option (list Z) :=
  match n, s with
  | O, "" => Some []
  | 1%nat, String a (String b "") => match xtoi2 a b with Some x => Some [x] | None => None end
  | S n, String a (String b (String c s)) =>
      if bool_decide (c = sep) then
        match xtoi2 a b, mac_pairs n sep s with Some x, Some l => Some (x :: l) | _, _ => None end
      else None
  | _, _ => None
  end.
(** The Cisco form: [n] groups of two bytes separated by dots. *)
Fixpoint mac_quads (n : nat) (s : string) : option (list Z) :=
  match n, s with
  | 1%nat, String a (String b (String c (String d ""))) =>
      match xtoi2 a b, xtoi2 c d with Some x, Some y => Some [x; y] | _, _ => None end
  | S n, String a (String b (String c (String d (String e s)))) =>
      if bool_decide (e = "."%char) then
        match xtoi2 a b, xtoi2 c d, mac_quads n s with
        | Some x, Some y, Some l => Some (x :: y :: l)
        | _, _, _ => None
        end
      else None
  | _, _ => None
  end.

Definition mac_error (s : string) : error :=
  errorf ("address " +:+ s +:+ ": invalid MAC address").
Definition mac_len_ok (n : nat) : bool := bool_decide (n ∈ [6; 8; 20]%nat).

(** [net.ParseMAC]. *)
Definition ParseMAC (s : string) : res HardwareAddr :=
  let n := String.length s in
  let parsed :=
    if bool_decide (n < 14)%nat then None
    else match s with
    | String _ (String _ (String c s')) =>
        if bool_decide (c = ":"%char) || bool_decide (c = "-"%char) then
          if bool_decide (((n + 1) mod 3)%nat = O) && mac_len_ok ((n + 1) / 3)%nat
          then mac_pairs ((n + 1) / 3)%nat c s else None
        else match s' with
        | String _ (String d _) =>
            if bool_decide (d = "."%char) && bool_decide (((n + 1) mod 5)%nat = O)
               && mac_len_ok (2 * (n + 1) / 5)%nat
            then mac_quads ((n + 1) / 5)%nat s else None
        | _ => None
        end
    | _ => None
    end in
  match parsed with Some m => Ok m | None => Err (mac_error s) end.
Lemma ParseMAC_returns s : returns (ParseMAC s).
Proof. unfold ParseMAC. cbv zeta. match goal with |- returns (match ?x with _ => _ end) => by destruct x end. Qed.
#[export] Hint Resolve ParseMAC_returns : returns.

Example ex_ParseIP4 : ip_string (ParseIP "10.0.0.1") = "10.0.0.1".
Proof. vm_compute. reflexivity. Qed.
Example ex_ParseIP6 : ip_string (ParseIP "2001:db8:0:0:1::1") = "2001:db8::1:0:0:1".
Proof. vm_compute. reflexivity. Qed.
Example ex_ParseCIDR :
  match ParseCIDR "169.254.169.254/16" with Ok (ip, n) => (ip_string ip, net_string n)
  | _ => ("", "") end = ("169.254.169.254", "169.254.0.0/16").
Proof. vm_compute. reflexivity. Qed.
Example ex_ParseMAC : mac_string (default [] (get_ok (ParseMAC "02:00:5e:AA:00:01")))
  = "02:00:5e:aa:00:01".
Proof. vm_compute. reflexivity. Qed.
