(* ===== verification/Json.v ===== *)
(** * JSON values

    What [encoding/json] exchanges with the sources: the value tree, the text
    [json.Marshal] writes for it, and [json.Unmarshal] into a Go string. *)
From S2P Require Import Prelude Errors GoStrings.

#[local] Set Warnings "-register-all".
Inductive json :=
  | JNull
  | JBool (b : bool)
  | JNum (n : Z)
  | JString (s : string)
  | JArr (l : list json)
  | JObj (l : list (string * json)).

(** [json.Unmarshal] into a string variable: null leaves it empty. *)
Definition json_to_string (v : json) : res string :=
  match v with
  | JString s => Ok s
  | JNull => Ok ""
  | _ => Err (errorf "json: cannot unmarshal value into Go value of type string")
  end.

(** The escapes of [json.Marshal] on text: quote, backslash, control bytes and
    the HTML-sensitive characters. *)
Fixpoint json_escape (s : string) : string :=
  match s with
  | "" => ""
  | String c s =>
      let b := byte_of c in
      let r :=
        if (b =? 34) || (b =? 92) then String (chr 92) (String c "")
        else if b =? 8 then "\b" else if b =? 12 then "\f"
        else if b =? 10 then "\n" else if b =? 13 then "\r" else if b =? 9 then "\t"
        else if (b <? 32) || (b =? 60) || (b =? 62) || (b =? 38) then "\u" +:+ fmt_04x b
        else String c "" in
      r +:+ json_escape s
  end.
Definition json_quote (s : string) : string := str1 34 +:+ json_escape s +:+ str1 34.

(** The compact text of a value. *)
Fixpoint json_text (v : json) : string :=
  match v with
  | JNull => "null"
  | JBool b => if b then "true" else "false"
  | JNum n => fmt_d n
  | JString s => json_quote s
  | JArr l => "[" +:+ join "," (map json_text l) +:+ "]"
  | JObj l => "{" +:+ join "," (map (λ '(k, v), json_quote k +:+ ":" +:+ json_text v) l) +:+ "}"
  end.

(** [json.MarshalIndent(v, "", "    ")]: empty arrays and objects stay closed. *)
Fixpoint indent (depth : nat) : string := match depth with O => "" | S d => "    " +:+ indent d end.
Definition json_block (l r : string) (depth : nat) (items : list string) : string :=
  match items with
  | [] => l +:+ r
  | _ => l +:+ nl +:+ join ("," +:+ nl) (map (λ i, indent (S depth) +:+ i) items) +:+ nl +:+ indent depth +:+ r
  end.
Fixpoint json_pretty (depth : nat) (v : json) : string :=
  match v with
  | JArr l => json_block "[" "]" depth (map (json_pretty (S depth)) l)
  | JObj l => json_block "{" "}" depth (map (λ '(k, v), json_quote k +:+ ": " +:+ json_pretty (S depth) v) l)
  | v => json_text v
  end.

(** Struct fields with [omitempty]. *)
Definition omit_if (b : bool) (kv : string * json) : list (string * json) := if b then [] else [kv].
Definition opt_num (k : string) (n : Z) : list (string * json) := omit_if (n =? 0) (k, JNum n).
Definition opt_str (k s : string) : list (string * json) := omit_if (bool_decide (s = "")) (k, JString s).
Definition opt_bool (k : string) (b : bool) : list (string * json) := omit_if (negb b) (k, JBool b).
Definition opt_arr {A} (k : string) (f : A → json) (l : list A) : list (string * json) :=
  match l with [] => [] | _ => [(k, JArr (map f l))] end.
