(* ===== verification/BpfTypes.v ===== *)
(** * The BPF ABI: pkg/internal/bpf/types.go and the generated bindings

    The structures of the pinned maps, the constants both sides agree on, and
    the address helpers.  Padding and [structs.HostLayout] fields are left
    out: no code reads or writes them. *)
From S2P Require Import Prelude Errors GoStrings GoNet.

(** ** Constants *)
Definition MaxPorts : Z := 4096.
Definition MaxMgmtCIDRPerSlot : Z := 3.
Definition InnerIPFree : Z := 0.
Definition InnerIPReserved : Z := 4294967295.
Definition PortFUp : Z := 1.
Definition SwitchFPortUp : Z := 1.
Definition SwitchFDeferredUp : Z := 2.
Definition MaxGeneveOptsLen : Z := 64.
Definition GenevePort : Z := 6081.
Definition GeneveVNILocatorBits : Z := 12.
Definition GeneveVNIValueMask : Z := 4095.
Definition MaxMgmtCIDRExt : Z := MaxMgmtCIDRPerSlot - 1.
Definition MetadataMaxSize : Z := 4096.

(** [PortKind] is a bare byte in the slot; values other than the two constants
    can be read from an old or corrupted map, so it stays a number. *)
Definition PortKindVeth : Z := 0.
Definition PortKindTap : Z := 1.

Definition PortKind_String (k : Z) : string :=
  if k =? PortKindVeth then "veth" else if k =? PortKindTap then "tap" else "unknown".

Definition ParsePortKind (s : string) : res Z :=
  if bool_decide (s ∈ [""; "veth"]) then Ok PortKindVeth
  else if bool_decide (s = "tap") then Ok PortKindTap
  else Err (errorf ("unknown port kind " +:+ fmt_q s +:+ " (want veth or tap)")).

(** ** Map values *)
Record MgmtCidr := MkMgmtCidr { mc_Ip : Z; mc_Mask : Z; mc_Ifindex : Z; mc_MgmtMac : list Z }.
Definition mac_zero : list Z := [0; 0; 0; 0; 0; 0].
Definition MgmtCidr_zero : MgmtCidr := MkMgmtCidr 0 0 0 mac_zero.

Record SlotItem := MkSlotItem {
  si_Ifindex : Z;
  si_InnerIp : Z;
  si_TransitIfindex : Z;
  si_TransitIp : Z;
  si_TransitGatewayIp : Z;
  si_TransitGeneveVni : Z;
  si_TransitMac : list Z;
  si_Mode : Z;
  si_GeneveOptsLen : Z;
  si_MgmtCidrCount : Z;
  si_MgmtCidrs0 : MgmtCidr;
  si_Generation : Z;
  si_Flags : Z;
  si_MgmtCidrsExt : list MgmtCidr;   (* two entries *)
  si_StatsReady : Z;
}.
Definition SlotItem_zero : SlotItem :=
  MkSlotItem 0 0 0 0 0 0 mac_zero 0 0 0 MgmtCidr_zero 0 0 [MgmtCidr_zero; MgmtCidr_zero] 0.

Record SwitchConfig := MkSwitchConfig {
  sc_SwitchMac : list Z;
  sc_N_ports : Z;
  sc_FloatingIpBase : Z;
  sc_GenevePortBase : Z;
  sc_GeneveEncapEth : Z;
  sc_TransitNexthop : Z;
  sc_PortMac : list Z;
  sc_GenerationBits : Z;
  sc_Features : Z;
  sc_GeneveLocator : Z;
  sc_GeneveTlvType : Z;
  sc_GeneveTlvClass : Z;
}.
Definition SwitchConfig_zero : SwitchConfig := MkSwitchConfig mac_zero 0 0 0 0 0 mac_zero 0 0 0 0 0.

Record GeneveOptsValue := MkGeneveOptsValue { gv_Len : Z; gv_Critical : Z; gv_Data : list Z }.
Definition GeneveOptsValue_zero : GeneveOptsValue := MkGeneveOptsValue 0 0 (replicate 64 0).

Record SlotStats := MkSlotStats {
  st_Generation : Z;
  st_MgmtRxPackets : Z; st_MgmtRxBytes : Z; st_MgmtTxPackets : Z; st_MgmtTxBytes : Z;
  st_TransitRxPackets : Z; st_TransitRxBytes : Z; st_TransitTxPackets : Z; st_TransitTxBytes : Z;
}.
Definition SlotStats_zero : SlotStats := MkSlotStats 0 0 0 0 0 0 0 0 0.

Record SvcKey := MkSvcKey { sk_Ip : Z; sk_Port : Z; sk_Proto : Z }.
Record SvcVal := MkSvcVal { sv_Ip : Z; sv_Port : Z }.

#[export] Instance MgmtCidr_eq_dec : EqDecision MgmtCidr.
Proof. solve_decision. Defined.
#[export] Instance SlotItem_eq_dec : EqDecision SlotItem.
Proof. solve_decision. Defined.
#[export] Instance SwitchConfig_eq_dec : EqDecision SwitchConfig.
Proof. solve_decision. Defined.
#[export] Instance GeneveOptsValue_eq_dec : EqDecision GeneveOptsValue.
Proof. solve_decision. Defined.
#[export] Instance SlotStats_eq_dec : EqDecision SlotStats.
Proof. solve_decision. Defined.
#[export] Instance SvcKey_eq_dec : EqDecision SvcKey.
Proof. solve_decision. Defined.
#[export] Instance SvcVal_eq_dec : EqDecision SvcVal.
Proof. solve_decision. Defined.
#[export] Instance SvcKey_countable : Countable SvcKey.
Proof.
  apply (inj_countable' (λ k, (sk_Ip k, sk_Port k, sk_Proto k))
    (λ '(a, b, c), MkSvcKey a b c)). by intros [].
Defined.

(** [copy(dst[:6], mac)]: the bytes past the source are kept. *)
Definition copy_into (dst src : list Z) : list Z :=
  take (length dst) src ++ drop (length src) dst.

Definition IsPortMacZero (c : SwitchConfig) : bool := bool_decide (sc_PortMac c = mac_zero).
Definition IsTransitMacSet (s : SlotItem) : bool := negb (bool_decide (si_TransitMac s = mac_zero)).

(** ** Addresses *)
Definition be32 (a b c d : Z) : Z :=
  Z.lor (Z.lor (Z.lor (Z.shiftl a 24) (Z.shiftl b 16)) (Z.shiftl c 8)) d.

Definition IPToUint32 (ip : IP) : Z :=
  match To4 ip with
  | Some [a; b; c; d] => be32 a b c d
  | _ => 0
  end.

Definition Uint32ToIP (n : Z) : IP :=
  IPv4 (u8 (Z.shiftr n 24)) (u8 (Z.shiftr n 16)) (u8 (Z.shiftr n 8)) (u8 n).

Definition MaskToUint32 (mask : list Z) : Z :=
  match mask with
  | [a; b; c; d] => be32 a b c d
  | [_; _; _; _; _; _; _; _; _; _; _; _; a; b; c; d] => be32 a b c d
  | _ => 4294967295
  end.

(** [for i := 31; i >= 0; i--]: counts the leading ones of a 32-bit mask. *)
Fixpoint MaskPrefixLen_loop (i : nat) (mask prefixLen : Z) : Z :=
  match i with
  | O => prefixLen
  | S i =>
      if negb (Z.land mask (Z.shiftl 1 (Z.of_nat i)) =? 0)
      then MaskPrefixLen_loop i mask (prefixLen + 1)
      else prefixLen
  end.
Definition MaskPrefixLen (mask : Z) : Z := MaskPrefixLen_loop 32 mask 0.

(** [CopyStringToInts] / [IntsToString]: int8 arrays of the generated types. *)
Definition int8 (b : Z) : Z := if b <? 128 then b else b - 256.
Definition CopyStringToInts (dst : list Z) (src : string) : list Z :=
  let l := take (length dst) (map int8 (bytes_of src)) in
  l ++ replicate (length dst - length l) 0.
Fixpoint IntsToString (arr : list Z) : string :=
  match arr with
  | [] => ""
  | c :: arr => if c =? 0 then "" else String (chr (u8 c)) (IntsToString arr)
  end.

(** ** Lemmas *)
Lemma be32_add a b c d :
  is_u8 a → is_u8 b → is_u8 c → is_u8 d →
  be32 a b c d = a * 2 ^ 24 + b * 2 ^ 16 + c * 2 ^ 8 + d.
Proof.
  unfold is_u8, be32. intros.
  rewrite <- !Z.lor_assoc.
  rewrite (lor_shiftl_add c d 8), (lor_shiftl_add b _ 16), (lor_shiftl_add a _ 24); lia.
Qed.

Lemma shiftr_u8 n k : 0 ≤ k → u8 (Z.shiftr n k) = (n / 2 ^ k) mod 256.
Proof. intros. unfold u8. by rewrite Z.shiftr_div_pow2. Qed.

Lemma To4_IPv4 a b c d : To4 (IPv4 a b c d) = Some [a; b; c; d].
Proof. reflexivity. Qed.

Lemma To4_length ip l : To4 ip = Some l → length l = 4%nat.
Proof.
  unfold To4. destruct ip as [l0|]; [|done].
  case_bool_decide as H4; [by intros [= ->]|].
  case_bool_decide as H16; simpl; [|done]. case_bool_decide; [|done].
  intros [= <-]. rewrite length_drop. lia.
Qed.

Lemma To4_shape ip l : To4 ip = Some l → ∃ a b c d, l = [a; b; c; d].
Proof.
  intros H%To4_length. destruct l as [|a [|b [|c [|d [|]]]]]; try done. by exists a, b, c, d.
Qed.

Definition ip_ok (ip : IP) : Prop := Forall is_u8 (ip_bytes ip).

Lemma To4_ok ip l : ip_ok ip → To4 ip = Some l → Forall is_u8 l.
Proof.
  unfold ip_ok, To4. destruct ip as [l0|]; [|done]. simpl. intros Hok.
  case_bool_decide; [by intros [= <-]|].
  case_bool_decide; simpl; [|done]. case_bool_decide; [|done].
  intros [= <-]. by apply Forall_drop.
Qed.

Lemma IPToUint32_range ip : ip_ok ip → is_u32 (IPToUint32 ip).
Proof.
  intros Hok. unfold IPToUint32, is_u32. destruct (To4 ip) as [l|] eqn:E; [|lia].
  pose proof (To4_ok _ _ Hok E) as Hl.
  destruct (To4_shape _ _ E) as (a & b & c & d & ->).
  rewrite !Forall_cons in Hl. destruct Hl as (Ha & Hb & Hc & Hd & _).
  rewrite be32_add by done. unfold is_u8 in *. lia.
Qed.

Lemma be32_split n : is_u32 n →
  be32 (u8 (Z.shiftr n 24)) (u8 (Z.shiftr n 16)) (u8 (Z.shiftr n 8)) (u8 n) = n.
Proof.
  intros Hn. rewrite be32_add by auto with go. rewrite !shiftr_u8 by lia. unfold u8, is_u32 in *.
  assert (n / 2 ^ 24 < 256) by (apply Z.div_lt_upper_bound; lia).
  assert (0 ≤ n / 2 ^ 24) by (apply Z.div_pos; lia).
  rewrite (Z.mod_small (n / 2 ^ 24)) by lia.
  pose proof (Z.div_mod n 256 ltac:(lia)).
  pose proof (Z.div_mod (n / 256) 256 ltac:(lia)).
  pose proof (Z.div_mod (n / 2^16) 256 ltac:(lia)).
  replace (n / 256 / 256) with (n / 2^16) in * by (rewrite Z.div_div by lia; done).
  replace (n / 2^16 / 256) with (n / 2^24) in * by (rewrite Z.div_div by lia; done).
  change (2 ^ 8) with 256. lia.
Qed.

Lemma ip_ok_Uint32ToIP n : ip_ok (Uint32ToIP n).
Proof.
  unfold ip_ok, Uint32ToIP, IPv4. simpl.
  repeat constructor; try (unfold is_u8; lia); apply u8_range.
Qed.
#[export] Hint Resolve IPToUint32_range ip_ok_Uint32ToIP : go.

Lemma mask_bit_land mask i : 0 ≤ i → negb (Z.land mask (Z.shiftl 1 i) =? 0) = Z.testbit mask i.
Proof.
  intros Hi. rewrite Z.shiftl_1_l. destruct (Z.testbit mask i) eqn:E.
  - assert (Z.land mask (2 ^ i) ≠ 0); [|lia]. intros H0.
    assert (Z.testbit (Z.land mask (2 ^ i)) i = false) as H1 by (by rewrite H0, Z.bits_0).
    rewrite Z.land_spec, E, Z.pow2_bits_true in H1 by done. done.
  - assert (Z.land mask (2 ^ i) = 0); [|lia]. apply Z.bits_inj'. intros j Hj.
    rewrite Z.land_spec, Z.bits_0. destruct (decide (j = i)) as [->|].
    + by rewrite E.
    + rewrite Z.pow2_bits_false by done. by rewrite andb_false_r.
Qed.

Lemma MaskPrefixLen_loop_spec i mask acc n :
  (∀ j, 0 ≤ j < Z.of_nat i → Z.testbit mask j = bool_decide (Z.of_nat i - n ≤ j)) →
  0 ≤ n ≤ Z.of_nat i → MaskPrefixLen_loop i mask acc = acc + n.
Proof.
  revert acc n. induction i as [|i IH]; intros acc n Hb Hn; [simpl; lia|].
  cbn [MaskPrefixLen_loop]. rewrite mask_bit_land by lia.
  rewrite (Hb (Z.of_nat i)) by lia. case_bool_decide.
  - rewrite (IH _ (n - 1)); [lia| |lia]. intros j Hj. rewrite Hb by lia.
    apply bool_decide_ext. lia.
  - lia.
Qed.

(** The mask with [n] leading ones of 32. *)
Definition prefix_mask (n : Z) : Z := 2 ^ 32 - 2 ^ (32 - n).

Lemma prefix_mask_bit n j :
  0 ≤ n ≤ 32 → 0 ≤ j < 32 → Z.testbit (prefix_mask n) j = bool_decide (32 - n ≤ j).
Proof.
  intros Hn Hj. unfold prefix_mask.
  replace (2 ^ 32 - 2 ^ (32 - n)) with (Z.shiftl (Z.ones n) (32 - n)).
  - rewrite Z.shiftl_spec by lia. case_bool_decide.
    + apply Z.ones_spec_low. lia.
    + apply Z.testbit_neg_r. lia.
  - rewrite Z.shiftl_mul_pow2, Z.ones_equiv by lia.
    replace 32 with (n + (32 - n)) at 2 by lia. rewrite Z.pow_add_r by lia. lia.
Qed.
