(* ===== verification/Mac.v ===== *)
(** * MAC derivation: pkg/internal/bpfmap/mac.go

    Slicing or indexing past the end of the switch MAC panics, so the
    derivations are [res]. *)
From S2P Require Import Prelude Errors GoStrings GoNet BpfTypes.

Definition PortMACXOR : Z := 128.
Definition MgmtMACIDBase : Z := 32752.

(** The shared body: the top four bytes of the switch MAC, then the flipped
    top bit of its byte 4 over the high byte of the id, then its low byte. *)
Definition derive_mac (switchMAC : HardwareAddr) (hi lo : Z) : res HardwareAddr :=
  match switchMAC with
  | a :: b :: c :: d :: e :: _ =>
      Ok [a; b; c; d; Z.lor (Z.land (Z.lxor e PortMACXOR) PortMACXOR) hi; lo]
  | _ => Panic
  end.

Definition PortMAC (switchMAC : HardwareAddr) (slotID : Z) : res HardwareAddr :=
  derive_mac switchMAC (u8 (Z.shiftr slotID 8)) (u8 (Z.land slotID 255)).

Definition MgmtMAC (switchMAC : HardwareAddr) (mgmtIdx : Z) : res HardwareAddr :=
  let id := u16 (MgmtMACIDBase + u16 mgmtIdx) in
  derive_mac switchMAC (u8 (Z.shiftr id 8)) (u8 (Z.land id 255)).

Definition PortMACFixed (switchMAC : HardwareAddr) : res HardwareAddr := PortMAC switchMAC 1.

Fixpoint IsZeroMAC (mac : HardwareAddr) : bool :=
  match mac with
  | [] => true
  | b :: mac => if negb (b =? 0) then false else IsZeroMAC mac
  end.

Definition GetPortMAC (switchMAC portMAC : HardwareAddr) (slotID : Z) : res HardwareAddr :=
  if IsZeroMAC portMAC then PortMAC switchMAC slotID
  else Ok (copy_into mac_zero portMAC).

(** ** Lemmas *)
Lemma GetPortMAC_ok sw mac slotID : length sw = 6%nat → is_Some (get_ok (GetPortMAC sw mac slotID)).
Proof.
  intros Hm. unfold GetPortMAC, PortMAC. destruct (IsZeroMAC _); [|by eexists].
  destruct sw as [|? [|? [|? [|? [|? [|]]]]]]; try done; by eexists.
Qed.

Definition flip_bit (e : Z) : Z := Z.land (Z.lxor e PortMACXOR) PortMACXOR.

Lemma flip_bit_testbit e i : 0 ≤ i →
  Z.testbit (flip_bit e) i = bool_decide (i = 7) && negb (Z.testbit e 7).
Proof.
  intros Hi. unfold flip_bit, PortMACXOR. change 128 with (2 ^ 7).
  rewrite Z.land_spec, Z.lxor_spec, Z.pow2_bits_eqb by lia.
  case_bool_decide; subst.
  - rewrite Z.eqb_refl. by destruct (Z.testbit e 7).
  - rewrite (proj2 (Z.eqb_neq 7 i)) by lia. by rewrite andb_false_r.
Qed.

Lemma flip_or_testbit e hi i : 0 ≤ hi < 128 → 0 ≤ i →
  Z.testbit (Z.lor (flip_bit e) hi) i =
    if bool_decide (i < 7) then Z.testbit hi i else bool_decide (i = 7) && negb (Z.testbit e 7).
Proof.
  intros Hhi Hi. rewrite Z.lor_spec, flip_bit_testbit by done.
  repeat case_bool_decide; try lia; simpl; auto.
  - rewrite (testbit_above hi 7) by lia. by rewrite orb_false_r.
  - by rewrite (testbit_above hi 7) by lia.
Qed.

(** Byte 4 of a derived MAC determines the high byte of its id, and is never
    byte 4 of the switch MAC. *)
Lemma flip_or_inj e x y :
  0 ≤ x < 128 → 0 ≤ y < 128 → Z.lor (flip_bit e) x = Z.lor (flip_bit e) y → x = y.
Proof.
  intros Hx Hy Heq. apply Z.bits_inj'. intros i Hi. destruct (decide (i < 7)).
  - assert (Z.testbit (Z.lor (flip_bit e) x) i = Z.testbit (Z.lor (flip_bit e) y) i) as H
      by (by rewrite Heq).
    rewrite !flip_or_testbit in H by lia. by rewrite bool_decide_true in H.
  - by rewrite !(testbit_above _ 7) by lia.
Qed.

Lemma flip_or_ne e x : 0 ≤ x < 128 → Z.lor (flip_bit e) x ≠ e.
Proof.
  intros Hx Heq. assert (Z.testbit (Z.lor (flip_bit e) x) 7 = Z.testbit e 7) as H by (by rewrite Heq).
  rewrite flip_or_testbit in H by lia.
  rewrite bool_decide_false, bool_decide_true in H by lia. by destruct (Z.testbit e 7).
Qed.

Lemma derive_mac_six a b c d e f hi lo :
  derive_mac [a; b; c; d; e; f] hi lo = Ok [a; b; c; d; Z.lor (flip_bit e) hi; lo].
Proof. done. Qed.

Lemma split_id id : 0 ≤ id < 2 ^ 15 →
  0 ≤ u8 (Z.shiftr id 8) < 128 ∧ u8 (Z.land id 255) = id mod 256 ∧
  id = u8 (Z.shiftr id 8) * 256 + id mod 256.
Proof.
  intros Hid. rewrite shiftr_u8 by lia. change (2 ^ 8) with 256.
  assert (0 ≤ id / 256 < 128) by (split; [apply Z.div_pos|apply Z.div_lt_upper_bound]; lia).
  rewrite (Z.mod_small (id / 256)) by lia.
  change 255 with (Z.ones 8). rewrite Z.land_ones by lia. unfold u8.
  pose proof (Z.mod_pos_bound id 256). change (2 ^ 8) with 256.
  rewrite (Z.mod_small (id mod 256)) by lia. pose proof (Z.div_mod id 256). lia.
Qed.

(** The identifiers a switch derives MACs from: port slots, then management
    planes. *)
Definition mac_id (who : Z + Z) : Z :=
  match who with inl slot => slot | inr m => MgmtMACIDBase + m end.
Definition mac_of (sw : HardwareAddr) (who : Z + Z) : res HardwareAddr :=
  match who with inl slot => PortMAC sw slot | inr m => MgmtMAC sw m end.
Definition mac_id_ok (who : Z + Z) : Prop :=
  match who with inl slot => 0 ≤ slot < MaxPorts | inr m => 0 ≤ m < 16 end.

Lemma mac_id_inj x y : mac_id_ok x → mac_id_ok y → mac_id x = mac_id y → x = y.
Proof. unfold mac_id_ok, mac_id, MgmtMACIDBase, MaxPorts. destruct x, y; cbv beta iota; intros; solve [f_equal; lia | exfalso; lia]. Qed.

Lemma mac_of_six a b c d e f who : mac_id_ok who →
  mac_of [a; b; c; d; e; f] who =
    Ok [a; b; c; d; Z.lor (flip_bit e) (u8 (Z.shiftr (mac_id who) 8)); u8 (Z.land (mac_id who) 255)]
  ∧ 0 ≤ mac_id who < 2 ^ 15.
Proof.
  unfold mac_id_ok, mac_of, mac_id, PortMAC, MgmtMAC, MgmtMACIDBase, MaxPorts.
  destruct who as [slot|m]; cbv beta iota; intros Hw; (split; [|lia]); [done|].
  rewrite (u16_small m) by (unfold is_u16; lia).
  by rewrite (u16_small (32752 + m)) by (unfold is_u16; lia).
Qed.

(** The MAC plan of a switch is collision free.  Over all 4096 port slots
    and 16 management planes, [PortMAC] and [MgmtMAC] give six-byte addresses,
    two different owners never share one, and none is the switch MAC. *)
Lemma mac_plan_disjoint sw x y mx my :
  length sw = 6%nat → mac_id_ok x → mac_id_ok y →
  mac_of sw x = Ok mx → mac_of sw y = Ok my →
  length mx = 6%nat ∧ mx ≠ sw ∧ (mx = my → x = y).
Proof.
  intros Hl Hx Hy. destruct sw as [|a [|b [|c [|d [|e [|f [|]]]]]]]; try done.
  destruct (mac_of_six a b c d e f x Hx) as [-> Rx].
  destruct (mac_of_six a b c d e f y Hy) as [-> Ry]. intros [= <-] [= <-].
  destruct (split_id _ Rx) as (Bx & Lx & Ex), (split_id _ Ry) as (By & Ly & Ey).
  split; [done|split].
  - intros [= Heq _]. by apply (flip_or_ne e _ Bx).
  - intros [= Heq Hlo]. apply mac_id_inj; [done..|].
    apply flip_or_inj in Heq; [|done..]. rewrite Lx, Ly in Hlo. lia.
Qed.

Example mac_plan_example :
  ∃ mp mm, PortMAC [2; 0; 94; 10; 18; 52] 643 = Ok mp ∧ MgmtMAC [2; 0; 94; 10; 18; 52] 2 = Ok mm ∧
  length mp = 6%nat ∧ mp ≠ [2; 0; 94; 10; 18; 52] ∧ (mp = mm → @inl Z Z 643 = inr 2).
Proof.
  assert (mac_id_ok (inl 643)) as Hx by (unfold mac_id_ok, MaxPorts; lia).
  assert (mac_id_ok (inr 2)) as Hy by (unfold mac_id_ok; lia).
  eexists _, _. split; [reflexivity|split; [reflexivity|]].
  apply (mac_plan_disjoint [2; 0; 94; 10; 18; 52] (inl 643) (inr 2)); [done..|reflexivity|reflexivity].
Qed.
