(* ===== verification/Geneve.v ===== *)
(** * GENEVE locators and options: pkg/vswitch/geneve.go

    A locator is the byte stored in the switch configuration, so it may be out
    of range; [GeneveLocator_valid] is the code's test.  Options are the
    opaque TLVs of RFC 8926; the file ends with a reference decoder for them
    and the proof that [marshalGeneveOptions] writes what it reads. *)
From S2P Require Import Prelude Errors GoStrings GoNet BpfTypes Json.

Definition DefaultGenevePortBase : Z := 50000.
Definition GeneveStandardPort : Z := GenevePort.
Definition geneveTLVLocatorWireLen : Z := 8.

Definition GeneveLocatorPort : Z := 0.
Definition GeneveLocatorVNI : Z := 1.
Definition GeneveLocatorTLV : Z := 2.

Definition ParseGeneveLocator (value : string) : res Z :=
  let v := to_lower (trim_space value) in
  if bool_decide (v ∈ [""; "port"]) then Ok GeneveLocatorPort
  else if bool_decide (v = "vni") then Ok GeneveLocatorVNI
  else if bool_decide (v = "tlv") then Ok GeneveLocatorTLV
  else Err (errorf ("unknown GENEVE locator " +:+ fmt_q value +:+ " (want port, vni, or tlv)")).

(** [Parse] updates the receiver only on success. *)
Definition GeneveLocator_Parse (l : Z) (value : string) : Z * option error :=
  match ParseGeneveLocator value with
  | Ok parsed => (parsed, None)
  | Err e => (l, Some e)
  | _ => (l, None)
  end.

Definition GeneveLocator_String (l : Z) : string :=
  if l =? GeneveLocatorPort then "port"
  else if l =? GeneveLocatorVNI then "vni"
  else if l =? GeneveLocatorTLV then "tlv"
  else "unknown(" +:+ fmt_u l +:+ ")".

Definition GeneveLocator_valid (l : Z) : bool :=
  (GeneveLocatorPort <=? l) && (l <=? GeneveLocatorTLV).

Definition GeneveLocator_MarshalJSON (l : Z) : res json :=
  if negb (GeneveLocator_valid l)
  then Err (errorf ("invalid GENEVE locator value " +:+ fmt_u l))
  else Ok (JString (GeneveLocator_String l)).

Definition GeneveLocator_UnmarshalJSON (data : json) : res Z :=
  let! value := map_err (λ e, errorw "GENEVE locator must be a string: " e "") (json_to_string data) in
  ParseGeneveLocator value.

(** ** The TLV locator *)
Record GeneveTLVLocator := MkTLV { tlv_Class : Z; tlv_Type : Z }.
#[export] Instance GeneveTLVLocator_eq_dec : EqDecision GeneveTLVLocator.
Proof. solve_decision. Defined.

Definition parseHexUint (value : string) (bits : Z) (field : string) : res Z :=
  if has_prefix value "+" || has_prefix value "-"
  then Err (errorf (field +:+ " " +:+ fmt_q value +:+ " must be an unsigned hexadecimal value"))
  else match parse_uint value 16 bits with
       | Ok parsed => Ok parsed
       | _ => Err (errorf (field +:+ " " +:+ fmt_q value +:+ " is not a " +:+ fmt_d bits
                           +:+ "-bit hexadecimal value"))
       end.

Definition ParseGeneveTLVLocator (value : string) : res GeneveTLVLocator :=
  let wrap e := errorw ("invalid GENEVE TLV locator " +:+ fmt_q value +:+ ": ") e "" in
  match split_on ":" value with
  | [p0; p1] =>
      if bool_decide (p0 = "") || bool_decide (p1 = "")
      then Err (errorf ("invalid GENEVE TLV locator " +:+ fmt_q value +:+ " (want CLASS:TYPE)"))
      else
        let! class := map_err wrap (parseHexUint p0 16 "class") in
        let! typeValue := map_err wrap (parseHexUint p1 8 "type") in
        Ok (MkTLV (u16 class) (u8 typeValue))
  | _ => Err (errorf ("invalid GENEVE TLV locator " +:+ fmt_q value +:+ " (want CLASS:TYPE)"))
  end.

Definition GeneveTLVLocator_String (l : GeneveTLVLocator) : string :=
  fmt_04x (tlv_Class l) +:+ ":" +:+ fmt_02x (tlv_Type l).

Definition GeneveTLVLocator_MarshalJSON (l : GeneveTLVLocator) : res json :=
  Ok (JString (GeneveTLVLocator_String l)).

Definition GeneveTLVLocator_UnmarshalJSON (data : json) : res GeneveTLVLocator :=
  let! value := map_err (λ e, errorw "GENEVE TLV locator must be a string: " e "") (json_to_string data) in
  ParseGeneveTLVLocator value.

(** ** Opaque options *)
Record GeneveOption := MkOpt { opt_Class : Z; opt_Type : Z; opt_Data : list Z }.
#[export] Instance GeneveOption_eq_dec : EqDecision GeneveOption.
Proof. solve_decision. Defined.

Definition dlen (o : GeneveOption) : Z := Z.of_nat (length (opt_Data o)).

Definition ParseGeneveOption (value : string) : res GeneveOption :=
  let wrap e := errorw ("invalid GENEVE option " +:+ fmt_q value +:+ ": ") e "" in
  match split_n 3 ":" value with
  | [p0; p1; p2] =>
      if bool_decide (p0 = "") || bool_decide (p1 = "")
      then Err (errorf ("invalid GENEVE option " +:+ fmt_q value +:+ " (want CLASS:TYPE:DATA)"))
      else
        let! class := map_err wrap (parseHexUint p0 16 "class") in
        let! typeValue := map_err wrap (parseHexUint p1 8 "type") in
        let! data := map_err (λ e, errorw ("invalid GENEVE option " +:+ fmt_q value +:+ " data: ") e "")
                             (hex_decode p2) in
        let n := Z.of_nat (length data) in
        if negb (n mod 4 =? 0)
        then Err (errorf ("invalid GENEVE option " +:+ fmt_q value +:+ ": data length "
                          +:+ fmt_d n +:+ " is not a multiple of 4 bytes"))
        else Ok (MkOpt (u16 class) (u8 typeValue) data)
  | _ => Err (errorf ("invalid GENEVE option " +:+ fmt_q value +:+ " (want CLASS:TYPE:DATA)"))
  end.

Fixpoint ParseGeneveOptions_loop (i : Z) (parts : list string) : res (list GeneveOption) :=
  match parts with
  | [] => Ok []
  | part :: parts =>
      let! option := map_err (λ e, errorw ("GENEVE option " +:+ fmt_d (i + 1) +:+ ": ") e "")
                             (ParseGeneveOption (trim_space part)) in
      let! rest := ParseGeneveOptions_loop (i + 1) parts in
      Ok (option :: rest)
  end.
Definition ParseGeneveOptions (value : string) : res (list GeneveOption) :=
  if bool_decide (value = "") then Ok []
  else ParseGeneveOptions_loop 0 (split_on "," value).

Definition GeneveOption_String (o : GeneveOption) : string :=
  fmt_04x (opt_Class o) +:+ ":" +:+ fmt_02x (opt_Type o) +:+ ":" +:+ hex_encode (opt_Data o).

Definition GeneveOption_MarshalJSON (o : GeneveOption) : res json :=
  if negb (dlen o mod 4 =? 0)
  then Err (errorf ("GENEVE option data length " +:+ fmt_d (dlen o) +:+ " is not a multiple of 4 bytes"))
  else Ok (JString (GeneveOption_String o)).

Definition GeneveOption_UnmarshalJSON (data : json) : res GeneveOption :=
  let! value := map_err (λ e, errorw "GENEVE option must be a string: " e "") (json_to_string data) in
  ParseGeneveOption value.

(** ** Marshalling the options of one slot *)
(** Overwrite the bytes of [data] from [off] on (slice assignment, [copy]). *)
Definition put_at (off : Z) (bs data : list Z) : list Z :=
  take (Z.to_nat off) data ++ bs ++ drop (Z.to_nat off + length bs) data.

Definition opt_collides (locator : Z) (tlv : option GeneveTLVLocator) (o : GeneveOption) : bool :=
  (locator =? GeneveLocatorTLV) &&
  match tlv with
  | Some t => (opt_Class o =? tlv_Class t) && (Z.land (opt_Type o) 127 =? Z.land (tlv_Type t) 127)
  | None => false
  end.

Fixpoint marshalGeneveOptions_loop (locator : Z) (tlv : option GeneveTLVLocator) (i offset : Z)
    (value : GeneveOptsValue) (options : list GeneveOption) : res (GeneveOptsValue * Z) :=
  match options with
  | [] => Ok (value, offset)
  | o :: options =>
      if negb (dlen o mod 4 =? 0)
      then Err (errorf ("GENEVE option " +:+ fmt_d (i + 1) +:+ " data length " +:+ fmt_d (dlen o)
                        +:+ " is not a multiple of 4 bytes"))
      else if opt_collides locator tlv o
      then Err (errorf ("GENEVE option " +:+ fmt_d (i + 1) +:+ " " +:+ GeneveOption_String o
                        +:+ " collides with TLV locator "
                        +:+ match tlv with Some t => GeneveTLVLocator_String t | None => "" end))
      else
        let wireLen := 4 + dlen o in
        if MaxGeneveOptsLen <? offset + wireLen
        then Err (errorf ("opaque GENEVE options length " +:+ fmt_d (offset + wireLen)
                          +:+ " exceeds maximum " +:+ fmt_d MaxGeneveOptsLen +:+ " bytes"))
        else
          let data := put_at offset [u8 (Z.shiftr (opt_Class o) 8)] (gv_Data value) in
          let data := put_at (offset + 1) [u8 (opt_Class o)] data in
          let data := put_at (offset + 2) [opt_Type o] data in
          let data := put_at (offset + 3) [u8 (dlen o / 4)] data in
          let data := put_at (offset + 4) (opt_Data o) data in
          let critical := if negb (Z.land (opt_Type o) 128 =? 0) then 1 else gv_Critical value in
          marshalGeneveOptions_loop locator tlv (i + 1) (offset + wireLen)
            (MkGeneveOptsValue (gv_Len value) critical data) options
  end.

Definition marshalGeneveOptions (locator : Z) (tlv : option GeneveTLVLocator)
    (options : list GeneveOption) : res (GeneveOptsValue * Z) :=
  let! vo := marshalGeneveOptions_loop locator tlv 0 0 GeneveOptsValue_zero options in
  let '(value, offset) := vo in
  let totalLen := if locator =? GeneveLocatorTLV then offset + geneveTLVLocatorWireLen else offset in
  if MaxGeneveOptsLen <? totalLen
  then Err (errorf ("GENEVE wire options length " +:+ fmt_d totalLen +:+ " exceeds maximum "
                    +:+ fmt_d MaxGeneveOptsLen +:+ " bytes"))
  else Ok (MkGeneveOptsValue (u8 offset) (gv_Critical value) (gv_Data value), u8 totalLen).

(** ** Wire values *)
Definition fmt_hash_x (n : Z) : string := "0x" +:+ fmt_x n.

Definition validateTransitGeneveVNI (locator vni : Z) : res unit :=
  let max := if locator =? GeneveLocatorVNI then GeneveVNIValueMask else 16777215 in
  if max <? vni
  then Err (errorf ("transit GENEVE VNI " +:+ fmt_hash_x vni +:+ " exceeds "
                    +:+ GeneveLocator_String locator +:+ " locator maximum " +:+ fmt_hash_x max))
  else Ok tt.

Definition geneveWirePort (locator portBase slotID : Z) : Z :=
  if locator =? GeneveLocatorPort then u16 (u32 (portBase + slotID)) else GeneveStandardPort.

Definition geneveWireVNI (locator slotID vni : Z) : Z :=
  if locator =? GeneveLocatorVNI
  then Z.lor (u32 (Z.shiftl slotID GeneveVNILocatorBits)) vni else vni.

Definition geneveLocatorFromConfig (cfg : SwitchConfig) : Z := sc_GeneveLocator cfg.
Definition geneveTLVLocatorFromConfig (cfg : SwitchConfig) : GeneveTLVLocator :=
  MkTLV (sc_GeneveTlvClass cfg) (sc_GeneveTlvType cfg).

Definition geneveTotalOptionsLen (locator opaqueLen : Z) : Z :=
  if locator =? GeneveLocatorTLV then u8 (opaqueLen + geneveTLVLocatorWireLen) else opaqueLen.

(** ** Reference encoding of options (RFC 8926, figure 3) *)
Definition opt_ok (o : GeneveOption) : Prop :=
  is_u16 (opt_Class o) ∧ is_u8 (opt_Type o) ∧ Forall is_u8 (opt_Data o).
#[export] Instance opt_ok_dec o : Decision (opt_ok o).
Proof. unfold opt_ok. apply _. Defined.
Definition opt_fits (locator : Z) (tlv : option GeneveTLVLocator) (o : GeneveOption) : Prop :=
  dlen o mod 4 = 0 ∧ opt_collides locator tlv o = false.
Definition is_critical (o : GeneveOption) : bool := negb (Z.land (opt_Type o) 128 =? 0).

Definition enc_opt (o : GeneveOption) : list Z :=
  [u8 (Z.shiftr (opt_Class o) 8); u8 (opt_Class o); opt_Type o; u8 (dlen o / 4)] ++ opt_Data o.
#[local] Arguments enc_opt : simpl never.
Definition enc_opts (l : list GeneveOption) : list Z := flat_map enc_opt l.
Definition wire_len (l : list GeneveOption) : Z := Z.of_nat (length (enc_opts l)).

(** A reader of the option area: class, type, five bits of length in words. *)
Fixpoint dec_opts (fuel : nat) (bs : list Z) : option (list GeneveOption) :=
  match fuel, bs with
  | _, [] => Some []
  | S fuel, c1 :: c2 :: t :: l :: rest =>
      let n := Z.to_nat (Z.land l 31 * 4) in
      if bool_decide (n ≤ length rest)%nat
      then match dec_opts fuel (drop n rest) with
           | Some os => Some (MkOpt (c1 * 256 + c2) t (take n rest) :: os)
           | None => None
           end
      else None
  | _, _ => None
  end.

Lemma put_at_end pre bs n off :
  off = Z.of_nat (length pre) → (length bs ≤ n)%nat →
  put_at off bs (pre ++ replicate n 0) = (pre ++ bs) ++ replicate (n - length bs) 0.
Proof.
  intros -> Hn. unfold put_at. rewrite Nat2Z.id, take_app_length.
  rewrite drop_app_ge by lia. rewrite drop_replicate, <- app_assoc.
  do 3 f_equal. lia.
Qed.

Lemma enc_opt_length o : Z.of_nat (length (enc_opt o)) = 4 + dlen o.
Proof. unfold enc_opt, dlen. rewrite length_app. simpl. lia. Qed.

Lemma wire_len_cons o l : wire_len (o :: l) = 4 + dlen o + wire_len l.
Proof.
  unfold wire_len. change (enc_opts (o :: l)) with (enc_opt o ++ enc_opts l).
  rewrite length_app, Nat2Z.inj_add, enc_opt_length. lia.
Qed.

Lemma wire_len_nonneg l : 0 ≤ wire_len l.
Proof. unfold wire_len. lia. Qed.

(** One step of the loop writes exactly [enc_opt] at the cursor. *)
Lemma put_opt o pre n :
  4 + dlen o ≤ Z.of_nat n →
  let off := Z.of_nat (length pre) in
  put_at (off + 4) (opt_Data o)
    (put_at (off + 3) [u8 (dlen o / 4)]
      (put_at (off + 2) [opt_Type o]
        (put_at (off + 1) [u8 (opt_Class o)]
          (put_at off [u8 (Z.shiftr (opt_Class o) 8)] (pre ++ replicate n 0))))) =
  (pre ++ enc_opt o) ++ replicate (n - length (enc_opt o)) 0.
Proof.
  intros Hn off. unfold dlen in Hn.
  rewrite (put_at_end pre) by (simpl; lia).
  do 4 (rewrite put_at_end; [|rewrite !length_app; simpl; lia|simpl; lia]).
  unfold enc_opt. rewrite <- !app_assoc. simpl. do 7 f_equal. rewrite ?length_app. simpl. lia.
Qed.

Lemma marshal_loop_ok locator tlv options :
  Forall (opt_fits locator tlv) options → ∀ i pre v n,
  gv_Data v = pre ++ replicate n 0 → (length pre + n = 64)%nat →
  Z.of_nat (length pre) + wire_len options ≤ 64 →
  marshalGeneveOptions_loop locator tlv i (Z.of_nat (length pre)) v options =
    Ok (MkGeneveOptsValue (gv_Len v)
          (if existsb is_critical options then 1 else gv_Critical v)
          (pre ++ enc_opts options ++ replicate (n - length (enc_opts options)) 0),
        Z.of_nat (length pre) + wire_len options).
Proof.
  induction 1 as [|o options [Hmod Hcol] _ IH]; intros i pre v n Hd Hl Hlen.
  - simpl. rewrite Nat.sub_0_r, <- Hd, Z.add_0_r. by destruct v.
  - rewrite wire_len_cons in Hlen. pose proof (wire_len_nonneg options).
    cbn [marshalGeneveOptions_loop]. rewrite Hmod, Hcol. cbn [Z.eqb negb].
    assert ((MaxGeneveOptsLen <? Z.of_nat (length pre) + (4 + dlen o)) = false) as ->
      by (unfold MaxGeneveOptsLen; lia).
    cbv zeta. rewrite Hd, put_opt by lia.
    pose proof (enc_opt_length o) as Heo.
    replace (Z.of_nat (length pre) + (4 + dlen o)) with (Z.of_nat (length (pre ++ enc_opt o)))
      by (rewrite length_app; lia).
    rewrite (IH _ (pre ++ enc_opt o) _ (n - length (enc_opt o))%nat).
    + cbn [gv_Len gv_Critical existsb]. rewrite wire_len_cons, length_app, <- !app_assoc. do 2 f_equal; [|lia]. f_equal.
      * fold (is_critical o). by destruct (is_critical o), (existsb _ options).
      * change (enc_opts (o :: options)) with (enc_opt o ++ enc_opts options).
        rewrite <- app_assoc, length_app, Nat.sub_add_distr. done.
    + done.
    + rewrite length_app. lia.
    + rewrite length_app. lia.
Qed.

Lemma marshal_loop_inv locator tlv options : ∀ i offset v v' offset',
  marshalGeneveOptions_loop locator tlv i offset v options = Ok (v', offset') →
  offset ≤ MaxGeneveOptsLen →
  Forall (opt_fits locator tlv) options ∧ offset + wire_len options ≤ MaxGeneveOptsLen.
Proof.
  induction options as [|o options IH]; intros i offset v v' offset' H Hoff; simpl in H.
  - split; [constructor|]. unfold wire_len. simpl. lia.
  - destruct (dlen o mod 4 =? 0) eqn:Hmod; [|done]. simpl in H.
    destruct (opt_collides locator tlv o) eqn:Hcol; [done|].
    destruct (MaxGeneveOptsLen <? offset + (4 + dlen o)) eqn:Hlen; [done|].
    apply IH in H as [Hf Hw]; [|lia]. rewrite wire_len_cons. split; [|lia].
    constructor; [|done]. split; [lia|done].
Qed.

Definition tlv_overhead (locator : Z) : Z :=
  if locator =? GeneveLocatorTLV then geneveTLVLocatorWireLen else 0.
Lemma tlv_overhead_range locator : 0 ≤ tlv_overhead locator ≤ 8.
Proof. unfold tlv_overhead, geneveTLVLocatorWireLen. destruct (locator =? _); lia. Qed.

Lemma marshalGeneveOptions_iff locator tlv options v total :
  marshalGeneveOptions locator tlv options = Ok (v, total) ↔
  Forall (opt_fits locator tlv) options ∧
  wire_len options + tlv_overhead locator ≤ MaxGeneveOptsLen ∧
  v = MkGeneveOptsValue (wire_len options)
        (if existsb is_critical options then 1 else 0)
        (enc_opts options ++ replicate (64 - length (enc_opts options)) 0) ∧
  total = wire_len options + tlv_overhead locator.
Proof.
  pose proof (tlv_overhead_range locator) as Hov. pose proof (wire_len_nonneg options) as Hnn.
  unfold marshalGeneveOptions.
  assert (Hrun : Forall (opt_fits locator tlv) options → wire_len options ≤ 64 →
    marshalGeneveOptions_loop locator tlv 0 0 GeneveOptsValue_zero options =
    Ok (MkGeneveOptsValue 0 (if existsb is_critical options then 1 else 0)
          (enc_opts options ++ replicate (64 - length (enc_opts options)) 0), wire_len options)).
  { intros Hf Hw. by apply (marshal_loop_ok locator tlv options Hf 0 [] GeneveOptsValue_zero 64). }
  assert (Hsum : (if locator =? GeneveLocatorTLV then wire_len options + geneveTLVLocatorWireLen
                  else wire_len options) = wire_len options + tlv_overhead locator).
  { unfold tlv_overhead. destruct (locator =? _); lia. }
  split.
  - rewrite res_bind_ok. intros ([v' offset] & Hloop & H).
    destruct (marshal_loop_inv _ _ _ _ _ _ _ _ Hloop) as [Hf Hw]; [done|]. unfold MaxGeneveOptsLen in Hw.
    rewrite Hrun in Hloop by (done || lia). injection Hloop as <- <-. rewrite Hsum in H.
    destruct (MaxGeneveOptsLen <? _) eqn:Hmax; [done|]. unfold MaxGeneveOptsLen in *.
    injection H as <- <-. simpl. rewrite !u8_small by (unfold is_u8; lia).
    repeat split; (done || lia).
  - unfold MaxGeneveOptsLen. intros (Hf & Hw & -> & ->).
    rewrite Hrun by (done || lia). simpl. rewrite Hsum.
    assert ((64 <? wire_len options + tlv_overhead locator) = false) as -> by lia.
    by rewrite !u8_small by (unfold is_u8; lia).
Qed.

(** C37: functional correctness of the option marshaller, both ways.
    [marshalGeneveOptions] succeeds exactly when every option is a whole number
    of words, none collides with the TLV locator, and the encoded options plus
    the locator TLV fit in 64 bytes; the value it returns then holds the
    reference encoding followed by zeros, its length, and the critical bit of
    the options, and the total counts the locator TLV. *)
Theorem marshalGeneveOptions_spec locator tlv options v total :
  marshalGeneveOptions locator tlv options = Ok (v, total) ↔
  Forall (opt_fits locator tlv) options ∧
  wire_len options + tlv_overhead locator ≤ MaxGeneveOptsLen ∧
  v = MkGeneveOptsValue (wire_len options)
        (if existsb is_critical options then 1 else 0)
        (enc_opts options ++ replicate (64 - length (enc_opts options)) 0) ∧
  total = wire_len options + tlv_overhead locator.
Proof. apply marshalGeneveOptions_iff. Qed.

(** ** Round trips *)
Lemma u8_hi_lo class : is_u16 class → u8 (Z.shiftr class 8) * 256 + u8 class = class.
Proof.
  intros Hc. rewrite shiftr_u8 by lia. unfold is_u16, u8 in *. change (2 ^ 8) with 256.
  assert (0 ≤ class / 256 < 256) by (split; [apply Z.div_pos|apply Z.div_lt_upper_bound]; lia).
  rewrite (Z.mod_small (class / 256)) by lia. pose proof (Z.div_mod class 256). lia.
Qed.

Lemma dec_opts_enc o rest fuel :
  opt_ok o → dlen o mod 4 = 0 → dlen o ≤ 124 →
  dec_opts (S fuel) (enc_opt o ++ rest) =
    match dec_opts fuel rest with Some os => Some (o :: os) | None => None end.
Proof.
  intros (Hc & Ht & Hd) Hmod Hmax. unfold enc_opt. cbn [app dec_opts].
  assert (Hdl : 0 ≤ dlen o) by (unfold dlen; lia).
  assert (Z.to_nat (Z.land (u8 (dlen o / 4)) 31 * 4) = length (opt_Data o)) as ->.
  { pose proof (Z.div_mod (dlen o) 4).
    assert (0 ≤ dlen o / 4 ≤ 31) by (split; [apply Z.div_pos|apply Z.div_le_upper_bound]; lia).
    rewrite u8_small by (unfold is_u8; lia). change 31 with (Z.ones 5).
    rewrite Z.land_ones, Z.mod_small by lia. unfold dlen in *. lia. }
  rewrite bool_decide_true by (rewrite length_app; lia).
  rewrite drop_app_length, take_app_length, u8_hi_lo by done.
  destruct o; simpl. done.
Qed.

(** C38: wire round trip.  A standard reader of the option area (class, type,
    five-bit word count) run on the first [Len] bytes that
    [marshalGeneveOptions] produced gives back the caller's options, in order
    and byte for byte. *)
Theorem marshalGeneveOptions_roundtrip locator tlv options v total :
  Forall opt_ok options →
  marshalGeneveOptions locator tlv options = Ok (v, total) →
  dec_opts (length options) (take (Z.to_nat (gv_Len v)) (gv_Data v)) = Some options.
Proof.
  intros Hok (Hfit & Hmax & -> & _)%marshalGeneveOptions_iff. cbn [gv_Len gv_Data].
  unfold wire_len. rewrite Nat2Z.id, take_app_length.
  pose proof (tlv_overhead_range locator). unfold MaxGeneveOptsLen in Hmax.
  assert (wire_len options ≤ 124) as Hw by lia. clear Hmax.
  induction Hfit as [|o options [Hmod _] _ IH]; [done|].
  apply Forall_cons in Hok as [Ho Hok]. rewrite wire_len_cons in Hw.
  pose proof (wire_len_nonneg options). assert (0 ≤ dlen o) by (unfold dlen; lia).
  change (enc_opts (o :: options)) with (enc_opt o ++ enc_opts options). cbn [length].
  rewrite dec_opts_enc by (done || lia). by rewrite IH by (done || lia).
Qed.

Definition ex_options : list GeneveOption :=
  [MkOpt 258 131 [1; 2; 3; 4; 5; 6; 7; 8]; MkOpt 65280 1 []].

Lemma marshalGeneveOptions_roundtrip_witness :
  ∃ v, marshalGeneveOptions GeneveLocatorTLV (Some (MkTLV 258 4)) ex_options = Ok (v, 24) ∧
  dec_opts (length ex_options) (take (Z.to_nat (gv_Len v)) (gv_Data v)) = Some ex_options.
Proof.
  eexists. split; [vm_compute; reflexivity|].
  apply (marshalGeneveOptions_roundtrip GeneveLocatorTLV (Some (MkTLV 258 4)) ex_options _ 24);
    [decide_true | vm_compute; reflexivity].
Defined.

Lemma parseHexUint_pad0 w bits n field :
  0 ≤ n < 2 ^ bits → parseHexUint (pad0 w (fmt_x n)) bits field = Ok n.
Proof.
  intros Hn. unfold parseHexUint.
  assert (Hno : ∀ p, digit_val p = None → has_prefix (pad0 w (fmt_x n)) (String p "") = false).
  { intros p Hp. pose proof (pad0_alnum w 16 n ltac:(lia)) as Hal. fold (fmt_x n) in Hal.
    apply (alnum_lacks p) in Hal; [|done]. unfold has_prefix.
    apply bool_decide_eq_false. intros [r Hr]. destruct (pad0 w (fmt_x n)) as [|c s]; [done|].
    simpl in Hr. case_bool_decide; [|done]. subst. unfold lacks in Hal. simpl in Hal.
    by rewrite bool_decide_true in Hal. }
  rewrite !Hno by reflexivity. cbn [orb]. unfold fmt_x. by rewrite parse_uint_pad0.
Qed.

Lemma pad0_nonempty w n base : pad0 w (fmt_base base n) ≠ "".
Proof.
  unfold pad0, fmt_base. destruct (w - _)%nat; [|done]. apply print_base_nonempty.
  unfold print_fuel. lia.
Qed.

Lemma pad0_lacks_colon w n : lacks ":" (pad0 w (fmt_x n)) = true.
Proof. apply alnum_lacks; [done|]. unfold fmt_x. apply pad0_alnum. lia. Qed.

(** Text round trip of the TLV locator: parsing its printed form gives it
    back, for every 16-bit class and 8-bit type. *)
Lemma GeneveTLVLocator_roundtrip l :
  is_u16 (tlv_Class l) → is_u8 (tlv_Type l) →
  ParseGeneveTLVLocator (GeneveTLVLocator_String l) = Ok l.
Proof.
  intros Hc Ht. unfold ParseGeneveTLVLocator, GeneveTLVLocator_String, fmt_04x, fmt_02x.
  rewrite split_on_sep by apply pad0_lacks_colon.
  rewrite split_on_lacks by apply pad0_lacks_colon.
  rewrite !bool_decide_false by apply pad0_nonempty. cbn [orb].
  rewrite (parseHexUint_pad0 4 16) by done. cbn [map_err res_bind].
  rewrite (parseHexUint_pad0 2 8) by done. cbn [map_err res_bind].
  rewrite u16_small, u8_small by done. by destruct l.
Qed.

Lemma GeneveTLVLocator_roundtrip_witness :
  GeneveTLVLocator_String (MkTLV 258 131) = "0102:83" ∧
  ParseGeneveTLVLocator "0102:83" = Ok (MkTLV 258 131).
Proof.
  split; [vm_compute; reflexivity|].
  apply (GeneveTLVLocator_roundtrip (MkTLV 258 131)); decide_true.
Defined.

(** Text round trip of an opaque option: for every option with a 16-bit
    class, an 8-bit type and a whole number of words of data (none included),
    parsing the printed form gives the option back. *)
Lemma GeneveOption_roundtrip o :
  opt_ok o → dlen o mod 4 = 0 → ParseGeneveOption (GeneveOption_String o) = Ok o.
Proof.
  intros (Hc & Ht & Hd) Hmod. unfold ParseGeneveOption, GeneveOption_String, fmt_04x, fmt_02x.
  rewrite split_n_sep by apply pad0_lacks_colon.
  rewrite split_n_sep by apply pad0_lacks_colon. rewrite split_n_1.
  rewrite !bool_decide_false by apply pad0_nonempty. cbn [orb].
  rewrite (parseHexUint_pad0 4 16) by done. cbn [map_err res_bind].
  rewrite (parseHexUint_pad0 2 8) by done. cbn [map_err res_bind].
  rewrite hex_decode_encode by done. cbn [map_err res_bind]. fold (dlen o). rewrite Hmod.
  cbn [Z.eqb negb]. rewrite u16_small, u8_small by done. by destruct o.
Qed.

Lemma GeneveOption_roundtrip_witness :
  ParseGeneveOption (GeneveOption_String (MkOpt 258 131 [0; 255; 16; 1])) =
    Ok (MkOpt 258 131 [0; 255; 16; 1]).
Proof.
  apply GeneveOption_roundtrip; [decide_true | vm_compute; reflexivity].
Defined.

(** Under the VNI locator the wire VNI identifies the slot and carries the
    caller's VNI: for slots of a switch and VNIs the validation accepts, the
    24-bit value splits back into the pair. *)
Lemma geneveWireVNI_splits slotID vni :
  0 ≤ slotID < MaxPorts → 0 ≤ vni →
  validateTransitGeneveVNI GeneveLocatorVNI vni = Ok tt →
  let w := geneveWireVNI GeneveLocatorVNI slotID vni in
  0 ≤ w < 2 ^ 24 ∧ Z.shiftr w GeneveVNILocatorBits = slotID ∧
  Z.land w GeneveVNIValueMask = vni.
Proof.
  unfold validateTransitGeneveVNI, geneveWireVNI, GeneveVNILocatorBits, GeneveVNIValueMask, MaxPorts.
  cbn [Z.eqb]. intros Hs Hv. rewrite Z.eqb_refl.
  destruct (4095 <? vni) eqn:E; [done|]. intros _. cbv zeta.
  rewrite u32_small by (rewrite Z.shiftl_mul_pow2 by lia; unfold is_u32; lia).
  assert (0 ≤ vni < 2 ^ 12) by lia.
  split; [rewrite lor_shiftl_add by lia; lia|]. split; [by apply shiftr_lor_shiftl|].
  by apply (land_ones_lor_shiftl slotID vni 12).
Qed.

Lemma geneveWireVNI_splits_witness :
  let w := geneveWireVNI GeneveLocatorVNI 4095 4095 in
  0 ≤ w < 2 ^ 24 ∧ Z.shiftr w GeneveVNILocatorBits = 4095 ∧ Z.land w GeneveVNIValueMask = 4095.
Proof. apply geneveWireVNI_splits; [unfold MaxPorts; lia|lia|reflexivity]. Defined.
