(* ===== verification/Prog.v ===== *)
(** * Effectful programs

    The control plane acts on two things: the memory-mapped slot table, which
    other processes and the datapath share, and the kernel, reached through
    third-party packages.  A function with effects is a tree of events: each
    node is one atomic access to the slot memory or one call into a package
    outside the repository, and the subtree is chosen by its answer.

    One tree has several meanings.  [run] executes it against a kernel; [wp]
    gives the weakest precondition in any labelled semantics, and in
    particular in [shared R], where other processes may change the slot table
    as [R] allows before every event and where every answer of the kernel is
    possible. *)
From S2P Require Import Prelude Errors GoStrings GoNet BpfTypes.

(** ** Stores to a slot, one constructor per field of [SlotItem]

    [InnerIp] is missing: it only changes by compare-and-swap. *)
Inductive slot_write :=
  | WIfindex (v : Z)
  | WTransitIfindex (v : Z)
  | WTransitIp (v : Z)
  | WTransitGatewayIp (v : Z)
  | WTransitGeneveVni (v : Z)
  | WTransitMac (v : list Z)
  | WMode (v : Z)
  | WGeneveOptsLen (v : Z)
  | WMgmtCidrCount (v : Z)
  | WMgmtCidrs0 (v : MgmtCidr)
  | WMgmtCidrsExt (j : nat) (v : MgmtCidr)
  | WGeneration (v : Z)
  | WFlags (v : Z)
  | WStatsReady (v : Z).

Definition set_InnerIp (v : Z) (s : SlotItem) : SlotItem :=
  let '(MkSlotItem a _ c d e f g h i j k l m n o) := s in MkSlotItem a v c d e f g h i j k l m n o.

Definition write_slot (w : slot_write) (s : SlotItem) : SlotItem :=
  let '(MkSlotItem ifx ip tifx tip gw vni mac mode olen cnt c0 gen flags ext ready) := s in
  match w with
  | WIfindex v => MkSlotItem v ip tifx tip gw vni mac mode olen cnt c0 gen flags ext ready
  | WTransitIfindex v => MkSlotItem ifx ip v tip gw vni mac mode olen cnt c0 gen flags ext ready
  | WTransitIp v => MkSlotItem ifx ip tifx v gw vni mac mode olen cnt c0 gen flags ext ready
  | WTransitGatewayIp v => MkSlotItem ifx ip tifx tip v vni mac mode olen cnt c0 gen flags ext ready
  | WTransitGeneveVni v => MkSlotItem ifx ip tifx tip gw v mac mode olen cnt c0 gen flags ext ready
  | WTransitMac v => MkSlotItem ifx ip tifx tip gw vni v mode olen cnt c0 gen flags ext ready
  | WMode v => MkSlotItem ifx ip tifx tip gw vni mac v olen cnt c0 gen flags ext ready
  | WGeneveOptsLen v => MkSlotItem ifx ip tifx tip gw vni mac mode v cnt c0 gen flags ext ready
  | WMgmtCidrCount v => MkSlotItem ifx ip tifx tip gw vni mac mode olen v c0 gen flags ext ready
  | WMgmtCidrs0 v => MkSlotItem ifx ip tifx tip gw vni mac mode olen cnt v gen flags ext ready
  | WMgmtCidrsExt j v => MkSlotItem ifx ip tifx tip gw vni mac mode olen cnt c0 gen flags (<[j:=v]> ext) ready
  | WGeneration v => MkSlotItem ifx ip tifx tip gw vni mac mode olen cnt c0 v flags ext ready
  | WFlags v => MkSlotItem ifx ip tifx tip gw vni mac mode olen cnt c0 gen v ext ready
  | WStatsReady v => MkSlotItem ifx ip tifx tip gw vni mac mode olen cnt c0 gen flags ext v
  end.

(** ** Calls into packages outside the repository *)

(** A [netlink.Link], as far as the sources look at it. *)
Record Link := MkLink {
  lk_Name : string; lk_Index : Z; lk_MTU : Z;
  lk_OperUp : bool; lk_OperDown : bool; lk_FlagUp : bool; lk_TypeName : string;
  lk_MAC : list Z;
}.

(** The devices the sources ask the kernel to create. *)
Inductive link_spec :=
  | LVeth (name peer : string) (mtu peerMTU : Z) (peerNs : option Z) (peerMAC : option (list Z)) (group : Z)
  | LTap (name : string) (mtu : Z) (mac : option (list Z)) (group : Z) (noPI : bool)
  | LDummy (name : string).
Definition spec_name (s : link_spec) : string :=
  match s with LVeth n _ _ _ _ _ _ => n | LTap n _ _ _ _ => n | LDummy n => n end.

(** A clsact qdisc and a BPF filter, with the attributes the sources set. *)
Record qdisc_spec := MkQdisc { qd_link : Z; qd_block : option Z }.
Record filter_spec := MkFilter { fl_link : Z; fl_parent : Z; fl_prog : Z }.

(** The pinned BPF maps: their keys and values. *)
Inductive bmap : Type → Type → Type :=
  | MConfig : bmap Z SwitchConfig
  | MMetadata : bmap Z (list Z)
  | MStats : bmap Z SlotStats
  | MIfindexToSlot : bmap Z Z
  | MGeneveOpts : bmap Z GeneveOptsValue
  | MMgmtSvcFwd : bmap SvcKey SvcVal
  | MMgmtSvcRev : bmap SvcKey SvcVal.

(** A DHCP acknowledgement, as far as the sources look at it; [None] where the
    option is absent. *)
Record DhcpAck := MkDhcpAck {
  dk_YourIPAddr : IP; dk_SubnetMask : option (list Z); dk_Router : list IP; dk_DNS : list IP;
  dk_LeaseTime : Z; dk_ServerIdentifier : IP;
}.

(** A control message of [recvmsg], parsed by [syscall.ParseSocketControlMessage]:
    its level, its type, and its data read as file descriptors. *)
Record SocketControlMessage := MkScm { scm_Level : Z; scm_Type : Z; scm_Fds : list Z }.

(** What the [select] of the serve loop delivers. *)
Inductive serve_msg :=
  | MsgSignal (name : string)
  | MsgTapFD (e : option error)
  | MsgProvisioned (e : option error)
  | MsgWatchdogTick
  | MsgStatusTick.

(** What such a call answers: a value or an error. *)
Definition ans (A : Type) : Type := (A + error)%type.

Inductive kev : Type → Type :=
  (* os *)
  | OsStat (path : string) : kev (ans bool)                     (* is a directory *)
  | OsOpen (path : string) : kev (ans Z)
  | OsFileClose (f : Z) : kev unit
  | OsMkdir (path : string) : kev (ans unit)
  | OsMkdirAll (path : string) : kev (ans unit)
  | OsRemoveAll (path : string) : kev (ans unit)
  | Flock (f op : Z) : kev (ans unit)
  | Statfs (path : string) : kev (ans Z)                        (* file system magic *)
  | Mount (src dst fstype : string) : kev (ans unit)
  (* github.com/vishvananda/netns *)
  | NsGet : kev (ans Z)
  | NsSet (h : Z) : kev (ans unit)
  | NsGetFromName (name : string) : kev (ans Z)
  | NsClose (h : Z) : kev (ans unit)
  (* github.com/vishvananda/netlink *)
  | NlLinkByName (name : string) : kev (ans Link)
  | NlLinkByIndex (i : Z) : kev (ans Link)
  | NlLinkList : kev (list Link * option error)
  | NlLinkAdd (s : link_spec) : kev (ans unit)
  | NlLinkDelSpec (s : link_spec) : kev (ans unit)
  | NlLinkDel (l : Link) : kev (ans unit)
  | NlLinkSetUp (l : Link) : kev (ans unit)
  | NlLinkSetHardwareAddr (l : Link) (mac : list Z) : kev (ans unit)
  | NlLinkSetNsFd (l : Link) (fd : Z) : kev (ans unit)
  | NlLinkSetMTU (l : Link) (mtu : Z) : kev (ans unit)
  | NlAddrAdd (l : Link) (addr : IPNet) : kev (ans unit)
  | NlAddrList (l : Link) : kev (ans (list IPNet))
  | NlRouteAdd (link : Z) (dst : IPNet) (gw : IP) (metric : Z) : kev (ans unit)
  | NlQdiscList (l : Link) : kev (ans (list string))
  | NlQdiscAdd (q : qdisc_spec) : kev (ans unit)
  | NlQdiscDel (q : qdisc_spec) : kev (ans unit)
  | NlFilterList (link parent : Z) : kev (ans (list (Z * bool)))   (* handle, is BPF *)
  | NlFilterAdd (f : filter_spec) : kev (ans unit)
  | NlFilterDel (h : Z) : kev (ans unit)
  (* github.com/cilium/ebpf *)
  | MapUpdate {K V} (m : bmap K V) (key : K) (val : V) (locked : bool) : kev (ans unit)
  | MapLookup {K V} (m : bmap K V) (key : K) (locked : bool) : kev (ans V)
  | MapDelete {K V} (m : bmap K V) (key : K) : kev (ans unit)
  | LoadPinnedMap (path : string) : kev (ans Z)
  | CloseMap (m : Z) : kev (ans unit)
  | MapID (m : Z) : kev (ans (option Z))
  | PinMap (m : Z) (path : string) : kev (ans unit)
  | LoadSpec : kev (ans Z)
  | LoadAndAssign (spec : Z) : kev (ans ((Z * Z * Z) * (Z * Z * Z * Z * Z * Z * Z * Z)))  (* programs, maps *)
  | CloseProg (p : Z) : kev (ans unit)
  | MapShape (m : Z) : kev (Z * Z * Z)                           (* FD, value size, max entries *)
  | Getpagesize : kev Z
  | Mmap (fd size : Z) : kev (ans unit)
  | Munmap : kev (ans unit)
  (* net, context, time *)
  | NetInterfaceByName (name : string) : kev (ans unit)
  | CtxErr : kev (option error)
  | SleepOrDone : kev (option error)                             (* time.After against ctx.Done *)
  | Sleep : kev unit
  (* github.com/insomniacslk/dhcp *)
  | DhcpNewClient (ifname : string) (timeout : Z) : kev (ans Z)
  | DhcpRequest (client : Z) : kev (ans (option DhcpAck))
  | DhcpClientClose (client : Z) : kev (ans unit)
  (* golang.org/x/sys/unix, syscall *)
  | UnixOpen (path : string) (flags : Z) : kev (ans Z)
  | IoctlTunSetIff (fd : Z) (name : string) (flags : Z) : kev (ans string)   (* ifr_name afterwards *)
  | SetNonblock (fd : Z) : kev (ans unit)
  | UnixClose (fd : Z) : kev (ans unit)
  (* os, net: sockets and their paths *)
  | OsGetenv (name : string) : kev string
  | OsLstat (path : string) : kev (ans bool)                    (* is a socket *)
  | OsRemove (path : string) : kev (ans unit)
  | OsChmod (path : string) (mode : Z) : kev (ans unit)
  | ResolveUnixAddr (path : string) : kev (ans unit)
  | DialUnix (network path : string) : kev (ans Z)
  | DialUnixTimeout (path : string) : kev (ans Z)
  | ListenUnix (path : string) : kev (ans Z)
  | ListenerAccept (ln : Z) : kev (ans Z)
  | ListenerClose (ln : Z) : kev (ans unit)
  | FileConn (fd : Z) : kev (ans (Z * bool))                    (* is a unix connection *)
  | ConnClose (c : Z) : kev (ans unit)
  | ConnSetReadDeadline (c : Z) (set : bool) : kev (ans unit)
  | ConnRead (c : Z) : kev (option Z * option error)            (* into one byte *)
  | ConnWrite (c : Z) (b : string) : kev (Z * option error)
  | ConnReadMsg (c size oobSize : Z) : kev (ans (string * ans (list SocketControlMessage)))
  | ConnWriteMsg (c : Z) (b : string) (rights : list Z) : kev (ans unit)
  (* os, golang.org/x/sys/unix: files and raw netlink of the standalone helper *)
  | OsReadFile (path : string) : kev (ans string)
  | NetlinkSocket : kev (ans Z)
  | NetlinkBind (fd : Z) : kev (ans unit)
  | NetlinkSendto (fd : Z) (b : list Z) : kev (ans unit)
  | NetlinkRecvfrom (fd size : Z) : kev (ans (list Z))          (* the bytes received *)
  (* os, time: diagnostics, exit, clock and channels of the commands *)
  | Stdout (s : string) : kev unit
  | Stderr (s : string) : kev unit
  | OsExit (code : Z) : kev unit
  | TimeNow : kev Z
  | TickOrDone : kev bool                                        (* a tick, or ctx.Done *)
  | ServeSelect (tapfd prov watchdog : bool) : kev serve_msg.

(** The answers of a kernel that refuses every fallible call: what the example
    kernels fall back to. *)
Definition refused {A} : ans A := inr (errorf "refused").
Definition refuse {B} (e : kev B) : B :=
  match e in kev B return B with
  | OsFileClose _ | Sleep | Stdout _ | Stderr _ | OsExit _ => tt
  | NlLinkList => ([], None)
  | MapShape _ => (0, 0, 0)
  | Getpagesize => 4096
  | CtxErr | SleepOrDone => None
  | OsGetenv _ => ""
  | ConnRead _ => (None, Some (errorf "refused"))
  | ConnWrite _ _ => (0, Some (errorf "refused"))
  | TimeNow => 0
  | TickOrDone => false
  | ServeSelect _ _ _ => MsgSignal "terminated"
  | _ => refused
  end.

(** ** Events and programs *)
Inductive ev : Type → Type :=
  | ELoadIP (i : Z) : ev Z
  | ECas (i old new : Z) : ev bool
  | ELoadSlot (i : Z) : ev SlotItem
  | EStore (i : Z) (w : slot_write) : ev unit
  | EKern {B} (e : kev B) : ev B.

Inductive prog (A : Type) : Type :=
  | Ret (a : A)
  | Vis {B} (e : ev B) (k : B → prog A).
Arguments Ret {A} _.
Arguments Vis {A B} _ _.

Fixpoint pbind {A B} (p : prog A) (f : A → prog B) : prog B :=
  match p with
  | Ret a => f a
  | Vis e k => Vis e (λ x, pbind (k x) f)
  end.
Definition trigger {B} (e : ev B) : prog B := Vis e Ret.
Definition kern {B} (e : kev B) : prog B := trigger (EKern e).

(** Fallible programs: an error or a panic ends the sequence. *)
Definition M (A : Type) : Type := prog (res A).
Definition of_ans {A} (r : ans A) : res A := match r with inl a => Ok a | inr e => Err e end.
Definition call {A} (e : kev (ans A)) : M A := pbind (kern e) (λ r, Ret (of_ans r)).
Definition mok {A} (a : A) : M A := Ret (Ok a).
Definition merr {A} (e : error) : M A := Ret (Err e).
Definition mpanic {A} : M A := Ret Panic.
Definition mbind {A B} (m : M A) (f : A → M B) : M B :=
  pbind m (λ r, match r with
                | Ok a => f a
                | Err e => Ret (Err e)
                | Panic => Ret Panic
                | OutOfFuel => Ret OutOfFuel
                end).
Definition mwrap {A} (f : error → error) (m : M A) : M A :=
  pbind m (λ r, Ret (map_err f r)).
Definition mpure {A} (r : res A) : M A := Ret r.

Notation "'let~' x := p 'in' k" := (pbind p (λ x, k))
  (at level 10, x pattern, p at level 100, k at level 200) : go_scope.
Notation "'let*' x := m 'in' k" := (mbind m (λ x, k))
  (at level 10, x pattern, m at level 100, k at level 200) : go_scope.

(** [defer cleanup()]: the clean-up runs whatever the body's outcome. *)
Definition with_defer {A C} (cleanup : prog C) (body : M A) : M A :=
  let~ r := body in let~ _ := cleanup in Ret r.

(** On an error the clean-up runs, its outcome is dropped, and the error is
    returned: the shape of every roll-back in the sources. *)
Definition on_err {A C} (cleanup : prog C) (p : M A) : M A :=
  let~ r := p in
  match r with
  | Err e => let~ _ := cleanup in merr e
  | r => Ret r
  end.

(** A nil-pointer dereference when the pointer is nil. *)
Definition deref {P A} (p : option P) (k : P → M A) : M A :=
  match p with Some x => k x | None => mpanic end.

(** ** Execution against a kernel *)
Class Kernel (K : Type) := kernel_step : ∀ {B}, kev B → K → B * K.

Record world (K : Type) := MkWorld { w_slots : list SlotItem; w_kern : K }.
Arguments MkWorld {K} _ _.
Arguments w_slots {K} _.
Arguments w_kern {K} _.

(** The slot memory: an access past the mapping faults ([None]). *)
Definition slot_at (s : list SlotItem) (i : Z) : option SlotItem :=
  if i <? 0 then None else s !! Z.to_nat i.
Definition set_slot (s : list SlotItem) (i : Z) (x : SlotItem) : list SlotItem :=
  <[Z.to_nat i := x]> s.

(** One event on the slot memory; [None] for a kernel call or a fault. *)
Definition mem_step {B} (e : ev B) (s : list SlotItem) : option (B * list SlotItem) :=
  match e in ev B return option (B * list SlotItem) with
  | ELoadIP i => match slot_at s i with Some x => Some (si_InnerIp x, s) | None => None end
  | ECas i old new =>
      match slot_at s i with
      | Some x => if si_InnerIp x =? old then Some (true, set_slot s i (set_InnerIp new x))
                  else Some (false, s)
      | None => None
      end
  | ELoadSlot i => match slot_at s i with Some x => Some (x, s) | None => None end
  | EStore i w => match slot_at s i with Some x => Some (tt, set_slot s i (write_slot w x)) | None => None end
  | EKern _ => None
  end.

(** [run] stops with [None] on a memory fault. *)
Fixpoint run {K} `{Kernel K} {A} (p : prog A) (w : world K) : option (A * world K) :=
  match p with
  | Ret a => Some (a, w)
  | Vis e k =>
      match e in ev B return (B → prog A) → option (A * world K) with
      | EKern q => λ k, let '(b, kn) := kernel_step q (w_kern w) in run (k b) (MkWorld (w_slots w) kn)
      | e => λ k, match mem_step e (w_slots w) with
                  | Some (b, s) => run (k b) (MkWorld s (w_kern w))
                  | None => None
                  end
      end k
  end.

(** ** Weakest preconditions

    A labelled semantics says in which states an event may be issued and how
    the state can change with each answer. *)
Record sem (S : Type) := MkSem {
  sem_ok : ∀ {B}, ev B → S → Prop;
  sem_step : ∀ {B}, ev B → S → B → S → Prop;
}.
Arguments MkSem {S} _ _.
Arguments sem_ok {S} _ {B} _ _.
Arguments sem_step {S} _ {B} _ _ _ _.

Fixpoint wp {S A} (m : sem S) (p : prog A) (Q : A → S → Prop) (s : S) : Prop :=
  match p with
  | Ret a => Q a s
  | Vis e k => sem_ok m e s ∧ ∀ b s', sem_step m e s b s' → wp m (k b) Q s'
  end.

Lemma wp_mono {S A} (m : sem S) (p : prog A) (Q Q' : A → S → Prop) s :
  wp m p Q s → (∀ a s, Q a s → Q' a s) → wp m p Q' s.
Proof.
  intros H HQ. revert s H. induction p as [a|B e k IH]; simpl; [auto|].
  intros s [Hok H]. split; [done|]. eauto.
Qed.

Lemma wp_bind {S A B} (m : sem S) (p : prog A) (f : A → prog B) Q s :
  wp m (pbind p f) Q s ↔ wp m p (λ a s, wp m (f a) Q s) s.
Proof.
  revert s. induction p as [a|C e k IH]; intros s; simpl; [done|].
  split; intros [Hok H]; (split; [done|]); intros b s' Hs; apply IH; auto.
Qed.

(** The sequencing of fallible programs. *)
Lemma wp_mbind {S A B} (m : sem S) (p : M A) (f : A → M B) Q s :
  wp m (mbind p f) Q s ↔
  wp m p (λ r s, match r with
                 | Ok a => wp m (f a) Q s
                 | Err e => Q (Err e) s
                 | Panic => Q Panic s
                 | OutOfFuel => Q OutOfFuel s
                 end) s.
Proof.
  unfold mbind. rewrite wp_bind. split; intros H; (eapply wp_mono; [exact H|]); by intros [] ?.
Qed.

Lemma wp_mwrap {S A} (m : sem S) f (p : M A) Q s :
  wp m (mwrap f p) Q s ↔ wp m p (λ r s, Q (map_err f r) s) s.
Proof. apply wp_bind. Qed.

(** One call: its two kinds of answer. *)
Lemma wp_call {S A} (m : sem S) (e : kev (ans A)) (Q : res A → S → Prop) s :
  sem_ok m (EKern e) s →
  (∀ a s', sem_step m (EKern e) s (inl a) s' → Q (Ok a) s') →
  (∀ er s', sem_step m (EKern e) s (inr er) s' → Q (Err er) s') →
  wp m (call e) Q s.
Proof. intros Hok Ha He. split; [done|]. intros [a|er] s' Hs; simpl; [by apply Ha | by apply He]. Qed.

Lemma wp_trigger {S B} (m : sem S) (e : ev B) Q s :
  wp m (trigger e) Q s ↔ sem_ok m e s ∧ ∀ b s', sem_step m e s b s' → Q b s'.
Proof. done. Qed.

(** *** Shared slot memory

    [R] is what the rest of the world may do to the slot table between two
    events of the program; the kernel may answer anything. *)
Definition shared (R : list SlotItem → list SlotItem → Prop) : sem (list SlotItem) :=
  MkSem
    (λ B e s, ∀ s', R s s' → match e with EKern _ => True | _ => is_Some (mem_step e s') end)
    (λ B e s b s'', ∃ s', R s s' ∧
       match e in ev B return B → Prop with
       | EKern _ => λ _, s'' = s'
       | e => λ b, mem_step e s' = Some (b, s'')
       end b).

(** With nobody else around. *)
Definition alone : sem (list SlotItem) := shared eq.

(** A program that never touches the slot memory. *)
Fixpoint kern_only {A} (p : prog A) : Prop :=
  match p with
  | Ret _ => True
  | Vis e k => (match e with EKern _ => True | _ => False end) ∧ ∀ b, kern_only (k b)
  end.

Lemma kern_only_bind {A B} (p : prog A) (f : A → prog B) :
  kern_only p → (∀ a, kern_only (f a)) → kern_only (pbind p f).
Proof. induction p as [a|C e k IH]; simpl; naive_solver. Qed.
Lemma kern_only_mbind {A B} (p : M A) (f : A → M B) :
  kern_only p → (∀ a, kern_only (f a)) → kern_only (mbind p f).
Proof. intros Hp Hf. apply kern_only_bind; [done|]. by intros []. Qed.
Lemma kern_only_mwrap {A} f (p : M A) : kern_only p → kern_only (mwrap f p).
Proof. intros. by apply kern_only_bind. Qed.
Lemma kern_only_kern {B} (e : kev B) : kern_only (kern e).
Proof. done. Qed.
Lemma kern_only_call {A} (e : kev (ans A)) : kern_only (call e).
Proof. done. Qed.
Lemma kern_only_ret {A} (a : A) : kern_only (Ret a).
Proof. done. Qed.
Lemma kern_only_defer {A C} (c : prog C) (p : M A) :
  kern_only c → kern_only p → kern_only (with_defer c p).
Proof. intros. apply kern_only_bind; [done|]. intros. by apply kern_only_bind. Qed.

Lemma kern_only_on_err {A C} (c : prog C) (p : M A) :
  kern_only c → kern_only p → kern_only (on_err c p).
Proof. intros. apply kern_only_bind; [done|]. intros []; try done. by apply kern_only_bind. Qed.

Create HintDb kern_only.
#[export] Hint Resolve kern_only_bind kern_only_mbind kern_only_mwrap kern_only_kern
  kern_only_ret kern_only_defer kern_only_on_err : kern_only.

(** [kern_only] goals by following the program text. *)
Ltac kern_only_step :=
  match goal with
  | |- ∀ _, _ => intro
  | |- kern_only (Ret _) => exact I
  | |- kern_only (kern _) => apply kern_only_kern
  | |- kern_only (call _) => apply kern_only_call
  | |- kern_only (merr _) => exact I
  | |- kern_only (mok _) => exact I
  | |- kern_only mpanic => exact I
  | |- kern_only (mpure _) => exact I
  | |- kern_only (pbind _ _) => apply kern_only_bind
  | |- kern_only (mbind _ _) => apply kern_only_mbind
  | |- kern_only (mwrap _ _) => apply kern_only_mwrap
  | |- kern_only (with_defer _ _) => apply kern_only_defer
  | |- kern_only (on_err _ _) => apply kern_only_on_err
  | |- kern_only (match ?x with _ => _ end) => destruct x
  | |- kern_only _ => solve [auto with kern_only]
  end.
Ltac kern_only := repeat (cbv zeta; kern_only_step).

(** *** Fallible programs on the kernel alone that come back with a value or
    an error: they neither panic nor run out of fuel *)
Fixpoint ends_in {A} (P : A → Prop) (p : prog A) : Prop :=
  match p with
  | Ret a => P a
  | Vis e k => (match e with EKern _ => True | _ => False end) ∧ ∀ b, ends_in P (k b)
  end.
Definition kern_ret {A} (p : M A) : Prop := ends_in returns p.

Lemma ends_in_bind {A B} (P : A → Prop) (Q : B → Prop) (p : prog A) (f : A → prog B) :
  ends_in P p → (∀ a, P a → ends_in Q (f a)) → ends_in Q (pbind p f).
Proof. induction p as [a|C e k IH]; simpl; naive_solver. Qed.
Lemma ends_in_mono {A} (P Q : A → Prop) (p : prog A) : (∀ a, P a → Q a) → ends_in P p → ends_in Q p.
Proof. intros H. induction p as [a|B e k IH]; simpl; [apply H|]. intros [He Hk]. split; [done|]. intros b. by apply IH. Qed.
Lemma kern_ret_only {A} (p : M A) : kern_ret p → kern_only p.
Proof. unfold kern_ret. induction p as [a|C e k IH]; simpl; naive_solver. Qed.
Lemma kern_only_ends {A} (p : prog A) : kern_only p → ends_in (λ _, True) p.
Proof. induction p as [a|C e k IH]; simpl; naive_solver. Qed.
Lemma kern_ret_call {A} (e : kev (ans A)) : kern_ret (call e).
Proof. split; [done|]. by intros []. Qed.
Lemma kern_ret_bind {A B} (p : M A) (f : res A → M B) :
  kern_ret p → (∀ r, returns r → kern_ret (f r)) → kern_ret (pbind p f).
Proof. apply ends_in_bind. Qed.
Lemma kern_ret_pbind {A B} (p : prog A) (f : A → M B) :
  kern_only p → (∀ a, kern_ret (f a)) → kern_ret (pbind p f).
Proof. intros Hp%kern_only_ends Hf. eapply ends_in_bind; [done|]. intros a _. apply Hf. Qed.
Lemma kern_ret_mbind {A B} (p : M A) (f : A → M B) :
  kern_ret p → (∀ a, kern_ret (f a)) → kern_ret (mbind p f).
Proof. intros Hp Hf. apply kern_ret_bind; [done|]. intros [] Hr; try done; apply Hf. Qed.
Lemma kern_ret_mwrap {A} f (p : M A) : kern_ret p → kern_ret (mwrap f p).
Proof. intros Hp. apply kern_ret_bind; [done|]. intros [] Hr; try done; exact Hr. Qed.
Lemma kern_ret_defer {A C} (c : prog C) (p : M A) :
  kern_only c → kern_ret p → kern_ret (with_defer c p).
Proof. intros Hc Hp. apply kern_ret_bind; [done|]. intros r Hr. apply kern_ret_pbind; [done|]. by intros _. Qed.
Lemma kern_ret_on_err {A C} (c : prog C) (p : M A) :
  kern_only c → kern_ret p → kern_ret (on_err c p).
Proof.
  intros Hc Hp. apply kern_ret_bind; [done|]. intros [] Hr; try done. apply kern_ret_pbind; [done|]. by intros _.
Qed.

Create HintDb kern_ret.
Ltac kern_ret_step :=
  match goal with
  | |- ∀ _, _ => intro
  | H : returns Panic |- _ => destruct H
  | H : returns OutOfFuel |- _ => destruct H
  | |- returns (Ok _) => exact I
  | |- returns (Err _) => exact I
  | |- kern_ret (call _) => apply kern_ret_call
  | |- kern_ret (Ret (Ok _)) => exact I
  | |- kern_ret (Ret (Err _)) => exact I
  | |- kern_ret (merr _) => exact I
  | |- kern_ret (mok _) => exact I
  | |- kern_ret (Ret ?r) => assumption
  | |- kern_ret (mpure (map_err _ ?r)) => destruct r; [exact I|exact I| |]
  | |- kern_ret (mpure _) => first [assumption | apply I | solve [unfold mpure, kern_ret; simpl; auto with returns]]
  | |- kern_ret (mbind _ _) => apply kern_ret_mbind
  | |- kern_ret (mwrap _ _) => apply kern_ret_mwrap
  | |- kern_ret (with_defer _ _) => apply kern_ret_defer; [kern_only|]
  | |- kern_ret (on_err _ _) => apply kern_ret_on_err; [kern_only|]
  | |- kern_ret (match ?x with _ => _ end) => destruct x
  | |- kern_ret _ => solve [auto with kern_ret]
  | |- kern_ret (pbind (A := res _) _ _) => apply kern_ret_bind
  | |- kern_ret (pbind _ _) => apply kern_ret_pbind; [kern_only|]
  end.
Ltac kern_ret := repeat (cbv zeta; kern_ret_step).
#[export] Hint Extern 5 (kern_only _) => apply kern_ret_only; solve [kern_ret] : kern_only.

(** Such a program leaves the slots to the others. *)
Lemma wp_kern_only {A} R (p : prog A) Q s :
  (∀ s, R s s) → (∀ s1 s2 s3, R s1 s2 → R s2 s3 → R s1 s3) →
  kern_only p → (∀ a s', R s s' → Q a s') → wp (shared R) p Q s.
Proof.
  intros Hrefl Htrans. revert s. induction p as [a|B e k IH]; simpl; intros s Hk HQ; [by auto|].
  destruct e; try (by destruct Hk). destruct Hk as [_ Hk]. split; [done|].
  intros b s' (s1 & HR & ->). apply IH; eauto.
Qed.

Lemma wp_alone_kern_only {A} (p : prog A) Q s :
  kern_only p → (∀ a, Q a s) → wp alone p Q s.
Proof. intros Hk HQ. apply wp_kern_only; [done|congruence|done|]. by intros a s' <-. Qed.

Lemma wp_alone_ends_in {A} P (p : prog A) Q s :
  ends_in P p → (∀ a, P a → Q a s) → wp alone p Q s.
Proof.
  induction p as [a|B e k IH]; simpl; intros Hk HQ; [by auto|].
  destruct e; try (by destruct Hk). destruct Hk as [_ Hk]. split; [done|].
  intros b s' (s1 & <- & ->). by apply IH.
Qed.
Lemma wp_alone_kern_ret {A} (p : M A) Q s :
  kern_ret p → (∀ a, Q (Ok a) s) → (∀ e, Q (Err e) s) → wp alone p Q s.
Proof. intros Hk Hok Herr. eapply wp_alone_ends_in; [exact Hk|]. by intros []. Qed.

(** *** Adequacy: running is one of the behaviours [wp] covers, and a program
    with a weakest precondition always returns. *)
Theorem wp_run {K} `{Kernel K} {A} (p : prog A) (Q : A → list SlotItem → Prop) (w : world K) :
  wp alone p Q (w_slots w) → ∃ a w', run p w = Some (a, w') ∧ Q a (w_slots w').
Proof.
  revert w. induction p as [a|B e k IH]; intros w; simpl; [by eauto|].
  intros [Hok Hstep]. specialize (Hok _ eq_refl).
  destruct e as [i|i o n|i|i wr|B q];
    try (destruct Hok as [[b s'] E]; simpl in E; rewrite E;
         apply (IH b (MkWorld s' (w_kern w))), Hstep; by eexists).
  destruct (kernel_step q (w_kern w)) as [b kn]. apply (IH b (MkWorld (w_slots w) kn)), Hstep.
  by exists (w_slots w).
Qed.

(** *** Rules for one memory event, under interference [R] *)
Section mem_rules.
Context (R : list SlotItem → list SlotItem → Prop).

Lemma wp_load i Q s :
  (∀ s', R s s' → ∃ x, slot_at s' i = Some x ∧ Q (si_InnerIp x) s') →
  wp (shared R) (trigger (ELoadIP i)) Q s.
Proof.
  intros H. split.
  - intros s' HR. destruct (H s' HR) as (x & E & _). simpl. rewrite E. eauto.
  - intros b s'' (s' & HR & E). destruct (H s' HR) as (x & Ex & HQ). simpl in E.
    rewrite Ex in E. by simplify_eq.
Qed.

Lemma wp_load_slot i Q s :
  (∀ s', R s s' → ∃ x, slot_at s' i = Some x ∧ Q x s') →
  wp (shared R) (trigger (ELoadSlot i)) Q s.
Proof.
  intros H. split.
  - intros s' HR. destruct (H s' HR) as (x & E & _). simpl. rewrite E. eauto.
  - intros b s'' (s' & HR & E). destruct (H s' HR) as (x & Ex & HQ). simpl in E.
    rewrite Ex in E. by simplify_eq.
Qed.

Lemma wp_store i w (Q : unit → list SlotItem → Prop) s :
  (∀ s', R s s' → ∃ x, slot_at s' i = Some x ∧ Q tt (set_slot s' i (write_slot w x))) →
  wp (shared R) (trigger (EStore i w)) Q s.
Proof.
  intros H. split.
  - intros s' HR. destruct (H s' HR) as (x & E & _). simpl. rewrite E. eauto.
  - intros b s'' (s' & HR & E). destruct (H s' HR) as (x & Ex & HQ). simpl in E.
    rewrite Ex in E. by simplify_eq.
Qed.

Lemma wp_cas i old new (Q : bool → list SlotItem → Prop) s :
  (∀ s', R s s' → ∃ x, slot_at s' i = Some x ∧
     if si_InnerIp x =? old then Q true (set_slot s' i (set_InnerIp new x)) else Q false s') →
  wp (shared R) (trigger (ECas i old new)) Q s.
Proof.
  intros H. split.
  - intros s' HR. destruct (H s' HR) as (x & E & _). simpl. rewrite E. destruct (_ =? _); eauto.
  - intros b s'' (s' & HR & E). destruct (H s' HR) as (x & Ex & HQ). simpl in E.
    rewrite Ex in E. destruct (_ =? _); by simplify_eq.
Qed.
End mem_rules.

Lemma wp_kern R {B} (e : kev B) Q s :
  (∀ b s', R s s' → Q b s') → wp (shared R) (kern e) Q s.
Proof. intros H. split; [done|]. intros b s'' (s' & HR & ->). by apply H. Qed.

(** *** The slot memory as a finite map *)
Definition in_slots (s : list SlotItem) (i : Z) : Prop := 0 ≤ i < Z.of_nat (length s).

Lemma slot_at_in s i : in_slots s i → ∃ x, slot_at s i = Some x.
Proof.
  intros [H1 H2]. unfold slot_at. assert ((i <? 0) = false) as -> by lia.
  apply lookup_lt_is_Some. lia.
Qed.
Lemma slot_at_range s i x : slot_at s i = Some x → in_slots s i.
Proof.
  unfold slot_at, in_slots. destruct (i <? 0) eqn:E; [done|]. intros H%lookup_lt_Some. lia.
Qed.
Lemma slot_at_set s i x y : slot_at s i = Some y → slot_at (set_slot s i x) i = Some x.
Proof.
  intros H. pose proof (slot_at_range _ _ _ H) as [? ?]. unfold slot_at, set_slot in *.
  destruct (i <? 0); [done|]. apply list_lookup_insert_eq. lia.
Qed.
Lemma slot_at_set_ne s i j x : 0 ≤ i → i ≠ j → slot_at (set_slot s i x) j = slot_at s j.
Proof.
  intros Hi Hne. unfold slot_at, set_slot. destruct (j <? 0) eqn:E; [done|].
  apply list_lookup_insert_ne. lia.
Qed.
Lemma set_slot_length s i x : length (set_slot s i x) = length s.
Proof. apply length_insert. Qed.
Lemma set_slot_set s i x y : set_slot (set_slot s i x) i y = set_slot s i y.
Proof. apply list_insert_insert_eq. Qed.
Lemma set_slot_id s i x : slot_at s i = Some x → set_slot s i x = s.
Proof.
  unfold slot_at, set_slot. destruct (i <? 0); [done|]. apply list_insert_id.
Qed.
Lemma in_slots_set s i j x : in_slots (set_slot s i x) j ↔ in_slots s j.
Proof. unfold in_slots. by rewrite set_slot_length. Qed.
#[export] Hint Rewrite set_slot_length set_slot_set in_slots_set : gosimp.

(** ** Events a program may issue, whatever the answers *)
Fixpoint obeys {A} (P : ∀ B, ev B → Prop) (p : prog A) : Prop :=
  match p with
  | Ret _ => True
  | Vis e k => P _ e ∧ ∀ b, obeys P (k b)
  end.

Lemma obeys_bind {A B} P (p : prog A) (f : A → prog B) :
  obeys P p → (∀ a, obeys P (f a)) → obeys P (pbind p f).
Proof. induction p as [a|C e k IH]; simpl; naive_solver. Qed.
Lemma obeys_mbind {A B} P (p : M A) (f : A → M B) :
  obeys P p → (∀ a, obeys P (f a)) → obeys P (mbind p f).
Proof. intros Hp Hf. apply obeys_bind; [done|]. by intros []. Qed.
Lemma obeys_mwrap {A} P f (p : M A) : obeys P p → obeys P (mwrap f p).
Proof. intros. by apply obeys_bind. Qed.
Lemma obeys_defer {A C} P (c : prog C) (p : M A) :
  obeys P c → obeys P p → obeys P (with_defer c p).
Proof. intros. apply obeys_bind; [done|]. intros. by apply obeys_bind. Qed.
Lemma obeys_on_err {A C} P (c : prog C) (p : M A) :
  obeys P c → obeys P p → obeys P (on_err c p).
Proof. intros. apply obeys_bind; [done|]. intros []; try done. by apply obeys_bind. Qed.
Lemma obeys_kern_only {A} P (p : prog A) :
  (∀ B (e : kev B), P _ (EKern e)) → kern_only p → obeys P p.
Proof.
  intros HP. induction p as [a|B e k IH]; simpl; [done|]. destruct e; naive_solver.
Qed.
Create HintDb obeys.

(** Follow the program text; [tac] closes the events. *)
Ltac obeys_step tac :=
  match goal with
  | |- ∀ _, _ => intro
  | |- obeys _ (Ret _) => exact I
  | |- obeys _ (merr _) => exact I
  | |- obeys _ (mok _) => exact I
  | |- obeys _ mpanic => exact I
  | |- obeys _ (mpure _) => exact I
  | |- obeys _ (trigger _) => split; [tac | intros; exact I]
  | |- obeys _ (kern _) => split; [tac | intros; exact I]
  | |- obeys _ (call _) => split; [tac | intros; exact I]
  | |- obeys _ _ => solve [eauto with obeys]
  | |- obeys _ (pbind _ _) => apply obeys_bind
  | |- obeys _ (mbind _ _) => apply obeys_mbind
  | |- obeys _ (mwrap _ _) => apply obeys_mwrap
  | |- obeys _ (with_defer _ _) => apply obeys_defer
  | |- obeys _ (on_err _ _) => apply obeys_on_err
  | |- obeys _ (match ?x with _ => _ end) => destruct x eqn:?
  | |- obeys _ _ => solve [apply obeys_kern_only; [intros; tac | kern_only]]
  end.
Ltac obeys tac := repeat (cbv zeta; obeys_step tac).

(** ** A ghost state beside the slot table *)
Section ghost.
Context {G : Type} (gok : ∀ B, kev B → G → Prop) (gstep : ∀ B, kev B → G → B → G → Prop).

Definition ghost_sem : sem (list SlotItem * G) :=
  MkSem
    (λ B e t, match e with EKern q => gok _ q t.2 | _ => is_Some (mem_step e t.1) end)
    (λ B e t b t',
       match e in ev B return B → Prop with
       | EKern q => λ b, t'.1 = t.1 ∧ gstep _ q t.2 b t'.2
       | e => λ b, mem_step e t.1 = Some (b, t'.1) ∧ t'.2 = t.2
       end b).

(** Events that change the ghost state within [rel] at most. *)
Definition within (rel : G → G → Prop) (B : Type) (e : ev B) : Prop :=
  match e with
  | EKern q => (∀ g, gok _ q g) ∧ ∀ g b g', gstep _ q g b g' → rel g g'
  | _ => True
  end.

(** What holds of a program on the slot table alone holds beside the ghost
    state, which moves within [rel]. *)
Lemma wp_ghost_frame {A} (rel : G → G → Prop) (p : prog A) (Q : A → list SlotItem → Prop) t :
  (∀ g, rel g g) → (∀ g1 g2 g3, rel g1 g2 → rel g2 g3 → rel g1 g3) →
  obeys (within rel) p → wp alone p Q t.1 →
  wp ghost_sem p (λ a t', Q a t'.1 ∧ rel t.2 t'.2) t.
Proof.
  intros Hrefl Htrans. destruct t as [s g]. simpl. revert s g.
  induction p as [a|B e k IH]; simpl; intros s g Hp; [auto|].
  destruct Hp as [He Hk]. intros [Hok Hstep]. specialize (Hok _ eq_refl).
  assert (Hgo : ∀ b s' g', sem_step alone e s b s' → rel g g' →
    wp ghost_sem (k b) (λ a t', Q a t'.1 ∧ rel g t'.2) (s', g')).
  { intros b s' g' Hs Hr. eapply wp_mono; [apply IH; [done|by apply Hstep]|].
    intros a t' [HQ Hr']. split; [done|]. by eapply Htrans. }
  destruct e as [i|i o n|i|i w|B q]; (split; [try done; try apply He|]); intros b [s' g'].
  5: { intros [Es Hg]. simpl in Es, Hg. subst s'. apply Hgo; [by exists s|]. by eapply He. }
  all: intros [E Eg]; simpl in E, Eg; subst g'; apply Hgo; [by exists s|apply Hrefl].
Qed.

Lemma wp_ghost_call {A} (e : kev (ans A)) (Q : res A → _ → Prop) t :
  gok _ e t.2 →
  (∀ a g', gstep _ e t.2 (inl a) g' → Q (Ok a) (t.1, g')) →
  (∀ er g', gstep _ e t.2 (inr er) g' → Q (Err er) (t.1, g')) →
  wp ghost_sem (call e) Q t.
Proof.
  intros Hok Ha He. apply wp_call; [done| |]; intros x [s g'] [Es Hg]; simpl in Es, Hg; subst s; auto.
Qed.
Lemma wp_ghost_kern {B} (e : kev B) (Q : B → _ → Prop) t :
  gok _ e t.2 → (∀ b g', gstep _ e t.2 b g' → Q b (t.1, g')) → wp ghost_sem (kern e) Q t.
Proof. intros Hok HQ. split; [done|]. intros b [s g'] [Es Hg]. simpl in Es, Hg. subst s. by apply HQ. Qed.

Lemma wp_ghost_load i x (Q : Z → _ → Prop) t :
  slot_at t.1 i = Some x → Q (si_InnerIp x) t → wp ghost_sem (trigger (ELoadIP i)) Q t.
Proof.
  intros Hx HQ. destruct t as [s g]. simpl in Hx. split; simpl; rewrite Hx; [eauto|].
  intros b [s' g'] [E Eg]. simpl in *. by simplify_eq.
Qed.
Lemma wp_ghost_load_slot i x (Q : SlotItem → _ → Prop) t :
  slot_at t.1 i = Some x → Q x t → wp ghost_sem (trigger (ELoadSlot i)) Q t.
Proof.
  intros Hx HQ. destruct t as [s g]. simpl in Hx. split; simpl; rewrite Hx; [eauto|].
  intros b [s' g'] [E Eg]. simpl in *. by simplify_eq.
Qed.

(** Forgetting a ghost state that can always move. *)
Lemma wp_ghost_alone {A} (p : prog A) (Q : A → list SlotItem → Prop) t :
  (∀ B (q : kev B) g b, ∃ g', gstep _ q g b g') → wp ghost_sem p (λ a t', Q a t'.1) t → wp alone p Q t.1.
Proof.
  intros Htot. destruct t as [s g]. simpl. revert s g. induction p as [a|B e k IH]; intros s g; [done|].
  intros [Hok Hk]. destruct e as [i|i o n|i|i w|B q].
  5: { split; [done|]. intros b s' (s1 & <- & ->). destruct (Htot _ q g b) as [g' Hg].
       apply (IH _ _ g'), Hk. by split. }
  all: (split; [by intros s' <-|]); intros b s' (s1 & <- & E); apply (IH _ _ g), Hk; by split.
Qed.
End ghost.
