(* ===== verification/SlotTable.v ===== *)
(** * The memory-mapped slot table: pkg/internal/bpfmap

    [numSlots] is the bound kept in [MmappedSlots]; a pointer into the mapping
    is the slot's index.  [cas.go], [slots.go] and [stats.go] are translated
    operation by operation, each atomic access being one event.  The abstract
    view of a slot is its ownership state, and the specification of an
    operation is what it does to that state and to the slot's fields. *)
From S2P Require Import Prelude Errors GoStrings GoNet BpfTypes Prog.

(** ** Slot states (cas.go) *)
Definition IsSlotFreeOrReserved (innerIP : Z) : bool :=
  (innerIP =? InnerIPFree) || (innerIP =? InnerIPReserved).
Definition IsSlotAllocated (innerIP : Z) : bool := negb (IsSlotFreeOrReserved innerIP).

(** ** Access (slots.go) *)
Definition getInnerIPPtr (numSlots slotID : Z) : option Z :=
  if numSlots <=? slotID then None else Some slotID.
Definition GetSlot (numSlots slotID : Z) : option Z :=
  if numSlots <=? slotID then None else Some slotID.

Definition UpdateSlotFields (numSlots slotID : Z) (update : Z → prog unit) : prog unit :=
  match GetSlot numSlots slotID with
  | None => Ret tt
  | Some slot => update slot
  end.

(** The same for an update that can panic. *)
Definition UpdateSlotFieldsM (numSlots slotID : Z) (update : Z → M unit) : M unit :=
  match GetSlot numSlots slotID with
  | None => mok tt
  | Some slot => update slot
  end.

(** A list of plain stores, in order. *)
Fixpoint stores (i : Z) (ws : list slot_write) : prog unit :=
  match ws with
  | [] => Ret tt
  | w :: ws => let~ _ := trigger (EStore i w) in stores i ws
  end.

Definition cas (i old new : Z) : prog bool := trigger (ECas i old new).

(** ** Compare-and-swap operations (cas.go) *)
Definition TryAllocate (numSlots slotID innerIP : Z) : prog bool :=
  match getInnerIPPtr numSlots slotID with
  | None => Ret false
  | Some ptr =>
      let~ ok := cas ptr InnerIPFree innerIP in
      if negb ok then Ret false
      else let~ _ := trigger (EStore ptr (WStatsReady 0)) in Ret true
  end.

Definition TryRelease (numSlots slotID currentIP : Z) : prog bool :=
  match getInnerIPPtr numSlots slotID with
  | None => Ret false
  | Some ptr => cas ptr currentIP 0
  end.

Definition TryReserve (numSlots slotID currentIP : Z) : prog bool :=
  if currentIP =? InnerIPReserved then Ret false
  else match getInnerIPPtr numSlots slotID with
       | None => Ret false
       | Some ptr => cas ptr currentIP InnerIPReserved
       end.

Definition TryUnreserve (numSlots slotID : Z) : prog bool :=
  match getInnerIPPtr numSlots slotID with
  | None => Ret false
  | Some ptr =>
      let~ ip := trigger (ELoadIP ptr) in
      if negb (ip =? InnerIPReserved) then Ret false
      else let~ _ := trigger (EStore ptr (WFlags 0)) in
           cas ptr InnerIPReserved InnerIPFree
  end.

Definition GetInnerIP (numSlots slotID : Z) : prog Z :=
  match getInnerIPPtr numSlots slotID with
  | None => Ret 0
  | Some ptr => trigger (ELoadIP ptr)
  end.

Definition TryUpdateInnerIP (numSlots slotID oldIP newIP : Z) : prog bool :=
  if negb (IsSlotAllocated oldIP) || negb (IsSlotAllocated newIP) then Ret false
  else match getInnerIPPtr numSlots slotID with
       | None => Ret false
       | Some ptr => cas ptr oldIP newIP
       end.

(** ** Scans and initialisation (slots.go)

    [n] is the number of slots left to visit: [for i := 0; i < numSlots; i++]. *)
Fixpoint FindFreeSlot_loop (n : nat) (numSlots i innerIP : Z) : M Z :=
  match n with
  | O => merr (errorf "no free slots available")
  | S n =>
      let~ ok := TryAllocate numSlots i innerIP in
      if ok then mok i else FindFreeSlot_loop n numSlots (i + 1) innerIP
  end.
Definition FindFreeSlot (numSlots innerIP : Z) : M Z :=
  FindFreeSlot_loop (Z.to_nat numSlots) numSlots 0 innerIP.

Fixpoint count_slots (P : Z → bool) (n : nat) (numSlots i count : Z) : prog Z :=
  match n with
  | O => Ret count
  | S n =>
      let~ ip := GetInnerIP numSlots i in
      count_slots P n numSlots (i + 1) (if P ip then count + 1 else count)
  end.
Definition CountAllocatedSlots (numSlots : Z) : prog Z :=
  count_slots IsSlotAllocated (Z.to_nat numSlots) numSlots 0 0.
Definition CountReservedSlots (numSlots : Z) : prog Z :=
  count_slots (Z.eqb InnerIPReserved) (Z.to_nat numSlots) numSlots 0 0.
Definition CountFreeSlots (numSlots : Z) : prog Z :=
  count_slots (Z.eqb InnerIPFree) (Z.to_nat numSlots) numSlots 0 0.

Definition InitSlotReserved (numSlots slotID : Z) : prog bool :=
  match getInnerIPPtr numSlots slotID with
  | None => Ret false
  | Some ptr =>
      let~ ok := cas ptr InnerIPFree InnerIPReserved in
      if negb ok then Ret false
      else
        let~ _ := UpdateSlotFields numSlots slotID (λ slot,
          stores slot [WIfindex 0; WTransitGatewayIp 0; WTransitGeneveVni 0;
                       WGeneveOptsLen 0; WTransitMac mac_zero]) in
        Ret true
  end.

(** ** The mapping itself *)
Definition InnerIPOffset : Z := 4.
Definition slot_size (valueSize : Z) : Z := Z.ldiff (u32 (valueSize + 7)) 7.
Definition map_size (maxEntries slotSize pageSize : Z) : Z :=
  (maxEntries * slotSize + pageSize - 1) / pageSize * pageSize.

Definition NewMmappedSlots (slotsMap numSlots : Z) : M Z :=
  let~ shape := kern (MapShape slotsMap) in
  let '(fd, valueSize, maxEntries) := shape in
  let slotSize := slot_size valueSize in
  let~ pageSize := kern Getpagesize in
  let mapSize := map_size maxEntries slotSize pageSize in
  let* _ := mwrap (λ e, errorw "failed to mmap slots map: " e "") (call (Mmap fd mapSize)) in
  mok numSlots.

Definition MmappedSlots_Close (mapped : bool) : M unit :=
  if mapped then mwrap (λ e, errorw "failed to munmap: " e "") (call Munmap) else mok tt.

(** ** Counters (stats.go) *)
Definition GetStats (numPorts slotID : Z) : M SlotStats :=
  if numPorts <=? slotID
  then merr (errorf ("stats slot " +:+ fmt_d slotID +:+ " out of range"))
  else mwrap (λ e, errorw ("failed to read stats for slot " +:+ fmt_d slotID +:+ ": ") e "")
             (call (MapLookup MStats slotID true)).

Definition MaxUint64 : Z := 18446744073709551615.

Definition ResetStats (numPorts slotID : Z) : M unit :=
  let* previous := GetStats numPorts slotID in
  if st_Generation previous =? MaxUint64
  then merr (errorf ("stats generation exhausted for slot " +:+ fmt_d slotID))
  else
    let zero := MkSlotStats (st_Generation previous + 1) 0 0 0 0 0 0 0 0 in
    mwrap (λ e, errorw ("failed to reset stats for slot " +:+ fmt_d slotID +:+ ": ") e "")
          (call (MapUpdate MStats slotID zero true)).

Lemma GetStats_kern_ret n i : kern_ret (GetStats n i).
Proof. unfold GetStats. kern_ret. Qed.
#[export] Hint Resolve GetStats_kern_ret : kern_ret.
Lemma ResetStats_kern_ret n i : kern_ret (ResetStats n i).
Proof. unfold ResetStats. kern_ret. Qed.
#[export] Hint Resolve ResetStats_kern_ret : kern_ret.

(** ** Abstract view: who owns a slot *)
Inductive slot_state := SFree | SReserved | SAllocated (ip : Z).
#[export] Instance slot_state_eq_dec : EqDecision slot_state.
Proof. solve_decision. Defined.

Definition state_of (innerIP : Z) : slot_state :=
  if innerIP =? InnerIPFree then SFree
  else if innerIP =? InnerIPReserved then SReserved else SAllocated innerIP.
Definition owner (s : list SlotItem) (i : Z) : option slot_state :=
  (λ x, state_of (si_InnerIp x)) <$> slot_at s i.

Lemma IsSlotAllocated_spec ip : IsSlotAllocated ip = true ↔ state_of ip = SAllocated ip.
Proof.
  unfold IsSlotAllocated, IsSlotFreeOrReserved, state_of.
  destruct (ip =? InnerIPFree), (ip =? InnerIPReserved); simpl; naive_solver.
Qed.

(** *** Projections of updated slots *)
Lemma InnerIp_set v x : si_InnerIp (set_InnerIp v x) = v.
Proof. by destruct x. Qed.
Lemma InnerIp_write w x : si_InnerIp (write_slot w x) = si_InnerIp x.
Proof. by destruct w, x. Qed.
#[export] Hint Rewrite InnerIp_set InnerIp_write : gosimp.

Definition write_all (ws : list slot_write) (x : SlotItem) : SlotItem :=
  fold_left (λ x w, write_slot w x) ws x.
Lemma InnerIp_write_all ws x : si_InnerIp (write_all ws x) = si_InnerIp x.
Proof.
  revert x. induction ws as [|w ws IH]; intros x; [done|]. simpl. unfold write_all in IH.
  by rewrite IH, InnerIp_write.
Qed.
#[export] Hint Rewrite InnerIp_write_all : gosimp.

(** *** Rules for a sequential run *)
Lemma wp_load_alone i x Q s :
  slot_at s i = Some x → Q (si_InnerIp x) s → wp alone (trigger (ELoadIP i)) Q s.
Proof. intros Hx HQ. apply wp_load. intros s' <-. eauto. Qed.
Lemma wp_load_slot_alone i x Q s :
  slot_at s i = Some x → Q x s → wp alone (trigger (ELoadSlot i)) Q s.
Proof. intros Hx HQ. apply wp_load_slot. intros s' <-. eauto. Qed.
Lemma wp_store_alone i w x (Q : unit → list SlotItem → Prop) s :
  slot_at s i = Some x → Q tt (set_slot s i (write_slot w x)) →
  wp alone (trigger (EStore i w)) Q s.
Proof. intros Hx HQ. apply wp_store. intros s' <-. eauto. Qed.
Lemma wp_cas_alone i old new x (Q : bool → list SlotItem → Prop) s :
  slot_at s i = Some x →
  (si_InnerIp x = old → Q true (set_slot s i (set_InnerIp new x))) →
  (si_InnerIp x ≠ old → Q false s) →
  wp alone (cas i old new) Q s.
Proof.
  intros Hx Ht Hf. apply wp_cas. intros s' <-. exists x. split; [done|].
  destruct (si_InnerIp x =? old) eqn:E; [apply Ht | apply Hf]; lia.
Qed.
Lemma wp_stores_alone i ws x (Q : unit → list SlotItem → Prop) s :
  slot_at s i = Some x → Q tt (set_slot s i (write_all ws x)) → wp alone (stores i ws) Q s.
Proof.
  revert x s. induction ws as [|w ws IH]; intros x s Hx HQ.
  - simpl in *. by rewrite set_slot_id in HQ.
  - cbn [stores]. apply wp_bind. eapply wp_store_alone; [done|].
    eapply IH; [by eapply slot_at_set|]. by rewrite set_slot_set.
Qed.

Lemma ptr_lt numSlots i : i < numSlots → getInnerIPPtr numSlots i = Some i.
Proof. unfold getInnerIPPtr. intros. by assert ((numSlots <=? i) = false) as -> by lia. Qed.
Lemma GetSlot_lt numSlots i : i < numSlots → GetSlot numSlots i = Some i.
Proof. apply ptr_lt. Qed.

Lemma wp_GetInnerIP n i x Q s :
  i < n → slot_at s i = Some x → Q (si_InnerIp x) s → wp alone (GetInnerIP n i) Q s.
Proof. intros. unfold GetInnerIP. rewrite ptr_lt by done. by eapply wp_load_alone. Qed.

Lemma wp_UpdateSlotFields n i ws x (Q : unit → list SlotItem → Prop) s :
  i < n → slot_at s i = Some x → Q tt (set_slot s i (write_all ws x)) →
  wp alone (UpdateSlotFields n i (λ slot, stores slot ws)) Q s.
Proof.
  intros. unfold UpdateSlotFields. rewrite GetSlot_lt by done. by eapply wp_stores_alone.
Qed.

Lemma wp_TryAllocate n i ip x (Q : bool → list SlotItem → Prop) s :
  i < n → slot_at s i = Some x →
  (si_InnerIp x = InnerIPFree → Q true (set_slot s i (write_slot (WStatsReady 0) (set_InnerIp ip x)))) →
  (si_InnerIp x ≠ InnerIPFree → Q false s) →
  wp alone (TryAllocate n i ip) Q s.
Proof.
  intros Hi Hx Ht Hf. unfold TryAllocate. rewrite ptr_lt by done. apply wp_bind.
  eapply wp_cas_alone; [done| |done]. intros Hfree. cbn [negb]. apply wp_bind.
  eapply wp_store_alone; [by eapply slot_at_set|]. rewrite set_slot_set. by apply Ht.
Qed.

Lemma wp_TryRelease n i ip x (Q : bool → list SlotItem → Prop) s :
  i < n → slot_at s i = Some x →
  (si_InnerIp x = ip → Q true (set_slot s i (set_InnerIp InnerIPFree x))) →
  (si_InnerIp x ≠ ip → Q false s) →
  wp alone (TryRelease n i ip) Q s.
Proof. intros. unfold TryRelease. rewrite ptr_lt by done. by eapply wp_cas_alone. Qed.

Lemma wp_TryReserve n i ip x (Q : bool → list SlotItem → Prop) s :
  i < n → slot_at s i = Some x → ip ≠ InnerIPReserved →
  (si_InnerIp x = ip → Q true (set_slot s i (set_InnerIp InnerIPReserved x))) →
  (si_InnerIp x ≠ ip → Q false s) →
  wp alone (TryReserve n i ip) Q s.
Proof.
  intros ? ? Hne ? ?. unfold TryReserve. rewrite (proj2 (Z.eqb_neq _ _) Hne), ptr_lt by done.
  by eapply wp_cas_alone.
Qed.

Lemma wp_TryUnreserve n i x (Q : bool → list SlotItem → Prop) s :
  i < n → slot_at s i = Some x →
  (si_InnerIp x = InnerIPReserved →
     Q true (set_slot s i (set_InnerIp InnerIPFree (write_slot (WFlags 0) x)))) →
  (si_InnerIp x ≠ InnerIPReserved → Q false s) →
  wp alone (TryUnreserve n i) Q s.
Proof.
  intros Hi Hx Ht Hf. unfold TryUnreserve. rewrite ptr_lt by done. apply wp_bind.
  eapply wp_load_alone; [done|]. destruct (si_InnerIp x =? InnerIPReserved) eqn:E; cbn [negb].
  - apply wp_bind. eapply wp_store_alone; [done|].
    eapply wp_cas_alone; [by eapply slot_at_set|intros _|].
    + rewrite set_slot_set. apply Ht. lia.
    + rewrite InnerIp_write. lia.
  - apply Hf. lia.
Qed.

Lemma wp_TryUpdateInnerIP n i old new x (Q : bool → list SlotItem → Prop) s :
  i < n → slot_at s i = Some x →
  (IsSlotAllocated old = true → IsSlotAllocated new = true → si_InnerIp x = old →
     Q true (set_slot s i (set_InnerIp new x))) →
  (¬ (IsSlotAllocated old = true ∧ IsSlotAllocated new = true ∧ si_InnerIp x = old) → Q false s) →
  wp alone (TryUpdateInnerIP n i old new) Q s.
Proof.
  intros Hi Hx Ht Hf. unfold TryUpdateInnerIP.
  destruct (IsSlotAllocated old), (IsSlotAllocated new); cbn [negb orb];
    try (apply Hf; naive_solver).
  rewrite ptr_lt by done. eapply wp_cas_alone; naive_solver.
Qed.

(** ** Scans *)
Definition free_at (s : list SlotItem) (j : Z) : Prop := owner s j = Some SFree.

Lemma free_at_ip s j x : slot_at s j = Some x → (free_at s j ↔ si_InnerIp x = InnerIPFree).
Proof.
  intros Hx. unfold free_at, owner, state_of. rewrite Hx. simpl.
  destruct (si_InnerIp x =? InnerIPFree) eqn:E; [split; intros; [lia|done]|].
  destruct (si_InnerIp x =? InnerIPReserved); split; intros; first [done | lia].
Qed.

Lemma wp_FindFreeSlot_loop k n ip s (Q : res Z → list SlotItem → Prop) : ∀ i,
  0 ≤ i → i + Z.of_nat k = n → n ≤ Z.of_nat (length s) →
  (∀ j, 0 ≤ j < i → ¬ free_at s j) →
  (∀ j x, 0 ≤ j < n → slot_at s j = Some x → free_at s j →
     (∀ j', 0 ≤ j' < j → ¬ free_at s j') →
     Q (Ok j) (set_slot s j (write_slot (WStatsReady 0) (set_InnerIp ip x)))) →
  ((∀ j, 0 ≤ j < n → ¬ free_at s j) → Q (Err (errorf "no free slots available")) s) →
  wp alone (FindFreeSlot_loop k n i ip) Q s.
Proof.
  induction k as [|k IH]; intros i Hi Hk Hn Hbefore Hok Herr; cbn [FindFreeSlot_loop].
  - apply Herr. intros j Hj. apply Hbefore. lia.
  - destruct (slot_at_in s i) as [x Hx]; [unfold in_slots; lia|].
    apply wp_bind. eapply wp_TryAllocate; [lia|done| |].
    + intros Hfree. apply (Hok i x); [lia|done|by eapply free_at_ip|done].
    + intros Hbusy. apply IH; [lia..| |done|done].
      intros j Hj. destruct (decide (j = i)) as [->|]; [|apply Hbefore; lia].
      by rewrite (free_at_ip s i x Hx).
Qed.

Lemma wp_FindFreeSlot n ip s (Q : res Z → list SlotItem → Prop) :
  0 ≤ n ≤ Z.of_nat (length s) →
  (∀ j x, 0 ≤ j < n → slot_at s j = Some x → free_at s j →
     (∀ j', 0 ≤ j' < j → ¬ free_at s j') →
     Q (Ok j) (set_slot s j (write_slot (WStatsReady 0) (set_InnerIp ip x)))) →
  ((∀ j, 0 ≤ j < n → ¬ free_at s j) → Q (Err (errorf "no free slots available")) s) →
  wp alone (FindFreeSlot n ip) Q s.
Proof. intros Hn Hok Herr. apply wp_FindFreeSlot_loop; auto; lia. Qed.

(** The number of slots among the first [n] whose address satisfies [P]. *)
Definition ip_count (P : Z → bool) (n : Z) (s : list SlotItem) : Z :=
  Z.of_nat (length (filter (λ x, P (si_InnerIp x) = true) (take (Z.to_nat n) s))).

Lemma wp_count_slots P k n s (Q : Z → list SlotItem → Prop) : ∀ i c,
  0 ≤ i → i + Z.of_nat k = n → n ≤ Z.of_nat (length s) → c = ip_count P i s →
  Q (ip_count P n s) s → wp alone (count_slots P k n i c) Q s.
Proof.
  induction k as [|k IH]; intros i c Hi Hk Hn -> HQ; cbn [count_slots].
  - replace i with n by lia. done.
  - destruct (slot_at_in s i) as [x Hx]; [unfold in_slots; lia|].
    apply wp_bind. eapply wp_GetInnerIP; [lia|done|]. apply IH; [lia..| |done].
    unfold slot_at in Hx. destruct (i <? 0) eqn:?; [done|]. unfold ip_count.
    replace (Z.to_nat (i + 1)) with (S (Z.to_nat i)) by lia.
    rewrite (take_S_r _ _ x), filter_app, length_app by done.
    rewrite filter_cons, filter_nil. destruct (decide _) as [->|Hf]; simpl; [lia|].
    destruct (P (si_InnerIp x)); [done|]. lia.
Qed.

Lemma ip_count_split n s :
  0 ≤ n ≤ Z.of_nat (length s) →
  ip_count IsSlotAllocated n s + ip_count (Z.eqb InnerIPReserved) n s
    + ip_count (Z.eqb InnerIPFree) n s = n.
Proof.
  intros Hn. unfold ip_count.
  assert (length (take (Z.to_nat n) s) = Z.to_nat n) as Hl by (rewrite length_take; lia).
  assert (∀ (l : list SlotItem),
    (length (filter (λ x, IsSlotAllocated (si_InnerIp x) = true) l)
     + length (filter (λ x, Z.eqb InnerIPReserved (si_InnerIp x) = true) l)
     + length (filter (λ x, Z.eqb InnerIPFree (si_InnerIp x) = true) l) = length l)%nat) as H.
  { induction l as [|x l IH]; [done|]. rewrite !filter_cons.
    assert (IsSlotAllocated (si_InnerIp x) =
      negb ((InnerIPFree =? si_InnerIp x) || (InnerIPReserved =? si_InnerIp x))) as ->
      by (unfold IsSlotAllocated, IsSlotFreeOrReserved; by rewrite !(Z.eqb_sym (si_InnerIp x))).
    destruct (InnerIPFree =? si_InnerIp x) eqn:E1, (InnerIPReserved =? si_InnerIp x) eqn:E2;
      repeat case_decide; try discriminate; cbn [negb orb length] in *; try congruence; try lia.
    all: unfold InnerIPFree, InnerIPReserved in *; lia. }
  specialize (H (take (Z.to_nat n) s)). lia.
Qed.

(** The three counters partition the table: on every table,
    [CountAllocatedSlots], [CountReservedSlots] and [CountFreeSlots] return
    without touching it, and their answers add up to the number of slots. *)
Lemma counts_partition n s :
  0 ≤ n ≤ Z.of_nat (length s) →
  wp alone (let~ a := CountAllocatedSlots n in
            let~ r := CountReservedSlots n in
            let~ f := CountFreeSlots n in Ret (a, r, f))
     (λ '(a, r, f) s', s' = s ∧ a + r + f = n ∧ a = ip_count IsSlotAllocated n s) s.
Proof.
  intros Hn. unfold CountAllocatedSlots, CountReservedSlots, CountFreeSlots.
  do 3 (apply wp_bind; apply wp_count_slots; [lia..|by unfold ip_count|]).
  simpl. pose proof (ip_count_split n s Hn). auto.
Qed.

Definition slot_with_ip (ip : Z) : SlotItem := set_InnerIp ip SlotItem_zero.
Definition ex_table : list SlotItem :=
  map slot_with_ip [InnerIPReserved; 167772161; InnerIPFree; InnerIPFree].

Lemma counts_partition_witness :
  wp alone (let~ a := CountAllocatedSlots 4 in
            let~ r := CountReservedSlots 4 in
            let~ f := CountFreeSlots 4 in Ret (a, r, f))
     (λ '(a, r, f) s', s' = ex_table ∧ a + r + f = 4 ∧ a = ip_count IsSlotAllocated 4 ex_table) ex_table.
Proof. apply (counts_partition 4 ex_table). simpl. lia. Defined.

(** [FindFreeSlot] takes the lowest free slot and only that one: it returns
    the first index whose slot is Free, with that slot now holding the caller's
    address and its counters marked not ready and every other slot unchanged;
    when no slot is Free it fails and the table is as it was. *)
Lemma FindFreeSlot_first_free n ip s :
  0 ≤ n ≤ Z.of_nat (length s) →
  wp alone (FindFreeSlot n ip) (λ r s',
    match r with
    | Ok j => free_at s j ∧ 0 ≤ j < n ∧ (∀ j', 0 ≤ j' < j → ¬ free_at s j') ∧
        (∃ x, slot_at s j = Some x ∧
              slot_at s' j = Some (write_slot (WStatsReady 0) (set_InnerIp ip x))) ∧
        (∀ k, k ≠ j → slot_at s' k = slot_at s k)
    | Err _ => (∀ j, 0 ≤ j < n → ¬ free_at s j) ∧ s' = s
    | _ => False
    end) s.
Proof.
  intros Hn. apply wp_FindFreeSlot; [done| |by auto].
  intros j x Hj Hx Hfree Hfirst. split_and!; auto; try lia.
  - exists x. split; [done|]. by eapply slot_at_set.
  - intros k Hk. apply slot_at_set_ne; lia.
Qed.

Lemma FindFreeSlot_first_free_witness :
  wp alone (FindFreeSlot 4 167772162) (λ r s',
    match r with
    | Ok j => free_at ex_table j ∧ 0 ≤ j < 4 ∧ (∀ j', 0 ≤ j' < j → ¬ free_at ex_table j') ∧
        (∃ x, slot_at ex_table j = Some x ∧
              slot_at s' j = Some (write_slot (WStatsReady 0) (set_InnerIp 167772162 x))) ∧
        (∀ k, k ≠ j → slot_at s' k = slot_at ex_table k)
    | Err _ => (∀ j, 0 ≤ j < 4 → ¬ free_at ex_table j) ∧ s' = ex_table
    | _ => False
    end) ex_table.
Proof. apply (FindFreeSlot_first_free 4 167772162 ex_table). simpl. lia. Defined.

(** Pointer arithmetic of the mapping: with at most [maxEntries] slots and
    any page size of at least 8, the whole of every slot
    and its [InnerIP] word lie inside the mapped region, at an offset that is
    a multiple of 8 (so the atomic word is aligned), and distinct slots do not
    overlap. *)
Lemma mapping_bounds valueSize maxEntries pageSize numSlots i j :
  0 < valueSize < 2 ^ 16 → 0 ≤ numSlots ≤ maxEntries → 8 ≤ pageSize →
  getInnerIPPtr numSlots i = Some i → 0 ≤ i → 0 ≤ j < numSlots → i < j →
  let size := slot_size valueSize in
  i * size + valueSize ≤ map_size maxEntries size pageSize ∧
  (i * size) mod 8 = 0 ∧ valueSize ≤ size ∧ i * size + valueSize ≤ j * size.
Proof.
  intros Hv Hn Hp Hptr Hi Hj Hij size.
  assert (Hsz : size = (valueSize + 7) / 8 * 8).
  { unfold size, slot_size. rewrite u32_small by (unfold is_u32; lia).
    change 7 with (Z.ones 3) at 2. rewrite Z.ldiff_ones_r, Z.shiftl_mul_pow2, Z.shiftr_div_pow2 by lia.
    done. }
  pose proof (Z.div_mod (valueSize + 7) 8). pose proof (Z.mod_pos_bound (valueSize + 7) 8).
  assert (valueSize ≤ size) by lia.
  assert (maxEntries * size ≤ map_size maxEntries size pageSize).
  { unfold map_size. pose proof (Z.div_mod (maxEntries * size + pageSize - 1) pageSize).
    pose proof (Z.mod_pos_bound (maxEntries * size + pageSize - 1) pageSize). lia. }
  split; [nia|]. split; [|nia].
  rewrite Hsz, Z.mul_assoc. apply Z.mod_mul. lia.
Qed.

Lemma mapping_bounds_witness :
  let size := slot_size 108 in
  2 * size + 108 ≤ map_size 4096 size 4096 ∧ (2 * size) mod 8 = 0 ∧ 108 ≤ size ∧
  2 * size + 108 ≤ 3 * size.
Proof. apply (mapping_bounds 108 4096 4096 4 2 3); first [lia | reflexivity]. Defined.
