(* ===== verification/Interleave.v ===== *)
(** * Concurrent operations on one slot table

    Processes share the mapped table; their accesses interleave event by
    event, kernel answers being arbitrary.  A monitor follows what a process
    has claimed; if every process keeps to the monitor when run by itself, then
    in every interleaving claimed slots are disjoint, keep the address that
    was claimed, and slots nobody claims keep the address they had. *)
From S2P Require Import Prelude Errors GoStrings GoNet BpfTypes Prog SlotTable.

(** ** Interleaving semantics *)
Inductive pool_step {A} : list (prog A) * list SlotItem → list (prog A) * list SlotItem → Prop :=
  | pool_mem ps s i B (e : ev B) k b s' :
      ps !! i = Some (Vis e k) → mem_step e s = Some (b, s') →
      pool_step (ps, s) (<[i := k b]> ps, s')
  | pool_kern ps s i B (e : kev B) k b :
      ps !! i = Some (Vis (EKern e) k) →
      pool_step (ps, s) (<[i := k b]> ps, s).

(** ** The claim monitor

    [None]: the process owns nothing; [Some (i, ip)]: it owns slot [i], which
    holds [ip].  It may claim a free slot when it owns none, give back or keep
    the one it owns, and store only there.  A process that gives back what it
    owns cannot fail: nobody else changes that slot. *)
Definition claim := option (Z * Z).
Definition claim_ok {B} (e : ev B) (h : claim) : Prop :=
  match e with
  | ECas i old new =>
      match h with
      | None => 0 ≤ i ∧ old = InnerIPFree ∧ new ≠ InnerIPFree
      | Some (j, ip) => i = j ∧ old = ip ∧ new = InnerIPFree
      end
  | EStore i _ => match h with Some (j, _) => i = j | None => False end
  | _ => True
  end.
Definition claim_step {B} (e : ev B) (h : claim) (b : B) (h' : claim) : Prop :=
  match e in ev B return B → Prop with
  | ECas i old new => λ b,
      match h with
      | None => h' = if b then Some (i, new) else None
      | Some _ => b = true ∧ h' = None
      end
  | ELoadIP i => λ ip, h' = h ∧ match h with Some (j, ip') => i = j → ip = ip' | None => True end
  | _ => λ _, h' = h
  end b.
Definition claim_sem : sem claim := MkSem (@claim_ok) (@claim_step).

(** ** The invariant of a pool *)
Definition initial_ip (s0 : list SlotItem) (i : Z) : option Z := si_InnerIp <$> slot_at s0 i.
Record pool_inv {A} (Q : A → claim → Prop) (s0 : list SlotItem)
    (ps : list (prog A)) (hs : list claim) (s : list SlotItem) : Prop := {
  pi_len : length hs = length ps;
  pi_wp : ∀ p k h, ps !! p = Some k → hs !! p = Some h → wp claim_sem k Q h;
  pi_held : ∀ p i ip, hs !! p = Some (Some (i, ip)) →
    0 ≤ i ∧ ip ≠ InnerIPFree ∧ initial_ip s i = Some ip ∧ initial_ip s0 i = Some InnerIPFree;
  pi_disj : ∀ p q i ip ip', hs !! p = Some (Some (i, ip)) → hs !! q = Some (Some (i, ip')) → p = q;
  pi_rest : ∀ i, (∀ p ip, hs !! p ≠ Some (Some (i, ip))) → initial_ip s i = initial_ip s0 i;
}.
Arguments pi_len {A Q s0 ps hs s}.
Arguments pi_wp {A Q s0 ps hs s}.
Arguments pi_held {A Q s0 ps hs s}.
Arguments pi_disj {A Q s0 ps hs s}.
Arguments pi_rest {A Q s0 ps hs s}.

Lemma initial_ip_set s i x y j :
  slot_at s i = Some y →
  initial_ip (set_slot s i x) j = if decide (i = j) then Some (si_InnerIp x) else initial_ip s j.
Proof.
  intros Hy. pose proof (slot_at_range _ _ _ Hy) as [? _]. unfold initial_ip. case_decide as Hij.
  - subst. by rewrite (slot_at_set _ _ _ _ Hy).
  - by rewrite slot_at_set_ne.
Qed.

(** A step that neither changes an address nor the claims. *)
Lemma pool_inv_quiet {A} (Q : A → claim → Prop) s0 ps hs s p k s' :
  pool_inv Q s0 ps hs s → is_Some (ps !! p) →
  (∀ h, hs !! p = Some h → wp claim_sem k Q h) →
  (∀ i, initial_ip s' i = initial_ip s i) →
  pool_inv Q s0 (<[p := k]> ps) hs s'.
Proof.
  intros [Hl Hw Hh Hd Hr] [x Hp] Hk Hs. split.
  - by rewrite length_insert.
  - intros q k' h [(<- & -> & _)|(? & ?)]%list_lookup_insert_Some Hq; [by apply Hk|by eapply Hw].
  - intros q i ip Hq. rewrite Hs. by eapply Hh.
  - done.
  - intros i Hi. rewrite Hs. by apply Hr.
Qed.

(** A claim: the slot was free, so nobody owns it. *)
Lemma pool_inv_claim {A} (Q : A → claim → Prop) s0 ps hs s p k i x new :
  pool_inv Q s0 ps hs s → is_Some (ps !! p) → hs !! p = Some None →
  slot_at s i = Some x → si_InnerIp x = InnerIPFree → new ≠ InnerIPFree → 0 ≤ i →
  wp claim_sem k Q (Some (i, new)) →
  pool_inv Q s0 (<[p := k]> ps) (<[p := Some (i, new)]> hs) (set_slot s i (set_InnerIp new x)).
Proof.
  intros [Hl Hw Hh Hd Hr] [y Hp] Hn Hx Hfree Hnew Hi Hk.
  assert (Hnobody : ∀ q ip, hs !! q ≠ Some (Some (i, ip))).
  { intros q ip Hq. destruct (Hh q i ip Hq) as (_ & Hne & Hip & _). unfold initial_ip in Hip.
    rewrite Hx in Hip. simpl in Hip. congruence. }
  assert (Hset := initial_ip_set s i (set_InnerIp new x) x). split.
  - by rewrite !length_insert.
  - intros q k' h [(<- & -> & _)|(Hne & ?)]%list_lookup_insert_Some Hq.
    + rewrite list_lookup_insert_eq in Hq by (apply lookup_lt_Some in Hn; done). by simplify_eq.
    + rewrite list_lookup_insert_ne in Hq by done. by eapply Hw.
  - intros q j ip [(<- & [= -> ->] & _)|(Hne & Hq)]%list_lookup_insert_Some; rewrite Hset by done; case_decide as Hj.
    + rewrite InnerIp_set. split_and!; try done. rewrite <-Hr by done. unfold initial_ip. rewrite Hx. simpl. congruence.
    + done.
    + subst. by destruct (Hnobody q ip).
    + by eapply Hh.
  - intros q r j ip ip' [(<- & [= -> ->] & _)|(Hne & Hq)]%list_lookup_insert_Some
      [(<- & [= ] & _)|(Hne' & Hq')]%list_lookup_insert_Some; subst; try done.
    + by destruct (Hnobody r ip').
    + by destruct (Hnobody q ip).
    + by eapply Hd.
  - intros j Hj. rewrite Hset by done. case_decide as Hij.
    + subst. destruct (Hj p new). apply list_lookup_insert_eq. by apply lookup_lt_Some in Hn.
    + apply Hr. intros q ip Hq. destruct (decide (q = p)) as [->|]; [congruence|].
      apply (Hj q ip). by rewrite list_lookup_insert_ne.
Qed.

(** A release: the slot becomes free, as it was at the start. *)
Lemma pool_inv_release {A} (Q : A → claim → Prop) s0 ps hs s p k i x ip :
  pool_inv Q s0 ps hs s → is_Some (ps !! p) → hs !! p = Some (Some (i, ip)) →
  slot_at s i = Some x → wp claim_sem k Q None →
  pool_inv Q s0 (<[p := k]> ps) (<[p := None]> hs) (set_slot s i (set_InnerIp InnerIPFree x)).
Proof.
  intros [Hl Hw Hh Hd Hr] [y Hp] Hn Hx Hk. destruct (Hh p i ip Hn) as (Hi & _ & _ & Hinit).
  assert (Hset := initial_ip_set s i (set_InnerIp InnerIPFree x) x). split.
  - by rewrite !length_insert.
  - intros q k' h [(<- & -> & _)|(Hne & ?)]%list_lookup_insert_Some Hq.
    + rewrite list_lookup_insert_eq in Hq by (apply lookup_lt_Some in Hn; done). by simplify_eq.
    + rewrite list_lookup_insert_ne in Hq by done. by eapply Hw.
  - intros q j ip' [(? & [=] & _)|(Hne & Hq)]%list_lookup_insert_Some. rewrite Hset by done. case_decide as Hj.
    + subst. destruct Hne. by eapply Hd.
    + by eapply Hh.
  - intros q r j ip1 ip2 [(? & [=] & _)|(? & Hq)]%list_lookup_insert_Some
      [(? & [=] & _)|(? & Hq')]%list_lookup_insert_Some. by eapply Hd.
  - intros j Hj. rewrite Hset by done. case_decide as Hij; [subst; by rewrite InnerIp_set|].
    apply Hr. intros q ip' Hq. destruct (decide (q = p)) as [->|]; [congruence|].
    apply (Hj q ip'). by rewrite list_lookup_insert_ne.
Qed.

Lemma initial_ip_write s i w x j :
  slot_at s i = Some x → initial_ip (set_slot s i (write_slot w x)) j = initial_ip s j.
Proof.
  intros Hx. rewrite (initial_ip_set _ _ _ x) by done. case_decide; [|done]. subst.
  rewrite InnerIp_write. unfold initial_ip. by rewrite Hx.
Qed.

(** Every step of a monitored pool keeps the invariant. *)
Lemma pool_inv_step {A} (Q : A → claim → Prop) s0 ps hs s ps' s' :
  pool_inv Q s0 ps hs s → pool_step (ps, s) (ps', s') → ∃ hs', pool_inv Q s0 ps' hs' s'.
Proof.
  intros HI Hstep. pose proof HI as [Hl Hw Hh Hd Hr].
  assert (Hmon : ∀ p k, ps !! p = Some k → ∃ h, hs !! p = Some h).
  { intros p k Hp. apply lookup_lt_is_Some. apply lookup_lt_Some in Hp. lia. }
  inversion Hstep as [? ? p B e k b ? Hp Hmem|? ? p B e k b Hp]; subst; clear Hstep;
    destruct (Hmon _ _ Hp) as [h Hhp]; destruct (Hw _ _ _ Hp Hhp) as [Hok Hnext].
  - destruct e as [i|i old new|i|i w|? q]; simpl in Hmem; try done;
      destruct (slot_at s i) as [x|] eqn:Hx; try done.
    + simplify_eq. exists hs. eapply pool_inv_quiet; [done|by eexists| |done].
      intros h' Hh'. assert (h' = h) as -> by congruence. apply Hnext. simpl. split; [done|].
      destruct h as [[j ip]|]; [|done]. intros <-. destruct (Hh _ _ _ Hhp) as (_ & _ & Hip & _).
      unfold initial_ip in Hip. rewrite Hx in Hip. simpl in Hip. congruence.
    + destruct h as [[j ip]|].
      * destruct Hok as (-> & -> & ->). destruct (Hh _ _ _ Hhp) as (_ & _ & Hip & _).
        unfold initial_ip in Hip. rewrite Hx in Hip. simpl in Hip. injection Hip as Hip.
        rewrite Hip, Z.eqb_refl in Hmem. simplify_eq.
        exists (<[p := None]> hs). eapply pool_inv_release; [done|by eexists|done|done|]. by apply Hnext.
      * destruct Hok as (Hi & -> & Hnew). destruct (si_InnerIp x =? InnerIPFree) eqn:Efree; simplify_eq.
        -- exists (<[p := Some (i, new)]> hs). apply Z.eqb_eq in Efree.
           eapply pool_inv_claim; [done|by eexists|done..|]. by apply Hnext.
        -- exists hs. eapply pool_inv_quiet; [done|by eexists| |done].
           intros h' Hh'. assert (h' = None) as -> by congruence. by apply Hnext.
    + simplify_eq. exists hs. eapply pool_inv_quiet; [done|by eexists| |done].
      intros h' Hh'. assert (h' = h) as -> by congruence. by apply Hnext.
    + simplify_eq. exists hs. eapply pool_inv_quiet; [done|by eexists| |by intros; apply initial_ip_write].
      intros h' Hh'. assert (h' = h) as -> by congruence. by apply Hnext.
  - exists hs. eapply pool_inv_quiet; [done|by eexists| |done].
    intros h' Hh'. assert (h' = h) as -> by congruence. by apply Hnext.
Qed.

(** The invariant of the initial pool: nobody owns anything. *)
Lemma pool_inv_init {A} (Q : A → claim → Prop) ps s :
  (∀ p k, ps !! p = Some k → wp claim_sem k Q None) → pool_inv Q s ps (replicate (length ps) None) s.
Proof.
  intros Hk. split.
  - apply length_replicate.
  - intros p k h Hp [-> _]%lookup_replicate. by eapply Hk.
  - by intros p i ip [? _]%lookup_replicate.
  - by intros p q i ip ip' [? _]%lookup_replicate.
  - done.
Qed.

Lemma pool_inv_reach {A} (Q : A → claim → Prop) ps s ps' s' :
  (∀ p k, ps !! p = Some k → wp claim_sem k Q None) → rtc pool_step (ps, s) (ps', s') →
  ∃ hs, pool_inv Q s ps' hs s'.
Proof.
  intros Hk Hsteps.
  assert (∀ c c', rtc pool_step c c' → (∃ hs, pool_inv Q s c.1 hs c.2) → ∃ hs, pool_inv Q s c'.1 hs c'.2) as H.
  { induction 1 as [|c [ps1 s1] c' Hs _ IH]; [done|]. intros [hs HI]. apply IH.
    destruct c as [ps2 s2]. by eapply pool_inv_step. }
  apply (H _ _ Hsteps). eexists. by apply pool_inv_init.
Qed.

(** ** An executable scheduler

    [pool_run] lets the processes of [sched] make one step each, in that order,
    over one kernel; a turn given to a process that has returned is skipped. *)
Definition prog_step {K} `{Kernel K} {A} (p : prog A) (w : world K) : option (prog A * world K) :=
  match p with
  | Ret _ => None
  | Vis e k =>
      match e in ev B return (B → prog A) → option (prog A * world K) with
      | EKern q => λ k, let '(b, kn) := kernel_step q (w_kern w) in Some (k b, MkWorld (w_slots w) kn)
      | e => λ k, match mem_step e (w_slots w) with
                  | Some (b, s) => Some (k b, MkWorld s (w_kern w))
                  | None => None
                  end
      end k
  end.
Fixpoint pool_run {K} `{Kernel K} {A} (sched : list nat) (ps : list (prog A)) (w : world K)
    : list (prog A) * world K :=
  match sched with
  | [] => (ps, w)
  | i :: sched =>
      match ps !! i ≫= λ p, prog_step p w with
      | Some (p, w) => pool_run sched (<[i := p]> ps) w
      | None => pool_run sched ps w
      end
  end.

Lemma pool_run_sound {K} `{Kernel K} {A} sched (ps : list (prog A)) (w : world K) :
  rtc pool_step (ps, w_slots w) ((pool_run sched ps w).1, w_slots (pool_run sched ps w).2).
Proof.
  revert ps w. induction sched as [|i sched IH]; intros ps w; simpl; [done|].
  destruct (ps !! i) as [p|] eqn:Hp; simpl; [|apply IH].
  destruct (prog_step p w) as [[p' w']|] eqn:Hs; [|apply IH].
  eapply rtc_l; [|apply IH]. destruct p as [a|B e k]; [done|]. cbn [prog_step] in Hs.
  destruct e as [j|j old new|j|j wr|B q];
    try (destruct (mem_step _ _) as [[b s']|] eqn:E in Hs; simplify_eq; by eapply pool_mem).
  destruct (kernel_step q (w_kern w)) as [b kn]. simplify_eq. by eapply pool_kern.
Qed.

(** A kernel for the examples: map updates succeed, every other fallible call
    is refused. *)
#[export] Instance maps_only_kernel : Kernel unit := λ B e k,
  (match e in kev B return B with
   | CloseMap _ | CloseProg _ | Munmap => inl tt
   | MapUpdate _ _ _ _ => inl tt
   | MapShape _ => (3, 104, 4)
   | e => refuse e
   end, k).
