(* ===== verification/Netns.v ===== *)
(** * Network namespaces: pkg/netns

    [Do] runs a program between a switch to the namespace and the switch back;
    the goroutine is locked to its thread meanwhile, so the namespace of the
    calls inside is the one set last.  Handles are the package's integers. *)
From S2P Require Import Prelude Errors GoStrings GoNet BpfTypes Prog.

Record NetNS := MkNetNS { ns_name : string; ns_handle : Z }.

Definition netnsBasePath : string := "/var/run/netns".

Definition GetByName (name : string) : M NetNS :=
  let nsPath := path_join [netnsBasePath; name] in
  let~ st := call (OsStat nsPath) in
  match st with
  | Err e =>
      if errors_is e OsErrNotExist
      then merr (errorw ("netns " +:+ name +:+ ": ") (sentinel_error OsErrNotExist) "")
      else merr (errorw ("stat netns " +:+ name +:+ ": ") e "")
  | _ =>
      let* handle := mwrap (λ e, errorw ("failed to get netns " +:+ name +:+ ": ") e "")
                           (call (NsGetFromName name)) in
      mok (MkNetNS name handle)
  end.

Definition GetCurrent : M NetNS :=
  let* handle := mwrap (λ e, errorw "failed to get current netns: " e "") (call NsGet) in
  mok (MkNetNS "" handle).

Definition NetNS_Close (ns : NetNS) : prog (res unit) := call (NsClose (ns_handle ns)).

(** The closure's error comes back even when restoring succeeds; when
    restoring fails too, the closure's error is only rendered ([%v]). *)
Definition Do {A} (ns : NetNS) (f : M A) : M A :=
  let* origNs := mwrap (λ e, errorw "failed to get current netns: " e "") (call NsGet) in
  with_defer (call (NsClose origNs))
    (let* _ := mwrap (λ e, errorw "failed to set netns: " e "") (call (NsSet (ns_handle ns))) in
     let~ r := f in
     match r with
     | Panic => mpanic
     | OutOfFuel => Ret OutOfFuel
     | Err funcErr =>
         let* _ := mwrap (λ e, errorw "failed to restore netns: " e
                                  (" (original error: " +:+ emsg funcErr +:+ ")"))
                         (call (NsSet origNs)) in
         merr funcErr
     | Ok a =>
         let* _ := mwrap (λ e, errorw "failed to restore netns: " e "") (call (NsSet origNs)) in
         mok a
     end).

(** [fromNs] may be nil: the caller's namespace. *)
Definition do_opt {A} (ns : option NetNS) (f : M A) : M A :=
  match ns with Some ns => Do ns f | None => f end.

Definition MoveDevice (devName : string) (fromNs : option NetNS) (toNs : NetNS) : M unit :=
  let* link := mwrap (λ e, errorw ("failed to get device " +:+ devName +:+ ": ") e "")
                     (do_opt fromNs (call (NlLinkByName devName))) in
  mwrap (λ e, errorw ("failed to move device " +:+ devName +:+ " to netns: ") e "")
        (do_opt fromNs (call (NlLinkSetNsFd link (ns_handle toNs)))).

Definition GetLinkInNs (ns : NetNS) (name : string) : M Link := Do ns (call (NlLinkByName name)).

(** ** None of it touches the slot table *)
Lemma Do_kern_ret {A} ns (f : M A) : kern_ret f → kern_ret (Do ns f).
Proof. intros. unfold Do. kern_ret. Qed.
#[export] Hint Extern 1 (kern_ret (Do _ _)) => apply Do_kern_ret; kern_ret : kern_ret.
Lemma do_opt_kern_ret {A} ns (f : M A) : kern_ret f → kern_ret (do_opt ns f).
Proof. intros. destruct ns; [by apply Do_kern_ret | done]. Qed.
#[export] Hint Extern 1 (kern_ret (do_opt _ _)) => apply do_opt_kern_ret; kern_ret : kern_ret.
Lemma GetByName_kern_ret n : kern_ret (GetByName n).
Proof. unfold GetByName. kern_ret. Qed.
Lemma GetCurrent_kern_ret : kern_ret GetCurrent.
Proof. unfold GetCurrent. kern_ret. Qed.
Lemma NetNS_Close_kern_only ns : kern_only (NetNS_Close ns).
Proof. done. Qed.
Lemma MoveDevice_kern_ret d f t : kern_ret (MoveDevice d f t).
Proof. unfold MoveDevice. kern_ret. Qed.
Lemma GetLinkInNs_kern_ret ns n : kern_ret (GetLinkInNs ns n).
Proof. unfold GetLinkInNs. kern_ret. Qed.
#[export] Hint Resolve NetNS_Close_kern_only : kern_only.
#[export] Hint Resolve GetByName_kern_ret GetCurrent_kern_ret MoveDevice_kern_ret GetLinkInNs_kern_ret : kern_ret.

(** ** Namespace discipline

    [ns_state] is the calling thread's namespace and the open namespace
    handles with the namespace each denotes.  [ns_sem] is the documented
    behaviour of [vishvananda/netns]: [Get] and [GetFromName] open a fresh
    handle, [Set] enters the namespace of an open handle, [Close] closes one,
    any of them may fail without effect; other calls leave all this alone. *)
Record ns_state := MkNsState { ns_cur : nat; ns_open : gmap Z nat }.

Definition ns_step {B} (e : ev B) (s : ns_state) (b : B) (s' : ns_state) : Prop :=
  match e in ev B return B → Prop with
  | EKern q =>
      match q in kev B return B → Prop with
      | NsGet => λ b,
          match b with
          | inl h => ns_open s !! h = None ∧ s' = MkNsState (ns_cur s) (<[h := ns_cur s]> (ns_open s))
          | inr _ => s' = s
          end
      | NsGetFromName _ => λ b,
          match b with
          | inl h => ns_open s !! h = None ∧ ∃ n, s' = MkNsState (ns_cur s) (<[h := n]> (ns_open s))
          | inr _ => s' = s
          end
      | NsSet h => λ b,
          match b with
          | inl _ => ∃ n, ns_open s !! h = Some n ∧ s' = MkNsState n (ns_open s)
          | inr _ => s' = s
          end
      | NsClose h => λ _, s' = MkNsState (ns_cur s) (delete h (ns_open s))
      | _ => λ _, s' = s
      end
  | _ => λ _, s' = s
  end b.
Definition ns_sem : sem ns_state := MkSem (λ _ _ _, True) (@ns_step).

Definition restore_failed {A} (r : res A) : Prop :=
  match r with Err e => is_Some (cut_prefix "failed to restore netns: " (emsg e)) | _ => False end.

(** The body of a [Do] comes back to the namespace and the handles it was
    started with. *)
Definition ns_balanced {A} (p : prog A) : Prop :=
  ∀ s, wp ns_sem p (λ _ s', s' = s) s.

Lemma wp_ns_get (Q : res Z → ns_state → Prop) s :
  (∀ h, ns_open s !! h = None → Q (Ok h) (MkNsState (ns_cur s) (<[h := ns_cur s]> (ns_open s)))) →
  (∀ e, Q (Err e) s) → wp ns_sem (call NsGet) Q s.
Proof.
  intros Hok Herr. apply wp_call; [done| |].
  - intros h s' [Hn ->]. by apply Hok.
  - intros e s' ->. apply Herr.
Qed.
Lemma wp_ns_set h (Q : res unit → ns_state → Prop) s :
  (∀ n, ns_open s !! h = Some n → Q (Ok tt) (MkNsState n (ns_open s))) →
  (∀ e, Q (Err e) s) → wp ns_sem (call (NsSet h)) Q s.
Proof.
  intros Hok Herr. apply wp_call; [done| |].
  - intros [] s' (n & Hn & ->). by apply Hok.
  - intros e s' ->. apply Herr.
Qed.
Lemma wp_ns_close h (Q : res unit → ns_state → Prop) s :
  (∀ r, Q r (MkNsState (ns_cur s) (delete h (ns_open s)))) → wp ns_sem (call (NsClose h)) Q s.
Proof. intros HQ. apply wp_call; [done| |]; intros x s' ->; apply HQ. Qed.

Lemma errorw_restore_failed {A} e post :
  restore_failed (@Err A (errorw "failed to restore netns: " e post)).
Proof. unfold restore_failed, errorw. simpl. eauto. Qed.

(** C39: [NetNS.Do] leaves the thread where it found it: around any body that
    is itself balanced, every namespace handle opened is closed again, and the
    thread is back in the caller's namespace unless the result is the error
    that reports the failed restore.  This holds whatever the calls answer. *)
Theorem Do_restores {A} ns (f : M A) s :
  ns_balanced f →
  wp ns_sem (Do ns f) (λ r s', ns_open s' = ns_open s ∧
    (ns_cur s' = ns_cur s ∨ restore_failed r ∨ r = Panic ∨ r = OutOfFuel)) s.
Proof.
  intros Hf. unfold Do. apply wp_mbind, wp_mwrap, wp_ns_get.
  2:{ intros e. cbn [map_err]. auto. }
  intros h Hfresh. cbn [map_err]. apply wp_bind.
  eapply (wp_mono _ _ (λ r s2, ns_open s2 = <[h := ns_cur s]> (ns_open s) ∧
    (ns_cur s2 = ns_cur s ∨ restore_failed r ∨ r = Panic ∨ r = OutOfFuel))).
  2:{ intros r s2 [Ho Hc]. apply wp_bind, wp_ns_close. intros _. split; [|done].
      cbn [ns_open]. by rewrite Ho, delete_insert_id. }
  apply wp_mbind, wp_mwrap, wp_ns_set.
  2:{ intros e. cbn [map_err]. auto. }
  intros n Hn. cbn [map_err]. apply wp_bind. eapply wp_mono; [apply Hf|]. intros r s3 ->.
  assert (Hback : ∀ (g : error → error) (k : unit → res A),
    (∀ e, restore_failed (@Err A (g e))) →
    wp ns_sem (mbind (mwrap g (call (NsSet h))) (λ u, Ret (k u)))
      (λ r s2, ns_open s2 = <[h := ns_cur s]> (ns_open s) ∧
        (ns_cur s2 = ns_cur s ∨ restore_failed r ∨ r = Panic ∨ r = OutOfFuel))
      (MkNsState n (<[h := ns_cur s]> (ns_open s)))).
  { intros g k Hg. apply wp_mbind, wp_mwrap, wp_ns_set; cbn [ns_open].
    - intros n' Hn'. rewrite lookup_insert_eq in Hn'. simplify_eq. cbn [map_err wp]. auto.
    - intros e. cbn [map_err]. auto. }
  destruct r as [a|e| |]; [apply (Hback _ (λ _, Ok a))|apply (Hback _ (λ _, Err e))|by (cbn; auto)|by (cbn; auto)];
    intros; apply errorw_restore_failed.
Qed.

Lemma link_by_name_balanced name : ns_balanced (call (NlLinkByName name)).
Proof. intros s. apply wp_call; [done| |]; by intros x s' ->. Qed.

Definition ex_ns_state : ns_state := MkNsState 1 {[ 7 := 2%nat ]}.

Lemma Do_restores_witness :
  wp ns_sem (Do (MkNetNS "blue" 7) (call (NlLinkByName "sw0-p1")))
    (λ r s', ns_open s' = ns_open ex_ns_state ∧
      (ns_cur s' = ns_cur ex_ns_state ∨ restore_failed r ∨ r = Panic ∨ r = OutOfFuel))
    ex_ns_state.
Proof. apply Do_restores, link_by_name_balanced. Defined.
