(* ===== verification/Netlink.v ===== *)
(** * Device management: pkg/netlink

    The helpers over [vishvananda/netlink], each in the current namespace or
    inside a given one. *)
From S2P Require Import Prelude Errors GoStrings GoNet BpfTypes Prog Netns.

Definition PortIngressBlockID : Z := 100.
Definition PortLinkGroup : Z := 100.
Definition MgmtLinkGroup : Z := 101.

Definition link_by_name (pre name : string) : M Link :=
  mwrap (λ e, errorw (pre +:+ " " +:+ name +:+ ": ") e "") (call (NlLinkByName name)).

(** ** veth.go *)
Record VethPair := MkVethPair { vp_Name : string; vp_PeerName : string }.
Record VethSpec := MkVethSpec {
  vs_Name : string; vs_PeerName : string; vs_MTU : Z; vs_PeerNsFd : Z;
  vs_PeerMACAddr : option (list Z); vs_Group : Z;
}.

Definition CreateVethPair (name peerName : string) : M VethPair :=
  let veth := LVeth name peerName 0 0 None None 0 in
  let* _ := mwrap (λ e, errorw ("failed to create veth pair " +:+ name +:+ "<->" +:+ peerName +:+ ": ") e "")
                  (call (NlLinkAdd veth)) in
  let del := call (NlLinkDelSpec veth) in
  let* link := on_err del (link_by_name "failed to get veth" name) in
  let* _ := on_err del (mwrap (λ e, errorw ("failed to bring up " +:+ name +:+ ": ") e "")
                                 (call (NlLinkSetUp link))) in
  let* peerLink := on_err del (link_by_name "failed to get veth peer" peerName) in
  let* _ := on_err del (mwrap (λ e, errorw ("failed to bring up " +:+ peerName +:+ ": ") e "")
                                 (call (NlLinkSetUp peerLink))) in
  mok (MkVethPair name peerName).

Definition CreateVethPairInNs (ns : NetNS) (name peerName : string) : M VethPair :=
  Do ns (CreateVethPair name peerName).

Definition DeleteVethPair (name : string) : M unit :=
  let* link := link_by_name "failed to get veth" name in call (NlLinkDel link).
Definition DeleteVethPairInNs (ns : NetNS) (name : string) : M unit := Do ns (DeleteVethPair name).

Definition SetLinkUp (name : string) : M unit :=
  let* link := link_by_name "failed to get link" name in call (NlLinkSetUp link).
Definition SetLinkUpInNs (ns : NetNS) (name : string) : M unit := Do ns (SetLinkUp name).

Definition GetLinkIndex (name : string) : M Z :=
  let* link := link_by_name "failed to get link" name in mok (lk_Index link).
Definition GetLinkIndexInNs (ns : NetNS) (name : string) : M Z := Do ns (GetLinkIndex name).

Definition AddAddr (name : string) (addr : IPNet) : M unit :=
  let* link := link_by_name "failed to get link" name in
  mwrap (λ e, errorw ("failed to add address to " +:+ name +:+ ": ") e "") (call (NlAddrAdd link addr)).
Definition AddAddrInNs (ns : NetNS) (name : string) (addr : IPNet) : M unit := Do ns (AddAddr name addr).

Definition default_net : IPNet := MkIPNet (IPv4 0 0 0 0) (CIDRMask 0 32).
Definition AddDeviceRoute (name : string) (dst : option IPNet) (metric : Z) : M unit :=
  let* link := link_by_name "failed to get link" name in
  let dst := default default_net dst in
  mwrap (λ e, errorw ("failed to add route " +:+ net_string dst +:+ " via " +:+ name +:+ " metric "
                      +:+ fmt_d metric +:+ ": ") e "")
        (call (NlRouteAdd (lk_Index link) dst None metric)).
Definition AddDefaultRoute (name : string) (metric : Z) : M unit := AddDeviceRoute name None metric.

Definition SetHardwareAddr (name : string) (mac : HardwareAddr) : M unit :=
  let* link := link_by_name "failed to get link" name in call (NlLinkSetHardwareAddr link mac).
Definition SetHardwareAddrInNs (ns : NetNS) (name : string) (mac : HardwareAddr) : M unit :=
  Do ns (SetHardwareAddr name mac).

Definition SetMTU (name : string) (mtu : Z) : M unit :=
  let* link := link_by_name "failed to get link" name in call (NlLinkSetMTU link mtu).
Definition SetMTUInNs (ns : NetNS) (name : string) (mtu : Z) : M unit := Do ns (SetMTU name mtu).

Definition GetMTU (name : string) : M Z :=
  let* link := link_by_name "failed to get link" name in mok (lk_MTU link).
Definition GetMTUInNs (ns : NetNS) (name : string) : M Z := Do ns (GetMTU name).

Definition IsLinkDown (name : string) : M bool :=
  let* link := link_by_name "failed to get link" name in mok (lk_OperDown link).

Definition setLinkUpByName (name : string) : M unit :=
  let* link := link_by_name "get link" name in
  mwrap (λ e, errorw ("bring up " +:+ name +:+ ": ") e "") (call (NlLinkSetUp link)).

Fixpoint CreateVethPairs (specs : list VethSpec) : M unit :=
  match specs with
  | [] => mok tt
  | spec :: specs =>
      let veth := LVeth (vs_Name spec) (vs_PeerName spec)
                    (if 0 <? vs_MTU spec then vs_MTU spec else 0)
                    (if 0 <? vs_MTU spec then u32 (vs_MTU spec) else 0)
                    (if 0 <? vs_PeerNsFd spec then Some (vs_PeerNsFd spec) else None)
                    (vs_PeerMACAddr spec) (vs_Group spec) in
      let* _ := mwrap (λ e, errorw ("create veth " +:+ vs_Name spec +:+ "<->" +:+ vs_PeerName spec +:+ ": ") e "")
                      (call (NlLinkAdd veth)) in
      let* _ := setLinkUpByName (vs_Name spec) in
      let* _ := if vs_PeerNsFd spec =? 0 then setLinkUpByName (vs_PeerName spec) else mok tt in
      CreateVethPairs specs
  end.

Definition LinkList : prog (list Link * option error) := kern NlLinkList.
Definition LinkByName (name : string) : M Link := call (NlLinkByName name).
Definition link_test (P : Link → bool) (name : string) : prog bool :=
  let~ r := call (NlLinkByName name) in
  Ret (match r with Ok link => P link | _ => false end).
Definition LinkExists (name : string) : prog bool := link_test (λ _, true) name.
Definition IsLinkUp (name : string) : prog bool := link_test lk_OperUp name.
Definition IsLinkAdminUp (name : string) : prog bool := link_test lk_FlagUp name.

Definition DeleteLinkByIndex (ifindex : Z) : M unit :=
  let* link := mwrap (λ e, errorw ("failed to get link by index " +:+ fmt_d ifindex +:+ ": ") e "")
                     (call (NlLinkByIndex ifindex)) in
  call (NlLinkDel link).
Definition DeleteLinkByIndexInNs (ns : NetNS) (ifindex : Z) : M unit := Do ns (DeleteLinkByIndex ifindex).

(** ** tap.go *)
Record TapSpec := MkTapSpec {
  ts_Name : string; ts_MTU : Z; ts_MACAddr : option (list Z); ts_Group : Z;
}.

Definition CreateTap (spec : TapSpec) : M Z :=
  let tap := LTap (ts_Name spec) (if 0 <? ts_MTU spec then ts_MTU spec else 0)
               (ts_MACAddr spec) (ts_Group spec) true in
  let* _ := mwrap (λ e, errorw ("create tap " +:+ ts_Name spec +:+ ": ") e "") (call (NlLinkAdd tap)) in
  let* link := on_err (call (NlLinkDelSpec tap)) (link_by_name "look up created tap" (ts_Name spec)) in
  let* _ := match ts_MACAddr spec with
            | Some mac =>
                on_err (call (NlLinkDel link))
                  (mwrap (λ e, errorw ("set hwaddr on tap " +:+ ts_Name spec +:+ ": ") e "")
                         (call (NlLinkSetHardwareAddr link mac)))
            | None => mok tt
            end in
  let* _ := on_err (call (NlLinkDel link))
              (mwrap (λ e, errorw ("bring up tap " +:+ ts_Name spec +:+ ": ") e "")
                     (call (NlLinkSetUp link))) in
  mok (lk_Index link).

Definition CreateTapInNs (ns : NetNS) (spec : TapSpec) : M Z := Do ns (CreateTap spec).

Definition DeleteTap (name : string) : M unit :=
  let~ r := call (NlLinkByName name) in
  match r with
  | Err e => if IsLinkNotExist e then mok tt
             else merr (errorw ("look up tap " +:+ name +:+ ": ") e "")
  | Ok link =>
      let~ d := call (NlLinkDel link) in
      match d with
      | Err e => if IsLinkNotExist e then mok tt
                 else merr (errorw ("delete tap " +:+ name +:+ ": ") e "")
      | r => Ret r
      end
  | Panic => mpanic
  | OutOfFuel => Ret OutOfFuel
  end.
Definition DeleteTapInNs (ns : NetNS) (name : string) : M unit := Do ns (DeleteTap name).

(** ** tc.go: a program is its file descriptor *)
Definition TCFilterPriority : Z := 1.
Inductive Direction := Ingress | Egress.
Definition tcParent (d : Direction) : Z :=
  match d with Ingress => 4294967282 | Egress => 4294967283 end.
Definition newClsactQdisc (linkIndex : Z) : qdisc_spec := MkQdisc linkIndex None.
Definition newBpfFilter (ifIndex : Z) (d : Direction) (fd : Z) : filter_spec :=
  MkFilter ifIndex (tcParent d) fd.

Definition ensureClsactQdisc (link : Link) : M unit :=
  let* qdiscs := mwrap (λ e, errorw "failed to list qdiscs: " e "") (call (NlQdiscList link)) in
  if bool_decide ("clsact" ∈ qdiscs) then mok tt
  else mwrap (λ e, errorw "failed to add clsact qdisc: " e "")
             (call (NlQdiscAdd (newClsactQdisc (lk_Index link)))).

Definition attachTCToLink (link : Link) (fd : Z) (d : Direction) : M unit :=
  let* _ := mwrap (λ e, errorw ("failed to ensure clsact qdisc on " +:+ lk_Name link +:+ ": ") e "")
                  (ensureClsactQdisc link) in
  mwrap (λ e, errorw ("failed to add TC filter to " +:+ lk_Name link +:+ ": ") e "")
        (call (NlFilterAdd (newBpfFilter (lk_Index link) d fd))).

Definition AttachTC (ifName : string) (fd : Z) (d : Direction) : M unit :=
  let* link := link_by_name "failed to get link" ifName in attachTCToLink link fd d.

(** Each filter's deletion is best effort. *)
Fixpoint del_filters (l : list (Z * bool)) : prog unit :=
  match l with
  | [] => Ret tt
  | (h, _) :: l => let~ _ := call (NlFilterDel h) in del_filters l
  end.
Definition del_filters_at (link : Link) (parent : Z) : prog unit :=
  let~ r := call (NlFilterList (lk_Index link) parent) in
  match r with Ok l => del_filters l | _ => Ret tt end.
Definition detachTCFromLink (link : Link) : M unit :=
  let~ _ := del_filters_at link (tcParent Ingress) in
  let~ _ := del_filters_at link (tcParent Egress) in
  mok tt.
Definition DetachTC (ifName : string) : M unit :=
  let* link := link_by_name "failed to get link" ifName in detachTCFromLink link.

Definition RemoveClsactQdisc (ifName : string) : M unit :=
  let* link := link_by_name "failed to get link" ifName in
  call (NlQdiscDel (newClsactQdisc (lk_Index link))).

Definition has_filter_at (link parent : Z) : prog bool :=
  let~ r := call (NlFilterList link parent) in
  Ret (match r with Ok l => existsb snd l | _ => false end).
Definition HasTCFilter (link : Link) (d : Direction) : prog bool :=
  has_filter_at (lk_Index link) (tcParent d).

Definition TCM_IFINDEX_MAGIC_BLOCK : Z := -1.
Definition newClsactWithBlock (ifIndex blockIndex : Z) : qdisc_spec := MkQdisc ifIndex (Some blockIndex).

(** EEXIST is success: the call is idempotent. *)
Definition AddClsactWithBlock (ifIndex blockIndex : Z) : M unit :=
  let~ r := call (NlQdiscAdd (newClsactWithBlock ifIndex blockIndex)) in
  match r with
  | Err e => if errors_is e SysEEXIST then mok tt
             else merr (errorw "failed to add clsact with block: " e "")
  | r => Ret r
  end.

Definition AddBlockFilter (blockIndex fd : Z) : M unit :=
  call (NlFilterAdd (MkFilter TCM_IFINDEX_MAGIC_BLOCK blockIndex fd)).
Definition HasBlockFilter (blockIndex : Z) : prog bool :=
  has_filter_at TCM_IFINDEX_MAGIC_BLOCK blockIndex.

(** The tap fallback, for kernels without the dummy module. *)
Definition CreateDummyLink (name : string) : M unit :=
  let~ r := call (NlLinkAdd (LDummy name)) in
  match r with
  | Err e => if errors_is e SysEOPNOTSUPP then call (NlLinkAdd (LTap name 0 None 0 false)) else merr e
  | r => Ret r
  end.

Definition deleteLinkByName (name : string) : M unit :=
  let* link := link_by_name "failed to get link" name in call (NlLinkDel link).
Definition DeleteLinkByNameInNs (ns : NetNS) (name : string) : M unit := Do ns (deleteLinkByName name).

(** ** batch.go *)
Record LinkConfig := MkLinkConfig {
  lc_Name : string; lc_HardwareAddr : option (list Z); lc_Up : bool;
}.
Fixpoint ConfigureLinks (configs : list LinkConfig) : M unit :=
  match configs with
  | [] => mok tt
  | cfg :: configs =>
      let* link := link_by_name "get link" (lc_Name cfg) in
      let* _ := match lc_HardwareAddr cfg with
                | Some mac => mwrap (λ e, errorw ("set MAC on " +:+ lc_Name cfg +:+ ": ") e "")
                                    (call (NlLinkSetHardwareAddr link mac))
                | None => mok tt
                end in
      let* _ := if lc_Up cfg
                then mwrap (λ e, errorw ("bring up " +:+ lc_Name cfg +:+ ": ") e "")
                           (call (NlLinkSetUp link))
                else mok tt in
      ConfigureLinks configs
  end.
Fixpoint MoveLinksToNs (names : list string) (targetNsFd : Z) : M unit :=
  match names with
  | [] => mok tt
  | name :: names =>
      let* link := link_by_name "get link" name in
      let* _ := mwrap (λ e, errorw ("move " +:+ name +:+ " to ns: ") e "")
                      (call (NlLinkSetNsFd link targetNsFd)) in
      MoveLinksToNs names targetNsFd
  end.

(** ** None of it touches the slot table *)
Lemma link_by_name_kern_ret p n : kern_ret (link_by_name p n).
Proof. unfold link_by_name. kern_ret. Qed.
#[export] Hint Resolve link_by_name_kern_ret : kern_ret.
Lemma setLinkUpByName_kern_ret n : kern_ret (setLinkUpByName n).
Proof. unfold setLinkUpByName. kern_ret. Qed.
#[export] Hint Resolve setLinkUpByName_kern_ret : kern_ret.
Lemma CreateVethPairs_kern_ret l : kern_ret (CreateVethPairs l).
Proof. induction l; cbn [CreateVethPairs]; kern_ret. Qed.
Lemma GetLinkIndexInNs_kern_ret ns n : kern_ret (GetLinkIndexInNs ns n).
Proof. unfold GetLinkIndexInNs, GetLinkIndex. kern_ret. Qed.
Lemma GetMTUInNs_kern_ret ns n : kern_ret (GetMTUInNs ns n).
Proof. unfold GetMTUInNs, GetMTU. kern_ret. Qed.
Lemma SetMTUInNs_kern_ret ns n m : kern_ret (SetMTUInNs ns n m).
Proof. unfold SetMTUInNs, SetMTU. kern_ret. Qed.
Lemma DeleteLinkByIndex_kern_ret i : kern_ret (DeleteLinkByIndex i).
Proof. unfold DeleteLinkByIndex. kern_ret. Qed.
#[export] Hint Resolve DeleteLinkByIndex_kern_ret : kern_ret.
Lemma DeleteLinkByIndexInNs_kern_ret ns i : kern_ret (DeleteLinkByIndexInNs ns i).
Proof. unfold DeleteLinkByIndexInNs. kern_ret. Qed.
Lemma CreateTapInNs_kern_ret ns s : kern_ret (CreateTapInNs ns s).
Proof. unfold CreateTapInNs, CreateTap. kern_ret. Qed.
Lemma DeleteTapInNs_kern_ret ns s : kern_ret (DeleteTapInNs ns s).
Proof. unfold DeleteTapInNs, DeleteTap. kern_ret. Qed.
Lemma AddClsactWithBlock_kern_ret i b : kern_ret (AddClsactWithBlock i b).
Proof. unfold AddClsactWithBlock. kern_ret. Qed.
Lemma AttachTC_kern_ret n f d : kern_ret (AttachTC n f d).
Proof. unfold AttachTC, attachTCToLink, ensureClsactQdisc. kern_ret. Qed.
Lemma CreateDummyLink_kern_ret n : kern_ret (CreateDummyLink n).
Proof. unfold CreateDummyLink. kern_ret. Qed.
Lemma DeleteLinkByNameInNs_kern_ret ns n : kern_ret (DeleteLinkByNameInNs ns n).
Proof. unfold DeleteLinkByNameInNs, deleteLinkByName. kern_ret. Qed.
#[export] Hint Resolve CreateVethPairs_kern_ret GetLinkIndexInNs_kern_ret GetMTUInNs_kern_ret SetMTUInNs_kern_ret DeleteLinkByIndexInNs_kern_ret CreateTapInNs_kern_ret DeleteTapInNs_kern_ret AddClsactWithBlock_kern_ret AttachTC_kern_ret CreateDummyLink_kern_ret DeleteLinkByNameInNs_kern_ret : kern_ret.
