(* ===== verification/Config.v ===== *)
(** * Switch configuration: pkg/vswitch/config.go and the pure part of slot.go

    The parsers of the command-line and file syntax, the validation that every
    start path runs, the device names, and the address plan a validated
    configuration gives. *)
From S2P Require Import Prelude Errors GoStrings GoNet BpfTypes Mac Json Geneve.

Definition GeneveIPOverhead : Z := 50.
Definition GeneveEthOverhead : Z := 64.

(** ** Management extraction *)
Record MgmtExtract := MkMgmtExtract { me_NetNS : string; me_Dev : string; me_ServiceRoutes : list IPNet }.
Definition IsCallerNetNS (m : MgmtExtract) : bool := bool_decide (me_NetNS m = "").

(** One item of the comma-separated list; a blank one is skipped. *)
Definition parse_service_route (item : string) : res (option IPNet) :=
  let item := trim_space item in
  if bool_decide (item = "") then Ok None
  else if contains item "/" then
    let! r := map_err (λ e, errorw ("invalid service route " +:+ fmt_q item +:+ ": ") e "") (ParseCIDR item) in
    Ok (Some (snd r))
  else match ParseIP item with
       | None => Err (errorf ("invalid service route " +:+ fmt_q item +:+ ": not a valid IP"))
       | ip => Ok (Some (MkIPNet ip (CIDRMask 32 32)))
       end.

Definition ParseMgmtExtract (s : string) : res MgmtExtract :=
  let bad := errorf ("invalid mgmt-extract format: " +:+ fmt_q s +:+ str1 10 +:+
    "expected <netns>:<dev>:<service-route1>,<service-route2>,... (<netns> may be empty for caller netns)") in
  match split_n 3 ":" s with
  | [p0; p1; p2] =>
      if bool_decide (p1 = "") || bool_decide (p2 = "") then Err bad
      else
        let! routes := res_mapM parse_service_route (split_on "," p2) in
        let routes := omap id routes in
        if bool_decide (routes = []) then Err (errorf "mgmt-extract requires at least one service route")
        else Ok (MkMgmtExtract p0 p1 routes)
  | _ => Err bad
  end.

(** ** Management services *)
Record MgmtService := MkMgmtService { ms_VIP : IP; ms_VPort : Z; ms_TargetIP : IP; ms_TargetPort : Z }.

Definition MgmtService_String (s : MgmtService) : string :=
  ip_string (ms_VIP s) +:+ ":" +:+ fmt_u (ms_VPort s) +:+ ":" +:+
  ip_string (ms_TargetIP s) +:+ ":" +:+ fmt_u (ms_TargetPort s).

Definition parsePort (s : string) : res Z :=
  match atoi s with
  | Ok p => if (p <? 1) || (65535 <? p) then Err (errorf "must be between 1 and 65535") else Ok (u16 p)
  | _ => Err (errorf "not a number")
  end.

Definition parse_v4_addr (what s : string) : res IP :=
  match To4 (ParseIP s) with
  | None => Err (errorf ("invalid mgmt-service " +:+ what +:+ " " +:+ fmt_q s +:+ ": must be an IPv4 address"))
  | ip => Ok ip
  end.

Definition ParseMgmtService (s : string) : res MgmtService :=
  match split_on ":" s with
  | [p0; p1; p2; p3] =>
      let! vip := parse_v4_addr "VIP" p0 in
      let! vport := map_err (λ e, errorw ("invalid mgmt-service vport " +:+ fmt_q p1 +:+ ": ") e "") (parsePort p1) in
      let! target := parse_v4_addr "targetIP" p2 in
      let! tport := map_err (λ e, errorw ("invalid mgmt-service targetPort " +:+ fmt_q p3 +:+ ": ") e "") (parsePort p3) in
      Ok (MkMgmtService vip vport target tport)
  | _ => Err (errorf ("invalid mgmt-service format: " +:+ fmt_q s +:+ str1 10 +:+
                      "expected <VIP>:<vport>:<targetIP>:<targetPort>"))
  end.

Definition ParseTransitDevAddr (s : string) : res (IPNet * IP) :=
  match split_on ":" s with
  | [p0; p1] =>
      let! r := map_err (λ e, errorw "invalid address: " e "") (ParseCIDR p0) in
      let '(ip, ipnet) := r in
      let ipnet := MkIPNet ip (net_mask ipnet) in
      match ParseIP p1 with
      | None => Err (errorf ("invalid nexthop: " +:+ p1))
      | gw => Ok (ipnet, gw)
      end
  | _ => Err (errorf "invalid transit-dev-addr format, expected <ip>/<prefix>:<nexthop>")
  end.

(** ** The configuration *)
Record Config := MkConfig {
  cf_Name : string;
  cf_SwitchNetNS : string;
  cf_PortNetNS : string;
  cf_NumPorts : Z;
  cf_MACAddr : HardwareAddr;
  cf_FloatingIPBase : IP;
  cf_GenerationBits : Z;
  cf_MgmtExtracts : list MgmtExtract;
  cf_MgmtServices : list MgmtService;
  cf_TransitDev : string;
  cf_TransitAddr : option IPNet;
  cf_TransitNexthop : IP;
  cf_TransitAddrAuto : bool;
  cf_TransitDevMTU : Z;
  cf_TransitDevMTUAuto : bool;
  cf_GenevePortBase : Z;
  cf_GeneveLocator : Z;
  cf_GeneveTLVLocator : option GeneveTLVLocator;
  cf_GeneveEncapEth : bool;
  cf_MTU : Z;
  cf_PortMAC : HardwareAddr;
  cf_DefaultMode : Z;
  cf_genevePortBaseDefaulted : bool;
}.

Definition with_port_base (c : Config) (base : Z) (defaulted : bool) : Config :=
  MkConfig (cf_Name c) (cf_SwitchNetNS c) (cf_PortNetNS c) (cf_NumPorts c) (cf_MACAddr c)
    (cf_FloatingIPBase c) (cf_GenerationBits c) (cf_MgmtExtracts c) (cf_MgmtServices c)
    (cf_TransitDev c) (cf_TransitAddr c) (cf_TransitNexthop c) (cf_TransitAddrAuto c)
    (cf_TransitDevMTU c) (cf_TransitDevMTUAuto c) base (cf_GeneveLocator c)
    (cf_GeneveTLVLocator c) (cf_GeneveEncapEth c) (cf_MTU c) (cf_PortMAC c) (cf_DefaultMode c)
    defaulted.

Definition applyGeneveDefaults (c : Config) : Config :=
  if cf_GenevePortBase c =? 0 then with_port_base c DefaultGenevePortBase true else c.

Definition validateGeneve (c : Config) : res unit :=
  let loc := cf_GeneveLocator c in
  if negb (GeneveLocator_valid loc)
  then Err (errorf ("unknown GENEVE locator value " +:+ fmt_u loc))
  else if loc =? GeneveLocatorPort then
    guard! (negb (bool_decide (is_Some (cf_GeneveTLVLocator c))))
    else errorf "geneve_tlv_locator is only valid with geneve_locator=tlv" in
    let lastPort := u32 (u32 (cf_GenevePortBase c + cf_NumPorts c) - 1) in
    guard! (negb (65535 <? lastPort))
    else errorf ("geneve_port_base " +:+ fmt_u (cf_GenevePortBase c) +:+ " with "
                 +:+ fmt_u (cf_NumPorts c) +:+ " ports exceeds UDP port 65535") in Ok tt
  else if loc =? GeneveLocatorVNI then
    guard! (negb (bool_decide (is_Some (cf_GeneveTLVLocator c))))
    else errorf "geneve_tlv_locator is only valid with geneve_locator=tlv" in
    guard! (cf_GenevePortBase c =? DefaultGenevePortBase)
    else errorf ("geneve_port_base is not configurable with geneve_locator=vni; UDP port is fixed at "
                 +:+ fmt_u GeneveStandardPort) in Ok tt
  else
    guard! (bool_decide (is_Some (cf_GeneveTLVLocator c)))
    else errorf "geneve_tlv_locator is required with geneve_locator=tlv" in
    guard! (cf_GenevePortBase c =? DefaultGenevePortBase)
    else errorf ("geneve_port_base is not configurable with geneve_locator=tlv; UDP port is fixed at "
                 +:+ fmt_u GeneveStandardPort) in Ok tt.

(** The loop over the services; [seen] maps a target to the service that
    claimed it. *)
Fixpoint validate_services_loop (extracts : list MgmtExtract) (seen : gmap (string * Z) string)
    (svcs : list MgmtService) : res unit :=
  match svcs with
  | [] => Ok tt
  | svc :: svcs =>
      let inRange := existsb (λ me, existsb (λ sr, net_contains sr (ms_VIP svc)) (me_ServiceRoutes me)) extracts in
      if negb inRange
      then Err (errorf ("mgmt-service VIP " +:+ ip_string (ms_VIP svc)
                        +:+ " is not within any --mgmt-extract route"))
      else
        let k := (ip_string (ms_TargetIP svc), ms_TargetPort svc) in
        match seen !! k with
        | Some prev =>
            Err (errorf ("mgmt-service target " +:+ ip_string (ms_TargetIP svc) +:+ ":"
                         +:+ fmt_u (ms_TargetPort svc) +:+ " is used by both " +:+ fmt_q prev +:+ " and "
                         +:+ fmt_q (MgmtService_String svc) +:+ " (must be unique)"))
        | None => validate_services_loop extracts (<[k := MgmtService_String svc]> seen) svcs
        end
  end.

Definition validateMgmtServices (c : Config) : res unit :=
  if bool_decide (cf_MgmtServices c = []) then Ok tt
  else if bool_decide (cf_MgmtExtracts c = [])
  then Err (errorf "--mgmt-service requires at least one --mgmt-extract")
  else validate_services_loop (cf_MgmtExtracts c) ∅ (cf_MgmtServices c).

(** The checks of [validateBase] after the defaults have been applied. *)
Definition validate_checks (c : Config) : res unit :=
  guard! (negb (bool_decide (cf_Name c = ""))) else errorf "switch name is required" in
  guard! (negb (bool_decide (cf_SwitchNetNS c = ""))) else errorf "switch netns is required" in
  guard! (negb ((cf_NumPorts c =? 0) || (MaxPorts <? cf_NumPorts c)))
  else errorf ("ports must be between 1 and " +:+ fmt_u MaxPorts) in
  guard! (bool_decide (length (cf_MACAddr c) = 6%nat)) else errorf "invalid MAC address" in
  guard! (bool_decide (is_Some (To4 (cf_FloatingIPBase c)))) else errorf "floating-ip-base must be IPv4" in
  guard! (negb (20 <? cf_GenerationBits c)) else errorf "generation_bits must be between 0 and 20" in
  let span := u64 (Z.shiftl 1 (12 + cf_GenerationBits c)) in
  let base := IPToUint32 (cf_FloatingIPBase c) in
  guard! (negb (4294967295 <? u64 (u64 (base + span) - 1)))
  else errorf ("floating-ip-base " +:+ ip_string (cf_FloatingIPBase c) +:+ " with generation_bits="
               +:+ fmt_u (cf_GenerationBits c) +:+ " overflows IPv4") in
  guard! (negb (bool_decide (Z.to_nat MaxMgmtCIDRPerSlot < length (cf_MgmtExtracts c))%nat))
  else errorf ("too many mgmt-extract entries (max " +:+ fmt_u MaxMgmtCIDRPerSlot +:+ ")") in
  let! _ := validateMgmtServices c in
  let! _ := validateGeneve c in
  guard! (negb ((cf_MTU c <? 0) || (65535 <? cf_MTU c))) else errorf "MTU must be between 0 and 65535" in
  Ok tt.

(** The receiver is mutated even when the validation fails. *)
Definition validateBase (c : Config) : Config * res unit :=
  let c := applyGeneveDefaults c in (c, validate_checks c).

Definition Validate (c : Config) : Config * res unit :=
  let '(c, r) := validateBase c in
  (c, let! _ := r in
      guard! (negb (bool_decide (cf_PortNetNS c = "") && negb (cf_DefaultMode c =? PortKindTap)))
      else errorf "port netns is required for veth mode" in Ok tt).

Definition ValidateReserved (c : Config) : Config * res unit := validateBase c.

(** ** Device names: config.go methods and the functions of slot.go *)
Definition cfg_PortDeviceName (c : Config) (slotID : Z) : string := cf_Name c +:+ "-p" +:+ fmt_d (slotID + 1).
Definition cfg_PeerDeviceName (c : Config) (slotID : Z) : string := cf_Name c +:+ "-n" +:+ fmt_d (slotID + 1).
Definition cfg_TapDeviceName (c : Config) (slotID : Z) : string := cf_Name c +:+ "-t" +:+ fmt_d (slotID + 1).
Definition MgmtDeviceName (c : Config) (idx : Z) : string := cf_Name c +:+ "-m" +:+ fmt_d idx.
Definition DummyDeviceName (c : Config) : string := cf_Name c +:+ "-dummy".

Definition PortDeviceName (switchName : string) (slotID : Z) : string :=
  switchName +:+ "-p" +:+ fmt_u (u32 (slotID + 1)).
Definition PeerDeviceName (switchName : string) (slotID : Z) : string :=
  switchName +:+ "-n" +:+ fmt_u (u32 (slotID + 1)).
Definition TapDeviceName (switchName : string) (slotID : Z) : string :=
  switchName +:+ "-t" +:+ fmt_u (u32 (slotID + 1)).

Definition SlotPortKind (s : SlotItem) : Z := si_Mode s.

Definition floatingSlotBits : Z := 12.
Definition floatingSlotMask : Z := MaxPorts - 1.
Definition FloatingIPForAttachment (base slotID generation : Z) : Z :=
  u32 (u32 (base + u32 (Z.shiftl generation floatingSlotBits)) + slotID).

(** ** The file format *)
Record FileConfig := MkFileConfig {
  fc_SwitchName : string; fc_SwitchNetNS : string; fc_PortNetNS : string; fc_NumPorts : Z;
  fc_MACAddr : string; fc_FloatingIPBase : string; fc_GenerationBits : Z;
  fc_MgmtExtracts : list string; fc_MgmtServices : list string;
  fc_TransitDev : string; fc_TransitDevAddr : string; fc_TransitDevMTU : string;
  fc_GeneveLocator : Z; fc_GenevePortBase : Z; fc_GeneveTLVLocator : option GeneveTLVLocator;
  fc_GeneveEncapEth : bool; fc_MTU : Z; fc_PortMACAddr : string;
}.

Definition ToConfig (fc : FileConfig) : res Config :=
  let! mac := map_err (λ e, errorw ("invalid mac_addr " +:+ fmt_q (fc_MACAddr fc) +:+ ": ") e "")
                      (ParseMAC (fc_MACAddr fc)) in
  match ParseIP (fc_FloatingIPBase fc) with
  | None => Err (errorf ("invalid floating_ip_base " +:+ fmt_q (fc_FloatingIPBase fc)))
  | fip =>
      let defaulted := fc_GenevePortBase fc =? 0 in
      let base := if defaulted then DefaultGenevePortBase else fc_GenevePortBase fc in
      let! extracts := res_mapM (λ s,
        map_err (λ e, errorw ("invalid mgmt_extract " +:+ fmt_q s +:+ ": ") e "") (ParseMgmtExtract s))
        (fc_MgmtExtracts fc) in
      let! services := res_mapM (λ s,
        map_err (λ e, errorw ("invalid mgmt_service " +:+ fmt_q s +:+ ": ") e "") (ParseMgmtService s))
        (fc_MgmtServices fc) in
      let! transit :=
        if bool_decide (fc_TransitDevAddr fc = "") then Ok (None, None, false)
        else if bool_decide (fc_TransitDevAddr fc = "auto") then Ok (None, None, true)
        else let! r := map_err (λ e, errorw ("invalid transit_dev_addr " +:+ fmt_q (fc_TransitDevAddr fc) +:+ ": ") e "")
                               (ParseTransitDevAddr (fc_TransitDevAddr fc)) in
             Ok (Some (fst r), snd r, false) in
      let! mtu :=
        if bool_decide (fc_TransitDevMTU fc = "") then Ok (0, false)
        else if bool_decide (fc_TransitDevMTU fc = "auto") then Ok (0, true)
        else match atoi (fc_TransitDevMTU fc) with
             | Ok m => if m <=? 0 then Err (errorf ("invalid transit_dev_mtu " +:+ fmt_q (fc_TransitDevMTU fc)))
                       else Ok (m, false)
             | _ => Err (errorf ("invalid transit_dev_mtu " +:+ fmt_q (fc_TransitDevMTU fc)))
             end in
      let! portMAC :=
        if bool_decide (fc_PortMACAddr fc ∈ [""; "fixed"]) then PortMACFixed mac
        else if bool_decide (fc_PortMACAddr fc = "per-port") then Ok mac_zero
        else match ParseMAC (fc_PortMACAddr fc) with
             | Ok m => Ok m
             | _ => Err (errorf ("invalid port_mac_addr " +:+ fmt_q (fc_PortMACAddr fc)
                                 +:+ ": expected 'fixed', 'per-port', or MAC address"))
             end in
      let '(addr, gw, addrAuto) := transit in
      let '(tmtu, tmtuAuto) := mtu in
      Ok (MkConfig (fc_SwitchName fc) (fc_SwitchNetNS fc) (fc_PortNetNS fc) (fc_NumPorts fc) mac fip
            (fc_GenerationBits fc) extracts services (fc_TransitDev fc) addr gw addrAuto tmtu tmtuAuto
            base (fc_GeneveLocator fc) (fc_GeneveTLVLocator fc) (fc_GeneveEncapEth fc) (fc_MTU fc)
            portMAC PortKindVeth defaulted)
  end.

(** ** What a validated configuration guarantees *)
Lemma guard_ok (b : bool) {A} (k : res A) e a : (if b then k else Err e) = Ok a → b = true ∧ k = Ok a.
Proof. by destruct b. Qed.

(** The facts the address plan needs, from a successful validation. *)
Lemma validate_checks_ok c :
  is_u32 (cf_NumPorts c) → is_u8 (cf_GenerationBits c) → ip_ok (cf_FloatingIPBase c) →
  validate_checks c = Ok tt →
  0 < cf_NumPorts c ≤ MaxPorts ∧ length (cf_MACAddr c) = 6%nat ∧ 0 ≤ cf_GenerationBits c ≤ 20 ∧
  IPToUint32 (cf_FloatingIPBase c) + 2 ^ (12 + cf_GenerationBits c) ≤ 2 ^ 32 ∧
  validateMgmtServices c = Ok tt ∧ validateGeneve c = Ok tt ∧ 0 ≤ cf_MTU c ≤ 65535.
Proof.
  intros Hn Hg Hip. unfold validate_checks, MaxPorts.
  pose proof (IPToUint32_range _ Hip) as Hb. unfold is_u32, is_u8 in *.
  intros [_ H]%guard_ok. apply guard_ok in H as [_ H]. apply guard_ok in H as [Hports H].
  apply guard_ok in H as [Hmac%bool_decide_eq_true H]. apply guard_ok in H as [_ H].
  apply guard_ok in H as [Hbits H]. cbv zeta in H. apply guard_ok in H as [Hspan H].
  apply guard_ok in H as [_ H].
  apply res_bind_ok in H as ([] & Hs & H). apply res_bind_ok in H as ([] & Hv & H).
  apply guard_ok in H as [Hmtu _].
  split_and!; try done; try lia.
  assert (0 ≤ cf_GenerationBits c ≤ 20) as Hbits' by lia.
  assert (2 ^ (12 + cf_GenerationBits c) ≤ 2 ^ 32) by (apply Z.pow_le_mono_r; lia).
  assert (0 < 2 ^ (12 + cf_GenerationBits c)) by (apply Z.pow_pos_nonneg; lia).
  rewrite Z.shiftl_1_l in Hspan. unfold u64 in Hspan.
  rewrite (Z.mod_small (2 ^ (12 + _))) in Hspan by lia.
  rewrite (Z.mod_small (_ + _)) in Hspan by lia. rewrite Z.mod_small in Hspan by lia. lia.
Qed.

Lemma FloatingIP_plain base slot gen bits :
  is_u32 base → 0 ≤ bits ≤ 20 → base + 2 ^ (12 + bits) ≤ 2 ^ 32 →
  0 ≤ slot < 4096 → 0 ≤ gen < 2 ^ bits →
  FloatingIPForAttachment base slot gen = base + gen * 4096 + slot ∧
  gen * 4096 + slot < 2 ^ (12 + bits).
Proof.
  unfold is_u32, FloatingIPForAttachment, floatingSlotBits, u32. intros Hb Hbits Hspan Hs Hg.
  rewrite Z.shiftl_mul_pow2 by lia. change (2 ^ 12) with 4096.
  rewrite Z.pow_add_r in * by lia. change (2 ^ 12) with 4096 in *.
  assert (gen * 4096 + slot < 4096 * 2 ^ bits) by nia.
  rewrite (Z.mod_small (gen * 4096)) by nia. rewrite (Z.mod_small (base + _)) by nia.
  rewrite Z.mod_small by lia. lia.
Qed.

(** C35: the address plan of an accepted configuration.  For every configuration
    that [validateBase] accepts, the floating address of a slot and a generation
    inside the configured range is exactly base + generation * 4096 + slot, it
    does not wrap around the IPv4 space, and two different (slot, generation)
    pairs never get the same address. *)
Theorem floating_plan_sound c c' slot gen slot' gen' :
  is_u32 (cf_NumPorts c) → is_u8 (cf_GenerationBits c) → ip_ok (cf_FloatingIPBase c) →
  validateBase c = (c', Ok tt) →
  0 ≤ slot < cf_NumPorts c → 0 ≤ gen < 2 ^ cf_GenerationBits c →
  0 ≤ slot' < cf_NumPorts c → 0 ≤ gen' < 2 ^ cf_GenerationBits c →
  let base := IPToUint32 (cf_FloatingIPBase c) in
  let fip := FloatingIPForAttachment base in
  fip slot gen = base + gen * 4096 + slot ∧ is_u32 (fip slot gen) ∧
  (fip slot gen = fip slot' gen' → slot = slot' ∧ gen = gen').
Proof.
  intros Hn Hg Hip Hv Hs Hgen Hs' Hgen' base fip.
  unfold validateBase in Hv. injection Hv as <- Hv.
  assert (Hsame : cf_NumPorts (applyGeneveDefaults c) = cf_NumPorts c ∧
    cf_GenerationBits (applyGeneveDefaults c) = cf_GenerationBits c ∧
    cf_FloatingIPBase (applyGeneveDefaults c) = cf_FloatingIPBase c).
  { unfold applyGeneveDefaults. by destruct (_ =? 0). }
  destruct Hsame as (E1 & E2 & E3). apply validate_checks_ok in Hv; rewrite ?E1, ?E2, ?E3; [|done..].
  rewrite E1, E2, E3 in Hv. unfold MaxPorts in Hv. destruct Hv as (HN & _ & Hb & Hspan & _).
  pose proof (IPToUint32_range _ Hip) as Hbase. fold base in Hbase, Hspan.
  destruct (FloatingIP_plain base slot gen _ Hbase Hb Hspan ltac:(lia) Hgen) as [Hf Hlt].
  destruct (FloatingIP_plain base slot' gen' _ Hbase Hb Hspan ltac:(lia) Hgen') as [Hf' _].
  unfold fip. rewrite Hf, Hf'. unfold is_u32 in *. split; [done|]. split; [|lia].
  assert (0 ≤ gen * 4096) by lia. lia.
Qed.

Definition ex_config : Config :=
  MkConfig "sw0" "swns" "portns" 4096 [2; 0; 94; 10; 18; 52] (IPv4 100 64 0 0) 4
    [MkMgmtExtract "mgmt" "eth9" [MkIPNet (Some [169; 254; 169; 254]) [255; 255; 255; 255]]]
    [MkMgmtService (Some [169; 254; 169; 254]) 80 (Some [127; 0; 0; 1]) 19254]
    "" None None false 0 false 0 0 None false 0 mac_zero 0 false.

Lemma floating_plan_sound_witness :
  let fip := FloatingIPForAttachment (IPToUint32 (IPv4 100 64 0 0)) in
  fip 4095 15 = 1681915904 + 15 * 4096 + 4095 ∧ is_u32 (fip 4095 15) ∧
  (fip 4095 15 = fip 0 3 → 4095 = 0 ∧ 15 = 3).
Proof.
  apply (floating_plan_sound ex_config (applyGeneveDefaults ex_config) 4095 15 0 3);
    first [decide_true | vm_compute; reflexivity | simpl; lia].
Defined.

(** Wire ports of an accepted configuration.  Under the port locator each
    slot of the switch has its own UDP port, base + slot, inside 1..65535; under
    the other locators every slot uses the standard GENEVE port. *)
Lemma wire_port_plan c c' slot slot' :
  is_u32 (cf_NumPorts c) → is_u8 (cf_GenerationBits c) → ip_ok (cf_FloatingIPBase c) →
  is_u16 (cf_GenevePortBase c) →
  validateBase c = (c', Ok tt) → 0 ≤ slot < cf_NumPorts c' → 0 ≤ slot' < cf_NumPorts c' →
  let port := geneveWirePort (cf_GeneveLocator c') (cf_GenevePortBase c') in
  1 ≤ port slot ≤ 65535 ∧
  (if cf_GeneveLocator c' =? GeneveLocatorPort
   then port slot = cf_GenevePortBase c' + slot ∧ (port slot = port slot' → slot = slot')
   else port slot = GenevePort).
Proof.
  intros Hn Hg Hip Hbase Hv Hs Hs'. unfold validateBase in Hv. injection Hv as <- Hv.
  set (d := applyGeneveDefaults c) in *.
  assert (Hd : cf_NumPorts d = cf_NumPorts c ∧ cf_GenerationBits d = cf_GenerationBits c ∧
    cf_FloatingIPBase d = cf_FloatingIPBase c ∧ 1 ≤ cf_GenevePortBase d < 2 ^ 16).
  { unfold d, applyGeneveDefaults, is_u16 in *. destruct (cf_GenevePortBase c =? 0) eqn:E.
    - by split_and!.
    - split_and!; first [done | lia]. }
  destruct Hd as (E1 & E2 & E3 & Hpb).
  apply validate_checks_ok in Hv; rewrite ?E1, ?E2, ?E3; [|done..].
  rewrite E1 in Hv, Hs, Hs'. unfold MaxPorts in Hv.
  destruct Hv as (HN & _ & _ & _ & _ & Hgen & _).
  cbv zeta. unfold geneveWirePort, GeneveStandardPort, GenevePort.
  destruct (cf_GeneveLocator d =? GeneveLocatorPort) eqn:Eloc; [|lia].
  unfold validateGeneve in Hgen. destruct (negb (GeneveLocator_valid _)); [done|].
  rewrite Eloc in Hgen. apply guard_ok in Hgen as [_ Hgen]. cbv zeta in Hgen.
  apply guard_ok in Hgen as [Hlast _]. rewrite E1 in Hlast.
  unfold u32, u16 in *. rewrite (Z.mod_small (cf_GenevePortBase d + cf_NumPorts c)) in Hlast by lia.
  rewrite Z.mod_small in Hlast by lia.
  rewrite !(Z.mod_small (_ + slot)), !(Z.mod_small (_ + slot')) by (rewrite ?Z.mod_small; lia). lia.
Qed.

Lemma wire_port_plan_witness :
  let port := geneveWirePort 0 50000 in
  1 ≤ port 4095 ≤ 65535 ∧ port 4095 = 50000 + 4095 ∧ (port 4095 = port 0 → 4095 = 0).
Proof.
  apply (wire_port_plan ex_config (applyGeneveDefaults ex_config) 4095 0);
    first [decide_true | vm_compute; reflexivity | simpl; lia].
Defined.

(** ** Management services: unique targets *)
Definition target_key (s : MgmtService) : string * Z := (ip_string (ms_TargetIP s), ms_TargetPort s).
Definition vip_in_extracts (extracts : list MgmtExtract) (s : MgmtService) : Prop :=
  ∃ me sr, me ∈ extracts ∧ sr ∈ me_ServiceRoutes me ∧ net_contains sr (ms_VIP s) = true.

Lemma existsb_elem {A} (f : A → bool) l : existsb f l = true → ∃ x, x ∈ l ∧ f x = true.
Proof. intros (x & Hx & Hf)%existsb_exists. exists x. by rewrite list_elem_of_In. Qed.

Lemma validate_services_loop_ok extracts svcs : ∀ seen,
  validate_services_loop extracts seen svcs = Ok tt →
  NoDup (map target_key svcs) ∧ (∀ k, k ∈ map target_key svcs → seen !! k = None) ∧
  Forall (vip_in_extracts extracts) svcs.
Proof.
  induction svcs as [|svc svcs IH]; intros seen H; simpl in H.
  - split_and!; [constructor| |constructor]. intros k Hk. by apply elem_of_nil in Hk.
  - destruct (existsb _ extracts) eqn:Hin; [|done]. simpl in H. fold (target_key svc) in H.
    destruct (seen !! target_key svc) eqn:Hseen; [done|].
    apply IH in H as (Hnd & Hout & Hvip). split_and!; simpl.
    + constructor; [|done]. intros Hk%Hout. by rewrite lookup_insert_eq in Hk.
    + intros k [->|Hk]%elem_of_cons; [done|]. specialize (Hout k Hk).
      apply lookup_insert_None in Hout. tauto.
    + constructor; [|done]. apply existsb_elem in Hin as (me & Hme & Hin).
      apply existsb_elem in Hin as (sr & Hsr & Hc). by exists me, sr.
Qed.

(** *** Printed IPv4 addresses determine the address *)
Definition octet_ok (n : Z) : bool :=
  bool_decide (parse_octet 0 0 (fmt_u n) = Some n) && lacks "." (fmt_u n) && lacks ":" (fmt_u n).
Lemma octets_ok : forallb octet_ok (map Z.of_nat (seq 0 256)) = true.
Proof. vm_compute. reflexivity. Qed.
Lemma octet_parse n : is_u8 n →
  parse_octet 0 0 (fmt_u n) = Some n ∧ lacks "." (fmt_u n) = true ∧ lacks ":" (fmt_u n) = true.
Proof.
  intros Hn. pose proof octets_ok as H. rewrite forallb_forall in H.
  assert (In n (map Z.of_nat (seq 0 256))) as Hin.
  { apply in_map_iff. exists (Z.to_nat n). unfold is_u8 in Hn. rewrite in_seq. lia. }
  specialize (H n Hin).
  unfold octet_ok in H. apply andb_prop in H as [[H1 H2]%andb_prop H3].
  apply bool_decide_eq_true in H1. auto.
Qed.

Lemma fmt_v4_shape a b c d :
  fmt_v4 [a; b; c; d] = fmt_u a +:+ "." +:+ fmt_u b +:+ "." +:+ fmt_u c +:+ "." +:+ fmt_u d.
Proof. done. Qed.

Lemma parse_v4_fmt a b c d :
  is_u8 a → is_u8 b → is_u8 c → is_u8 d → parse_v4 (fmt_v4 [a; b; c; d]) = Some [a; b; c; d].
Proof.
  intros (Pa & La & _)%octet_parse (Pb & Lb & _)%octet_parse (Pc & Lc & _)%octet_parse (Pd & Ld & _)%octet_parse.
  rewrite fmt_v4_shape. unfold parse_v4. rewrite !split_on_sep, split_on_lacks by done.
  by rewrite Pa, Pb, Pc, Pd.
Qed.

Lemma ip_string_v4 a b c d : ip_string (Some [a; b; c; d]) = fmt_v4 [a; b; c; d].
Proof. done. Qed.

Lemma ip_string_inj l l' :
  length l = 4%nat → length l' = 4%nat → Forall is_u8 l → Forall is_u8 l' →
  ip_string (Some l) = ip_string (Some l') → l = l'.
Proof.
  intros H4 H4' Hl Hl'. destruct l as [|a [|b [|c [|d [|]]]]], l' as [|a' [|b' [|c' [|d' [|]]]]]; try done.
  rewrite !Forall_cons in Hl, Hl'. destruct Hl as (? & ? & ? & ? & _), Hl' as (? & ? & ? & ? & _).
  rewrite !ip_string_v4. intros Heq%(f_equal parse_v4). rewrite !parse_v4_fmt in Heq by done. congruence.
Qed.

(** ** Text round trip of a service *)
Lemma fmt_u_alnum n : all_chars is_alnum (fmt_u n) = true.
Proof. apply print_base_alnum; [lia|done]. Qed.

Lemma addr_mark_alnum s t : all_chars is_alnum s = true → addr_mark (s +:+ t) = addr_mark t.
Proof.
  induction s as [|c s IH]; simpl; [done|]. intros [Hc Hs]%andb_true_iff.
  change (String c s +:+ t) with (String c (s +:+ t)). cbn [addr_mark].
  rewrite bool_decide_false; [by apply IH|]. intros Hin.
  rewrite !elem_of_cons, elem_of_nil in Hin.
  destruct Hin as [->|[->|[->|[]]]]; vm_compute in Hc; done.
Qed.

Lemma parse_addr_fmt a b c d :
  is_u8 a → is_u8 b → is_u8 c → is_u8 d → parse_addr (fmt_v4 [a; b; c; d]) = Some [a; b; c; d].
Proof.
  intros. unfold parse_addr. rewrite fmt_v4_shape at 1.
  rewrite addr_mark_alnum by apply fmt_u_alnum. cbn [addr_mark].
  by rewrite parse_v4_fmt.
Qed.

Lemma To4_ParseIP_fmt a b c d :
  is_u8 a → is_u8 b → is_u8 c → is_u8 d → To4 (ParseIP (fmt_v4 [a; b; c; d])) = Some [a; b; c; d].
Proof. intros. unfold ParseIP. by rewrite parse_addr_fmt. Qed.

Lemma fmt_u_nonempty n : fmt_u n ≠ "".
Proof. apply print_base_nonempty. unfold print_fuel. lia. Qed.

Lemma atoi_fmt_u n : 0 ≤ n ≤ 2 ^ 63 - 1 → atoi (fmt_u n) = Ok n.
Proof.
  intros Hn. pose proof (fmt_u_alnum n) as Hal. pose proof (fmt_u_nonempty n) as Hne.
  assert (parse_digits 10 (2 ^ 64 - 1) 0 (fmt_u n) = inl n) as Hp.
  { unfold fmt_u, fmt_base. by rewrite parse_digits_fmt_base by lia. }
  destruct (fmt_u n) as [|c s]; [done|]. unfold atoi. cbn [all_chars] in Hal.
  apply andb_true_iff in Hal as [Hc _].
  assert (∀ k, digit_val (chr k) = None → 0 ≤ k < 256 → (byte_of c =? k) = false) as Hno.
  { intros k Hk Hr. apply Z.eqb_neq. intros <-. rewrite chr_byte_of in Hk.
    unfold is_alnum in Hc. by rewrite Hk in Hc. }
  rewrite !Hno by (done || lia). rewrite Hp. change (2 ^ 63) with 9223372036854775808 in *.
  by assert ((9223372036854775808 - 1 <? n) = false) as -> by lia.
Qed.

Definition v4_ok (ip : IP) : Prop :=
  match ip with Some l => length l = 4%nat ∧ Forall is_u8 l | None => False end.
Definition svc_ok (s : MgmtService) : Prop :=
  v4_ok (ms_VIP s) ∧ v4_ok (ms_TargetIP s) ∧ 1 ≤ ms_VPort s ≤ 65535 ∧ 1 ≤ ms_TargetPort s ≤ 65535.
#[export] Instance v4_ok_dec ip : Decision (v4_ok ip).
Proof. destruct ip; simpl; apply _. Defined.
#[export] Instance svc_ok_dec s : Decision (svc_ok s).
Proof. unfold svc_ok. apply _. Defined.

Lemma v4_ok_shape ip : v4_ok ip →
  ∃ a b c d, ip = Some [a; b; c; d] ∧ is_u8 a ∧ is_u8 b ∧ is_u8 c ∧ is_u8 d.
Proof.
  destruct ip as [l|]; [|done]. intros [H4 Hl].
  destruct l as [|a [|b [|c [|d [|]]]]]; try done. rewrite !Forall_cons in Hl. naive_solver.
Qed.

Lemma v4_text ip : v4_ok ip →
  lacks ":" (ip_string ip) = true ∧ ∀ what, parse_v4_addr what (ip_string ip) = Ok ip.
Proof.
  intros (a & b & c & d & -> & Ha & Hb & Hc & Hd)%v4_ok_shape. rewrite ip_string_v4. split.
  - rewrite fmt_v4_shape. unfold lacks. rewrite !all_chars_app.
    pose proof (octet_parse _ Ha) as (_ & _ & Fa). pose proof (octet_parse _ Hb) as (_ & _ & Fb).
    pose proof (octet_parse _ Hc) as (_ & _ & Fc). pose proof (octet_parse _ Hd) as (_ & _ & Fd).
    unfold lacks in *. by rewrite Fa, Fb, Fc, Fd.
  - intros what. unfold parse_v4_addr. by rewrite To4_ParseIP_fmt.
Qed.

Lemma parsePort_fmt p : 1 ≤ p ≤ 65535 → parsePort (fmt_u p) = Ok p.
Proof.
  intros Hp. unfold parsePort. rewrite atoi_fmt_u by lia.
  assert ((p <? 1) || (65535 <? p) = false) as -> by lia. by rewrite u16_small by (unfold is_u16; lia).
Qed.

Lemma MgmtService_parse_print s : svc_ok s → ParseMgmtService (MgmtService_String s) = Ok s.
Proof.
  intros (Hv & Ht & Hvp & Htp). unfold ParseMgmtService, MgmtService_String.
  destruct (v4_text _ Hv) as [Lv Pv], (v4_text _ Ht) as [Lt Pt].
  assert (∀ n, lacks ":" (fmt_u n) = true) as Ln by (intros; apply alnum_lacks; [done|apply fmt_u_alnum]).
  rewrite !split_on_sep, split_on_lacks by auto.
  rewrite Pv. cbn [res_bind]. rewrite parsePort_fmt by done. cbn [map_err res_bind].
  rewrite Pt. cbn [res_bind]. rewrite parsePort_fmt by done. cbn [map_err res_bind]. by destruct s.
Qed.

(** Text round trip of a management service: for IPv4 endpoints and ports
    in 1..65535, parsing the canonical form (which the metadata map stores)
    gives the service back. *)
Lemma MgmtService_roundtrip s : svc_ok s → ParseMgmtService (MgmtService_String s) = Ok s.
Proof. apply MgmtService_parse_print. Qed.

Definition ex_service : MgmtService :=
  MkMgmtService (Some [169; 254; 169; 254]) 80 (Some [127; 0; 0; 1]) 19254.

Lemma MgmtService_roundtrip_witness :
  MgmtService_String ex_service = "169.254.169.254:80:127.0.0.1:19254" ∧
  ParseMgmtService (MgmtService_String ex_service) = Ok ex_service.
Proof. split; [vm_compute; reflexivity|]. apply MgmtService_roundtrip. decide_true. Defined.

(** What the parser accepts is well formed. *)
Lemma parse_octet_range s : ∀ n v r, 0 ≤ v → parse_octet n v s = Some r → 0 ≤ r ≤ 255 ∨ (n ≠ O ∧ r = v).
Proof.
  induction s as [|c s IH]; intros n v r Hv; simpl.
  - case_bool_decide; [done|]. intros [= <-]. auto.
  - destruct (dec_digit c) as [d|] eqn:Ed; [|done]. destruct (_ && _); [done|].
    destruct (255 <? v * 10 + d) eqn:E; [done|]. intros H.
    assert (0 ≤ d).
    { unfold dec_digit in Ed. destruct (digit_val c) eqn:Edv; [|done].
      apply digit_val_nonneg in Edv. destruct (_ <? 10); by simplify_eq. }
    apply IH in H as [H|[_ ->]]; [by left|left; lia|lia].
Qed.
