(* ===== verification/Maps.v ===== *)
(** * The pinned BPF maps as state

    [maps_state] is the contents of the pinned maps; [tables_sem] is a
    sequential semantics over the slot table and these maps together: an
    update that returns nil stores the value, a lookup that returns nil
    delivers the stored value, a failed call changes nothing, and every other
    kernel call may answer anything. *)
From S2P Require Import Prelude Errors GoStrings GoNet BpfTypes Prog.

Record maps_state := MkMaps {
  m_config : gmap Z SwitchConfig;
  m_metadata : gmap Z (list Z);
  m_stats : gmap Z SlotStats;
  m_ifindex : gmap Z Z;
  m_opts : gmap Z GeneveOptsValue;
  m_fwd : gmap SvcKey SvcVal;
  m_rev : gmap SvcKey SvcVal;
}.
Definition maps_empty : maps_state := MkMaps ∅ ∅ ∅ ∅ ∅ ∅ ∅.

Definition bget {K V} (m : bmap K V) (s : maps_state) : K → option V :=
  match m in bmap K V return K → option V with
  | MConfig => λ k, m_config s !! k
  | MMetadata => λ k, m_metadata s !! k
  | MStats => λ k, m_stats s !! k
  | MIfindexToSlot => λ k, m_ifindex s !! k
  | MGeneveOpts => λ k, m_opts s !! k
  | MMgmtSvcFwd => λ k, m_fwd s !! k
  | MMgmtSvcRev => λ k, m_rev s !! k
  end.

(** Store ([Some v]) or delete ([None]) one entry. *)
Definition bput {K V} (m : bmap K V) (s : maps_state) : K → option V → maps_state :=
  let '(MkMaps c d t i o f r) := s in
  match m in bmap K V return K → option V → maps_state with
  | MConfig => λ k v, MkMaps (partial_alter (λ _, v) k c) d t i o f r
  | MMetadata => λ k v, MkMaps c (partial_alter (λ _, v) k d) t i o f r
  | MStats => λ k v, MkMaps c d (partial_alter (λ _, v) k t) i o f r
  | MIfindexToSlot => λ k v, MkMaps c d t (partial_alter (λ _, v) k i) o f r
  | MGeneveOpts => λ k v, MkMaps c d t i (partial_alter (λ _, v) k o) f r
  | MMgmtSvcFwd => λ k v, MkMaps c d t i o (partial_alter (λ _, v) k f) r
  | MMgmtSvcRev => λ k v, MkMaps c d t i o f (partial_alter (λ _, v) k r)
  end.

Definition tables : Type := list SlotItem * maps_state.

Definition map_step {B} (q : kev B) (s : maps_state) (b : B) (s' : maps_state) : Prop :=
  match q in kev B return B → Prop with
  | MapUpdate m k v _ => λ b,
      match b with inl _ => s' = bput m s k (Some v) | inr _ => s' = s end
  | MapLookup m k _ => λ b,
      s' = s ∧ match b with inl v => bget m s k = Some v | inr _ => True end
  | MapDelete m k => λ b,
      match b with inl _ => s' = bput m s k None | inr _ => s' = s end
  | _ => λ _, s' = s
  end b.

Definition tables_sem : sem tables :=
  MkSem
    (λ B e t, match e with EKern _ => True | _ => is_Some (mem_step e (fst t)) end)
    (λ B e t b t',
       match e in ev B return B → Prop with
       | EKern q => λ b, fst t' = fst t ∧ map_step q (snd t) b (snd t')
       | e => λ b, mem_step e (fst t) = Some (b, fst t') ∧ snd t' = snd t
       end b).

(** ** Rules *)
Lemma wp_map_update {K V} (m : bmap K V) k v lk (Q : res unit → tables → Prop) t :
  Q (Ok tt) (fst t, bput m (snd t) k (Some v)) → (∀ e, Q (Err e) t) →
  wp tables_sem (call (MapUpdate m k v lk)) Q t.
Proof.
  intros Hok Herr. apply wp_call; [done| |].
  - intros [] [s' m']; simpl; intros [-> ->]; auto.
  - intros e [s' m']; simpl; intros [-> ->]; rewrite <- surjective_pairing; auto.
Qed.
Lemma wp_map_lookup {K V} (m : bmap K V) k lk (Q : res V → tables → Prop) t :
  (∀ v, bget m (snd t) k = Some v → Q (Ok v) t) → (∀ e, Q (Err e) t) →
  wp tables_sem (call (MapLookup m k lk)) Q t.
Proof.
  intros Hok Herr. apply wp_call; [done| |];
    intros x [s' m']; simpl; intros [-> [-> Hv]]; rewrite <- surjective_pairing; auto.
Qed.
Lemma wp_map_delete {K V} (m : bmap K V) k (Q : res unit → tables → Prop) t :
  Q (Ok tt) (fst t, bput m (snd t) k None) → (∀ e, Q (Err e) t) →
  wp tables_sem (call (MapDelete m k)) Q t.
Proof.
  intros Hok Herr. apply wp_call; [done| |].
  - intros [] [s' m']; simpl; intros [-> ->]; auto.
  - intros e [s' m']; simpl; intros [-> ->]; rewrite <- surjective_pairing; auto.
Qed.

Lemma bget_bput {K V} `{EqDecision K} (m : bmap K V) s k v k' :
  bget m (bput m s k v) k' = if decide (k' = k) then v else bget m s k'.
Proof.
  destruct s, m; simpl; (destruct (decide (k' = k)) as [->|Hne];
    [by rewrite lookup_partial_alter_eq | by rewrite lookup_partial_alter_ne by congruence]).
Qed.

Definition bmap_id {K V} (m : bmap K V) : nat :=
  match m with
  | MConfig => 0 | MMetadata => 1 | MStats => 2 | MIfindexToSlot => 3
  | MGeneveOpts => 4 | MMgmtSvcFwd => 5 | MMgmtSvcRev => 6
  end%nat.
Lemma bget_bput_other {K V K' V'} (m : bmap K V) (m' : bmap K' V') s k v k' :
  bmap_id m ≠ bmap_id m' → bget m' (bput m s k v) k' = bget m' s k'.
Proof. by destruct s, m, m'. Qed.

(** A program on the slot table alone leaves the maps as they are. *)
Fixpoint slots_only {A} (p : prog A) : Prop :=
  match p with
  | Ret _ => True
  | Vis e k => (match e with EKern _ => False | _ => True end) ∧ ∀ b, slots_only (k b)
  end.
Lemma wp_tables_slots_only {A} (p : prog A) (Q : A → list SlotItem → Prop) t :
  slots_only p → wp alone p Q (fst t) → wp tables_sem p (λ a t', Q a (fst t') ∧ snd t' = snd t) t.
Proof.
  destruct t as [s m]. simpl. revert s. induction p as [a|B e k IH]; simpl; intros s Hp; [auto|].
  destruct Hp as [He Hk]. intros [Hok Hstep]. specialize (Hok _ eq_refl).
  destruct e; try done; (split; [done|]); intros b [s' m']; simpl; intros [E ->];
    (apply IH; [done|]); apply Hstep; eauto.
Qed.
