(* ===== verification/MgmtService.v ===== *)
(** * Management-service NAT maps: pkg/vswitch/mgmt_service.go *)
From S2P Require Import Prelude Errors GoStrings GoNet BpfTypes Mac Geneve Prog Maps Config.

Definition svcProtoTCP : Z := 6.
Definition svcProtoUDP : Z := 17.
Definition svcProtos : list Z := [svcProtoTCP; svcProtoUDP].

Record MgmtServiceInfo := MkMgmtServiceInfo {
  msi_VIP : string; msi_VPort : Z; msi_TargetIP : string; msi_TargetPort : Z; msi_Protocols : string;
}.
Definition toInfo (s : MgmtService) : MgmtServiceInfo :=
  MkMgmtServiceInfo (ip_string (ms_VIP s)) (ms_VPort s) (ip_string (ms_TargetIP s)) (ms_TargetPort s) "tcp,udp".
Definition MgmtServiceInfos (svcs : list MgmtService) : list MgmtServiceInfo := map toInfo svcs.

(** Malformed entries are skipped. *)
Fixpoint MgmtServiceInfosFromStrings (ss : list string) : list MgmtServiceInfo :=
  match ss with
  | [] => []
  | s :: ss =>
      match ParseMgmtService s with
      | Ok svc => toInfo svc :: MgmtServiceInfosFromStrings ss
      | _ => MgmtServiceInfosFromStrings ss
      end
  end.

Definition fwd_entry (svc : MgmtService) (proto : Z) : SvcKey * SvcVal :=
  (MkSvcKey (IPToUint32 (ms_VIP svc)) (ms_VPort svc) proto,
   MkSvcVal (IPToUint32 (ms_TargetIP svc)) (ms_TargetPort svc)).
Definition rev_entry (svc : MgmtService) (proto : Z) : SvcKey * SvcVal :=
  (MkSvcKey (IPToUint32 (ms_TargetIP svc)) (ms_TargetPort svc) proto,
   MkSvcVal (IPToUint32 (ms_VIP svc)) (ms_VPort svc)).

Fixpoint write_protos (svc : MgmtService) (protos : list Z) : M unit :=
  match protos with
  | [] => mok tt
  | proto :: protos =>
      let ctx dir e := errorw ("write mgmt-service " +:+ dir +:+ " " +:+ MgmtService_String svc
                               +:+ " proto=" +:+ fmt_u proto +:+ ": ") e "" in
      let* _ := mwrap (ctx "fwd") (call (MapUpdate MMgmtSvcFwd (fst (fwd_entry svc proto))
                                           (snd (fwd_entry svc proto)) false)) in
      let* _ := mwrap (ctx "rev") (call (MapUpdate MMgmtSvcRev (fst (rev_entry svc proto))
                                           (snd (rev_entry svc proto)) false)) in
      write_protos svc protos
  end.
Fixpoint WriteMgmtServices (services : list MgmtService) : M unit :=
  match services with
  | [] => mok tt
  | svc :: services => let* _ := write_protos svc svcProtos in WriteMgmtServices services
  end.

(** The entries a run leaves, in the order they are written. *)
Definition put_entries {K V} (m : bmap K V) (s : maps_state) (l : list (K * V)) : maps_state :=
  fold_left (λ s e, bput m s (fst e) (Some (snd e))) l s.
Definition put_svc (s : maps_state) (e : MgmtService * Z) : maps_state :=
  let s := bput MMgmtSvcFwd s (fst (fwd_entry (fst e) (snd e))) (Some (snd (fwd_entry (fst e) (snd e)))) in
  bput MMgmtSvcRev s (fst (rev_entry (fst e) (snd e))) (Some (snd (rev_entry (fst e) (snd e)))).

Lemma wp_write_protos svc protos (Q : res unit → tables → Prop) : ∀ t,
  Q (Ok tt) (fst t, fold_left put_svc (map (pair svc) protos) (snd t)) →
  (∀ r t', is_ok r = false → Q r t') →
  wp tables_sem (write_protos svc protos) Q t.
Proof.
  induction protos as [|proto protos IH]; intros t HQ Herr.
  - simpl in *. by rewrite <- surjective_pairing in HQ.
  - cbn [write_protos]. apply wp_mbind, wp_mwrap, wp_map_update.
    2:{ intros e. cbn [map_err]. by apply Herr. }
    cbn [map_err]. apply wp_mbind, wp_mwrap, wp_map_update.
    2:{ intros e. cbn [map_err]. by apply Herr. }
    cbn [map_err]. apply IH; auto.
Qed.

Lemma wp_WriteMgmtServices svcs (Q : res unit → tables → Prop) : ∀ t,
  Q (Ok tt) (fst t, fold_left put_svc (svc ← svcs; map (pair svc) svcProtos) (snd t)) →
  (∀ r t', is_ok r = false → Q r t') →
  wp tables_sem (WriteMgmtServices svcs) Q t.
Proof.
  induction svcs as [|svc svcs IH]; intros t HQ Herr.
  - simpl in *. by rewrite <- surjective_pairing in HQ.
  - cbn [WriteMgmtServices]. apply wp_mbind, wp_write_protos; [|intros [] t' ?; try done; auto].
    apply IH; [|done]. by rewrite bind_cons, fold_left_app in HQ.
Qed.

(** After the fold, an entry written last under its key is there. *)
Lemma rev_after_fold l : ∀ s e,
  e ∈ l →
  (∀ e', e' ∈ l → fst (rev_entry (fst e') (snd e')) = fst (rev_entry (fst e) (snd e)) →
     rev_entry (fst e') (snd e') = rev_entry (fst e) (snd e)) →
  bget MMgmtSvcRev (fold_left put_svc l s) (fst (rev_entry (fst e) (snd e))) =
    Some (snd (rev_entry (fst e) (snd e))).
Proof.
  induction l as [|x l IH] using rev_ind; intros s e He Huniq; [by apply elem_of_nil in He|].
  rewrite fold_left_app. cbn [fold_left]. unfold put_svc at 1. rewrite bget_bput.
  destruct (decide _) as [Heq|Hne].
  - f_equal. symmetry in Heq. apply Huniq in Heq; [|set_solver]. by rewrite Heq.
  - rewrite bget_bput_other by (simpl; lia). apply IH.
    + apply elem_of_app in He as [He|He]; [done|]. apply list_elem_of_singleton in He as ->. done.
    + intros e' He'. apply Huniq. set_solver.
Qed.

Lemma be32_inj a b c d a' b' c' d' :
  is_u8 a → is_u8 b → is_u8 c → is_u8 d → is_u8 a' → is_u8 b' → is_u8 c' → is_u8 d' →
  be32 a b c d = be32 a' b' c' d' → [a; b; c; d] = [a'; b'; c'; d'].
Proof. intros. rewrite !be32_add in * by done. unfold is_u8 in *. assert (a = a' ∧ b = b' ∧ c = c' ∧ d = d') as (->&->&->&->) by lia. done. Qed.

Lemma IPToUint32_v4_inj ip ip' : v4_ok ip → v4_ok ip' → IPToUint32 ip = IPToUint32 ip' → ip = ip'.
Proof.
  intros (a & b & c & d & -> & ? & ? & ? & ?)%v4_ok_shape (a' & b' & c' & d' & -> & ? & ? & ? & ?)%v4_ok_shape.
  unfold IPToUint32. simpl. intros Heq. f_equal. by apply be32_inj.
Qed.

(** What a successful write leaves under the key of a service's target. *)
Lemma rev_entry_written c svc proto s :
  validateMgmtServices c = Ok tt → Forall svc_ok (cf_MgmtServices c) →
  svc ∈ cf_MgmtServices c → proto ∈ svcProtos →
  bget MMgmtSvcRev (fold_left put_svc (svc ← cf_MgmtServices c; map (pair svc) svcProtos) s) (fst (rev_entry svc proto)) =
    Some (snd (rev_entry svc proto)).
Proof.
  intros Hval Hok Hsvc Hproto.
  assert (Hnd : NoDup (map target_key (cf_MgmtServices c))).
  { unfold validateMgmtServices in Hval. case_bool_decide as Hnil; [rewrite Hnil; by apply NoDup_nil|].
    case_bool_decide; [done|]. by apply validate_services_loop_ok in Hval as [? _]. }
  apply (rev_after_fold _ _ (svc, proto)).
  - apply list_elem_of_bind. exists svc. split; [|done]. by apply list_elem_of_fmap_2.
  - intros [svc' proto'] (x & Hx & Hx')%list_elem_of_bind Hkey.
    apply list_elem_of_fmap in Hx as (p & [= <- <-] & Hp).
    unfold rev_entry in Hkey. cbn [fst snd] in Hkey. injection Hkey as Hip Hport ->.
    assert (svc' = svc) as ->; [|done].
    rewrite Forall_forall in Hok. destruct (Hok _ Hx') as (_ & Hv' & _), (Hok _ Hsvc) as (_ & Hv & _).
    apply IPToUint32_v4_inj in Hip; [|done..].
    apply list_elem_of_lookup in Hx' as [i Hi], Hsvc as [j Hj].
    assert (i = j) as ->; [|congruence].
    eapply (NoDup_lookup _ _ _ (target_key svc) Hnd).
    + change (map target_key) with (fmap target_key : list _ → list _).
      rewrite list_lookup_fmap, Hi. simpl. unfold target_key. by rewrite Hip, Hport.
    + change (map target_key) with (fmap target_key : list _ → list _). by rewrite list_lookup_fmap, Hj.
Qed.
(** Forward entries come from the services. *)
Lemma fwd_after_fold l : ∀ s k v,
  bget MMgmtSvcFwd (fold_left put_svc l s) k = Some v →
  bget MMgmtSvcFwd s k = Some v ∨ ∃ e, e ∈ l ∧ fwd_entry (fst e) (snd e) = (k, v).
Proof.
  induction l as [|x l IH] using rev_ind; intros s k v; [by left|]. rewrite fold_left_app. cbn [fold_left]. unfold put_svc at 1.
  rewrite bget_bput_other by (simpl; lia). rewrite bget_bput. destruct (decide _) as [Heq|Hne].
  - intros [= <-]. right. exists x. split; [set_solver|]. by rewrite Heq.
  - intros [?|(e & He & E)]%IH; [by left|right]. exists e. split; [set_solver|done].
Qed.

(** Every target is led back to the service it stands for. *)
Definition services_inverse (m : maps_state) : Prop :=
  ∀ k v, m_fwd m !! k = Some v → m_rev m !! MkSvcKey (sv_Ip v) (sv_Port v) (sk_Proto k) = Some (MkSvcVal (sk_Ip k) (sk_Port k)).
Lemma services_inverse_written c t :
  validateMgmtServices c = Ok tt → Forall svc_ok (cf_MgmtServices c) → m_fwd (snd t) = ∅ →
  wp tables_sem (WriteMgmtServices (cf_MgmtServices c)) (λ r t', is_ok r = true → services_inverse (snd t')) t.
Proof.
  intros Hval Hok Hempty. apply wp_WriteMgmtServices; [|by intros r t' -> ]. intros _ k v Hk. cbn [snd] in *.
  apply (fwd_after_fold _ _ k v) in Hk as [Hk|([svc proto] & He & E)].
  - cbn [bget] in Hk. by rewrite Hempty, lookup_empty in Hk.
  - apply list_elem_of_bind in He as (x & Hx & Hx'). apply list_elem_of_fmap in Hx as (p & [= -> ->] & Hp).
    injection E as <- <-. exact (rev_entry_written c x p (snd t) Hval Hok Hx' Hp).
Qed.

(** The reverse NAT map resolves every service.  When the validation
    accepted the services (IPv4 endpoints) and [WriteMgmtServices] reports
    success, then for each service and each of TCP and UDP the reverse map sends
    (target IP, target port, protocol) to that service's VIP and port, whatever
    the maps held before and in whatever order the services are listed. *)
Theorem rev_map_resolves c svc proto t :
  validateMgmtServices c = Ok tt → Forall svc_ok (cf_MgmtServices c) →
  svc ∈ cf_MgmtServices c → proto ∈ svcProtos →
  wp tables_sem (WriteMgmtServices (cf_MgmtServices c)) (λ r t',
    is_ok r = true →
    bget MMgmtSvcRev (snd t') (MkSvcKey (IPToUint32 (ms_TargetIP svc)) (ms_TargetPort svc) proto) =
      Some (MkSvcVal (IPToUint32 (ms_VIP svc)) (ms_VPort svc))) t.
Proof.
  intros Hval Hok Hsvc Hproto. apply wp_WriteMgmtServices; [|by intros r t' -> ].
  intros _. by apply rev_entry_written.
Qed.

Lemma rev_map_resolves_witness :
  wp tables_sem (WriteMgmtServices (cf_MgmtServices ex_config)) (λ r t',
    is_ok r = true →
    bget MMgmtSvcRev (snd t') (MkSvcKey (IPToUint32 (ms_TargetIP ex_service)) (ms_TargetPort ex_service) 17) =
      Some (MkSvcVal (IPToUint32 (ms_VIP ex_service)) (ms_VPort ex_service))) ([], maps_empty).
Proof.
  apply (rev_map_resolves ex_config ex_service 17).
  - vm_compute. reflexivity.
  - decide_true.
  - by left.
  - right. by left.
Defined.
