(* ===== verification/Bindings.v ===== *)
(** * The generated bindings: pkg/internal/bpf/vswitch_x86_bpfel.go

    bpf2go writes one file per architecture, with the same functions.  Parsing
    the embedded object file and loading a collection into the kernel are the
    ebpf package's ([LoadSpec], [LoadAndAssign]).  A program or map is the handle
    the package returns. *)
From S2P Require Import Prelude Errors GoStrings GoNet BpfTypes Prog.

Record vswitchPrograms := MkVswitchPrograms { TcIngressMx : Z; TcIngressNx : Z; TcIngressTransit : Z }.
Record vswitchMaps := MkVswitchMaps {
  vm_Config : Z; vm_GeneveOpts : Z; vm_IfindexToSlot : Z; vm_Metadata : Z;
  vm_MgmtSvcFwd : Z; vm_MgmtSvcRev : Z; vm_Slots : Z; vm_Stats : Z;
}.
Record vswitchObjects := MkVswitchObjects { vo_Programs : vswitchPrograms; vo_Maps : vswitchMaps }.

Definition loadVswitch : M Z := mwrap (λ e, errorw "can't load vswitch: " e "") (call LoadSpec).
(** [spec.LoadAndAssign] fills the fields by their tags. *)
Definition assign_objects (r : (Z * Z * Z) * (Z * Z * Z * Z * Z * Z * Z * Z)) : vswitchObjects :=
  let '((nx, mx, tr), (sl, cf, st, ix, go, md, fw, rv)) := r in
  MkVswitchObjects (MkVswitchPrograms mx nx tr) (MkVswitchMaps cf go ix md fw rv sl st).
Definition LoadAndAssignObjects (spec : Z) : M vswitchObjects :=
  let* r := call (LoadAndAssign spec) in mok (assign_objects r).
Definition loadVswitchObjects : M vswitchObjects := let* spec := loadVswitch in LoadAndAssignObjects spec.

(** Close one after the other, up to the first error. *)
Fixpoint VswitchClose (closers : list (M unit)) : M unit :=
  match closers with
  | [] => mok tt
  | closer :: closers => let* _ := closer in VswitchClose closers
  end.
Definition vswitchPrograms_Close (p : vswitchPrograms) : M unit :=
  VswitchClose (map (λ x, call (CloseProg x)) [TcIngressMx p; TcIngressNx p; TcIngressTransit p]).
Definition maps_of (m : vswitchMaps) : list Z :=
  [vm_Config m; vm_GeneveOpts m; vm_IfindexToSlot m; vm_Metadata m; vm_MgmtSvcFwd m; vm_MgmtSvcRev m; vm_Slots m; vm_Stats m].
Definition vswitchMaps_Close (m : vswitchMaps) : M unit := VswitchClose (map (λ x, call (CloseMap x)) (maps_of m)).
Definition vswitchObjects_Close (o : vswitchObjects) : M unit :=
  VswitchClose [vswitchPrograms_Close (vo_Programs o); vswitchMaps_Close (vo_Maps o)].

Lemma loadVswitch_kern_ret : kern_ret loadVswitch.
Proof. unfold loadVswitch. kern_ret. Qed.
#[export] Hint Resolve loadVswitch_kern_ret : kern_ret.
