(* ===== verification/Loader.v ===== *)
(** * Loading and pinning the BPF objects: pkg/internal/bpf/loader.go

    A map or program is the handle the package returns; [None] is a nil
    pointer. *)
From S2P Require Import Prelude Errors GoStrings GoNet BpfTypes Prog Bindings.

Definition BPFPath : string := "/sys/fs/bpf".
Definition BPF_FS_MAGIC : Z := 3405662737.

Record Programs := MkPrograms { pg_IngressNX : Z; pg_IngressMX : Z; pg_IngressTransit : Z }.
Record BpfMaps := MkBpfMaps {
  mp_Slots : option Z; mp_Config : option Z; mp_Stats : option Z; mp_IfindexToSlot : option Z;
  mp_GeneveOpts : option Z; mp_Metadata : option Z; mp_MgmtSvcFwd : option Z; mp_MgmtSvcRev : option Z;
}.
Record Objects := MkObjects { ob_Programs : Programs; ob_Maps : BpfMaps }.

(** [errors.Join] of the errors of a list of closes; nil entries are dropped. *)
Fixpoint close_all (l : list (option Z)) (errs : list error) : prog (list error) :=
  match l with
  | [] => Ret errs
  | None :: l => close_all l errs
  | Some m :: l =>
      let~ r := call (CloseMap m) in
      close_all l (match r with Err e => errs ++ [e] | _ => errs end)
  end.
Definition errors_join (errs : list error) : res unit :=
  match errs with
  | [] => Ok tt
  | _ => Err (MkError (join (str1 10) (map emsg errs)) (concat (map ekinds errs)))
  end.

Definition maps_list (m : BpfMaps) : list (option Z) :=
  [mp_Slots m; mp_Config m; mp_Stats m; mp_IfindexToSlot m; mp_GeneveOpts m; mp_Metadata m;
   mp_MgmtSvcFwd m; mp_MgmtSvcRev m].
Definition Maps_Close (m : BpfMaps) : M unit :=
  let~ errs := close_all (maps_list m) [] in mpure (errors_join errs).

Fixpoint close_progs (l : list Z) (errs : list error) : prog (list error) :=
  match l with
  | [] => Ret errs
  | p :: l =>
      let~ r := call (CloseProg p) in
      close_progs l (match r with Err e => errs ++ [e] | _ => errs end)
  end.
Definition programs_list (p : Programs) : list Z := [pg_IngressNX p; pg_IngressMX p; pg_IngressTransit p].
Definition Programs_Close (p : Programs) : M unit :=
  let~ errs := close_progs (programs_list p) [] in mpure (errors_join errs).

Definition Objects_Close (o : Objects) : M unit :=
  let~ errs := close_progs (programs_list (ob_Programs o)) [] in
  let~ r := Maps_Close (ob_Maps o) in
  mpure (errors_join (errs ++ match r with Err e => [e] | _ => [] end)).

Definition LoadObjects : M Objects :=
  let* spec := mwrap (λ e, errorw "failed to load BPF spec: " e "") loadVswitch in
  let* objs := mwrap (λ e, errorw "failed to load BPF objects: " e "") (LoadAndAssignObjects spec) in
  let '(MkVswitchObjects p m) := objs in
  mok (MkObjects (MkPrograms (TcIngressNx p) (TcIngressMx p) (TcIngressTransit p))
         (MkBpfMaps (Some (vm_Slots m)) (Some (vm_Config m)) (Some (vm_Stats m)) (Some (vm_IfindexToSlot m))
            (Some (vm_GeneveOpts m)) (Some (vm_Metadata m)) (Some (vm_MgmtSvcFwd m)) (Some (vm_MgmtSvcRev m)))).

Definition EnsureBPFFS : M unit :=
  let~ st := call (Statfs BPFPath) in
  match st with
  | Ok magic =>
      if magic =? BPF_FS_MAGIC then mok tt
      else
        let* _ := mwrap (λ e, errorw ("failed to create " +:+ BPFPath +:+ ": ") e "") (call (OsMkdirAll BPFPath)) in
        mwrap (λ e, errorw ("failed to mount bpffs at " +:+ BPFPath +:+ ": ") e "") (call (Mount "bpffs" BPFPath "bpf"))
  | _ =>
      let* _ := mwrap (λ e, errorw ("failed to create " +:+ BPFPath +:+ ": ") e "") (call (OsMkdirAll BPFPath)) in
      mwrap (λ e, errorw ("failed to mount bpffs at " +:+ BPFPath +:+ ": ") e "") (call (Mount "bpffs" BPFPath "bpf"))
  end.

Definition pin_path (switchName file : string) : string := path_join [path_join [BPFPath; switchName]; file].

(** Pin the maps in the order of the source, stopping at the first error. *)
Fixpoint pin_all (switchName : string) (l : list (option Z * string)) : M unit :=
  match l with
  | [] => mok tt
  | (m, file) :: l =>
      deref m (λ m,
        let* _ := mwrap (λ e, errorw ("failed to pin " +:+ file +:+ " map: ") e "")
                        (call (PinMap m (pin_path switchName file))) in
        pin_all switchName l)
  end.
Definition PinMaps (o : Objects) (switchName : string) : M unit :=
  let m := ob_Maps o in
  pin_all switchName
    [(mp_Slots m, "slots_v2"); (mp_Config m, "config"); (mp_Stats m, "stats");
     (mp_IfindexToSlot m, "ifindex_to_slot"); (mp_GeneveOpts m, "geneve_opts");
     (mp_Metadata m, "metadata"); (mp_MgmtSvcFwd m, "mgmt_svc_fwd"); (mp_MgmtSvcRev m, "mgmt_svc_rev")].

Definition UnpinMaps (switchName : string) : M unit :=
  call (OsRemoveAll (path_join [BPFPath; switchName])).

(** Load one required map; on failure close the ones opened so far. *)
Definition load_or_close {A} (switchName : string) (opened : list Z) (file : string)
    (k : Z → M A) : M A :=
  let~ r := call (LoadPinnedMap (pin_path switchName file)) in
  match r with
  | Ok m => k m
  | Err e =>
      let~ _ := close_all (map Some opened) [] in
      merr (errorw ("failed to load " +:+ file +:+ " map: ") e "")
  | Panic => mpanic
  | OutOfFuel => Ret OutOfFuel
  end.

Definition LoadPinnedMaps (switchName : string) : M BpfMaps :=
  let~ r := call (LoadPinnedMap (pin_path switchName "slots_v2")) in
  let slotsV2 := is_ok r in
  let~ r := match r with
            | Err e => if errors_is e OsErrNotExist
                       then call (LoadPinnedMap (pin_path switchName "slots")) else Ret r
            | _ => Ret r
            end in
  let* slots := mpure (map_err (λ e, errorw "failed to load slots map: " e "") r) in
  load_or_close switchName [slots] "config" (λ config,
  load_or_close switchName [slots; config] "stats" (λ stats,
  load_or_close switchName [slots; config; stats] "ifindex_to_slot" (λ ifindexToSlot,
  load_or_close switchName [slots; config; stats; ifindexToSlot] "metadata" (λ metadata,
  load_or_close switchName [slots; config; stats; ifindexToSlot; metadata] "mgmt_svc_fwd" (λ fwd,
  load_or_close switchName [slots; config; stats; ifindexToSlot; metadata; fwd] "mgmt_svc_rev" (λ rev,
  let~ r := call (LoadPinnedMap (pin_path switchName "geneve_opts")) in
  let done opts := mok (MkBpfMaps (Some slots) (Some config) (Some stats) (Some ifindexToSlot) opts
                          (Some metadata) (Some fwd) (Some rev)) in
  match r with
  | Ok m => done (Some m)
  | Err e =>
      if slotsV2 || negb (errors_is e OsErrNotExist) then
        let~ _ := close_all (map Some [slots; config; stats; ifindexToSlot; metadata; fwd; rev]) [] in
        merr (errorw "failed to load geneve_opts map: " e "")
      else done None
  | Panic => mpanic
  | OutOfFuel => Ret OutOfFuel
  end)))))).

Definition PinPathExists (switchName : string) : M bool :=
  let pinPath := path_join [BPFPath; switchName] in
  let~ r := call (OsStat pinPath) in
  match r with
  | Err e => if errors_is e OsErrNotExist then mok false
             else merr (errorw ("stat " +:+ pinPath +:+ ": ") e "")
  | Ok isDir => if isDir then mok true else merr (errorf (pinPath +:+ " is not a directory"))
  | Panic => mpanic
  | OutOfFuel => Ret OutOfFuel
  end.

(** ** None of it touches the slot table *)
Lemma close_all_kern_only l errs : kern_only (close_all l errs).
Proof. revert errs. induction l as [|[m|] l IH]; intros errs; cbn [close_all]; [done| |by apply IH]. kern_only. Qed.
#[export] Hint Resolve close_all_kern_only : kern_only.
Lemma errors_join_kern_ret l : kern_ret (mpure (errors_join l)).
Proof. by destruct l. Qed.
#[export] Hint Resolve errors_join_kern_ret : kern_ret.
Lemma Maps_Close_kern_ret m : kern_ret (Maps_Close m).
Proof. unfold Maps_Close. kern_ret. Qed.
Lemma load_or_close_kern_ret {A} n o f (k : Z → M A) :
  (∀ m, kern_ret (k m)) → kern_ret (load_or_close n o f k).
Proof. intros Hk. unfold load_or_close. kern_ret. Qed.
#[export] Hint Extern 1 (kern_ret (load_or_close _ _ _ _)) =>
  apply load_or_close_kern_ret; kern_ret : kern_ret.
Lemma LoadPinnedMaps_kern_ret n : kern_ret (LoadPinnedMaps n).
Proof. unfold LoadPinnedMaps. kern_ret. Qed.
Lemma PinPathExists_kern_ret n : kern_ret (PinPathExists n).
Proof. unfold PinPathExists. kern_ret. Qed.
Lemma EnsureBPFFS_kern_ret : kern_ret EnsureBPFFS.
Proof. unfold EnsureBPFFS. kern_ret. Qed.
Lemma UnpinMaps_kern_ret n : kern_ret (UnpinMaps n).
Proof. unfold UnpinMaps. kern_ret. Qed.
#[export] Hint Resolve Maps_Close_kern_ret LoadPinnedMaps_kern_ret PinPathExists_kern_ret EnsureBPFFS_kern_ret UnpinMaps_kern_ret : kern_ret.

(** ** Map handles are not leaked

    [fd_sem] tracks the map handles that are open: loading opens a fresh one,
    closing closes one (also when it reports an error). *)
Definition fd_sem : sem (gset Z) :=
  MkSem (λ _ _ _, True)
    (λ B e s b s',
       match e in ev B return B → Prop with
       | EKern q =>
           match q in kev B return B → Prop with
           | LoadPinnedMap _ => λ b, match b with inl m => m ∉ s ∧ s' = {[ m ]} ∪ s | inr _ => s' = s end
           | CloseMap m => λ _, s' = s ∖ {[ m ]}
           | _ => λ _, s' = s
           end
       | _ => λ _, s' = s
       end b).

Lemma wp_fd_load path (Q : res Z → gset Z → Prop) s :
  (∀ m, m ∉ s → Q (Ok m) ({[ m ]} ∪ s)) → (∀ e, Q (Err e) s) →
  wp fd_sem (call (LoadPinnedMap path)) Q s.
Proof.
  intros Hok Herr. apply wp_call; [done| |].
  - intros m s' [Hm ->]. by apply Hok.
  - intros e s' ->. apply Herr.
Qed.

Lemma wp_fd_close_all l : ∀ errs (Q : list error → gset Z → Prop) s,
  (∀ errs', Q errs' (s ∖ list_to_set l)) → wp fd_sem (close_all (map Some l) errs) Q s.
Proof.
  induction l as [|m l IH]; intros errs Q s HQ; cbn [map close_all].
  - simpl in HQ. specialize (HQ errs). by rewrite difference_empty_L in HQ.
  - apply wp_bind, wp_call; [done| |]; (intros b s' ->; apply IH; intros errs';
    specialize (HQ errs'); simpl in HQ; replace (s ∖ {[m]} ∖ list_to_set l)
      with (s ∖ ({[m]} ∪ list_to_set l)) by set_solver; done).
Qed.

(** The generated clean-up stops at the first map that cannot be closed: a nil
    error means that all are closed, and otherwise the maps behind it stay open,
    which is why [Objects.Close] closes one by one and joins the errors. *)
Lemma vswitchMaps_Close_open m s :
  wp fd_sem (vswitchMaps_Close m)
    (λ r s', ∃ n, s' = s ∖ list_to_set (take n (maps_of m)) ∧ (r = Ok tt → (length (maps_of m) ≤ n)%nat)) s.
Proof.
  unfold vswitchMaps_Close. generalize (maps_of m). clear m. intros l. revert s. induction l as [|x l IH]; intros s; cbn [map VswitchClose].
  - exists 0%nat. split; [set_solver|done].
  - apply wp_mbind, wp_call; [done| |].
    + intros [] s' ->. eapply wp_mono; [apply IH|]. intros r s' (n & -> & Hr). exists (S n). split; [simpl; set_solver|].
      intros Ho. specialize (Hr Ho). simpl. lia.
    + intros e s' ->. exists 1%nat. split; [simpl; set_solver|done].
Qed.

(** The handles a set of maps holds. *)
Definition held (m : BpfMaps) : gset Z := list_to_set (omap id (maps_list m)).

Definition fd_post (s0 : gset Z) (r : res BpfMaps) (s : gset Z) : Prop :=
  match r with Ok m => s = held m ∪ s0 ∧ held m ## s0 | Err _ => s = s0 | _ => True end.

Lemma wp_load_or_close n opened file (k : Z → M BpfMaps) s0 s :
  s = list_to_set opened ∪ s0 → list_to_set opened ## s0 →
  (∀ m, m ∉ s → wp fd_sem (k m) (fd_post s0) ({[ m ]} ∪ s)) →
  wp fd_sem (load_or_close n opened file k) (fd_post s0) s.
Proof.
  intros -> Hdisj Hk. unfold load_or_close. apply wp_bind, wp_fd_load; [done|].
  intros e.
  apply wp_bind, wp_fd_close_all. intros _. simpl. set_solver.
Qed.

(** [LoadPinnedMaps] is all or nothing: when it fails, every map handle it
    opened has been closed again; when it succeeds, the open handles are exactly
    those of the maps it returns plus the ones open before.  Which pins are
    missing or unreadable does not matter. *)
Theorem LoadPinnedMaps_no_leak switchName s0 :
  wp fd_sem (LoadPinnedMaps switchName) (fd_post s0) s0.
Proof.
  unfold LoadPinnedMaps. apply wp_bind.
  eapply (wp_mono _ _ (λ r s, match r with Ok m => m ∉ s0 ∧ s = {[ m ]} ∪ s0 | _ => s = s0 end)).
  { by apply wp_fd_load; [auto|]. }
  intros r1 s1 H1. apply wp_bind.
  eapply (wp_mono _ _ (λ r s, match r with Ok m => m ∉ s0 ∧ s = {[ m ]} ∪ s0 | _ => s = s0 end)).
  { destruct r1 as [m|e| |]; try done. subst s1. destruct (errors_is e OsErrNotExist); [|done].
    by apply wp_fd_load; [auto|]. }
  intros r2 s2 H2. apply wp_mbind. destruct r2 as [slots|e| |]; [|by auto..].
  destruct H2 as [Hslots ->]. cbn [map_err].
  apply (wp_load_or_close _ _ _ _ s0); [set_solver..|]. intros config Hc.
  apply (wp_load_or_close _ _ _ _ s0); [set_solver..|]. intros stats Hs.
  apply (wp_load_or_close _ _ _ _ s0); [set_solver..|]. intros ifx Hi.
  apply (wp_load_or_close _ _ _ _ s0); [set_solver..|]. intros md Hm.
  apply (wp_load_or_close _ _ _ _ s0); [set_solver..|]. intros fwd Hf.
  apply (wp_load_or_close _ _ _ _ s0); [set_solver..|]. intros rev Hr.
  apply wp_bind, wp_fd_load.
  - intros go Hg. simpl. unfold held. simpl. set_solver.
  - intros e. destruct (is_ok r1 || _).
    + apply wp_bind, wp_fd_close_all. intros _. simpl. set_solver.
    + simpl. unfold held. simpl. set_solver.
Qed.
