(* ===== verification/Metadata.v ===== *)
(** * Switch metadata: pkg/vswitch/metadata.go

    The metadata is JSON in a fixed-size map value.  [unmarshal], the reading
    direction of [encoding/json] for this struct, is a parameter; the writing
    direction is [json_text]. *)
From S2P Require Import Prelude Errors GoStrings GoNet Json BpfTypes Mac Geneve Prog Maps Config MgmtService.

Record MgmtExtractMeta := MkMgmtExtractMeta {
  mm_NetNS : string; mm_Dev : string; mm_ServiceRoutes : list string;
}.
Record SwitchMetadata := MkSwitchMetadata {
  md_Version : Z; md_SwitchNetNS : string; md_PortNetNS : string; md_TransitDev : string;
  md_TransitDevAddr : string; md_TransitDevNexthop : string;
  md_MgmtExtracts : list MgmtExtractMeta; md_MgmtServices : list string;
}.
Definition SwitchMetadata_zero : SwitchMetadata := MkSwitchMetadata 0 "" "" "" "" "" [] [].
#[export] Instance MgmtExtractMeta_eq_dec : EqDecision MgmtExtractMeta.
Proof. solve_decision. Defined.
#[export] Instance SwitchMetadata_eq_dec : EqDecision SwitchMetadata.
Proof. solve_decision. Defined.

Definition SwitchNetnsName := md_SwitchNetNS.
Definition PortNetnsName := md_PortNetNS.
Definition TransitDevName := md_TransitDev.
Definition TransitDevAddrStr := md_TransitDevAddr.
Definition TransitDevNexthopStr := md_TransitDevNexthop.
Definition MgmtCount (m : SwitchMetadata) : Z := Z.of_nat (length (md_MgmtExtracts m)).

Record MgmtPlaneInfo := MkMgmtPlaneInfo {
  mpi_Index : Z; mpi_MgmtNetNS : string; mpi_MgmtDev : string; mpi_ServiceRoutes : list string;
  mpi_ReturnRouteMetric : Z;
}.
Fixpoint MgmtPlaneInfos_from (i : Z) (l : list MgmtExtractMeta) : list MgmtPlaneInfo :=
  match l with
  | [] => []
  | me :: l => MkMgmtPlaneInfo i (mm_NetNS me) (mm_Dev me) (mm_ServiceRoutes me) (100 + i)
                 :: MgmtPlaneInfos_from (i + 1) l
  end.
(** The receiver may be nil. *)
Definition MgmtPlaneInfos (m : option SwitchMetadata) : list MgmtPlaneInfo :=
  match m with Some m => MgmtPlaneInfos_from 0 (md_MgmtExtracts m) | None => [] end.
Definition metadata_MgmtServiceInfos (m : option SwitchMetadata) : list MgmtServiceInfo :=
  match m with Some m => MgmtServiceInfosFromStrings (md_MgmtServices m) | None => [] end.

(** *** JSON form: the struct tags, [omitempty] dropping zero values *)
Definition extract_json (m : MgmtExtractMeta) : json :=
  JObj [("netns", JString (mm_NetNS m)); ("dev", JString (mm_Dev m));
        ("service_routes", JArr (map JString (mm_ServiceRoutes m)))].
Definition metadata_json (m : SwitchMetadata) : json :=
  JObj (omit_if (md_Version m =? 0) ("version", JNum (md_Version m)) ++
        [("switch_netns", JString (md_SwitchNetNS m)); ("port_netns", JString (md_PortNetNS m))] ++
        omit_if (bool_decide (md_TransitDev m = "")) ("transit_dev", JString (md_TransitDev m)) ++
        omit_if (bool_decide (md_TransitDevAddr m = "")) ("transit_dev_addr", JString (md_TransitDevAddr m)) ++
        omit_if (bool_decide (md_TransitDevNexthop m = "")) ("transit_dev_nexthop", JString (md_TransitDevNexthop m)) ++
        omit_if (bool_decide (md_MgmtExtracts m = [])) ("mgmt_extracts", JArr (map extract_json (md_MgmtExtracts m))) ++
        omit_if (bool_decide (md_MgmtServices m = [])) ("mgmt_services", JArr (map JString (md_MgmtServices m)))).

Definition set_Version (v : Z) (m : SwitchMetadata) : SwitchMetadata :=
  MkSwitchMetadata v (md_SwitchNetNS m) (md_PortNetNS m) (md_TransitDev m) (md_TransitDevAddr m)
    (md_TransitDevNexthop m) (md_MgmtExtracts m) (md_MgmtServices m).

(** [SaveMetadata] also sets the caller's version field, after marshalling. *)
Definition SaveMetadata (meta : SwitchMetadata) : prog (SwitchMetadata * res unit) :=
  let data := bytes_of (json_text (metadata_json meta)) in
  let n := Z.of_nat (length data) in
  if MetadataMaxSize <? n
  then Ret (meta, Err (errorf ("metadata too large: " +:+ fmt_d n +:+ " bytes exceeds max " +:+ fmt_d MetadataMaxSize)))
  else
    let meta' := if md_Version meta =? 0 then set_Version 1 meta else meta in
    let buf := data ++ replicate (Z.to_nat MetadataMaxSize - length data) 0 in
    let~ r := call (MapUpdate MMetadata 0 buf false) in
    Ret (meta', map_err (λ e, errorw "failed to update metadata map: " e "") r).

(** [bytes.TrimRight(buf, 0)]. *)
Fixpoint trim_nulls (l : list Z) : list Z :=
  match l with
  | [] => []
  | b :: l => match trim_nulls l with
              | [] => if b =? 0 then [] else [b]
              | l' => b :: l'
              end
  end.

Section Load.
Context (unmarshal : string → res SwitchMetadata).

Definition LoadMetadata : M SwitchMetadata :=
  let* buf := mwrap (λ e, errorw "failed to read metadata map: " e "")
                    (call (MapLookup MMetadata 0 false)) in
  match trim_nulls buf with
  | [] => mok SwitchMetadata_zero
  | trimmed => mwrap (λ e, errorw "failed to unmarshal metadata: " e "") (mpure (unmarshal (string_of trimmed)))
  end.

Definition GetSwitchMetadata : M SwitchMetadata := LoadMetadata.

Definition updateSwitchMetadataFields (update : SwitchMetadata → SwitchMetadata) : M unit :=
  let* meta := LoadMetadata in
  let~ r := SaveMetadata (update meta) in mpure (snd r).
End Load.

Definition metadata_of_config (cfg : Config) : SwitchMetadata :=
  MkSwitchMetadata 0 (cf_SwitchNetNS cfg) (cf_PortNetNS cfg) (cf_TransitDev cfg)
    (match cf_TransitAddr cfg with Some a => net_string a | None => "" end)
    (match cf_TransitNexthop cfg with Some _ => ip_string (cf_TransitNexthop cfg) | None => "" end)
    (map (λ me, MkMgmtExtractMeta (me_NetNS me) (me_Dev me) (map net_string (me_ServiceRoutes me)))
       (cf_MgmtExtracts cfg))
    (map MgmtService_String (cf_MgmtServices cfg)).
Definition UpdateSwitchMetadata (cfg : Config) : M unit :=
  let~ r := SaveMetadata (metadata_of_config cfg) in mpure (snd r).

(** ** Reading back what was written *)
Lemma trim_nulls_app l k : Forall (λ b, b ≠ 0) l → trim_nulls (l ++ replicate k 0) = l.
Proof.
  intros Hl. assert (trim_nulls (replicate k 0) = []) as Hz.
  { induction k as [|k IH]; [done|]. simpl. by rewrite IH. }
  induction Hl as [|b l Hb Hl IH]; [done|]. simpl. rewrite IH. destruct l; [|done].
  by rewrite (proj2 (Z.eqb_neq b 0)).
Qed.

(** Metadata survives the fixed-size map value.  When its JSON text has no
    NUL byte and the JSON reader inverts the writer on it, a [SaveMetadata] that
    reports success followed by a successful [LoadMetadata] delivers exactly the
    metadata passed in.  Its version is therefore the one before the call: the
    default of 1 is put into the caller's struct only after the text is made, so
    a version of 0 is stored as no version at all. *)
Theorem metadata_roundtrip unmarshal meta t :
  Forall (λ b, b ≠ 0) (bytes_of (json_text (metadata_json meta))) →
  unmarshal (json_text (metadata_json meta)) = Ok meta →
  bytes_of (json_text (metadata_json meta)) ≠ [] →
  wp tables_sem
    (let~ r := SaveMetadata meta in
     match r with
     | (meta', Ok _) => let~ r' := LoadMetadata unmarshal in Ret (Some (meta', r'))
     | _ => Ret None
     end)
    (λ o _, match o with
            | Some (meta', Ok m) => m = meta ∧ md_Version meta' = (if md_Version meta =? 0 then 1 else md_Version meta)
            | _ => True
            end) t.
Proof.
  unfold SaveMetadata. generalize (json_text (metadata_json meta)) as txt.
  intros txt Hnul Hun Hne. apply wp_bind. cbv zeta.
  destruct (MetadataMaxSize <? _) eqn:Hsz; [exact I|].
  apply wp_bind, wp_map_update; [|done].
  cbn [map_err wp]. apply wp_bind. unfold LoadMetadata.
  apply wp_mbind, wp_mwrap, wp_map_lookup; [|done].
  intros v Hv. cbn [snd] in Hv.
  rewrite bget_bput, decide_True in Hv by done. injection Hv as <-. cbn [map_err].
  rewrite trim_nulls_app by done. destruct (bytes_of txt) eqn:E; [done|].
  rewrite <- E, string_of_bytes_of, Hun. split; [done|]. by destruct (md_Version meta =? 0).
Qed.

Definition ex_meta : SwitchMetadata :=
  MkSwitchMetadata 0 "swns" "portns" "" "" "" [MkMgmtExtractMeta "mgmt" "eth9" ["169.254.169.254/32"]]
    ["169.254.169.254:80:127.0.0.1:19254"].
Definition ex_unmarshal (s : string) : res SwitchMetadata :=
  if bool_decide (s = json_text (metadata_json ex_meta)) then Ok ex_meta
  else Err (errorf "unexpected end of JSON input").

Lemma metadata_roundtrip_witness :
  wp tables_sem
    (let~ r := SaveMetadata ex_meta in
     match r with
     | (meta', Ok _) => let~ r' := LoadMetadata ex_unmarshal in Ret (Some (meta', r'))
     | _ => Ret None
     end)
    (λ o _, match o with
            | Some (meta', Ok m) => m = ex_meta ∧ md_Version meta' = 1
            | _ => True
            end) ([], maps_empty).
Proof.
  apply (metadata_roundtrip ex_unmarshal ex_meta ([], maps_empty)).
  - decide_true.
  - vm_compute. reflexivity.
  - vm_compute. discriminate.
Defined.
