(* ===== verification/Context.v ===== *)
(** * Opened switches: pkg/vswitch/context.go, errors.go and the map reads of slot.go

    [openSwitch] loads the pinned maps, the configuration and the metadata and
    maps the slot table; any failure after the pin directory was found is
    reported as a corrupted switch.  The reader of the metadata JSON is the
    parameter [unmarshal], as in [Metadata]. *)
From S2P Require Import Prelude Errors GoStrings GoNet BpfTypes Mac Geneve Prog Maps SlotTable.
From S2P Require Import Config Metadata Loader.

Definition GetSwitchConfig : M SwitchConfig :=
  mwrap (λ e, errorw "failed to read config map: " e "") (call (MapLookup MConfig 0 false)).

Definition updateSwitchConfigFields (update : SwitchConfig → SwitchConfig) : M unit :=
  let* bpfCfg := mwrap (λ e, errorw "failed to read config: " e "") (call (MapLookup MConfig 0 false)) in
  mwrap (λ e, errorw "failed to update config: " e "") (call (MapUpdate MConfig 0 (update bpfCfg) false)).

(** [UpdateSwitchConfig]: the translation of a configuration to its map value. *)
Definition switch_config_of (cfg : Config) : SwitchConfig :=
  let cfg := applyGeneveDefaults cfg in
  MkSwitchConfig (copy_into mac_zero (cf_MACAddr cfg)) (cf_NumPorts cfg)
    (IPToUint32 (cf_FloatingIPBase cfg)) (cf_GenevePortBase cfg)
    (if cf_GeneveEncapEth cfg then 1 else 0)
    (match cf_TransitNexthop cfg with Some _ => IPToUint32 (cf_TransitNexthop cfg) | None => 0 end)
    (if bool_decide (6 ≤ length (cf_PortMAC cfg))%nat then copy_into mac_zero (cf_PortMAC cfg) else mac_zero)
    (cf_GenerationBits cfg) (Z.lor SwitchFPortUp SwitchFDeferredUp) (u8 (cf_GeneveLocator cfg))
    (match cf_GeneveTLVLocator cfg with Some t => tlv_Type t | None => 0 end)
    (match cf_GeneveTLVLocator cfg with Some t => tlv_Class t | None => 0 end).
Definition UpdateSwitchConfig (cfg : Config) : M unit :=
  mwrap (λ e, errorw "failed to update config map: " e "")
        (call (MapUpdate MConfig 0 (switch_config_of cfg) false)).

(** [mmapSlots.numSlots] and [statsMgr.numPorts] are [cfg.N_ports]. *)
Record switchContext := MkContext {
  sx_name : string;
  sx_maps : option BpfMaps;
  sx_cfg : SwitchConfig;
  sx_meta : SwitchMetadata;
  sx_numSlots : Z;
  sx_numPorts : Z;
}.
Definition has_geneve_opts (s : switchContext) : bool :=
  match sx_maps s with Some m => bool_decide (is_Some (mp_GeneveOpts m)) | None => false end.
Definition has_ifindex_map (s : switchContext) : bool :=
  match sx_maps s with Some m => bool_decide (is_Some (mp_IfindexToSlot m)) | None => false end.

Section Open.
Context (unmarshal : string → res SwitchMetadata).

Definition open_loaded (switchName : string) (maps : BpfMaps) : M switchContext :=
  let* cfg := mwrap (λ e, errorw "failed to get switch config: " e "") GetSwitchConfig in
  let* meta := mwrap (λ e, errorw "failed to get switch metadata: " e "") (GetSwitchMetadata unmarshal) in
  deref (mp_Slots maps) (λ slots,
    let* mmapSlots := mwrap (λ e, errorw "failed to mmap slots: " e "")
                            (NewMmappedSlots slots (sc_N_ports cfg)) in
    mok (MkContext switchName (Some maps) cfg meta mmapSlots (sc_N_ports cfg))).

(** Past the existence check, the deferred function turns every error into
    a corrupted-state error and closes the maps when they were loaded. *)
Definition openSwitch (switchName : string) : M switchContext :=
  let* exists_ := mwrap (λ e, errorw ("check switch " +:+ switchName +:+ ": ") e "") (PinPathExists switchName) in
  if negb exists_
  then merr (errorw ("switch " +:+ switchName +:+ ": ") (sentinel_error ErrSwitchNotExist) "")
  else
    mwrap (newSwitchCorruptedError switchName)
      (let* maps := mwrap (λ e, errorw "failed to load pinned maps: " e "") (LoadPinnedMaps switchName) in
       on_err (Maps_Close maps) (open_loaded switchName maps)).

Definition Open := openSwitch.
End Open.

Definition switchContext_Close (s : switchContext) : M unit :=
  let~ _ := MmappedSlots_Close true in
  match sx_maps s with
  | Some m => let~ _ := Maps_Close m in mok tt
  | None => mok tt
  end.

(** [defer sw.Close()]. *)
Definition with_switch {A} (open : M switchContext) (f : switchContext → M A) : M A :=
  let* sw := open in with_defer (switchContext_Close sw) (f sw).

Record PortSlot := MkPortSlot { ps_Slot : SlotItem; ps_Port : Z; ps_Allocated : bool }.

Fixpoint Ports_loop (n : nat) (numSlots i : Z) (allocatedOnly : bool) : M (list PortSlot) :=
  match n with
  | O => mok []
  | S n =>
      match GetSlot numSlots i with
      | None => Ports_loop n numSlots (i + 1) allocatedOnly
      | Some slot =>
          let~ x := trigger (ELoadSlot slot) in
          let allocated := IsSlotAllocated (si_InnerIp x) in
          if allocatedOnly && negb allocated then Ports_loop n numSlots (i + 1) allocatedOnly
          else
            let~ copied := trigger (ELoadSlot slot) in
            let* rest := Ports_loop n numSlots (i + 1) allocatedOnly in
            mok (MkPortSlot copied (i + 1) allocated :: rest)
      end
  end.
Definition Ports (s : switchContext) (allocatedOnly : bool) : M (list PortSlot) :=
  Ports_loop (Z.to_nat (sc_N_ports (sx_cfg s))) (sx_numSlots s) 0 allocatedOnly.

Definition ForceCleanup (switchName : string) : M unit :=
  let* exists_ := mwrap (λ e, errorw ("check switch " +:+ switchName +:+ ": ") e "") (PinPathExists switchName) in
  if negb exists_
  then merr (errorw ("switch " +:+ switchName +:+ ": ") (sentinel_error ErrSwitchNotExist) "")
  else UnpinMaps switchName.

(** ** None of the opening touches the slot table *)
Lemma NewMmappedSlots_kern_ret m n : kern_ret (NewMmappedSlots m n).
Proof. unfold NewMmappedSlots. kern_ret. Qed.
#[export] Hint Resolve NewMmappedSlots_kern_ret : kern_ret.
Lemma LoadMetadata_kern_only u : kern_only (LoadMetadata u).
Proof. unfold LoadMetadata. kern_only. Qed.
#[export] Hint Resolve LoadMetadata_kern_only : kern_only.
Lemma open_loaded_kern_only u n m : kern_only (open_loaded u n m).
Proof. unfold open_loaded, GetSwitchConfig, GetSwitchMetadata, deref. kern_only. Qed.
#[export] Hint Resolve open_loaded_kern_only : kern_only.
Lemma openSwitch_kern_only u n : kern_only (openSwitch u n).
Proof. unfold openSwitch. kern_only. Qed.
Lemma switchContext_Close_kern_ret s : kern_ret (switchContext_Close s).
Proof. unfold switchContext_Close, MmappedSlots_Close. kern_ret. Qed.
#[export] Hint Resolve openSwitch_kern_only : kern_only.
#[export] Hint Resolve switchContext_Close_kern_ret : kern_ret.

(** ** Classification of opening failures

    The monitor remembers what the look-up of the pin directory answered. *)
Definition stat_sem : sem (option (ans bool)) :=
  MkSem (λ _ _ _, True)
    (λ B e s b s',
       match e in ev B return B → Prop with
       | EKern q =>
           match q in kev B return B → Prop with
           | OsStat _ => λ b, s' = Some b
           | _ => λ _, s' = s
           end
       | _ => λ _, s' = s
       end b).

(** The calls that do not look up paths leave the monitor alone. *)
Definition not_stat (B : Type) (e : ev B) : Prop :=
  match e with EKern (OsStat _) => False | _ => True end.

Lemma wp_not_stat {A} (p : prog A) (Q : A → option (ans bool) → Prop) s :
  obeys not_stat p → (∀ a, Q a s) → wp stat_sem p Q s.
Proof.
  revert s. induction p as [a|B e k IH]; intros s Hp HQ; [by apply HQ|].
  destruct Hp as [He Hk]. split; [done|]. intros b s' Hs.
  assert (s' = s) as ->; [|by apply IH]. destruct e as [| | | |B q]; try done. by destruct q.
Qed.

Lemma close_all_not_stat l errs : obeys not_stat (close_all l errs).
Proof.
  revert errs. induction l as [|[m|] l IH]; intros errs; cbn [close_all]; [done| |by apply IH].
  obeys ltac:(exact I).
Qed.
#[export] Hint Resolve close_all_not_stat : obeys.
Lemma load_or_close_not_stat {A} n o f (k : Z → M A) :
  (∀ m, obeys not_stat (k m)) → obeys not_stat (load_or_close n o f k).
Proof. intros. unfold load_or_close. obeys ltac:(exact I). Qed.
#[export] Hint Extern 1 (obeys not_stat (load_or_close _ _ _ _)) =>
  apply load_or_close_not_stat; intros; obeys ltac:(exact I) : obeys.
Lemma LoadPinnedMaps_not_stat n : obeys not_stat (LoadPinnedMaps n).
Proof. unfold LoadPinnedMaps. obeys ltac:(exact I). Qed.
Lemma open_loaded_not_stat u n m : obeys not_stat (open_loaded u n m).
Proof.
  unfold open_loaded, GetSwitchConfig, GetSwitchMetadata, LoadMetadata, NewMmappedSlots, deref.
  obeys ltac:(exact I).
Qed.
Lemma Maps_Close_not_stat m : obeys not_stat (Maps_Close m).
Proof. unfold Maps_Close. obeys ltac:(exact I). Qed.
#[export] Hint Resolve LoadPinnedMaps_not_stat open_loaded_not_stat Maps_Close_not_stat : obeys.

Lemma corrupted_is n e : IsSwitchCorrupted (Some (newSwitchCorruptedError n e)) = true.
Proof. reflexivity. Qed.

Lemma wp_PinPathExists_stat n (Q : res bool → option (ans bool) → Prop) s :
  (∀ st, Q (match st with
            | inr e => if errors_is e OsErrNotExist then Ok false
                       else Err (errorw ("stat " +:+ path_join [BPFPath; n] +:+ ": ") e "")
            | inl true => Ok true
            | inl false => Err (errorf (path_join [BPFPath; n] +:+ " is not a directory"))
            end) (Some st)) →
  wp stat_sem (PinPathExists n) Q s.
Proof.
  intros HQ. unfold PinPathExists. cbv zeta. apply wp_bind, wp_call; [done| |].
  - intros isDir s' ->. specialize (HQ (inl isDir)). by destruct isDir.
  - intros e s' ->. specialize (HQ (inr e)). simpl in HQ |- *. by destruct (errors_is e OsErrNotExist).
Qed.

(** How opening a switch can fail.  When the pin directory is there, every
    error of [Open] is classified as a corrupted switch and as nothing else;
    when it is not there, the error is classified as a missing switch and never
    as a corrupted one.  The classification depends on the look-up alone, not
    on which of the later steps failed. *)
Theorem openSwitch_classified unmarshal switchName :
  wp stat_sem (openSwitch unmarshal switchName) (λ r st,
    match r with
    | Err e =>
        match st with
        | Some (inl true) => IsSwitchCorrupted (Some e) = true ∧ IsNotExist (Some e) = false
        | Some (inr e0) => errors_is e0 OsErrNotExist = true →
                           IsNotExist (Some e) = true ∧ IsSwitchCorrupted (Some e) = false
        | _ => True
        end
    | Ok _ => st = Some (inl true)
    | _ => True
    end) None.
Proof.
  unfold openSwitch. apply wp_mbind, wp_mwrap, wp_PinPathExists_stat.
  intros [[]|e0]; cbn [map_err negb]; try done.
  - apply wp_mwrap. apply wp_not_stat; [obeys ltac:(exact I)|]. by intros [].
  - destruct (errors_is e0 OsErrNotExist) eqn:E; [by split|done].
Qed.

