(* ===== verification/Flock.v ===== *)
(** * The control lock: pkg/vswitch/flock.go

    A lock is the descriptor of the switch's pin directory, with a flock on
    it.  Attachment operations do not take it. *)
From S2P Require Import Prelude Errors GoStrings GoNet BpfTypes Prog SlotTable Metadata Loader Context.

Definition LOCK_SH : Z := 1.
Definition LOCK_EX : Z := 2.
Definition LOCK_NB : Z := 4.
Definition LOCK_UN : Z := 8.

Definition acquireSwitchLock (switchName : string) (operation : Z) : M Z :=
  let* _ := mwrap (λ e, errorw "failed to ensure bpffs: " e "") EnsureBPFFS in
  let lockPath := path_join [BPFPath; switchName] in
  let~ r := call (OsOpen lockPath) in
  match r with
  | Err e =>
      if errors_is e OsErrNotExist
      then merr (errorw ("switch " +:+ switchName +:+ ": ") (sentinel_error ErrSwitchNotExist) "")
      else merr (errorw ("failed to open lock directory " +:+ lockPath +:+ ": ") e "")
  | Ok f =>
      let* _ := on_err (kern (OsFileClose f))
                  (mwrap (λ e, errorw ("failed to acquire flock on " +:+ lockPath +:+ ": ") e "")
                         (call (Flock f operation))) in
      mok f
  | Panic => mpanic
  | OutOfFuel => Ret OutOfFuel
  end.

Definition AcquireControlLock (switchName : string) : M Z := acquireSwitchLock switchName LOCK_EX.

Definition ReleaseLock (f : Z) : prog unit :=
  let~ _ := call (Flock f LOCK_UN) in kern (OsFileClose f).

Definition load_pinned_slots (name : string) : M Z :=
  let p1 := pin_path name "slots_v2" in
  let p2 := pin_path name "slots" in
  let~ r := call (LoadPinnedMap p1) in
  match r with
  | Err e =>
      if errors_is e OsErrNotExist
      then mwrap (λ e, errorw ("load pinned slots map " +:+ p2 +:+ ": ") e "") (call (LoadPinnedMap p2))
      else merr (errorw ("load pinned slots map " +:+ p1 +:+ ": ") e "")
  | r => Ret r
  end.

Definition verifyCurrentSwitch (s : switchContext) : M unit :=
  match (sx_maps s ≫= mp_Slots) with
  | None => merr (errorf "switch context has no slots map")
  | Some slots =>
      let* pinned := load_pinned_slots (sx_name s) in
      with_defer (call (CloseMap pinned))
        (let* openedInfo := mwrap (λ e, errorw "inspect opened slots map: " e "") (call (MapID slots)) in
         let* pinnedInfo := mwrap (λ e, errorw "inspect pinned slots map: " e "") (call (MapID pinned)) in
         match openedInfo, pinnedInfo with
         | None, _ => merr (errorf "opened slots map has no kernel ID")
         | _, None => merr (errorf "pinned slots map has no kernel ID")
         | Some openedID, Some pinnedID =>
             if negb (openedID =? pinnedID)
             then merr (errorf ("switch " +:+ sx_name s
                    +:+ " was replaced while acquiring the control lock; reopen and retry"))
             else mok tt
         end)
  end.

Definition unavailable (e : error) : error :=
  MkError (sentinel_text ErrStatsUnavailable +:+ ": " +:+ emsg e) (ErrStatsUnavailable :: ekinds e).

Definition acquireStatsLock (s : switchContext) : M Z :=
  let* lock := mwrap unavailable (acquireSwitchLock (sx_name s) (Z.lor LOCK_SH LOCK_NB)) in
  let* _ := mwrap unavailable (on_err (ReleaseLock lock) (verifyCurrentSwitch s)) in
  mok lock.

Definition acquireCurrentSwitchControlLock (s : switchContext) : M Z :=
  let* lock := mwrap (λ e, errorw "failed to acquire control lock: " e "") (AcquireControlLock (sx_name s)) in
  let* _ := mwrap (λ e, errorw "failed to verify current switch instance: " e "")
              (on_err (ReleaseLock lock) (verifyCurrentSwitch s)) in
  mok lock.

(** [lock, err := acquire(); defer lock.Release()]. *)
Definition with_lock {A} (acquire : M Z) (body : M A) : M A :=
  let* lock := acquire in with_defer (ReleaseLock lock) body.

(** ** None of it touches the slot table *)
Lemma acquireSwitchLock_kern_ret n o : kern_ret (acquireSwitchLock n o).
Proof. unfold acquireSwitchLock. kern_ret. Qed.
Lemma ReleaseLock_kern_only f : kern_only (ReleaseLock f).
Proof. unfold ReleaseLock. kern_only. Qed.
Lemma load_pinned_slots_kern_ret n : kern_ret (load_pinned_slots n).
Proof. unfold load_pinned_slots. kern_ret. Qed.
#[export] Hint Resolve ReleaseLock_kern_only : kern_only.
#[export] Hint Resolve acquireSwitchLock_kern_ret load_pinned_slots_kern_ret : kern_ret.
Lemma verifyCurrentSwitch_kern_ret s : kern_ret (verifyCurrentSwitch s).
Proof. unfold verifyCurrentSwitch. kern_ret. Qed.
#[export] Hint Resolve verifyCurrentSwitch_kern_ret : kern_ret.
Lemma acquireCurrentSwitchControlLock_kern_ret s : kern_ret (acquireCurrentSwitchControlLock s).
Proof. unfold acquireCurrentSwitchControlLock, AcquireControlLock. kern_ret. Qed.
Lemma acquireStatsLock_kern_ret s : kern_ret (acquireStatsLock s).
Proof. unfold acquireStatsLock. kern_ret. Qed.
Lemma AcquireControlLock_kern_ret n : kern_ret (AcquireControlLock n).
Proof. unfold AcquireControlLock. kern_ret. Qed.
#[export] Hint Resolve acquireCurrentSwitchControlLock_kern_ret acquireStatsLock_kern_ret AcquireControlLock_kern_ret : kern_ret.

(** ** Lock discipline

    [lock_sem] follows the open directory descriptors and, for each, whether
    it carries a flock: [os.Open] opens a fresh one, a successful flock sets
    the mark, [LOCK_UN] and closing drop it. *)
Definition lock_sem : sem (gmap Z bool) :=
  MkSem (λ _ _ _, True)
    (λ B e s b s',
       match e in ev B return B → Prop with
       | EKern q =>
           match q in kev B return B → Prop with
           | OsOpen _ => λ b, match b with inl f => s !! f = None ∧ s' = <[f := false]> s | inr _ => s' = s end
           | Flock f op => λ b,
               match b with
               | inl _ => s' = if op =? LOCK_UN then <[f := false]> s else <[f := true]> s
               | inr _ => s' = s
               end
           | OsFileClose f => λ _, s' = delete f s
           | _ => λ _, s' = s
           end
       | _ => λ _, s' = s
       end b).
Definition not_lock (B : Type) (e : ev B) : Prop :=
  match e with EKern (OsOpen _) | EKern (Flock _ _) | EKern (OsFileClose _) => False | _ => True end.

Lemma wp_not_lock {A} (p : prog A) (Q : A → gmap Z bool → Prop) s :
  obeys not_lock p → (∀ a, Q a s) → wp lock_sem p Q s.
Proof.
  revert s. induction p as [a|B e k IH]; intros s Hp HQ; [by apply HQ|].
  destruct Hp as [He Hk]. split; [done|]. intros b s' Hs.
  assert (s' = s) as ->; [|by apply IH]. destruct e as [| | | |B q]; try done. by destruct q.
Qed.

Lemma wp_not_lock' {A} (p : M A) (Q : res A → gmap Z bool → Prop) s :
  obeys not_lock p → kern_ret p → (∀ r, returns r → Q r s) → wp lock_sem p Q s.
Proof.
  unfold kern_ret. revert s. induction p as [a|B e k IH]; intros s Hp Hr HQ; [by apply HQ|].
  destruct Hp as [He Hk], Hr as [_ Hr]. split; [done|]. intros b s' Hs.
  assert (s' = s) as ->; [|by apply IH]. destruct e as [| | | |B q]; try done. by destruct q.
Qed.

Lemma EnsureBPFFS_not_lock : obeys not_lock EnsureBPFFS.
Proof. unfold EnsureBPFFS. obeys ltac:(exact I). Qed.
Lemma verifyCurrentSwitch_not_lock s : obeys not_lock (verifyCurrentSwitch s).
Proof. unfold verifyCurrentSwitch, load_pinned_slots. obeys ltac:(exact I). Qed.

Lemma wp_ReleaseLock f (Q : unit → gmap Z bool → Prop) s b :
  s !! f = Some b → Q tt (delete f s) → wp lock_sem (ReleaseLock f) Q s.
Proof.
  intros Hf HQ. unfold ReleaseLock.
  assert (∀ s1, delete f s1 = delete f s → wp lock_sem (kern (OsFileClose f)) Q s1) as Hclose.
  { intros s1 Hs1. split; [done|]. intros [] s2 ->. by rewrite Hs1. }
  apply wp_bind, wp_call; [done| |].
  - intros [] s1 ->. apply Hclose. simpl. by rewrite delete_insert_eq.
  - intros e s1 ->. by apply Hclose.
Qed.

Lemma wp_acquireSwitchLock n op (Q : res Z → gmap Z bool → Prop) s :
  op ≠ LOCK_UN →
  (∀ f, s !! f = None → Q (Ok f) (<[f := true]> s)) → (∀ e, Q (Err e) s) →
  wp lock_sem (acquireSwitchLock n op) Q s.
Proof.
  intros Hop Hok Herr. unfold acquireSwitchLock. apply wp_mbind, wp_mwrap.
  apply wp_not_lock'; [apply EnsureBPFFS_not_lock|apply EnsureBPFFS_kern_ret|].
  intros [[]|e| |] Hr; try done; cbn [map_err]; auto.
  cbv zeta. apply wp_bind, wp_call; [done| |].
  - intros f s' [Hfresh ->]. apply wp_mbind. unfold on_err. apply wp_bind, wp_mwrap, wp_call; [done| |].
    + intros [] s' ->. rewrite (proj2 (Z.eqb_neq op LOCK_UN)) by done. rewrite insert_insert_eq. by apply Hok.
    + intros e s' ->. apply wp_bind. split; [done|]. intros [] s' ->.
      rewrite delete_insert_id by done. apply Herr.
  - intros e s' ->. simpl. by destruct (errors_is e OsErrNotExist); apply Herr.
Qed.

(** The control lock is held exactly while the body runs.  Around any body
    that does not itself touch lock descriptors, [with_lock] on the verified
    control lock of a switch closes the descriptor again on every outcome that
    is a value or an error; the body only runs with the exclusive flock held,
    and a failed acquisition or a switch that was replaced while waiting leaves
    no descriptor open. *)
Theorem control_lock_balanced {A} s (body : M A) held0 :
  (∀ lock, held0 !! lock = None → wp lock_sem body
     (λ r held, held = <[lock := true]> held0 ∧ r ≠ Panic ∧ r ≠ OutOfFuel) (<[lock := true]> held0)) →
  wp lock_sem (with_lock (acquireCurrentSwitchControlLock s) body)
    (λ r held, match r with Ok _ | Err _ => held = held0 | _ => True end) held0.
Proof.
  intros Hbody. unfold with_lock, acquireCurrentSwitchControlLock, AcquireControlLock.
  apply wp_mbind, wp_mbind, wp_mwrap, wp_acquireSwitchLock; cbn [map_err]; try done.
  intros lock Hfresh. apply wp_mbind, wp_mwrap. unfold on_err.
  apply wp_bind, wp_not_lock; [apply verifyCurrentSwitch_not_lock|].
  intros [[]|e| |]; cbn [map_err]; try done.
  - simpl. unfold with_defer. apply wp_bind. eapply wp_mono; [by apply Hbody|].
    intros r held (-> & Hr1 & Hr2). apply wp_bind. eapply wp_ReleaseLock; [apply lookup_insert_eq|].
    rewrite delete_insert_id by done. by destruct r.
  - apply wp_bind. eapply wp_ReleaseLock; [apply lookup_insert_eq|].
    rewrite delete_insert_id by done. done.
Qed.

Definition ex_ctx : switchContext :=
  MkContext "sw0" (Some (MkBpfMaps (Some 3) (Some 4) (Some 5) (Some 6) (Some 7) (Some 8) (Some 9) (Some 10)))
    SwitchConfig_zero SwitchMetadata_zero 4 4.

Lemma control_lock_balanced_witness :
  wp lock_sem (with_lock (acquireCurrentSwitchControlLock ex_ctx) (mok 7))
    (λ r held, match r with Ok _ | Err _ => held = {[ 11 := true ]} | _ => True end) {[ 11 := true ]}.
Proof. apply control_lock_balanced. intros lock Hl. by split_and!. Defined.
