(* ===== verification/Attach.v ===== *)
(** * Attachment operations: pkg/vswitch/attach.go and port_up.go

    [Attach], [Reserve], [Detach] and [SetPortUp] on an opened switch, event by
    event.  [port] arguments are Go [int]s; [uint32(port-1)] wraps. *)
From S2P Require Import Prelude Errors GoStrings GoNet BpfTypes Mac Geneve Prog SlotTable Netns.
From S2P Require Import Netlink Config Metadata Loader Context Flock.

(** ** Options and output (types.go) *)
Record AttachOptions := MkAttachOptions {
  ao_Port : Z; ao_Generation : Z; ao_ToNetNS : string; ao_InnerIP : IP; ao_TransitGatewayIP : IP;
  ao_TransitGeneveVNI : Z; ao_TransitGeneveOpts : list GeneveOption; ao_TransitMAC : HardwareAddr;
  ao_AdminDown : bool; ao_SkipDevice : bool;
}.
Record DetachOptions := MkDetachOptions { do_Port : Z; do_FromNetNS : string; do_SkipDevice : bool }.
Record ReserveOptions := MkReserveOptions { ro_Port : Z; ro_Force : bool }.
Record PortUpOptions := MkPortUpOptions {
  po_Port : Z; po_InnerIP : IP; po_TransitGatewayIP : IP; po_TransitGeneveVNI : Z;
  po_TransitGeneveOpts : list GeneveOption; po_TransitMAC : HardwareAddr;
}.
Record AttachOutput := MkAttachOutput {
  at_AdminDown : bool; at_Port : Z; at_Generation : Z; at_GenerationBits : Z; at_PortDev : string;
  at_PortNetNS : string; at_PortMAC : string; at_InnerIP : string; at_FloatingIP : string;
  at_Mode : string; at_TransitType : string; at_TransitGatewayIP : string; at_GenevePort : Z;
  at_GeneveLocator : string; at_TransitGeneveVNI : Z; at_WireGeneveVNI : Z; at_GeneveOptsLen : Z;
  at_TapSentTo : string; at_TapNetnsSent : bool;
}.
Record ReserveOutput := MkReserveOutput { re_Port : Z; re_Status : string }.

(** ** ABI checks *)
Definition requireAttachmentABI (s : switchContext) : res unit :=
  if Z.land (sc_Features (sx_cfg s)) SwitchFPortUp =? 0
  then Err (errorf ("switch " +:+ sx_name s +:+ " lacks PORT_F_UP support; rebuild the switch before attachment operations"))
  else if negb (has_geneve_opts s)
  then Err (errorf "PORT_F_UP switch is missing its required geneve_opts map; rebuild the switch")
  else Ok tt.

Definition requireDeferredAttachmentABI (s : switchContext) : res unit :=
  let! _ := requireAttachmentABI s in
  if Z.land (sc_Features (sx_cfg s)) SwitchFDeferredUp =? 0
  then Err (errorf ("switch " +:+ sx_name s +:+ " lacks deferred-port publication support; rebuild the switch"))
  else Ok tt.

Definition validateAttachmentAddresses (inner gateway : IP) (mac : HardwareAddr) : res Z :=
  match To4 inner with
  | None => Err (errorf "inner-ip must be an IPv4 address")
  | Some _ =>
      let ip := IPToUint32 inner in
      if ip =? InnerIPFree then Err (errorf "inner-ip cannot be 0.0.0.0")
      else if ip =? InnerIPReserved then Err (errorf "inner-ip cannot be 255.255.255.255 (Reserved)")
      else if negb (bool_decide (ip_bytes gateway = [])) && bool_decide (To4 gateway = None)
      then Err (errorf "transit-gateway-ip must be an IPv4 address")
      else if negb (bool_decide (mac = [])) && negb (bool_decide (length mac = 6%nat))
      then Err (errorf "transit MAC must contain exactly 6 bytes")
      else Ok ip
  end.

Definition tlv_from_config (cfg : SwitchConfig) : option GeneveTLVLocator :=
  if geneveLocatorFromConfig cfg =? GeneveLocatorTLV then Some (geneveTLVLocatorFromConfig cfg) else None.

(** ** Helpers *)
Definition writeGeneveOpts (slotID : Z) (value : GeneveOptsValue) : M unit :=
  mwrap (λ e, errorw "update geneve_opts map: " e "") (call (MapUpdate MGeneveOpts slotID value false)).

Definition validateAttachMTU (s : switchContext) (slotID portKind optionsOverhead : Z) : M unit :=
  let meta := sx_meta s in
  if bool_decide (TransitDevName meta = "") then mok tt
  else
    let* switchNs := mwrap (λ e, errorw ("validate GENEVE options MTU: get switch netns "
                                         +:+ SwitchNetnsName meta +:+ ": ") e "")
                           (GetByName (SwitchNetnsName meta)) in
    with_defer (NetNS_Close switchNs)
      (let portName := if portKind =? PortKindTap then TapDeviceName (sx_name s) slotID
                       else PeerDeviceName (sx_name s) slotID in
       let* portMTU := mwrap (λ e, errorw ("validate GENEVE options MTU: get port " +:+ portName +:+ " MTU: ") e "")
                             (GetMTUInNs switchNs portName) in
       let transitDev := TransitDevName meta in
       let* transitMTU := mwrap (λ e, errorw ("validate GENEVE options MTU: get transit device "
                                              +:+ transitDev +:+ " MTU: ") e "")
                                (GetMTUInNs switchNs transitDev) in
       let baseOverhead := if negb (sc_GeneveEncapEth (sx_cfg s) =? 0) then GeneveEthOverhead else GeneveIPOverhead in
       let requiredMTU := portMTU + baseOverhead + optionsOverhead in
       if transitMTU <? requiredMTU
       then merr (errorf ("transit device " +:+ transitDev +:+ " MTU " +:+ fmt_d transitMTU
              +:+ " is too small for port " +:+ portName +:+ ": port MTU " +:+ fmt_d portMTU
              +:+ " + base GENEVE overhead " +:+ fmt_d baseOverhead +:+ " + options overhead "
              +:+ fmt_d optionsOverhead +:+ " = required MTU " +:+ fmt_d requiredMTU))
       else mok tt).

(** A read of a slot through the pointer [GetSlot] returned. *)
Definition read_slot {A} (numSlots slotID : Z) (k : SlotItem → M A) : M A :=
  deref (GetSlot numSlots slotID) (λ p, let~ x := trigger (ELoadSlot p) in k x).
(** An atomic store through it. *)
Definition store_slot {A} (numSlots slotID : Z) (w : slot_write) (k : M A) : M A :=
  deref (GetSlot numSlots slotID) (λ p, let~ _ := trigger (EStore p w) in k).

(** ** Attach *)
Definition unpublishedGeneration : Z := 4294967295.

(** The first stores after the claim: suppress the old options and overwrite
    every retained transit field. *)
Definition claim_writes (opts : AttachOptions) : list slot_write :=
  [WStatsReady 0; WFlags 0; WGeneration unpublishedGeneration; WGeneveOptsLen 0;
   WTransitGatewayIp (match ao_TransitGatewayIP opts with
                      | Some _ => IPToUint32 (ao_TransitGatewayIP opts) | None => 0 end);
   WTransitGeneveVni (ao_TransitGeneveVNI opts);
   WTransitMac mac_zero] ++
  (if bool_decide (6 ≤ length (ao_TransitMAC opts))%nat
   then [WTransitMac (copy_into mac_zero (ao_TransitMAC opts))] else []).

(** On an error of [p]: release the claim, then return the wrapped error. *)
Definition or_rollback {A} (rollback : prog bool) (wrap : error → error) (p : M A) : M A :=
  on_err rollback (mwrap wrap p).

Definition attach_output (s : switchContext) (opts : AttachOptions) (slotID portKind totalLen : Z)
    (portMAC : HardwareAddr) : AttachOutput :=
  let cfg := sx_cfg s in
  let locator := geneveLocatorFromConfig cfg in
  let tap := portKind =? PortKindTap in
  let overlay := bool_decide (is_Some (ao_TransitGatewayIP opts))
                 && negb (bool_decide (TransitDevName (sx_meta s) = "")) in
  MkAttachOutput (ao_AdminDown opts) (u32 (slotID + 1)) (ao_Generation opts) (sc_GenerationBits cfg)
    (if tap then TapDeviceName (sx_name s) slotID else PortDeviceName (sx_name s) slotID)
    (if tap then SwitchNetnsName (sx_meta s) else ao_ToNetNS opts)
    (mac_string portMAC) (ip_string (ao_InnerIP opts))
    (ip_string (Uint32ToIP (FloatingIPForAttachment (sc_FloatingIpBase cfg) slotID (ao_Generation opts))))
    (PortKind_String portKind)
    (if overlay then "overlay-geneve" else "none")
    (if overlay then ip_string (ao_TransitGatewayIP opts) else "")
    (if overlay then geneveWirePort locator (sc_GenevePortBase cfg) slotID else 0)
    (if overlay then GeneveLocator_String locator else "")
    (if overlay then ao_TransitGeneveVNI opts else 0)
    (if overlay then geneveWireVNI locator slotID (ao_TransitGeneveVNI opts) else 0)
    (if overlay then totalLen else 0) "" false.

(** The publication: hint and generation, then counters, then dataplane up. *)
Definition attach_publish (s : switchContext) (opts : AttachOptions) (slotID innerIP portKind : Z)
    (value : GeneveOptsValue) (totalLen : Z) : M AttachOutput :=
  let n := sx_numSlots s in
  let cfg := sx_cfg s in
  let~ current := GetInnerIP n slotID in
  if negb (current =? innerIP)
  then merr (errorf ("port " +:+ fmt_u (u32 (slotID + 1)) +:+ " was taken over during attach"))
  else
    let~ _ := UpdateSlotFields n slotID (λ p,
                stores p [WGeneveOptsLen (gv_Len value); WGeneration (ao_Generation opts)]) in
    let~ reset := ResetStats (sx_numPorts s) slotID in
    let* _ := if is_ok reset then store_slot n slotID (WStatsReady 1) (mok tt) else mok tt in
    let* _ := if negb (ao_AdminDown opts) then store_slot n slotID (WFlags PortFUp) (mok tt) else mok tt in
    let* portMAC := mpure (GetPortMAC (sc_SwitchMac cfg) (sc_PortMac cfg) slotID) in
    mok (attach_output s opts slotID portKind totalLen portMAC).

(** The move of a veth port into the sandbox namespace; the namespace handles
    stay open until the function returns. *)
Definition with_port_moved {A} (s : switchContext) (opts : AttachOptions) (slotID portKind : Z)
    (rollback : prog bool) (k : M A) : M A :=
  if (portKind =? PortKindVeth) && negb (ao_SkipDevice opts) && negb (bool_decide (ao_ToNetNS opts = "")) then
    let portName := PortDeviceName (sx_name s) slotID in
    let portNsName := PortNetnsName (sx_meta s) in
    let* portNs := or_rollback rollback (λ e, errorw ("failed to get port netns " +:+ portNsName +:+ ": ") e "")
                               (GetByName portNsName) in
    with_defer (NetNS_Close portNs)
      (let* toNs := or_rollback rollback (λ e, errorw ("failed to get target netns " +:+ ao_ToNetNS opts +:+ ": ") e "")
                                (GetByName (ao_ToNetNS opts)) in
       with_defer (NetNS_Close toNs)
         (let* _ := or_rollback rollback (λ e, errorw ("failed to move " +:+ portName +:+ " to " +:+ ao_ToNetNS opts +:+ ": ") e "")
                                (MoveDevice portName (Some portNs) toNs) in
          k))
  else k.

(** Everything after the claim was won. *)
Definition attach_claimed (s : switchContext) (opts : AttachOptions) (value : GeneveOptsValue)
    (totalLen innerIP slotID : Z) : M AttachOutput :=
  let n := sx_numSlots s in
  let~ _ := UpdateSlotFields n slotID (λ p, stores p (claim_writes opts)) in
  let rollback := TryRelease n slotID innerIP in
  read_slot n slotID (λ x,
    let portKind := SlotPortKind x in
    let checked (k : M AttachOutput) : M AttachOutput :=
      if portKind =? PortKindTap then
        read_slot n slotID (λ x,
          if si_Ifindex x =? 0 then
            let~ _ := rollback in
            merr (errorw ("port " +:+ fmt_u (u32 (slotID + 1)) +:+ ": ") (sentinel_error ErrPortNotProvisioned)
                         " (tap mode requires provision first)")
          else k)
      else k in
    checked
      (let* _ := or_rollback rollback
                   (λ e, errorw ("write GENEVE options for port " +:+ fmt_u (u32 (slotID + 1)) +:+ ": ") e "")
                   (writeGeneveOpts slotID value) in
       let* _ := if negb (totalLen =? 0)
                 then or_rollback rollback id (validateAttachMTU s slotID portKind totalLen)
                 else mok tt in
       with_port_moved s opts slotID portKind rollback
         (attach_publish s opts slotID innerIP portKind value totalLen))).

(** The checks before the claim: they touch nothing. *)
Definition attach_checks (s : switchContext) (opts : AttachOptions) : res (GeneveOptsValue * Z * Z) :=
  let cfg := sx_cfg s in
  let locator := geneveLocatorFromConfig cfg in
  guard! (GeneveLocator_valid locator)
  else errorf ("switch has invalid GENEVE locator value " +:+ fmt_u (sc_GeneveLocator cfg)
               +:+ "; rebuild the switch") in
  let! _ := validateTransitGeneveVNI locator (ao_TransitGeneveVNI opts) in
  let! vl := marshalGeneveOptions locator (tlv_from_config cfg) (ao_TransitGeneveOpts opts) in
  let! innerIP := validateAttachmentAddresses (ao_InnerIP opts) (ao_TransitGatewayIP opts) (ao_TransitMAC opts) in
  let gen := ao_Generation opts in
  let bits := sc_GenerationBits cfg in
  let! _ := if bits =? 0
            then (if negb (gen =? 0)
                  then Err (errorf ("generation " +:+ fmt_u gen +:+ " requires generation_bits > 0")) else Ok tt)
            else (if u64 (Z.shiftl 1 bits) <=? gen
                  then Err (errorf ("generation " +:+ fmt_u gen +:+ " exceeds " +:+ fmt_u bits +:+ "-bit range"))
                  else Ok tt) in
  let! _ := requireAttachmentABI s in
  let! _ := if ao_AdminDown opts then requireDeferredAttachmentABI s else Ok tt in
  Ok (vl, innerIP).

Definition port_error (port : Z) (kind : sentinel) (post : string) : error :=
  errorw ("port " +:+ fmt_d port +:+ ": ") (sentinel_error kind) post.

(** The claim of a slot: the requested one, or the first free one. *)
Definition attach_claim (s : switchContext) (opts : AttachOptions) (innerIP : Z) : M Z :=
  let nports := sc_N_ports (sx_cfg s) in
  if 0 <? ao_Port opts then
    let slotID := u32 (ao_Port opts - 1) in
    if nports <=? slotID
    then merr (port_error (ao_Port opts) ErrPortOutOfRange (" (max " +:+ fmt_u nports +:+ ")"))
    else
      let~ ok := TryAllocate (sx_numSlots s) slotID innerIP in
      if negb ok then merr (port_error (ao_Port opts) ErrPortAllocated "") else mok slotID
  else FindFreeSlot (sx_numSlots s) innerIP.

Definition Attach (s : switchContext) (opts : AttachOptions) : M AttachOutput :=
  let* c := mpure (attach_checks s opts) in
  let '(value, totalLen, innerIP) := c in
  let* slotID := attach_claim s opts innerIP in
  attach_claimed s opts value totalLen innerIP slotID.

(** ** Reserve

    [fuel] bounds the forced retry loop. *)
Fixpoint reserve_force_loop (fuel : nat) (s : switchContext) (hasOpts : bool) (slotID : Z) : M string :=
  match fuel with
  | O => Ret OutOfFuel
  | S fuel =>
      let n := sx_numSlots s in
      let~ current := GetInnerIP n slotID in
      if current =? InnerIPReserved then mok "already_reserved"
      else
        let~ ok := TryReserve n slotID current in
        if ok then
          let~ _ := if hasOpts && negb (Z.land (sc_Features (sx_cfg s)) SwitchFPortUp =? 0)
                       && IsSlotAllocated current
                    then UpdateSlotFields n slotID (λ p, stores p [WFlags 0; WGeneveOptsLen 0])
                    else Ret tt in
          mok "reserved"
        else reserve_force_loop fuel s hasOpts slotID
  end.

Definition reserve_body (fuel : nat) (s : switchContext) (opts : ReserveOptions) (hasOpts : bool)
    (slotID : Z) : M ReserveOutput :=
  let n := sx_numSlots s in
  let* status :=
    if ro_Force opts then reserve_force_loop fuel s hasOpts slotID
    else
      let~ ok := TryAllocate n slotID InnerIPReserved in
      if negb ok then
        let~ current := GetInnerIP n slotID in
        if current =? InnerIPReserved
        then merr (errorf ("port " +:+ fmt_d (ro_Port opts) +:+ ": already reserved"))
        else merr (port_error (ro_Port opts) ErrPortAllocated "")
      else mok "reserved" in
  mok (MkReserveOutput (u32 (slotID + 1)) status).

Definition Reserve (fuel : nat) (s : switchContext) (opts : ReserveOptions) : M ReserveOutput :=
  if ro_Port opts <=? 0 then merr (errorf "--port is required for reserve operations")
  else
    let slotID := u32 (ro_Port opts - 1) in
    let nports := sc_N_ports (sx_cfg s) in
    if nports <=? slotID
    then merr (port_error (ro_Port opts) ErrPortOutOfRange (" (max " +:+ fmt_u nports +:+ ")"))
    else
      let hasOpts := has_geneve_opts s in
      if hasOpts
      then with_lock (acquireCurrentSwitchControlLock s) (reserve_body fuel s opts hasOpts slotID)
      else reserve_body fuel s opts hasOpts slotID.

(** ** Detach *)
(** Bring a veth port's device home, unless it is there already. *)
Definition detach_device {A} (s : switchContext) (opts : DetachOptions) (slotID portKind : Z) (k : M A) : M A :=
  if (portKind =? PortKindVeth) && negb (do_SkipDevice opts) then
    let portName := PortDeviceName (sx_name s) slotID in
    let portNsName := PortNetnsName (sx_meta s) in
    let* portNs := mwrap (λ e, errorw ("failed to get port netns " +:+ portNsName +:+ ": ") e "")
                         (GetByName portNsName) in
    with_defer (NetNS_Close portNs)
      (let~ here := GetLinkInNs portNs portName in
       match here with
       | Ok _ => k
       | Err alreadyInPortNs =>
           if bool_decide (do_FromNetNS opts = "")
           then merr (errorw ("port device " +:+ portName +:+ " not found in " +:+ portNsName
                              +:+ " (use --from-netns if the device was moved): ") alreadyInPortNs "")
           else
             let* fromNs := mwrap (λ e, errorw ("failed to get source netns " +:+ do_FromNetNS opts +:+ ": ") e "")
                                  (GetByName (do_FromNetNS opts)) in
             with_defer (NetNS_Close fromNs)
               (let* _ := mwrap (λ e, errorw ("failed to move " +:+ portName +:+ " back to " +:+ portNsName +:+ ": ") e "")
                                (MoveDevice portName (Some fromNs) portNs) in
                k)
       | Panic => mpanic
       | OutOfFuel => Ret OutOfFuel
       end)
  else k.

Definition reattached (port : Z) : error :=
  errorf ("port " +:+ fmt_d port +:+ " was reattached by another process").

Definition detach_release (s : switchContext) (opts : DetachOptions) (slotID currentIP : Z) : M unit :=
  let n := sx_numSlots s in
  let~ observed := GetInnerIP n slotID in
  if negb (observed =? currentIP) then
    if IsSlotFreeOrReserved observed then mok tt else merr (reattached (do_Port opts))
  else
    store_slot n slotID (WFlags 0)
      (let~ _ := UpdateSlotFields n slotID (λ p, stores p [WGeneveOptsLen 0]) in
       let~ ok := TryRelease n slotID currentIP in
       if negb ok then
         let~ newIP := GetInnerIP n slotID in
         if (newIP =? InnerIPFree) || (newIP =? InnerIPReserved) then mok tt
         else merr (reattached (do_Port opts))
       else mok tt).

Definition Detach (s : switchContext) (opts : DetachOptions) : M unit :=
  if do_Port opts <=? 0 then merr (errorf "port number is required")
  else
    let slotID := u32 (do_Port opts - 1) in
    if sc_N_ports (sx_cfg s) <=? slotID
    then merr (port_error (do_Port opts) ErrPortOutOfRange "")
    else
      let* _ := mpure (requireAttachmentABI s) in
      let n := sx_numSlots s in
      let~ currentIP := GetInnerIP n slotID in
      if IsSlotFreeOrReserved currentIP
      then merr (port_error (do_Port opts) ErrPortNotAttached "")
      else read_slot n slotID (λ x,
             detach_device s opts slotID (SlotPortKind x) (detach_release s opts slotID currentIP)).

(** ** SetPortUp (port_up.go) *)
Definition port_up_writes (opts : PortUpOptions) (value : GeneveOptsValue) : list slot_write :=
  [WGeneveOptsLen (gv_Len value); WTransitGatewayIp (IPToUint32 (po_TransitGatewayIP opts));
   WTransitGeneveVni (po_TransitGeneveVNI opts); WTransitMac mac_zero] ++
  (if bool_decide (6 ≤ length (po_TransitMAC opts))%nat
   then [WTransitMac (copy_into mac_zero (po_TransitMAC opts))] else []).

Definition port_up_checks (s : switchContext) (opts : PortUpOptions) : res (Z * (GeneveOptsValue * Z)) :=
  let cfg := sx_cfg s in
  let! newIP := validateAttachmentAddresses (po_InnerIP opts) (po_TransitGatewayIP opts) (po_TransitMAC opts) in
  let locator := geneveLocatorFromConfig cfg in
  guard! (GeneveLocator_valid locator)
  else errorf ("invalid GENEVE locator " +:+ fmt_u (sc_GeneveLocator cfg)) in
  let! _ := validateTransitGeneveVNI locator (po_TransitGeneveVNI opts) in
  let! vl := marshalGeneveOptions locator (tlv_from_config cfg) (po_TransitGeneveOpts opts) in
  Ok (newIP, vl).

Definition taken_over (port : Z) : error :=
  errorf ("port " +:+ fmt_d port +:+ " was taken over during set-port-up").

Definition port_up_commit (s : switchContext) (opts : PortUpOptions) (id current newIP : Z)
    (value : GeneveOptsValue) : M unit :=
  let n := sx_numSlots s in
  let~ _ := UpdateSlotFields n id (λ p, stores p (port_up_writes opts value)) in
  let~ ok := TryUpdateInnerIP n id current newIP in
  if negb ok
  then merr (errorf ("port " +:+ fmt_d (po_Port opts) +:+ " ownership changed during set-port-up"))
  else
    let~ now := GetInnerIP n id in
    if negb (now =? newIP) then merr (taken_over (po_Port opts))
    else store_slot n id (WFlags PortFUp) (mok tt).

Definition SetPortUp (s : switchContext) (opts : PortUpOptions) : M unit :=
  let n := sx_numSlots s in
  if (po_Port opts <=? 0) || (sc_N_ports (sx_cfg s) <? u64 (po_Port opts))
  then merr (port_error (po_Port opts) ErrPortOutOfRange "")
  else
    let* _ := mpure (requireDeferredAttachmentABI s) in
    let id := u32 (po_Port opts - 1) in
    let~ current := GetInnerIP n id in
    if negb (IsSlotAllocated current) then merr (port_error (po_Port opts) ErrPortNotAttached "")
    else read_slot n id (λ x,
      if negb (Z.land (si_Flags x) PortFUp =? 0)
      then merr (errorf ("port " +:+ fmt_d (po_Port opts) +:+ " is already up"))
      else
        let* c := mpure (port_up_checks s opts) in
        let '(newIP, (value, wireLen)) := c in
        let* _ := if negb (wireLen =? 0)
                  then read_slot n id (λ x, validateAttachMTU s id (SlotPortKind x) wireLen)
                  else mok tt in
        let~ seen := GetInnerIP n id in
        if negb (seen =? current) then merr (taken_over (po_Port opts))
        else
          let* _ := writeGeneveOpts id value in
          let~ seen := GetInnerIP n id in
          if negb (seen =? current) then merr (taken_over (po_Port opts))
          else port_up_commit s opts id current newIP value).

(** ** Entry points that open the switch by name *)
Section ByName.
Context (unmarshal : string → res SwitchMetadata).
Definition AttachByName (switchName : string) (opts : AttachOptions) : M AttachOutput :=
  with_switch (Open unmarshal switchName) (λ sw, Attach sw opts).
Definition ReserveByName (fuel : nat) (switchName : string) (opts : ReserveOptions) : M ReserveOutput :=
  with_switch (Open unmarshal switchName) (λ sw, Reserve fuel sw opts).
Definition DetachByName (switchName : string) (opts : DetachOptions) : M unit :=
  with_switch (Open unmarshal switchName) (λ sw, Detach sw opts).
Definition SetPortUpByName (switchName : string) (opts : PortUpOptions) : M unit :=
  with_switch (Open unmarshal switchName) (λ sw, SetPortUp sw opts).
End ByName.

(** ** Parts that do not touch the slot table *)
Lemma writeGeneveOpts_kern_ret i v : kern_ret (writeGeneveOpts i v).
Proof. unfold writeGeneveOpts. kern_ret. Qed.
Lemma validateAttachMTU_kern_ret s i k o : kern_ret (validateAttachMTU s i k o).
Proof. unfold validateAttachMTU. kern_ret. Qed.
#[export] Hint Resolve writeGeneveOpts_kern_ret validateAttachMTU_kern_ret : kern_ret.
