(* ===== verification/AttachSpec.v ===== *)
(** * What the attachment operations do to the slot table

    The functional contract of [Attach], [Reserve], [Detach] and [SetPortUp]
    when nobody else touches the table, for every behaviour of the kernel and
    of the namespace and device packages. *)
From S2P Require Import Prelude Errors GoStrings GoNet BpfTypes Mac Geneve Prog SlotTable Netns.
From S2P Require Import Netlink Config Metadata Loader Context Flock Attach.

(** ** Well-formed contexts *)
Record ctx_ok (s : switchContext) (slots : list SlotItem) : Prop := {
  ctx_num : sx_numSlots s = sc_N_ports (sx_cfg s);
  ctx_pos : 0 ≤ sc_N_ports (sx_cfg s);
  ctx_fit : sc_N_ports (sx_cfg s) ≤ Z.of_nat (length slots);
  ctx_max : sc_N_ports (sx_cfg s) ≤ MaxPorts;
  ctx_mac : length (sc_SwitchMac (sx_cfg s)) = 6%nat;
}.
#[export] Instance ctx_ok_dec s slots : Decision (ctx_ok s slots).
Proof.
  refine (cast_if (decide (sx_numSlots s = sc_N_ports (sx_cfg s) ∧ 0 ≤ sc_N_ports (sx_cfg s) ∧
    sc_N_ports (sx_cfg s) ≤ Z.of_nat (length slots) ∧ sc_N_ports (sx_cfg s) ≤ MaxPorts ∧
    length (sc_SwitchMac (sx_cfg s)) = 6%nat))).
  - abstract (destruct_and!; by constructor).
  - abstract (intros []; naive_solver).
Defined.

(** The table [slots'] differs from [slots] at slot [i] at most. *)
Definition only_slot (i : Z) (slots slots' : list SlotItem) : Prop :=
  ∀ k, k ≠ i → slot_at slots' k = slot_at slots k.

Lemma only_slot_set i slots x : 0 ≤ i → only_slot i slots (set_slot slots i x).
Proof. intros Hi k Hk. by apply slot_at_set_ne. Qed.
Lemma only_slot_refl i slots : only_slot i slots slots.
Proof. done. Qed.
#[export] Hint Resolve only_slot_set only_slot_refl : go.

(** ** Attach *)
Definition gateway_of (ip : IP) : Z := match ip with Some _ => IPToUint32 ip | None => 0 end.
Definition mac_or_zero (mac : HardwareAddr) : list Z :=
  if bool_decide (6 ≤ length mac)%nat then copy_into mac_zero mac else mac_zero.

(** The provisioned part of a slot: written by provisioning, never by an
    attachment. *)
Definition same_device (x y : SlotItem) : Prop :=
  si_Ifindex y = si_Ifindex x ∧ si_Mode y = si_Mode x ∧ si_TransitIfindex y = si_TransitIfindex x ∧
  si_TransitIp y = si_TransitIp x ∧ si_MgmtCidrCount y = si_MgmtCidrCount x ∧
  si_MgmtCidrs0 y = si_MgmtCidrs0 x ∧ si_MgmtCidrsExt y = si_MgmtCidrsExt x.

Record attached (opts : AttachOptions) (value : GeneveOptsValue) (ip : Z) (x y : SlotItem) : Prop := {
  att_ip : si_InnerIp y = ip;
  att_gateway : si_TransitGatewayIp y = gateway_of (ao_TransitGatewayIP opts);
  att_vni : si_TransitGeneveVni y = ao_TransitGeneveVNI opts;
  att_mac : si_TransitMac y = mac_or_zero (ao_TransitMAC opts);
  att_opts : si_GeneveOptsLen y = gv_Len value;
  att_gen : si_Generation y = ao_Generation opts;
  att_up : si_Flags y = (if ao_AdminDown opts then 0 else PortFUp);
  att_ready : si_StatsReady y = 0 ∨ si_StatsReady y = 1;
  att_device : same_device x y;
}.

(** A claim that was given back: free, down, with no option hint. *)
Record rolled_back (x y : SlotItem) : Prop := {
  rb_free : si_InnerIp y = InnerIPFree;
  rb_down : si_Flags y = 0;
  rb_hint : si_GeneveOptsLen y = 0;
  rb_device : same_device x y;
}.

(** The slot right after the claim and the first stores. *)
Definition claimed_slot (opts : AttachOptions) (ip : Z) (x : SlotItem) : SlotItem :=
  write_all (claim_writes opts) (write_slot (WStatsReady 0) (set_InnerIp ip x)).

Definition published_slot (opts : AttachOptions) (value : GeneveOptsValue) (ready : bool) (y : SlotItem) : SlotItem :=
  let y := write_all [WGeneveOptsLen (gv_Len value); WGeneration (ao_Generation opts)] y in
  let y := if ready then write_slot (WStatsReady 1) y else y in
  if ao_AdminDown opts then y else write_slot (WFlags PortFUp) y.

Lemma claimed_published opts value ip x ready :
  attached opts value ip x (published_slot opts value ready (claimed_slot opts ip x)).
Proof.
  unfold published_slot, claimed_slot, claim_writes, gateway_of.
  destruct x, (bool_decide (6 ≤ length (ao_TransitMAC opts))%nat) eqn:Em, (ao_AdminDown opts) eqn:E, ready,
    (ao_TransitGatewayIP opts) eqn:Eg;
    constructor; simpl; rewrite ?E, ?Eg; unfold mac_or_zero; rewrite ?Em; auto; by repeat split.
Qed.
Lemma claimed_rolled_back opts ip x :
  rolled_back x (set_InnerIp InnerIPFree (claimed_slot opts ip x)).
Proof.
  unfold claimed_slot, claim_writes.
  destruct x, (bool_decide (6 ≤ length (ao_TransitMAC opts))%nat);
    constructor; simpl; auto; by repeat split.
Qed.
Lemma claimed_ip opts ip x : si_InnerIp (claimed_slot opts ip x) = ip.
Proof. unfold claimed_slot. by rewrite InnerIp_write_all, InnerIp_write, InnerIp_set. Qed.

Lemma claimed_kind opts ip x : SlotPortKind (claimed_slot opts ip x) = SlotPortKind x.
Proof.
  unfold claimed_slot, claim_writes. by destruct x, (bool_decide (6 ≤ length (ao_TransitMAC opts))%nat).
Qed.

Section claimed.
Context (s : switchContext) (opts : AttachOptions) (value : GeneveOptsValue) (total ip i : Z).
Context (slots : list SlotItem) (x y : SlotItem).
Context (Q : res AttachOutput → list SlotItem → Prop).
Context (Hctx : ctx_ok s slots) (Hi : 0 ≤ i < sx_numSlots s).
Context (Hy : slot_at slots i = Some y) (Hip : si_InnerIp y = ip).

Lemma wp_store_slot w (k : M unit) (P : res unit → list SlotItem → Prop) sl z :
  slot_at sl i = Some z → wp alone k P (set_slot sl i (write_slot w z)) →
  wp alone (store_slot (sx_numSlots s) i w k) P sl.
Proof.
  intros Hz Hk. unfold store_slot. rewrite GetSlot_lt by lia. cbn [deref]. apply wp_bind.
  by eapply wp_store_alone.
Qed.

Lemma wp_attach_publish portKind :
  (∀ ready mac, Q (Ok (attach_output s opts i portKind total mac))
                  (set_slot slots i (published_slot opts value ready y))) →
  wp alone (attach_publish s opts i ip portKind value total) Q slots.
Proof.
  intros HQ. unfold attach_publish. cbv zeta. apply wp_bind.
  eapply wp_GetInnerIP; [lia|done|]. rewrite Hip, Z.eqb_refl. cbn [negb].
  apply wp_bind. eapply wp_UpdateSlotFields; [lia|done|].
  set (y1 := write_all _ y). set (s1 := set_slot slots i y1).
  assert (Hy1 : slot_at s1 i = Some y1) by (by eapply slot_at_set).
  apply wp_bind. eapply wp_alone_ends_in; [apply ResetStats_kern_ret|]. intros reset Hreset.
  apply wp_mbind.
  assert (Hstep : ∀ ready sl z, slot_at sl i = Some z → sl = set_slot slots i z →
    published_slot opts value ready y = (if ao_AdminDown opts then z else write_slot (WFlags PortFUp) z) →
    wp alone (let* _ := if negb (ao_AdminDown opts)
                        then store_slot (sx_numSlots s) i (WFlags PortFUp) (mok tt) else mok tt in
              let* portMAC := mpure (GetPortMAC (sc_SwitchMac (sx_cfg s)) (sc_PortMac (sx_cfg s)) i) in
              mok (attach_output s opts i portKind total portMAC)) Q sl).
  { intros ready sl z Hz Hsl Hpub. specialize (HQ ready). rewrite Hpub in HQ. apply wp_mbind.
    assert (Hmac : is_Some (get_ok (GetPortMAC (sc_SwitchMac (sx_cfg s)) (sc_PortMac (sx_cfg s)) i))).
    { apply GetPortMAC_ok, (ctx_mac _ _ Hctx). }
    destruct Hmac as [mac Hmac]. destruct (GetPortMAC _ _ i) eqn:Em; try done.
    destruct (ao_AdminDown opts); cbn [negb].
    - subst sl. apply (HQ a).
    - eapply wp_store_slot; [done|]. subst sl. rewrite set_slot_set. apply (HQ a). }
  destruct (is_ok reset).
  - eapply wp_store_slot; [done|]. simpl.
    apply (Hstep true _ (write_slot (WStatsReady 1) y1)); [by eapply slot_at_set| |].
    + unfold s1. by rewrite !set_slot_set.
    + unfold published_slot. by destruct (ao_AdminDown opts).
  - simpl. apply (Hstep false _ y1); [done|done|]. unfold published_slot. by destruct (ao_AdminDown opts).
Qed.

Lemma wp_or_rollback {A} wrap (p : M A) (P : res A → list SlotItem → Prop) :
  kern_ret p → (∀ a, P (Ok a) slots) →
  (∀ e, P (Err e) (set_slot slots i (set_InnerIp InnerIPFree y))) →
  wp alone (or_rollback (TryRelease (sx_numSlots s) i ip) wrap p) P slots.
Proof.
  intros Hp Hok Herr. unfold or_rollback, on_err. apply wp_bind, wp_mwrap.
  eapply wp_alone_kern_ret; [done|done|]. intros e. cbn [map_err].
  apply wp_bind. eapply wp_TryRelease; [lia|done| |by rewrite Hip]. intros _. apply Herr.
Qed.

Lemma wp_with_port_moved {A} portKind (k : M A) (P : res A → list SlotItem → Prop) :
  wp alone k P slots → (∀ e, P (Err e) (set_slot slots i (set_InnerIp InnerIPFree y))) →
  wp alone (with_port_moved s opts i portKind (TryRelease (sx_numSlots s) i ip) k) P slots.
Proof.
  intros Hk Herr. unfold with_port_moved. destruct (_ && _); [|done].
  assert (Hdefer : ∀ ns (p : M A) sl (P : res A → list SlotItem → Prop),
    wp alone p P sl → wp alone (with_defer (NetNS_Close ns) p) P sl).
  { intros ns p sl P' Hp. unfold with_defer. apply wp_bind. eapply wp_mono; [done|].
    intros r sl' HP'. apply wp_bind. by apply wp_alone_kern_only. }
  cbv zeta. apply wp_mbind, wp_or_rollback; [auto with kern_ret| |done]. intros portNs.
  apply Hdefer. apply wp_mbind, wp_or_rollback; [auto with kern_ret| |done]. intros toNs.
  apply Hdefer. apply wp_mbind, wp_or_rollback; [auto with kern_ret| |done]. by intros [].
Qed.
End claimed.

(** The claim is ours: either the slot ends up fully attached, or it is given
    back; no other slot changes. *)
Lemma wp_attach_claimed s opts value total ip i slots x (Q : res AttachOutput → list SlotItem → Prop) :
  ctx_ok s slots → 0 ≤ i < sx_numSlots s →
  slot_at slots i = Some (write_slot (WStatsReady 0) (set_InnerIp ip x)) →
  (∀ ready mac, Q (Ok (attach_output s opts i (SlotPortKind x) total mac))
     (set_slot slots i (published_slot opts value ready (claimed_slot opts ip x)))) →
  (∀ e, Q (Err e) (set_slot slots i (set_InnerIp InnerIPFree (claimed_slot opts ip x)))) →
  wp alone (attach_claimed s opts value total ip i) Q slots.
Proof.
  intros Hctx Hi Hx Hok Herr. unfold attach_claimed. cbv zeta. apply wp_bind.
  eapply wp_UpdateSlotFields; [lia|done|]. fold (claimed_slot opts ip x).
  set (y := claimed_slot opts ip x) in *. set (s1 := set_slot slots i y).
  assert (Hy : slot_at s1 i = Some y) by (by eapply slot_at_set).
  assert (Hctx1 : ctx_ok s s1) by (destruct Hctx; constructor; unfold s1; by rewrite ?set_slot_length).
  pose proof (claimed_ip opts ip x) as Hip. fold y in Hip.
  assert (Herr1 : ∀ e, Q (Err e) (set_slot s1 i (set_InnerIp InnerIPFree y))).
  { intros e. unfold s1. rewrite set_slot_set. apply Herr. }
  unfold read_slot. rewrite GetSlot_lt by lia. cbn [deref]. apply wp_bind. eapply wp_load_slot_alone; [done|].
  assert (Hrest : wp alone
    (let* _ := or_rollback (TryRelease (sx_numSlots s) i ip)
                 (λ e, errorw ("write GENEVE options for port " +:+ fmt_u (u32 (i + 1)) +:+ ": ") e "")
                 (writeGeneveOpts i value) in
     let* _ := if negb (total =? 0)
               then or_rollback (TryRelease (sx_numSlots s) i ip) id
                      (validateAttachMTU s i (SlotPortKind y) total) else mok tt in
     with_port_moved s opts i (SlotPortKind y) (TryRelease (sx_numSlots s) i ip)
       (attach_publish s opts i ip (SlotPortKind y) value total)) Q s1).
  { apply wp_mbind, (wp_or_rollback s ip i s1 y Hi Hy Hip); [auto with kern_ret| |done].
    intros _. apply wp_mbind.
    assert (Hpub : wp alone (with_port_moved s opts i (SlotPortKind y) (TryRelease (sx_numSlots s) i ip)
       (attach_publish s opts i ip (SlotPortKind y) value total)) Q s1).
    { apply (wp_with_port_moved s opts ip i s1 y Hi Hy Hip); [|done].
      apply (wp_attach_publish s opts value total ip i s1 y Q Hctx1 Hi Hy Hip).
      intros ready mac. unfold s1. rewrite set_slot_set. unfold y at 1. rewrite claimed_kind. apply Hok. }
    destruct (negb (total =? 0)); [|done].
    apply (wp_or_rollback s ip i s1 y Hi Hy Hip); [auto with kern_ret|by intros _|done]. }
  destruct (SlotPortKind y =? PortKindTap); [|done].
  apply wp_bind. eapply wp_load_slot_alone; [done|]. destruct (si_Ifindex y =? 0); [|done].
  apply wp_bind. eapply wp_TryRelease; [lia|done| |by rewrite Hip]. intros _. apply Herr1.
Qed.

(** The checks answer with a value or an error. *)
Lemma marshalGeneveOptions_loop_returns locator tlv i off v opts :
  returns (marshalGeneveOptions_loop locator tlv i off v opts).
Proof. revert i off v. induction opts as [|o opts IH]; intros; cbn [marshalGeneveOptions_loop]; returns. Qed.
#[export] Hint Resolve marshalGeneveOptions_loop_returns : returns.
Lemma marshalGeneveOptions_returns locator tlv opts : returns (marshalGeneveOptions locator tlv opts).
Proof. unfold marshalGeneveOptions. returns. Qed.
Lemma validateAttachmentAddresses_returns inner gw mac : returns (validateAttachmentAddresses inner gw mac).
Proof. unfold validateAttachmentAddresses. returns. Qed.
#[export] Hint Resolve marshalGeneveOptions_returns validateAttachmentAddresses_returns : returns.
Lemma attach_checks_returns s opts : returns (attach_checks s opts).
Proof.
  unfold attach_checks, validateTransitGeneveVNI, requireDeferredAttachmentABI, requireAttachmentABI. returns.
Qed.

(** What the checks guarantee of the address a slot will carry. *)
Lemma validateAttachmentAddresses_ok inner gw mac ip :
  validateAttachmentAddresses inner gw mac = Ok ip → ip = IPToUint32 inner ∧ state_of ip = SAllocated ip.
Proof.
  unfold validateAttachmentAddresses. intros H. invert_ok. split; [done|]. unfold state_of.
  by repeat match goal with H : (_ =? _) = false |- _ => rewrite H end.
Qed.
Lemma attach_checks_ip s opts value total ip :
  attach_checks s opts = Ok (value, total, ip) →
  ip = IPToUint32 (ao_InnerIP opts) ∧ state_of ip = SAllocated ip.
Proof.
  unfold attach_checks. intros H. invert_ok;
    match goal with H : validateAttachmentAddresses _ _ _ = Ok _ |- _ =>
      by apply validateAttachmentAddresses_ok in H end.
Qed.

(** The slot a request names: the given port, or the first free slot. *)
Definition names_slot (opts : AttachOptions) (slots : list SlotItem) (i : Z) : Prop :=
  if 0 <? ao_Port opts then i = u32 (ao_Port opts - 1)
  else ∀ j, 0 ≤ j < i → ¬ free_at slots j.

(** The promise of [Attach]. *)
Definition attach_post (s : switchContext) (opts : AttachOptions) (slots : list SlotItem)
    (r : res AttachOutput) (slots' : list SlotItem) : Prop :=
  match attach_checks s opts, r with
  | Err e, r => r = Err e ∧ slots' = slots
  | Ok (value, _, ip), Ok out =>
      ∃ i x y, 0 ≤ i < sc_N_ports (sx_cfg s) ∧ names_slot opts slots i ∧ at_Port out = i + 1 ∧
        at_Mode out = PortKind_String (SlotPortKind x) ∧
        free_at slots i ∧ slot_at slots i = Some x ∧ slot_at slots' i = Some y ∧
        attached opts value ip x y ∧ state_of ip = SAllocated ip ∧ only_slot i slots slots'
  | Ok (value, _, ip), Err e =>
      (slots' = slots ∧
         (if 0 <? ao_Port opts then
            let i := u32 (ao_Port opts - 1) in
            if sc_N_ports (sx_cfg s) <=? i then IsPortOutOfRange (Some e) = true
            else IsPortAllocated (Some e) = true ∧ ¬ free_at slots i
          else ∀ j, 0 ≤ j < sc_N_ports (sx_cfg s) → ¬ free_at slots j)) ∨
      (∃ i x y, 0 ≤ i < sc_N_ports (sx_cfg s) ∧ names_slot opts slots i ∧
        free_at slots i ∧ slot_at slots i = Some x ∧ slot_at slots' i = Some y ∧
        rolled_back x y ∧ only_slot i slots slots')
  | _, _ => False
  end.

Lemma IsPortAllocated_port_error port post : IsPortAllocated (Some (port_error port ErrPortAllocated post)) = true.
Proof. done. Qed.
Lemma IsPortOutOfRange_port_error port post : IsPortOutOfRange (Some (port_error port ErrPortOutOfRange post)) = true.
Proof. done. Qed.

(** Winning the claim of slot [i] is enough for the rest. *)
Lemma attach_claimed_post s opts value total ip i slots x :
  ctx_ok s slots → attach_checks s opts = Ok (value, total, ip) →
  0 ≤ i < sc_N_ports (sx_cfg s) → names_slot opts slots i → free_at slots i → slot_at slots i = Some x →
  wp alone (attach_claimed s opts value total ip i) (attach_post s opts slots)
     (set_slot slots i (write_slot (WStatsReady 0) (set_InnerIp ip x))).
Proof.
  intros Hctx Hc Hi Hn Hf Hx. pose proof (attach_checks_ip _ _ _ _ _ Hc) as [_ Hst].
  assert (Hnum := ctx_num _ _ Hctx). assert (Hmax := ctx_max _ _ Hctx). unfold MaxPorts in Hmax.
  eapply wp_attach_claimed.
  - destruct Hctx. constructor; rewrite ?set_slot_length; auto.
  - lia.
  - by eapply slot_at_set.
  - intros ready mac. unfold attach_post. rewrite Hc. exists i, x. eexists.
    rewrite set_slot_set. split_and!; try done; try lia.
    + cbn [attach_output at_Port]. apply u32_small. unfold is_u32. lia.
    + by eapply slot_at_set.
    + apply claimed_published.
    + apply only_slot_set. lia.
  - intros e. unfold attach_post. rewrite Hc. right. exists i, x. eexists.
    rewrite set_slot_set. split_and!; try done; try lia.
    + by eapply slot_at_set.
    + apply claimed_rolled_back.
    + apply only_slot_set. lia.
Qed.

Lemma wp_Attach s opts slots :
  ctx_ok s slots → wp alone (Attach s opts) (attach_post s opts slots) slots.
Proof.
  intros Hctx. assert (Hnum := ctx_num _ _ Hctx). assert (Hpos := ctx_pos _ _ Hctx).
  assert (Hfit := ctx_fit _ _ Hctx). unfold Attach. apply wp_mbind. cbn [mpure wp].
  pose proof (attach_checks_returns s opts) as Hr.
  destruct (attach_checks s opts) as [[[value total] ip]|e| |] eqn:Hc; try done;
    [|unfold attach_post; by rewrite Hc].
  apply wp_mbind. unfold attach_claim. destruct (0 <? ao_Port opts) eqn:Hport.
  - destruct (sc_N_ports (sx_cfg s) <=? u32 (ao_Port opts - 1)) eqn:Hrange.
    + unfold attach_post. cbn [merr wp]. rewrite Hc, Hport, Hrange. by left.
    + pose proof (u32_range (ao_Port opts - 1)) as [Hu _]. set (i := u32 (ao_Port opts - 1)) in *.
      destruct (slot_at_in slots i) as [x Hx]; [unfold in_slots; lia|].
      apply wp_bind. eapply wp_TryAllocate; [lia|done| |].
      * intros Hfree. cbn [negb mok wp]. apply attach_claimed_post; auto; [lia| |by eapply free_at_ip].
        unfold names_slot. by rewrite Hport.
      * intros Hbusy. unfold attach_post. cbn [merr wp negb]. rewrite Hc, Hport. fold i. rewrite Hrange.
        left. split; [done|]. by rewrite (free_at_ip slots i x Hx).
  - apply wp_FindFreeSlot; [lia| |].
    + intros j x Hj Hx Hfree Hfirst. apply attach_claimed_post; auto; [lia|].
      unfold names_slot. by rewrite Hport.
    + intros Hnone. unfold attach_post. rewrite Hc, Hport. left. split; [done|].
      intros j Hj. apply Hnone. lia.
Qed.

(** C1: [Attach], for every answer of the kernel and of the device packages:
    a refused request is reported with the table untouched; otherwise exactly
    one slot is concerned, the requested port or the lowest free one, and it
    was Free before.  On success it now holds the requested address, gateway,
    VNI, MAC, option length and generation, is up unless the administrator
    asked otherwise, keeps its provisioned device, and the reported port and
    mode are its own.  On a failure after the claim it is Free and down again.  No other
    slot changes, and the call never panics. *)
Theorem Attach_spec s opts slots :
  ctx_ok s slots → wp alone (Attach s opts) (attach_post s opts slots) slots.
Proof. apply wp_Attach. Qed.

(** A four-port switch with deferred publication, for the examples. *)
Definition ex_cfg : SwitchConfig :=
  MkSwitchConfig [2; 0; 94; 10; 18; 52] 4 1681915904 50000 0 0 mac_zero 0
    (Z.lor SwitchFPortUp SwitchFDeferredUp) 0 0 0.
Definition ex_switch : switchContext :=
  MkContext "sw0" (Some (MkBpfMaps (Some 3) (Some 4) (Some 5) (Some 6) (Some 7) (Some 8) (Some 9) (Some 10)))
    ex_cfg SwitchMetadata_zero 4 4.
Definition ex_attach (port : Z) : AttachOptions :=
  MkAttachOptions port 0 "" (IPv4 10 0 0 7) (IPv4 10 0 0 1) 77 [] [] false true.
Lemma ex_switch_ok : ctx_ok ex_switch ex_table.
Proof. decide_true. Qed.

Lemma Attach_spec_witness :
  attach_checks ex_switch (ex_attach 0) = Ok (GeneveOptsValue_zero, 0, 167772167) ∧
  wp alone (Attach ex_switch (ex_attach 0)) (attach_post ex_switch (ex_attach 0) ex_table) ex_table.
Proof. split; [by vm_compute | apply (Attach_spec ex_switch (ex_attach 0) ex_table), ex_switch_ok]. Defined.
