(* ===== verification/AttachRace.v ===== *)
(** * Attachments racing each other

    [Attach] keeps to the claim monitor of [Interleave], so any number of
    concurrent attachments to one switch end up on distinct ports, and the
    failed ones leave every address as it was. *)
From S2P Require Import Prelude Errors GoStrings GoNet BpfTypes Mac Geneve Prog SlotTable Interleave.
From S2P Require Import Netns Netlink Config Metadata Loader Context Flock Attach AttachSpec.

(** ** Monitor rules for the slot operations *)
Lemma wp_claim_ends_in {A} P (p : prog A) (Q : A → claim → Prop) h :
  ends_in P p → (∀ a, P a → Q a h) → wp claim_sem p Q h.
Proof.
  induction p as [a|B e k IH]; simpl; intros Hk HQ; [by auto|].
  destruct e; try (by destruct Hk). destruct Hk as [_ Hk]. split; [done|].
  intros b h' ->. by apply IH.
Qed.
Lemma wp_claim_kern_only {A} (p : prog A) (Q : A → claim → Prop) h :
  kern_only p → (∀ a, Q a h) → wp claim_sem p Q h.
Proof. intros Hk%kern_only_ends HQ. by eapply wp_claim_ends_in. Qed.
Lemma wp_claim_kern_ret {A} (p : M A) (Q : res A → claim → Prop) h :
  kern_ret p → (∀ a, Q (Ok a) h) → (∀ e, Q (Err e) h) → wp claim_sem p Q h.
Proof. intros Hk Hok Herr. eapply wp_claim_ends_in; [exact Hk|]. by intros []. Qed.

Lemma wp_claim_stores i ip ws (Q : unit → claim → Prop) :
  Q tt (Some (i, ip)) → wp claim_sem (stores i ws) Q (Some (i, ip)).
Proof.
  intros HQ. induction ws as [|w ws IH]; [done|]. cbn [stores]. apply wp_bind. split; [done|].
  intros [] h ->. apply IH.
Qed.
Lemma wp_claim_TryAllocate n i ip (Q : bool → claim → Prop) :
  0 ≤ i → ip ≠ InnerIPFree → Q true (Some (i, ip)) → Q false None →
  wp claim_sem (TryAllocate n i ip) Q None.
Proof.
  intros Hi Hip Ht Hf. unfold TryAllocate, getInnerIPPtr. destruct (n <=? i); [done|].
  apply wp_bind. split; [done|]. intros [] h ->; [|done]. cbn [negb]. apply wp_bind.
  split; [done|]. by intros [] h ->.
Qed.
Lemma wp_claim_FindFreeSlot n ip (Q : res Z → claim → Prop) :
  ip ≠ InnerIPFree → (∀ i, 0 ≤ i < n → Q (Ok i) (Some (i, ip))) → (∀ e, Q (Err e) None) →
  wp claim_sem (FindFreeSlot n ip) Q None.
Proof.
  intros Hip Hok Herr. unfold FindFreeSlot.
  assert (∀ k i, 0 ≤ i → i + Z.of_nat k ≤ Z.max n 0 → wp claim_sem (FindFreeSlot_loop k n i ip) Q None) as H.
  { induction k as [|k IH]; intros i Hi Hk; cbn [FindFreeSlot_loop]; [apply Herr|].
    apply wp_bind, wp_claim_TryAllocate; [done|done|apply Hok; lia|]. apply IH; lia. }
  apply H; lia.
Qed.

Section owner.
Context (s : switchContext) (opts : AttachOptions) (value : GeneveOptsValue) (total ip i : Z).
Context (Hi : 0 ≤ i < sx_numSlots s).
Notation own := (Some (i, ip)).

Lemma wp_claim_update ws (Q : unit → claim → Prop) :
  Q tt own → wp claim_sem (UpdateSlotFields (sx_numSlots s) i (λ p, stores p ws)) Q own.
Proof. intros. unfold UpdateSlotFields. rewrite GetSlot_lt by lia. by apply wp_claim_stores. Qed.
Lemma wp_claim_store_slot w (k : M unit) (Q : res unit → claim → Prop) :
  wp claim_sem k Q own → wp claim_sem (store_slot (sx_numSlots s) i w k) Q own.
Proof.
  intros Hk. unfold store_slot. rewrite GetSlot_lt by lia. cbn [deref]. apply wp_bind.
  split; [done|]. by intros [] h ->.
Qed.
Lemma wp_claim_read_slot {A} (k : SlotItem → M A) (Q : res A → claim → Prop) :
  (∀ x, wp claim_sem (k x) Q own) → wp claim_sem (read_slot (sx_numSlots s) i k) Q own.
Proof.
  intros Hk. unfold read_slot. rewrite GetSlot_lt by lia. cbn [deref]. apply wp_bind.
  split; [done|]. intros x h ->. apply Hk.
Qed.
Lemma wp_claim_release (Q : bool → claim → Prop) :
  Q true None → wp claim_sem (TryRelease (sx_numSlots s) i ip) Q own.
Proof.
  intros HQ. unfold TryRelease. rewrite ptr_lt by lia. split; [done|]. by intros b h [-> ->].
Qed.
Lemma wp_claim_GetInnerIP (Q : Z → claim → Prop) :
  Q ip own → wp claim_sem (GetInnerIP (sx_numSlots s) i) Q own.
Proof.
  intros HQ. unfold GetInnerIP. rewrite ptr_lt by lia. split; [done|]. intros b h [-> Hb].
  by rewrite (Hb eq_refl).
Qed.

Lemma wp_claim_or_rollback {A} wrap (p : M A) (P : res A → claim → Prop) :
  kern_ret p → (∀ a, P (Ok a) own) → (∀ e, P (Err e) None) →
  wp claim_sem (or_rollback (TryRelease (sx_numSlots s) i ip) wrap p) P own.
Proof.
  intros Hp Hok Herr. unfold or_rollback, on_err. apply wp_bind, wp_mwrap.
  eapply wp_claim_kern_ret; [done|done|]. intros e. cbn [map_err].
  apply wp_bind, wp_claim_release. apply Herr.
Qed.

Lemma wp_claim_defer ns {A} (p : M A) (P : res A → claim → Prop) h :
  wp claim_sem p P h → wp claim_sem (with_defer (NetNS_Close ns) p) P h.
Proof.
  intros Hp. unfold with_defer. apply wp_bind. eapply wp_mono; [done|].
  intros r h' HP. apply wp_bind. by apply wp_claim_kern_only.
Qed.

Lemma wp_claim_port_moved {A} portKind (k : M A) (P : res A → claim → Prop) :
  wp claim_sem k P own → (∀ e, P (Err e) None) →
  wp claim_sem (with_port_moved s opts i portKind (TryRelease (sx_numSlots s) i ip) k) P own.
Proof.
  intros Hk Herr. unfold with_port_moved. destruct (_ && _); [|done].
  cbv zeta. apply wp_mbind, wp_claim_or_rollback; [auto with kern_ret| |done]. intros portNs.
  apply wp_claim_defer, wp_mbind, wp_claim_or_rollback; [auto with kern_ret| |done]. intros toNs.
  apply wp_claim_defer, wp_mbind, wp_claim_or_rollback; [auto with kern_ret| |done]. by intros [].
Qed.

Lemma wp_claim_publish portKind (Q : res AttachOutput → claim → Prop) :
  length (sc_SwitchMac (sx_cfg s)) = 6%nat →
  (∀ mac, Q (Ok (attach_output s opts i portKind total mac)) own) →
  wp claim_sem (attach_publish s opts i ip portKind value total) Q own.
Proof.
  intros Hm HQ. unfold attach_publish. cbv zeta. apply wp_bind, wp_claim_GetInnerIP.
  rewrite Z.eqb_refl. cbn [negb]. apply wp_bind, wp_claim_update, wp_bind.
  eapply wp_claim_ends_in; [apply ResetStats_kern_ret|]. intros reset _. apply wp_mbind.
  assert (Hend : wp claim_sem
    (let* _ := if negb (ao_AdminDown opts)
               then store_slot (sx_numSlots s) i (WFlags PortFUp) (mok tt) else mok tt in
     let* portMAC := mpure (GetPortMAC (sc_SwitchMac (sx_cfg s)) (sc_PortMac (sx_cfg s)) i) in
     mok (attach_output s opts i portKind total portMAC)) Q own).
  { assert (is_Some (get_ok (GetPortMAC (sc_SwitchMac (sx_cfg s)) (sc_PortMac (sx_cfg s)) i))) as [mac Hmac]
      by by apply GetPortMAC_ok.
    destruct (GetPortMAC _ _ i) as [a| | |]; try done.
    apply wp_mbind. destruct (ao_AdminDown opts); cbn [negb]; [apply HQ|].
    apply wp_claim_store_slot. apply HQ. }
  destruct (is_ok reset); [apply wp_claim_store_slot|]; exact Hend.
Qed.

Lemma wp_claim_attach_claimed (Q : res AttachOutput → claim → Prop) :
  length (sc_SwitchMac (sx_cfg s)) = 6%nat →
  (∀ kind mac, Q (Ok (attach_output s opts i kind total mac)) own) → (∀ e, Q (Err e) None) →
  wp claim_sem (attach_claimed s opts value total ip i) Q own.
Proof.
  intros Hm HQ Herr. unfold attach_claimed. cbv zeta. apply wp_bind, wp_claim_update, wp_claim_read_slot.
  intros x. assert (Hrest : wp claim_sem
    (let* _ := or_rollback (TryRelease (sx_numSlots s) i ip)
                 (λ e, errorw ("write GENEVE options for port " +:+ fmt_u (u32 (i + 1)) +:+ ": ") e "")
                 (writeGeneveOpts i value) in
     let* _ := if negb (total =? 0)
               then or_rollback (TryRelease (sx_numSlots s) i ip) id
                      (validateAttachMTU s i (SlotPortKind x) total) else mok tt in
     with_port_moved s opts i (SlotPortKind x) (TryRelease (sx_numSlots s) i ip)
       (attach_publish s opts i ip (SlotPortKind x) value total)) Q own).
  { apply wp_mbind, wp_claim_or_rollback; [auto with kern_ret| |done]. intros _. apply wp_mbind.
    assert (Hpub : wp claim_sem (with_port_moved s opts i (SlotPortKind x) (TryRelease (sx_numSlots s) i ip)
       (attach_publish s opts i ip (SlotPortKind x) value total)) Q own)
      by (apply wp_claim_port_moved; [by apply wp_claim_publish|done]).
    destruct (negb (total =? 0)); [|done].
    apply wp_claim_or_rollback; [auto with kern_ret|by intros _|done]. }
  destruct (SlotPortKind x =? PortKindTap); [|done]. apply wp_claim_read_slot. intros x'.
  destruct (si_Ifindex x' =? 0); [|done]. apply wp_bind, wp_claim_release. apply Herr.
Qed.
End owner.

(** What one attachment owns when it returns. *)
Definition attach_owns (s : switchContext) (r : res AttachOutput) (h : claim) : Prop :=
  match r with
  | Ok out => ∃ inner, at_InnerIP out = ip_string inner ∧ 1 ≤ at_Port out ≤ sc_N_ports (sx_cfg s) ∧
      h = Some (at_Port out - 1, IPToUint32 inner) ∧
      state_of (IPToUint32 inner) = SAllocated (IPToUint32 inner)
  | Err _ => h = None
  | _ => False
  end.

Lemma Attach_owns s opts slots :
  ctx_ok s slots → wp claim_sem (Attach s opts) (attach_owns s) None.
Proof.
  intros Hctx. assert (Hnum := ctx_num _ _ Hctx). assert (Hmax := ctx_max _ _ Hctx). unfold MaxPorts in Hmax.
  unfold Attach. apply wp_mbind. cbn [mpure wp]. pose proof (attach_checks_returns s opts) as Hr.
  destruct (attach_checks s opts) as [[[value total] ip]|e| |] eqn:Hc; try done.
  apply attach_checks_ip in Hc as [Hip Hst].
  assert (ip ≠ InnerIPFree) as Hne by (intros ->; by vm_compute in Hst).
  assert (Hclaimed : ∀ i, 0 ≤ i < sx_numSlots s →
    wp claim_sem (attach_claimed s opts value total ip i) (attach_owns s) (Some (i, ip))).
  { intros i Hi. apply wp_claim_attach_claimed; [done|exact (ctx_mac _ _ Hctx)| |done].
    intros kind mac. exists (ao_InnerIP opts). cbn [attach_output at_InnerIP at_Port].
    rewrite u32_small by (unfold is_u32; lia). rewrite <-Hip. split_and!; [done|lia|lia| |done].
    by replace (i + 1 - 1) with i by lia. }
  apply wp_mbind. unfold attach_claim. destruct (0 <? ao_Port opts).
  - destruct (sc_N_ports (sx_cfg s) <=? u32 (ao_Port opts - 1)) eqn:Hrange; [done|].
    pose proof (u32_range (ao_Port opts - 1)) as [Hu _]. set (i := u32 (ao_Port opts - 1)) in *.
    apply wp_bind, wp_claim_TryAllocate; [lia|done| |done]. apply Hclaimed. lia.
  - apply wp_claim_FindFreeSlot; [done|apply Hclaimed|done].
Qed.

(** C3: attachments racing each other.  Let any number of calls of [Attach] on
    one switch interleave, event by event, with arbitrary kernel answers.  In
    every configuration they can reach, no call has panicked; the calls that
    have succeeded hold distinct ports; each of those ports was Free at the
    start and is now Allocated to the address its caller asked for.  Once all
    calls have returned, every slot that no success reports has the address
    state it started with, so a failed attachment leaks no port. *)
Theorem concurrent_attaches_disjoint s slots requests ps slots' :
  ctx_ok s slots → rtc pool_step (map (Attach s) requests, slots) (ps, slots') →
  let won p out := ps !! p = Some (Ret (Ok out)) in
  (∀ p r, ps !! p = Some (Ret r) → returns r) ∧
  (∀ p q out out', won p out → won q out' → at_Port out = at_Port out' → p = q) ∧
  (∀ p out, won p out → 1 ≤ at_Port out ≤ sc_N_ports (sx_cfg s) ∧ free_at slots (at_Port out - 1) ∧
     ∃ inner, at_InnerIP out = ip_string inner ∧
       owner slots' (at_Port out - 1) = Some (SAllocated (IPToUint32 inner))) ∧
  ((∀ p k, ps !! p = Some k → ∃ r, k = Ret r) →
     ∀ i, (∀ p out, won p out → at_Port out ≠ i + 1) → owner slots' i = owner slots i).
Proof.
  intros Hctx Hsteps won. destruct (pool_inv_reach (attach_owns s) (map (Attach s) requests) slots ps slots')
    as [hs HI]; [|done|].
  { intros p k [o [Ho Hk]]%list_elem_of_lookup_2%list_elem_of_fmap_1. rewrite Ho. by eapply Attach_owns. }
  assert (Hret : ∀ p r, ps !! p = Some (Ret r) → ∃ h, hs !! p = Some h ∧ attach_owns s r h).
  { intros p r Hp. destruct (lookup_lt_is_Some_2 hs p) as [h Hh];
      [rewrite (pi_len HI); by eapply lookup_lt_Some|].
    exists h. split; [done|]. exact (pi_wp HI _ _ _ Hp Hh). }
  assert (Hown : ∀ sl i ip, initial_ip sl i = Some ip → owner sl i = Some (state_of ip)).
  { intros sl i ip. unfold initial_ip, owner. destruct (slot_at sl i); naive_solver. }
  assert (Hwon : ∀ p out, won p out → ∃ inner, at_InnerIP out = ip_string inner ∧
    1 ≤ at_Port out ≤ sc_N_ports (sx_cfg s) ∧ hs !! p = Some (Some (at_Port out - 1, IPToUint32 inner)) ∧
    state_of (IPToUint32 inner) = SAllocated (IPToUint32 inner)).
  { intros p out (h & Hh & inner & ? & ? & -> & ?)%Hret. eauto. }
  split_and!.
  - intros p r (h & _ & Hr)%Hret. by destruct r.
  - intros p q out out' (? & _ & _ & Hp & _)%Hwon (? & _ & _ & Hq & _)%Hwon Heq. rewrite Heq in Hp.
    exact (pi_disj HI _ _ _ _ _ Hp Hq).
  - intros p out (inner & Hin & Hrange & Hp & Hst)%Hwon.
    destruct (pi_held HI _ _ _ Hp) as (_ & _ & Hnow & Hbefore). split_and!; [lia|lia| |].
    + unfold free_at. by rewrite (Hown _ _ _ Hbefore).
    + exists inner. split; [done|]. by rewrite (Hown _ _ _ Hnow), Hst.
  - intros Hdone i Hi. assert (initial_ip slots' i = initial_ip slots i) as E.
    { apply (pi_rest HI). intros p ip Hp. destruct (lookup_lt_is_Some_2 ps p) as [k Hk];
        [rewrite <-(pi_len HI); by eapply lookup_lt_Some|].
      destruct (Hdone p k Hk) as [r ->]. destruct (Hret p r Hk) as (h & Hh & Hr).
      injection (eq_trans (eq_sym Hh) Hp) as ->. destruct r as [out|e| |]; try done.
      destruct Hr as (inner & _ & _ & Heq & _). injection Heq as Heq _.
      apply (Hi p out Hk). lia. }
    unfold initial_ip, owner in *. destruct (slot_at slots' i), (slot_at slots i); simplify_eq/=; congruence.
Qed.

(** Two attachments taking turns: both succeed, on ports 3 and 4. *)
Definition ex_race : list (prog (res AttachOutput)) * world unit :=
  pool_run (concat (replicate 40 [0%nat; 1%nat])) (map (Attach ex_switch) [ex_attach 0; ex_attach 0])
    (MkWorld ex_table tt).

Lemma concurrent_attaches_disjoint_witness :
  match ex_race.1 with
  | [Ret (Ok a); Ret (Ok b)] => at_Port a = 3 ∧ at_Port b = 4
  | _ => False
  end ∧
  ∀ p q out out', ex_race.1 !! p = Some (Ret (Ok out)) → ex_race.1 !! q = Some (Ret (Ok out')) →
    at_Port out = at_Port out' → p = q.
Proof.
  split; [by vm_compute|].
  apply (concurrent_attaches_disjoint ex_switch ex_table [ex_attach 0; ex_attach 0] ex_race.1 (w_slots ex_race.2)).
  - apply ex_switch_ok.
  - apply (pool_run_sound _ _ (MkWorld ex_table tt)).
Defined.
