(* ===== verification/Provision.v ===== *)
(** * Provisioning of ports: pkg/vswitch/provision.go

    Each Reserved slot gets a device of the requested kind, its slot and
    reverse-map entries, and is then released to Free.  The progress messages
    on stderr and the clock they read are left out. *)
From S2P Require Import Prelude Errors GoStrings GoNet BpfTypes Mac Geneve Prog SlotTable Netns.
From S2P Require Import Netlink Config MgmtService Metadata Loader Context Flock Attach.

Record ProvisionOptions := MkProvisionOptions { pv_Count : Z; pv_Port : Z; pv_Mode : Z }.
Record ProvisionOutput := MkProvisionOutput { pr_Provisioned : Z; pr_Total : Z; pr_Available : Z }.
Record mgmtInfo := MkMgmtInfo { mi_ifindex : Z; mi_mac : HardwareAddr; mi_cidrs : list MgmtCidr }.

(** ** The slot's device fields

    The count of extraction prefixes lives in the slot, and the shared memory is
    read anew wherever the function names it: for the bound, for the choice
    between the two places, for the index and for the increment.  The index is
    an unsigned word; past the two extra places it panics, as Go's bounds check
    does. *)
Definition write_cidr (p : Z) (cidr : MgmtCidr) : M unit :=
  let~ x := trigger (ELoadSlot p) in
  if si_MgmtCidrCount x =? 0 then let~ _ := trigger (EStore p (WMgmtCidrs0 cidr)) in mok tt
  else
    let~ x := trigger (ELoadSlot p) in
    let j := u32 (si_MgmtCidrCount x - 1) in
    if j <? MaxMgmtCIDRExt
    then let~ _ := trigger (EStore p (WMgmtCidrsExt (Z.to_nat j) cidr)) in mok tt
    else mpanic.
Fixpoint write_cidrs (p : Z) (cidrs : list MgmtCidr) : M unit :=
  match cidrs with
  | [] => mok tt
  | cidr :: cidrs =>
      let~ x := trigger (ELoadSlot p) in
      if MaxMgmtCIDRPerSlot <=? si_MgmtCidrCount x then mok tt
      else
        let* _ := write_cidr p cidr in
        let~ x := trigger (ELoadSlot p) in
        let~ _ := trigger (EStore p (WMgmtCidrCount (u32 (si_MgmtCidrCount x + 1)))) in
        write_cidrs p cidrs
  end.
Fixpoint write_mgmt_infos (p : Z) (infos : list mgmtInfo) : M unit :=
  match infos with
  | [] => mok tt
  | mi :: infos => let* _ := write_cidrs p (mi_cidrs mi) in write_mgmt_infos p infos
  end.

Definition writeSlotDeviceInfo (numSlots slotID ifindex : Z) (mgmtInfos : list mgmtInfo)
    (transitIfindex transitIP : Z) : M unit :=
  UpdateSlotFieldsM numSlots slotID (λ p,
    let~ _ := stores p [WIfindex (u32 ifindex); WMgmtCidrCount 0] in
    let* _ := write_mgmt_infos p mgmtInfos in
    let~ _ := stores p [WTransitIfindex (u32 transitIfindex); WTransitIp transitIP] in
    mok tt).

(** ** Devices *)
Definition reuse_device (switchNs : NetNS) (existing : Z) (what : string) : M Z :=
  let* _ := mwrap (λ e, errorw what e "") (Do switchNs (AddClsactWithBlock existing PortIngressBlockID)) in
  mok existing.

Definition provisionVethSlot (switchNs portNs : NetNS) (switchName : string) (slotID : Z) (cfg : SwitchConfig) : M Z :=
  let portName := PortDeviceName switchName slotID in
  let peerName := PeerDeviceName switchName slotID in
  let* peerMAC := mpure (GetPortMAC (sc_SwitchMac cfg) (sc_PortMac cfg) slotID) in
  let~ existing := GetLinkIndexInNs switchNs peerName in
  match existing with
  | Ok existing => reuse_device switchNs existing "ensure clsact on existing veth peer: "
  | Panic => mpanic
  | OutOfFuel => Ret OutOfFuel
  | Err _ =>
      let spec := MkVethSpec peerName portName 0 (ns_handle portNs) (Some peerMAC) PortLinkGroup in
      let* _ := mwrap (λ e, errorw "failed to create veth: " e "") (Do switchNs (CreateVethPairs [spec])) in
      mwrap (λ e, errorw "failed to add clsact: " e "")
        (Do switchNs (let* link := LinkByName peerName in
                      let* _ := AddClsactWithBlock (lk_Index link) PortIngressBlockID in
                      mok (lk_Index link)))
  end.

Definition provisionTapSlot (switchNs : NetNS) (switchName : string) (slotID : Z) (cfg : SwitchConfig) : M Z :=
  let tapName := TapDeviceName switchName slotID in
  let* portMAC := mpure (GetPortMAC (sc_SwitchMac cfg) (sc_PortMac cfg) slotID) in
  let~ existing := GetLinkIndexInNs switchNs tapName in
  match existing with
  | Ok existing => reuse_device switchNs existing "ensure clsact on existing tap: "
  | Panic => mpanic
  | OutOfFuel => Ret OutOfFuel
  | Err _ =>
      let* ifindex := mwrap (λ e, errorw "create tap: " e "")
                            (CreateTapInNs switchNs (MkTapSpec tapName 0 (Some portMAC) PortLinkGroup)) in
      let* _ := on_err (DeleteTapInNs switchNs tapName)
                  (mwrap (λ e, errorw "add clsact on tap: " e "")
                         (Do switchNs (AddClsactWithBlock ifindex PortIngressBlockID))) in
      mok ifindex
  end.

(** The reverse entry of [oldIfindex] goes only when it still names this slot;
    the outcome of the deletion is dropped. *)
Definition drop_reverse_entry (s : switchContext) (slotID oldIfindex : Z) : prog unit :=
  if has_ifindex_map s then
    let~ stored := call (MapLookup MIfindexToSlot oldIfindex false) in
    match stored with
    | Ok v => if v =? slotID then let~ _ := call (MapDelete MIfindexToSlot oldIfindex) in Ret tt else Ret tt
    | _ => Ret tt
    end
  else Ret tt.

Definition deleteOldSlotDeviceByIfindex (s : switchContext) (switchNs : NetNS) (slotID oldIfindex : Z) : M unit :=
  if oldIfindex =? 0 then mok tt
  else
    let~ _ := drop_reverse_entry s slotID oldIfindex in
    mwrap (λ e, errorw ("delete stale device ifindex=" +:+ fmt_u oldIfindex +:+ ": ") e "")
      (Do switchNs (let~ r := DeleteLinkByIndex oldIfindex in
                    match r with
                    | Err e => if IsLinkNotExist e then mok tt else merr e
                    | r => Ret r
                    end)).

(** ** What every slot needs, asked for once *)
Definition mgmt_cidr (ifindex : Z) (mac : HardwareAddr) (routeStr : string) : res MgmtCidr :=
  let! ipnet := map_err (λ e, errorw ("failed to parse mgmt service route " +:+ routeStr +:+ ": ") e "")
                        (ParseCIDR routeStr) in
  Ok (MkMgmtCidr (IPToUint32 (net_ip ipnet.2)) (MaskToUint32 (net_mask ipnet.2)) (u32 ifindex)
        (copy_into mac_zero mac)).

Fixpoint mgmt_infos (switchNs : NetNS) (switchName : string) (cfg : SwitchConfig) (i : Z)
    (extracts : list MgmtExtractMeta) : M (list mgmtInfo) :=
  match extracts with
  | [] => mok []
  | me :: extracts =>
      let mgmtName := switchName +:+ "-m" +:+ fmt_d i in
      let* mgmtIfindex := mwrap (λ e, errorw ("failed to get ifindex for mgmt device " +:+ mgmtName +:+ ": ") e "")
                                (GetLinkIndexInNs switchNs mgmtName) in
      let* mgmtDevMAC := mpure (MgmtMAC (sc_SwitchMac cfg) i) in
      let* cidrs := mpure (res_mapM (mgmt_cidr mgmtIfindex mgmtDevMAC) (mm_ServiceRoutes me)) in
      let* rest := mgmt_infos switchNs switchName cfg (i + 1) extracts in
      mok (MkMgmtInfo mgmtIfindex mgmtDevMAC cidrs :: rest)
  end.

Definition transit_info (switchNs : NetNS) (meta : SwitchMetadata) : M (Z * Z) :=
  let dev := TransitDevName meta in
  if bool_decide (dev = "") then mok (0, 0)
  else
    let* transitIfindex := mwrap (λ e, errorw ("failed to get ifindex for transit device " +:+ dev +:+ ": ") e "")
                                 (GetLinkIndexInNs switchNs dev) in
    let addr := TransitDevAddrStr meta in
    if bool_decide (addr = "")
    then merr (errorf ("transit device " +:+ dev +:+ " configured but transit address missing in metadata"))
    else
      let* r := mpure (map_err (λ e, errorw ("failed to parse transit address " +:+ addr +:+ " from metadata: ") e "")
                               (ParseCIDR addr)) in
      mok (transitIfindex, IPToUint32 r.1).

(** ** One slot *)
Fixpoint unreserve_loop (fuel : nat) (numSlots slotID : Z) : M unit :=
  match fuel with
  | O => Ret OutOfFuel
  | S fuel =>
      let~ ok := TryUnreserve numSlots slotID in
      if ok then mok tt
      else
        let~ current := GetInnerIP numSlots slotID in
        if current =? InnerIPFree then mok tt
        else if negb (current =? InnerIPReserved)
        then merr (errorf ("slot " +:+ fmt_u slotID +:+ ": unexpected state 0x" +:+ fmt_x current +:+ " during provision"))
        else unreserve_loop fuel numSlots slotID
  end.

Record provision_env := MkProvisionEnv {
  pe_sw : switchContext; pe_switchNs : NetNS; pe_name : string; pe_mode : Z;
  pe_mgmt : list mgmtInfo; pe_transit : Z * Z; pe_fuel : nat;
}.

Definition create_device (env : provision_env) (portNs : option NetNS) (slotID : Z) : M Z :=
  let cfg := sx_cfg (pe_sw env) in
  if pe_mode env =? PortKindVeth
  then deref portNs (λ ns, provisionVethSlot (pe_switchNs env) ns (pe_name env) slotID cfg)
  else provisionTapSlot (pe_switchNs env) (pe_name env) slotID cfg.

(** The tail common to both kinds of device, then Reserved to Free. *)
Definition provision_tail (env : provision_env) (slotID newIfindex oldIfindex : Z) (isModeSwitch : bool) : M unit :=
  let sw := pe_sw env in
  let n := sx_numSlots sw in
  let moved := negb (u32 newIfindex =? oldIfindex) in
  let~ _ := if moved && negb (oldIfindex =? 0) then drop_reverse_entry sw slotID oldIfindex else Ret tt in
  let* _ := writeSlotDeviceInfo n slotID newIfindex (pe_mgmt env) (pe_transit env).1 (pe_transit env).2 in
  let~ _ := UpdateSlotFields n slotID (λ p, stores p [WMode (u8 (pe_mode env))]) in
  let* _ := if moved && has_ifindex_map sw
            then mwrap (λ e, errorw ("failed to update ifindex_to_slot for slot " +:+ fmt_u slotID +:+ ": ") e "")
                       (call (MapUpdate MIfindexToSlot (u32 newIfindex) slotID false))
            else mok tt in
  let~ _ := if isModeSwitch then deleteOldSlotDeviceByIfindex sw (pe_switchNs env) slotID oldIfindex else mok tt in
  unreserve_loop (pe_fuel env) n slotID.

Definition provision_slot (env : provision_env) (portNs : option NetNS) (slotID existingMode oldIfindex : Z) : M unit :=
  let isModeSwitch := negb (oldIfindex =? 0) && negb (existingMode =? pe_mode env) in
  if negb (pe_mode env =? PortKindVeth) && negb (pe_mode env =? PortKindTap)
  then merr (errorf ("slot " +:+ fmt_u slotID +:+ ": unsupported mode " +:+ PortKind_String (pe_mode env)))
  else
    let* newIfindex := mwrap (λ e, errorw ("slot " +:+ fmt_u slotID +:+ ": ") e "")
                             (create_device env portNs slotID) in
    provision_tail env slotID newIfindex oldIfindex isModeSwitch.

(** ** The scan

    [portNs] is the port namespace once a veth slot has needed it; it comes
    back with the outcome, for the deferred close. *)
Definition openPortNetns (portNsName : string) (portNs : option NetNS) : M (option NetNS) :=
  match portNs with
  | Some _ => mok portNs
  | None =>
      if bool_decide (portNsName = "")
      then merr (errorf "port-netns is required for veth-mode provision but switch has none configured")
      else let* ns := mwrap (λ e, errorw "failed to get port netns: " e "") (GetByName portNsName) in
           mok (Some ns)
  end.

Fixpoint provision_loop (n : nat) (env : provision_env) (port count i : Z) (portNs : option NetNS)
    (provisioned : Z) : prog (res Z * option NetNS) :=
  match n with
  | O => Ret (Ok provisioned, portNs)
  | S n =>
      if (0 <? port) && negb (i =? u32 (port - 1))
      then provision_loop n env port count (i + 1) portNs provisioned
      else
        let~ innerIP := GetInnerIP (sx_numSlots (pe_sw env)) i in
        if negb (innerIP =? InnerIPReserved)
        then provision_loop n env port count (i + 1) portNs provisioned
        else
          match GetSlot (sx_numSlots (pe_sw env)) i with
          | None => Ret (Panic, portNs)
          | Some p =>
              let~ x := trigger (ELoadSlot p) in
              let~ y := trigger (ELoadSlot p) in
              let~ opened := if pe_mode env =? PortKindVeth
                             then openPortNetns (PortNetnsName (sx_meta (pe_sw env))) portNs
                             else mok portNs in
              match opened with
              | Ok portNs =>
                  let~ r := provision_slot env portNs i (SlotPortKind x) (si_Ifindex y) in
                  match r with
                  | Ok _ =>
                      if (0 <? count) && (count <=? provisioned + 1)
                      then Ret (Ok (provisioned + 1), portNs)
                      else provision_loop n env port count (i + 1) portNs (provisioned + 1)
                  | Err e => Ret (Err e, portNs)
                  | Panic => Ret (Panic, portNs)
                  | OutOfFuel => Ret (OutOfFuel, portNs)
                  end
              | Err e => Ret (Err e, portNs)
              | Panic => Ret (Panic, portNs)
              | OutOfFuel => Ret (OutOfFuel, portNs)
              end
          end
  end.

Definition close_opt (ns : option NetNS) : prog (res unit) :=
  match ns with Some ns => NetNS_Close ns | None => mok tt end.

(** The body of [ProvisionPorts] under the control lock. *)
Definition provision_body (fuel : nat) (switchName : string) (opts : ProvisionOptions) (sw : switchContext)
    : M ProvisionOutput :=
  let cfg := sx_cfg sw in
  let meta := sx_meta sw in
  let* switchNs := mwrap (λ e, errorw "failed to get switch netns: " e "") (GetByName (SwitchNetnsName meta)) in
  with_defer (NetNS_Close switchNs)
    (let* mgmtInfos := mgmt_infos switchNs switchName cfg 0 (md_MgmtExtracts meta) in
     let* transit := transit_info switchNs meta in
     let env := MkProvisionEnv sw switchNs switchName (pv_Mode opts) mgmtInfos transit fuel in
     let~ rp := provision_loop (Z.to_nat (sc_N_ports cfg)) env (pv_Port opts) (pv_Count opts) 0 None 0 in
     let '(r, portNs) := rp in
     with_defer (close_opt portNs)
       (let* provisioned := mpure r in
        let~ available := count_slots (Z.eqb InnerIPFree) (Z.to_nat (sc_N_ports cfg)) (sx_numSlots sw) 0 0 in
        mok (MkProvisionOutput provisioned (sc_N_ports cfg) available))).

Definition ProvisionPorts (unmarshal : string → res SwitchMetadata) (fuel : nat) (switchName : string)
    (opts : ProvisionOptions) : M ProvisionOutput :=
  with_lock (mwrap (λ e, errorw "failed to acquire control lock: " e "") (AcquireControlLock switchName))
    (with_switch (Open unmarshal switchName) (provision_body fuel switchName opts)).
