(* ===== verification/ProvisionSpec.v ===== *)
(** * What provisioning does to the slot table

    The functional contract of the scan of [ProvisionPorts], when nobody else
    touches the table, for every answer of the kernel. *)
From S2P Require Import Prelude Errors GoStrings GoNet BpfTypes Mac Geneve Prog SlotTable Netns.
From S2P Require Import Netlink Config MgmtService Metadata Loader Context Flock Attach AttachSpec Provision.

(** ** The extraction prefixes of a slot *)
Definition slot_shape (x : SlotItem) : Prop :=
  length (si_MgmtCidrsExt x) = 2%nat ∧ 0 ≤ si_MgmtCidrCount x.
#[export] Instance slot_shape_dec x : Decision (slot_shape x).
Proof. unfold slot_shape. apply _. Defined.
Definition slot_cidrs (x : SlotItem) : list MgmtCidr :=
  take (Z.to_nat (si_MgmtCidrCount x)) (si_MgmtCidrs0 x :: si_MgmtCidrsExt x).

(** One prefix appended, as long as there is room. *)
Definition add_cidr (x : SlotItem) (c : MgmtCidr) : SlotItem :=
  let count := si_MgmtCidrCount x in
  if MaxMgmtCIDRPerSlot <=? count then x
  else write_slot (WMgmtCidrCount (count + 1))
         (write_slot (if count =? 0 then WMgmtCidrs0 c else WMgmtCidrsExt (Z.to_nat (count - 1)) c) x).
Definition add_cidrs (cs : list MgmtCidr) (x : SlotItem) : SlotItem := fold_left add_cidr cs x.

Lemma add_cidrs_full cs x : MaxMgmtCIDRPerSlot ≤ si_MgmtCidrCount x → add_cidrs cs x = x.
Proof.
  intros Hx. induction cs as [|c cs IH]; [done|]. unfold add_cidrs in *. cbn [fold_left].
  assert (add_cidr x c = x) as ->; [|done]. unfold add_cidr.
  by assert ((MaxMgmtCIDRPerSlot <=? si_MgmtCidrCount x) = true) as -> by lia.
Qed.

Lemma add_cidr_cidrs x c :
  slot_shape x → slot_shape (add_cidr x c) ∧ slot_cidrs (add_cidr x c) = take 3 (slot_cidrs x ++ [c]).
Proof.
  intros [Hlen Hc]. unfold add_cidr, MaxMgmtCIDRPerSlot.
  destruct x as [f1 f2 f3 f4 f5 f6 f7 f8 f9 count c0 f10 f11 ext f12]. cbn [si_MgmtCidrCount si_MgmtCidrsExt] in *.
  destruct ext as [|e1 [|e2 [|]]]; try done.
  assert (count = 0 ∨ count = 1 ∨ count = 2 ∨ 3 ≤ count) as [->|[->|[->|Hbig]]] by lia; try done.
  assert ((3 <=? count) = true) as -> by lia. split; [done|]. unfold slot_cidrs.
  cbn [si_MgmtCidrCount si_MgmtCidrs0 si_MgmtCidrsExt].
  rewrite (take_ge [c0; e1; e2]) by (simpl; lia). done.
Qed.

Lemma add_cidrs_cidrs cs x :
  slot_shape x → slot_shape (add_cidrs cs x) ∧
    slot_cidrs (add_cidrs cs x) = match cs with [] => slot_cidrs x | _ => take 3 (slot_cidrs x ++ cs) end.
Proof.
  revert x. induction cs as [|c cs IH]; intros x Hx; [done|].
  destruct (add_cidr_cidrs x c Hx) as [Hx' Hc]. simpl. destruct (IH _ Hx') as [Hs Hd].
  unfold add_cidrs in *. split; [done|]. rewrite Hd. destruct cs as [|c' cs]; [done|].
  rewrite Hc. change (c :: c' :: cs) with ([c] ++ c' :: cs). rewrite app_assoc.
  generalize (slot_cidrs x ++ [c]) as l, (c' :: cs) as l'. intros l l'.
  destruct l as [|a1 [|a2 [|a3 l]]]; simpl; try done.
Qed.

Lemma add_cidrs_app cs cs' x : add_cidrs (cs ++ cs') x = add_cidrs cs' (add_cidrs cs x).
Proof. apply fold_left_app. Qed.
Lemma add_cidrs_ip cs x : si_InnerIp (add_cidrs cs x) = si_InnerIp x.
Proof.
  revert x. induction cs as [|c cs IH]; intros x; [done|]. simpl. unfold add_cidrs in IH. rewrite IH.
  unfold add_cidr. case_match; [done|]. by rewrite !InnerIp_write.
Qed.

(** ** The writes of [writeSlotDeviceInfo], as a function on the slot *)
Definition device_slot (ifindex : Z) (infos : list mgmtInfo) (transit : Z * Z) (x : SlotItem) : SlotItem :=
  write_all [WTransitIfindex (u32 transit.1); WTransitIp transit.2]
    (add_cidrs (concat (map mi_cidrs infos)) (write_all [WIfindex (u32 ifindex); WMgmtCidrCount 0] x)).

Lemma write_slot_count c n x : 0 ≤ n → si_MgmtCidrCount (write_slot (WMgmtCidrCount n) (write_slot c x)) = n.
Proof. by destruct c, x. Qed.

Lemma wp_write_cidr p c x s (Q : res unit → list SlotItem → Prop) :
  slot_at s p = Some x → 0 ≤ si_MgmtCidrCount x < MaxMgmtCIDRPerSlot →
  Q (Ok tt) (set_slot s p (write_slot (if si_MgmtCidrCount x =? 0 then WMgmtCidrs0 c
                                       else WMgmtCidrsExt (Z.to_nat (si_MgmtCidrCount x - 1)) c) x)) →
  wp alone (write_cidr p c) Q s.
Proof.
  unfold MaxMgmtCIDRPerSlot. intros Hx Hn HQ. unfold write_cidr. apply wp_bind. eapply wp_load_slot_alone; [done|].
  destruct (si_MgmtCidrCount x =? 0) eqn:E; [apply wp_bind; by eapply wp_store_alone|].
  apply wp_bind. eapply wp_load_slot_alone; [done|]. cbv zeta. rewrite u32_small by (unfold is_u32; lia).
  assert ((si_MgmtCidrCount x - 1 <? MaxMgmtCIDRExt) = true) as -> by (unfold MaxMgmtCIDRExt, MaxMgmtCIDRPerSlot; lia).
  apply wp_bind. by eapply wp_store_alone.
Qed.

Lemma wp_write_cidrs p cs x s (Q : res unit → list SlotItem → Prop) :
  slot_at s p = Some x → 0 ≤ si_MgmtCidrCount x → Q (Ok tt) (set_slot s p (add_cidrs cs x)) →
  wp alone (write_cidrs p cs) Q s.
Proof.
  revert x s. induction cs as [|c cs IH]; intros x s Hx Hn HQ; cbn [write_cidrs].
  - simpl in HQ. rewrite set_slot_id in HQ by done. exact HQ.
  - apply wp_bind. eapply wp_load_slot_alone; [done|].
    destruct (MaxMgmtCIDRPerSlot <=? si_MgmtCidrCount x) eqn:E.
    + rewrite add_cidrs_full in HQ by lia. rewrite set_slot_id in HQ by done. exact HQ.
    + apply wp_mbind. eapply wp_write_cidr; [done|lia|]. set (w := if _ =? 0 then _ else _) in *.
      assert (Hw : si_MgmtCidrCount (write_slot w x) = si_MgmtCidrCount x) by (unfold w; destruct (_ =? 0), x; done).
      apply wp_bind. eapply wp_load_slot_alone; [by eapply slot_at_set|]. rewrite Hw.
      unfold MaxMgmtCIDRPerSlot in *. rewrite u32_small by (unfold is_u32; lia).
      apply wp_bind. eapply wp_store_alone; [by eapply slot_at_set|].
      eapply IH; [by eapply slot_at_set; eapply slot_at_set|rewrite write_slot_count; lia|].
      rewrite !set_slot_set. unfold add_cidrs in *. cbn [fold_left] in HQ.
      unfold add_cidr at 2, MaxMgmtCIDRPerSlot in HQ. rewrite E in HQ. exact HQ.
Qed.

Lemma wp_write_mgmt_infos p infos x s (Q : res unit → list SlotItem → Prop) :
  slot_at s p = Some x → slot_shape x → Q (Ok tt) (set_slot s p (add_cidrs (concat (map mi_cidrs infos)) x)) →
  wp alone (write_mgmt_infos p infos) Q s.
Proof.
  revert x s. induction infos as [|mi infos IH]; intros x s Hx Hs HQ; cbn [write_mgmt_infos].
  - simpl in HQ. rewrite set_slot_id in HQ by done. exact HQ.
  - apply wp_mbind. eapply wp_write_cidrs; [done|apply Hs|]. eapply IH; [by eapply slot_at_set|by apply add_cidrs_cidrs|].
    rewrite set_slot_set. simpl in HQ. by rewrite add_cidrs_app in HQ.
Qed.

Lemma cleared_shape ifindex x :
  slot_shape x → slot_shape (write_all [WIfindex ifindex; WMgmtCidrCount 0] x) ∧
    slot_cidrs (write_all [WIfindex ifindex; WMgmtCidrCount 0] x) = [].
Proof. intros Hx. destruct x, Hx. by repeat split. Qed.

Lemma wp_writeSlotDeviceInfo n i ifindex infos t1 t2 x s (Q : res unit → list SlotItem → Prop) :
  i < n → slot_at s i = Some x → slot_shape x → Q (Ok tt) (set_slot s i (device_slot ifindex infos (t1, t2) x)) →
  wp alone (writeSlotDeviceInfo n i ifindex infos t1 t2) Q s.
Proof.
  intros Hi Hx Hs HQ. unfold writeSlotDeviceInfo, UpdateSlotFieldsM. rewrite GetSlot_lt by done.
  apply wp_bind. eapply wp_stores_alone; [done|]. apply wp_mbind.
  eapply wp_write_mgmt_infos; [by eapply slot_at_set|by apply cleared_shape|]. rewrite set_slot_set.
  apply wp_bind. eapply wp_stores_alone; [by eapply slot_at_set|]. by rewrite set_slot_set.
Qed.

(** ** What the kernel was asked

    The namespace a thread is in, and the answers it got: which handle a
    namespace name has, and which index a device name has in which namespace. *)
Inductive answered :=
  | ANetns (name : string) (handle : Z)
  | ALink (ns : Z) (name : string) (ifindex : Z).
Record asked := MkAsked { as_ns : Z; as_log : list answered }.
Definition asked_after {B} (q : kev B) (b : B) (g : asked) : asked :=
  match q in kev B return B → asked with
  | NsSet h => λ b, match b with inl _ => MkAsked h (as_log g) | inr _ => g end
  | NsGetFromName n => λ b, match b with inl h => MkAsked (as_ns g) (ANetns n h :: as_log g) | inr _ => g end
  | NlLinkByName n => λ b,
      match b with inl l => MkAsked (as_ns g) (ALink (as_ns g) n (lk_Index l) :: as_log g) | inr _ => g end
  | _ => λ _, g
  end b.
(** Sequential runs beside that log; every answer of the kernel is possible. *)
Definition asking : sem (list SlotItem * asked) := ghost_sem (λ _ _ _, True) (λ B q g b g', g' = asked_after q b g).
Definition later (g g' : asked) : Prop := as_log g ⊆ as_log g'.

Lemma later_refl g : later g g.
Proof. unfold later. set_solver. Qed.
Lemma later_trans g1 g2 g3 : later g1 g2 → later g2 g3 → later g1 g3.
Proof. unfold later. set_solver. Qed.
Lemma later_after {B} (q : kev B) b g : later g (asked_after q b g).
Proof. unfold later. destruct q; cbn [asked_after]; try set_solver; destruct b; simpl; set_solver. Qed.
Lemma later_step {B} (q : kev B) b g g' : later (asked_after q b g) g' → later g g'.
Proof. eapply later_trans, later_after. Qed.

(** What holds of a program on the table alone holds beside the log. *)
Lemma wp_asking {A} (p : prog A) (Q : A → list SlotItem → Prop) t :
  wp alone p Q t.1 → wp asking p (λ a t', Q a t'.1 ∧ later t.2 t'.2) t.
Proof.
  intros Hp. apply (wp_ghost_frame _ _ later); [apply later_refl|apply later_trans| |done]. clear Hp. induction p as [a|B e k IH]; [done|].
  split; [|done]. destruct e; try done. split; [done|]. intros g b g' ->. apply later_after.
Qed.
Lemma wp_later {A} (p : prog A) (Q : A → list SlotItem * asked → Prop) t :
  wp asking p Q t → wp asking p (λ a t', Q a t' ∧ later t.2 t'.2) t.
Proof.
  destruct t as [s g]. simpl. revert s g. induction p as [a|B e k IH]; intros s g; [intros; split; [done|apply later_refl]|].
  intros [Hok Hk]. split; [exact Hok|]. intros b [s' g'] Hs. eapply wp_mono; [by apply IH, Hk|].
  intros a t' [HQ Hl]. split; [done|]. eapply later_trans; [|exact Hl]. destruct e; destruct Hs as [_ Hs]; simpl in Hs; subst g';
    first [apply later_refl | apply later_after].
Qed.
Lemma wp_asking_only {A} (p : prog A) (Q : A → list SlotItem * asked → Prop) s g :
  kern_only p → (∀ a g', later g g' → Q a (s, g')) → wp asking p Q (s, g).
Proof.
  intros Hp HQ. eapply wp_mono; [apply (wp_asking p (λ _ s', s' = s)); by apply wp_alone_kern_only|].
  intros a [s' g'] [Es Hg]. simpl in *. subst. by apply HQ.
Qed.

(** *** Programs on the kernel alone that learn something *)
Fixpoint learns {A} (p : prog A) (Q : A → asked → Prop) (g : asked) : Prop :=
  match p with
  | Ret a => Q a g
  | Vis e k => match e in ev B return (B → prog A) → Prop with
               | EKern q => λ k, ∀ b, learns (k b) Q (asked_after q b g)
               | _ => λ _, False
               end k
  end.
(** It comes back, and an answer [a] makes [P a] true of the log. *)
Definition learnt {A} (P : A → list answered → Prop) (g : asked) (r : res A) (g' : asked) : Prop :=
  later g g' ∧ match r with Ok a => P a (as_log g') | Err _ => True | _ => False end.
Definition lasting {A} (P : A → list answered → Prop) : Prop := ∀ a l l', l ⊆ l' → P a l → P a l'.

Lemma learns_mono {A} (p : prog A) (Q Q' : A → asked → Prop) g :
  learns p Q g → (∀ a g', Q a g' → Q' a g') → learns p Q' g.
Proof. intros Hp HQ. revert g Hp. induction p as [a|B e k IH]; intros g Hp; [by apply HQ|]. destruct e; try done. simpl in *. auto. Qed.
Lemma learns_bind {A B} (p : prog A) (f : A → prog B) Q g :
  learns p (λ a g', learns (f a) Q g') g → learns (pbind p f) Q g.
Proof. revert g. induction p as [a|C e k IH]; intros g Hp; [done|]. destruct e; try done. simpl in *. auto. Qed.
Lemma learns_only {A} (p : prog A) g : kern_only p → learns p (λ _ g', later g g') g.
Proof.
  revert g. induction p as [a|B e k IH]; intros g; [intros _; apply later_refl|]. intros [He Hk]. destruct e; try done. simpl. intros b.
  eapply learns_mono; [by apply IH|]. intros ? ?. apply later_step.
Qed.
Lemma learns_ends {A} (P : A → Prop) (p : prog A) g : ends_in P p → learns p (λ a g', P a ∧ later g g') g.
Proof.
  revert g. induction p as [a|B e k IH]; intros g; [intros; split; [done|apply later_refl]|]. intros [He Hk]. destruct e; try done. simpl. intros b.
  eapply learns_mono; [by apply IH|]. intros a g' [Ha Hl]. split; [done|by eapply later_step].
Qed.
Lemma wp_learns {A} (p : prog A) (Q : A → list SlotItem * asked → Prop) s g :
  learns p (λ a g', Q a (s, g')) g → wp asking p Q (s, g).
Proof.
  revert g. induction p as [a|B e k IH]; intros g; [done|]. destruct e; try done. simpl. intros H. split; [done|].
  intros b [s' g'] [Es Eg]. simpl in *. subst. by apply IH.
Qed.

Lemma learns_ret {A} (P : A → list answered → Prop) (p : M A) g :
  kern_ret p → (∀ a l, P a l) → learns p (learnt P g) g.
Proof. intros Hp HP. eapply learns_mono; [by apply learns_ends|]. intros [] g' [Hr Hl]; by split. Qed.
Lemma learns_since {A} (P : A → list answered → Prop) (p : M A) g g' :
  later g g' → learns p (learnt P g') g' → learns p (learnt P g) g'.
Proof.
  intros Hg Hp. eapply learns_mono; [exact Hp|]. intros r g'' [Hl Hr]. split; [exact (later_trans _ _ _ Hg Hl)|done].
Qed.
Lemma learns_mbind {A B} (P : A → list answered → Prop) (P' : B → list answered → Prop) (p : M A) (f : A → M B) g :
  learns p (learnt P g) g → (∀ a g', later g g' → P a (as_log g') → learns (f a) (learnt P' g') g') →
  learns (mbind p f) (learnt P' g) g.
Proof.
  intros Hp Hf. apply learns_bind. eapply learns_mono; [exact Hp|]. intros [a|e| |] g' [Hl Ha]; try done; simpl.
  eapply learns_mono; [by apply Hf|]. intros r g'' [Hl' Hr]. split; [by eapply later_trans|done].
Qed.
Lemma learns_mwrap {A} (P : A → list answered → Prop) f (p : M A) g :
  learns p (learnt P g) g → learns (mwrap f p) (learnt P g) g.
Proof. intros Hp. apply learns_bind. eapply learns_mono; [exact Hp|]. by intros [a|e| |] g' [Hl Ha]. Qed.
Lemma learns_then {A C} (P : A → list answered → Prop) (c : prog C) (r : res A) g g' :
  lasting P → kern_only c → learnt P g r g' → learns (let~ _ := c in Ret r) (learnt P g) g'.
Proof.
  intros HP Hc [Hl Hr]. apply learns_bind. eapply learns_mono; [by apply learns_only|].
  intros ? g'' Hl'. split; [exact (later_trans _ _ _ Hl Hl')|]. destruct r; try done. by apply (HP _ _ _ Hl').
Qed.
Lemma learns_defer {A C} (P : A → list answered → Prop) (c : prog C) (p : M A) g :
  lasting P → kern_only c → learns p (learnt P g) g → learns (with_defer c p) (learnt P g) g.
Proof.
  intros HP Hc Hp. apply learns_bind. eapply learns_mono; [exact Hp|]. intros r g'. by apply learns_then.
Qed.
Lemma learns_on_err {A C} (P : A → list answered → Prop) (c : prog C) (p : M A) g :
  lasting P → kern_only c → learns p (learnt P g) g → learns (on_err c p) (learnt P g) g.
Proof.
  intros HP Hc Hp. apply learns_bind. eapply learns_mono; [exact Hp|]. intros [a|e| |] g' Hr; try done.
  by apply learns_then.
Qed.
Lemma learns_Do {A} (P : A → list answered → Prop) ns (f : M A) g :
  lasting P → (∀ g', later g g' → as_ns g' = ns_handle ns → learns f (learnt P g') g') →
  learns (Do ns f) (learnt P g) g.
Proof.
  intros HP Hf. unfold Do. eapply (learns_mbind (λ _ _, True)); [by apply learns_ret; [kern_ret|]|].
  intros orig g1 Hl1 _. apply learns_defer; [done|kern_only|].
  intros [[]|e]; cbn [pbind of_ans map_err asked_after]; [|split; [apply later_refl|done]].
  apply learns_bind. eapply learns_mono; [by apply Hf; [apply Hl1|]|].
  intros [a|e| |] g3 [Hl3 Ha]; try done.
  - eapply learns_mono; [apply (learns_mbind (λ _ _, True) (λ b l, b = a ∧ as_log g3 ⊆ l)); [by apply learns_ret; [kern_ret|]|]|].
    + intros ? g4 Hl4 _. split; [apply later_refl|]. by split.
    + intros r g4 [Hl4 Hr]. split; [exact (later_trans _ _ _ Hl3 Hl4)|]. destruct r; try done.
      destruct Hr as [-> Hr]. by apply (HP _ _ _ Hr).
  - eapply learns_since; [exact Hl3|]. apply (learns_mbind (λ _ _, True)); [by apply learns_ret; [kern_ret|]|].
    intros _ g4 _ _. split; [apply later_refl|done].
Qed.
Lemma learns_link name g : learns (call (NlLinkByName name)) (learnt (λ l log, ALink (as_ns g) name (lk_Index l) ∈ log) g) g.
Proof. intros [l|e]; (split; [apply later_after|]); [|done]. simpl. by left. Qed.
Lemma lasting_elem {A} (x : A → answered) : lasting (λ a log, x a ∈ log).
Proof. intros a l l' Hl Ha. by apply Hl. Qed.
#[local] Hint Resolve lasting_elem : core.

(** ** The parts that do not touch the slot table *)
Lemma reuse_device_kern_ret ns i w : kern_ret (reuse_device ns i w).
Proof. unfold reuse_device. kern_ret. Qed.
Lemma LinkByName_kern_ret n : kern_ret (LinkByName n).
Proof. apply kern_ret_call. Qed.
#[export] Hint Resolve reuse_device_kern_ret LinkByName_kern_ret : kern_ret.
Lemma drop_reverse_entry_kern_only s i o : kern_only (drop_reverse_entry s i o).
Proof. unfold drop_reverse_entry. kern_only. Qed.
#[export] Hint Resolve drop_reverse_entry_kern_only : kern_only.
Lemma deleteOld_kern_ret s ns i o : kern_ret (deleteOldSlotDeviceByIfindex s ns i o).
Proof. unfold deleteOldSlotDeviceByIfindex. kern_ret. Qed.
#[export] Hint Resolve deleteOld_kern_ret : kern_ret.
Lemma GetPortMAC_returns sw mac i : length sw = 6%nat → returns (GetPortMAC sw mac i).
Proof. intros H. destruct (GetPortMAC_ok sw mac i H) as [m Hm]. by destruct (GetPortMAC sw mac i). Qed.

Lemma mpure_kern_ret {A} (r : res A) : returns r → kern_ret (mpure r).
Proof. done. Qed.
Lemma create_device_kern_ret env portNs i :
  length (sc_SwitchMac (sx_cfg (pe_sw env))) = 6%nat →
  (pe_mode env = PortKindVeth → is_Some portNs) → kern_ret (create_device env portNs i).
Proof.
  intros Hm Hns. pose proof (GetPortMAC_returns _ (sc_PortMac (sx_cfg (pe_sw env))) i Hm) as Hmac.
  unfold create_device, provisionVethSlot, provisionTapSlot.
  destruct (pe_mode env =? PortKindVeth) eqn:E.
  - destruct Hns as [ns ->]; [lia|]. cbn [deref]. apply kern_ret_mbind; [by apply mpure_kern_ret|]. kern_ret.
  - apply kern_ret_mbind; [by apply mpure_kern_ret|]. kern_ret.
Qed.

(** *** What they learn *)
Definition names_device (ns : NetNS) (name : string) (i : Z) (log : list answered) : Prop :=
  ALink (ns_handle ns) name i ∈ log.
Lemma names_device_lasting ns name : lasting (names_device ns name).
Proof. intros i l l' Hl Hi. by apply Hl. Qed.
Lemma GetLinkIndexInNs_learns ns name g :
  learns (GetLinkIndexInNs ns name) (learnt (names_device ns name) g) g.
Proof.
  apply learns_Do; [apply names_device_lasting|]. intros g' _ Hns. unfold GetLinkIndex, link_by_name, names_device.
  eapply learns_mbind; [apply learns_mwrap, learns_link|]. rewrite Hns. intros l g'' _ Hl. by split; [apply later_refl|].
Qed.
Lemma GetByName_learns name g :
  learns (GetByName name) (learnt (λ ns log, ANetns name (ns_handle ns) ∈ log) g) g.
Proof.
  assert (Hok : learns (let* handle := mwrap (λ e, errorw ("failed to get netns " +:+ name +:+ ": ") e "")
                                         (call (NsGetFromName name)) in mok (MkNetNS name handle))
                  (learnt (λ ns log, ANetns name (ns_handle ns) ∈ log) g) g).
  { intros [h|e]; (split; [apply later_after|]); [|done]. simpl. by left. }
  intros [d|e]; [exact Hok|]. cbn. destruct (errors_is e OsErrNotExist); by split; [apply later_refl|].
Qed.

Definition device_name (mode : Z) (name : string) (slotID : Z) : string :=
  if mode =? PortKindVeth then PeerDeviceName name slotID else TapDeviceName name slotID.
Lemma reuse_device_learns ns name i what g :
  names_device ns name i (as_log g) → learns (reuse_device ns i what) (learnt (names_device ns name) g) g.
Proof.
  intros Hi. unfold reuse_device. eapply (learns_mbind (λ _ _, True)); [apply learns_ret; [kern_ret|done]|].
  intros _ g' Hl _. split; [apply later_refl|]. by apply Hl.
Qed.
Lemma CreateTapInNs_learns ns spec g :
  learns (CreateTapInNs ns spec) (learnt (names_device ns (ts_Name spec)) g) g.
Proof.
  apply learns_Do; [apply names_device_lasting|]. intros g' _ Hns. unfold CreateTap, link_by_name, names_device. cbv zeta.
  intros [[]|e]; cbn [pbind of_ans map_err asked_after]; [|by split; [apply later_refl|]].
  eapply learns_mbind; [apply learns_on_err; [apply lasting_elem|kern_only|apply learns_mwrap, learns_link]|].
  rewrite Hns. intros l g1 _ Hl1. apply (learns_mbind (λ _ _, True)); [apply learns_ret; [kern_ret|done]|].
  intros _ g2 Hg2 _. apply (learns_mbind (λ _ _, True)); [apply learns_ret; [kern_ret|done]|].
  intros _ g3 Hg3 _. split; [apply later_refl|]. by apply Hg3, Hg2.
Qed.
Lemma create_device_learns env portNs i g :
  length (sc_SwitchMac (sx_cfg (pe_sw env))) = 6%nat → (pe_mode env = PortKindVeth → is_Some portNs) →
  learns (create_device env portNs i)
    (learnt (names_device (pe_switchNs env) (device_name (pe_mode env) (pe_name env) i)) g) g.
Proof.
  intros Hm Hns. pose proof (GetPortMAC_returns _ (sc_PortMac (sx_cfg (pe_sw env))) i Hm) as Hmac.
  unfold create_device, provisionVethSlot, provisionTapSlot, device_name. set (sns := pe_switchNs env).
  destruct (pe_mode env =? PortKindVeth) eqn:E.
  - destruct Hns as [ns ->]; [lia|]. cbn [deref]. cbv zeta. set (nm := PeerDeviceName _ _).
    apply (learns_mbind (λ _ _, True)); [by apply learns_ret; [apply mpure_kern_ret|]|]. intros mac g1 _ _.
    apply learns_bind. eapply learns_mono; [apply (GetLinkIndexInNs_learns sns nm)|].
    intros [j|e| |] g2 [Hl2 Hj]; try done; (eapply learns_since; [exact Hl2|]); [by apply reuse_device_learns|].
    apply (learns_mbind (λ _ _, True)); [apply learns_ret; [kern_ret|done]|]. intros _ g3 _ _.
    apply learns_mwrap, learns_Do; [apply names_device_lasting|]. intros g4 _ Hns. unfold names_device.
    eapply learns_mbind; [apply learns_link|]. rewrite Hns. intros l g5 _ Hl5.
    apply (learns_mbind (λ _ _, True)); [apply learns_ret; [kern_ret|done]|].
    intros _ g6 Hg6 _. split; [apply later_refl|]. by apply Hg6.
  - set (nm := TapDeviceName _ _).
    apply (learns_mbind (λ _ _, True)); [by apply learns_ret; [apply mpure_kern_ret|]|]. intros mac g1 _ _.
    apply learns_bind. eapply learns_mono; [apply (GetLinkIndexInNs_learns sns nm)|].
    intros [j|e| |] g2 [Hl2 Hj]; try done; (eapply learns_since; [exact Hl2|]); [by apply reuse_device_learns|].
    eapply learns_mbind; [apply learns_mwrap, CreateTapInNs_learns|]. intros l g3 _ Hl3.
    apply (learns_mbind (λ _ _, True)); [apply learns_ret; [kern_ret|done]|].
    intros _ g4 Hg4 _. split; [apply later_refl|]. by apply Hg4.
Qed.

(** ** A provisioned slot *)
(** What a provisioning leaves alone. *)
Record same_attachment (x y : SlotItem) : Prop := {
  sa_gateway : si_TransitGatewayIp y = si_TransitGatewayIp x;
  sa_vni : si_TransitGeneveVni y = si_TransitGeneveVni x;
  sa_mac : si_TransitMac y = si_TransitMac x;
  sa_opts : si_GeneveOptsLen y = si_GeneveOptsLen x;
  sa_generation : si_Generation y = si_Generation x;
  sa_ready : si_StatsReady y = si_StatsReady x;
}.

(** Slot [k] describes the device of that slot: the index is one the kernel
    answered for the device's name in the switch namespace. *)
Record written (log : list answered) (env : provision_env) (k : Z) (x y : SlotItem) : Prop := {
  wr_shape : slot_shape y;
  wr_device : ∃ ifindex, si_Ifindex y = u32 ifindex ∧
    names_device (pe_switchNs env) (device_name (pe_mode env) (pe_name env) k) ifindex log;
  wr_mode : si_Mode y = u8 (pe_mode env);
  wr_cidrs : slot_cidrs y = take 3 (concat (map mi_cidrs (pe_mgmt env)));
  wr_transit : si_TransitIfindex y = u32 (pe_transit env).1 ∧ si_TransitIp y = (pe_transit env).2;
  wr_rest : same_attachment x y;
}.
Definition provisioned (log : list answered) (env : provision_env) (k : Z) (x y : SlotItem) : Prop :=
  written log env k x y ∧ si_InnerIp y = InnerIPFree ∧ si_Flags y = 0.

Definition prov_slot (env : provision_env) (ifindex : Z) (x : SlotItem) : SlotItem :=
  write_slot (WMode (u8 (pe_mode env))) (device_slot ifindex (pe_mgmt env) (pe_transit env) x).
Definition freed_slot (x : SlotItem) : SlotItem := set_InnerIp InnerIPFree (write_slot (WFlags 0) x).

Definition with_cidrs (n : Z) (c0 : MgmtCidr) (ext : list MgmtCidr) (x : SlotItem) : SlotItem :=
  let '(MkSlotItem ifx ip tifx tip gw vni mac mode olen _ _ gen flags _ ready) := x in
  MkSlotItem ifx ip tifx tip gw vni mac mode olen n c0 gen flags ext ready.
Lemma add_cidrs_only cs x : ∃ n c0 ext, add_cidrs cs x = with_cidrs n c0 ext x.
Proof.
  revert x. induction cs as [|c cs IH]; intros x; [by destruct x; do 3 eexists|].
  unfold add_cidrs in *. cbn [fold_left]. destruct (IH (add_cidr x c)) as (n & c0 & ext & ->).
  exists n, c0, ext. unfold add_cidr. destruct (_ <=? _); [done|]. destruct x. by destruct (_ =? 0).
Qed.

Lemma prov_slot_written log env k ifindex x :
  slot_shape x → names_device (pe_switchNs env) (device_name (pe_mode env) (pe_name env) k) ifindex log →
  written log env k x (prov_slot env ifindex x) ∧ si_InnerIp (prov_slot env ifindex x) = si_InnerIp x ∧
    si_Flags (prov_slot env ifindex x) = si_Flags x.
Proof.
  intros Hx Hi. unfold prov_slot, device_slot. destruct (cleared_shape (u32 ifindex) x Hx) as [H0 Hn0].
  set (x0 := write_all [WIfindex (u32 ifindex); WMgmtCidrCount 0] x) in *.
  destruct (add_cidrs_cidrs (concat (map mi_cidrs (pe_mgmt env))) x0 H0) as [Hs Hc].
  destruct (add_cidrs_only (concat (map mi_cidrs (pe_mgmt env))) x0) as (n & c0 & ext & Hy).
  rewrite Hn0 in Hc. rewrite Hy in Hs, Hc |- *. unfold x0 in *. destruct x. split_and!; [|done..].
  constructor; [exact Hs|by exists ifindex|done| |done|done]. etrans; [exact Hc|]. by destruct (concat _).
Qed.
Lemma written_freed log env k x y : written log env k x y → provisioned log env k x (freed_slot y).
Proof. intros [Hs Hd Hm Hc Ht []]. destruct y. split; [|done]. by constructor. Qed.
Lemma written_lasting log log' env k x y : log ⊆ log' → written log env k x y → written log' env k x y.
Proof. intros Hl [Hs (i & Hi & Hn) Hm Hc Ht Hr]. constructor; try done. exists i. split; [done|by apply Hl]. Qed.

(** ** One slot, in sequence *)
Lemma wp_unreserve fuel n i x s (Q : res unit → list SlotItem → Prop) :
  (0 < fuel)%nat → i < n → slot_at s i = Some x → si_InnerIp x = InnerIPReserved →
  Q (Ok tt) (set_slot s i (freed_slot x)) →
  wp alone (unreserve_loop fuel n i) Q s.
Proof.
  intros Hf Hi Hx Hip HQ. destruct fuel as [|fuel]; [lia|]. cbn [unreserve_loop].
  apply wp_bind. eapply wp_TryUnreserve; [done|done|intros _; exact HQ|done].
Qed.

Section slot.
Context (env : provision_env) (i : Z) (x : SlotItem).
Context (Hi : 0 ≤ i < sx_numSlots (pe_sw env)) (Hfuel : (0 < pe_fuel env)%nat).
Context (Hip : si_InnerIp x = InnerIPReserved) (Hshape : slot_shape x).

Lemma wp_provision_tail newIfindex oldIfindex isModeSwitch s (Q : res unit → list SlotItem → Prop) :
  slot_at s i = Some x →
  Q (Ok tt) (set_slot s i (freed_slot (prov_slot env newIfindex x))) →
  (∀ e, Q (Err e) (set_slot s i (prov_slot env newIfindex x))) →
  wp alone (provision_tail env i newIfindex oldIfindex isModeSwitch) Q s.
Proof.
  intros Hx Hok Herr. unfold provision_tail. cbv zeta. apply wp_bind.
  apply wp_alone_kern_only; [kern_only|]. intros _. apply wp_mbind.
  eapply wp_writeSlotDeviceInfo; [lia|done|done|]. apply wp_bind.
  eapply wp_UpdateSlotFields; [lia|by eapply slot_at_set|]. rewrite set_slot_set.
  rewrite <-surjective_pairing. fold (prov_slot env newIfindex x).
  set (s1 := set_slot s i (prov_slot env newIfindex x)).
  assert (slot_at s1 i = Some (prov_slot env newIfindex x)) as Hx1 by (by eapply slot_at_set).
  assert (wp alone
    (let~ _ := if isModeSwitch then deleteOldSlotDeviceByIfindex (pe_sw env) (pe_switchNs env) i oldIfindex
               else mok tt in
     unreserve_loop (pe_fuel env) (sx_numSlots (pe_sw env)) i) Q s1) as Hrest.
  { apply wp_bind, wp_alone_kern_only; [apply kern_ret_only; kern_ret|]. intros _.
    eapply wp_unreserve; [done|lia|done| |unfold s1; by rewrite set_slot_set].
    unfold prov_slot, device_slot. by rewrite InnerIp_write, InnerIp_write_all, add_cidrs_ip, InnerIp_write_all. }
  apply wp_mbind. destruct (_ && _); [|exact Hrest].
  apply wp_mwrap, wp_alone_kern_ret; [apply kern_ret_call|by intros []|]. intros e. apply Herr.
Qed.

Lemma wp_provision_slot portNs mode old s g (Q : res unit → list SlotItem * asked → Prop) :
  length (sc_SwitchMac (sx_cfg (pe_sw env))) = 6%nat →
  (pe_mode env = PortKindVeth → is_Some portNs) →
  slot_at s i = Some x →
  (∀ y g', later g g' → provisioned (as_log g') env i x y → Q (Ok tt) (set_slot s i y, g')) →
  (∀ e g', later g g' → Q (Err e) (s, g')) →
  (∀ e y g', later g g' → written (as_log g') env i x y → si_InnerIp y = InnerIPReserved → si_Flags y = si_Flags x →
     Q (Err e) (set_slot s i y, g')) →
  wp asking (provision_slot env portNs i mode old) Q (s, g).
Proof.
  intros Hm Hns Hx Hok Herr Herr'. unfold provision_slot. cbv zeta.
  destruct (_ && _); [by apply Herr, later_refl|]. apply wp_mbind, wp_mwrap, wp_learns.
  eapply learns_mono; [by apply create_device_learns|].
  intros [ifindex|e| |] g' [Hl Hdev]; cbn [map_err]; try done; [|by apply Herr].
  destruct (prov_slot_written _ env i ifindex x Hshape Hdev) as (Hw & Hip' & Hfl).
  eapply wp_mono; [apply wp_asking; eapply wp_provision_tail with (Q := λ r s', match r with
      | Ok _ => s' = set_slot s i (freed_slot (prov_slot env ifindex x))
      | Err _ => s' = set_slot s i (prov_slot env ifindex x)
      | _ => False end); done|].
  intros [[]|e| |] [s' g''] [Hs Hl']; try done; simpl in Hs, Hl'; subst s'; pose proof (later_trans _ _ _ Hl Hl').
  - apply Hok; [done|]. by apply written_freed, (written_lasting (as_log g')).
  - apply Herr'; [done|by apply (written_lasting (as_log g'))|congruence|done].
Qed.
End slot.

(** ** The scan *)
Lemma openPortNetns_some n ns :
  ends_in (λ r, match r with Ok ns => is_Some ns | Err _ => True | _ => False end) (openPortNetns n ns).
Proof.
  unfold openPortNetns. destruct ns as [ns|]; [by eexists|]. destruct (bool_decide _); [done|].
  eapply ends_in_bind; [apply kern_ret_mwrap, GetByName_kern_ret|]. intros [] Hr; try done. by eexists.
Qed.

Definition reserved_count (n : Z) (s : list SlotItem) : Z := ip_count (Z.eqb InnerIPReserved) n s.

(** The effect of one slot's new address on the Reserved count. *)
Lemma reserved_count_set n s i x y :
  slot_at s i = Some x → si_InnerIp x = InnerIPReserved → si_InnerIp y = InnerIPFree → 0 ≤ i < n →
  n ≤ Z.of_nat (length s) → reserved_count n (set_slot s i y) = reserved_count n s - 1.
Proof.
  intros Hx Hip Hip' Hi Hn. unfold slot_at in Hx. destruct (i <? 0) eqn:E; [lia|].
  unfold reserved_count, ip_count, set_slot.
  rewrite take_insert_lt by lia.
  assert (take (Z.to_nat n) s !! Z.to_nat i = Some x) as Hl by (rewrite lookup_take_lt by lia; done).
  generalize dependent (take (Z.to_nat n) s). intros l Hl. clear -Hip Hip' Hl.
  rewrite <-(take_drop_middle l (Z.to_nat i) x Hl) at 2.
  rewrite (insert_take_drop l _ y) by (by apply lookup_lt_Some in Hl).
  rewrite !filter_app, !filter_cons, !length_app.
  rewrite decide_False by (rewrite Hip'; done). rewrite decide_True by (rewrite Hip; done).
  simpl. lia.
Qed.

(** The ports the caller asks for. *)
Definition requested (n port k : Z) : Prop := 0 ≤ k < n ∧ (0 < port → k = u32 (port - 1)).

(** A slot is untouched, or it was a requested Reserved one and is provisioned;
    only the slot where the scan failed may describe its device and still be
    Reserved. *)
Definition slot_after (log : list answered) (env : provision_env) (n port : Z) (failed : option Z) (k : Z)
    (x y : SlotItem) : Prop :=
  y = x ∨
  (si_InnerIp x = InnerIPReserved ∧ requested n port k ∧
   (provisioned log env k x y ∨
    (failed = Some k ∧ written log env k x y ∧ si_InnerIp y = InnerIPReserved ∧ si_Flags y = si_Flags x))).
Definition table_after (log : list answered) (env : provision_env) (n port : Z) (failed : option Z)
    (s s' : list SlotItem) : Prop :=
  length s' = length s ∧
  ∀ k x y, slot_at s k = Some x → slot_at s' k = Some y → slot_after log env n port failed k x y.

(** No requested slot below [i] is Reserved. *)
Definition visited (n port i : Z) (s' : list SlotItem) : Prop :=
  ∀ k y, requested n port k → k < i → slot_at s' k = Some y → si_InnerIp y ≠ InnerIPReserved.

(** The scan stopped at slot [k], which is still Reserved: the requested slots
    before it are done, those behind it are untouched. *)
Definition stopped_at (n port k : Z) (s s' : list SlotItem) : Prop :=
  requested n port k ∧ (∃ x y, slot_at s k = Some x ∧ si_InnerIp x = InnerIPReserved ∧
                               slot_at s' k = Some y ∧ si_InnerIp y = InnerIPReserved) ∧
  visited n port k s' ∧ ∀ j, k < j → slot_at s' j = slot_at s j.

Definition scan_post (env : provision_env) (n port count : Z) (s : list SlotItem)
    (rp : res Z * option NetNS) (t : list SlotItem * asked) : Prop :=
  match rp.1 with
  | Ok p => table_after (as_log t.2) env n port None s t.1 ∧
      p = reserved_count n s - reserved_count n t.1 ∧ (0 < count → p ≤ count) ∧
      (visited n port n t.1 ∨ 0 < count ∧ p = count)
  | Err _ => ∃ k, table_after (as_log t.2) env n port (Some k) s t.1 ∧ stopped_at n port k s t.1
  | _ => False
  end.

Lemma provisioned_lasting log log' env k x y : log ⊆ log' → provisioned log env k x y → provisioned log' env k x y.
Proof. intros Hl [Hw Hip]. split; [by eapply written_lasting|done]. Qed.
Lemma table_after_refl log env n port f s : table_after log env n port f s s.
Proof. split; [done|]. intros k x y Hx Hy. left. congruence. Qed.
Lemma table_after_lasting log log' env n port f s s' :
  log ⊆ log' → table_after log env n port None s s' → table_after log' env n port f s s'.
Proof.
  intros Hl [Hlen Ht]. split; [done|]. intros k x y Hx Hy.
  destruct (Ht k x y Hx Hy) as [->|(Hr & Hk & [Hp|[? _]])]; [by left| |done]. right. split_and!; [done..|].
  left. by eapply provisioned_lasting.
Qed.
Lemma table_after_set log env n port f s s' i x y :
  table_after log env n port f s s' → slot_at s i = Some x → slot_after log env n port f i x y →
  table_after log env n port f s (set_slot s' i y).
Proof.
  intros [Hlen Ht] Hx Hy. split; [by rewrite set_slot_length|]. intros k x' y' Hx' Hy'.
  destruct (decide (k = i)) as [->|Hk].
  - assert (∃ z, slot_at s' i = Some z) as [z Hz].
    { apply slot_at_in. apply slot_at_range in Hx. unfold in_slots in *. by rewrite Hlen. }
    rewrite (slot_at_set _ _ _ _ Hz) in Hy'. by simplify_eq.
  - rewrite slot_at_set_ne in Hy'; [by eapply Ht|apply slot_at_range in Hx; by destruct Hx|done].
Qed.

Section scan.
Context (env : provision_env) (s : list SlotItem) (n port count : Z).
Context (Hn : sx_numSlots (pe_sw env) = n) (Hlen : n ≤ Z.of_nat (length s)) (Hfuel : (0 < pe_fuel env)%nat).
Context (Hmac : length (sc_SwitchMac (sx_cfg (pe_sw env))) = 6%nat).
Context (Hshape : Forall slot_shape s).

(** What holds when slot [i] is visited next. *)
Record scanned (i p : Z) (s' : list SlotItem) (g : asked) : Prop := {
  sn_table : table_after (as_log g) env n port None s s';
  sn_visited : visited n port i s';
  sn_ahead : ∀ j, i ≤ j → slot_at s' j = slot_at s j;
  sn_count : p = reserved_count n s - reserved_count n s';
  sn_limit : 0 < count → p < count;
}.
Lemma scanned_later i p s' g g' : later g g' → scanned i p s' g → scanned i p s' g'.
Proof. intros Hl [Ht Hv Ha Hc Hm]. constructor; try done. by eapply table_after_lasting. Qed.
Lemma scanned_skip i p s' g :
  scanned i p s' g → (∀ x, requested n port i → slot_at s' i = Some x → si_InnerIp x ≠ InnerIPReserved) →
  scanned (i + 1) p s' g.
Proof.
  intros [Ht Hv Ha Hc Hm] Hi. constructor; try done.
  - intros k y Hk Hki Hy. destruct (decide (k = i)) as [->|]; [by eapply Hi|]. eapply Hv; eauto. lia.
  - intros j Hj. apply Ha. lia.
Qed.
Lemma scanned_done i p s' g g' x y :
  0 ≤ i → later g g' → scanned i p s' g → requested n port i → slot_at s i = Some x → si_InnerIp x = InnerIPReserved →
  provisioned (as_log g') env i x y →
  table_after (as_log g') env n port None s (set_slot s' i y) ∧ visited n port (i + 1) (set_slot s' i y) ∧
  (∀ j, i + 1 ≤ j → slot_at (set_slot s' i y) j = slot_at s j) ∧
  p + 1 = reserved_count n s - reserved_count n (set_slot s' i y).
Proof.
  intros H0 Hl [Ht Hv Ha Hc Hm] Hi Hx Hip Hy. assert (Hx' : slot_at s' i = Some x) by by rewrite Ha.
  destruct (Hy) as (_ & Hfree & _). pose proof (proj1 Ht) as Hlen'. split_and!.
  - eapply table_after_set; [by eapply table_after_lasting|done|]. right. split_and!; [done..|by left].
  - intros k z Hk Hki Hz. destruct (decide (k = i)) as [->|].
    + rewrite (slot_at_set _ _ _ _ Hx') in Hz. simplify_eq. by rewrite Hfree.
    + rewrite slot_at_set_ne in Hz by lia. eapply Hv; eauto. lia.
  - intros j Hj. rewrite slot_at_set_ne by lia. apply Ha. lia.
  - destruct Hi as [Hi _]. rewrite (reserved_count_set n s' i x) by first [done | lia]. lia.
Qed.
Lemma scanned_failed i p s' g g' x y e ns :
  0 ≤ i → later g g' → scanned i p s' g → requested n port i → slot_at s i = Some x → si_InnerIp x = InnerIPReserved →
  si_InnerIp y = InnerIPReserved → slot_after (as_log g') env n port (Some i) i x y →
  scan_post env n port count s (Err e, ns) (set_slot s' i y, g').
Proof.
  intros H0 Hl [Ht Hv Ha Hc Hm] Hi Hx Hip Hipy Hy. assert (Hx' : slot_at s' i = Some x) by by rewrite Ha.
  exists i. split; [eapply table_after_set; [by eapply table_after_lasting|done..]|]. split_and!; [done| | |].
  - exists x, y. split_and!; try done. by eapply slot_at_set.
  - intros k z Hk Hki Hz. simpl in Hz. rewrite slot_at_set_ne in Hz by lia. by eapply Hv.
  - intros j Hj. simpl. rewrite slot_at_set_ne by lia. apply Ha. lia.
Qed.

Lemma wp_provision_loop m : ∀ i portNs p s' g,
  0 ≤ i → i + Z.of_nat m = n → scanned i p s' g →
  wp asking (provision_loop m env port count i portNs p) (scan_post env n port count s) (s', g).
Proof.
  induction m as [|m IH]; intros i portNs p s' g Hi Hm Hsc; cbn [provision_loop].
  { destruct Hsc as [Ht Hv Ha Hc Hl]. replace i with n in * by lia. split_and!; [done..|lia|by left]. }
  pose proof (proj1 (sn_table _ _ _ _ Hsc)) as Hl.
  destruct ((0 <? port) && negb (i =? u32 (port - 1))) eqn:Hskip.
  { apply IH; [lia..|]. apply scanned_skip; [done|]. intros x [_ Hp]. exfalso. lia. }
  assert (Hreq : requested n port i) by (split; [lia|]; intros; lia).
  destruct (slot_at_in s i) as [x Hx]; [unfold in_slots; lia|].
  assert (Hx' : slot_at s' i = Some x) by (by rewrite (sn_ahead _ _ _ _ Hsc)).
  apply wp_bind. eapply wp_mono; [apply (wp_asking _ (λ v s1, v = si_InnerIp x ∧ s1 = s')); by eapply wp_GetInnerIP; [lia|..]|].
  intros v [s1 g1] [[-> Es] Hg1]. simpl in Es, Hg1. subst s1. apply (scanned_later _ _ _ _ _ Hg1) in Hsc. clear g Hg1.
  destruct (si_InnerIp x =? InnerIPReserved) eqn:Hres; cbn [negb].
  2:{ apply IH; [lia..|]. apply scanned_skip; [done|]. intros y _ Hy. simplify_eq. lia. }
  apply Z.eqb_eq in Hres. rewrite GetSlot_lt by lia.
  assert (Hsx : slot_shape x).
  { unfold slot_at in Hx. destruct (i <? 0); [done|]. by eapply Forall_lookup_1. }
  do 2 (apply wp_bind; eapply (wp_ghost_load_slot _ _ i x); [done|]). apply wp_bind.
  assert (Hfail : ∀ e ns g2, later g1 g2 → scan_post env n port count s (Err e, ns) (s', g2)).
  { intros e ns g2 Hg. rewrite <-(set_slot_id s' i x) by done. eapply (scanned_failed _ _ _ g1); eauto. by left. }
  assert (Hslot : ∀ portNs' g2, later g1 g2 → (pe_mode env = PortKindVeth → is_Some portNs') →
    wp asking (let~ r := provision_slot env portNs' i (SlotPortKind x) (si_Ifindex x) in
              match r with
              | Ok _ => if (0 <? count) && (count <=? p + 1) then Ret (Ok (p + 1), portNs')
                        else provision_loop m env port count (i + 1) portNs' (p + 1)
              | Err e => Ret (Err e, portNs')
              | Panic => Ret (Panic, portNs')
              | OutOfFuel => Ret (OutOfFuel, portNs')
              end) (scan_post env n port count s) (s', g2)).
  { intros portNs' g2 Hg2 Hns. apply (scanned_later _ _ _ _ _ Hg2) in Hsc.
    apply wp_bind. eapply (wp_provision_slot env i x); auto; [lia| | |].
    - intros y g3 Hg3 Hy. destruct (scanned_done i p s' g2 g3 x y) as (Ht & Hv & Ha & Hc); try done.
      destruct ((0 <? count) && (count <=? p + 1)) eqn:Hlim.
      + pose proof (sn_limit _ _ _ _ Hsc). split_and!; [done|done|lia|right; lia].
      + apply IH; [lia..|]. constructor; try done. lia.
    - intros e g3 Hg3. apply Hfail. by eapply later_trans.
    - intros e y g3 Hg3 Hw Hip Hfl. eapply (scanned_failed _ _ _ g2); eauto. right. split_and!; [done..|]. by right. }
  destruct (pe_mode env =? PortKindVeth) eqn:Hmode.
  - apply wp_learns. eapply learns_mono; [apply learns_ends, openPortNetns_some|].
    intros [ns|e| |] g2 [Hns Hg2]; try done; [by apply Hslot|by apply Hfail].
  - apply Hslot; [apply later_refl|]. intros Hveth. lia.
Qed.
End scan.

(** ** The whole body *)
Lemma MgmtMAC_returns sw i : length sw = 6%nat → returns (MgmtMAC sw i).
Proof. intros H. destruct sw as [|? [|? [|? [|? [|? [|]]]]]]; try done. Qed.

Lemma mgmt_infos_kern_ret ns name cfg i l :
  length (sc_SwitchMac cfg) = 6%nat → kern_ret (mgmt_infos ns name cfg i l).
Proof.
  intros Hm. revert i. induction l as [|me l IH]; intros i; cbn [mgmt_infos]; [done|]. cbv zeta.
  apply kern_ret_mbind; [kern_ret|]. intros ifindex.
  apply kern_ret_mbind; [by apply mpure_kern_ret, MgmtMAC_returns|]. intros mac.
  apply kern_ret_mbind; [apply mpure_kern_ret; unfold mgmt_cidr; returns|]. intros cidrs.
  apply kern_ret_mbind; [done|]. kern_ret.
Qed.
Lemma transit_info_kern_ret ns m : kern_ret (transit_info ns m).
Proof.
  unfold transit_info. cbv zeta. case_bool_decide; [done|]. apply kern_ret_mbind; [kern_ret|]. intros i.
  case_bool_decide; [done|]. apply kern_ret_mbind; [apply mpure_kern_ret; returns|]. kern_ret.
Qed.

Lemma wp_alone_defer {A C} (c : prog C) (p : M A) (Q : res A → list SlotItem → Prop) s :
  kern_only c → wp alone p Q s → wp alone (with_defer c p) Q s.
Proof.
  intros Hc Hp. unfold with_defer. apply wp_bind. eapply wp_mono; [done|]. intros r s' HQ.
  apply wp_bind. by apply wp_alone_kern_only.
Qed.

(** *** What the slots are to say, from the metadata and the kernel's answers *)
(** A route of an extraction, as a prefix towards the device with [ifindex]. *)
Definition route_prefix (ifindex : Z) (mac : HardwareAddr) (route : string) (c : MgmtCidr) : Prop :=
  ∃ ip net, ParseCIDR route = Ok (ip, net) ∧
    c = MkMgmtCidr (IPToUint32 (net_ip net)) (MaskToUint32 (net_mask net)) (u32 ifindex) (copy_into mac_zero mac).
(** The [i]-th extraction: its device is [<switch>-m<i>]. *)
Definition extract_described (ns : NetNS) (name : string) (cfg : SwitchConfig) (i : Z) (me : MgmtExtractMeta)
    (mi : mgmtInfo) (log : list answered) : Prop :=
  names_device ns (name +:+ "-m" +:+ fmt_d i) (mi_ifindex mi) log ∧
  MgmtMAC (sc_SwitchMac cfg) i = Ok (mi_mac mi) ∧
  Forall2 (route_prefix (mi_ifindex mi) (mi_mac mi)) (mm_ServiceRoutes me) (mi_cidrs mi).
Definition extracts_described (ns : NetNS) (name : string) (cfg : SwitchConfig) (i : Z) (extracts : list MgmtExtractMeta)
    (infos : list mgmtInfo) (log : list answered) : Prop :=
  length infos = length extracts ∧
  ∀ j me mi, extracts !! j = Some me → infos !! j = Some mi →
    extract_described ns name cfg (i + Z.of_nat j) me mi log.
Definition transit_described (ns : NetNS) (meta : SwitchMetadata) (t : Z * Z) (log : list answered) : Prop :=
  if bool_decide (TransitDevName meta = "") then t = (0, 0)
  else names_device ns (TransitDevName meta) t.1 log ∧
       ∃ ip net, ParseCIDR (TransitDevAddrStr meta) = Ok (ip, net) ∧ t.2 = IPToUint32 ip.

(** What [ProvisionPorts] gathers before it looks at the slots. *)
Record described (log : list answered) (name : string) (mode : Z) (sw : switchContext) (env : provision_env) : Prop := {
  ds_sw : pe_sw env = sw;
  ds_name : pe_name env = name;
  ds_mode : pe_mode env = mode;
  ds_ns : ANetns (SwitchNetnsName (sx_meta sw)) (ns_handle (pe_switchNs env)) ∈ log;
  ds_mgmt : extracts_described (pe_switchNs env) name (sx_cfg sw) 0 (md_MgmtExtracts (sx_meta sw)) (pe_mgmt env) log;
  ds_transit : transit_described (pe_switchNs env) (sx_meta sw) (pe_transit env) log;
}.

Lemma extracts_described_lasting ns name cfg i l : lasting (extracts_described ns name cfg i l).
Proof.
  intros infos log log' Hl [Hlen Hd]. split; [done|]. intros j me mi Hj Hmi.
  destruct (Hd j me mi Hj Hmi) as (H & ? & ?). split_and!; [by apply Hl|done..].
Qed.
Lemma transit_described_lasting ns meta : lasting (transit_described ns meta).
Proof.
  intros t log log' Hl. unfold transit_described. case_bool_decide; [done|]. intros [Hi ?]. split; [by apply Hl|done].
Qed.
Lemma described_lasting log log' name mode sw env :
  log ⊆ log' → described log name mode sw env → described log' name mode sw env.
Proof.
  intros Hl []. constructor; try done; [by apply Hl|by eapply extracts_described_lasting|by eapply transit_described_lasting].
Qed.

Lemma mgmt_cidr_prefix ifindex mac r c : mgmt_cidr ifindex mac r = Ok c → route_prefix ifindex mac r c.
Proof.
  unfold mgmt_cidr. intros H. invert_ok. destruct (ParseCIDR r) as [[ip net]|e| |] eqn:E; try done. simplify_eq/=.
  by exists ip, net.
Qed.
Lemma res_mapM_forall2 {A B} (f : A → res B) l l' : res_mapM f l = Ok l' → Forall2 (λ a b, f a = Ok b) l l'.
Proof.
  revert l'. induction l as [|a l IH]; intros l'; cbn [res_mapM]; [intros [= <-]; constructor|].
  intros H. invert_ok. constructor; auto.
Qed.
Lemma mgmt_infos_learns ns name cfg l : length (sc_SwitchMac cfg) = 6%nat → ∀ i g,
  learns (mgmt_infos ns name cfg i l) (learnt (extracts_described ns name cfg i l) g) g.
Proof.
  intros Hm. induction l as [|me l IH]; intros i g; cbn [mgmt_infos].
  { split; [apply later_refl|]. by split. }
  cbv zeta. eapply learns_mbind; [apply learns_mwrap, GetLinkIndexInNs_learns|]. intros ifindex g1 _ Hi.
  pose proof (MgmtMAC_returns (sc_SwitchMac cfg) i Hm) as Hret.
  destruct (MgmtMAC (sc_SwitchMac cfg) i) as [mac|e| |] eqn:Emac; try done; [|by split; [apply later_refl|]].
  assert (Hcs : returns (res_mapM (mgmt_cidr ifindex mac) (mm_ServiceRoutes me))) by (unfold mgmt_cidr; returns).
  cbn [mpure mbind pbind]. destruct (res_mapM _ _) as [cidrs|e| |] eqn:Ec; try done; [|by split; [apply later_refl|]].
  eapply (learns_mbind _ _ (mgmt_infos ns name cfg (i + 1) l)); [apply IH|].
  intros rest g2 Hg2 [Hlen Hrest]. split; [apply later_refl|]. split; [simpl; by rewrite Hlen|].
  intros [|j] me' mi' Hj Hmi; simpl in Hj, Hmi; simplify_eq.
  - rewrite Z.add_0_r. split_and!; [by apply Hg2|done|]. simpl. eapply Forall2_impl; [by apply res_mapM_forall2|].
    apply mgmt_cidr_prefix.
  - replace (i + Z.of_nat (S j)) with (i + 1 + Z.of_nat j) by lia. by apply Hrest.
Qed.
Lemma transit_info_learns ns meta g :
  learns (transit_info ns meta) (learnt (transit_described ns meta) g) g.
Proof.
  unfold transit_info, transit_described. cbv zeta. case_bool_decide; [split; [apply later_refl|done]|].
  eapply learns_mbind; [apply learns_mwrap, GetLinkIndexInNs_learns|]. intros i g1 _ Hi.
  case_bool_decide; [by split; [apply later_refl|]|].
  assert (Hret : returns (ParseCIDR (TransitDevAddrStr meta))) by returns.
  destruct (ParseCIDR (TransitDevAddrStr meta)) as [[ip net]|e| |] eqn:E; try done; (split; [apply later_refl|]); [|done].
  split; [done|]. by exists ip, net.
Qed.

(** What [ProvisionPorts] promises once the switch is open. *)
Definition provision_post (name : string) (opts : ProvisionOptions) (sw : switchContext) (s : list SlotItem)
    (r : res ProvisionOutput) (t : list SlotItem * asked) : Prop :=
  let n := sc_N_ports (sx_cfg sw) in
  let port := pv_Port opts in
  let log := as_log t.2 in
  match r with
  | Ok out =>
      (∃ env, described log name (pv_Mode opts) sw env ∧ table_after log env n port None s t.1) ∧
      pr_Provisioned out = reserved_count n s - reserved_count n t.1 ∧ pr_Total out = n ∧
      pr_Available out = ip_count (Z.eqb InnerIPFree) n t.1 ∧
      (0 < pv_Count opts → pr_Provisioned out ≤ pv_Count opts) ∧
      (visited n port n t.1 ∨ 0 < pv_Count opts ∧ pr_Provisioned out = pv_Count opts)
  | Err _ =>
      t.1 = s ∨
      ∃ env k, described log name (pv_Mode opts) sw env ∧ table_after log env n port (Some k) s t.1 ∧
               stopped_at n port k s t.1
  | _ => False
  end.

Lemma wp_asking_defer {A C} (c : prog C) (p : M A) (Q : res A → list SlotItem * asked → Prop) t :
  kern_only c → wp asking p (λ r t', ∀ g', later t'.2 g' → Q r (t'.1, g')) t → wp asking (with_defer c p) Q t.
Proof.
  intros Hc Hp. unfold with_defer. apply wp_bind. eapply wp_mono; [done|]. intros r [s' g'] HQ.
  apply wp_bind, wp_asking_only; [done|]. intros _ g'' Hg. by apply HQ.
Qed.
Lemma table_after_since log log' env n port f s s' :
  log ⊆ log' → table_after log env n port f s s' → table_after log' env n port f s s'.
Proof.
  intros Hl [Hlen Ht]. split; [done|]. intros k x y Hx Hy.
  destruct (Ht k x y Hx Hy) as [->|(Hr & Hk & Hp)]; [by left|]. right. split_and!; [done..|].
  destruct Hp as [Hp|(Hf & Hw & Hrest)]; [left; by eapply provisioned_lasting|right].
  split; [done|split; [by eapply written_lasting|done]].
Qed.
Lemma provision_post_later name opts sw s r s' g g' :
  later g g' → provision_post name opts sw s r (s', g) → provision_post name opts sw s r (s', g').
Proof.
  intros Hg. unfold provision_post. cbv zeta. simpl. destruct r as [out|e| |]; try done.
  - intros [(env & Hd & Ht) Hr]. split; [|done]. exists env. split; [by eapply described_lasting|by eapply table_after_since].
  - intros [->|(env & k & Hd & Ht & Hs)]; [by left|]. right. exists env, k.
    split_and!; [by eapply described_lasting|by eapply table_after_since|done].
Qed.

Section body.
Context (fuel : nat) (name : string) (opts : ProvisionOptions) (sw : switchContext) (s : list SlotItem).
Context (Hctx : ctx_ok sw s) (Hshape : Forall slot_shape s) (Hfuel : (0 < fuel)%nat).

Lemma wp_provision_scan env g :
  described (as_log g) name (pv_Mode opts) sw env → pe_fuel env = fuel →
  wp asking
    (let n := sc_N_ports (sx_cfg sw) in
     let~ rp := provision_loop (Z.to_nat n) env (pv_Port opts) (pv_Count opts) 0 None 0 in
     let '(r, portNs) := rp in
     with_defer (close_opt portNs)
       (let* provisioned := mpure r in
        let~ available := count_slots (Z.eqb InnerIPFree) (Z.to_nat n) (sx_numSlots sw) 0 0 in
        mok (MkProvisionOutput provisioned n available)))
    (provision_post name opts sw s) (s, g).
Proof.
  intros Hd Hf. pose proof (ctx_num _ _ Hctx) as Hnum. pose proof (ctx_pos _ _ Hctx) as Hpos.
  pose proof (ctx_fit _ _ Hctx) as Hfit. pose proof (ctx_mac _ _ Hctx) as Hmac. pose proof (ds_sw _ _ _ _ _ Hd) as Hsw.
  cbv zeta. apply wp_bind. eapply wp_mono.
  { apply wp_later. apply (wp_provision_loop env s (sc_N_ports (sx_cfg sw)) (pv_Port opts) (pv_Count opts)); rewrite ?Hsw, ?Hf;
      first [done | lia | constructor; first [apply table_after_refl | done | lia | intros k y [Hk _] Hki; lia]]. }
  intros [r portNs] [s' g'] [Hr Hg]. simpl in Hr, Hg.
  apply wp_asking_defer; [destruct portNs; [apply kern_ret_only, kern_ret_call|done]|].
  apply wp_mbind. cbn [mpure wp]. apply (described_lasting _ _ _ _ _ _ Hg) in Hd.
  destruct r as [p|e| |]; try done.
  - destruct Hr as (Ht & Hp & Hlim & Hrest). pose proof (proj1 Ht) as Hlen. simpl in Hlen.
    apply wp_bind. eapply wp_mono; [apply (wp_asking _ (λ c s1, c = ip_count (Z.eqb InnerIPFree) (sc_N_ports (sx_cfg sw)) s' ∧ s1 = s'));
      rewrite Hnum; apply wp_count_slots; simpl; [lia..|done|done]|].
    intros c [s1 g1] [[-> Es] Hg1]. simpl in Es, Hg1. subst s1. cbn [mok wp]. intros g2 Hg2.
    apply (provision_post_later _ _ _ _ _ _ g'); [by eapply later_trans|]. split; [by exists env|]. by split_and!.
  - destruct Hr as (k & Ht & Hs). intros g2 Hg2. apply (provision_post_later _ _ _ _ _ _ g'); [done|]. right. by exists env, k.
Qed.

Lemma wp_provision_body g :
  wp asking (provision_body fuel name opts sw) (provision_post name opts sw s) (s, g).
Proof.
  pose proof (ctx_mac _ _ Hctx) as Hmac. assert (Herr : ∀ e g', provision_post name opts sw s (Err e) (s, g')) by by left.
  unfold provision_body. cbv zeta. apply wp_mbind, wp_mwrap, wp_learns. eapply learns_mono; [apply GetByName_learns|].
  intros [ns|e| |] g1 [_ Hns]; cbn [map_err]; try done.
  apply wp_asking_defer; [apply kern_ret_only, kern_ret_call|].
  apply (wp_mono _ _ (provision_post name opts sw s)).
  2:{ intros r [s' g'] Hp g'' Hg. by apply (provision_post_later _ _ _ _ _ _ g'). }
  apply wp_mbind, wp_learns. eapply learns_mono; [by apply mgmt_infos_learns|].
  intros [infos|e| |] g2 [Hg2 Hmg]; try done.
  apply wp_mbind, wp_learns. eapply learns_mono; [apply transit_info_learns|].
  intros [t|e| |] g3 [Hg3 Ht]; try done.
  apply wp_provision_scan; [|done]. constructor; try done; simpl.
  - by apply Hg3, Hg2.
  - by eapply extracts_described_lasting.
Qed.
End body.

(** The same without the log. *)
Lemma wp_provision_alone fuel name opts sw s :
  ctx_ok sw s → Forall slot_shape s → (0 < fuel)%nat →
  wp alone (provision_body fuel name opts sw) (λ r s', ∃ g, provision_post name opts sw s r (s', g)) s.
Proof.
  intros. apply (wp_ghost_alone (λ _ _ _, True) (λ B q g b g', g' = asked_after q b g) _ _ (s, MkAsked 0 [])).
  - intros B q g b. by eexists.
  - eapply wp_mono; [by apply wp_provision_body|]. intros r [s' g'] Hr. by exists g'.
Qed.

(** C13: [ProvisionPorts] on an open switch, for every answer of the kernel.
    Beside the table runs a log of what the kernel answered: handles of
    namespace names, and indices of device names in the namespace the thread was
    in.  Every slot but those requested and Reserved is untouched.  A requested
    Reserved slot is untouched or provisioned: Free, down, of the requested
    mode; its device index is one the kernel answered for the name of that slot's
    device in the switch namespace; its prefixes are the first three of the
    metadata's service routes, parsed, each with the index the kernel answered
    for its extraction's device and with that device's MAC; its transit index is
    the one answered for the metadata's transit device and its transit address
    that of the metadata; gateway, network identifier, transit MAC, option
    length, generation and statistics flag are as they were.  On success the reported
    numbers are exact, the limit is respected, and no requested slot is left
    Reserved unless the limit was reached.  On an error the table is as it was,
    or the scan stopped at one requested slot: that slot is still Reserved, so
    that it can be retried, the requested slots before it are done and those
    behind it are untouched; it may already describe its new device.  The call
    always returns: it neither panics nor spins. *)
Theorem provision_spec fuel name opts sw s g :
  ctx_ok sw s → Forall slot_shape s → (0 < fuel)%nat →
  wp asking (provision_body fuel name opts sw) (provision_post name opts sw s) (s, g).
Proof. intros Hctx Hshape Hfuel. by apply wp_provision_body. Qed.

Lemma ex_table_shape : Forall slot_shape ex_table.
Proof. decide_true. Qed.
Lemma provision_spec_witness :
  wp asking (provision_body 1 "sw0" (MkProvisionOptions 0 0 PortKindTap) ex_switch)
    (provision_post "sw0" (MkProvisionOptions 0 0 PortKindTap) ex_switch ex_table) (ex_table, MkAsked 0 []).
Proof. apply (provision_spec 1 "sw0" _ ex_switch ex_table); [apply ex_switch_ok|apply ex_table_shape|lia]. Defined.
