(* ===== verification/Stop.v ===== *)
(** * Release and stop: pkg/vswitch/stop.go

    [ReleasePorts] takes every port out of service and deletes the devices;
    [StopReleased] removes what is left of the switch.  The retry loops of the
    source are bounded by [fuel]; [StopSpec] shows that one pass is enough when
    nobody interferes.  The order of Go's iteration over a map is the parameter
    [map_range].  Progress messages are left out. *)
From S2P Require Import Prelude Errors GoStrings GoNet BpfTypes Mac Geneve Prog SlotTable Netns.
From S2P Require Import Netlink Config Metadata Loader Context Flock Attach.

Record ReleaseOptions := MkReleaseOptions { rl_Force : bool }.
Record ReleaseOutput := MkReleaseOutput { rl_Released : Z; rl_Total : Z; rl_Remaining : Z }.
Record StopOptions := MkStopOptions { so_Force : bool }.
Record portIfaceToDel := MkPortIface { pi_slotID : Z; pi_ifindex : Z }.

Definition countAllocatedSlots (numSlots nPorts : Z) : prog Z :=
  count_slots IsSlotAllocated (Z.to_nat nPorts) numSlots 0 0.

(** ** Taking slots out of service

    One pass over the slots either finishes, fails, or asks for a restart. *)
Inductive scan := ScanDone | ScanRestart | ScanFail (e : error).

Fixpoint reserve_free_pass (n : nat) (numSlots nPorts i : Z) : prog scan :=
  match n with
  | O => Ret ScanDone
  | S n =>
      let~ innerIP := GetInnerIP numSlots i in
      if innerIP =? InnerIPFree then
        let~ ok := TryReserve numSlots i InnerIPFree in
        if ok then reserve_free_pass n numSlots nPorts (i + 1)
        else
          let~ used := countAllocatedSlots numSlots nPorts in
          if 0 <? used
          then Ret (ScanFail (errorw "" (sentinel_error ErrPortsInUse) ": concurrent attach detected during reserve"))
          else Ret ScanRestart
      else reserve_free_pass n numSlots nPorts (i + 1)
  end.

Fixpoint reserve_all_pass (n : nat) (numSlots i : Z) : prog scan :=
  match n with
  | O => Ret ScanDone
  | S n =>
      let~ innerIP := GetInnerIP numSlots i in
      if negb (innerIP =? InnerIPReserved) then
        let~ ok := TryReserve numSlots i innerIP in
        if ok then reserve_all_pass n numSlots (i + 1) else Ret ScanRestart
      else reserve_all_pass n numSlots (i + 1)
  end.

(** [continue LABEL]: start over. *)
Fixpoint rescan (fuel : nat) (pass : prog scan) : M unit :=
  match fuel with
  | O => Ret OutOfFuel
  | S fuel =>
      let~ r := pass in
      match r with
      | ScanDone => mok tt
      | ScanRestart => rescan fuel pass
      | ScanFail e => merr e
      end
  end.
Definition reserveFreeSlots (fuel : nat) (numSlots nPorts : Z) : M unit :=
  rescan fuel (reserve_free_pass (Z.to_nat nPorts) numSlots nPorts 0).
Definition reserveAllSlots (fuel : nat) (numSlots nPorts : Z) : M unit :=
  rescan fuel (reserve_all_pass (Z.to_nat nPorts) numSlots 0).

(** ** Devices in the slots *)
Definition slot_mgmt_ifindexes (x : SlotItem) : list Z :=
  let count := si_MgmtCidrCount x in
  if 0 <? count then
    filter (λ i, i ≠ 0)
      (mc_Ifindex (si_MgmtCidrs0 x) ::
       map mc_Ifindex (take (Z.to_nat (Z.min (count - 1) MaxMgmtCIDRExt)) (si_MgmtCidrsExt x)))
  else [].

(** Device and prefix fields only change under the control lock, which every
    caller of the scan holds, so one look at the slot stands for the several
    reads of these fields. *)
Fixpoint collect_loop (n : nat) (numSlots i : Z) (mgmtSet : gset Z) : M (list portIfaceToDel * gset Z) :=
  match n with
  | O => mok ([], mgmtSet)
  | S n =>
      read_slot numSlots i (λ x,
        let* rest := collect_loop n numSlots (i + 1) (list_to_set (slot_mgmt_ifindexes x) ∪ mgmtSet) in
        mok ((if negb (si_Ifindex x =? 0) then [MkPortIface i (si_Ifindex x)] else []) ++ rest.1, rest.2))
  end.
Definition collectPortInterfaces (numSlots nPorts : Z) (mgmtSet : gset Z) : M (list portIfaceToDel * gset Z) :=
  collect_loop (Z.to_nat nPorts) numSlots 0 mgmtSet.

(** The deletion closure of [stopGetSwitchNs]. *)
Inductive delLink := DelNothing | DelInNs (ns : NetNS) | DelHere.
Definition delLinkByIndex (d : delLink) (ifindex : Z) : M unit :=
  match d with
  | DelNothing => mok tt
  | DelInNs ns => DeleteLinkByIndexInNs ns ifindex
  | DelHere => DeleteLinkByIndex ifindex
  end.
(** A device that is already gone is fine. *)
Definition tolerate (P : error → bool) (wrap : error → error) (m : M unit) : M unit :=
  let~ r := m in
  match r with
  | Err e => if P e then mok tt else merr (wrap e)
  | r => Ret r
  end.

Fixpoint deletePortInterfaces (s : switchContext) (ifaces : list portIfaceToDel) (d : delLink) : M unit :=
  match ifaces with
  | [] => mok tt
  | item :: ifaces =>
      let ifindex := pi_ifindex item in
      let* _ := tolerate IsLinkNotExist (λ e, errorw ("delete port veth ifindex " +:+ fmt_u ifindex +:+ ": ") e "")
                         (delLinkByIndex d ifindex) in
      let* _ := if has_ifindex_map s
                then tolerate IsKeyNotExist (λ e, errorw ("delete ifindex_to_slot entry " +:+ fmt_u ifindex +:+ ": ") e "")
                              (call (MapDelete MIfindexToSlot ifindex))
                else mok tt in
      let~ _ := UpdateSlotFields (sx_numSlots s) (pi_slotID item) (λ p, stores p [WIfindex 0]) in
      deletePortInterfaces s ifaces d
  end.

Fixpoint validate_released_loop (n : nat) (numSlots i : Z) : M unit :=
  match n with
  | O => mok tt
  | S n =>
      deref (GetSlot numSlots i) (λ p,
        let~ innerIP := GetInnerIP numSlots i in
        let~ x := trigger (ELoadSlot p) in
        if negb (innerIP =? InnerIPReserved) || negb (si_Ifindex x =? 0)
        then merr (errorw ("slot " +:+ fmt_u i +:+ " not released (innerIP=0x" +:+ fmt_x innerIP +:+ ", ifindex="
                           +:+ fmt_u (si_Ifindex x) +:+ "): ") (sentinel_error ErrPortsNotReleased) "")
        else validate_released_loop n numSlots (i + 1))
  end.
Definition validateAllReleased (numSlots nPorts : Z) : M unit :=
  validate_released_loop (Z.to_nat nPorts) numSlots 0.

Fixpoint count_devices_loop (n : nat) (numSlots i count : Z) : M Z :=
  match n with
  | O => mok count
  | S n => read_slot numSlots i (λ x,
             count_devices_loop n numSlots (i + 1) (if negb (si_Ifindex x =? 0) then count + 1 else count))
  end.
Definition countPortsWithDevices (numSlots nPorts : Z) : M Z :=
  count_devices_loop (Z.to_nat nPorts) numSlots 0 0.

Definition stopGetSwitchNs (s : switchContext) : M (option NetNS * delLink) :=
  let name := SwitchNetnsName (sx_meta s) in
  if bool_decide (name = "") then mok (None, DelHere)
  else
    let~ r := GetByName name in
    match r with
    | Ok ns => mok (Some ns, DelInNs ns)
    | Err e => if errors_is e OsErrNotExist then mok (None, DelNothing)
               else merr (errorw ("get switch netns " +:+ name +:+ ": ") e "")
    | Panic => mpanic
    | OutOfFuel => Ret OutOfFuel
    end.

Definition close_ns_opt (ns : option NetNS) : prog (res unit) :=
  match ns with Some ns => NetNS_Close ns | None => mok tt end.

(** ** ReleasePorts *)
Definition collect_and_delete (s : switchContext) (nPorts : Z) (mgmtSet : gset Z) (d : delLink) : M (gset Z) :=
  let* c := collectPortInterfaces (sx_numSlots s) nPorts mgmtSet in
  let* _ := deletePortInterfaces s c.1 d in
  mok c.2.

(** An error of the first round is ignored. *)
Definition ignore_err (m : M unit) : M unit :=
  let~ r := m in match r with Err _ => mok tt | r => Ret r end.

Definition release_force (fuel : nat) (s : switchContext) (nPorts : Z) (d : delLink) : M unit :=
  let n := sx_numSlots s in
  let* _ := ignore_err (reserveFreeSlots fuel n nPorts) in
  let* mgmtSet := collect_and_delete s nPorts ∅ d in
  let* _ := reserveAllSlots fuel n nPorts in
  let* _ := collect_and_delete s nPorts mgmtSet d in
  mok tt.

Definition release_safe (fuel : nat) (switchName : string) (s : switchContext) (nPorts : Z) (d : delLink) : M unit :=
  let n := sx_numSlots s in
  let~ used := countAllocatedSlots n nPorts in
  if 0 <? used
  then merr (errorw ("switch " +:+ switchName +:+ " has " +:+ fmt_u used +:+ " allocated port(s): ")
                    (sentinel_error ErrPortsInUse) "")
  else
    let* _ := reserveFreeSlots fuel n nPorts in
    let* _ := collect_and_delete s nPorts ∅ d in
    mok tt.

Definition release_body (fuel : nat) (switchName : string) (opts : ReleaseOptions) (s : switchContext) : M ReleaseOutput :=
  let nPorts := sc_N_ports (sx_cfg s) in
  let* nd := stopGetSwitchNs s in
  with_defer (close_ns_opt nd.1)
    (let* beforeDevices := countPortsWithDevices (sx_numSlots s) nPorts in
     let* _ := if rl_Force opts then release_force fuel s nPorts nd.2
               else release_safe fuel switchName s nPorts nd.2 in
     let* remaining := countPortsWithDevices (sx_numSlots s) nPorts in
     mok (MkReleaseOutput (beforeDevices - remaining) nPorts remaining)).

(** ** StopReleased *)
Section Stop.
Context (unmarshal : string → res SwitchMetadata) (map_range : gset Z → list Z).

Definition ReleasePorts (fuel : nat) (switchName : string) (opts : ReleaseOptions) : M ReleaseOutput :=
  with_lock (mwrap (λ e, errorw "failed to acquire control lock: " e "") (AcquireControlLock switchName))
    (with_switch (Open unmarshal switchName) (release_body fuel switchName opts)).

Fixpoint delete_mgmt (ifindexes : list Z) (d : delLink) : M unit :=
  match ifindexes with
  | [] => mok tt
  | ifindex :: ifindexes =>
      let* _ := tolerate IsLinkNotExist (λ e, errorw ("delete mgmt veth ifindex " +:+ fmt_u ifindex +:+ ": ") e "")
                         (delLinkByIndex d ifindex) in
      delete_mgmt ifindexes d
  end.

Fixpoint clear_mgmt_loop (n : nat) (numSlots i : Z) : M unit :=
  match n with
  | O => mok tt
  | S n =>
      read_slot numSlots i (λ x,
        let~ _ := if (0 <? si_MgmtCidrCount x) || negb (mc_Ifindex (si_MgmtCidrs0 x) =? 0)
                  then UpdateSlotFields numSlots i (λ p,
                         stores p [WMgmtCidrCount 0; WMgmtCidrs0 MgmtCidr_zero;
                                   WMgmtCidrsExt 0 MgmtCidr_zero; WMgmtCidrsExt 1 MgmtCidr_zero])
                  else Ret tt in
        clear_mgmt_loop n numSlots (i + 1))
  end.

(** Move the transit device to the caller's namespace; the handle on it stays
    open until the function returns. *)
Definition with_transit_back {A} (s : switchContext) (switchNs : option NetNS) (k : M A) : M A :=
  let transitDevName := TransitDevName (sx_meta s) in
  match switchNs with
  | Some ns =>
      if bool_decide (transitDevName = "") then k
      else
        let* callerNs := mwrap (λ e, errorw "get current netns: " e "") GetCurrent in
        with_defer (NetNS_Close callerNs)
          (let* _ := tolerate (λ e, IsLinkNotExist e || errors_is e SysEEXIST)
                              (λ e, errorw ("move transit device " +:+ transitDevName +:+ ": ") e "")
                              (MoveDevice transitDevName (Some ns) callerNs) in
           k)
  | None => k
  end.

Definition stopCommonCleanup (s : switchContext) (switchName : string) (switchNs : option NetNS)
    (mgmtIfaceSet : gset Z) (d : delLink) : M unit :=
  let nPorts := sc_N_ports (sx_cfg s) in
  let* _ := delete_mgmt (map_range mgmtIfaceSet) d in
  let* _ := clear_mgmt_loop (Z.to_nat nPorts) (sx_numSlots s) 0 in
  with_transit_back s switchNs
    (let dummyDevName := switchName +:+ "-dummy" in
     let* _ := match switchNs with
               | Some ns => tolerate IsLinkNotExist (λ e, errorw ("delete block device " +:+ dummyDevName +:+ ": ") e "")
                                     (DeleteLinkByNameInNs ns dummyDevName)
               | None => mok tt
               end in
     UnpinMaps switchName).

Definition stop_released_body (switchName : string) (s : switchContext) : M unit :=
  let nPorts := sc_N_ports (sx_cfg s) in
  let* _ := validateAllReleased (sx_numSlots s) nPorts in
  let* c := collectPortInterfaces (sx_numSlots s) nPorts ∅ in
  let* nd := stopGetSwitchNs s in
  with_defer (close_ns_opt nd.1) (stopCommonCleanup s switchName nd.1 c.2 nd.2).

Definition StopReleased (switchName : string) : M unit :=
  with_lock (mwrap (λ e, errorw "failed to acquire control lock: " e "") (AcquireControlLock switchName))
    (with_switch (Open unmarshal switchName) (stop_released_body switchName)).

Definition Stop (fuel : nat) (switchName : string) (opts : StopOptions) : M unit :=
  let* _ := ReleasePorts fuel switchName (MkReleaseOptions (so_Force opts)) in
  StopReleased switchName.
End Stop.
