(* ===== verification/StopSpec.v ===== *)
(** * What release and stop do to the slot table

    The functional contract of [ReleasePorts] and [StopReleased] when nobody
    else touches the table, for every answer of the kernel. *)
From S2P Require Import Prelude Errors GoStrings GoNet BpfTypes Mac Geneve Prog SlotTable Netns.
From S2P Require Import Netlink Config MgmtService Metadata Loader Context Flock Attach AttachSpec Provision ProvisionSpec Stop.

(** ** A function on each of the first [n] slots *)
Definition over (n : Z) (f : SlotItem → SlotItem) (s : list SlotItem) : list SlotItem :=
  map f (take (Z.to_nat n) s) ++ drop (Z.to_nat n) s.

Lemma slot_at_middle pre x l : slot_at (pre ++ x :: l) (Z.of_nat (length pre)) = Some x.
Proof.
  unfold slot_at. destruct (Z.of_nat (length pre) <? 0) eqn:E; [apply Z.ltb_lt in E; lia|].
  rewrite Nat2Z.id. by apply list_lookup_middle.
Qed.
Lemma set_slot_middle pre x y l : set_slot (pre ++ x :: l) (Z.of_nat (length pre)) y = pre ++ y :: l.
Proof.
  unfold set_slot. rewrite Nat2Z.id, insert_app_r_alt by lia. by rewrite Nat.sub_diag.
Qed.
Lemma over_length n f s : length (over n f s) = length s.
Proof. unfold over. rewrite length_app, length_map, <-length_app. by rewrite take_drop. Qed.
Lemma over_over n f g s : n ≤ Z.of_nat (length s) → over n g (over n f s) = over n (λ x, g (f x)) s.
Proof.
  intros Hn. unfold over. assert (length (map f (take (Z.to_nat n) s)) = Z.to_nat n) as Hl
    by (rewrite length_map, length_take; lia).
  rewrite take_app_le, take_ge by lia. rewrite drop_app_ge, Hl, Nat.sub_diag by lia.
  by rewrite map_map.
Qed.
Lemma over_ext n f g s : Forall (λ x, f x = g x) (take (Z.to_nat n) s) → over n f s = over n g s.
Proof.
  intros H. unfold over. f_equal. induction H as [|x l Hx _ IH]; [done|]. simpl. by rewrite Hx, IH.
Qed.
Lemma over_id n f s : Forall (λ x, f x = x) (take (Z.to_nat n) s) → over n f s = s.
Proof.
  intros H. rewrite (over_ext n f id) by done. unfold over. rewrite map_id. apply take_drop.
Qed.

(** A loop that treats slot after slot: [pass m i] started on a table whose
    first [i] slots are done. *)
Lemma wp_pass {A} (pass : nat → Z → prog A) (f : SlotItem → SlotItem) (done_ : A) (numSlots : Z)
    (Q : A → list SlotItem → Prop) n s :
  (∀ i, pass O i = Ret done_) →
  (∀ m i x s' (P : A → list SlotItem → Prop), 0 ≤ i < numSlots → slot_at s' i = Some x →
     wp alone (pass m (i + 1)) P (set_slot s' i (f x)) → wp alone (pass (S m) i) P s') →
  0 ≤ n ≤ numSlots → n ≤ Z.of_nat (length s) → Q done_ (over n f s) → wp alone (pass (Z.to_nat n) 0) Q s.
Proof.
  intros Hdone Hstep Hn Hlen HQ. unfold over in HQ.
  rewrite <-(take_drop (Z.to_nat n) s). set (post := drop (Z.to_nat n) s) in *.
  assert (∀ xs pre, Z.of_nat (length pre + length xs) ≤ numSlots →
    Q done_ (pre ++ map f xs ++ post) →
    wp alone (pass (length xs) (Z.of_nat (length pre))) Q (pre ++ xs ++ post)) as H.
  { induction xs as [|x xs IH]; intros pre Hl HQ'; simpl in *.
    - by rewrite Hdone.
    - eapply Hstep; [lia|apply slot_at_middle|]. rewrite set_slot_middle.
      specialize (IH (pre ++ [f x])). rewrite !length_app, <-!app_assoc in IH. simpl in IH.
      replace (Z.of_nat (length pre) + 1) with (Z.of_nat (length pre + 1)) by lia.
      apply IH; [lia|done]. }
  specialize (H (take (Z.to_nat n) s) []). simpl in H. rewrite length_take in H.
  rewrite Nat.min_l in H by lia. apply H; [lia|done].
Qed.

(** ** The two reservations *)
Definition reserve_free_slot (x : SlotItem) : SlotItem :=
  if si_InnerIp x =? InnerIPFree then set_InnerIp InnerIPReserved x else x.
Definition reserve_slot (x : SlotItem) : SlotItem := set_InnerIp InnerIPReserved x.

Lemma set_InnerIp_same ip x : si_InnerIp x = ip → set_InnerIp ip x = x.
Proof. by destruct x as []; simpl; intros ->. Qed.

Lemma wp_reserveFreeSlots fuel numSlots n s (Q : res unit → list SlotItem → Prop) :
  (0 < fuel)%nat → 0 ≤ n ≤ numSlots → n ≤ Z.of_nat (length s) →
  Q (Ok tt) (over n reserve_free_slot s) → wp alone (reserveFreeSlots fuel numSlots n) Q s.
Proof.
  intros Hf Hn Hlen HQ. unfold reserveFreeSlots. destruct fuel as [|fuel]; [lia|]. cbn [rescan].
  apply wp_bind, (wp_pass (λ m i, reserve_free_pass m numSlots n i) reserve_free_slot ScanDone numSlots); auto.
  intros m i x s' P Hi Hx Hnext. cbn [reserve_free_pass]. apply wp_bind.
  eapply wp_GetInnerIP; [lia|done|]. unfold reserve_free_slot in Hnext.
  destruct (si_InnerIp x =? InnerIPFree) eqn:E.
  - apply wp_bind. eapply wp_TryReserve; [lia|done|done|by intros _|]. intros Hne. lia.
  - by rewrite set_slot_id in Hnext.
Qed.

Lemma wp_reserveAllSlots fuel numSlots n s (Q : res unit → list SlotItem → Prop) :
  (0 < fuel)%nat → 0 ≤ n ≤ numSlots → n ≤ Z.of_nat (length s) →
  Q (Ok tt) (over n reserve_slot s) → wp alone (reserveAllSlots fuel numSlots n) Q s.
Proof.
  intros Hf Hn Hlen HQ. unfold reserveAllSlots. destruct fuel as [|fuel]; [lia|]. cbn [rescan].
  apply wp_bind, (wp_pass (λ m i, reserve_all_pass m numSlots i) reserve_slot ScanDone numSlots); auto.
  intros m i x s' P Hi Hx Hnext. cbn [reserve_all_pass]. apply wp_bind.
  eapply wp_GetInnerIP; [lia|done|]. destruct (si_InnerIp x =? InnerIPReserved) eqn:E; cbn [negb].
  - unfold reserve_slot in Hnext. rewrite set_InnerIp_same, set_slot_id in Hnext by first [done | lia]. done.
  - apply wp_bind. eapply wp_TryReserve; [lia|done|lia|by intros _|done].
Qed.

(** ** Device collection and deletion *)
Definition no_device (x : SlotItem) : SlotItem := write_slot (WIfindex 0) x.
Fixpoint device_list (i : Z) (xs : list SlotItem) : list portIfaceToDel :=
  match xs with
  | [] => []
  | x :: xs => (if negb (si_Ifindex x =? 0) then [MkPortIface i (si_Ifindex x)] else []) ++ device_list (i + 1) xs
  end.
Definition clear_devices (l : list portIfaceToDel) (s : list SlotItem) : list SlotItem :=
  fold_left (λ s it, alter no_device (Z.to_nat (pi_slotID it)) s) l s.

Lemma no_device_same x : si_Ifindex x = 0 → no_device x = x.
Proof. by destruct x as []; simpl; intros ->. Qed.

Lemma clear_device_list xs : ∀ pre post,
  clear_devices (device_list (Z.of_nat (length pre)) xs) (pre ++ xs ++ post) = pre ++ map no_device xs ++ post.
Proof.
  induction xs as [|x xs IH]; intros pre post; [done|]. cbn [device_list].
  specialize (IH (pre ++ [no_device x]) post). rewrite length_app, <-!app_assoc in IH. simpl in IH.
  replace (Z.of_nat (length pre + 1)) with (Z.of_nat (length pre) + 1) in IH by lia.
  unfold clear_devices in *. rewrite fold_left_app. simpl. rewrite <-IH. f_equal.
  destruct (si_Ifindex x =? 0) eqn:E; simpl.
  - rewrite no_device_same by lia. done.
  - rewrite Nat2Z.id, alter_app_r_alt by lia. by rewrite Nat.sub_diag.
Qed.

Lemma device_list_ok numSlots xs : ∀ i, 0 ≤ i → i + Z.of_nat (length xs) ≤ numSlots →
  Forall (λ it, 0 ≤ pi_slotID it < numSlots) (device_list i xs).
Proof.
  induction xs as [|x xs IH]; intros i Hi Hn; simpl in *; [done|]. apply Forall_app. split; [|apply IH; lia].
  destruct (negb _); repeat constructor; simpl; lia.
Qed.

Lemma wp_collect_loop numSlots xs post : ∀ pre set (Q : res (list portIfaceToDel * gset Z) → list SlotItem → Prop),
  Z.of_nat (length pre + length xs) ≤ numSlots →
  (∀ set', Q (Ok (device_list (Z.of_nat (length pre)) xs, set')) (pre ++ xs ++ post)) →
  wp alone (collect_loop (length xs) numSlots (Z.of_nat (length pre)) set) Q (pre ++ xs ++ post).
Proof.
  induction xs as [|x xs IH]; intros pre set Q Hl HQ; [apply HQ|]. simpl in Hl. cbn [length collect_loop].
  unfold read_slot. rewrite GetSlot_lt by lia. cbn [deref]. apply wp_bind.
  eapply wp_load_slot_alone; [apply slot_at_middle|]. apply wp_mbind.
  replace (Z.of_nat (length pre) + 1) with (Z.of_nat (length (pre ++ [x]))) by (rewrite length_app; simpl; lia).
  replace (pre ++ (x :: xs) ++ post) with ((pre ++ [x]) ++ xs ++ post) in * by (by rewrite <-app_assoc).
  apply IH; [rewrite length_app; simpl; lia|]. intros set'. specialize (HQ set').
  cbn [device_list] in HQ. rewrite length_app. simpl.
  replace (Z.of_nat (length pre + 1)) with (Z.of_nat (length pre) + 1) by lia. exact HQ.
Qed.

Lemma wp_collect numSlots n set s (Q : res (list portIfaceToDel * gset Z) → list SlotItem → Prop) :
  0 ≤ n ≤ numSlots → n ≤ Z.of_nat (length s) →
  (∀ set', Q (Ok (device_list 0 (take (Z.to_nat n) s), set')) s) →
  wp alone (collectPortInterfaces numSlots n set) Q s.
Proof.
  intros Hn Hlen HQ. unfold collectPortInterfaces.
  assert (length (take (Z.to_nat n) s) = Z.to_nat n) as Hl by (rewrite length_take; lia).
  pose proof (wp_collect_loop numSlots (take (Z.to_nat n) s) (drop (Z.to_nat n) s) [] set Q) as H.
  simpl in H. rewrite Hl, take_drop in H. apply H; [lia|done].
Qed.

(** The deletion stops at the first error, with a prefix of the slots cleared. *)
Lemma tolerate_kern_ret P w m : kern_ret m → kern_ret (tolerate P w m).
Proof. intros. unfold tolerate. kern_ret. Qed.
#[export] Hint Extern 1 (kern_ret (tolerate _ _ _)) => apply tolerate_kern_ret; kern_ret : kern_ret.
Lemma delLinkByIndex_kern_ret d i : kern_ret (delLinkByIndex d i).
Proof. unfold delLinkByIndex. kern_ret. Qed.
#[export] Hint Resolve delLinkByIndex_kern_ret : kern_ret.

Lemma clear_devices_slot l s k x :
  slot_at s k = Some x → ∃ y, slot_at (clear_devices l s) k = Some y ∧ (y = x ∨ y = no_device x).
Proof.
  revert s x. induction l as [|it l IH]; intros s x Hx; [by eauto|]. unfold clear_devices in *. simpl.
  unfold slot_at in *. destruct (k <? 0); [done|].
  destruct (decide (Z.to_nat (pi_slotID it) = Z.to_nat k)) as [Heq|Hne].
  - destruct (IH (alter no_device (Z.to_nat (pi_slotID it)) s) (no_device x)) as (y & Hy & Hyx).
    { rewrite Heq, list_lookup_alter_eq, Hx. done. }
    exists y. split; [done|]. right. destruct Hyx as [->| ->]; [done|]. by destruct x.
  - apply IH. by rewrite list_lookup_alter_ne.
Qed.

Lemma alter_as_insert (f : SlotItem → SlotItem) (i : nat) (s : list SlotItem) x : s !! i = Some x → alter f i s = <[i := f x]> s.
Proof.
  intros Hx. apply list_eq. intros j. destruct (decide (i = j)) as [<-|Hne].
  - rewrite list_lookup_alter_eq, Hx, list_lookup_insert_eq by (by apply lookup_lt_Some in Hx). done.
  - by rewrite list_lookup_alter_ne, list_lookup_insert_ne.
Qed.

Lemma wp_delete s0 l d : ∀ (s : list SlotItem) (Q : res unit → list SlotItem → Prop),
  Forall (λ it, 0 ≤ pi_slotID it < sx_numSlots s0) l → sx_numSlots s0 ≤ Z.of_nat (length s) →
  Q (Ok tt) (clear_devices l s) →
  (∀ e l1 l2, l = l1 ++ l2 → Q (Err e) (clear_devices l1 s)) →
  wp alone (deletePortInterfaces s0 l d) Q s.
Proof.
  induction l as [|it l IH]; intros s Q Hl Hlen Hok Herr; [exact Hok|]. cbn [deletePortInterfaces]. cbv zeta.
  inversion Hl as [|? ? Hit Hl']; subst.
  apply wp_mbind, wp_alone_kern_ret; [apply tolerate_kern_ret; kern_ret| |intros e; by apply (Herr e [] (it :: l))].
  intros _. apply wp_mbind.
  apply wp_alone_kern_ret; [kern_ret| |intros e; by apply (Herr e [] (it :: l))]. intros _.
  destruct (slot_at_in s (pi_slotID it)) as [x Hx]; [unfold in_slots; lia|].
  apply wp_bind. eapply wp_UpdateSlotFields; [lia|done|].
  replace (set_slot s (pi_slotID it) (write_all [WIfindex 0] x)) with (alter no_device (Z.to_nat (pi_slotID it)) s).
  2:{ unfold slot_at in Hx. destruct (_ <? 0); [done|]. unfold set_slot. by apply alter_as_insert. }
  apply IH; [done|by rewrite length_alter|done|]. intros e l1 l2 ->. by apply (Herr e (it :: l1) l2).
Qed.

(** Collection and deletion in one go. *)
Lemma wp_collect_and_delete s0 n set d s (Q : res (gset Z) → list SlotItem → Prop) :
  0 ≤ n ≤ sx_numSlots s0 → sx_numSlots s0 ≤ Z.of_nat (length s) →
  (∀ set', Q (Ok set') (over n no_device s)) →
  (∀ e l, Q (Err e) (clear_devices l s)) →
  wp alone (collect_and_delete s0 n set d) Q s.
Proof.
  intros Hn Hlen Hok Herr. unfold collect_and_delete. apply wp_mbind, wp_collect; [lia|lia|].
  intros set'. apply wp_mbind, wp_delete; [|lia| |by intros].
  - apply device_list_ok; [lia|]. rewrite length_take. lia.
  - pose proof (clear_device_list (take (Z.to_nat n) s) [] (drop (Z.to_nat n) s)) as Hc.
    simpl in Hc. change (Z.of_nat 0) with 0 in Hc. rewrite take_drop in Hc. cbn [fst]. rewrite Hc. apply Hok.
Qed.

Lemma wp_count_devices numSlots n s (Q : res Z → list SlotItem → Prop) :
  0 ≤ n ≤ numSlots → n ≤ Z.of_nat (length s) →
  Q (Ok (Z.of_nat (length (device_list 0 (take (Z.to_nat n) s))))) s →
  wp alone (countPortsWithDevices numSlots n) Q s.
Proof.
  intros Hn Hlen HQ. unfold countPortsWithDevices.
  assert (∀ xs pre post c, Z.of_nat (length pre + length xs) ≤ numSlots → ∀ Q : res Z → list SlotItem → Prop,
    Q (Ok (c + Z.of_nat (length (device_list (Z.of_nat (length pre)) xs)))) (pre ++ xs ++ post) →
    wp alone (count_devices_loop (length xs) numSlots (Z.of_nat (length pre)) c) Q (pre ++ xs ++ post)) as H.
  { clear. induction xs as [|x xs IH]; intros pre post c Hl Q HQ; [by rewrite Z.add_0_r in HQ|].
    simpl in Hl. cbn [length count_devices_loop]. unfold read_slot. rewrite GetSlot_lt by lia. cbn [deref].
    apply wp_bind. eapply wp_load_slot_alone; [apply slot_at_middle|].
    replace (Z.of_nat (length pre) + 1) with (Z.of_nat (length (pre ++ [x]))) by (rewrite length_app; simpl; lia).
    replace (pre ++ (x :: xs) ++ post) with ((pre ++ [x]) ++ xs ++ post) in * by (by rewrite <-app_assoc).
    apply IH; [rewrite length_app; simpl; lia|]. cbn [device_list] in HQ. rewrite length_app in HQ |- *. simpl in HQ |- *.
    replace (Z.of_nat (length pre + 1)) with (Z.of_nat (length pre) + 1) by lia.
    destruct (si_Ifindex x =? 0); simpl in *; [done|].
    rewrite Nat2Z.inj_succ in HQ. by replace (c + 1 + _) with (c + Z.succ (Z.of_nat (length (device_list (Z.of_nat (length pre) + 1) xs)))) by lia. }
  specialize (H (take (Z.to_nat n) s) [] (drop (Z.to_nat n) s) 0). simpl in H. change (Z.of_nat 0) with 0 in H.
  rewrite take_drop, length_take, Nat.min_l in H by lia. apply H; [lia|done].
Qed.

(** ** Tables part of the way through a release *)
Record released_part (x y : SlotItem) : Prop := {
  rp_rest : no_device (reserve_slot y) = no_device (reserve_slot x);
  rp_ip : si_InnerIp y = si_InnerIp x ∨ si_InnerIp y = InnerIPReserved;
  rp_dev : si_Ifindex y = si_Ifindex x ∨ si_Ifindex y = 0;
}.
Definition table_part (s s' : list SlotItem) : Prop :=
  ∀ k x, slot_at s k = Some x → ∃ y, slot_at s' k = Some y ∧ released_part x y.

Lemma released_part_refl x : released_part x x.
Proof. constructor; auto. Qed.
Lemma released_part_steps x y :
  released_part x y → released_part x (no_device y) ∧ released_part x (reserve_slot y) ∧
    released_part x (reserve_free_slot y).
Proof.
  intros [Hr Hip Hd]. unfold reserve_free_slot. split_and!; [| |case_match]; destruct x, y; constructor; simpl in *; auto.
Qed.
Lemma table_part_refl s : table_part s s.
Proof. intros k x Hx. eauto using released_part_refl. Qed.

Lemma over_slot n f s k x :
  slot_at s k = Some x → ∃ y, slot_at (over n f s) k = Some y ∧ (y = x ∨ y = f x).
Proof.
  unfold slot_at, over. destruct (k <? 0); [done|]. intros Hx.
  destruct (decide (Z.to_nat k < Z.to_nat n)%nat) as [Hlt|Hge].
  - exists (f x). split; [|by right]. assert (take (Z.to_nat n) s !! Z.to_nat k = Some x) as Ht
      by (by rewrite lookup_take_lt).
    apply lookup_app_l_Some. change (map f) with (fmap (M := list) f). by rewrite list_lookup_fmap, Ht.
  - exists x. split; [|by left]. assert (length (take (Z.to_nat n) s) ≤ Z.to_nat k)%nat by (rewrite length_take; lia).
    rewrite lookup_app_r by (by rewrite length_map). rewrite length_map.
    rewrite <-(take_drop (Z.to_nat n) s) in Hx. by rewrite lookup_app_r in Hx.
Qed.

Lemma table_part_over n f s s' :
  (∀ x y, released_part x y → released_part x (f y)) → table_part s s' → table_part s (over n f s').
Proof.
  intros Hf Ht k x Hx. destruct (Ht k x Hx) as (y & Hy & Hp).
  destruct (over_slot n f s' k y Hy) as (z & Hz & [->| ->]); eauto.
Qed.
Lemma table_part_clear l s s' : table_part s s' → table_part s (clear_devices l s').
Proof.
  intros Ht k x Hx. destruct (Ht k x Hx) as (y & Hy & Hp).
  destruct (clear_devices_slot l s' k y Hy) as (z & Hz & [->| ->]); [eauto|].
  exists (no_device y). split; [done|]. by apply released_part_steps.
Qed.

(** ** ReleasePorts *)
Definition device_count (n : Z) (s : list SlotItem) : Z :=
  Z.of_nat (length (device_list 0 (take (Z.to_nat n) s))).
Definition released_table (n : Z) (s : list SlotItem) : list SlotItem := over n (λ x, no_device (reserve_slot x)) s.

Definition release_post (opts : ReleaseOptions) (n : Z) (s : list SlotItem) (r : res ReleaseOutput) (s' : list SlotItem) : Prop :=
  (rl_Force opts = false → 0 < ip_count IsSlotAllocated n s → ¬ is_ok r ∧ s' = s) ∧
  table_part s s' ∧
  match r with
  | Ok out => s' = released_table n s ∧ rl_Total out = n ∧ rl_Remaining out = 0 ∧ rl_Released out = device_count n s
  | Err _ => True
  | _ => False
  end.

Lemma device_list_none xs : ∀ i, device_list i (map no_device xs) = [].
Proof. induction xs as [|x xs IH]; intros i; [done|]. simpl. rewrite IH. by destruct x. Qed.
Lemma device_count_released n s : n ≤ Z.of_nat (length s) → device_count n (released_table n s) = 0.
Proof.
  intros Hn. unfold device_count, released_table, over.
  rewrite take_app_le, take_ge by (rewrite length_map, length_take; lia).
  rewrite <-(map_map reserve_slot no_device). by rewrite device_list_none.
Qed.
Lemma none_allocated n s :
  ip_count IsSlotAllocated n s ≤ 0 → over n reserve_free_slot s = over n reserve_slot s.
Proof.
  unfold ip_count. intros Hc. apply over_ext. apply Forall_forall. intros x Hx.
  assert (IsSlotAllocated (si_InnerIp x) ≠ true) as Hna.
  { intros Ha. assert (x ∈ filter (λ x, IsSlotAllocated (si_InnerIp x) = true) (take (Z.to_nat n) s)) as Hin
      by (by apply list_elem_of_filter).
    destruct (filter _ _); [by apply not_elem_of_nil in Hin|]. simpl in Hc. lia. }
  unfold reserve_free_slot, reserve_slot, IsSlotAllocated, IsSlotFreeOrReserved in *.
  destruct (si_InnerIp x =? InnerIPFree) eqn:E1; [done|].
  destruct (si_InnerIp x =? InnerIPReserved) eqn:E2; [|done].
  symmetry. apply set_InnerIp_same. lia.
Qed.

Section release.
Context (sw : switchContext) (s : list SlotItem) (Hctx : ctx_ok sw s) (fuel : nat) (Hfuel : (0 < fuel)%nat).
Context (d : delLink).
Notation n := (sc_N_ports (sx_cfg sw)).

Lemma wp_release_force (Q : res unit → list SlotItem → Prop) :
  sx_numSlots sw ≤ Z.of_nat (length s) →
  Q (Ok tt) (released_table n s) → (∀ e s', table_part s s' → Q (Err e) s') →
  wp alone (release_force fuel sw n d) Q s.
Proof.
  intros Hlen Hok Herr. pose proof (ctx_num _ _ Hctx). pose proof (ctx_pos _ _ Hctx).
  assert (Hsteps := released_part_steps). unfold release_force, ignore_err. cbv zeta.
  apply wp_mbind, wp_bind, wp_reserveFreeSlots; [done|lia|lia|]. cbn [mok wp].
  set (s1 := over n reserve_free_slot s). assert (table_part s s1) as Ht1
    by (apply table_part_over; [naive_solver|apply table_part_refl]).
  assert (Z.of_nat (length s1) = Z.of_nat (length s)) as Hl1 by (unfold s1; by rewrite over_length).
  apply wp_mbind, wp_collect_and_delete; [lia|lia| |intros; by apply Herr, table_part_clear].
  intros set'. set (s2 := over n no_device s1).
  assert (table_part s s2) as Ht2 by (apply table_part_over; [naive_solver|done]).
  assert (Z.of_nat (length s2) = Z.of_nat (length s)) as Hl2 by (unfold s2; by rewrite over_length).
  apply wp_mbind, wp_reserveAllSlots; [done|lia|lia|]. set (s3 := over n reserve_slot s2).
  assert (table_part s s3) as Ht3 by (apply table_part_over; [naive_solver|done]).
  assert (Z.of_nat (length s3) = Z.of_nat (length s)) as Hl3 by (unfold s3; by rewrite over_length).
  apply wp_mbind, wp_collect_and_delete; [lia|lia| |intros; by apply Herr, table_part_clear].
  intros set''. cbn [mok wp]. unfold s3, s2, s1. rewrite !over_over by (rewrite ?over_length; lia).
  erewrite over_ext; [exact Hok|]. apply Forall_forall. intros x _. unfold reserve_free_slot.
  case_match; by destruct x.
Qed.

Lemma wp_release_safe name (Q : res unit → list SlotItem → Prop) :
  sx_numSlots sw ≤ Z.of_nat (length s) →
  (0 < ip_count IsSlotAllocated n s → ∀ e, Q (Err e) s) →
  (ip_count IsSlotAllocated n s ≤ 0 → Q (Ok tt) (released_table n s)) →
  (ip_count IsSlotAllocated n s ≤ 0 → ∀ e s', table_part s s' → Q (Err e) s') →
  wp alone (release_safe fuel name sw n d) Q s.
Proof.
  intros Hlen Huse Hok Herr. pose proof (ctx_num _ _ Hctx). pose proof (ctx_pos _ _ Hctx).
  assert (Hsteps := released_part_steps). unfold release_safe, countAllocatedSlots. cbv zeta.
  rewrite (ctx_num _ _ Hctx). apply wp_bind, wp_count_slots; [lia..|done|]. rewrite <-(ctx_num _ _ Hctx) at 2.
  destruct (0 <? ip_count IsSlotAllocated n s) eqn:E; [apply Huse; lia|].
  assert (ip_count IsSlotAllocated n s ≤ 0) as Hnone by lia.
  apply wp_mbind, wp_reserveFreeSlots; [done|lia|lia|]. rewrite none_allocated by done.
  set (s1 := over n reserve_slot s). assert (table_part s s1) as Ht1
    by (apply table_part_over; [naive_solver|apply table_part_refl]).
  assert (Z.of_nat (length s1) = Z.of_nat (length s)) as Hl1 by (unfold s1; by rewrite over_length).
  apply wp_mbind, wp_collect_and_delete; [lia|lia| |intros; by apply Herr, table_part_clear].
  intros set'. cbn [mok wp]. unfold s1. rewrite over_over by lia. by apply Hok.
Qed.
End release.

Lemma stopGetSwitchNs_kern_ret s : kern_ret (stopGetSwitchNs s).
Proof. unfold stopGetSwitchNs. kern_ret. Qed.
Lemma close_ns_opt_kern_only ns : kern_only (close_ns_opt ns).
Proof. by destruct ns. Qed.
#[export] Hint Resolve stopGetSwitchNs_kern_ret : kern_ret.
#[export] Hint Resolve close_ns_opt_kern_only : kern_only.

Lemma wp_release_body fuel name opts sw s :
  ctx_ok sw s → (0 < fuel)%nat →
  wp alone (release_body fuel name opts sw) (release_post opts (sc_N_ports (sx_cfg sw)) s) s.
Proof.
  intros Hctx Hfuel. pose proof (ctx_num _ _ Hctx) as Hnum. pose proof (ctx_pos _ _ Hctx) as Hpos.
  pose proof (ctx_fit _ _ Hctx) as Hfit. set (n := sc_N_ports (sx_cfg sw)) in *.
  assert (Herr : ∀ e, release_post opts n s (Err e) s).
  { intros e. split_and!; [intros _ _; by split; [intros []|]|apply table_part_refl|done]. }
  unfold release_body. fold n. cbv zeta. apply wp_mbind, wp_alone_kern_ret; [kern_ret| |done].
  intros [ns d]. apply wp_alone_defer; [kern_only|]. cbn [snd].
  apply wp_mbind, wp_count_devices; [lia|lia|]. fold (device_count n s).
  assert (Hdone : (rl_Force opts = false → ip_count IsSlotAllocated n s ≤ 0) → table_part s (released_table n s) →
    wp alone (let* remaining := countPortsWithDevices (sx_numSlots sw) n in
              mok (MkReleaseOutput (device_count n s - remaining) n remaining)) (release_post opts n s) (released_table n s)).
  { intros Hsafe Hpart. apply wp_mbind, wp_count_devices; [lia|unfold released_table; rewrite over_length; lia|].
    fold (device_count n (released_table n s)). rewrite device_count_released by lia. cbn [mok wp].
    split_and!; simpl; try done; [|lia]. intros Hf Hpos'. specialize (Hsafe Hf). lia. }
  assert (Hpart : table_part s (released_table n s)).
  { apply table_part_over; [|apply table_part_refl]. intros x y Hp. by apply released_part_steps, released_part_steps. }
  apply wp_mbind. destruct (rl_Force opts) eqn:Hforce.
  - apply (wp_release_force sw s Hctx fuel Hfuel); [lia|by apply Hdone|]. intros e s' Ht.
    split_and!; [congruence|done|done].
  - apply (wp_release_safe sw s Hctx fuel Hfuel); [lia|done| |].
    + intros Hnone. by apply Hdone.
    + intros Hnone e s' Ht. fold n in Hnone. split_and!; [intros _ Hused; lia|done|done].
Qed.

(** C15: [ReleasePorts] on an open switch, for every answer of the kernel.  In
    safe mode a switch with an attached port is refused and the table is left
    exactly as it was.  When the call succeeds every port of the switch is
    Reserved with no device, its other fields untouched; the report says how
    many devices there were and that none remains.  When it fails, each slot
    has at most been reserved or lost its device.  One pass of each retry loop
    is enough, so the call returns. *)
Theorem release_spec fuel name opts sw s :
  ctx_ok sw s → (0 < fuel)%nat →
  wp alone (release_body fuel name opts sw) (release_post opts (sc_N_ports (sx_cfg sw)) s) s.
Proof. apply wp_release_body. Qed.

Definition ex_idle : list SlotItem := map slot_with_ip [InnerIPReserved; InnerIPFree; InnerIPFree; InnerIPReserved].
Lemma release_spec_witness :
  ctx_ok ex_switch ex_table ∧
  wp alone (release_body 1 "sw0" (MkReleaseOptions false) ex_switch)
    (release_post (MkReleaseOptions false) 4 ex_table) ex_table.
Proof. split; [apply ex_switch_ok|]. apply (release_spec 1 "sw0" _ ex_switch ex_table); [apply ex_switch_ok|lia]. Defined.

(** ** StopReleased *)
Definition is_released (x : SlotItem) : bool := (si_InnerIp x =? InnerIPReserved) && (si_Ifindex x =? 0).
Definition clear_mgmt_slot (x : SlotItem) : SlotItem :=
  if (0 <? si_MgmtCidrCount x) || negb (mc_Ifindex (si_MgmtCidrs0 x) =? 0)
  then write_all [WMgmtCidrCount 0; WMgmtCidrs0 MgmtCidr_zero; WMgmtCidrsExt 0 MgmtCidr_zero;
                  WMgmtCidrsExt 1 MgmtCidr_zero] x
  else x.

Lemma wp_validate_loop numSlots xs : ∀ pre post (Q : res unit → list SlotItem → Prop),
  Z.of_nat (length pre + length xs) ≤ numSlots →
  (forallb is_released xs = true → Q (Ok tt) (pre ++ xs ++ post)) →
  (forallb is_released xs = false → ∀ e, IsPortsNotReleased (Some e) = true → Q (Err e) (pre ++ xs ++ post)) →
  wp alone (validate_released_loop (length xs) numSlots (Z.of_nat (length pre))) Q (pre ++ xs ++ post).
Proof.
  induction xs as [|x xs IH]; intros pre post Q Hl Hok Herr; [by apply Hok|].
  simpl in Hl. cbn [length validate_released_loop]. rewrite GetSlot_lt by lia. cbn [deref].
  apply wp_bind. eapply wp_GetInnerIP; [lia|apply slot_at_middle|].
  apply wp_bind. eapply wp_load_slot_alone; [apply slot_at_middle|].
  cbn [forallb] in Hok, Herr. unfold is_released in Hok, Herr at 1.
  destruct (si_InnerIp x =? InnerIPReserved), (si_Ifindex x =? 0); cbn [negb orb andb] in *; try by apply Herr.
  replace (Z.of_nat (length pre) + 1) with (Z.of_nat (length (pre ++ [x]))) by (rewrite length_app; simpl; lia).
  replace (pre ++ (x :: xs) ++ post) with ((pre ++ [x]) ++ xs ++ post) in * by (by rewrite <-app_assoc).
  apply IH; [rewrite length_app; simpl; lia|done|done].
Qed.

Lemma wp_validateAllReleased numSlots n s (Q : res unit → list SlotItem → Prop) :
  0 ≤ n ≤ numSlots → n ≤ Z.of_nat (length s) →
  (forallb is_released (take (Z.to_nat n) s) = true → Q (Ok tt) s) →
  (forallb is_released (take (Z.to_nat n) s) = false → ∀ e, IsPortsNotReleased (Some e) = true → Q (Err e) s) →
  wp alone (validateAllReleased numSlots n) Q s.
Proof.
  intros Hn Hlen Hok Herr. unfold validateAllReleased.
  pose proof (wp_validate_loop numSlots (take (Z.to_nat n) s) [] (drop (Z.to_nat n) s) Q) as H.
  simpl in H. change (Z.of_nat 0) with 0 in H.
  rewrite take_drop, length_take, Nat.min_l in H by lia. apply H; [lia|done|done].
Qed.

Lemma wp_clear_mgmt numSlots n s (Q : res unit → list SlotItem → Prop) :
  0 ≤ n ≤ numSlots → n ≤ Z.of_nat (length s) → Q (Ok tt) (over n clear_mgmt_slot s) →
  wp alone (clear_mgmt_loop (Z.to_nat n) numSlots 0) Q s.
Proof.
  intros Hn Hlen HQ. apply (wp_pass (λ m i, clear_mgmt_loop m numSlots i) clear_mgmt_slot (Ok tt) numSlots); auto.
  intros m i x s' P Hi Hx Hnext. cbn [clear_mgmt_loop]. unfold read_slot. rewrite GetSlot_lt by lia. cbn [deref].
  apply wp_bind. eapply wp_load_slot_alone; [done|]. apply wp_bind. unfold clear_mgmt_slot in Hnext.
  destruct (_ || _).
  - eapply wp_UpdateSlotFields; [lia|done|done].
  - cbn [wp]. by rewrite set_slot_id in Hnext.
Qed.

Section stop_released.
Context (map_range : gset Z → list Z).

Lemma delete_mgmt_kern_ret l d : kern_ret (delete_mgmt l d).
Proof. induction l as [|i l IH]; cbn [delete_mgmt]; kern_ret. Qed.
#[local] Hint Resolve delete_mgmt_kern_ret : kern_ret.
Lemma with_transit_back_kern_ret {A} s ns (k : M A) : kern_ret k → kern_ret (with_transit_back s ns k).
Proof. intros. unfold with_transit_back. kern_ret. Qed.

(** The promise of [StopReleased] on an open switch. *)
Definition stop_released_post (n : Z) (s : list SlotItem) (r : res unit) (s' : list SlotItem) : Prop :=
  if forallb is_released (take (Z.to_nat n) s)
  then (s' = s ∨ s' = over n clear_mgmt_slot s) ∧
       match r with Ok _ => s' = over n clear_mgmt_slot s | Err _ => True | _ => False end
  else s' = s ∧ match r with Err e => IsPortsNotReleased (Some e) = true | _ => False end.

(** C18: [StopReleased] on an open switch, for every answer of the kernel and
    every iteration order of its interface set.  If a port is not Reserved or
    still has a device, the call fails with [ErrPortsNotReleased] and leaves
    the table as it was.  Otherwise it either succeeds, with the management
    prefixes of every slot cleared and nothing else changed, or fails having
    done that to all slots or to none; ports never leave Reserved. *)
Theorem stop_released_spec name sw s :
  ctx_ok sw s →
  wp alone (stop_released_body map_range name sw) (stop_released_post (sc_N_ports (sx_cfg sw)) s) s.
Proof.
  intros Hctx. pose proof (ctx_num _ _ Hctx) as Hnum. pose proof (ctx_pos _ _ Hctx) as Hpos.
  pose proof (ctx_fit _ _ Hctx) as Hfit. set (n := sc_N_ports (sx_cfg sw)) in *.
  unfold stop_released_body, stop_released_post. fold n. cbv zeta.
  apply wp_mbind, wp_validateAllReleased; [lia|lia| |by intros ->]. intros ->.
  apply wp_mbind, wp_collect; [lia|lia|]. intros set'. apply wp_mbind, wp_alone_kern_ret; [kern_ret| |by auto].
  intros [ns d]. apply wp_alone_defer; [kern_only|]. cbn [fst snd]. unfold stopCommonCleanup. fold n. cbv zeta.
  apply wp_mbind, wp_alone_kern_ret; [kern_ret| |by auto]. intros _.
  apply wp_mbind, wp_clear_mgmt; [lia|lia|].
  apply wp_alone_kern_ret; [|by auto|by auto]. apply with_transit_back_kern_ret. destruct ns; kern_ret.
Qed.
End stop_released.

Lemma stop_released_spec_witness :
  wp alone (stop_released_body elements "sw0" ex_switch)
    (stop_released_post 4 (over 4 reserve_slot ex_table)) (over 4 reserve_slot ex_table).
Proof. apply (stop_released_spec elements "sw0" ex_switch (over 4 reserve_slot ex_table)). decide_true. Defined.
