(* ===== verification/PortSpec.v ===== *)
(** * Reserve, Detach and SetPortUp

    Functional contracts of the remaining attachment operations when nobody
    else touches the table, for every answer of the kernel and of the device
    packages. *)
From S2P Require Import Prelude Errors GoStrings GoNet BpfTypes Mac Geneve Prog SlotTable Netns.
From S2P Require Import Netlink Config MgmtService Metadata Loader Context Flock Attach AttachSpec Provision ProvisionSpec.

(** ** Detach *)
Definition detached (x : SlotItem) : SlotItem :=
  set_InnerIp InnerIPFree (write_all [WFlags 0; WGeneveOptsLen 0] x).

Definition detach_post (s : switchContext) (opts : DetachOptions) (slots : list SlotItem) (r : res unit)
    (slots' : list SlotItem) : Prop :=
  let i := u32 (do_Port opts - 1) in
  match r with
  | Ok _ => ∃ x, 1 ≤ do_Port opts ∧ i < sc_N_ports (sx_cfg s) ∧ slot_at slots i = Some x ∧
      IsSlotAllocated (si_InnerIp x) = true ∧ slots' = set_slot slots i (detached x)
  | Err e => slots' = slots ∧
      (1 ≤ do_Port opts → requireAttachmentABI s = Ok tt →
       (sc_N_ports (sx_cfg s) ≤ i → IsPortOutOfRange (Some e) = true) ∧
       (∀ x, i < sc_N_ports (sx_cfg s) → slot_at slots i = Some x → IsSlotFreeOrReserved (si_InnerIp x) = true →
          IsPortNotAttached (Some e) = true))
  | _ => False
  end.

Lemma wp_detach_release s opts i x slots (Q : res unit → list SlotItem → Prop) :
  0 ≤ i < sx_numSlots s → slot_at slots i = Some x → IsSlotFreeOrReserved (si_InnerIp x) = false →
  Q (Ok tt) (set_slot slots i (detached x)) →
  wp alone (detach_release s opts i (si_InnerIp x)) Q slots.
Proof.
  intros Hi Hx Ha HQ. unfold detach_release. cbv zeta. apply wp_bind. eapply wp_GetInnerIP; [lia|done|].
  rewrite Z.eqb_refl. cbn [negb]. unfold store_slot. rewrite GetSlot_lt by lia. cbn [deref].
  apply wp_bind. eapply wp_store_alone; [done|]. apply wp_bind.
  eapply wp_UpdateSlotFields; [lia|by eapply slot_at_set|]. rewrite set_slot_set.
  apply wp_bind. eapply wp_TryRelease; [lia|by eapply slot_at_set| |].
  - intros _. rewrite set_slot_set. exact HQ.
  - rewrite InnerIp_write_all, InnerIp_write. done.
Qed.

Lemma wp_detach_device {A} s opts i kind (k : M A) slots (Q : res A → list SlotItem → Prop) :
  wp alone k Q slots → (∀ e, Q (Err e) slots) → wp alone (detach_device s opts i kind k) Q slots.
Proof.
  intros Hk Herr. unfold detach_device. destruct (_ && _); [|done]. cbv zeta.
  apply wp_mbind, wp_mwrap, wp_alone_kern_ret; [kern_ret| |intros e; apply Herr]. intros portNs. cbn [map_err].
  apply wp_alone_defer; [kern_only|]. apply wp_bind, wp_alone_kern_ret; [kern_ret|intros a; exact Hk|].
  intros e. case_bool_decide; [apply Herr|].
  apply wp_mbind, wp_mwrap, wp_alone_kern_ret; [kern_ret| |intros e'; apply Herr]. intros fromNs. cbn [map_err].
  apply wp_alone_defer; [kern_only|].
  apply wp_mbind, wp_mwrap, wp_alone_kern_ret; [kern_ret|intros a; exact Hk|intros e'; apply Herr].
Qed.

Lemma wp_Detach s opts slots :
  ctx_ok s slots → wp alone (Detach s opts) (detach_post s opts slots) slots.
Proof.
  intros Hctx. pose proof (ctx_num _ _ Hctx) as Hnum. pose proof (ctx_pos _ _ Hctx) as Hpos.
  pose proof (ctx_fit _ _ Hctx) as Hfit. unfold Detach, detach_post.
  destruct (do_Port opts <=? 0) eqn:Hp; [split; [done|lia]|]. cbv zeta.
  pose proof (u32_range (do_Port opts - 1)) as [Hi _]. set (i := u32 (do_Port opts - 1)) in *.
  destruct (sc_N_ports (sx_cfg s) <=? i) eqn:Hr.
  { split; [done|]. intros _ _. split; [done|]. lia. }
  destruct (slot_at_in slots i) as [x Hx]; [unfold in_slots; lia|].
  apply wp_mbind. cbn [mpure wp]. destruct (requireAttachmentABI s) as [[]|e| |] eqn:Habi.
  2:{ split; [done|]. intros _ [=]. }
  2,3: unfold requireAttachmentABI in Habi; repeat case_match; done.
  apply wp_bind. eapply wp_GetInnerIP; [lia|done|].
  destruct (IsSlotFreeOrReserved (si_InnerIp x)) eqn:Hfr.
  { split; [done|]. intros _ _. split; [lia|done]. }
  unfold read_slot. rewrite GetSlot_lt by lia. cbn [deref]. apply wp_bind. eapply wp_load_slot_alone; [done|].
  apply wp_detach_device.
  - apply wp_detach_release; [lia|done|done|]. exists x. split_and!; try done; [lia|lia|].
    unfold IsSlotAllocated. by rewrite Hfr.
  - intros e. split; [done|]. intros _ _. split; [lia|]. intros y _ Hy Hfr'. rewrite Hx in Hy. simplify_eq. congruence.
Qed.

(** C17: [Detach], for every answer of the kernel and of the device packages.
    It succeeds only on an attached port, and then exactly that slot is Free,
    down and without option hint, everything else in the table unchanged; on
    any error the table is as it was.  A port out of range, and a port that is
    Free or Reserved, are reported as such. *)
Theorem Detach_spec s opts slots :
  ctx_ok s slots → wp alone (Detach s opts) (detach_post s opts slots) slots.
Proof. apply wp_Detach. Qed.

Lemma Detach_spec_witness :
  wp alone (Detach ex_switch (MkDetachOptions 2 "" true)) (detach_post ex_switch (MkDetachOptions 2 "" true) ex_table) ex_table.
Proof. apply Detach_spec, ex_switch_ok. Defined.

(** ** Reserve *)
Definition force_reserved (s : switchContext) (x : SlotItem) : SlotItem :=
  let y := set_InnerIp InnerIPReserved x in
  if has_geneve_opts s && negb (Z.land (sc_Features (sx_cfg s)) SwitchFPortUp =? 0) && IsSlotAllocated (si_InnerIp x)
  then write_all [WFlags 0; WGeneveOptsLen 0] y else y.

Definition reserve_post (s : switchContext) (opts : ReserveOptions) (slots : list SlotItem) (r : res ReserveOutput)
    (slots' : list SlotItem) : Prop :=
  let i := u32 (ro_Port opts - 1) in
  match r with
  | Ok out => ∃ x y, 1 ≤ ro_Port opts ∧ i < sc_N_ports (sx_cfg s) ∧ re_Port out = i + 1 ∧
      slot_at slots i = Some x ∧ slots' = set_slot slots i y ∧ si_InnerIp y = InnerIPReserved ∧
      (re_Status out = "already_reserved" ∧ ro_Force opts = true ∧ y = x ∨
       re_Status out = "reserved" ∧
       (if ro_Force opts then si_InnerIp x ≠ InnerIPReserved ∧ y = force_reserved s x
        else si_InnerIp x = InnerIPFree ∧ y = write_slot (WStatsReady 0) (set_InnerIp InnerIPReserved x)))
  | Err _ => slots' = slots
  | _ => False
  end.

Lemma wp_reserve_body fuel s opts slots x :
  let i := u32 (ro_Port opts - 1) in
  ctx_ok s slots → (0 < fuel)%nat → 1 ≤ ro_Port opts → i < sc_N_ports (sx_cfg s) → slot_at slots i = Some x →
  wp alone (reserve_body fuel s opts (has_geneve_opts s) i) (reserve_post s opts slots) slots.
Proof.
  intros i Hctx Hfuel Hp Hr Hx. pose proof (ctx_num _ _ Hctx) as Hnum. pose proof (ctx_max _ _ Hctx) as Hmax.
  pose proof (u32_range (ro_Port opts - 1)) as [Hi _]. fold i in Hi. unfold MaxPorts in Hmax.
  assert (Hport : u32 (i + 1) = i + 1) by (apply u32_small; unfold is_u32; lia).
  unfold reserve_body. cbv zeta. apply wp_mbind. destruct (ro_Force opts) eqn:Hforce.
  - destruct fuel as [|fuel]; [lia|]. cbn [reserve_force_loop]. cbv zeta. apply wp_bind.
    eapply wp_GetInnerIP; [lia|done|]. destruct (si_InnerIp x =? InnerIPReserved) eqn:E.
    + apply Z.eqb_eq in E. cbn [mok wp]. exists x, x. rewrite set_slot_id by done. rewrite Hport.
      split_and!; auto.
    + apply Z.eqb_neq in E. apply wp_bind. eapply wp_TryReserve; [lia|done|done|intros _|done].
      assert (Hout : ∀ y, y = force_reserved s x →
        reserve_post s opts slots (Ok (MkReserveOutput (u32 (i + 1)) "reserved")) (set_slot slots i y)).
      { intros y ->. exists x, (force_reserved s x). rewrite Hport, Hforce. split_and!; auto.
        unfold force_reserved. case_match; [by rewrite InnerIp_write_all, InnerIp_set|by rewrite InnerIp_set]. }
      unfold force_reserved in Hout. apply wp_bind. destruct (has_geneve_opts s && _ && _).
      * eapply wp_UpdateSlotFields; [lia|by eapply slot_at_set|]. rewrite set_slot_set. by apply Hout.
      * by apply Hout.
  - apply wp_bind. eapply wp_TryAllocate; [lia|done| |].
    + intros Hfree. cbn [negb mok wp]. exists x. eexists. rewrite Hport, Hforce.
      split_and!; try done; [by rewrite InnerIp_write, InnerIp_set|by right].
    + intros _. cbn [negb]. apply wp_bind. eapply wp_GetInnerIP; [lia|done|]. by destruct (_ =? _).
Qed.

Lemma wp_Reserve fuel s opts slots :
  ctx_ok s slots → (0 < fuel)%nat → wp alone (Reserve fuel s opts) (reserve_post s opts slots) slots.
Proof.
  intros Hctx Hfuel. pose proof (ctx_pos _ _ Hctx) as Hpos. pose proof (ctx_fit _ _ Hctx) as Hfit. unfold Reserve.
  destruct (ro_Port opts <=? 0) eqn:Hp; [done|]. cbv zeta.
  destruct (sc_N_ports (sx_cfg s) <=? u32 (ro_Port opts - 1)) eqn:Hr; [done|].
  pose proof (u32_range (ro_Port opts - 1)) as [Hi _].
  destruct (slot_at_in slots (u32 (ro_Port opts - 1))) as [x Hx]; [unfold in_slots; lia|].
  assert (Hbody := wp_reserve_body fuel s opts slots x Hctx Hfuel ltac:(lia) ltac:(lia) Hx).
  destruct (has_geneve_opts s); [|exact Hbody]. unfold with_lock.
  apply wp_mbind, wp_alone_kern_ret; [apply acquireCurrentSwitchControlLock_kern_ret| |done]. intros lock.
  by apply wp_alone_defer; [apply ReleaseLock_kern_only|].
Qed.

(** [Reserve], for every answer of the kernel.  It succeeds on a port in
    range: without force only a Free port is taken, with force any port, an
    attached one being put down and its option hint cleared, an already
    reserved one left as it is.  Exactly that slot changes, and it is Reserved
    afterwards; the reported port is its number.  On any error the table is as
    it was, and the forced retry loop ends. *)
Theorem Reserve_spec fuel s opts slots :
  ctx_ok s slots → (0 < fuel)%nat → wp alone (Reserve fuel s opts) (reserve_post s opts slots) slots.
Proof. apply wp_Reserve. Qed.

Lemma Reserve_spec_witness :
  wp alone (Reserve 1 ex_switch (MkReserveOptions 2 true)) (reserve_post ex_switch (MkReserveOptions 2 true) ex_table) ex_table.
Proof. apply Reserve_spec; [apply ex_switch_ok|lia]. Defined.

(** ** SetPortUp *)
Record published (opts : PortUpOptions) (value : GeneveOptsValue) (ip : Z) (x y : SlotItem) : Prop := {
  pub_ip : si_InnerIp y = ip;
  pub_gateway : si_TransitGatewayIp y = IPToUint32 (po_TransitGatewayIP opts);
  pub_vni : si_TransitGeneveVni y = po_TransitGeneveVNI opts;
  pub_mac : si_TransitMac y = mac_or_zero (po_TransitMAC opts);
  pub_opts : si_GeneveOptsLen y = gv_Len value;
  pub_gen : si_Generation y = si_Generation x;
  pub_up : si_Flags y = PortFUp;
  pub_ready : si_StatsReady y = si_StatsReady x;
  pub_device : same_device x y;
}.
Definition up_slot (opts : PortUpOptions) (value : GeneveOptsValue) (ip : Z) (x : SlotItem) : SlotItem :=
  write_slot (WFlags PortFUp) (set_InnerIp ip (write_all (port_up_writes opts value) x)).

Lemma up_slot_published opts value ip x : published opts value ip x (up_slot opts value ip x).
Proof.
  unfold up_slot, port_up_writes.
  destruct x, (bool_decide (6 ≤ length (po_TransitMAC opts))%nat) eqn:Em;
    constructor; simpl; unfold mac_or_zero; rewrite ?Em; auto; by repeat split.
Qed.

Definition set_port_up_post (s : switchContext) (opts : PortUpOptions) (slots : list SlotItem) (r : res unit)
    (slots' : list SlotItem) : Prop :=
  let i := po_Port opts - 1 in
  match r with
  | Ok _ => ∃ x y value total ip, 0 ≤ i < sc_N_ports (sx_cfg s) ∧
      port_up_checks s opts = Ok (ip, (value, total)) ∧ state_of ip = SAllocated ip ∧
      slot_at slots i = Some x ∧ IsSlotAllocated (si_InnerIp x) = true ∧ Z.land (si_Flags x) PortFUp = 0 ∧
      slots' = set_slot slots i y ∧ published opts value ip x y
  | Err e => slots' = slots ∧
      (¬ 0 ≤ i < sc_N_ports (sx_cfg s) → IsPortOutOfRange (Some e) = true) ∧
      (∀ x, 0 ≤ i < sc_N_ports (sx_cfg s) → requireDeferredAttachmentABI s = Ok tt → slot_at slots i = Some x →
         IsSlotAllocated (si_InnerIp x) = false → IsPortNotAttached (Some e) = true)
  | _ => False
  end.

Lemma port_up_checks_returns s opts : returns (port_up_checks s opts).
Proof. unfold port_up_checks, validateTransitGeneveVNI. returns. Qed.
Lemma port_up_checks_ip s opts ip vl : port_up_checks s opts = Ok (ip, vl) → state_of ip = SAllocated ip.
Proof.
  unfold port_up_checks. intros H. invert_ok.
  match goal with H : validateAttachmentAddresses _ _ _ = Ok _ |- _ =>
    by destruct (validateAttachmentAddresses_ok _ _ _ _ H) end.
Qed.
Lemma requireDeferred_returns s : returns (requireDeferredAttachmentABI s).
Proof. unfold requireDeferredAttachmentABI, requireAttachmentABI. returns. Qed.

Lemma wp_port_up_commit s opts i x ip value slots (Q : res unit → list SlotItem → Prop) :
  0 ≤ i < sx_numSlots s → slot_at slots i = Some x → IsSlotAllocated (si_InnerIp x) = true →
  IsSlotAllocated ip = true → Q (Ok tt) (set_slot slots i (up_slot opts value ip x)) →
  wp alone (port_up_commit s opts i (si_InnerIp x) ip value) Q slots.
Proof.
  intros Hi Hx Ha Hip HQ. unfold port_up_commit. cbv zeta. apply wp_bind.
  eapply wp_UpdateSlotFields; [lia|done|]. apply wp_bind.
  eapply wp_TryUpdateInnerIP; [lia|by eapply slot_at_set| |].
  - intros _ _ _. rewrite set_slot_set. cbn [negb]. apply wp_bind.
    eapply wp_GetInnerIP; [lia|by eapply slot_at_set|]. rewrite InnerIp_set, Z.eqb_refl. cbn [negb].
    unfold store_slot. rewrite GetSlot_lt by lia. cbn [deref]. apply wp_bind.
    eapply wp_store_alone; [by eapply slot_at_set|]. rewrite set_slot_set. exact HQ.
  - intros Hn. destruct Hn. by rewrite InnerIp_write_all.
Qed.

Lemma wp_SetPortUp s opts slots :
  ctx_ok s slots → po_Port opts < 2 ^ 63 → wp alone (SetPortUp s opts) (set_port_up_post s opts slots) slots.
Proof.
  intros Hctx Hint. pose proof (ctx_num _ _ Hctx) as Hnum. pose proof (ctx_pos _ _ Hctx) as Hpos.
  pose proof (ctx_fit _ _ Hctx) as Hfit. pose proof (ctx_max _ _ Hctx) as Hmax. unfold MaxPorts in Hmax.
  unfold SetPortUp. cbv zeta. destruct ((po_Port opts <=? 0) || _) eqn:Hrange.
  { split_and!; [done|done|]. intros x Hi. exfalso. apply orb_true_iff in Hrange as [Hrange|Hrange]; [lia|].
    rewrite u64_small in Hrange by (unfold is_u64; lia). lia. }
  apply orb_false_iff in Hrange as [Hpos' Hr]. rewrite u64_small in Hr by (unfold is_u64; lia).
  assert (0 ≤ po_Port opts - 1 < sc_N_ports (sx_cfg s)) as Hi by lia.
  rewrite (u32_small (po_Port opts - 1)) by (unfold is_u32; lia).
  set (i := po_Port opts - 1) in *.
  destruct (slot_at_in slots i) as [x Hx]; [unfold in_slots; lia|].
  assert (Herr : ∀ e, IsSlotAllocated (si_InnerIp x) = true ∨ requireDeferredAttachmentABI s ≠ Ok tt →
    set_port_up_post s opts slots (Err e) slots).
  { intros e Hwhy. split_and!; [done|by intros []|]. fold i. intros y _ Habi Hy Hna. rewrite Hx in Hy. simplify_eq.
    destruct Hwhy; congruence. }
  apply wp_mbind. cbn [mpure wp]. pose proof (requireDeferred_returns s) as Hret.
  destruct (requireDeferredAttachmentABI s) as [[]|e| |] eqn:Habi; try done; [|apply Herr; by right].
  apply wp_bind. eapply wp_GetInnerIP; [lia|done|].
  destruct (IsSlotAllocated (si_InnerIp x)) eqn:Ha; cbn [negb].
  2:{ split_and!; [done|by intros []|done]. }
  assert (Herr' : ∀ e, set_port_up_post s opts slots (Err e) slots) by (intros e; apply Herr; by left).
  assert (Hread : ∀ A (k : SlotItem → M A) (Q : res A → list SlotItem → Prop),
    wp alone (k x) Q slots → wp alone (read_slot (sx_numSlots s) i k) Q slots).
  { intros A k Q Hk. unfold read_slot. rewrite GetSlot_lt by lia. cbn [deref]. apply wp_bind.
    by eapply wp_load_slot_alone. }
  apply Hread. destruct (Z.land (si_Flags x) PortFUp =? 0) eqn:Hdown; cbn [negb]; [|apply Herr'].
  apply wp_mbind. cbn [mpure wp]. pose proof (port_up_checks_returns s opts) as Hret'.
  destruct (port_up_checks s opts) as [[ip [value total]]|e| |] eqn:Hc; try done.
  pose proof (port_up_checks_ip _ _ _ _ Hc) as Hst.
  assert (Hcommit : wp alone
    (let~ seen := GetInnerIP (sx_numSlots s) i in
     if negb (seen =? si_InnerIp x) then merr (taken_over (po_Port opts))
     else let* _ := writeGeneveOpts i value in
          let~ seen := GetInnerIP (sx_numSlots s) i in
          if negb (seen =? si_InnerIp x) then merr (taken_over (po_Port opts))
          else port_up_commit s opts i (si_InnerIp x) ip value) (set_port_up_post s opts slots) slots).
  { apply wp_bind. eapply wp_GetInnerIP; [lia|done|]. rewrite Z.eqb_refl. cbn [negb].
    apply wp_mbind, wp_alone_kern_ret; [kern_ret| |apply Herr']. intros _.
    apply wp_bind. eapply wp_GetInnerIP; [lia|done|]. rewrite Z.eqb_refl. cbn [negb].
    apply wp_port_up_commit; [lia|done|done|by apply IsSlotAllocated_spec|].
    exists x, (up_slot opts value ip x), value, total, ip. fold i. split_and!; try done; try lia.
    apply up_slot_published. }
  apply wp_mbind. destruct (negb (total =? 0)); [|exact Hcommit].
  apply Hread, wp_alone_kern_ret; [kern_ret|by intros _|apply Herr'].
Qed.

(** C16: [SetPortUp], for every answer of the kernel: all or nothing.  It
    succeeds only on an attached port that is down and for a request that
    passes the checks, and then exactly that slot carries the new address,
    gateway, VNI, MAC and option length and is up, its generation, counters'
    readiness and device unchanged.  On any error the table is as it was, out
    of range and unattached ports being reported as such. *)
Theorem SetPortUp_spec s opts slots :
  ctx_ok s slots → po_Port opts < 2 ^ 63 → wp alone (SetPortUp s opts) (set_port_up_post s opts slots) slots.
Proof. apply wp_SetPortUp. Qed.

Definition ex_port_up : PortUpOptions := MkPortUpOptions 2 (IPv4 10 0 0 9) (IPv4 10 0 0 1) 77 [] [].
Lemma SetPortUp_spec_witness :
  port_up_checks ex_switch ex_port_up = Ok (167772169, (GeneveOptsValue_zero, 0)) ∧
  wp alone (SetPortUp ex_switch ex_port_up) (set_port_up_post ex_switch ex_port_up ex_table) ex_table.
Proof. split; [by vm_compute|]. apply SetPortUp_spec; [apply ex_switch_ok|simpl; lia]. Defined.
