(* ===== verification/Footprint.v ===== *)
(** * What the operations may do to the slot memory

    The stores and compare-and-swaps an operation issues, whatever it reads and
    whatever the kernel answers.  [W] says which stores are allowed and [C]
    which swaps; each operation needs only a few of each, listed once here and
    used with several choices of [W] and [C]. *)
From S2P Require Import Prelude Errors GoStrings GoNet BpfTypes Mac Geneve Prog SlotTable.
From S2P Require Import Netns Netlink Config MgmtService Metadata Loader Context Flock Attach AttachSpec.
From S2P Require Import Provision ProvisionSpec Stop StopSpec PortSpec.

Definition ev_fits (W : slot_write → Prop) (C : Z → Z → Prop) (B : Type) (e : ev B) : Prop :=
  match e with ECas _ old new => C old new | EStore _ w => W w | _ => True end.

(** What every operation relies on: the constants it stores, and that a slot
    that is not Reserved may be freed or reserved. *)
Class event_class (W : slot_write → Prop) (C : Z → Z → Prop) : Prop := {
  ec_ready v : v = 0 ∨ v = 1 → W (WStatsReady v);
  ec_flags v : v = 0 ∨ v = PortFUp → W (WFlags v);
  ec_no_hint : W (WGeneveOptsLen 0);
  ec_no_device : W (WIfindex 0);
  ec_release ip : ip ≠ InnerIPReserved → C ip InnerIPFree;
  ec_reserve ip : ip ≠ InnerIPReserved → C ip InnerIPReserved;
}.

(** Only [StopReleased] also clears the prefixes. *)
Class clears_prefixes (W : slot_write → Prop) : Prop :=
  ec_no_mgmt : W (WMgmtCidrCount 0) ∧ W (WMgmtCidrs0 MgmtCidr_zero) ∧ W (WMgmtCidrsExt 0 MgmtCidr_zero) ∧
    W (WMgmtCidrsExt 1 MgmtCidr_zero).

(** Close a list of stores, or one store or swap, by these constants. *)
Ltac allowed :=
  repeat apply Forall_cons_2; try apply Forall_nil_2;
  first [assumption | apply ec_ready; lia | apply ec_flags; first [by left | by right] | apply ec_no_hint | apply ec_no_device
        | apply ec_release; assumption | apply ec_reserve; assumption].
Ltac fit_event := first [exact I | simpl; solve [allowed]].

Section fits.
Context (W : slot_write → Prop) (C : Z → Z → Prop) `{EC : !event_class W C}.
Notation fits_ev := (ev_fits W C).

Lemma kern_fits {A} (p : prog A) : kern_only p → obeys fits_ev p.
Proof. by apply obeys_kern_only. Qed.
Lemma kern_ret_fits {A} (p : M A) : kern_ret p → obeys fits_ev p.
Proof. intros H. by apply kern_fits, kern_ret_only. Qed.

Lemma obeys_mpure {A B} (r : res A) (f : A → M B) :
  (∀ a, r = Ok a → obeys fits_ev (f a)) → obeys fits_ev (mbind (mpure r) f).
Proof. intros H. destruct r; try done. by apply H. Qed.

(** ** Accessors *)
Lemma stores_fits i ws : Forall W ws → obeys fits_ev (stores i ws).
Proof. induction 1 as [|w ws Hw _ IH]; [done|]. cbn [stores]. apply obeys_bind; [by split|done]. Qed.
Lemma UpdateSlotFields_fits n i f : (∀ p, obeys fits_ev (f p)) → obeys fits_ev (UpdateSlotFields n i f).
Proof. intros. unfold UpdateSlotFields. by destruct (GetSlot n i). Qed.
Lemma update_stores_fits n i ws : Forall W ws → obeys fits_ev (UpdateSlotFields n i (λ p, stores p ws)).
Proof. intros. apply UpdateSlotFields_fits. intros p. by apply stores_fits. Qed.
Lemma read_slot_fits {A} n i (k : SlotItem → M A) : (∀ x, obeys fits_ev (k x)) → obeys fits_ev (read_slot n i k).
Proof. intros. unfold read_slot. destruct (GetSlot n i); [|done]. cbn [deref]. apply obeys_bind; [by split|done]. Qed.
Lemma store_slot_fits {A} n i w (k : M A) : W w → obeys fits_ev k → obeys fits_ev (store_slot n i w k).
Proof. intros. unfold store_slot. destruct (GetSlot n i); [|done]. cbn [deref]. apply obeys_bind; [by split|done]. Qed.
Lemma GetInnerIP_fits n i : obeys fits_ev (GetInnerIP n i).
Proof. unfold GetInnerIP. destruct (getInnerIPPtr n i); by split. Qed.
Lemma cas_fits i old new : C old new → obeys fits_ev (cas i old new).
Proof. intros. by split. Qed.
Lemma TryAllocate_fits n i ip : C InnerIPFree ip → obeys fits_ev (TryAllocate n i ip).
Proof.
  intros Hc. unfold TryAllocate. destruct (getInnerIPPtr n i); [|done]. apply obeys_bind; [by apply cas_fits|].
  intros []; [|done]. apply obeys_bind; [|done]. split; [|done]. simpl. allowed.
Qed.
Lemma TryRelease_fits n i ip : ip ≠ InnerIPReserved → obeys fits_ev (TryRelease n i ip).
Proof. intros. unfold TryRelease. destruct (getInnerIPPtr n i); [|done]. apply cas_fits. allowed. Qed.
Lemma TryReserve_fits n i ip : obeys fits_ev (TryReserve n i ip).
Proof.
  unfold TryReserve. destruct (ip =? InnerIPReserved) eqn:E; [done|]. apply Z.eqb_neq in E.
  destruct (getInnerIPPtr n i); [|done]. apply cas_fits. allowed.
Qed.
Lemma TryUpdateInnerIP_fits n i old new :
  (IsSlotAllocated old = true → C old new) → obeys fits_ev (TryUpdateInnerIP n i old new).
Proof.
  intros Hc. unfold TryUpdateInnerIP. destruct (IsSlotAllocated old), (IsSlotAllocated new); try done.
  cbn [negb orb]. destruct (getInnerIPPtr n i); [|done]. by apply cas_fits, Hc.
Qed.
Lemma FindFreeSlot_fits n ip : C InnerIPFree ip → obeys fits_ev (FindFreeSlot n ip).
Proof.
  intros Hc. unfold FindFreeSlot. generalize 0. induction (Z.to_nat n) as [|k IH]; intros i; [done|].
  cbn [FindFreeSlot_loop]. apply obeys_bind; [by apply TryAllocate_fits|]. intros []; [done|apply IH].
Qed.
Lemma count_slots_fits P k n i c : obeys fits_ev (count_slots P k n i c).
Proof.
  revert i c. induction k as [|k IH]; intros i c; [done|]. cbn [count_slots].
  apply obeys_bind; [apply GetInnerIP_fits|]. intros ip. apply IH.
Qed.

#[local] Hint Extern 2 (obeys fits_ev (UpdateSlotFields _ _ _)) => apply update_stores_fits; solve [allowed] : obeys.
#[local] Hint Resolve GetInnerIP_fits TryAllocate_fits
  TryRelease_fits TryReserve_fits FindFreeSlot_fits count_slots_fits : obeys.
#[local] Hint Extern 6 (obeys fits_ev _) => apply kern_ret_fits; solve [kern_ret] : obeys.
#[local] Hint Extern 7 (obeys fits_ev _) => apply kern_fits; solve [kern_only] : obeys.
#[local] Hint Extern 2 (obeys fits_ev (read_slot _ _ _)) => apply read_slot_fits; intros; solve [obeys fit_event] : obeys.
#[local] Hint Extern 2 (obeys fits_ev (store_slot _ _ _ _)) =>
  apply store_slot_fits; [solve [allowed]|solve [obeys fit_event]] : obeys.
(** ** Attach *)
(** The stores and the claim of an attachment to [ip]. *)
Record attach_fits (opts : AttachOptions) (value : GeneveOptsValue) (ip : Z) : Prop := {
  af_owner : ip ≠ InnerIPReserved;
  af_claim : C InnerIPFree ip;
  af_writes : Forall W (claim_writes opts);
  af_published : W (WGeneveOptsLen (gv_Len value)) ∧ W (WGeneration (ao_Generation opts));
}.

Lemma or_rollback_fits {A} n i ip w (p : M A) :
  ip ≠ InnerIPReserved → kern_ret p → obeys fits_ev (or_rollback (TryRelease n i ip) w p).
Proof. intros Hip Hp. unfold or_rollback. apply obeys_on_err; [by apply TryRelease_fits|]. by apply obeys_mwrap, kern_ret_fits. Qed.
Lemma with_port_moved_fits {A} s opts i kind ip (k : M A) :
  ip ≠ InnerIPReserved → obeys fits_ev k →
  obeys fits_ev (with_port_moved s opts i kind (TryRelease (sx_numSlots s) i ip) k).
Proof.
  intros Hip Hk. unfold with_port_moved. destruct (_ && _); [|done]. cbv zeta.
  apply obeys_mbind; [apply or_rollback_fits; auto with kern_ret|]. intros portNs.
  apply obeys_defer; [apply kern_fits; kern_only|].
  apply obeys_mbind; [apply or_rollback_fits; auto with kern_ret|]. intros toNs.
  apply obeys_defer; [apply kern_fits; kern_only|].
  apply obeys_mbind; [apply or_rollback_fits; auto with kern_ret|]. by intros _.
Qed.
Lemma attach_publish_fits s opts i ip kind v t :
  W (WGeneveOptsLen (gv_Len v)) → W (WGeneration (ao_Generation opts)) →
  obeys fits_ev (attach_publish s opts i ip kind v t).
Proof.
  intros H1 H2. unfold attach_publish. cbv zeta. apply obeys_bind; [apply GetInnerIP_fits|]. intros current.
  destruct (negb _); [done|]. apply obeys_bind; [apply update_stores_fits; allowed|]. intros _.
  apply obeys_bind; [auto with obeys|]. intros reset.
  apply obeys_mbind; [destruct (is_ok reset); [by apply store_slot_fits; [allowed|]|done]|]. intros _.
  apply obeys_mbind; [destruct (negb _); [by apply store_slot_fits; [allowed|]|done]|]. intros _.
  by apply obeys_mbind.
Qed.
Lemma attach_claimed_fits s opts v t ip i : attach_fits opts v ip → obeys fits_ev (attach_claimed s opts v t ip i).
Proof.
  intros [Hip _ Hw [H1 H2]]. unfold attach_claimed. cbv zeta. apply obeys_bind; [by apply update_stores_fits|].
  intros _. apply read_slot_fits. intros x.
  assert (obeys fits_ev
    (let* _ := or_rollback (TryRelease (sx_numSlots s) i ip)
                 (λ e, errorw ("write GENEVE options for port " +:+ fmt_u (u32 (i + 1)) +:+ ": ") e "")
                 (writeGeneveOpts i v) in
     let* _ := if negb (t =? 0)
               then or_rollback (TryRelease (sx_numSlots s) i ip) id (validateAttachMTU s i (SlotPortKind x) t)
               else mok tt in
     with_port_moved s opts i (SlotPortKind x) (TryRelease (sx_numSlots s) i ip)
       (attach_publish s opts i ip (SlotPortKind x) v t))) as Hrest.
  { apply obeys_mbind; [apply or_rollback_fits; auto with kern_ret|]. intros _.
    apply obeys_mbind; [destruct (negb _); [apply or_rollback_fits; auto with kern_ret|done]|].
    intros _. by apply with_port_moved_fits, attach_publish_fits. }
  destruct (_ =? PortKindTap); [|done]. apply read_slot_fits. intros y.
  destruct (si_Ifindex y =? 0); [|done]. apply obeys_bind; [by apply TryRelease_fits|done].
Qed.
Lemma Attach_fits s opts :
  (∀ v t ip, attach_checks s opts = Ok (v, t, ip) → attach_fits opts v ip) → obeys fits_ev (Attach s opts).
Proof.
  intros H. unfold Attach. apply obeys_mpure. intros [[v t] ip] Hc. specialize (H _ _ _ Hc).
  pose proof (af_claim _ _ _ H) as Hcl. apply obeys_mbind; [unfold attach_claim; obeys fit_event|]. intros i.
  by apply attach_claimed_fits.
Qed.

(** ** Detach, SetPortUp, Reserve *)
Lemma detach_release_fits s opts i ip : ip ≠ InnerIPReserved → obeys fits_ev (detach_release s opts i ip).
Proof.
  intros Hip. unfold detach_release. cbv zeta. apply obeys_bind; [apply GetInnerIP_fits|]. intros seen.
  destruct (negb _); [by destruct (IsSlotFreeOrReserved _)|]. apply store_slot_fits; [allowed|].
  apply obeys_bind; [apply update_stores_fits; allowed|]. intros _.
  apply obeys_bind; [by apply TryRelease_fits|]. intros ok. obeys fit_event.
Qed.
Lemma Detach_fits s opts : obeys fits_ev (Detach s opts).
Proof.
  unfold Detach. destruct (_ <=? 0); [done|]. cbv zeta. destruct (_ <=? _); [done|].
  apply obeys_mbind; [by destruct (requireAttachmentABI s)|]. intros _. apply obeys_bind; [apply GetInnerIP_fits|].
  intros ip. destruct (IsSlotFreeOrReserved ip) eqn:Hfr; [done|].
  assert (ip ≠ InnerIPReserved) as Hip by (intros ->; by vm_compute in Hfr).
  apply read_slot_fits. intros x. pose proof (detach_release_fits s opts (u32 (do_Port opts - 1)) ip Hip) as Hrel.
  unfold detach_device. destruct (_ && _); [|done]. cbv zeta.
  apply obeys_mbind; [auto with obeys|]. intros portNs. apply obeys_defer; [auto with obeys|].
  apply obeys_bind; [auto with obeys|]. intros [a|e| |]; try done.
  destruct (bool_decide _); [done|]. apply obeys_mbind; [auto with obeys|]. intros fromNs.
  apply obeys_defer; [auto with obeys|]. apply obeys_mbind; [auto with obeys|]. by intros _.
Qed.
Lemma SetPortUp_fits s opts :
  (∀ ip v t, port_up_checks s opts = Ok (ip, (v, t)) →
     Forall W (port_up_writes opts v) ∧ ∀ old, IsSlotAllocated old = true → C old ip) →
  obeys fits_ev (SetPortUp s opts).
Proof.
  intros H. unfold SetPortUp. cbv zeta. destruct (_ || _); [done|].
  apply obeys_mbind; [done|]. intros _. apply obeys_bind; [apply GetInnerIP_fits|]. intros current.
  destruct (negb _); [done|]. apply read_slot_fits. intros x. destruct (negb _); [done|].
  apply obeys_mpure. intros [ip [v t]] Hc. destruct (H _ _ _ Hc) as [Hw Hcas].
  apply obeys_mbind; [destruct (negb _); [apply read_slot_fits; intros; auto with obeys|done]|]. intros _.
  apply obeys_bind; [apply GetInnerIP_fits|]. intros seen. destruct (negb _); [done|].
  apply obeys_mbind; [auto with obeys|]. intros _. apply obeys_bind; [apply GetInnerIP_fits|]. intros seen'.
  destruct (negb _); [done|]. unfold port_up_commit. cbv zeta.
  apply obeys_bind; [by apply update_stores_fits|]. intros _.
  apply obeys_bind; [by apply TryUpdateInnerIP_fits, Hcas|]. intros ok. obeys fit_event.
Qed.

Lemma reserve_force_loop_fits fuel s h i : obeys fits_ev (reserve_force_loop fuel s h i).
Proof.
  induction fuel as [|fuel IH]; [done|]. cbn [reserve_force_loop]. cbv zeta.
  apply obeys_bind; [apply GetInnerIP_fits|]. intros current. destruct (_ =? _); [done|].
  apply obeys_bind; [apply TryReserve_fits|]. intros []; [|done].
  apply obeys_bind; [|done]. destruct (_ && _); [apply update_stores_fits; allowed|done].
Qed.
Lemma Reserve_fits fuel s opts : obeys fits_ev (Reserve fuel s opts).
Proof.
  unfold Reserve. destruct (_ <=? 0); [done|]. cbv zeta. destruct (_ <=? _); [done|].
  assert (obeys fits_ev (reserve_body fuel s opts (has_geneve_opts s) (u32 (ro_Port opts - 1)))) as Hbody.
  { unfold reserve_body. cbv zeta. apply obeys_mbind; [|done]. destruct (ro_Force opts); [apply reserve_force_loop_fits|].
    apply obeys_bind; [apply TryAllocate_fits, ec_reserve; done|]. intros ok. destruct (negb ok); [|done].
    apply obeys_bind; [apply GetInnerIP_fits|]. intros c. by destruct (_ =? _). }
  destruct (has_geneve_opts s); [|done]. unfold with_lock.
  apply obeys_mbind; [apply kern_ret_fits, acquireCurrentSwitchControlLock_kern_ret|]. intros lock.
  apply obeys_defer; [apply kern_fits, ReleaseLock_kern_only|done].
Qed.

(** ** Release and stop *)
Lemma reserve_free_pass_fits n s np i : obeys fits_ev (reserve_free_pass n s np i).
Proof. revert i. induction n as [|n IH]; intros i; cbn [reserve_free_pass]; [done|]. unfold countAllocatedSlots. obeys fit_event. Qed.
Lemma reserve_all_pass_fits n s i : obeys fits_ev (reserve_all_pass n s i).
Proof. revert i. induction n as [|n IH]; intros i; cbn [reserve_all_pass]; [done|]. obeys fit_event. Qed.
Lemma rescan_fits fuel p : obeys fits_ev p → obeys fits_ev (rescan fuel p).
Proof.
  intros Hp. induction fuel as [|fuel IH]; [done|]. cbn [rescan]. apply obeys_bind; [done|]. by intros [].
Qed.
Lemma collect_loop_fits n s i set : obeys fits_ev (collect_loop n s i set).
Proof. revert i set. induction n as [|n IH]; intros i set; cbn [collect_loop]; [done|]. obeys fit_event. Qed.
Lemma deletePortInterfaces_fits s l d : obeys fits_ev (deletePortInterfaces s l d).
Proof. induction l as [|it l IH]; cbn [deletePortInterfaces]; [done|]. obeys fit_event. Qed.
Lemma count_devices_fits n s i c : obeys fits_ev (count_devices_loop n s i c).
Proof. revert i c. induction n as [|n IH]; intros i c; cbn [count_devices_loop]; [done|]. obeys fit_event. Qed.
#[local] Hint Resolve reserve_free_pass_fits reserve_all_pass_fits rescan_fits collect_loop_fits
  deletePortInterfaces_fits count_devices_fits : obeys.
Lemma release_body_fits fuel name opts s : obeys fits_ev (release_body fuel name opts s).
Proof.
  unfold release_body, countPortsWithDevices, release_force, release_safe, ignore_err, collect_and_delete,
    collectPortInterfaces, reserveFreeSlots, reserveAllSlots, countAllocatedSlots. obeys fit_event.
Qed.

Lemma validate_loop_fits n s i : obeys fits_ev (validate_released_loop n s i).
Proof.
  revert i. induction n as [|n IH]; intros i; cbn [validate_released_loop]; [done|].
  destruct (GetSlot s i); [|done]. cbn [deref]. obeys fit_event.
Qed.
Lemma clear_mgmt_fits `{!clears_prefixes W} n s i : obeys fits_ev (clear_mgmt_loop n s i).
Proof.
  destruct ec_no_mgmt as (? & ? & ? & ?).
  revert i. induction n as [|n IH]; intros i; cbn [clear_mgmt_loop]; [done|]. obeys fit_event.
Qed.
#[local] Hint Resolve validate_loop_fits clear_mgmt_fits : obeys.
Lemma stop_released_body_fits `{!clears_prefixes W} range name s : obeys fits_ev (stop_released_body range name s).
Proof.
  unfold stop_released_body, validateAllReleased, collectPortInterfaces.
  apply obeys_mbind; [auto with obeys|]. intros _. apply obeys_mbind; [auto with obeys|]. intros c.
  apply obeys_mbind; [auto with obeys|]. intros nd. apply obeys_defer; [auto with obeys|].
  unfold stopCommonCleanup. apply obeys_mbind; [apply kern_ret_fits, delete_mgmt_kern_ret|]. intros _.
  apply obeys_mbind; [auto with obeys|]. intros _.
  apply kern_ret_fits, with_transit_back_kern_ret, kern_ret_mbind; [destruct nd.1; kern_ret|].
  intros _. apply UnpinMaps_kern_ret.
Qed.
End fits.
