(* ===== verification/Safety.v ===== *)
(** * Reserved ports under concurrency

    Which operations can take a port out of Reserved, whatever the
    interleaving and whatever the kernel answers: provisioning, and nothing
    else. *)
From S2P Require Import Prelude Errors GoStrings GoNet BpfTypes Mac Geneve Prog SlotTable Interleave.
From S2P Require Import Netns Netlink Config MgmtService Metadata Loader Context Flock Attach AttachSpec Provision ProvisionSpec.
From S2P Require Import Stop StopSpec PortSpec Footprint.

(** An event that never frees, or re-allocates, a Reserved slot. *)
Notation ev_keeps := (ev_fits (λ _, True) (λ old _, old ≠ InnerIPReserved)).
#[export] Instance keeps_class : event_class (λ _, True) (λ old _, old ≠ InnerIPReserved).
Proof. by constructor. Qed.
#[export] Instance keeps_clears : clears_prefixes (λ _, True).
Proof. done. Qed.

Lemma Attach_keeps s opts : obeys ev_keeps (Attach s opts).
Proof.
  apply Attach_fits; [apply _|]. intros v t ip Hc. apply attach_checks_ip in Hc as [_ Hst].
  constructor; [by intros ->|done| |done]. by apply Forall_true.
Qed.
Lemma SetPortUp_keeps s opts : obeys ev_keeps (SetPortUp s opts).
Proof.
  apply SetPortUp_fits; [apply _|]. intros ip v t _. split; [by apply Forall_true|]. by intros old Ha ->.
Qed.
#[local] Hint Resolve Attach_keeps SetPortUp_keeps Detach_fits Reserve_fits release_body_fits stop_released_body_fits : core.

(** ** Every interleaving

    The calls other processes may be making on the same switch, their results
    dropped. *)
Definition discard {A} (p : prog A) : prog unit := let~ _ := p in Ret tt.
Inductive other_call (s : switchContext) : prog unit → Prop :=
  | oc_Attach opts : other_call s (discard (Attach s opts))
  | oc_Detach opts : other_call s (discard (Detach s opts))
  | oc_Reserve fuel opts : other_call s (discard (Reserve fuel s opts))
  | oc_SetPortUp opts : other_call s (discard (SetPortUp s opts))
  | oc_Release fuel name opts : other_call s (discard (release_body fuel name opts s))
  | oc_StopReleased range name : other_call s (discard (stop_released_body range name s)).

Lemma other_call_keeps s p : other_call s p → obeys ev_keeps p.
Proof.
  destruct 1; (apply obeys_bind; [|done]); auto with typeclass_instances.
Qed.

Lemma keeps_pool_step {A} (ps ps' : list (prog A)) t t' i :
  Forall (obeys ev_keeps) ps → pool_step (ps, t) (ps', t') →
  Forall (obeys ev_keeps) ps' ∧ (initial_ip t i = Some InnerIPReserved → initial_ip t' i = Some InnerIPReserved).
Proof.
  intros Hps Hstep. inversion Hstep as [? ? p B e k b ? Hp Hmem|? ? p B e k b Hp]; subst.
  - destruct (proj1 (Forall_lookup _ _) Hps _ _ Hp) as [Hok Hk]. split; [apply Forall_insert; [done|apply Hk]|].
    intros Hi. destruct e as [j|j old new|j|j w|? q]; simpl in Hmem; try done;
      destruct (slot_at t j) as [x|] eqn:Hx; simplify_eq; auto.
    + destruct (si_InnerIp x =? old) eqn:E; simplify_eq; [|done]. apply Z.eqb_eq in E.
      rewrite (initial_ip_set _ _ _ x) by done. case_decide; [|done]. subst.
      unfold initial_ip in Hi. rewrite Hx in Hi. simpl in Hi. destruct Hok. congruence.
    + by rewrite initial_ip_write.
  - destruct (proj1 (Forall_lookup _ _) Hps _ _ Hp) as [_ Hk]. split; [apply Forall_insert; [done|apply Hk]|done].
Qed.

(** C4: a Reserved port stays out of service.  Let any number of calls of
    [Attach], [Detach], [Reserve], [SetPortUp], [ReleasePorts] and
    [StopReleased] on one switch interleave, event by event, with arbitrary
    kernel answers: a port that is Reserved in some configuration is Reserved
    in every later one.  Only provisioning can release it. *)
Theorem reserved_stays_reserved s calls t ps t1 ps' t2 i :
  Forall (other_call s) calls → rtc pool_step (calls, t) (ps, t1) → rtc pool_step (ps, t1) (ps', t2) →
  owner t1 i = Some SReserved → owner t2 i = Some SReserved.
Proof.
  intros Hcalls Hto Hlater Hi.
  assert (∀ c c' : list (prog unit) * list SlotItem, rtc pool_step c c' → Forall (obeys ev_keeps) c.1 → Forall (obeys ev_keeps) c'.1 ∧
    (initial_ip c.2 i = Some InnerIPReserved → initial_ip c'.2 i = Some InnerIPReserved)) as Hsteps.
  { induction 1 as [c|[p q] [p1 q1] c Hs _ IH]; intros Hc; [done|]. simpl in *.
    destruct (keeps_pool_step p p1 q q1 i Hc Hs) as [Hc1 Hk]. destruct (IH Hc1). auto. }
  assert (Forall (obeys ev_keeps) calls) as H0.
  { eapply Forall_impl; [done|]. intros p. apply other_call_keeps. }
  destruct (Hsteps _ _ Hto H0) as [H1 _]. destruct (Hsteps _ _ Hlater H1) as [_ H2]. simpl in *.
  assert (initial_ip t1 i = Some InnerIPReserved) as Hip.
  { unfold owner, initial_ip, state_of in *. destruct (slot_at t1 i) as [x|]; [|done]. simpl in *.
    destruct (si_InnerIp x =? InnerIPFree); [done|]. destruct (si_InnerIp x =? InnerIPReserved) eqn:E; [|done].
    f_equal. lia. }
  specialize (H2 Hip). unfold owner, initial_ip in *. destruct (slot_at t2 i) as [x|]; [|done]. simpl in *.
  injection H2 as ->. done.
Qed.

Definition ex_calls : list (prog unit) :=
  [discard (Attach ex_switch (ex_attach 1)); discard (Detach ex_switch (MkDetachOptions 1 "" true));
   discard (release_body 1 "sw0" (MkReleaseOptions true) ex_switch)].
Definition ex_calls_run : list (prog unit) * world unit :=
  pool_run (concat (replicate 30 [0; 1; 2]%nat)) ex_calls (MkWorld ex_table tt).

Lemma reserved_stays_reserved_witness :
  owner ex_table 0 = Some SReserved ∧ owner (w_slots ex_calls_run.2) 0 = Some SReserved.
Proof.
  split; [reflexivity|].
  apply (reserved_stays_reserved ex_switch ex_calls ex_table ex_calls ex_table ex_calls_run.1).
  - unfold ex_calls. repeat constructor.
  - apply rtc_refl.
  - apply (pool_run_sound _ _ (MkWorld ex_table tt)).
  - reflexivity.
Defined.
