(* ===== verification/Status.v ===== *)
(** * Status and statistics: pkg/vswitch/status.go

    [Status] summarises the table and checks the devices; [Stats] reads the
    traffic counters of attached ports, bracketed by identity reads.  The order
    in which Go walks a map is the parameter [map_range]. *)
From S2P Require Import Prelude Errors GoStrings GoNet BpfTypes Mac Geneve Prog SlotTable Netns.
From S2P Require Import Netlink Config MgmtService Metadata Loader Context Flock Attach Stop.

(** ** Conditions (types.go) *)
Record Condition := MkCondition { cd_Type : string; cd_Status : string; cd_Reason : string; cd_Message : string }.
Definition ConditionTrue : string := "True".
Definition ConditionFalse : string := "False".
Definition ConditionUnknown : string := "Unknown".
Definition ConditionReady : string := "Ready".
Definition ConditionPortDevicesReady : string := "PortDevicesReady".
Definition ConditionMgmtDevicesReady : string := "MgmtDevicesReady".
Definition ConditionTransitDeviceReady : string := "TransitDeviceReady".
Definition ConditionPortReserved : string := "PortReserved".

Record StatusOutput := MkStatusOutput {
  ss_Switch : string; ss_State : string; ss_SwitchNetNS : string; ss_PortNetNS : string;
  ss_Ports : Z; ss_PortsUsed : Z; ss_PortsAvailable : Z; ss_PortsReserved : Z; ss_GenerationBits : Z;
  ss_MgmtPlanes : list MgmtPlaneInfo; ss_MgmtServices : list MgmtServiceInfo;
  ss_TransitDev : string; ss_TransitDevIP : string; ss_Conditions : list Condition;
}.

(** ** What to check *)
Record portCheck := MkPortCheck { pc_slotID : Z; pc_portIfindex : Z }.
Record portsToCheck := MkPortsToCheck {
  tc_ports : list portCheck; tc_mgmt : gset Z; tc_transit : gset Z;
}.

(** The interfaces named by one slot; unlike [Stop.slot_mgmt_ifindexes] the
    first prefix and the others are tested separately. *)
Definition status_mgmt_ifindexes (x : SlotItem) : list Z :=
  let count := si_MgmtCidrCount x in
  (if (0 <? count) && negb (mc_Ifindex (si_MgmtCidrs0 x) =? 0) then [mc_Ifindex (si_MgmtCidrs0 x)] else []) ++
  filter (λ i, i ≠ 0) (map mc_Ifindex (take (Z.to_nat (Z.min (count - 1) MaxMgmtCIDRExt)) (si_MgmtCidrsExt x))).

Fixpoint build_ports_loop (n : nat) (mmap : option Z) (i : Z) (acc : portsToCheck) : M portsToCheck :=
  match n with
  | O => mok acc
  | S n =>
      let add x := MkPortsToCheck (tc_ports acc ++ [MkPortCheck i (si_Ifindex x)])
        (list_to_set (status_mgmt_ifindexes x) ∪ tc_mgmt acc)
        ((if negb (si_TransitIfindex x =? 0) then {[ si_TransitIfindex x ]} else ∅) ∪ tc_transit acc) in
      match mmap with
      | None => build_ports_loop n mmap (i + 1)
                  (MkPortsToCheck (tc_ports acc ++ [MkPortCheck i 0]) (tc_mgmt acc) (tc_transit acc))
      | Some numSlots =>
          let~ ip := GetInnerIP numSlots i in
          if ip =? InnerIPReserved then build_ports_loop n mmap (i + 1) acc
          else read_slot numSlots i (λ x, build_ports_loop n mmap (i + 1) (add x))
      end
  end.
Definition buildPortsToCheck (numPorts : Z) (mmap : option Z) : M portsToCheck :=
  build_ports_loop (Z.to_nat numPorts) mmap 0 (MkPortsToCheck [] ∅ ∅).

(** ** Device checks *)
Definition formatMissingList (prefix : string) (items : list string) : string :=
  let n := Z.of_nat (length items) in
  if n <=? 3 then fmt_d n +:+ " " +:+ prefix +:+ ": " +:+ join ", " items
  else fmt_d n +:+ " " +:+ prefix +:+ ": " +:+ join ", " (take 3 items) +:+ ", ... (+" +:+ fmt_d (n - 3) +:+ " more)".

Definition ns_ifindex_map (links : list Link) : gmap Z Link :=
  fold_left (λ m l, <[lk_Index l := l]> m) links ∅.

(** The ports sorted into missing, down and up. *)
Record triage := MkTriage { tr_missing : list string; tr_down : list string; tr_up : Z }.
Definition triage_port (m : gmap Z Link) (t : triage) (pc : portCheck) : triage :=
  if pc_portIfindex pc =? 0
  then MkTriage (tr_missing t ++ ["port" +:+ fmt_u (u32 (pc_slotID pc + 1)) +:+ "(no ifindex)"]) (tr_down t) (tr_up t)
  else match m !! pc_portIfindex pc with
       | None => MkTriage (tr_missing t ++ ["port" +:+ fmt_u (u32 (pc_slotID pc + 1)) +:+ "(ifindex="
                                            +:+ fmt_d (pc_portIfindex pc) +:+ ")"]) (tr_down t) (tr_up t)
       | Some link =>
           if negb (lk_FlagUp link) then MkTriage (tr_missing t) (tr_down t ++ [lk_Name link]) (tr_up t)
           else MkTriage (tr_missing t) (tr_down t) (tr_up t + 1)
       end.

Definition checkPortDevices (ports : list portCheck) (m : gmap Z Link) : prog Condition :=
  let ty := ConditionPortDevicesReady in
  match ports with
  | [] => Ret (MkCondition ty ConditionTrue "" "0 ports to check (all reserved)")
  | _ =>
      let t := fold_left (triage_port m) ports (MkTriage [] [] 0) in
      let total := Z.of_nat (length ports) in
      let nm := Z.of_nat (length (tr_missing t)) in
      let nd := Z.of_nat (length (tr_down t)) in
      if 0 <? nm
      then Ret (MkCondition ty ConditionFalse "DevicesMissing"
             (fmt_d (total - nm - nd) +:+ "/" +:+ fmt_d total +:+ " ready, " +:+ formatMissingList "missing" (tr_missing t)))
      else if 0 <? nd
      then Ret (MkCondition ty ConditionFalse "DevicesDown"
             (fmt_d (total - nd) +:+ "/" +:+ fmt_d total +:+ " ready, " +:+ formatMissingList "DOWN" (tr_down t)))
      else
        let~ missingFilter := if 0 <? tr_up t then (let~ b := HasBlockFilter PortIngressBlockID in Ret (negb b))
                              else Ret false in
        Ret (if (missingFilter : bool)
             then MkCondition ty ConditionFalse "TCFilterMissing" "shared ingress block filter missing"
             else MkCondition ty ConditionTrue "" "")
  end.

(** Devices by interface index, each with its own TC filter: [up] says when
    the device counts as up. *)
Record dev_triage := MkDevTriage { dt_missing : list string; dt_down : list string; dt_noTC : list string }.
Fixpoint triage_devices (kind : string) (up : Link → bool) (m : gmap Z Link) (ifindexes : list Z)
    (t : dev_triage) : prog dev_triage :=
  match ifindexes with
  | [] => Ret t
  | ifindex :: ifindexes =>
      match m !! ifindex with
      | None => triage_devices kind up m ifindexes
                  (MkDevTriage (dt_missing t ++ [kind +:+ "(ifindex=" +:+ fmt_d ifindex +:+ ")"]) (dt_down t) (dt_noTC t))
      | Some link =>
          if negb (up link)
          then triage_devices kind up m ifindexes (MkDevTriage (dt_missing t) (dt_down t ++ [lk_Name link]) (dt_noTC t))
          else
            let~ has := HasTCFilter link Ingress in
            triage_devices kind up m ifindexes
              (if (has : bool) then t else MkDevTriage (dt_missing t) (dt_down t) (dt_noTC t ++ [lk_Name link]))
      end
  end.
Definition dev_condition (ty missing_reason down_reason : string) (t : dev_triage) : Condition :=
  if negb (bool_decide (dt_missing t = []))
  then MkCondition ty ConditionFalse missing_reason (formatMissingList "missing" (dt_missing t))
  else if negb (bool_decide (dt_down t = []))
  then MkCondition ty ConditionFalse down_reason (formatMissingList "DOWN" (dt_down t))
  else if negb (bool_decide (dt_noTC t = []))
  then MkCondition ty ConditionFalse "TCFilterMissing" (formatMissingList "missing TC" (dt_noTC t))
  else MkCondition ty ConditionTrue "" "".

Section Status.
Context (map_range : gset Z → list Z).

Definition checkMgmtDevices (mgmtIfindexes : gset Z) (m : gmap Z Link) : prog Condition :=
  let~ t := triage_devices "mgmt" lk_FlagUp m (map_range mgmtIfindexes) (MkDevTriage [] [] []) in
  Ret (dev_condition ConditionMgmtDevicesReady "DevicesMissing" "DevicesDown" t).
Definition checkTransitDevice (transitIfindexes : gset Z) (m : gmap Z Link) : prog Condition :=
  let~ t := triage_devices "transit" lk_OperUp m (map_range transitIfindexes) (MkDevTriage [] [] []) in
  Ret (dev_condition ConditionTransitDeviceReady "DeviceMissing" "DeviceDown" t).

(** The checks made inside the switch namespace, over one list of links. *)
Definition check_devices (p : portsToCheck) : M (Condition * option Condition * option Condition) :=
  let~ le := LinkList in
  let '(links, err) := le in
  let fatal := match err with
               | Some e => if errors_is e NlErrDumpInterrupted then None else Some e
               | None => None
               end in
  match fatal with
  | Some e => merr e
  | None =>
      let m := ns_ifindex_map links in
      let~ portCond := checkPortDevices (tc_ports p) m in
      let~ mgmtCond := if bool_decide (tc_mgmt p = ∅) then Ret None
                       else (let~ c := checkMgmtDevices (tc_mgmt p) m in Ret (Some c)) in
      let~ transitCond := if bool_decide (tc_transit p = ∅) then Ret None
                          else (let~ c := checkTransitDevice (tc_transit p) m in Ret (Some c)) in
      mok (portCond, mgmtCond, transitCond)
  end.

(** The summary comes first; reserved ports are reported but do not count. *)
Definition conditions_of (reservedCount : Z) (c : Condition * option Condition * option Condition) : list Condition :=
  let '(portCond, mgmtCond, transitCond) := c in
  let checked := portCond :: option_list mgmtCond ++ option_list transitCond in
  let allReady := forallb (λ c, bool_decide (cd_Status c = ConditionTrue)) checked in
  MkCondition ConditionReady (if allReady then ConditionTrue else ConditionFalse) "" ""
  :: checked ++
  (if 0 <? reservedCount
   then [MkCondition ConditionPortReserved ConditionTrue "" (fmt_u reservedCount +:+ " ports reserved")] else []).

Definition checkConditions (numPorts : Z) (switchNs : NetNS) (mmap : option Z) : M (list Condition) :=
  let* p := buildPortsToCheck numPorts mmap in
  let~ reservedCount := match mmap with Some n => CountReservedSlots n | None => Ret 0 end in
  let* c := mwrap (λ e, errorw "check devices in switch namespace: " e "") (Do switchNs (check_devices p)) in
  mok (conditions_of reservedCount c).

Definition status_of (s : switchContext) (used reserved free : Z) (conditions : list Condition) : StatusOutput :=
  let cfg := sx_cfg s in
  let meta := sx_meta s in
  MkStatusOutput (sx_name s) "running" (SwitchNetnsName meta) (PortNetnsName meta) (sc_N_ports cfg)
    used free reserved (sc_GenerationBits cfg) (MgmtPlaneInfos (Some meta)) (metadata_MgmtServiceInfos (Some meta))
    (TransitDevName meta) (TransitDevAddrStr meta) conditions.

Definition Status (s : switchContext) : M StatusOutput :=
  let n := sx_numSlots s in
  let~ used := CountAllocatedSlots n in
  let~ reserved := CountReservedSlots n in
  let~ free := CountFreeSlots n in
  let name := SwitchNetnsName (sx_meta s) in
  if bool_decide (name = "") then mok (status_of s used reserved free [])
  else
    let~ r := GetByName name in
    match r with
    | Ok switchNs =>
        with_defer (NetNS_Close switchNs)
          (let* conditions := mwrap (λ e, errorw "check conditions: " e "")
                                    (checkConditions (sc_N_ports (sx_cfg s)) switchNs (Some n)) in
           mok (status_of s used reserved free conditions))
    | Err _ =>
        mok (status_of s used reserved free
               [MkCondition ConditionReady ConditionUnknown "NamespaceNotFound"
                  ("switch netns " +:+ name +:+ " not found")])
    | Panic => mpanic
    | OutOfFuel => Ret OutOfFuel
    end.
End Status.

Definition StatusOutput_IsReady (s : StatusOutput) : bool :=
  match List.find (λ c, bool_decide (cd_Type c = ConditionReady)) (ss_Conditions s) with
  | Some c => bool_decide (cd_Status c = ConditionTrue)
  | None => false
  end.
Definition GetNotReadyReasons (s : StatusOutput) : string :=
  join ", " (map (λ c, cd_Type c +:+ "=" +:+ cd_Status c)
    (filter (λ c, cd_Type c ≠ ConditionReady ∧ cd_Status c ≠ ConditionTrue) (ss_Conditions s))).

(** ** Statistics *)
Record PortStatsOutput := MkPortStats {
  pt_Port : Z; pt_InnerIP : string; pt_FloatingIP : string; pt_Generation : Z; pt_PortMAC : string;
  pt_MgmtRxPackets : Z; pt_MgmtRxBytes : Z; pt_MgmtTxPackets : Z; pt_MgmtTxBytes : Z;
  pt_TransitRxPackets : Z; pt_TransitRxBytes : Z; pt_TransitTxPackets : Z; pt_TransitTxBytes : Z;
}.
Record StatsOutput := MkStatsOutput { so_Switch : string; so_Ports : list PortStatsOutput }.

Fixpoint validate_ports (n : Z) (ports : list Z) : res unit :=
  match ports with
  | [] => Ok tt
  | port :: ports =>
      if (port <? 1) || (n <? u64 port)
      then Err (errorf ("port " +:+ fmt_d port +:+ " out of range (max " +:+ fmt_u n +:+ ")"))
      else validate_ports n ports
  end.

Fixpoint allocated_slots (n : nat) (numSlots i : Z) : prog (list Z) :=
  match n with
  | O => Ret []
  | S n =>
      let~ ip := GetInnerIP numSlots i in
      let~ rest := allocated_slots n numSlots (i + 1) in
      Ret (if IsSlotAllocated ip then i :: rest else rest)
  end.

(** The short-circuit conjunction of the closure [ready]. *)
Definition stats_ready (s : switchContext) (p : Z) : prog bool :=
  if negb (has_geneve_opts s) then Ret false
  else
    let hasPortUp := negb (Z.land (sc_Features (sx_cfg s)) SwitchFPortUp =? 0) in
    let~ up := if negb hasPortUp then Ret true
               else (let~ x := trigger (ELoadSlot p) in Ret (negb (Z.land (si_Flags x) PortFUp =? 0))) in
    if negb up then Ret false
    else let~ x := trigger (ELoadSlot p) in Ret (si_StatsReady x =? 1).

Definition stats_error (sid : Z) (post : string) : error :=
  errorw ("port " +:+ fmt_u (u32 (sid + 1)) +:+ ": ") (sentinel_error ErrStatsUnavailable) post.

(** The second look at the identity, in the order of the source's disjunction. *)
Definition stats_changed (s : switchContext) (p sid innerIP generation : Z) (first st : SlotStats) : prog bool :=
  let n := sx_numSlots s in
  if (st_Generation first =? 0) || negb (st_Generation first =? st_Generation st) || negb (IsSlotAllocated innerIP)
  then Ret true
  else
    let~ ready := stats_ready s p in
    if negb ready then Ret true
    else
      let~ again := GetInnerIP n sid in
      if negb (again =? innerIP) then Ret true
      else let~ x := trigger (ELoadSlot p) in Ret (negb (si_Generation x =? generation)).

Definition port_stats (s : switchContext) (sid innerIP generation : Z) (portMAC : HardwareAddr) (st : SlotStats) : PortStatsOutput :=
  MkPortStats (u32 (sid + 1)) (ip_string (Uint32ToIP innerIP))
    (ip_string (Uint32ToIP (FloatingIPForAttachment (sc_FloatingIpBase (sx_cfg s)) sid generation)))
    generation (mac_string portMAC)
    (st_MgmtRxPackets st) (st_MgmtRxBytes st) (st_MgmtTxPackets st) (st_MgmtTxBytes st)
    (st_TransitRxPackets st) (st_TransitRxBytes st) (st_TransitTxPackets st) (st_TransitTxBytes st).

Definition slot_stats (s : switchContext) (sid : Z) : M PortStatsOutput :=
  let n := sx_numSlots s in
  let slot := GetSlot n sid in
  let~ ip := GetInnerIP n sid in
  if negb (IsSlotAllocated ip)
  then merr (errorw ("port " +:+ fmt_u (u32 (sid + 1)) +:+ ": ") (sentinel_error ErrPortNotAttached) "")
  else deref slot (λ p,
    let~ ready := stats_ready s p in
    if negb ready then merr (stats_error sid ": current attachment reset is not confirmed")
    else
      let* first := mwrap unavailable (GetStats (sx_numPorts s) sid) in
      let~ innerIP := GetInnerIP n sid in
      let~ x := trigger (ELoadSlot p) in
      let generation := si_Generation x in
      let* st := mwrap unavailable (GetStats (sx_numPorts s) sid) in
      let~ changed := stats_changed s p sid innerIP generation first st in
      if (changed : bool) then merr (stats_error sid ": attachment changed during stats read")
      else
        let* portMAC := mpure (GetPortMAC (sc_SwitchMac (sx_cfg s)) (sc_PortMac (sx_cfg s)) sid) in
        mok (port_stats s sid innerIP generation portMAC st)).

Fixpoint stats_loop (s : switchContext) (slotIDs : list Z) : M (list PortStatsOutput) :=
  match slotIDs with
  | [] => mok []
  | sid :: slotIDs =>
      let* row := slot_stats s sid in
      let* rows := stats_loop s slotIDs in
      mok (row :: rows)
  end.

Definition stats_body (s : switchContext) (ports : list Z) : M StatsOutput :=
  let~ slotIDs := match ports with
                  | [] => allocated_slots (Z.to_nat (sc_N_ports (sx_cfg s))) (sx_numSlots s) 0
                  | _ => Ret (map (λ p, u32 (p - 1)) ports)
                  end in
  let* rows := stats_loop s slotIDs in
  let* _ := mwrap unavailable (verifyCurrentSwitch s) in
  mok (MkStatsOutput (sx_name s) rows).

Definition Stats (s : switchContext) (ports : list Z) : M StatsOutput :=
  let* _ := mpure (validate_ports (sc_N_ports (sx_cfg s)) ports) in
  with_lock (acquireStatsLock s) (stats_body s ports).

Section ByName.
Context (unmarshal : string → res SwitchMetadata) (map_range : gset Z → list Z).
Definition StatusByName (switchName : string) : M StatusOutput :=
  with_switch (Open unmarshal switchName) (Status map_range).
Definition StatsByName (switchName : string) (ports : list Z) : M StatsOutput :=
  with_switch (Open unmarshal switchName) (λ s, Stats s ports).
End ByName.
