(* ===== verification/StatusSpec.v ===== *)
(** * What status and statistics report

    Contracts of [Status] and [Stats] when nobody else touches the table, and
    an interleaving with a re-attachment in which [Stats] reports the counters
    of the attachment that is gone. *)
From S2P Require Import Prelude Errors GoStrings GoNet BpfTypes Mac Geneve Prog SlotTable Interleave Netns.
From S2P Require Import Netlink Config MgmtService Metadata Loader Context Flock Attach AttachSpec Provision ProvisionSpec Stop StopSpec.
From S2P Require Import PortSpec Status.

(** ** Readiness *)
Definition names_device (c : Condition) : Prop :=
  cd_Type c ∈ [ConditionPortDevicesReady; ConditionMgmtDevicesReady; ConditionTransitDeviceReady].
Definition checked_conditions (c : Condition * option Condition * option Condition) : list Condition :=
  c.1.1 :: option_list c.1.2 ++ option_list c.2.

Lemma join_nil_inv sep l : (∀ x, x ∈ l → x ≠ "") → join sep l = "" → l = [].
Proof.
  intros Hl Hj. destruct l as [|x [|y l]]; [done| |].
  - simpl in Hj. subst. by destruct (Hl ""); [left|].
  - assert (x ≠ "") as Hx by (apply Hl; left). simpl in Hj. by destruct x.
Qed.

(** Readiness.  A switch whose devices were checked is ready exactly when
    every device condition is True, whatever the number of reserved ports, and
    exactly when [GetNotReadyReasons] has nothing to say. *)
Lemma ready_iff_no_reasons s used reserved free r c :
  Forall names_device (checked_conditions c) →
  let out := status_of s used reserved free (conditions_of r c) in
  (StatusOutput_IsReady out = true ↔ Forall (λ d, cd_Status d = ConditionTrue) (checked_conditions c)) ∧
  (StatusOutput_IsReady out = true ↔ GetNotReadyReasons out = "").
Proof.
  intros Hdev out. destruct c as [[pc mc] tc]. set (cs := checked_conditions (pc, mc, tc)) in *.
  assert (Hready : StatusOutput_IsReady out = true ↔ Forall (λ d, cd_Status d = ConditionTrue) cs).
  { change (StatusOutput_IsReady out) with (bool_decide
      ((if forallb (λ c, bool_decide (cd_Status c = ConditionTrue)) cs then ConditionTrue else ConditionFalse) = ConditionTrue)).
    rewrite Forall_forall. destruct (forallb (λ c, bool_decide (cd_Status c = ConditionTrue)) cs) eqn:E.
    - rewrite forallb_forall in E. split; [|done]. intros _ d Hd. specialize (E d).
      rewrite list_elem_of_In in Hd. specialize (E Hd). by apply bool_decide_eq_true in E.
    - split; [done|]. intros H. exfalso. assert (forallb (λ c, bool_decide (cd_Status c = ConditionTrue)) cs = true) as E2.
      { apply forallb_forall. intros d Hd. apply bool_decide_eq_true, H. by apply list_elem_of_In. }
      congruence. }
  split; [done|]. rewrite Hready. unfold GetNotReadyReasons.
  set (bad := filter _ _). assert (bad = filter (λ c, cd_Type c ≠ ConditionReady ∧ cd_Status c ≠ ConditionTrue) cs) as Hbad.
  { unfold bad. cbn [out status_of ss_Conditions conditions_of]. rewrite filter_cons_False by (intros [H _]; by destruct H).
    change (pc :: option_list mc ++ option_list tc) with cs. rewrite filter_app.
    destruct (0 <? r); [|by rewrite app_nil_r]. rewrite filter_cons_False by (intros [_ H]; by destruct H).
    by rewrite filter_nil, app_nil_r. }
  split.
  - intros Hall. rewrite Hbad. assert (filter (λ c, cd_Type c ≠ ConditionReady ∧ cd_Status c ≠ ConditionTrue) cs = []) as ->; [|done].
    clear -Hall. induction Hall as [|d l Hd _ IH]; [done|]. rewrite filter_cons_False; [done|]. intros [_ H]. by destruct H.
  - intros Hj. apply join_nil_inv in Hj.
    + apply map_eq_nil in Hj. rewrite Hbad in Hj. apply Forall_forall. intros d Hd.
      destruct (decide (cd_Status d = ConditionTrue)) as [|Hne]; [done|].
      assert (d ∈ filter (λ c, cd_Type c ≠ ConditionReady ∧ cd_Status c ≠ ConditionTrue) cs) as Hin.
      { apply list_elem_of_filter. split; [|done]. split; [|done]. rewrite Forall_forall in Hdev.
        specialize (Hdev d Hd). unfold names_device in Hdev. intros Heq. rewrite Heq in Hdev. by vm_compute in Hdev; set_solver. }
      rewrite Hj in Hin. by apply elem_of_nil in Hin.
    + intros x Hx Hnil. apply list_elem_of_In, in_map_iff in Hx as (d & Hd & _). subst.
      by destruct (cd_Type d).
Qed.

Lemma ready_iff_no_reasons_witness :
  let c := (MkCondition ConditionPortDevicesReady ConditionFalse "DevicesMissing" "0/1 ready",
            Some (MkCondition ConditionMgmtDevicesReady ConditionTrue "" ""), None) in
  let out := status_of ex_switch 0 1 3 (conditions_of 1 c) in
  Forall names_device (checked_conditions c) ∧
  (StatusOutput_IsReady out = true ↔ GetNotReadyReasons out = "") ∧ StatusOutput_IsReady out = false.
Proof.
  intros c out. assert (Forall names_device (checked_conditions c)) as H.
  { unfold names_device. repeat constructor; cbn; set_solver. }
  split; [done|]. split; [apply (ready_iff_no_reasons ex_switch 0 1 3 1 c H) | reflexivity].
Defined.

Lemma triage_devices_kern_only kind up m l t : kern_only (triage_devices kind up m l t).
Proof.
  revert t. induction l as [|i l IH]; intros t; cbn [triage_devices]; [done|]. destruct (m !! i); [|apply IH].
  destruct (negb _); [apply IH|]. apply kern_only_bind; [unfold HasTCFilter, has_filter_at; kern_only|]. intros b. apply IH.
Qed.
#[local] Hint Resolve triage_devices_kern_only : kern_only.

(** Its premise is what the device checks deliver. *)
Lemma check_devices_names map_range p :
  ends_in (λ r, match r with Ok c => Forall names_device (checked_conditions c) | _ => True end)
    (check_devices map_range p).
Proof.
  assert (Hdev : ∀ ty mr dr t, cd_Type (dev_condition ty mr dr t) = ty).
  { intros ty mr dr t. unfold dev_condition. by repeat case_bool_decide. }
  unfold check_devices, LinkList. split; [done|]. intros [links err]. simpl.
  destruct (match err with Some _ => _ | None => _ end); [done|].
  eapply (ends_in_bind (λ c, cd_Type c = ConditionPortDevicesReady)).
  { unfold checkPortDevices. destruct (tc_ports p) as [|q l]; [done|].
    destruct (0 <? _); [done|]. destruct (0 <? _); [done|].
    eapply ends_in_bind; [apply (kern_only_ends)|by intros [] _].
    destruct (0 <? _); [|done]. apply kern_only_bind; [unfold HasBlockFilter, has_filter_at; kern_only|done]. }
  intros pc Hpc.
  assert (∀ (b : bool) ty up k mr dr l, ends_in (λ c : option Condition, ∀ d, c = Some d → cd_Type d = ty)
    (if b then Ret None else
      (let~ c := (let~ t := triage_devices k up (ns_ifindex_map links) l (MkDevTriage [] [] []) in
                  Ret (dev_condition ty mr dr t)) in Ret (Some c)))) as Hopt.
  { intros [] ty up k mr dr l; [done|]. eapply (ends_in_bind (λ c, cd_Type c = ty)).
    - eapply ends_in_bind; [apply kern_only_ends, triage_devices_kern_only|]. intros t _. apply Hdev.
    - intros c Hc d Hd. by simplify_eq. }
  unfold checkMgmtDevices, checkTransitDevice. eapply ends_in_bind; [apply Hopt|]. intros mc Hmc.
  eapply ends_in_bind; [apply Hopt|]. intros tc Htc. cbn.
  assert (∀ o ty, (∀ d, o = Some d → cd_Type d = ty) → ty ∈ [ConditionPortDevicesReady; ConditionMgmtDevicesReady; ConditionTransitDeviceReady] →
    Forall names_device (option_list o)) as Hfo.
  { intros [d|] ty H Hin; simpl; [|constructor]. constructor; [|constructor]. unfold names_device. by rewrite (H d eq_refl). }
  unfold checked_conditions. simpl. constructor; [unfold names_device; rewrite Hpc; set_solver|].
  apply Forall_app. split; [apply (Hfo _ _ Hmc) | apply (Hfo _ _ Htc)]; set_solver.
Qed.

(** ** Stats, in sequence *)
Definition stats_row (s : switchContext) (t : list SlotItem) (sid : Z) (row : PortStatsOutput) : Prop :=
  ∃ x, slot_at t sid = Some x ∧ IsSlotAllocated (si_InnerIp x) = true ∧ si_StatsReady x = 1 ∧
    (Z.land (sc_Features (sx_cfg s)) SwitchFPortUp ≠ 0 → Z.land (si_Flags x) PortFUp ≠ 0) ∧
    pt_Port row = sid + 1 ∧ pt_InnerIP row = ip_string (Uint32ToIP (si_InnerIp x)) ∧
    pt_Generation row = si_Generation x ∧
    pt_FloatingIP row = ip_string (Uint32ToIP (FloatingIPForAttachment (sc_FloatingIpBase (sx_cfg s)) sid (si_Generation x))).

Lemma wp_stats_ready s p x t (Q : bool → list SlotItem → Prop) :
  slot_at t p = Some x →
  Q (has_geneve_opts s && (negb (negb (Z.land (sc_Features (sx_cfg s)) SwitchFPortUp =? 0)) ||
       negb (Z.land (si_Flags x) PortFUp =? 0)) && (si_StatsReady x =? 1)) t →
  wp alone (stats_ready s p) Q t.
Proof.
  intros Hx HQ. unfold stats_ready. destruct (has_geneve_opts s); cbn [negb andb] in *; [|exact HQ].
  apply wp_bind. destruct (Z.land (sc_Features (sx_cfg s)) SwitchFPortUp =? 0); cbn [negb orb andb] in *.
  - cbn [wp]. apply wp_bind. eapply wp_load_slot_alone; [done|]. exact HQ.
  - apply wp_bind. eapply wp_load_slot_alone; [done|]. cbn [wp].
    destruct (Z.land (si_Flags x) PortFUp =? 0); cbn [negb andb] in *; [exact HQ|].
    apply wp_bind. eapply wp_load_slot_alone; [done|]. exact HQ.
Qed.

Lemma wp_slot_stats s t sid (Q : res PortStatsOutput → list SlotItem → Prop) :
  ctx_ok s t → 0 ≤ sid < sc_N_ports (sx_cfg s) →
  (∀ row, stats_row s t sid row → Q (Ok row) t) → (∀ e, Q (Err e) t) →
  wp alone (slot_stats s sid) Q t.
Proof.
  intros Hctx Hi Hok Herr. pose proof (ctx_num _ _ Hctx). pose proof (ctx_fit _ _ Hctx).
  pose proof (ctx_max _ _ Hctx) as Hmax. unfold MaxPorts in Hmax.
  destruct (slot_at_in t sid) as [x Hx]; [unfold in_slots; lia|].
  unfold slot_stats. cbv zeta. rewrite GetSlot_lt by lia. apply wp_bind. eapply wp_GetInnerIP; [lia|done|].
  destruct (IsSlotAllocated (si_InnerIp x)) eqn:Ha; cbn [negb]; [|apply Herr]. cbn [deref].
  apply wp_bind. eapply wp_stats_ready; [done|].
  destruct (has_geneve_opts s && _ && _) eqn:Hr; cbn [negb]; [|apply Herr].
  apply wp_mbind, wp_mwrap, wp_alone_kern_ret; [kern_ret| |intros e; apply Herr]. intros first. cbn [map_err].
  apply wp_bind. eapply wp_GetInnerIP; [lia|done|]. apply wp_bind. eapply wp_load_slot_alone; [done|].
  apply wp_mbind, wp_mwrap, wp_alone_kern_ret; [kern_ret| |intros e; apply Herr]. intros st. cbn [map_err].
  apply wp_bind. unfold stats_changed. cbv zeta. destruct (_ || _ || _); [apply Herr|].
  apply wp_bind. eapply wp_stats_ready; [done|]. rewrite Hr. cbn [negb].
  apply wp_bind. eapply wp_GetInnerIP; [lia|done|]. rewrite Z.eqb_refl. cbn [negb].
  apply wp_bind. eapply wp_load_slot_alone; [done|]. cbn [wp]. rewrite Z.eqb_refl. cbn [negb].
  pose proof (GetPortMAC_returns _ (sc_PortMac (sx_cfg s)) sid (ctx_mac _ _ Hctx)) as Hmac.
  apply wp_mbind. cbn [mpure wp]. destruct (GetPortMAC _ _ sid) as [mac|e| |]; try done.
  apply Hok. exists x. cbn [port_stats pt_Port pt_InnerIP pt_Generation pt_FloatingIP].
  rewrite u32_small by (unfold is_u32; lia). split_and!; try done; [lia|]. intros Hup Hdown.
  rewrite Hdown in Hr. destruct (Z.land (sc_Features (sx_cfg s)) SwitchFPortUp =? 0) eqn:E; [lia|].
  by destruct (has_geneve_opts s).
Qed.

Lemma wp_stats_loop s t ids (Q : res (list PortStatsOutput) → list SlotItem → Prop) :
  ctx_ok s t → Forall (λ i, 0 ≤ i < sc_N_ports (sx_cfg s)) ids →
  (∀ rows, Forall2 (stats_row s t) ids rows → Q (Ok rows) t) → (∀ e, Q (Err e) t) →
  wp alone (stats_loop s ids) Q t.
Proof.
  intros Hctx Hids. revert Q. induction Hids as [|sid ids Hsid _ IH]; intros Q Hok Herr; cbn [stats_loop].
  - apply Hok. constructor.
  - apply wp_mbind, wp_slot_stats; [done|done| |apply Herr]. intros row Hrow.
    apply wp_mbind, IH; [|apply Herr]. intros rows Hrows. apply Hok. by constructor.
Qed.

Lemma wp_allocated_slots numSlots m t : ∀ i (Q : list Z → list SlotItem → Prop),
  0 ≤ i → i + Z.of_nat m ≤ numSlots → i + Z.of_nat m ≤ Z.of_nat (length t) →
  (∀ ids, Forall (λ j, i ≤ j < i + Z.of_nat m) ids →
     (∀ j x, i ≤ j < i + Z.of_nat m → slot_at t j = Some x → (j ∈ ids ↔ IsSlotAllocated (si_InnerIp x) = true)) →
     Q ids t) →
  wp alone (allocated_slots m numSlots i) Q t.
Proof.
  induction m as [|m IH]; intros i Q Hi Hn Hlen HQ; cbn [allocated_slots].
  - apply HQ; [constructor|]. intros j x Hj. lia.
  - destruct (slot_at_in t i) as [x Hx]; [unfold in_slots; lia|].
    apply wp_bind. eapply wp_GetInnerIP; [lia|done|]. apply wp_bind. apply IH; [lia..|].
    intros ids Hids Hiff. cbn [wp]. apply HQ.
    + assert (Forall (λ j, i ≤ j < i + Z.of_nat (S m)) ids) as H by (eapply Forall_impl; [done|]; simpl; lia).
      destruct (IsSlotAllocated _); [constructor; [lia|done]|done].
    + intros j y Hj Hy. destruct (decide (j = i)) as [->|Hne].
      * assert (i ∉ ids) as Hni by (intros Hin; rewrite Forall_forall in Hids; specialize (Hids _ Hin); lia).
        rewrite Hx in Hy. simplify_eq. destruct (IsSlotAllocated (si_InnerIp y)); set_solver.
      * rewrite <-(Hiff j y) by first [lia | done]. destruct (IsSlotAllocated _); set_solver.
Qed.

Lemma validate_ports_returns n ports : returns (validate_ports n ports).
Proof. induction ports as [|p ports IH]; cbn [validate_ports]; [exact I|]. by destruct (_ || _). Qed.
Lemma validate_ports_ok n ports :
  n < 2 ^ 31 → Forall (λ p, p < 2 ^ 63) ports → validate_ports n ports = Ok tt → Forall (λ p, 1 ≤ p ≤ n) ports.
Proof.
  intros Hn Hint. induction Hint as [|p ports Hp _ IH]; [constructor|]. simpl.
  destruct ((p <? 1) || (n <? u64 p)) eqn:E; [done|]. intros H. constructor; [|by apply IH].
  apply orb_false_iff in E as [E1 E2]. rewrite u64_small in E2 by (unfold is_u64; lia). lia.
Qed.

(** The slots a call reports on: the ports asked for, or every attached one. *)
Definition stats_slots (s : switchContext) (ports : list Z) (t : list SlotItem) (ids : list Z) : Prop :=
  match ports with
  | [] => ∀ j x, 0 ≤ j < sc_N_ports (sx_cfg s) → slot_at t j = Some x →
            (j ∈ ids ↔ IsSlotAllocated (si_InnerIp x) = true)
  | _ => ids = map (λ p, p - 1) ports
  end.
Definition stats_post (s : switchContext) (ports : list Z) (t : list SlotItem) (r : res StatsOutput) (t' : list SlotItem) : Prop :=
  t' = t ∧
  match r with
  | Ok out => ∃ ids, stats_slots s ports t ids ∧ Forall2 (stats_row s t) ids (so_Ports out)
  | Err _ => True
  | _ => False
  end.

(** C30: [Stats] on a quiet switch, for every answer of the kernel: it never
    changes the table, and when it succeeds it has one row for each port asked
    for, in that order, or exactly one for each attached port when none was
    named.  Each row is about an attached port whose counters are confirmed
    ready and which is up, and carries that slot's own address, generation and
    floating address. *)
Theorem Stats_spec s ports t :
  ctx_ok s t → Forall (λ p, p < 2 ^ 63) ports → wp alone (Stats s ports) (stats_post s ports t) t.
Proof.
  intros Hctx Hint. pose proof (ctx_num _ _ Hctx) as Hnum. pose proof (ctx_pos _ _ Hctx) as Hpos.
  pose proof (ctx_fit _ _ Hctx) as Hfit. pose proof (ctx_max _ _ Hctx) as Hmax. unfold MaxPorts in Hmax.
  assert (Herr : ∀ e, stats_post s ports t (Err e) t) by by split.
  unfold Stats. apply wp_mbind. cbn [mpure wp]. pose proof (validate_ports_returns (sc_N_ports (sx_cfg s)) ports) as Hr.
  destruct (validate_ports _ ports) as [[]|e| |] eqn:Hv; try done. apply validate_ports_ok in Hv; [|lia|done].
  unfold with_lock. apply wp_mbind, wp_alone_kern_ret; [apply acquireStatsLock_kern_ret| |done]. intros lock.
  apply wp_alone_defer; [apply ReleaseLock_kern_only|]. unfold stats_body.
  assert (Hrest : ∀ ids, Forall (λ i, 0 ≤ i < sc_N_ports (sx_cfg s)) ids → stats_slots s ports t ids →
    wp alone (let* rows := stats_loop s ids in
              let* _ := mwrap unavailable (verifyCurrentSwitch s) in
              mok (MkStatsOutput (sx_name s) rows)) (stats_post s ports t) t).
  { intros ids Hids Hslots. apply wp_mbind, wp_stats_loop; [done|done| |done]. intros rows Hrows.
    apply wp_mbind, wp_mwrap, wp_alone_kern_ret; [apply verifyCurrentSwitch_kern_ret| |done].
    intros []. cbn [map_err mok wp]. split; [done|]. eauto. }
  apply wp_bind. destruct ports as [|p ports].
  - apply wp_allocated_slots; [lia..|]. intros ids Hids Hiff. apply Hrest.
    + eapply Forall_impl; [done|]. simpl. lia.
    + intros j x Hj. apply Hiff. lia.
  - cbn [wp]. assert (map (λ q, u32 (q - 1)) (p :: ports) = map (λ q, q - 1) (p :: ports)) as Hmap.
    { apply map_ext_Forall. eapply Forall_impl; [done|]. intros q Hq. simpl in Hq. apply u32_small. unfold is_u32. lia. }
    apply Hrest; rewrite Hmap; [|done]. apply Forall_forall. intros i (q & <- & Hq)%list_elem_of_In%in_map_iff.
    rewrite Forall_forall in Hv. apply list_elem_of_In in Hq. specialize (Hv _ Hq). lia.
Qed.

Lemma Stats_spec_witness : wp alone (Stats ex_switch [2]) (stats_post ex_switch [2] ex_table) ex_table.
Proof. apply Stats_spec; [apply ex_switch_ok|]. repeat constructor; lia. Defined.

(** ** A re-attachment during the read

    A kernel that keeps the counters, and lets the lock and the check of the
    pinned map succeed. *)
#[export] Instance counters_kernel : Kernel (gmap Z SlotStats) := λ B e k,
  match e in kev B return B * gmap Z SlotStats with
  | MapShape _ => ((3, 104, 4), k)
  | Statfs _ => (inl BPF_FS_MAGIC, k)
  | OsOpen _ => (inl 50, k)
  | Flock _ _ => (inl tt, k)
  | LoadPinnedMap _ => (inl 51, k)
  | MapID _ => (inl (Some 9), k)
  | CloseMap _ => (inl tt, k)
  | MapLookup m key _ =>
      match m in bmap K V return K → ans V * gmap Z SlotStats with
      | MStats => λ key, (match k !! key with Some v => inl v | None => refused end, k)
      | _ => λ _, (refused, k)
      end key
  | MapUpdate m key v _ =>
      match m in bmap K V return K → V → ans unit * gmap Z SlotStats with
      | MStats => λ key v, (inl tt, <[key := v]> k)
      | _ => λ _ _, (inl tt, k)
      end key v
  | e => (refuse e, k)
  end.

Definition old_counters : SlotStats := MkSlotStats 5 1000 64000 1000 64000 0 0 0 0.
Definition up_table : list SlotItem :=
  <[1%nat := write_all [WFlags PortFUp; WStatsReady 1] (slot_with_ip 167772161)]> ex_table.
(** One process asks for the counters of port 2; another detaches that port
    and attaches a sandbox with another address to it. *)
Definition reader : prog (option (res StatsOutput)) := let~ r := Stats ex_switch [2] in Ret (Some r).
Definition churner : prog (option (res StatsOutput)) :=
  let~ _ := Detach ex_switch (MkDetachOptions 2 "" true) in
  let~ _ := Attach ex_switch (ex_attach 2) in
  Ret None.
Definition race_run (sched : list nat) : list (prog (option (res StatsOutput))) * world (gmap Z SlotStats) :=
  pool_run sched [reader; churner] (MkWorld up_table {[ 1 := old_counters ]}).

Definition row_of (ps : list (prog (option (res StatsOutput)))) : option (string * Z) :=
  match ps !! 0%nat with
  | Some (Ret (Some (Ok out))) =>
      match so_Ports out with [row] => Some (pt_InnerIP row, pt_MgmtRxPackets row) | _ => None end
  | _ => None
  end.

(** The reader looks at the slot between the moment the new attachment has
    published its address and generation and the moment it resets the
    counters: both counter reads see the old generation, and the final checks
    see the completed new attachment. *)
Definition race_schedule : list nat :=
  replicate 11 0%nat ++ replicate 20 1%nat ++ replicate 3 0%nat ++ replicate 60 1%nat ++ replicate 60 0%nat.

(** [Stats] can report the new attachment's address with the counters of the
    attachment that was there before, although the new one's were reset. *)
Lemma Stats_misattributes :
  rtc pool_step ([reader; churner], up_table)
    ((race_run race_schedule).1, w_slots (race_run race_schedule).2) ∧
  row_of (race_run race_schedule).1 = Some ("10.0.0.7", 1000) ∧
  (λ st, (st_Generation st, st_MgmtRxPackets st)) <$> w_kern (race_run race_schedule).2 !! 1 = Some (6, 0).
Proof.
  split; [apply (pool_run_sound _ _ (MkWorld up_table {[ 1 := old_counters ]}))|]. split; by vm_compute.
Qed.

Lemma checkPortDevices_kern_only ps m : kern_only (checkPortDevices ps m).
Proof. unfold checkPortDevices, HasBlockFilter, has_filter_at. destruct ps; kern_only. Qed.
#[local] Hint Resolve checkPortDevices_kern_only : kern_only.
Lemma check_devices_kern_ret map_range p : kern_ret (check_devices map_range p).
Proof. unfold check_devices, LinkList, checkMgmtDevices, checkTransitDevice. kern_ret. Qed.

Lemma wp_Status map_range s t :
  ctx_ok s t →
  wp alone (Status map_range s) (λ r t', t' = t ∧
    match r with
    | Ok out => ss_PortsUsed out + ss_PortsAvailable out + ss_PortsReserved out = ss_Ports out ∧
        ss_Ports out = sc_N_ports (sx_cfg s) ∧
        ss_PortsUsed out = ip_count IsSlotAllocated (sc_N_ports (sx_cfg s)) t ∧
        ss_PortsReserved out = reserved_count (sc_N_ports (sx_cfg s)) t
    | Err _ => True
    | _ => False
    end) t.
Proof.
  intros Hctx. pose proof (ctx_num _ _ Hctx) as Hnum. pose proof (ctx_pos _ _ Hctx) as Hpos.
  pose proof (ctx_fit _ _ Hctx) as Hfit. set (n := sc_N_ports (sx_cfg s)) in *.
  unfold Status. rewrite Hnum. unfold CountAllocatedSlots, CountReservedSlots, CountFreeSlots.
  do 3 (apply wp_bind, wp_count_slots; [lia..|by unfold ip_count|]).
  pose proof (ip_count_split n t ltac:(lia)) as Hsum.
  assert (Hok : ∀ cs, let out := status_of s (ip_count IsSlotAllocated n t) (ip_count (Z.eqb InnerIPReserved) n t)
    (ip_count (Z.eqb InnerIPFree) n t) cs in
    ss_PortsUsed out + ss_PortsAvailable out + ss_PortsReserved out = ss_Ports out ∧ ss_Ports out = n ∧
    ss_PortsUsed out = ip_count IsSlotAllocated n t ∧ ss_PortsReserved out = reserved_count n t).
  { intros cs. cbn [status_of ss_PortsUsed ss_PortsAvailable ss_PortsReserved ss_Ports]. fold n.
    unfold reserved_count. split_and!; [lia|done..]. }
  cbv zeta. case_bool_decide; [by split; [done|apply Hok]|].
  apply wp_bind, wp_alone_kern_ret; [kern_ret| |intros e; by split; [done|apply Hok]].
  intros ns. apply wp_alone_defer; [kern_only|].
  apply wp_mbind, wp_mwrap. fold n. unfold checkConditions. apply wp_mbind.
  eapply wp_mono with (Q := λ r t', t' = t ∧ ∃ p, r = Ok p).
  { unfold buildPortsToCheck.
    assert (∀ m i acc, 0 ≤ i → i + Z.of_nat m = n →
      wp alone (build_ports_loop m (Some n) i acc) (λ r t', t' = t ∧ ∃ p, r = Ok p) t) as Hloop.
    { induction m as [|m IH]; intros i acc Hi Hm; cbn [build_ports_loop]; [split; [done|by eexists]|].
      destruct (slot_at_in t i) as [x Hx]; [unfold in_slots; lia|].
      apply wp_bind. eapply wp_GetInnerIP; [lia|done|]. destruct (_ =? InnerIPReserved); [apply IH; lia|].
      unfold read_slot. rewrite GetSlot_lt by lia. cbn [deref]. apply wp_bind.
      eapply wp_load_slot_alone; [done|]. apply IH; lia. }
    apply Hloop; lia. }
  intros r t' [-> [p ->]]. apply wp_bind. unfold CountReservedSlots.
  apply wp_count_slots; [lia..|by unfold ip_count|]. apply wp_mbind, wp_mwrap.
  apply wp_alone_kern_ret; [|intros c; by split; [done|apply Hok]|by split].
  apply Do_kern_ret, check_devices_kern_ret.
Qed.

(** [Status] on a quiet switch, for every answer of the kernel: it never
    changes the table, and when it succeeds the used, available and reserved
    ports it reports are the attached, free and reserved slots and add up to
    the number of ports. *)
Theorem Status_spec map_range s t :
  ctx_ok s t →
  wp alone (Status map_range s) (λ r t', t' = t ∧
    match r with
    | Ok out => ss_PortsUsed out + ss_PortsAvailable out + ss_PortsReserved out = ss_Ports out ∧
        ss_Ports out = sc_N_ports (sx_cfg s) ∧
        ss_PortsUsed out = ip_count IsSlotAllocated (sc_N_ports (sx_cfg s)) t ∧
        ss_PortsReserved out = reserved_count (sc_N_ports (sx_cfg s)) t
    | Err _ => True
    | _ => False
    end) t.
Proof. apply wp_Status. Qed.

Lemma Status_spec_witness :
  ctx_ok ex_switch ex_table ∧
  wp alone (Status elements ex_switch) (λ r t', t' = ex_table ∧
    match r with
    | Ok out => ss_PortsUsed out + ss_PortsAvailable out + ss_PortsReserved out = ss_Ports out ∧
        ss_Ports out = 4 ∧ ss_PortsUsed out = ip_count IsSlotAllocated 4 ex_table ∧
        ss_PortsReserved out = reserved_count 4 ex_table
    | Err _ => True
    | _ => False
    end) ex_table.
Proof. split; [apply ex_switch_ok|]. apply (Status_spec elements ex_switch ex_table), ex_switch_ok. Defined.
