(* ===== verification/Dhcp.v ===== *)
(** * DHCP: pkg/dhcp/client.go and pkg/dhcp/server.go

    The client asks for a lease on the transit device, with retries; the server
    hands out addresses from a range.  Durations are nanoseconds, as in Go.
    The DHCP packets are built and sent by a package outside the repository:
    the client's calls are events of [Prog], the server's reply constructor is
    a parameter. *)
From S2P Require Import Prelude Errors GoStrings GoTime GoNet BpfTypes Prog.

(** ** Leases

    [AcquiredAt] is left out: nothing reads it. *)
Record Lease := MkLease {
  ls_IP : IP; ls_Netmask : list Z; ls_PrefixLen : Z; ls_Gateway : IP; ls_DNSServers : list IP;
  ls_LeaseTime : Z; ls_ServerID : IP;
}.
Record LeaseOutput := MkLeaseOutput {
  lo_Interface : string; lo_IP : string; lo_Netmask : string; lo_PrefixLen : Z; lo_CIDR : string;
  lo_Gateway : string; lo_DNSServers : list string; lo_LeaseTimeSeconds : Z; lo_ServerID : string;
}.
Record RequestOptions := MkRequestOptions { rq_Interface : string; rq_Timeout : Z; rq_Retries : Z }.
Definition DefaultOptions : RequestOptions := MkRequestOptions "" (5 * Second) 3.

Definition parseLease (ack : option DhcpAck) : res Lease :=
  match ack with
  | None => Err (errorf "no DHCP ACK received")
  | Some a =>
      let '(mask, prefix) := match dk_SubnetMask a with
                             | Some m => (m, mask_ones m)
                             | None => (CIDRMask 24 32, 24)
                             end in
      Ok (MkLease (dk_YourIPAddr a) mask prefix
            (match dk_Router a with r :: _ => r | [] => None end)
            (dk_DNS a)
            (if 0 <? dk_LeaseTime a then dk_LeaseTime a else 0)
            (dk_ServerIdentifier a))
  end.

(** [int64(d.Seconds())] rounds through a float64; for the whole seconds a
    lease time is made of this is the quotient. *)
Definition Lease_ToOutput (l : Lease) (ifaceName : string) : LeaseOutput :=
  let opt (ip : IP) := match ip with None => "" | _ => ip_string ip end in
  MkLeaseOutput ifaceName (ip_string (ls_IP l)) (ip_string (Some (ls_Netmask l))) (ls_PrefixLen l)
    (ip_string (ls_IP l) +:+ "/" +:+ fmt_d (ls_PrefixLen l)) (opt (ls_Gateway l))
    (map ip_string (ls_DNSServers l)) (Z.quot (ls_LeaseTime l) Second) (opt (ls_ServerID l)).

(** [gateway[len(gateway)-1]++] on a byte slice. *)
Fixpoint inc_last (l : list Z) : res (list Z) :=
  match l with
  | [] => Panic
  | [b] => Ok [u8 (b + 1)]
  | b :: l => let! l := inc_last l in Ok (b :: l)
  end.

Definition Lease_ToTransitConfig (l : Lease) : res (IPNet * IP * bool) :=
  let ipnet := MkIPNet (ls_IP l) (ls_Netmask l) in
  match ls_Gateway l with
  | None =>
      let! gateway := inc_last (ip_bytes (IP_Mask (ls_IP l) (ls_Netmask l))) in
      Ok (ipnet, Some gateway, true)
  | Some gw => Ok (ipnet, Some gw, false)
  end.

(** ** The client *)
Definition doRequest (iface : string) (timeout : Z) : M Lease :=
  let* client := mwrap (λ e, errorw ("failed to create DHCP client on " +:+ iface +:+ ": ") e "")
                       (call (DhcpNewClient iface timeout)) in
  with_defer (kern (DhcpClientClose client))
    (let* ack := mwrap (λ e, errorw "DHCP request failed: " e "") (call (DhcpRequest client)) in
     mpure (parseLease ack)).

(** [n] attempts are left; [lastErr] is nil before the first. *)
Fixpoint request_loop (n : nat) (attempt : Z) (opts : RequestOptions) (lastErr : option error) : M Lease :=
  match n with
  | O =>
      let pre := "DHCP request failed after " +:+ fmt_d (rq_Retries opts + 1) +:+ " attempts: " in
      merr match lastErr with
           | Some e => errorw pre e ""
           | None => errorf (pre +:+ "%!w(<nil>)")
           end
  | S n =>
      let~ stop := if 0 <? attempt then kern SleepOrDone else Ret None in
      match stop with
      | Some e => merr e
      | None =>
          let~ r := doRequest (rq_Interface opts) (rq_Timeout opts) in
          match r with
          | Err e =>
              let~ c := kern CtxErr in
              match c with
              | Some ce => merr ce
              | None => request_loop n (attempt + 1) opts (Some e)
              end
          | r => Ret r
          end
      end
  end.

Definition request_defaults (opts : RequestOptions) : RequestOptions :=
  MkRequestOptions (rq_Interface opts) (if rq_Timeout opts =? 0 then 5 * Second else rq_Timeout opts)
    (if rq_Retries opts =? 0 then 3 else rq_Retries opts).

Definition Request (opts : RequestOptions) : M Lease :=
  if bool_decide (rq_Interface opts = "") then merr (errorf "interface name is required")
  else
    let opts := request_defaults opts in
    let* _ := mwrap (λ e, errorw ("failed to get interface " +:+ rq_Interface opts +:+ ": ") e "")
                    (call (NetInterfaceByName (rq_Interface opts))) in
    request_loop (Z.to_nat (rq_Retries opts + 1)) 0 opts None.

(** ** The server's address pool *)
Definition ip4ToUint32 (ip : IP) : Z :=
  match ip with Some [a; b; c; d] => be32 a b c d | _ => 0 end.
Definition uint32ToIP4 (n : Z) : IP :=
  Some [u8 (Z.shiftr n 24); u8 (Z.shiftr n 16); u8 (Z.shiftr n 8); u8 n].

Record ipPool := MkIpPool { ip_start : Z; ip_end : Z; ip_next : Z; ip_leases : gmap string IP }.

Definition newIPPool (start end_ : IP) : res ipPool :=
  let s := ip4ToUint32 (To4 start) in
  let e := ip4ToUint32 (To4 end_) in
  if (s =? 0) || (e =? 0)
  then Err (errorf ("invalid IP range: start=" +:+ ip_string start +:+ ", end=" +:+ ip_string end_))
  else if e <? s
  then Err (errorf ("pool start " +:+ ip_string start +:+ " is greater than end " +:+ ip_string end_))
  else Ok (MkIpPool s e s ∅).

Definition pool_exhausted : error := errorf "IP pool exhausted".

(** One call under the pool's mutex. *)
Definition Allocate (p : ipPool) (mac : HardwareAddr) : res IP * ipPool :=
  let macStr := mac_string mac in
  match ip_leases p !! macStr with
  | Some ip => (Ok ip, p)
  | None =>
      if ip_end p <? ip_next p then (Err pool_exhausted, p)
      else
        let ip := uint32ToIP4 (ip_next p) in
        (Ok ip, MkIpPool (ip_start p) (ip_end p) (u32 (ip_next p + 1)) (<[macStr := ip]> (ip_leases p)))
  end.

(** ** The server *)
Record ServerConfig := MkServerConfig {
  sv_Interface : string; sv_ServerIP : IP; sv_PoolStart : IP; sv_PoolEnd : IP; sv_Netmask : option (list Z);
  sv_Gateway : IP; sv_DNS : list IP; sv_LeaseTime : Z; sv_Port : Z;
}.

(** What the mutex [lifecycleMu] protects: the published listener and whether
    the server was closed (and [done] with it). *)
Record Server := MkServer { sr_cfg : ServerConfig; sr_pool : ipPool; sr_server : option Z; sr_closed : bool }.

Definition server_defaults (c : ServerConfig) : ServerConfig :=
  MkServerConfig (sv_Interface c) (sv_ServerIP c) (sv_PoolStart c) (sv_PoolEnd c)
    (match sv_Netmask c with None => Some (CIDRMask 24 32) | m => m end)
    (match sv_Gateway c with None => sv_ServerIP c | g => g end) (sv_DNS c)
    (if sv_LeaseTime c =? 0 then Hour else sv_LeaseTime c) (if sv_Port c =? 0 then 67 else sv_Port c).

Definition NewServer (c : ServerConfig) : res Server :=
  if bool_decide (sv_Interface c = "") then Err (errorf "interface is required")
  else if bool_decide (sv_ServerIP c = None) then Err (errorf "server IP is required")
  else if bool_decide (sv_PoolStart c = None) || bool_decide (sv_PoolEnd c = None)
  then Err (errorf "IP pool range is required")
  else
    let c := server_defaults c in
    let! pool := map_err (λ e, errorw "failed to create IP pool: " e "") (newIPPool (sv_PoolStart c) (sv_PoolEnd c)) in
    Ok (MkServer c pool None false).

(** [Serve] up to the publication of the listener: [newServer4] is what the
    constructor of the listener answers.  [Ok None] is the early return of a
    closed server, [Ok (Some l)] goes on to serve on [l]. *)
Definition Serve_open (s : Server) (newServer4 : ans Z) : res (option Z) * Server :=
  if sr_closed s then (Ok None, s)
  else match newServer4 with
       | inr e => (Err (errorw "failed to create server: " e ""), s)
       | inl l => (Ok (Some l), MkServer (sr_cfg s) (sr_pool s) (Some l) (sr_closed s))
       end.
(** [Close], with the listener it goes on to close. *)
Definition Server_Close (s : Server) : option Z * Server :=
  if sr_closed s then (None, s)
  else (sr_server s, MkServer (sr_cfg s) (sr_pool s) (sr_server s) true).

(** A received message, as far as the server looks at it. *)
Record DhcpMsg := MkDhcpMsg {
  dm_MessageType : Z; dm_ClientHWAddr : HardwareAddr; dm_RequestedIPAddress : IP;
  dm_ClientIPAddr : IP; dm_GatewayIPAddr : IP;
}.
Definition MessageTypeDiscover : Z := 1.
Definition MessageTypeOffer : Z := 2.
Definition MessageTypeRequest : Z := 3.
Definition MessageTypeAck : Z := 5.
Definition MessageTypeNak : Z := 6.

Inductive Modifier :=
  | WithMessageType (t : Z)
  | WithServerIP (ip : IP)
  | WithYourIP (ip : IP)
  | OptSubnetMask (m : option (list Z))
  | OptRouter (ip : IP)
  | OptServerIdentifier (ip : IP)
  | OptIPAddressLeaseTime (t : Z)
  | OptDNS (ips : list IP).

Section Server.
Context {Reply : Type} (NewReplyFromRequest : DhcpMsg → list Modifier → ans (option Reply)).

Definition response_modifiers (c : ServerConfig) (msgType : Z) (ip : IP) : list Modifier :=
  [WithMessageType msgType; WithServerIP (sv_ServerIP c); WithYourIP ip; OptSubnetMask (sv_Netmask c);
   OptRouter (sv_Gateway c); OptServerIdentifier (sv_ServerIP c); OptIPAddressLeaseTime (sv_LeaseTime c)]
  ++ match sv_DNS c with [] => [] | dns => [OptDNS dns] end.
Definition buildResponse (s : Server) (m : DhcpMsg) (msgType : Z) (ip : IP) : res (option Reply) :=
  of_ans (NewReplyFromRequest m (response_modifiers (sr_cfg s) msgType ip)).
Definition buildNAK (s : Server) (m : DhcpMsg) : res (option Reply) :=
  of_ans (NewReplyFromRequest m [WithMessageType MessageTypeNak; WithServerIP (sv_ServerIP (sr_cfg s));
    OptServerIdentifier (sv_ServerIP (sr_cfg s))]).

Definition with_pool (s : Server) (p : ipPool) : Server := MkServer (sr_cfg s) p (sr_server s) (sr_closed s).

Definition handleDiscover (s : Server) (m : DhcpMsg) : res (option Reply) * Server :=
  let '(r, p) := Allocate (sr_pool s) (dm_ClientHWAddr m) in
  ((let! ip := r in buildResponse s m MessageTypeOffer ip), with_pool s p).

(** The address the client asks for: the option, or the address it has. *)
Definition requested_ip (m : DhcpMsg) : IP :=
  if bool_decide (dm_RequestedIPAddress m = None) || IP_IsUnspecified (dm_RequestedIPAddress m)
  then dm_ClientIPAddr m else dm_RequestedIPAddress m.

Definition handleRequest (s : Server) (m : DhcpMsg) : res (option Reply) * Server :=
  let requestedIP := requested_ip m in
  let '(r, p) := Allocate (sr_pool s) (dm_ClientHWAddr m) in
  ((let! ip := r in
    if negb (bool_decide (requestedIP = None)) && negb (IP_IsUnspecified requestedIP)
       && negb (IP_Equal requestedIP ip)
    then buildNAK s m else buildResponse s m MessageTypeAck ip), with_pool s p).

(** Where the reply goes: to the relay, to the client, or broadcast. *)
Definition reply_dest (m : DhcpMsg) : IP * Z :=
  if negb (bool_decide (dm_GatewayIPAddr m = None)) && negb (IP_IsUnspecified (dm_GatewayIPAddr m))
  then (dm_GatewayIPAddr m, 67)
  else if negb (bool_decide (dm_ClientIPAddr m = None)) && negb (IP_IsUnspecified (dm_ClientIPAddr m))
  then (dm_ClientIPAddr m, 68)
  else (IPv4 255 255 255 255, 68).

(** [handler] with the packet it writes, if any; a nil message is ignored. *)
Definition handler (s : Server) (m : option DhcpMsg) : option (Reply * (IP * Z)) * Server :=
  match m with
  | None => (None, s)
  | Some m =>
      if (dm_MessageType m =? MessageTypeDiscover) || (dm_MessageType m =? MessageTypeRequest) then
        let '(r, s) := if dm_MessageType m =? MessageTypeDiscover then handleDiscover s m else handleRequest s m in
        (match r with Ok (Some resp) => Some (resp, reply_dest m) | _ => None end, s)
      else (None, s)
  end.

(** The packets written while a list of messages is handled. *)
Fixpoint serve_all (s : Server) (ms : list (option DhcpMsg)) : list (Reply * (IP * Z)) * Server :=
  match ms with
  | [] => ([], s)
  | m :: ms =>
      let '(r, s) := handler s m in
      let '(rs, s) := serve_all s ms in
      (option_list r ++ rs, s)
  end.
End Server.

(** ** The range of cmd/connector-ctl/dhcp_serve.go *)
Definition parse_pool_end (what part : string) : res IP :=
  match ParseIP (trim_space part) with
  | None => Err (errorf ("invalid pool " +:+ what +:+ " IP: " +:+ part))
  | ip => match To4 ip with
          | None => Err (errorf ("pool " +:+ what +:+ " must be IPv4: " +:+ part))
          | ip4 => Ok ip4
          end
  end.
Definition parsePoolRange (pool : string) : res (IP * IP) :=
  match split_on "-" pool with
  | [a; b] =>
      let! start := parse_pool_end "start" a in
      let! end_ := parse_pool_end "end" b in
      Ok (start, end_)
  | _ => Err (errorf ("pool must be in format START-END, got: " +:+ pool))
  end.
