(* ===== verification/DhcpSpec.v ===== *)
(** * What the DHCP client and server promise

    The client opens at most one socket per attempt and closes each; the
    server never gives one address to two clients. *)
From S2P Require Import Prelude Errors GoStrings GoNet BpfTypes Prog Dhcp.

(** ** The client *)

(** [client_sem] counts the sockets opened and keeps those still open. *)
Definition client_sem : sem (nat * gset Z) :=
  MkSem (λ _ _ _, True)
    (λ B e s b s',
       match e in ev B return B → Prop with
       | EKern q =>
           match q in kev B return B → Prop with
           | DhcpNewClient _ _ => λ b, match b with
                                       | inl c => c ∉ s.2 ∧ s' = (S s.1, {[ c ]} ∪ s.2)
                                       | inr _ => s' = s
                                       end
           | DhcpClientClose c => λ _, s' = (s.1, s.2 ∖ {[ c ]})
           | _ => λ _, s' = s
           end
       | _ => λ _, s' = s
       end b).

Lemma parseLease_returns a : returns (parseLease a).
Proof. unfold parseLease. destruct a as [a|]; [|done]. by destruct (dk_SubnetMask a). Qed.

Lemma wp_doRequest iface timeout n (Q : res Lease → nat * gset Z → Prop) :
  (∀ r k, (k ≤ S n)%nat → returns r → Q r (k, ∅)) →
  wp client_sem (doRequest iface timeout) Q (n, ∅).
Proof.
  intros HQ. unfold doRequest. apply wp_mbind, wp_mwrap, wp_call; [done| |].
  - intros c s' [_ ->]. cbn [fst snd map_err]. unfold with_defer. apply wp_bind, wp_mbind, wp_mwrap.
    assert (Hclose : ∀ r, returns r → wp client_sem (pbind (kern (DhcpClientClose c)) (λ _, Ret r)) Q (S n, {[c]} ∪ ∅)).
    { intros r Hr. split; [done|]. intros b s' ->. cbn. replace (({[c]} ∪ ∅) ∖ {[c]}) with (∅ : gset Z) by set_solver.
      by apply HQ. }
    apply wp_call; [done| |]; intros a s' ->; cbn [map_err]; [|by apply Hclose].
    pose proof (parseLease_returns a) as Hr. apply Hclose, Hr.
  - intros e s' ->. apply HQ; [lia|done].
Qed.

Lemma wp_request_loop n attempt opts lastErr k (Q : res Lease → nat * gset Z → Prop) :
  (∀ r k', (k' ≤ k + n)%nat → returns r → Q r (k', ∅)) →
  wp client_sem (request_loop n attempt opts lastErr) Q (k, ∅).
Proof.
  revert attempt lastErr k Q. induction n as [|n IH]; intros attempt lastErr k Q HQ; cbn [request_loop].
  - apply HQ; [lia|done].
  - apply wp_bind. eapply (wp_mono _ _ (λ _ s, s = (k, ∅))).
    { destruct (0 <? attempt); [|done]. split; [done|]. by intros b s' ->. }
    intros stop s ->. destruct stop as [e|]; [apply HQ; [lia|done]|].
    apply wp_bind, wp_doRequest. intros r k' Hk Hr. destruct r as [l|e| |]; try done.
    + apply HQ; [lia|done].
    + apply wp_bind. split; [done|]. intros c s' ->. destruct c as [ce|]; [apply HQ; [lia|done]|].
      apply IH. intros r' k'' Hk' Hr'. apply HQ; [lia|done].
Qed.

(** Bounded retries.  Whatever the network answers, a DHCP request opens at
    most [Retries + 1] clients (with [Retries] defaulted), has closed every one
    of them when it comes back, and comes back with a lease or an error. *)
Theorem Request_bounded opts :
  wp client_sem (Request opts)
    (λ r s, (s.1 ≤ Z.to_nat (rq_Retries (request_defaults opts) + 1))%nat ∧ s.2 = ∅ ∧ returns r) (O, ∅).
Proof.
  unfold Request. case_bool_decide; [split_and!; [simpl; lia|done..]|].
  apply wp_mbind, wp_mwrap, wp_call; [done| |]; intros a s' ->; [|split_and!; [simpl; lia|done..]].
  apply wp_request_loop. intros r k Hk Hr. by split_and!.
Qed.

(** ** The pool *)

(** The clients in the order in which they were first seen. *)
Definition see (acc : list HardwareAddr) (m : HardwareAddr) : list HardwareAddr :=
  if decide (m ∈ acc) then acc else acc ++ [m].
Definition seen (ms : list HardwareAddr) : list HardwareAddr := fold_left see ms [].
Definition allocate_all (p : ipPool) (ms : list HardwareAddr) : ipPool :=
  fold_left (λ p m, (Allocate p m).2) ms p.

(** The address of the [i]-th client of a range. *)
Definition nth_address (start end_ : Z) (i : nat) : option IP :=
  if start + Z.of_nat i <=? end_ then Some (uint32ToIP4 (start + Z.of_nat i)) else None.

Lemma fmt_02x_split b : is_u8 b → ∃ x y, fmt_02x b = String x (String y "") ∧ xtoi2 x y = Some b.
Proof.
  intros Hb.
  assert (forallb (λ n, match fmt_02x (Z.of_nat n) with
                        | String x (String y "") => bool_decide (xtoi2 x y = Some (Z.of_nat n))
                        | _ => false end) (seq 0 256) = true) as H by (vm_compute; reflexivity).
  rewrite forallb_forall in H. specialize (H (Z.to_nat b)).
  rewrite Z2Nat.id in H by (unfold is_u8 in Hb; lia).
  assert (In (Z.to_nat b) (seq 0 256)) as Hin by (apply in_seq; unfold is_u8 in Hb; lia).
  specialize (H Hin). destruct (fmt_02x b) as [|x [|y []]]; try done.
  apply bool_decide_eq_true in H. eauto.
Qed.

Lemma mac_string_inj m1 m2 :
  Forall is_u8 m1 → Forall is_u8 m2 → mac_string m1 = mac_string m2 → m1 = m2.
Proof.
  unfold mac_string. intros H1. revert m2.
  induction H1 as [|a m1 Ha H1 IH]; intros m2 H2 E.
  - destruct H2 as [|b m2 Hb H2]; [done|]. destruct (fmt_02x_split b Hb) as (x & y & Ef & _).
    simpl in E. rewrite Ef in E. by destruct m2.
  - destruct H2 as [|b m2 Hb H2].
    { destruct (fmt_02x_split a Ha) as (x & y & Ef & _). simpl in E. rewrite Ef in E. by destruct m1. }
    destruct (fmt_02x_split a Ha) as (x & y & Ea & Xa), (fmt_02x_split b Hb) as (x' & y' & Eb & Xb).
    simpl in E. rewrite Ea, Eb in E.
    destruct m1 as [|a' m1], m2 as [|b' m2]; simpl in E; try done.
    + injection E as -> ->. by simplify_eq.
    + injection E as -> -> E. simplify_eq. f_equal. by apply IH.
Qed.

Lemma uint32ToIP4_inj a b : is_u32 a → is_u32 b → uint32ToIP4 a = uint32ToIP4 b → a = b.
Proof.
  intros Ha Hb E. rewrite <-(be32_split a), <-(be32_split b) by done. unfold uint32ToIP4 in E. injection E as E1 E2 E3 E4. by rewrite E1, E2, E3, E4.
Qed.

Lemma seen_NoDup ms : NoDup (seen ms).
Proof.
  unfold seen. assert (∀ acc, NoDup acc → NoDup (fold_left see ms acc)) as H; [|apply H; constructor].
  induction ms as [|m ms IH]; intros acc Hacc; [done|]. apply IH. unfold see.
  destruct (decide (m ∈ acc)); [done|]. apply NoDup_app. split_and!; [done| |apply NoDup_singleton].
  intros x Hx Hm. apply list_elem_of_singleton in Hm. by subst.
Qed.
Lemma seen_snoc ms m : seen (ms ++ [m]) = see (seen ms) m.
Proof. unfold seen. by rewrite fold_left_app. Qed.
Lemma seen_bytes ms : Forall (Forall is_u8) ms → Forall (Forall is_u8) (seen ms).
Proof.
  induction ms as [|m ms IH] using rev_ind; [constructor|]. rewrite seen_snoc. intros [Hms Hm]%Forall_app.
  unfold see. destruct (decide _); [by apply IH|]. apply Forall_app. split; [by apply IH|done].
Qed.

(** The pool after the clients [acc] were seen. *)
Record pool_at (start end_ : Z) (acc : list HardwareAddr) (p : ipPool) : Prop := {
  pa_start : ip_start p = start;
  pa_end : ip_end p = end_;
  pa_next : ip_next p = start + Z.min (Z.of_nat (length acc)) (end_ - start + 1);
  pa_lease : ∀ i m, acc !! i = Some m → ip_leases p !! mac_string m = nth_address start end_ i;
  pa_other : ∀ m, Forall is_u8 m → m ∉ acc → ip_leases p !! mac_string m = None;
}.

Lemma newIPPool_at s e p :
  ip_ok s → ip_ok e → newIPPool s e = Ok p →
  pool_at (ip_start p) (ip_end p) [] p ∧ 0 < ip_start p ≤ ip_end p ∧ ip_end p < 2 ^ 32.
Proof.
  unfold newIPPool. intros Hs He.
  assert (∀ ip, ip_ok ip → ip4ToUint32 (To4 ip) = IPToUint32 ip) as Heq.
  { intros ip _. unfold ip4ToUint32, IPToUint32. by destruct (To4 ip). }
  rewrite !Heq by done. pose proof (IPToUint32_range _ Hs) as [? ?]. pose proof (IPToUint32_range _ He) as [? ?].
  destruct (_ || _) eqn:E; [done|]. destruct (_ <? _) eqn:E2; [done|]. intros [= <-]. simpl.
  split; [|lia]. split; simpl; by (done || lia).
Qed.

Lemma Allocate_at start end_ (acc : list HardwareAddr) p (m : HardwareAddr) :
  0 < start ≤ end_ → end_ < 2 ^ 32 - 1 → NoDup acc → Forall (Forall is_u8) acc → Forall is_u8 m →
  pool_at start end_ acc p →
  pool_at start end_ (see acc m) (Allocate p m).2 ∧
  ∃ i, see acc m !! i = Some m ∧
    (Allocate p m).1 = match nth_address start end_ i with Some ip => Ok ip | None => Err pool_exhausted end.
Proof.
  intros Hs He Hnd Hacc Hm Hat. pose proof Hat as [H1 H2 H3 H4 H5]. unfold see, Allocate. destruct (decide _) as [Hin|Hin].
  - apply list_elem_of_lookup in Hin as [i Hi]. rewrite (H4 _ _ Hi). unfold nth_address.
    destruct (_ <=? _) eqn:E; [split; [exact Hat|]; exists i; by rewrite E|].
    assert (Z.of_nat (length acc) > end_ - start) by (apply lookup_lt_Some in Hi; lia).
    assert (ip_end p <? ip_next p = true) as -> by lia. split; [exact Hat|]. exists i. by rewrite E.
  - rewrite (H5 _ Hm Hin). assert (Hlast : (acc ++ [m]) !! length acc = Some m) by by rewrite lookup_app_r, Nat.sub_diag by lia.
    assert (Hnth : ∀ q, ip_leases q !! mac_string m = nth_address start end_ (length acc) →
       (∀ m', Forall is_u8 m' → m' ≠ m → ip_leases q !! mac_string m' = ip_leases p !! mac_string m') →
       (∀ i x, (acc ++ [m]) !! i = Some x → ip_leases q !! mac_string x = nth_address start end_ i) ∧
       (∀ x, Forall is_u8 x → x ∉ acc ++ [m] → ip_leases q !! mac_string x = None)).
    { intros q Hq Hother. split.
      - intros i x Hi. apply lookup_app_Some in Hi as [Hi|[Hle Hi]].
        + rewrite Hother; [by apply H4| |].
          * rewrite Forall_forall in Hacc. apply Hacc, list_elem_of_lookup. eauto.
          * intros ->. apply Hin, list_elem_of_lookup. eauto.
        + apply list_lookup_singleton_Some in Hi as [Hi <-]. by replace i with (length acc) by lia.
      - intros x Hx Hnot. rewrite Hother; [apply H5; [done|]|done|]; set_solver. }
    unfold nth_address in *.
    destruct (ip_end p <? ip_next p) eqn:E; simpl.
    + assert (start + Z.of_nat (length acc) <=? end_ = false) as Hex by lia. rewrite Hex in Hnth.
      destruct (Hnth p) as [Ha Hb]; [by apply H5|done|].
      split; [split; simpl; try done; rewrite length_app; simpl; lia|]. exists (length acc). by rewrite Hex.
    + assert (start + Z.of_nat (length acc) <=? end_ = true) as Hex by lia. rewrite Hex in Hnth.
      assert (ip_next p = start + Z.of_nat (length acc)) as Hnext by lia.
      edestruct (Hnth (MkIpPool (ip_start p) (ip_end p) (u32 (ip_next p + 1))
        (<[mac_string m := uint32ToIP4 (ip_next p)]> (ip_leases p)))) as [Ha Hb]; simpl.
      { by rewrite lookup_insert_eq, Hnext. }
      { intros m' Hm' Hne. apply lookup_insert_ne. intros Heq. apply Hne. symmetry. by apply mac_string_inj. }
      split; [split; simpl; try done; rewrite ?length_app; simpl; rewrite u32_small by (unfold is_u32; lia); lia|].
      exists (length acc). by rewrite Hex, Hnext.
Qed.

Lemma allocate_all_at start end_ p (ms : list HardwareAddr) :
  0 < start ≤ end_ → end_ < 2 ^ 32 - 1 → Forall (Forall is_u8) ms →
  pool_at start end_ [] p → pool_at start end_ (seen ms) (allocate_all p ms).
Proof.
  intros Hs He Hms Hp. unfold allocate_all. induction ms as [|m ms IH] using rev_ind; [done|].
  rewrite fold_left_app, seen_snoc. apply Forall_app in Hms as [Hms Hm]. simpl.
  apply Allocate_at; try done; [apply seen_NoDup|by apply seen_bytes|by inversion Hm|by apply IH].
Qed.

(** C33: the address pool against its reference.  Whatever clients asked before,
    the next one gets the start address plus its rank in the order of first
    requests, the same address each time, until the range is used up; then new
    clients are refused and old ones still keep theirs. *)
Theorem Allocate_by_rank s e p (ms : list HardwareAddr) (m : HardwareAddr) :
  ip_ok s → ip_ok e → newIPPool s e = Ok p → ip_end p < 2 ^ 32 - 1 →
  Forall (Forall is_u8) (ms ++ [m]) →
  NoDup (seen (ms ++ [m])) ∧
  ∃ i, seen (ms ++ [m]) !! i = Some m ∧
    (Allocate (allocate_all p ms) m).1 =
      if ip_start p + Z.of_nat i <=? ip_end p then Ok (uint32ToIP4 (ip_start p + Z.of_nat i))
      else Err pool_exhausted.
Proof.
  intros Hs He Hp Hend Hb. destruct (newIPPool_at _ _ _ Hs He Hp) as (Hat & Hrange & _).
  split; [apply seen_NoDup|]. rewrite seen_snoc. apply Forall_app in Hb as [Hms Hm]. apply Forall_cons in Hm as [Hm _].
  destruct (Allocate_at (ip_start p) (ip_end p) (seen ms) (allocate_all p ms) m) as [_ (i & Hi & Hr)];
    try done; [apply seen_NoDup|by apply seen_bytes|by apply allocate_all_at|].
  exists i. split; [done|]. rewrite Hr. unfold nth_address. by destruct (_ <=? _).
Qed.

Definition ex_mac (n : Z) : HardwareAddr := [2; 0; 0; 0; 0; n].
Definition ex_pool : ipPool := MkIpPool 167772260 167772261 167772260 ∅.
Lemma Allocate_by_rank_witness :
  newIPPool (IPv4 10 0 0 100) (IPv4 10 0 0 101) = Ok ex_pool ∧
  NoDup (seen ([ex_mac 1; ex_mac 2; ex_mac 1; ex_mac 3] ++ [ex_mac 2])) ∧
  ∃ i, seen ([ex_mac 1; ex_mac 2; ex_mac 1; ex_mac 3] ++ [ex_mac 2]) !! i = Some (ex_mac 2) ∧
    (Allocate (allocate_all ex_pool [ex_mac 1; ex_mac 2; ex_mac 1; ex_mac 3]) (ex_mac 2)).1 =
      if ip_start ex_pool + Z.of_nat i <=? ip_end ex_pool then Ok (uint32ToIP4 (ip_start ex_pool + Z.of_nat i))
      else Err pool_exhausted.
Proof.
  split; [reflexivity|].
  apply (Allocate_by_rank (IPv4 10 0 0 100) (IPv4 10 0 0 101) ex_pool [ex_mac 1; ex_mac 2; ex_mac 1; ex_mac 3] (ex_mac 2));
    [decide_true | decide_true | reflexivity | reflexivity | decide_true].
Defined.

(** The end of the address space is out of reach of that guarantee: with
    255.255.255.255 as the last address the counter wraps to zero, and a pool
    of one address hands out 255.255.255.255 and then 0.0.0.0. *)
Lemma pool_wraps :
  ∃ p, newIPPool (IPv4 255 255 255 255) (IPv4 255 255 255 255) = Ok p ∧
  (Allocate p (ex_mac 1)).1 = Ok (Some [255; 255; 255; 255]) ∧
  (Allocate (allocate_all p [ex_mac 1]) (ex_mac 2)).1 = Ok (Some [0; 0; 0; 0]) ∧
  (Allocate (allocate_all p [ex_mac 1; ex_mac 2]) (ex_mac 3)).1 = Ok (Some [0; 0; 0; 1]).
Proof. eexists. split; [vm_compute; reflexivity|]. split_and!; vm_compute; reflexivity. Qed.

(** ** The server *)
Section replies.
Context {Reply : Type} (NewReplyFromRequest : DhcpMsg → list Modifier → ans (option Reply)).
Context (mtype : Reply → Z) (chaddr : Reply → HardwareAddr) (yiaddr : Reply → IP).

(** The last [WithYourIP] and the last [WithMessageType] of a modifier list. *)
Definition your_ip (mods : list Modifier) : option IP :=
  fold_left (λ acc m, match m with WithYourIP ip => Some ip | _ => acc end) mods None.
Definition msg_type (mods : list Modifier) : option Z :=
  fold_left (λ acc m, match m with WithMessageType t => Some t | _ => acc end) mods None.

(** What the DHCP package documents of a reply: it carries the client's
    hardware address and the modifiers are applied to it in order; an address
    that no modifier sets stays the unspecified one a new packet starts with. *)
Definition reply_documented : Prop :=
  ∀ m mods r, NewReplyFromRequest m mods = inl (Some r) →
    chaddr r = dm_ClientHWAddr m ∧
    match your_ip mods with Some ip => yiaddr r = ip | None => IP_IsUnspecified (yiaddr r) = true end ∧
    ∀ t, msg_type mods = Some t → mtype r = t.

Lemma response_modifiers_set c t ip : your_ip (response_modifiers c t ip) = Some ip ∧ msg_type (response_modifiers c t ip) = Some t.
Proof. unfold response_modifiers, your_ip, msg_type. by destruct (sv_DNS c). Qed.

(** A refusal carries no address; every other reply assigns its client's place
    in the range. *)
Definition reply_ok (start end_ : Z) (acc : list HardwareAddr) (r : Reply) : Prop :=
  mtype r = MessageTypeNak ∧ IP_IsUnspecified (yiaddr r) = true ∨
  mtype r ≠ MessageTypeNak ∧
  ∃ i, acc !! i = Some (chaddr r) ∧ start + Z.of_nat i ≤ end_ ∧ yiaddr r = uint32ToIP4 (start + Z.of_nat i).

Lemma see_prefix acc m : acc `prefix_of` see acc m.
Proof. unfold see. destruct (decide _); [done|]. by eexists. Qed.
Lemma reply_ok_prefix start end_ acc acc' r :
  acc `prefix_of` acc' → reply_ok start end_ acc r → reply_ok start end_ acc' r.
Proof.
  intros Hp [H|(Ht & i & Hi & H)]; [by left|]. right. split; [done|]. exists i. split; [|done]. by eapply prefix_lookup_Some.
Qed.

Lemma see_NoDup acc m : NoDup acc → NoDup (see acc m).
Proof.
  intros Hacc. unfold see. destruct (decide _) as [|Hn]; [done|]. apply NoDup_app.
  split_and!; [done| |apply NoDup_singleton]. intros x Hx Hm. apply list_elem_of_singleton in Hm. by subst.
Qed.

(** The invariant of the server: the pool as the clients [acc] left it. *)
Definition server_at (start end_ : Z) (acc : list HardwareAddr) (s : Server) : Prop :=
  NoDup acc ∧ Forall (Forall is_u8) acc ∧ pool_at start end_ acc (sr_pool s).

Definition msg_ok (m : option DhcpMsg) : Prop :=
  match m with Some m => Forall is_u8 (dm_ClientHWAddr m) | None => True end.

Lemma handler_at start end_ acc s m :
  reply_documented → 0 < start ≤ end_ → end_ < 2 ^ 32 - 1 → msg_ok m → server_at start end_ acc s →
  let '(r, s') := handler NewReplyFromRequest s m in
  ∃ acc', acc `prefix_of` acc' ∧ server_at start end_ acc' s' ∧ ∀ x, r = Some x → reply_ok start end_ acc' x.1.
Proof.
  intros Hdoc Hs He Hm (Hnd & Hb & Hp). destruct m as [m|]; [|by exists acc]. unfold handler.
  destruct (_ || _) eqn:Et; [|by exists acc].
  destruct (Allocate_at start end_ acc (sr_pool s) (dm_ClientHWAddr m)) as (Hp' & i & Hi & Hr); try done.
  assert (Hat : ∀ s', sr_pool s' = (Allocate (sr_pool s) (dm_ClientHWAddr m)).2 →
    server_at start end_ (see acc (dm_ClientHWAddr m)) s').
  { intros s' Hs'. split_and!; [by apply see_NoDup| |by rewrite Hs']. unfold see.
    destruct (decide _); [done|]. apply Forall_app. split; [done|by apply Forall_singleton]. }
  assert (Hok : ∀ r, chaddr r = dm_ClientHWAddr m →
    (mtype r = MessageTypeNak ∧ IP_IsUnspecified (yiaddr r) = true ∨
     mtype r ≠ MessageTypeNak ∧ ∃ ip, nth_address start end_ i = Some ip ∧ yiaddr r = ip) →
    reply_ok start end_ (see acc (dm_ClientHWAddr m)) r).
  { intros r Hc [Hy|(Ht & ip & Hn & Hy)]; [by left|]. right. split; [done|]. exists i. rewrite Hc. unfold nth_address in Hn.
    destruct (_ <=? _) eqn:E; simplify_eq. split_and!; [done|lia|done]. }
  destruct (Allocate (sr_pool s) (dm_ClientHWAddr m)) as [ra pa] eqn:Ea. simpl in Hr, Hp', Hat. subst ra.
  unfold handleDiscover, handleRequest. rewrite Ea.
  destruct (_ =? MessageTypeDiscover); (exists (see acc (dm_ClientHWAddr m)); split_and!; [apply see_prefix|by apply Hat|]);
    destruct (nth_address start end_ i) as [ip|] eqn:En; simpl; try done; intros x Hx.
  - unfold buildResponse, of_ans in Hx. destruct (NewReplyFromRequest _ _) as [[r|]|] eqn:Er; simplify_eq.
    destruct (response_modifiers_set (sr_cfg s) MessageTypeOffer ip) as [Hip Ht].
    destruct (Hdoc _ _ _ Er) as (Hc & Hy & Hmt). rewrite Hip in Hy. apply Hok; [done|]. right.
    split; [simpl; by rewrite (Hmt _ Ht)|]. by exists ip.
  - unfold buildNAK, buildResponse, of_ans in Hx.
    destruct (_ && _ && _); (destruct (NewReplyFromRequest _ _) as [[r|]|] eqn:Er; simplify_eq;
      destruct (Hdoc _ _ _ Er) as (Hc & Hy & Hmt); (apply Hok; [done|])).
    + left. split; [by apply Hmt|exact Hy].
    + destruct (response_modifiers_set (sr_cfg s) MessageTypeAck ip) as [Hip Ht]. rewrite Hip in Hy.
      right. split; [simpl; by rewrite (Hmt _ Ht)|]. by exists ip.
Qed.

Lemma serve_all_at start end_ s ms : ∀ acc,
  reply_documented → 0 < start ≤ end_ → end_ < 2 ^ 32 - 1 → Forall msg_ok ms → server_at start end_ acc s →
  ∃ acc', acc `prefix_of` acc' ∧ NoDup acc' ∧
    Forall (λ x, reply_ok start end_ acc' x.1) (serve_all NewReplyFromRequest s ms).1.
Proof.
  revert s. induction ms as [|m ms IH]; intros s acc Hdoc Hs He Hms Hat; simpl.
  { exists acc. split_and!; [done|apply Hat|constructor]. }
  apply Forall_cons in Hms as [Hm Hms]. pose proof (handler_at _ _ _ _ m Hdoc Hs He Hm Hat) as H.
  destruct (handler _ s m) as [r s']. destruct H as (acc' & Hpre & Hat' & Hr).
  destruct (IH s' acc' Hdoc Hs He Hms Hat') as (acc2 & Hpre2 & Hnd & Hall).
  destruct (serve_all _ s' ms) as [rs s2]. simpl in *. exists acc2. split_and!; [by etrans|done|].
  apply Forall_app. split; [|done]. destruct r as [x|]; simpl; [|constructor]. constructor; [|constructor].
  eapply reply_ok_prefix; [done|]. by apply Hr.
Qed.

Lemma uint32ToIP4_specified n : 0 < n < 2 ^ 32 → IP_IsUnspecified (uint32ToIP4 n) = false.
Proof.
  intros Hn. assert (uint32ToIP4 n ≠ uint32ToIP4 0) as Hne by (intros E%uint32ToIP4_inj; unfold is_u32; lia).
  unfold uint32ToIP4 in *. change (u8 (Z.shiftr 0 _)) with 0 in Hne. change (u8 0) with 0 in Hne. revert Hne.
  generalize (u8 (Z.shiftr n 24)), (u8 (Z.shiftr n 16)), (u8 (Z.shiftr n 8)), (u8 n). intros a b c d Hne.
  unfold IP_IsUnspecified, IP_Equal. cbn. assert (bool_decide ([a; b; c; d] = [0; 0; 0; 0]) = false) as -> by (apply bool_decide_eq_false; congruence).
  rewrite !andb_false_r. reflexivity.
Qed.

(** C34: no address conflicts.  Over any sequence of messages a reply assigns no
    address exactly when it is a refusal; the assigned addresses lie in the
    server's range, a client is always given the same address, and two clients
    never the same one. *)
Theorem server_no_conflict c srv ms x y :
  reply_documented → NewServer c = Ok srv → ip_ok (sv_PoolStart c) → ip_ok (sv_PoolEnd c) →
  ip_end (sr_pool srv) < 2 ^ 32 - 1 → Forall msg_ok ms →
  let sent := (serve_all NewReplyFromRequest srv ms).1 in
  x ∈ sent → y ∈ sent →
  (IP_IsUnspecified (yiaddr x.1) = true ↔ mtype x.1 = MessageTypeNak) ∧
  (IP_IsUnspecified (yiaddr x.1) = false → IP_IsUnspecified (yiaddr y.1) = false →
     (yiaddr x.1 = yiaddr y.1 ↔ chaddr x.1 = chaddr y.1) ∧
     ∃ n, ip_start (sr_pool srv) ≤ n ≤ ip_end (sr_pool srv) ∧ yiaddr x.1 = uint32ToIP4 n).
Proof.
  intros Hdoc Hnew Hs He Hend Hms sent Hx Hy.
  unfold NewServer in Hnew. do 2 (case_bool_decide; [done|]). destruct (_ || _); [done|].
  destruct (newIPPool _ _) as [p|e| |] eqn:Ep; simpl in Hnew; try done. simplify_eq. simpl in *.
  destruct (newIPPool_at _ _ _ Hs He Ep) as (Hat & Hrange & _).
  destruct (serve_all_at (ip_start p) (ip_end p) (MkServer (server_defaults c) p None false) ms [])
    as (acc & _ & Hnd & Hall); try done.
  { split_and!; [constructor|constructor|done]. }
  rewrite Forall_forall in Hall.
  destruct (Hall _ Hx) as [[Htx Hux]|(Htx & i & Hi & Hile & Hiy)]; [split; [done|congruence]|].
  assert (IP_IsUnspecified (yiaddr x.1) = false) as Hux by (rewrite Hiy; apply uint32ToIP4_specified; lia).
  split; [split; [congruence|done]|]. intros _ Huy.
  destruct (Hall _ Hy) as [[_ ?]|(_ & j & Hj & Hjle & Hjy)]; [congruence|].
  split; [|exists (ip_start p + Z.of_nat i); split; [lia|done]]. rewrite Hiy, Hjy. split.
  - intros E. apply uint32ToIP4_inj in E; [|unfold is_u32; lia..]. assert (i = j) as -> by lia. congruence.
  - intros E. rewrite E in Hi. by rewrite (NoDup_lookup _ _ _ _ Hnd Hi Hj).
Qed.
End replies.

(** A reply constructor that keeps what the property looks at: the type, the
    hardware address, and an address that starts as 0.0.0.0. *)
Definition ex_reply (m : DhcpMsg) (mods : list Modifier) : ans (option (Z * HardwareAddr * IP)) :=
  inl (Some (default 2 (msg_type mods), dm_ClientHWAddr m, default (IPv4 0 0 0 0) (your_ip mods))).
Definition ex_server_config : ServerConfig :=
  MkServerConfig "eth0" (IPv4 10 0 0 1) (IPv4 10 0 0 100) (IPv4 10 0 0 101) None None [] 0 0.
Definition ex_server : Server := MkServer (server_defaults ex_server_config) ex_pool None false.
(** Two clients get an address, one of them is refused another one, a third
    finds the pool empty. *)
Definition ex_msgs : list (option DhcpMsg) :=
  map (λ '(t, n, ip), Some (MkDhcpMsg t (ex_mac n) ip None None))
    [(1, 1, None); (1, 2, None); (3, 1, Some [10; 0; 0; 100]); (3, 2, Some [10; 0; 0; 100]); (1, 3, None)].

Lemma server_no_conflict_witness :
  let sent := (serve_all ex_reply ex_server ex_msgs).1 in
  map (λ x, x.1.1.1) sent = [MessageTypeOffer; MessageTypeOffer; MessageTypeAck; MessageTypeNak] ∧
  ∀ x y, x ∈ sent → y ∈ sent →
  (IP_IsUnspecified x.1.2 = true ↔ x.1.1.1 = MessageTypeNak) ∧
  (IP_IsUnspecified x.1.2 = false → IP_IsUnspecified y.1.2 = false →
     (x.1.2 = y.1.2 ↔ x.1.1.2 = y.1.1.2) ∧ ∃ n, 167772260 ≤ n ≤ 167772261 ∧ x.1.2 = uint32ToIP4 n).
Proof.
  split; [vm_compute; reflexivity|]. intros x y Hx Hy.
  apply (server_no_conflict ex_reply (λ r, r.1.1) (λ r, r.1.2) snd ex_server_config ex_server ex_msgs x y); try assumption.
  - intros m mods r H. unfold ex_reply in H. injection H as <-. split_and!; [reflexivity| |by intros t ->].
    cbn. by destruct (your_ip mods).
  - vm_compute; reflexivity.
  - decide_true.
  - decide_true.
  - reflexivity.
  - repeat constructor; decide_true.
Defined.

(** *** Listener life cycle *)
Inductive server_op := SServe (r : ans Z) | SClose.
(** The listeners served and the listeners closed by a sequence of calls, each
    atomic under [lifecycleMu]. *)
Fixpoint server_ops (s : Server) (ops : list server_op) : list Z * list Z :=
  match ops with
  | [] => ([], [])
  | SServe r :: ops =>
      let '(o, s) := Serve_open s r in
      let '(served, closed) := server_ops s ops in
      (match o with Ok (Some l) => l :: served | _ => served end, closed)
  | SClose :: ops =>
      let '(o, s) := Server_Close s in
      let '(served, closed) := server_ops s ops in
      (served, option_list o ++ closed)
  end.

Lemma server_ops_closed s n : sr_closed s = true → server_ops s (replicate n SClose) = ([], []).
Proof.
  intros Hs. induction n as [|n IH]; [done|]. simpl. unfold Server_Close. rewrite Hs. by rewrite IH.
Qed.

(** However many times and however early [Close] is called, a listener that is
    served is closed at most once, and exactly once when a [Close] follows; a
    server closed before [Serve] never opens one. *)
Lemma server_closes_once s l n k :
  sr_closed s = false → sr_server s = None →
  server_ops s (replicate n SClose ++ SServe (inl l) :: replicate k SClose) =
    match n, k with
    | O, O => ([l], [])
    | O, S _ => ([l], [l])
    | _, _ => ([], [])
    end.
Proof.
  intros Hc Hs. destruct n as [|n]; simpl.
  - unfold Serve_open. rewrite Hc. destruct k as [|k]; [done|]. simpl. unfold Server_Close. simpl.
    by rewrite server_ops_closed.
  - unfold Server_Close. rewrite Hc, Hs.
    assert (∀ s', sr_closed s' = true → ∀ n, server_ops s' (replicate n SClose ++ SServe (inl l) :: replicate k SClose) = ([], [])) as H.
    { intros s' Hs' n'. induction n' as [|n' IH]; simpl.
      - unfold Serve_open. rewrite Hs'. by rewrite server_ops_closed.
      - unfold Server_Close. rewrite Hs'. by rewrite IH. }
    by rewrite H.
Qed.
