(* ===== verification/DhcpLife.v ===== *)
(** * The life cycle of the DHCP server: [Serve], [Close] and the cancellation

    [Serve] runs beside any number of calls of [Close] and beside the goroutine
    it starts, which closes the server when the context is cancelled.  The
    threads interleave statement by statement; [lifecycleMu] is a lock they
    take.  The listener is the packet library's: its constructor answers as it
    likes, its [Serve] returns once the listener is closed, and may return with
    a read error before. *)
From S2P Require Import Prelude Errors GoStrings GoNet BpfTypes Prog Dhcp.

(** What the threads share: the fields of [Server], the context, the listeners
    that are open, those that [Close] closed, and whether a closed channel was
    closed again, which panics. *)
Record shared := MkShared {
  sh_lock : bool; sh_closed : bool; sh_server : option Z; sh_done : bool;
  sh_ctx : bool; sh_open : gset Z; sh_closes : list Z; sh_panic : bool;
}.
Inductive close_pc :=
  | ClLock | ClTest | ClMark | ClDone | ClRead | ClUnlock (srv : option Z) | ClConn (srv : option Z) | ClEnd.
Inductive serve_pc :=
  | SvLock | SvTest | SvNew | SvPublish (srv : Z) | SvUnlock (srv : Z) | SvGo (srv : Z) | SvServe (srv : Z) | SvEnd (r : res unit).
Inductive thread :=
  | Serving (pc : serve_pc)
  | Closing (pc : close_pc)          (* a caller of Close *)
  | Waiting                          (* the goroutine, in its select *)
  | Cancelling (pc : close_pc).      (* the goroutine, in its call of Close *)

Definition set_lock (b : bool) (s : shared) : shared :=
  MkShared b (sh_closed s) (sh_server s) (sh_done s) (sh_ctx s) (sh_open s) (sh_closes s) (sh_panic s).
Definition set_closed (s : shared) : shared :=
  MkShared (sh_lock s) true (sh_server s) (sh_done s) (sh_ctx s) (sh_open s) (sh_closes s) (sh_panic s).
Definition close_done (s : shared) : shared :=
  MkShared (sh_lock s) (sh_closed s) (sh_server s) true (sh_ctx s) (sh_open s) (sh_closes s) (sh_panic s || sh_done s).
Definition set_server (l : Z) (s : shared) : shared :=
  MkShared (sh_lock s) (sh_closed s) (Some l) (sh_done s) (sh_ctx s) (sh_open s) (sh_closes s) (sh_panic s).
Definition cancel (s : shared) : shared :=
  MkShared (sh_lock s) (sh_closed s) (sh_server s) (sh_done s) true (sh_open s) (sh_closes s) (sh_panic s).
Definition open_conn (l : Z) (s : shared) : shared :=
  MkShared (sh_lock s) (sh_closed s) (sh_server s) (sh_done s) (sh_ctx s) ({[ l ]} ∪ sh_open s) (sh_closes s) (sh_panic s).
Definition drop_conn (l : Z) (s : shared) : shared :=
  MkShared (sh_lock s) (sh_closed s) (sh_server s) (sh_done s) (sh_ctx s) (sh_open s ∖ {[ l ]}) (sh_closes s) (sh_panic s).
Definition close_conn (l : Z) (s : shared) : shared :=
  MkShared (sh_lock s) (sh_closed s) (sh_server s) (sh_done s) (sh_ctx s) (sh_open s ∖ {[ l ]}) (sh_closes s ++ [l]) (sh_panic s).

(** ** One statement of [Close] *)
Definition close_next (pc : close_pc) (s : shared) : option (close_pc * shared) :=
  match pc with
  | ClLock => if sh_lock s then None else Some (ClTest, set_lock true s)
  | ClTest => Some (if sh_closed s then (ClEnd, set_lock false s) else (ClMark, s))
  | ClMark => Some (ClDone, set_closed s)
  | ClDone => Some (ClRead, close_done s)
  | ClRead => Some (ClUnlock (sh_server s), s)
  | ClUnlock srv => Some (ClConn srv, set_lock false s)
  | ClConn (Some l) => Some (ClEnd, close_conn l s)
  | ClConn None => Some (ClEnd, s)
  | ClEnd => None
  end.

(** ** One statement of [Serve], and the goroutine it starts *)
(** [choice]: what the constructor of the listener and its [Serve] answer, and
    which ready case the select takes. *)
Record choice := MkChoice { ch_new : ans Z; ch_ret : res unit; ch_ctx : bool }.
Definition serve_next (ch : choice) (pc : serve_pc) (s : shared) : option (serve_pc * shared * list thread) :=
  match pc with
  | SvLock => if sh_lock s then None else Some (SvTest, set_lock true s, [])
  | SvTest => Some (if sh_closed s then (SvEnd (Ok tt), set_lock false s, []) else (SvNew, s, []))
  | SvNew =>
      match ch_new ch with
      | inl l => if bool_decide (l ∈ sh_open s) then None else Some (SvPublish l, open_conn l s, [])
      | inr e => Some (SvEnd (Err (errorw "failed to create server: " e "")), set_lock false s, [])
      end
  | SvPublish l => Some (SvUnlock l, set_server l s, [])
  | SvUnlock l => Some (SvGo l, set_lock false s, [])
  | SvGo l => Some (SvServe l, s, [Waiting])
  | SvServe l => if bool_decide (l ∈ sh_open s) then None else Some (SvEnd (ch_ret ch), s, [])
  | SvEnd _ => None
  end.
Definition thread_next (ch : choice) (t : thread) (s : shared) : option (thread * shared * list thread) :=
  match t with
  | Serving pc => match serve_next ch pc s with Some (pc, s, new) => Some (Serving pc, s, new) | None => None end
  | Closing pc => match close_next pc s with Some (pc, s) => Some (Closing pc, s, []) | None => None end
  | Waiting =>
      if sh_ctx s && (ch_ctx ch || negb (sh_done s)) then Some (Cancelling ClLock, s, [])
      else if sh_done s then Some (Cancelling ClEnd, s, []) else None
  | Cancelling pc => match close_next pc s with Some (pc, s) => Some (Cancelling pc, s, []) | None => None end
  end.

Definition life : Type := shared * list thread.
(** A thread goes on. *)
Inductive goes_on : life → life → Prop :=
  | goes_on_at i ch s ts t t' s' new :
      ts !! i = Some t → thread_next ch t s = Some (t', s', new) → goes_on (s, ts) (s', <[i := t']> ts ++ new).
(** What happens from outside: the context is cancelled, [Close] is called, a
    read fails and the library ends its loop, with or without its listener. *)
Inductive outside : life → life → Prop :=
  | outside_cancel s ts : outside (s, ts) (cancel s, ts)
  | outside_close s ts : outside (s, ts) (s, ts ++ [Closing ClLock])
  | outside_error i s ts l e s' :
      ts !! i = Some (Serving (SvServe l)) → s' = s ∨ s' = drop_conn l s →
      outside (s, ts) (s', <[i := Serving (SvEnd (Err e))]> ts).
Definition life_step (c c' : life) : Prop := goes_on c c' ∨ outside c c'.
Definition life_start : life := (MkShared false false None false false ∅ [] false, [Serving SvLock]).

(** ** The invariant *)
Definition close_crit (pc : close_pc) : bool :=
  match pc with ClTest | ClMark | ClDone | ClRead | ClUnlock _ => true | _ => false end.
Definition serve_crit (pc : serve_pc) : bool :=
  match pc with SvTest | SvNew | SvPublish _ | SvUnlock _ => true | _ => false end.
Definition crit (t : thread) : bool :=
  match t with Serving pc => serve_crit pc | Closing pc | Cancelling pc => close_crit pc | Waiting => false end.

(** Past the point where [closed] was set by this very call. *)
Definition close_active (pc : close_pc) : bool :=
  match pc with ClDone | ClRead | ClUnlock _ | ClConn _ => true | _ => false end.
Definition active (t : thread) : bool := match t with Closing pc | Cancelling pc => close_active pc | _ => false end.
Definition watcher (t : thread) : bool := match t with Waiting | Cancelling _ => true | _ => false end.
Definition close_ok (s : shared) (pc : close_pc) : Prop :=
  match pc with
  | ClTest => sh_closed s = true → sh_done s = true
  | ClMark => sh_closed s = false
  | ClDone => sh_closed s = true ∧ sh_done s = false
  | ClRead => sh_closed s = true ∧ sh_done s = true
  | ClUnlock srv => sh_closed s = true ∧ sh_done s = true ∧ srv = sh_server s
  | ClConn srv => sh_closed s = true ∧ srv = sh_server s
  | ClEnd => sh_closed s = true
  | ClLock => True
  end.
Definition serve_ok (s : shared) (pc : serve_pc) : Prop :=
  match pc with
  | SvLock => sh_server s = None ∧ sh_open s = ∅
  | SvTest => (sh_closed s = true → sh_done s = true) ∧ sh_server s = None ∧ sh_open s = ∅
  | SvNew => sh_closed s = false ∧ sh_server s = None ∧ sh_open s = ∅
  | SvPublish l => sh_closed s = false ∧ sh_server s = None ∧ sh_open s = {[ l ]}
  | SvUnlock l => sh_closed s = false ∧ sh_server s = Some l
  | SvGo l | SvServe l => sh_server s = Some l
  | SvEnd _ => True
  end.
Definition thread_ok (s : shared) (t : thread) : Prop :=
  match t with
  | Serving pc => serve_ok s pc
  | Closing pc | Cancelling pc => close_ok s pc
  | Waiting => True
  end.
Definition published (pc : serve_pc) : bool := match pc with SvServe _ | SvEnd _ => true | _ => false end.

Record life_inv (s : shared) (ts : list thread) : Prop := {
  li_panic : sh_panic s = false;
  li_done : sh_done s = true → sh_closed s = true;
  li_quiet : sh_lock s = false → sh_closed s = true → sh_done s = true;
  li_mutex : ∀ i j t u, ts !! i = Some t → ts !! j = Some u → crit t = true → crit u = true → i = j;
  li_crit : ∀ i t, ts !! i = Some t → crit t = true → sh_lock s = true;
  li_holder : sh_lock s = true → ∃ i t, ts !! i = Some t ∧ crit t = true;
  li_zero : ∃ pc, ts !! 0%nat = Some (Serving pc);
  li_one : ∀ i pc, ts !! i = Some (Serving pc) → i = 0%nat;
  li_ok : ∀ i t, ts !! i = Some t → thread_ok s t;
  li_open : ∀ l, l ∈ sh_open s → sh_server s = Some l ∨ ts !! 0%nat = Some (Serving (SvPublish l));
  li_pending : ∀ l, l ∈ sh_open s → sh_closed s = true → ∃ i t, ts !! i = Some t ∧ active t = true;
  li_watch : ∀ pc l, ts !! 0%nat = Some (Serving pc) → published pc = true → sh_server s = Some l → ∃ i t, ts !! i = Some t ∧ watcher t = true;
  li_active : ∀ i j t u, ts !! i = Some t → ts !! j = Some u → active t = true → active u = true → i = j;
  li_marked : ∀ i t, ts !! i = Some t → active t = true → sh_closed s = true ∧ sh_closes s = [];
  li_closes : sh_closes s = [] ∨ (sh_closed s = true ∧ length (sh_closes s) = 1%nat);
}.

(** ** Every step keeps it *)
(** A thread that moves to [t'], and what the others must put up with. *)
Section moved.
Context (s s' : shared) (ts : list thread) (i : nat) (t t' : thread).
Context (HI : life_inv s ts) (Ht : ts !! i = Some t).
Notation ts' := (<[i := t']> ts).

Lemma moved_at : ts' !! i = Some t'.
Proof. apply list_lookup_insert_eq. by eapply lookup_lt_Some. Qed.
Lemma moved_other j : i ≠ j → ts' !! j = ts !! j.
Proof. apply list_lookup_insert_ne. Qed.
Lemma moved_cases j u : ts' !! j = Some u → (j = i ∧ u = t') ∨ (j ≠ i ∧ ts !! j = Some u).
Proof. intros [(-> & -> & _)|[? ?]]%list_lookup_insert_Some; auto. Qed.

(** At most one thread has a property that the step does not spread. *)
Lemma moved_unique (P : thread → bool) :
  (∀ j k u v, ts !! j = Some u → ts !! k = Some v → P u = true → P v = true → j = k) →
  (P t' = true → P t = true ∨ ∀ j u, ts !! j = Some u → P u = false) →
  ∀ j k u v, ts' !! j = Some u → ts' !! k = Some v → P u = true → P v = true → j = k.
Proof.
  intros Hu Hp j k u v [[-> ->]|[Hj Hju]]%moved_cases [[-> ->]|[Hk Hkv]]%moved_cases Pu Pv; [done| | |by eapply Hu].
  - destruct (Hp Pu) as [Pt|Hno]; [by eapply Hu|]. by rewrite (Hno _ _ Hkv) in Pv.
  - destruct (Hp Pv) as [Pt|Hno]; [by eapply Hu|]. by rewrite (Hno _ _ Hju) in Pu.
Qed.
Lemma moved_exists (P : thread → bool) : (P t = true → P t' = true) →
  (∃ j u, ts !! j = Some u ∧ P u = true) → ∃ j u, ts' !! j = Some u ∧ P u = true.
Proof.
  intros Hp (j & u & Hj & Pu). destruct (decide (i = j)) as [<-|Hne].
  - rewrite Ht in Hj. injection Hj as <-. exists i, t'. split; [apply moved_at|auto].
  - exists j, u. by rewrite moved_other.
Qed.
End moved.

(** What a thread relies on while another one moves. *)
Lemma thread_ok_lock s b t : thread_ok s t → thread_ok (set_lock b s) t.
Proof. by destruct t as [[]|[]| |[]]. Qed.
Lemma thread_ok_closed s t : crit t = false → thread_ok s t → thread_ok (set_closed s) t.
Proof. destruct t as [[]|[]| |[]]; cbn; naive_solver. Qed.
Lemma thread_ok_done s t : crit t = false → thread_ok s t → thread_ok (close_done s) t.
Proof. by destruct t as [[]|[]| |[]]. Qed.
Lemma thread_ok_conn s l t : sh_closed s = true → thread_ok s t → thread_ok (close_conn l s) t.
Proof.
  intros Hc. destruct t as [[]|[]| |[]]; cbn; intros; destruct_and?; split_and?; try done; try congruence; set_solver.
Qed.

(** A thread moves: what has to be seen to. *)
Definition lock_moves (s s' : shared) (t t' : thread) : Prop :=
  (sh_lock s' = sh_lock s ∧ crit t' = crit t) ∨
  (sh_lock s = false ∧ sh_lock s' = true ∧ crit t' = true) ∨
  (sh_lock s' = false ∧ crit t = true ∧ crit t' = false).
Lemma lock_moved s s' ts i t t' : life_inv s ts → ts !! i = Some t → lock_moves s s' t t' →
  (∀ j k u v, <[i := t']> ts !! j = Some u → <[i := t']> ts !! k = Some v → crit u = true → crit v = true → j = k) ∧
  (∀ j u, <[i := t']> ts !! j = Some u → crit u = true → sh_lock s' = true) ∧
  (sh_lock s' = true → ∃ j u, <[i := t']> ts !! j = Some u ∧ crit u = true).
Proof.
  intros HI Ht Hm.
  assert (Hfree : sh_lock s = false → ∀ j u, ts !! j = Some u → crit u = false).
  { intros Hl j u Hj. destruct (crit u) eqn:E; [|done]. by rewrite (li_crit _ _ HI j u Hj E) in Hl. }
  split_and!.
  - eapply (moved_unique ts i t t' Ht crit); [apply (li_mutex _ _ HI)|]. intros Hc.
    destruct Hm as [[_ E]|[(Hl & _)|(_ & _ & E)]]; [left; congruence|right; by apply Hfree|congruence].
  - intros j u [[-> ->]|[Hne Hj]]%(moved_cases _ _ _ _ Ht) Hu.
    + destruct Hm as [[-> E]|[(_ & -> & _)|(_ & _ & E)]]; [|done|congruence]. eapply (li_crit _ _ HI); [exact Ht|congruence].
    + destruct Hm as [[-> E]|[(Hl & _)|(_ & E & _)]]; [by eapply (li_crit _ _ HI)|by rewrite (Hfree Hl _ _ Hj) in Hu|].
      destruct Hne. by eapply (li_mutex _ _ HI).
  - intros Hl. destruct Hm as [[E1 E2]|[(_ & _ & E)|(E & _)]]; [| |congruence].
    + eapply (moved_exists ts i t t' Ht); [congruence|]. apply (li_holder _ _ HI). congruence.
    + exists i, t'. split; [by eapply moved_at|done].
Qed.
Definition active_moves (s s' : shared) (t t' : thread) : Prop :=
  (sh_closes s' = sh_closes s ∧ sh_closed s' = sh_closed s ∧ (active t' = active t ∨ active t' = false ∧ sh_open s' = ∅)) ∨
  (sh_closes s' = sh_closes s ∧ sh_closed s = false ∧ sh_closed s' = true ∧ active t' = true) ∨
  (active t = true ∧ active t' = false ∧ sh_closed s' = true ∧ sh_open s' = ∅ ∧ ∃ l, sh_closes s' = sh_closes s ++ [l]).
Lemma active_moved s s' ts i t t' : life_inv s ts → ts !! i = Some t → active_moves s s' t t' → (sh_closed s' = true → sh_open s' ⊆ sh_open s) →
  (∀ j k u v, <[i := t']> ts !! j = Some u → <[i := t']> ts !! k = Some v → active u = true → active v = true → j = k) ∧
  (∀ j u, <[i := t']> ts !! j = Some u → active u = true → sh_closed s' = true ∧ sh_closes s' = []) ∧
  (sh_closes s' = [] ∨ (sh_closed s' = true ∧ length (sh_closes s') = 1%nat)) ∧
  (∀ l, l ∈ sh_open s' → sh_closed s' = true → ∃ j u, <[i := t']> ts !! j = Some u ∧ active u = true).
Proof.
  intros HI Ht Hm Hsub.
  assert (Hnone : sh_closed s = false → (∀ j u, ts !! j = Some u → active u = false) ∧ sh_closes s = []).
  { intros Hc. split.
    - intros j u Hj. destruct (active u) eqn:E; [|done]. destruct (li_marked _ _ HI j u Hj E). congruence.
    - destruct (li_closes _ _ HI) as [?|[? _]]; [done|congruence]. }
  split_and!.
  - eapply (moved_unique ts i t t' Ht active); [apply (li_active _ _ HI)|]. intros Ha.
    destruct Hm as [(_ & _ & [E|[E _]])|[(_ & Hc & _)|(_ & E & _)]]; [left; congruence|congruence|right; by apply Hnone|congruence].
  - intros j u [[-> ->]|[Hne Hj]]%(moved_cases _ _ _ _ Ht) Ha.
    + destruct Hm as [(-> & -> & [E|[E _]])|[(-> & Hc0 & Hc1 & _)|(_ & E & _)]]; [|congruence| |congruence].
      * rewrite E in Ha. by apply (li_marked _ _ HI i t Ht Ha).
      * split; [done|by apply Hnone].
    + destruct (li_marked _ _ HI j u Hj Ha) as [Hcl Hcs]. destruct Hm as [(-> & -> & _)|[(-> & _ & -> & _)|(E & _)]]; [done..|].
      destruct Hne. by eapply (li_active _ _ HI).
  - destruct Hm as [(-> & -> & _)|[(-> & Hc & _)|(E & _ & Hc & _ & l & ->)]].
    + apply (li_closes _ _ HI).
    + left. by apply Hnone.
    + destruct (li_marked _ _ HI i t Ht E) as [_ ->]. by right.
  - intros l Hl Hc. destruct Hm as [(_ & E1 & [E2|[_ E2]])|[(_ & _ & _ & E)|(_ & _ & _ & E & _)]].
    + eapply (moved_exists ts i t t' Ht); [congruence|]. eapply (li_pending _ _ HI l); [by apply Hsub|congruence].
    + rewrite E2 in Hl. by apply elem_of_empty in Hl.
    + exists i, t'. split; [by eapply moved_at|done].
    + rewrite E in Hl. by apply elem_of_empty in Hl.
Qed.

(** *** One statement of [Close] *)
Ltac close_cases Hs :=
  match type of Hs with close_next ?pc ?s = _ =>
    destruct pc as [| | | | |?srv|[?l|]|]; cbn [close_next] in Hs;
      [destruct (sh_lock s) eqn:?El|destruct (sh_closed s) eqn:?Ec|..]; simplify_eq
  end.
Section closing.
Context (s s' : shared) (ts : list thread) (i : nat) (w : close_pc → thread) (pc pc' : close_pc).
Context (Hw : w = Closing ∨ w = Cancelling) (HI : life_inv s ts) (Ht : ts !! i = Some (w pc)) (Hs : close_next pc s = Some (pc', s')).

Lemma close_crit_of q : crit (w q) = close_crit q.
Proof. by destruct Hw as [-> | ->]. Qed.
Lemma close_active_of q : active (w q) = close_active q.
Proof. by destruct Hw as [-> | ->]. Qed.
Lemma close_not_serving q q' : w q ≠ Serving q'.
Proof. by destruct Hw as [-> | ->]. Qed.
Lemma close_ok_now : close_ok s pc.
Proof. pose proof (li_ok _ _ HI i _ Ht) as Ho. by destruct Hw as [-> | ->]. Qed.

Lemma close_lock : lock_moves s s' (w pc) (w pc').
Proof. unfold lock_moves. rewrite !close_crit_of. clear -Hs. close_cases Hs; cbn; auto. Qed.
(** What is open once the server is closed is the published listener. *)
Lemma open_published l : sh_closed s = true → l ∈ sh_open s → sh_server s = Some l.
Proof.
  intros Hc Hl. destruct (li_open _ _ HI l Hl) as [?|Hp]; [done|]. destruct (li_ok _ _ HI _ _ Hp). congruence.
Qed.
Lemma close_actives : active_moves s s' (w pc) (w pc').
Proof.
  pose proof close_ok_now as Hok. pose proof open_published as Honly. unfold active_moves. rewrite !close_active_of.
  clear -Hs Hok Honly. close_cases Hs; cbn in *.
  all: try (left; do 2 (split; [congruence|]); left; done).
  all: try (right; left; by split_and!).
  - destruct Hok as [Hc Hsrv]. right. right. split_and!; [done..| |by eexists]. apply elem_of_equiv_empty_L. intros x [Hx Hne]%elem_of_difference.
    apply Hne. apply (Honly _ Hc) in Hx. rewrite <-Hsrv in Hx. injection Hx as ->. by apply elem_of_singleton.
  - destruct Hok as [Hc Hsrv]. left. split_and!; [done..|]. right. split; [done|]. apply elem_of_equiv_empty_L. intros x Hx. apply (Honly _ Hc) in Hx. congruence.
Qed.
Lemma close_server : sh_server s' = sh_server s ∧ sh_open s' ⊆ sh_open s.
Proof. clear -Hs. close_cases Hs; cbn; split; set_solver. Qed.
Lemma close_others j u : j ≠ i → ts !! j = Some u → thread_ok s' u.
Proof.
  intros Hj Hu. pose proof (li_ok _ _ HI j u Hu) as Ho. pose proof close_ok_now as Hok.
  assert (Hnc : close_crit pc = true → crit u = false).
  { intros Hc. destruct (crit u) eqn:E; [|done]. destruct Hj. eapply (li_mutex _ _ HI); [exact Hu|exact Ht|done|by rewrite close_crit_of]. }
  clear -Hs Ho Hok Hnc. close_cases Hs; try done.
  all: first [by apply thread_ok_lock|apply thread_ok_closed; by auto|apply thread_ok_done; by auto|idtac].
  apply thread_ok_conn; [apply Hok|done].
Qed.
Lemma close_self :
  sh_panic s' = false ∧ (sh_done s' = true → sh_closed s' = true) ∧ (sh_lock s' = false → sh_closed s' = true → sh_done s' = true) ∧ close_ok s' pc'.
Proof.
  pose proof close_ok_now as Hok. pose proof (li_panic _ _ HI) as Hpanic. pose proof (li_done _ _ HI) as Hdone. pose proof (li_quiet _ _ HI) as Hquiet.
  assert (Hl : close_crit pc = true → sh_lock s = true) by (intros Hc; eapply (li_crit _ _ HI); [exact Ht|by rewrite close_crit_of]).
  clear -Hs Hok Hpanic Hdone Hquiet Hl. close_cases Hs; cbn in *; destruct_and?; subst; rewrite ?Hpanic.
  all: split_and!; auto; try congruence; destruct (sh_done _) eqn:Ed; naive_solver.
Qed.

Lemma life_close : life_inv s' (<[i := w pc']> ts).
Proof.
  assert (Hzero : ∀ q, <[i := w pc']> ts !! 0%nat = Some (Serving q) ↔ ts !! 0%nat = Some (Serving q)).
  { intros q. destruct (decide (i = 0%nat)) as [Hi|Hi]; [|by rewrite list_lookup_insert_ne]. rewrite <-Hi.
    rewrite (moved_at ts i (w pc) (w pc')), Ht by done. split; intros [= E]; by destruct (close_not_serving _ _ E). }
  destruct close_server as [Hserver Hopen]. destruct close_self as (S1 & S2 & S3 & S4).
  destruct (lock_moved s s' ts i _ _ HI Ht close_lock) as (H1 & H2 & H3).
  destruct (active_moved s s' ts i _ _ HI Ht close_actives) as (H4 & H5 & H6 & H7); [done|].
  split; try done.
  - destruct (li_zero _ _ HI) as [q Hq]. exists q. by apply Hzero.
  - intros j q [[_ E]|[_ E]]%(moved_cases _ _ _ _ Ht); [by destruct (close_not_serving _ _ (eq_sym E))|by eapply (li_one _ _ HI)].
  - intros j u [[-> ->]|[Hj Hu]]%(moved_cases _ _ _ _ Ht); [by destruct Hw as [-> | ->]|by eapply close_others].
  - intros l Hl. rewrite Hserver, Hzero. by apply (li_open _ _ HI), Hopen.
  - intros q l Hq Hp Hl. eapply (moved_exists ts i _ _ Ht); [by destruct Hw as [-> | ->]|].
    by eapply (li_watch _ _ HI); [apply Hzero| |rewrite <-Hserver].
Qed.
End closing.

(** The thread of [Serve] moves. *)
Lemma life_serving s s' ts pc pc' :
  life_inv s ts → ts !! 0%nat = Some (Serving pc) → lock_moves s s' (Serving pc) (Serving pc') →
  sh_panic s' = sh_panic s → sh_closes s' = sh_closes s → sh_closed s' = sh_closed s → sh_done s' = sh_done s →
  (sh_lock s = true → sh_lock s' = false → sh_closed s = true → sh_done s = true) →
  (sh_closed s = true → sh_open s' ⊆ sh_open s) → serve_ok s' pc' →
  (∀ j u, j ≠ 0%nat → ts !! j = Some u → thread_ok s u → thread_ok s' u) →
  (∀ l, l ∈ sh_open s' → sh_server s' = Some l ∨ pc' = SvPublish l) →
  (published pc' = true → ∀ l, sh_server s' = Some l → ∃ j u, ts !! j = Some u ∧ watcher u = true) →
  life_inv s' (<[0%nat := Serving pc']> ts).
Proof.
  intros HI Ht Hl Hpanic Hcs Hcl Hdn Hq Hsub Hok Hoth Hopen Hwat.
  destruct (lock_moved s s' ts 0 _ _ HI Ht Hl) as (H1 & H2 & H3).
  destruct (active_moved s s' ts 0 (Serving pc) (Serving pc') HI Ht) as (H4 & H5 & H6 & H7);
    [left; split_and!; [done..|by left]|by rewrite Hcl|].
  pose proof (moved_at ts 0 (Serving pc) (Serving pc') Ht) as Hat.
  split; try done.
  - rewrite Hpanic. apply (li_panic _ _ HI).
  - rewrite Hdn, Hcl. apply (li_done _ _ HI).
  - rewrite Hdn, Hcl. intros Hf Hc. destruct (sh_lock s) eqn:El; [by apply Hq|by apply (li_quiet _ _ HI)].
  - by exists pc'.
  - intros j q [[-> _]|[_ E]]%(moved_cases _ _ _ _ Ht); [done|by eapply (li_one _ _ HI)].
  - intros j u [[-> ->]|[Hj Hu]]%(moved_cases _ _ _ _ Ht); [done|]. eapply Hoth; [done..|by eapply (li_ok _ _ HI)].
  - intros l Hlo. rewrite Hat. destruct (Hopen l Hlo) as [? | ->]; auto.
  - intros q l Hp Hpub Hs. rewrite Hat in Hp. injection Hp as <-. by eapply (moved_exists ts 0 _ _ Ht); [|apply (Hwat Hpub l)].
Qed.
Lemma life_others s ts j u : life_inv s ts → j ≠ 0%nat → ts !! j = Some u → ∀ pc, u ≠ Serving pc.
Proof. intros HI Hj Hu pc ->. by destruct Hj; eapply (li_one _ _ HI). Qed.

Lemma life_serve ch s s' ts pc pc' new :
  life_inv s ts → ts !! 0%nat = Some (Serving pc) → serve_next ch pc s = Some (pc', s', new) →
  (∀ l, pc = SvGo l → ∃ j u, ts !! j = Some u ∧ watcher u = true) → life_inv s' (<[0%nat := Serving pc']> ts).
Proof.
  intros HI Ht Hs Hgo. pose proof (li_ok _ _ HI _ _ Ht) as Hok. pose proof (li_watch _ _ HI pc) as Hw.
  assert (Hcrit : serve_crit pc = true → sh_lock s = true) by (intros Hc; by eapply (li_crit _ _ HI)).
  assert (Hpo : ∀ l, l ∈ sh_open s → sh_server s = Some l ∨ pc = SvPublish l).
  { intros l Hl. destruct (li_open _ _ HI l Hl) as [?|E]; [by left|]. rewrite Ht in E. injection E as ->. by right. }
  assert (Hnc : serve_crit pc = true → ∀ j u, j ≠ 0%nat → ts !! j = Some u → crit u = false).
  { intros Hc j u Hj Hu. destruct (crit u) eqn:E; [|done]. destruct Hj. by eapply (li_mutex _ _ HI). }
  destruct pc as [| | |l|l|l|l|r]; cbn [serve_next] in Hs;
    [destruct (sh_lock s) eqn:El|destruct (sh_closed s) eqn:Ec|destruct (ch_new ch) as [l|e]; [destruct (bool_decide _) eqn:Eb|]|..|
     destruct (bool_decide _) eqn:Eb|]; simplify_eq; cbn in Hok, Hcrit, Hnc; destruct_and?;
    try match goal with H : sh_open s = _ |- _ => rename H into Hso end.
  all: eapply life_serving; [exact HI|exact Ht|..]; try done.
  all: try (unfold lock_moves; cbn; auto; fail).
  all: try (cbn; congruence).
  all: try (intros l' Hl'; destruct (Hpo l' Hl'); [by left|discriminate]).
  all: try (intros _ l' Hl'; by eauto).
  - cbn. pose proof (li_quiet _ _ HI El). auto.
  - cbn. rewrite Hso. split_and!; [done..|]. set_solver.
  - intros j u Hj Hu. pose proof (life_others _ _ _ _ HI Hj Hu) as Hns. destruct u as [q|[]| |[]]; try done. by destruct (Hns q).
  - intros l' Hl'. right. cbn in Hl'. rewrite Hso in Hl'. f_equal. set_solver.
  - intros j u Hj Hu Hu'. specialize (Hnc eq_refl j u Hj Hu). pose proof (life_others _ _ _ _ HI Hj Hu) as Hns.
    destruct u as [q|[]| |[]]; try done; [by destruct (Hns q eq_refl)|..]; destruct Hu'; congruence.
  - intros l' Hl'. cbn in *. left. f_equal. set_solver.
Qed.

(** A thread starts, at its first statement. *)
Lemma life_spawn s ts t : life_inv s ts → t = Closing ClLock ∨ t = Waiting → life_inv s (ts ++ [t]).
Proof.
  intros HI Ht.
  assert (Hq : crit t = false ∧ active t = false ∧ (∀ q, t ≠ Serving q) ∧ thread_ok s t) by (by destruct Ht as [-> | ->]).
  destruct Hq as (Hcr & Hac & Hns & Hok).
  assert (Hin : ∀ j u, ts !! j = Some u → (ts ++ [t]) !! j = Some u) by (intros; by apply lookup_app_l_Some).
  assert (Hmore : ∀ P : thread → bool, (∃ j u, ts !! j = Some u ∧ P u = true) → ∃ j u, (ts ++ [t]) !! j = Some u ∧ P u = true) by naive_solver.
  assert (Hout : ∀ j u, (ts ++ [t]) !! j = Some u → ts !! j = Some u ∨ u = t) by (intros j u [[_ ?]|[_ <-]]%lookup_snoc_Some; auto).
  destruct HI. split; try done.
  - intros i j u v [?| ->]%Hout [?| ->]%Hout ??; [by eauto|congruence..].
  - intros i u [?| ->]%Hout ?; [by eauto|congruence].
  - intros Hl. apply Hmore. auto.
  - destruct li_zero0 as [q Hz]. exists q. auto.
  - intros i q [?|E]%Hout; [eauto|by destruct (Hns q)].
  - intros i u [?| ->]%Hout; [by eauto|done].
  - intros l Hl. destruct (li_open0 l Hl); auto.
  - intros l ??. apply Hmore. eauto.
  - intros q l [Hz|E]%Hout ??; [apply Hmore; by eauto|by destruct (Hns q)].
  - intros i j u v [?| ->]%Hout [?| ->]%Hout ??; [by eauto|congruence..].
  - intros i u [?| ->]%Hout ?; [by eauto|congruence].
Qed.

(** The goroutine leaves its select. *)
Lemma life_wakes s ts i pc : life_inv s ts → ts !! i = Some Waiting → pc = ClLock ∨ pc = ClEnd ∧ sh_closed s = true →
  life_inv s (<[i := Cancelling pc]> ts).
Proof.
  intros HI Ht Hpc. set (t' := Cancelling pc).
  assert (Hq : crit t' = false ∧ active t' = false ∧ thread_ok s t') by (by destruct Hpc as [-> |[-> ?]]).
  destruct Hq as (Hcr & Hac & Hok).
  destruct (lock_moved s s ts i _ t' HI Ht) as (H1 & H2 & H3); [by left|].
  destruct (active_moved s s ts i _ t' HI Ht) as (H4 & H5 & H6 & H7); [left; split_and!; [done..|by left]|done|].
  assert (Hi : i ≠ 0%nat) by (destruct (li_zero _ _ HI) as [q Hz]; intros ->; congruence).
  pose proof HI as [? ? ? _ _ _ ? ? ? ? ? Hw ? ? ?]. split; try done; rewrite ?list_lookup_insert_ne by done; try done.
  - intros j q [[_ ?]|[_ ?]]%(moved_cases _ _ _ _ Ht); [done|by eauto].
  - intros j u [[-> ->]|[_ ?]]%(moved_cases _ _ _ _ Ht); by eauto.
  - intros q l ???. eapply (moved_exists ts i _ _ Ht); [done|by eapply Hw].
Qed.

(** *** What happens from outside *)
Lemma life_cancelled s ts : life_inv s ts → life_inv (cancel s) ts.
Proof.
  by intros []; split.
Qed.
Lemma life_failed s s' ts l e : life_inv s ts → ts !! 0%nat = Some (Serving (SvServe l)) → s' = s ∨ s' = drop_conn l s →
  life_inv s' (<[0%nat := Serving (SvEnd (Err e))]> ts).
Proof.
  intros HI Ht Hs'.
  assert (Hsub : sh_open s' ⊆ sh_open s) by (destruct Hs' as [-> | ->]; cbn; set_solver).
  assert (Hsrv : sh_server s' = sh_server s) by (by destruct Hs' as [-> | ->]).
  eapply life_serving; [exact HI|exact Ht|..]; try by destruct Hs' as [-> | ->].
  - left. by destruct Hs' as [-> | ->].
  - destruct Hs' as [-> | ->]; cbn; congruence.
  - intros j u Hj Hu Ho. pose proof (life_others _ _ _ _ HI Hj Hu) as Hns.
    destruct Hs' as [-> | ->]; [done|]. destruct u as [q|[]| |[]]; try done. by destruct (Hns q).
  - intros l' Hl'%Hsub. rewrite Hsrv. destruct (li_open _ _ HI l' Hl'); [by left|congruence].
  - intros _ l' Hl'. rewrite Hsrv in Hl'. by eapply (li_watch _ _ HI).
Qed.

Lemma life_inv_step c c' : life_step c c' → life_inv c.1 c.2 → life_inv c'.1 c'.2.
Proof.
  intros [Hs|Hs] HI; [destruct Hs as [i ch s ts t t' s' new Hi Hs]|destruct Hs as [s ts|s ts|i s ts l e s' Hi Hs']]; cbn [fst snd] in *.
  - destruct t as [pc|pc| |pc]; cbn [thread_next] in Hs.
    + assert (i = 0%nat) as -> by (by eapply (li_one _ _ HI)).
      destruct (serve_next ch pc s) as [[[pc' s1] new1]|] eqn:E; [|done]. injection Hs as <- <- <-.
      assert (Hd : (∃ l, pc = SvGo l) ∨ ∀ l, pc ≠ SvGo l) by (destruct pc; by eauto).
      destruct Hd as [[l ->]|Hn].
      * injection E as <- <- <-. rewrite <-insert_app_l by (by eapply lookup_lt_Some).
        eapply (life_serve ch s); [by apply life_spawn; [|right]|by apply lookup_app_l_Some|done|].
        intros l' _. exists (length ts), Waiting. by rewrite list_lookup_middle.
      * assert (new1 = []) as ->.
        { destruct pc as [| | |l|l|l|l|r]; cbn in E; repeat case_match; simplify_eq; try done. by destruct (Hn l). }
        rewrite app_nil_r. eapply life_serve; [done..|]. intros l ->. by destruct (Hn l).
    + destruct (close_next pc s) as [[pc' s1]|] eqn:E; [|done]. injection Hs as <- <- <-. rewrite app_nil_r. eapply (life_close s s1 ts i Closing pc pc'); auto.
    + destruct (sh_ctx s && _); [|destruct (sh_done s) eqn:Ed; [|done]]; injection Hs as <- <- <-; rewrite app_nil_r; apply life_wakes; auto.
      right. split; [done|]. by apply (li_done _ _ HI).
    + destruct (close_next pc s) as [[pc' s1]|] eqn:E; [|done]. injection Hs as <- <- <-. rewrite app_nil_r. eapply (life_close s s1 ts i Cancelling pc pc'); auto.
  - by apply life_cancelled.
  - apply life_spawn; auto.
  - assert (i = 0%nat) as -> by (by eapply (li_one _ _ HI)). by eapply life_failed.
Qed.
Lemma life_inv_start : life_inv life_start.1 life_start.2.
Proof.
  assert (Hout : ∀ i t, [Serving SvLock] !! i = Some t → i = 0%nat ∧ t = Serving SvLock) by (by intros [|i] t; cbn; [intros [= <-]|]).
  split; cbn; try done; try set_solver.
  all: try (by intros; repeat match goal with H : _ !! _ = Some _ |- _ => apply Hout in H as [-> ->] end).
Qed.
Lemma life_inv_reachable c : rtc life_step life_start c → life_inv c.1 c.2.
Proof.
  intros H. refine (rtc_ind_r (λ c, life_inv c.1 c.2) life_start life_inv_start _ c H).
  intros c1 c2 _ Hs HI. by eapply life_inv_step.
Qed.

(** ** Shutting down *)
Definition close_weight (pc : close_pc) : nat :=
  match pc with ClLock => 7 | ClTest => 6 | ClMark => 5 | ClDone => 4 | ClRead => 3 | ClUnlock _ => 2 | ClConn _ => 1 | ClEnd => 0 end.
Definition thread_weight (t : thread) : nat :=
  match t with
  | Serving SvLock => 15 | Serving SvTest => 14 | Serving SvNew => 13 | Serving (SvPublish _) => 12
  | Serving (SvUnlock _) => 11 | Serving (SvGo _) => 10 | Serving (SvServe _) => 1 | Serving (SvEnd _) => 0
  | Waiting => 8 | Closing pc | Cancelling pc => close_weight pc
  end.
(** No run of the threads alone is longer. *)
Definition life_weight (c : life) : nat := sum_list_with thread_weight c.2.
(** The server was asked to stop. *)
Definition shutdown (c : life) : bool :=
  sh_ctx c.1 || sh_closed c.1 || existsb (λ t, match t with Closing _ => true | _ => false end) c.2.
Definition ended (t : thread) : bool :=
  match t with Serving (SvEnd _) | Closing ClEnd | Cancelling ClEnd => true | _ => false end.
Definition stuck (c : life) : Prop := ∀ c', ¬ goes_on c c'.

Lemma goes_on_weight c c' : goes_on c c' → (life_weight c' < life_weight c)%nat.
Proof.
  intros [i ch s ts t t' s' new Hi Hs]. unfold life_weight; cbn [snd].
  apply list_elem_of_split_length in Hi as (l1 & l2 & -> & ->).
  rewrite <-(Nat.add_0_r (length l1)), insert_app_r, !sum_list_with_app. cbn.
  assert (thread_weight t' + sum_list_with thread_weight new < thread_weight t)%nat; [|lia].
  destruct t as [[]|pc| |pc]; cbn in Hs; try destruct pc as [| | | | |srv|[l|]|]; cbn in Hs; repeat case_match; simplify_eq; cbn; lia.
Qed.
Lemma run_weight n c c' : nsteps goes_on n c c' → (n + life_weight c' <= life_weight c)%nat.
Proof. induction 1 as [|n c c1 c' Hs _ IH]; [lia|]. apply goes_on_weight in Hs. lia. Qed.
Lemma run_life n c c' : nsteps goes_on n c c' → rtc life_step c c'.
Proof. induction 1 as [|n c c1 c' Hs _ IH]; [done|]. eapply rtc_l; [by left|done]. Qed.

Lemma shutdown_step c c' : goes_on c c' → shutdown c = true → shutdown c' = true.
Proof.
  intros [i ch s ts t t' s' new Hi Hs]. unfold shutdown; cbn [fst snd]. rewrite !orb_true_iff.
  assert (Hm : sh_ctx s' = sh_ctx s ∧ (sh_closed s = true → sh_closed s' = true) ∧ (∀ pc, t = Closing pc → ∃ pc', t' = Closing pc')).
  { destruct t as [[]|pc| |pc]; cbn in Hs; try destruct pc as [| | | | |srv|[l|]|]; cbn in Hs; repeat case_match; simplify_eq; cbn; naive_solver. }
  destruct Hm as (-> & Hc & Hcl). intros [[?|?]|(u & Hu & Hp)%existsb_exists]; [by auto|by auto|].
  right. apply existsb_exists. apply list_elem_of_In, list_elem_of_lookup in Hu as [j Hj].
  destruct (decide (i = j)) as [<-|Hne].
  - rewrite Hi in Hj. injection Hj as <-. destruct t as [|pc| |]; try done. destruct (Hcl pc eq_refl) as [pc' ->].
    exists (Closing pc'). split; [|done]. apply list_elem_of_In, elem_of_app. left. eapply list_elem_of_lookup_2, moved_at, Hi.
  - exists u. split; [|done]. apply list_elem_of_In, elem_of_app. left. eapply list_elem_of_lookup_2. by rewrite list_lookup_insert_ne.
Qed.

(** A thread that cannot go on. *)
Lemma stuck_at s ts i t : stuck (s, ts) → ts !! i = Some t → ∀ ch, thread_next ch t s = None.
Proof. intros Hs Ht ch. destruct (thread_next ch t s) as [[[t' s'] new]|] eqn:E; [|done]. destruct (Hs _ (goes_on_at _ _ _ _ _ _ _ _ Ht E)). Qed.
Definition some_choice : choice := MkChoice (inr (errorf "listen")) (Ok tt) true.
Lemma stuck_unlocked s ts : life_inv s ts → stuck (s, ts) → sh_lock s = false.
Proof.
  intros HI Hst. destruct (sh_lock s) eqn:El; [|done]. destruct (li_holder _ _ HI El) as (i & t & Ht & Hc).
  pose proof (stuck_at _ _ _ _ Hst Ht some_choice) as Hn.
  destruct t as [[]|[]| |[]]; try done; cbn in Hn; by repeat case_match.
Qed.
Lemma stuck_thread s ts i t : life_inv s ts → stuck (s, ts) → ts !! i = Some t →
  ended t = true ∨ (t = Waiting ∧ sh_ctx s = false ∧ sh_done s = false) ∨ ∃ l, t = Serving (SvServe l) ∧ l ∈ sh_open s.
Proof.
  intros HI Hst Ht. pose proof (stuck_at _ _ _ _ Hst Ht some_choice) as Hn. pose proof (stuck_unlocked _ _ HI Hst) as Hl.
  assert (Hno : ∀ pc, close_next pc s = None → pc = ClEnd).
  { intros pc. destruct pc as [| | | | |srv|[l|]|]; cbn; rewrite ?Hl; by try destruct (sh_closed s). }
  destruct t as [pc|pc| |pc]; cbn [thread_next] in Hn.
  - destruct pc as [| | |l|l|l|l|r]; cbn in Hn; rewrite ?Hl in Hn; try (by repeat case_match); [|by left].
    destruct (bool_decide _) eqn:Eb; [|done]. apply bool_decide_eq_true in Eb. right. right. by eexists.
  - left. destruct (close_next pc s) as [[]|] eqn:E; [done|]. by rewrite (Hno pc E).
  - right. left. cbn in Hn. destruct (sh_ctx s), (sh_done s); by cbn in Hn.
  - left. destruct (close_next pc s) as [[]|] eqn:E; [done|]. by rewrite (Hno pc E).
Qed.
Lemma stuck_closed s ts : life_inv s ts → stuck (s, ts) → shutdown (s, ts) = true → sh_open s = ∅ ∧ Forall ended ts.
Proof.
  intros HI Hst Hsd. pose proof (stuck_unlocked _ _ HI Hst) as Hl.
  assert (Hact : ∀ i t, ts !! i = Some t → active t = false).
  { intros i t Ht. by destruct (stuck_thread _ _ _ _ HI Hst Ht) as [He|[(-> & _)|(l & -> & _)]]; [destruct t as [|[]| |[]]|..]. }
  assert (Hend : ∀ i t, ts !! i = Some t → watcher t = true → sh_closed s = false → t = Waiting ∧ sh_ctx s = false).
  { intros i t Ht Hw Hc. destruct (stuck_thread _ _ _ _ HI Hst Ht) as [He|[(-> & ? & _)|(l & -> & _)]]; [|done..].
    pose proof (li_ok _ _ HI _ _ Ht) as Ho. destruct t as [|[]| |[]]; try done. cbn in Ho. congruence. }
  destruct (sh_closed s) eqn:Ec.
  - assert (Hno : ∀ l, l ∉ sh_open s).
    { intros l Hlo. destruct (li_pending _ _ HI l Hlo Ec) as (i & t & Ht & Ha). by rewrite (Hact _ _ Ht) in Ha. }
    split; [by apply elem_of_equiv_empty_L|]. apply Forall_lookup. intros i t Ht.
    destruct (stuck_thread _ _ _ _ HI Hst Ht) as [He|[(_ & _ & Hd)|(l & _ & Hlo)]]; [by rewrite He| |by destruct (Hno l)].
    rewrite (li_quiet _ _ HI Hl Ec) in Hd. discriminate.
  - assert (Hctx : sh_ctx s = true).
    { unfold shutdown in Hsd; cbn in Hsd. rewrite Ec, orb_false_r, orb_true_iff in Hsd. destruct Hsd as [?|(t & Ht & Hp)%existsb_exists]; [done|].
      apply list_elem_of_In, list_elem_of_lookup in Ht as [i Ht]. destruct t as [|pc| |]; try done.
      destruct (stuck_thread _ _ _ _ HI Hst Ht) as [He|[(? & _)|(l & ? & _)]]; [|done..].
      pose proof (li_ok _ _ HI _ _ Ht) as Ho. destruct pc; try done. cbn in Ho. congruence. }
    assert (Hnw : ∀ i t, ts !! i = Some t → watcher t = false).
    { intros i t Ht. destruct (watcher t) eqn:Hw; [|done]. destruct (Hend _ _ Ht Hw eq_refl). congruence. }
    destruct (li_zero _ _ HI) as [pc Hz].
    assert (Hno : ∀ l, sh_server s = Some l → published pc = false).
    { intros l Hs. destruct (published pc) eqn:Hp; [|done]. destruct (li_watch _ _ HI pc l Hz Hp Hs) as (i & t & Ht & Hw). by rewrite (Hnw _ _ Ht) in Hw. }
    assert (He : ∃ r, pc = SvEnd r).
    { pose proof (li_ok _ _ HI _ _ Hz) as Ho. destruct (stuck_thread _ _ _ _ HI Hst Hz) as [He|[(? & _)|(l & [= ->] & _)]]; [|done|].
      - destruct pc; try done. by eexists.
      - by apply Hno in Ho. }
    destruct He as [r ->]. split.
    + apply elem_of_equiv_empty_L. intros l Hlo. destruct (li_open _ _ HI l Hlo) as [Hs|?]; [by apply Hno in Hs|congruence].
    + apply Forall_lookup. intros i t Ht. destruct (stuck_thread _ _ _ _ HI Hst Ht) as [He|[(_ & Hc & _)|(l & -> & _)]]; [by rewrite He|congruence|].
      pose proof (li_one _ _ HI _ _ Ht) as ->. congruence.
Qed.

(** A schedule: which thread goes on, and what it meets. *)
Definition goes_on_at_b (i : nat) (ch : choice) (c : life) : option life :=
  match c.2 !! i with
  | Some t => match thread_next ch t c.1 with Some (t', s', new) => Some (s', <[i := t']> c.2 ++ new) | None => None end
  | None => None
  end.
Fixpoint life_run (l : list (nat * choice)) (c : life) : option life :=
  match l with [] => Some c | (i, ch) :: l => match goes_on_at_b i ch c with Some c => life_run l c | None => None end end.
Lemma life_run_steps l c c' : life_run l c = Some c' → nsteps goes_on (length l) c c'.
Proof.
  revert c. induction l as [|[i ch] l IH]; intros [s ts]; cbn; unfold goes_on_at_b; cbn; [intros [= ->]; constructor|].
  destruct (ts !! i) as [t|] eqn:Ht; [|done]. destruct (thread_next ch t s) as [[[t' s'] new]|] eqn:E; [|done].
  intros Hr. eapply nsteps_l; [by econstructor|by apply IH].
Qed.
Lemma ended_stuck c : Forall ended c.2 → stuck c.
Proof.
  intros He c' Hg. revert He. destruct Hg as [i ch s ts t t' s' new Hi Hs]. intros He. pose proof (Forall_lookup_1 _ _ _ _ He Hi) as Hend.
  by destruct t as [[]|[]| |[]].
Qed.

(** C32: [Serve], the calls of [Close] and the goroutine that watches the
    context, interleaved in any way: the channel is never closed a second
    time, which would panic; the listener is closed at most once; the threads
    alone make a bounded number of steps; and once the context is cancelled or
    [Close] was called, in whatever state the server then is, they cannot stop
    before every one of them has returned and no listener is open. *)
Theorem serve_stops c n c' :
  rtc life_step life_start c → nsteps goes_on n c c' →
  sh_panic c'.1 = false ∧ (length (sh_closes c'.1) <= 1)%nat ∧ (n <= life_weight c)%nat ∧
  (shutdown c = true → stuck c' → sh_open c'.1 = ∅ ∧ Forall ended c'.2).
Proof.
  intros Hc Hn. assert (Hc' : rtc life_step life_start c') by (etrans; [exact Hc|by eapply run_life]).
  pose proof (life_inv_reachable _ Hc') as HI. split_and!.
  - apply (li_panic _ _ HI).
  - destruct (li_closes _ _ HI) as [-> |[_ ->]]; cbn; lia.
  - pose proof (run_weight _ _ _ Hn). lia.
  - intros Hsd Hst. destruct c' as [s ts]. apply stuck_closed; [done..|]. clear -Hsd Hn.
    induction Hn as [|n c c1 c' Hs _ IH]; [done|]. by eapply IH, shutdown_step.
Qed.

(** The server serves on listener 7, the context is cancelled, the goroutine
    closes the server, a call of [Close] finds it closed. *)
Definition listening (i : nat) : nat * choice := (i, MkChoice (inl 7) (Ok tt) true).
Definition serving : list (nat * choice) := map listening [0; 0; 0; 0; 0; 0]%nat.
Definition listening_server : life := default life_start (life_run serving life_start).
Definition cancelled_server : life := (cancel listening_server.1, listening_server.2 ++ [Closing ClLock]).
Definition stopping : list (nat * choice) := map listening [1; 1; 1; 1; 1; 1; 1; 2; 1; 2; 0]%nat.
Definition stopped_server : life := default life_start (life_run stopping cancelled_server).
Lemma serve_stops_witness :
  stopped_server.2 = [Serving (SvEnd (Ok tt)); Cancelling ClEnd; Closing ClEnd] ∧ sh_closes stopped_server.1 = [7] ∧ sh_open stopped_server.1 = ∅.
Proof.
  split; [vm_compute; reflexivity|]. split; [vm_compute; reflexivity|].
  apply (serve_stops cancelled_server (length stopping) stopped_server).
  - transitivity listening_server; [apply (run_life (length serving)), life_run_steps; vm_compute; reflexivity|].
    eapply rtc_l; [right; apply (outside_cancel listening_server.1 listening_server.2)|].
    eapply rtc_l; [right; apply outside_close|]. apply rtc_refl.
  - apply life_run_steps. vm_compute. reflexivity.
  - vm_compute. reflexivity.
  - apply ended_stuck. vm_compute. repeat constructor.
Defined.
