(* ===== verification/Lifecycle.v ===== *)
(** * Creating a switch: pkg/vswitch/lifecycle.go

    [StartReserved] claims the pin directory, loads and pins the BPF objects,
    reserves every slot, and builds the management planes and the transit
    device; what was made is recorded in [cleanupState] and undone when a later
    step fails.  Functions that extend that record give it back next to their
    result, also when they fail.  Progress and clean-up messages on the
    standard error are left out. *)
From S2P Require Import Prelude Errors GoStrings GoTime GoNet BpfTypes Mac Geneve Prog SlotTable Netns.
From S2P Require Import Netlink Config MgmtService Metadata Loader Context Flock Dhcp Provision.

Definition defaultPortMTU : Z := 1500.

(** ** Updates of the configuration in place *)
Definition set_TransitDevMTU (mtu : Z) (c : Config) : Config :=
  MkConfig (cf_Name c) (cf_SwitchNetNS c) (cf_PortNetNS c) (cf_NumPorts c) (cf_MACAddr c)
    (cf_FloatingIPBase c) (cf_GenerationBits c) (cf_MgmtExtracts c) (cf_MgmtServices c)
    (cf_TransitDev c) (cf_TransitAddr c) (cf_TransitNexthop c) (cf_TransitAddrAuto c)
    mtu (cf_TransitDevMTUAuto c) (cf_GenevePortBase c) (cf_GeneveLocator c)
    (cf_GeneveTLVLocator c) (cf_GeneveEncapEth c) (cf_MTU c) (cf_PortMAC c) (cf_DefaultMode c)
    (cf_genevePortBaseDefaulted c).
Definition set_Transit (addr : option IPNet) (nexthop : IP) (c : Config) : Config :=
  MkConfig (cf_Name c) (cf_SwitchNetNS c) (cf_PortNetNS c) (cf_NumPorts c) (cf_MACAddr c)
    (cf_FloatingIPBase c) (cf_GenerationBits c) (cf_MgmtExtracts c) (cf_MgmtServices c)
    (cf_TransitDev c) addr nexthop (cf_TransitAddrAuto c)
    (cf_TransitDevMTU c) (cf_TransitDevMTUAuto c) (cf_GenevePortBase c) (cf_GeneveLocator c)
    (cf_GeneveTLVLocator c) (cf_GeneveEncapEth c) (cf_MTU c) (cf_PortMAC c) (cf_DefaultMode c)
    (cf_genevePortBaseDefaulted c).

(** ** The transit MTU *)
Definition getTransitDeviceMTU (transitDev : string) : M Z :=
  let* callerNs := mwrap (λ e, errorw "failed to get current netns: " e "") GetCurrent in
  with_defer (NetNS_Close callerNs)
    (mwrap (λ e, errorw ("failed to get MTU for transit device " +:+ transitDev +:+ ": ") e "")
           (GetMTUInNs callerNs transitDev)).

Definition encap_overhead (cfg : Config) : Z :=
  if cf_GeneveEncapEth cfg then GeneveEthOverhead else GeneveIPOverhead.
Definition options_overhead (cfg : Config) : Z :=
  if cf_TransitDevMTUAuto cfg then MaxGeneveOptsLen
  else if cf_GeneveLocator cfg =? GeneveLocatorTLV then geneveTLVLocatorWireLen else 0.

Definition resolveTransitMTU (cfg : Config) (portMTU : Z) : M Config :=
  let baseOverhead := encap_overhead cfg in
  let overheadName := if cf_GeneveEncapEth cfg then "Ether-over-GENEVE" else "IP-over-GENEVE" in
  let optionsOverhead := options_overhead cfg in
  let requiredMTU := portMTU + baseOverhead + optionsOverhead in
  let too_small what mtu :=
    errorf (what +:+ " " +:+ fmt_d mtu +:+ " is too small: requires at least " +:+ fmt_d requiredMTU
            +:+ " (port MTU " +:+ fmt_d portMTU +:+ " + " +:+ overheadName +:+ " overhead "
            +:+ fmt_d baseOverhead +:+ " + fixed options overhead " +:+ fmt_d optionsOverhead +:+ ")") in
  if cf_TransitDevMTUAuto cfg then mok (set_TransitDevMTU requiredMTU cfg)
  else if 0 <? cf_TransitDevMTU cfg then
    if cf_TransitDevMTU cfg <? requiredMTU then merr (too_small "transit-dev-mtu" (cf_TransitDevMTU cfg))
    else mok cfg
  else
    let* transitMTU := getTransitDeviceMTU (cf_TransitDev cfg) in
    if transitMTU <? requiredMTU
    then merr (too_small ("transit device " +:+ cf_TransitDev cfg +:+ " MTU") transitMTU)
    else mok cfg.

Definition validateTransitDeviceEarly (cfg : Config) : M Config :=
  if bool_decide (cf_TransitDev cfg = "") then mok cfg
  else
    let* isDown := mwrap (λ e, errorw "failed to check transit device state: " e "") (IsLinkDown (cf_TransitDev cfg)) in
    if negb isDown
    then merr (errorf ("transit device " +:+ cf_TransitDev cfg +:+ " must be DOWN before use (safety check)"))
    else if 0 <? cf_MTU cfg then resolveTransitMTU cfg (cf_MTU cfg) else mok cfg.

(** The largest MTU of the port peers; a missing device is skipped. *)
Fixpoint max_peer_mtu (n : nat) (cfg : Config) (ns : NetNS) (i portMTU : Z) : M Z :=
  match n with
  | O => mok portMTU
  | S n =>
      let~ r := GetMTUInNs ns (cfg_PeerDeviceName cfg i) in
      match r with
      | Ok mtu => max_peer_mtu n cfg ns (i + 1) (if portMTU <? mtu then mtu else portMTU)
      | Err _ => max_peer_mtu n cfg ns (i + 1) portMTU
      | Panic => mpanic
      | OutOfFuel => Ret OutOfFuel
      end
  end.
Fixpoint max_mgmt_mtu (n : nat) (cfg : Config) (ns : NetNS) (i portMTU : Z) : M Z :=
  match n with
  | O => mok portMTU
  | S n =>
      let mgmtName := MgmtDeviceName cfg i in
      let* mtu := mwrap (λ e, errorw ("failed to get MTU for " +:+ mgmtName +:+ ": ") e "") (GetMTUInNs ns mgmtName) in
      max_mgmt_mtu n cfg ns (i + 1) (if portMTU <? mtu then mtu else portMTU)
  end.
Definition validateMTUSlowPath (cfg : Config) (switchNs : NetNS) : M Config :=
  if negb (cf_MTU cfg =? 0) || bool_decide (cf_TransitDev cfg = "") then mok cfg
  else
    let* portMTU := max_peer_mtu (Z.to_nat (cf_NumPorts cfg)) cfg switchNs 0 0 in
    let* portMTU := max_mgmt_mtu (length (cf_MgmtExtracts cfg)) cfg switchNs 0 portMTU in
    resolveTransitMTU cfg (if portMTU =? 0 then defaultPortMTU else portMTU).

(** ** Port devices of the synchronous start *)
Fixpoint build_veth_specs (n : nat) (cfg : Config) (portNsFd i : Z) : res (list VethSpec) :=
  match n with
  | O => Ok []
  | S n =>
      let! peerMAC := GetPortMAC (cf_MACAddr cfg) (cf_PortMAC cfg) i in
      let! rest := build_veth_specs n cfg portNsFd (i + 1) in
      Ok (MkVethSpec (cfg_PeerDeviceName cfg i) (cfg_PortDeviceName cfg i) (cf_MTU cfg) portNsFd
            (Some peerMAC) PortLinkGroup :: rest)
  end.
Definition buildVethSpecs (cfg : Config) (portNsFd : Z) : res (list VethSpec) :=
  build_veth_specs (Z.to_nat (cf_NumPorts cfg)) cfg portNsFd 0.

Fixpoint attach_tc_loop (n : nat) (cfg : Config) (i : Z) : M (list Z) :=
  match n with
  | O => mok []
  | S n =>
      let peerName := cfg_PeerDeviceName cfg i in
      let* link := mwrap (λ e, errorw ("get link " +:+ peerName +:+ ": ") e "") (LinkByName peerName) in
      let* _ := mwrap (λ e, errorw ("configure " +:+ peerName +:+ ": ") e "")
                      (AddClsactWithBlock (lk_Index link) PortIngressBlockID) in
      let* rest := attach_tc_loop n cfg (i + 1) in
      mok (lk_Index link :: rest)
  end.
Definition attachTCToPorts (cfg : Config) : M (list Z) := attach_tc_loop (Z.to_nat (cf_NumPorts cfg)) cfg 0.

Definition createPortVethPairs (cfg : Config) (switchNs portNs : NetNS) : M (list Z) :=
  let portNsFd := ns_handle portNs in
  let* _ := mwrap (λ e, errorw "failed to create veth pairs: " e "")
              (Do switchNs (let* specs := mpure (buildVethSpecs cfg portNsFd) in CreateVethPairs specs)) in
  mwrap (λ e, errorw "failed to configure ports in switch namespace: " e "") (Do switchNs (attachTCToPorts cfg)).

(** ** Slots *)
Fixpoint init_slots_loop (n : nat) (numSlots i : Z) : M unit :=
  match n with
  | O => mok tt
  | S n =>
      let~ ok := InitSlotReserved numSlots i in
      if negb ok
      then merr (errorf ("failed to reserve slot " +:+ fmt_u i +:+ " during init (unexpected non-Free state)"))
      else init_slots_loop n numSlots (i + 1)
  end.
Definition initBPFSlotsReserved (numSlots numPorts : Z) : M unit :=
  init_slots_loop (Z.to_nat numPorts) numSlots 0.

(** ** Routes for the floating addresses *)
Definition floatingReturnNets (base : IP) (generationBits : Z) : list IPNet :=
  if bool_decide (To4 base = None) || (20 <? generationBits) then []
  else
    let mask := CIDRMask (20 - generationBits) 32 in
    let maskU := MaskToUint32 mask in
    let u := IPToUint32 base in
    let span := u64 (Z.shiftl 1 (12 + generationBits)) in
    let end64 := u64 (u64 (u + span) - 1) in
    if 4294967295 <? end64 then []
    else
      let startNet := Z.land u maskU in
      let endNet := Z.land (u32 end64) maskU in
      MkIPNet (Uint32ToIP startNet) mask ::
      (if negb (endNet =? startNet) then [MkIPNet (Uint32ToIP endNet) mask] else []).

(** ** What has to be undone *)
Record cleanupState := MkCleanup {
  cs_pinDirCreated : bool; cs_bpfLoaded : bool; cs_mapsPinned : bool; cs_dummyDevCreated : bool;
  cs_mgmtIfindexes : list Z; cs_transitMoved : bool; cs_transitDevName : string; cs_callerNs : option NetNS;
}.
Definition cs_start : cleanupState := MkCleanup true false false false [] false "" None.
Definition cs_loaded (c : cleanupState) : cleanupState :=
  let '(MkCleanup p _ m d g t n o) := c in MkCleanup p true m d g t n o.
Definition cs_pinned (c : cleanupState) : cleanupState :=
  let '(MkCleanup p b _ d g t n o) := c in MkCleanup p b true d g t n o.
Definition cs_dummy (c : cleanupState) : cleanupState :=
  let '(MkCleanup p b m _ g t n o) := c in MkCleanup p b m true g t n o.
Definition cs_add_mgmt (i : Z) (c : cleanupState) : cleanupState :=
  let '(MkCleanup p b m d g t n o) := c in MkCleanup p b m d (g ++ [i]) t n o.
Definition cs_caller (ns : NetNS) (dev : string) (c : cleanupState) : cleanupState :=
  let '(MkCleanup p b m d g t _ _) := c in MkCleanup p b m d g t dev (Some ns).
Definition cs_moved (c : cleanupState) : cleanupState :=
  let '(MkCleanup p b m d g _ n o) := c in MkCleanup p b m d g true n o.
Definition cs_no_caller (c : cleanupState) : cleanupState :=
  let '(MkCleanup p b m d g t n _) := c in MkCleanup p b m d g t n None.

Definition cleanupMaxRetries : nat := 3.
Fixpoint retry_loop (n : nat) (fn : M unit) (lastErr : res unit) : M unit :=
  match n with
  | O => Ret lastErr
  | S n =>
      let~ r := fn in
      match r with
      | Err e =>
          let~ _ := match n with O => Ret tt | S _ => kern Sleep end in
          retry_loop n fn (Err e)
      | r => Ret r
      end
  end.
Definition retryCleanup (fn : M unit) : M unit := retry_loop cleanupMaxRetries fn (Ok tt).

Fixpoint cleanup_mgmt (ifindexes : list Z) (switchNs : option NetNS) : M unit :=
  match ifindexes with
  | [] => mok tt
  | ifindex :: ifindexes =>
      let~ _ := deref switchNs (λ ns, retryCleanup (DeleteLinkByIndexInNs ns ifindex)) in
      cleanup_mgmt ifindexes switchNs
  end.
(** The failures of the single steps are only reported. *)
Definition cleanup (cs : cleanupState) (cfg : Config) (switchNs : option NetNS) (objects : option Objects) : M unit :=
  let~ _ := match cs_callerNs cs with
            | Some caller =>
                if cs_transitMoved cs && negb (bool_decide (cs_transitDevName cs = "")) then
                  let~ _ := retryCleanup (MoveDevice (cs_transitDevName cs) switchNs caller) in
                  let~ _ := NetNS_Close caller in Ret tt
                else Ret tt
            | None => Ret tt
            end in
  let~ _ := if cs_dummyDevCreated cs
            then deref switchNs (λ ns, retryCleanup (DeleteVethPairInNs ns (DummyDeviceName cfg))) else mok tt in
  let~ _ := cleanup_mgmt (cs_mgmtIfindexes cs) switchNs in
  let~ _ := match objects with
            | Some o => if cs_bpfLoaded cs then (let~ _ := Objects_Close o in Ret tt) else Ret tt
            | None => Ret tt
            end in
  let~ _ := if cs_mapsPinned cs || cs_pinDirCreated cs then UnpinMaps (cf_Name cfg) else mok tt in
  mok tt.

(** ** Management planes *)
Fixpoint add_return_routes (dev : string) (metric : Z) (nets : list IPNet) : M unit :=
  match nets with
  | [] => mok tt
  | fn :: nets =>
      let* _ := mwrap (λ e, errorw "add return route: " e "") (AddDeviceRoute dev (Some fn) metric) in
      add_return_routes dev metric nets
  end.

(** The body of the loop once the namespace of the plane is open. *)
Definition create_mgmt_plane (cfg : Config) (switchNs : NetNS) (objects : Objects) (i : Z) (me : MgmtExtract)
    (mgmtNs : NetNS) (cs : cleanupState) : prog (cleanupState * res MgmtPlaneInfo) :=
  let mgmtName := MgmtDeviceName cfg i in
  let metric := 100 + i in
  match MgmtMAC (cf_MACAddr cfg) i with
  | Ok mgmtDevMAC =>
      let spec := MkVethSpec mgmtName (me_Dev me) (cf_MTU cfg) (ns_handle mgmtNs) (Some mgmtDevMAC) MgmtLinkGroup in
      let~ r := mwrap (λ e, errorw ("failed to create mgmt veth pair " +:+ fmt_d i +:+ ": ") e "")
                  (let* _ := Do switchNs (CreateVethPairs [spec]) in mok tt) in
      match r with
      | Ok _ =>
          let~ r := mwrap (λ e, errorw ("failed to get ifindex for mgmt device " +:+ mgmtName +:+ ": ") e "")
                      (GetLinkIndexInNs switchNs mgmtName) in
          match r with
          | Ok mgmtIfindex =>
              let cs := cs_add_mgmt mgmtIfindex cs in
              let~ r :=
                (let* _ := mwrap (λ e, errorw ("failed to attach TC to " +:+ mgmtName +:+ ": ") e "")
                             (Do switchNs (AttachTC mgmtName (pg_IngressMX (ob_Programs objects)) Ingress)) in
                 mwrap (λ e, errorw ("failed to configure " +:+ me_Dev me +:+ " in " +:+ me_NetNS me +:+ ": ") e "")
                   (Do mgmtNs
                      (let* _ := mwrap (λ e, errorw "bring up: " e "") (SetLinkUp (me_Dev me)) in
                       add_return_routes (me_Dev me) metric
                         (floatingReturnNets (cf_FloatingIPBase cfg) (cf_GenerationBits cfg))))) in
              Ret (cs, let! _ := r in
                       Ok (MkMgmtPlaneInfo i (me_NetNS me) (me_Dev me) (map net_string (me_ServiceRoutes me)) metric))
          | Err e => Ret (cs, Err e)
          | Panic => Ret (cs, Panic)
          | OutOfFuel => Ret (cs, OutOfFuel)
          end
      | Err e => Ret (cs, Err e)
      | Panic => Ret (cs, Panic)
      | OutOfFuel => Ret (cs, OutOfFuel)
      end
  | Err e => Ret (cs, Err e)
  | Panic => Ret (cs, Panic)
  | OutOfFuel => Ret (cs, OutOfFuel)
  end.

Fixpoint mgmt_planes_loop (cfg : Config) (switchNs : NetNS) (objects : Objects) (i : Z) (extracts : list MgmtExtract)
    (cs : cleanupState) : prog (cleanupState * res (list MgmtPlaneInfo)) :=
  match extracts with
  | [] => Ret (cs, Ok [])
  | me :: extracts =>
      let~ ns := if IsCallerNetNS me
                 then mwrap (λ e, errorw ("failed to get caller netns for mgmt plane " +:+ fmt_d i +:+ ": ") e "") GetCurrent
                 else mwrap (λ e, errorw ("failed to get mgmt netns " +:+ me_NetNS me +:+ ": ") e "") (GetByName (me_NetNS me)) in
      match ns with
      | Ok mgmtNs =>
          let~ p := create_mgmt_plane cfg switchNs objects i me mgmtNs cs in
          let '(cs, r) := p in
          match r with
          | Ok info =>
              let~ _ := NetNS_Close mgmtNs in
              let~ p := mgmt_planes_loop cfg switchNs objects (i + 1) extracts cs in
              let '(cs, rest) := p in
              Ret (cs, let! rest := rest in Ok (info :: rest))
          | Err e => let~ _ := NetNS_Close mgmtNs in Ret (cs, Err e)
          | Panic => Ret (cs, Panic)
          | OutOfFuel => Ret (cs, OutOfFuel)
          end
      | Err e => Ret (cs, Err e)
      | Panic => Ret (cs, Panic)
      | OutOfFuel => Ret (cs, OutOfFuel)
      end
  end.
Definition createMgmtPlanes (cfg : Config) (switchNs : NetNS) (objects : Objects) (cs : cleanupState) :
    prog (cleanupState * res (list MgmtPlaneInfo)) :=
  mgmt_planes_loop cfg switchNs objects 0 (cf_MgmtExtracts cfg) cs.

(** ** The transit device *)
Definition set_nexthop (n : Z) (c : SwitchConfig) : SwitchConfig :=
  MkSwitchConfig (sc_SwitchMac c) (sc_N_ports c) (sc_FloatingIpBase c) (sc_GenevePortBase c) (sc_GeneveEncapEth c)
    n (sc_PortMac c) (sc_GenerationBits c) (sc_Features c) (sc_GeneveLocator c) (sc_GeneveTlvType c) (sc_GeneveTlvClass c).
Definition set_transit_meta (addr : IPNet) (nexthop : IP) (m : SwitchMetadata) : SwitchMetadata :=
  MkSwitchMetadata (md_Version m) (md_SwitchNetNS m) (md_PortNetNS m) (md_TransitDev m) (net_string addr)
    (match nexthop with Some _ => ip_string nexthop | None => md_TransitDevNexthop m end)
    (md_MgmtExtracts m) (md_MgmtServices m).

Section Lifecycle.
Context (unmarshal : string → res SwitchMetadata).

(** DHCP inside the switch namespace, and what it changes in the maps. *)
Definition transit_dhcp (cfg : Config) : M Config :=
  let* lease := mwrap (λ e, errorw "DHCP failed: " e "")
                      (Request (MkRequestOptions (cf_TransitDev cfg) (5 * Second) 3)) in
  let* t := mpure (Lease_ToTransitConfig lease) in
  let '(addr, nexthop, _) := t in
  let cfg := set_Transit (Some addr) nexthop cfg in
  let* _ := match nexthop with
            | Some _ => mwrap (λ e, errorw "failed to update transit_nexthop in config: " e "")
                              (updateSwitchConfigFields (set_nexthop (IPToUint32 nexthop)))
            | None => mok tt
            end in
  let* _ := mwrap (λ e, errorw "failed to update transit info in metadata: " e "")
                  (updateSwitchMetadataFields unmarshal (set_transit_meta addr nexthop)) in
  mok cfg.

(** The closure run in the switch namespace: the configuration with the
    transit address, and the printed address. *)
Definition setup_transit (cfg : Config) (objects : Objects) : M (Config * string) :=
  let dev := cf_TransitDev cfg in
  let* _ := if 0 <? cf_TransitDevMTU cfg
            then mwrap (λ e, errorw "set transit MTU: " e "") (SetMTU dev (cf_TransitDevMTU cfg)) else mok tt in
  let* _ := SetLinkUp dev in
  let* cfg := if cf_TransitAddrAuto cfg then transit_dhcp cfg else mok cfg in
  let~ ip := match cf_TransitAddr cfg with
             | Some addr => let~ _ := AddAddr dev addr in Ret (ip_string (net_ip addr))
             | None => Ret ""
             end in
  let* _ := AttachTC dev (pg_IngressTransit (ob_Programs objects)) Ingress in
  mok (cfg, ip).

Definition configureTransitDevice (cfg : Config) (switchNs : NetNS) (objects : Objects) (cs : cleanupState) :
    prog (cleanupState * res (Config * string)) :=
  let dev := cf_TransitDev cfg in
  if bool_decide (dev = "") then Ret (cs, Ok (cfg, ""))
  else
    let~ r := mwrap (λ e, errorw "failed to get current netns: " e "") GetCurrent in
    match r with
    | Ok callerNs =>
        let cs := cs_caller callerNs dev cs in
        let~ r := MoveDevice dev (Some callerNs) switchNs in
        match r with
        | Ok _ =>
            let cs := cs_moved cs in
            let~ r := mwrap (λ e, errorw ("failed to configure transit device " +:+ dev +:+ ": ") e "")
                            (Do switchNs (setup_transit cfg objects)) in
            match r with
            | Ok v => let~ _ := NetNS_Close callerNs in Ret (cs_no_caller cs, Ok v)
            | r => Ret (cs, r)
            end
        | Err e =>
            let~ _ := NetNS_Close callerNs in
            Ret (cs_no_caller cs,
                 Err (errorw ("failed to move transit device " +:+ dev +:+ " to switch netns: ") e ""))
        | Panic => Ret (cs, Panic)
        | OutOfFuel => Ret (cs, OutOfFuel)
        end
    | Err e => Ret (cs, Err e)
    | Panic => Ret (cs, Panic)
    | OutOfFuel => Ret (cs, OutOfFuel)
    end.

(** ** The report *)
Record StartOutput := MkStartOutput {
  sto_Switch : string; sto_SwitchNetNS : string; sto_SwitchMaps : gmap string string; sto_PortNetNS : string;
  sto_Ports : Z; sto_PortsUsed : Z; sto_PortsAvailable : Z; sto_PortsReserved : Z; sto_FloatingIPBase : string;
  sto_GenerationBits : Z; sto_MgmtPlanes : list MgmtPlaneInfo; sto_MgmtServices : list MgmtServiceInfo;
  sto_TransitType : string; sto_TransitDev : string; sto_TransitDevIP : string; sto_GeneveLocator : string;
  sto_GenevePort : Z; sto_GenevePortBase : Z; sto_GeneveTLVLocator : string;
}.

Definition switchMapPaths (name : string) (includeGeneveOpts slotsV2 : bool) : gmap string string :=
  let maps := ["slots"; "config"; "stats"; "ifindex_to_slot"; "metadata"; "mgmt_svc_fwd"; "mgmt_svc_rev"]
              ++ (if includeGeneveOpts then ["geneve_opts"] else []) in
  fold_left (λ out m, <[m := BPFPath +:+ "/" +:+ name +:+ "/" +:+
                             (if bool_decide (m = "slots") && slotsV2 then "slots_v2" else m)]> out) maps ∅.

Definition buildStartOutput (cfg : Config) (mgmtPlanes : list MgmtPlaneInfo) (transitDevIP : string)
    (reserved : bool) : StartOutput :=
  let transit := negb (bool_decide (cf_TransitDev cfg = "")) in
  let loc := cf_GeneveLocator cfg in
  MkStartOutput (cf_Name cfg) (cf_SwitchNetNS cfg) (switchMapPaths (cf_Name cfg) true true) (cf_PortNetNS cfg)
    (cf_NumPorts cfg) 0 (if reserved then 0 else cf_NumPorts cfg) (if reserved then cf_NumPorts cfg else 0)
    (ip_string (cf_FloatingIPBase cfg)) (cf_GenerationBits cfg) mgmtPlanes (MgmtServiceInfos (cf_MgmtServices cfg))
    (if transit then "overlay-geneve" else "none")
    (if transit then cf_TransitDev cfg else "") (if transit then transitDevIP else "")
    (if transit then GeneveLocator_String loc else "")
    (if transit then geneveWirePort loc (cf_GenevePortBase cfg) 0 else 0)
    (if transit && (loc =? GeneveLocatorPort) then cf_GenevePortBase cfg else 0)
    (match cf_GeneveTLVLocator cfg with
     | Some tlv => if transit && (loc =? GeneveLocatorTLV) then GeneveTLVLocator_String tlv else ""
     | None => ""
     end).

(** ** A switch that is already there *)
Definition mismatch (b : bool) (what req ex : string) : list string :=
  if b then [what +:+ ": requested " +:+ req +:+ ", existing " +:+ ex] else [].

Definition locator_mismatches (requested : Config) (existing : SwitchConfig) : list string :=
  let existingLocator := geneveLocatorFromConfig existing in
  if negb (cf_GeneveLocator requested =? existingLocator)
  then mismatch true "geneve_locator" (GeneveLocator_String (cf_GeneveLocator requested)) (GeneveLocator_String existingLocator)
  else if cf_GeneveLocator requested =? GeneveLocatorPort then
    let legacyOmittedBase := cf_genevePortBaseDefaulted requested && (sc_GenevePortBase existing =? 0) in
    mismatch (negb legacyOmittedBase && negb (cf_GenevePortBase requested =? sc_GenevePortBase existing))
      "geneve_port_base" (fmt_u (cf_GenevePortBase requested)) (fmt_u (sc_GenevePortBase existing))
  else if cf_GeneveLocator requested =? GeneveLocatorTLV then
    let existingTLV := geneveTLVLocatorFromConfig existing in
    mismatch (negb (bool_decide (cf_GeneveTLVLocator requested = Some existingTLV)))
      "geneve_tlv_locator"
      (match cf_GeneveTLVLocator requested with Some t => GeneveTLVLocator_String t | None => "<missing>" end)
      (GeneveTLVLocator_String existingTLV)
  else [].

Definition config_mismatches (requested : Config) (existing : SwitchConfig) (existingMeta : SwitchMetadata) : list string :=
  let existingFloatingIP := Uint32ToIP (sc_FloatingIpBase existing) in
  mismatch (negb (cf_NumPorts requested =? sc_N_ports existing)) "ports"
    (fmt_u (cf_NumPorts requested)) (fmt_u (sc_N_ports existing)) ++
  mismatch (negb (IP_Equal (cf_FloatingIPBase requested) existingFloatingIP)) "floating_ip_base"
    (ip_string (cf_FloatingIPBase requested)) (ip_string existingFloatingIP) ++
  mismatch (negb (cf_GenerationBits requested =? sc_GenerationBits existing)) "generation_bits"
    (fmt_u (cf_GenerationBits requested)) (fmt_u (sc_GenerationBits existing)) ++
  mismatch (negb (bool_decide (cf_SwitchNetNS requested = SwitchNetnsName existingMeta))) "switch_netns"
    (cf_SwitchNetNS requested) (SwitchNetnsName existingMeta) ++
  mismatch (negb (bool_decide (cf_PortNetNS requested = PortNetnsName existingMeta))) "port_netns"
    (cf_PortNetNS requested) (PortNetnsName existingMeta) ++
  mismatch (negb (bool_decide (cf_TransitDev requested = TransitDevName existingMeta))) "transit_dev"
    (cf_TransitDev requested) (TransitDevName existingMeta) ++
  locator_mismatches requested existing.

Definition validateConfigMatch (requested : Config) (existing : SwitchConfig) (existingMeta : SwitchMetadata) : res unit :=
  let requested := applyGeneveDefaults requested in
  match config_mismatches requested existing existingMeta with
  | [] => Ok tt
  | mismatches =>
      Err (errorw ("switch " +:+ cf_Name requested +:+ " already exists with different config ("
                   +:+ join "; " mismatches +:+ "): ") (sentinel_error ErrConfigMismatch) "")
  end.

Definition existing_output (sw : switchContext) (used reserved free : Z) (switchName : string) : StartOutput :=
  let cfg := sx_cfg sw in
  let meta := sx_meta sw in
  let transit := negb (bool_decide (TransitDevName meta = "")) in
  let loc := geneveLocatorFromConfig cfg in
  MkStartOutput switchName (SwitchNetnsName meta)
    (switchMapPaths switchName (has_geneve_opts sw) (negb (Z.land (sc_Features cfg) SwitchFPortUp =? 0)))
    (PortNetnsName meta) (sc_N_ports cfg) used free reserved (ip_string (Uint32ToIP (sc_FloatingIpBase cfg)))
    0 (MgmtPlaneInfos (Some meta)) (metadata_MgmtServiceInfos (Some meta))
    (if transit then "overlay-geneve" else "none") (TransitDevName meta) (TransitDevAddrStr meta)
    (if transit then GeneveLocator_String loc else "")
    (if transit then geneveWirePort loc (sc_GenevePortBase cfg) 0 else 0)
    (if transit && (loc =? GeneveLocatorPort) then u16 (sc_GenevePortBase cfg) else 0)
    (if transit && (loc =? GeneveLocatorTLV) then GeneveTLVLocator_String (geneveTLVLocatorFromConfig cfg) else "").

Definition getExistingSwitch (switchName : string) (requestedCfg : Config) : M StartOutput :=
  with_switch (Open unmarshal switchName) (λ sw,
    let* _ := mpure (validateConfigMatch requestedCfg (sx_cfg sw) (sx_meta sw)) in
    let* attached := Ports sw true in
    let used := u32 (Z.of_nat (length attached)) in
    let~ reserved := CountReservedSlots (sx_numSlots sw) in
    let~ free := CountFreeSlots (sx_numSlots sw) in
    mok (existing_output sw used reserved free switchName)).

(** ** Start *)

(** Step 6b: the device that anchors the shared filter block. *)
Definition anchor_block (dummyDevName : string) (objects : Objects) : M unit :=
  let* _ := mwrap (λ e, errorw "create block anchor device: " e "") (CreateDummyLink dummyDevName) in
  let* link := mwrap (λ e, errorw "get block anchor device: " e "") (LinkByName dummyDevName) in
  let* _ := mwrap (λ e, errorw "add clsact with block: " e "") (AddClsactWithBlock (lk_Index link) PortIngressBlockID) in
  mwrap (λ e, errorw "add block filter: " e "") (AddBlockFilter PortIngressBlockID (pg_IngressNX (ob_Programs objects))).

(** Steps 9 to 12, with the table mapped. *)
Definition start_mapped (cfg : Config) (switchNs : NetNS) (objects : Objects) (cs : cleanupState) (mmapSlots : Z) :
    M StartOutput :=
  let undo cs := cleanup cs cfg (Some switchNs) (Some objects) in
  let* _ := on_err (undo cs) (initBPFSlotsReserved mmapSlots (cf_NumPorts cfg)) in
  let~ p := createMgmtPlanes cfg switchNs objects cs in
  let '(cs, r) := p in
  let* mgmtPlanes := on_err (undo cs) (mpure r) in
  let* _ := on_err (undo cs) (WriteMgmtServices (cf_MgmtServices cfg)) in
  let* cfg := on_err (undo cs) (validateMTUSlowPath cfg switchNs) in
  let~ p := configureTransitDevice cfg switchNs objects cs in
  let '(cs, r) := p in
  let* v := on_err (undo cs) (mpure r) in
  let '(cfg, transitDevIP) := v in
  mok (buildStartOutput cfg mgmtPlanes transitDevIP true).

(** Steps 4 to 8, in the open namespace of the switch. *)
Definition start_in_ns (cfg : Config) (switchNs : NetNS) (cs : cleanupState) : M StartOutput :=
  let undo cs objects := cleanup cs cfg (Some switchNs) objects in
  let* cfg := on_err (undo cs None) (validateTransitDeviceEarly cfg) in
  let* objects := on_err (undo cs None)
                    (mwrap (λ e, errorw "failed to load BPF objects: " e "") LoadObjects) in
  let cs := cs_loaded cs in
  let* _ := on_err (undo cs (Some objects))
              (mwrap (λ e, errorw "failed to pin maps: " e "") (PinMaps objects (cf_Name cfg))) in
  let cs := cs_pinned cs in
  let* _ := on_err (undo cs (Some objects)) (Do switchNs (anchor_block (DummyDeviceName cfg) objects)) in
  let cs := cs_dummy cs in
  let* _ := on_err (undo cs (Some objects)) (UpdateSwitchConfig cfg) in
  let* _ := on_err (undo cs (Some objects)) (UpdateSwitchMetadata cfg) in
  deref (mp_Slots (ob_Maps objects)) (λ slots,
    let* mmapSlots := on_err (undo cs (Some objects))
                        (mwrap (λ e, errorw "failed to mmap slots: " e "") (NewMmappedSlots slots (cf_NumPorts cfg))) in
    with_defer (MmappedSlots_Close true) (start_mapped cfg switchNs objects cs mmapSlots)).

Definition start_new (cfg : Config) : M StartOutput :=
  let* switchNs := on_err (cleanup cs_start cfg None None)
    (mwrap (λ e, errorw ("failed to get switch netns " +:+ cf_SwitchNetNS cfg +:+ ": ") e "")
           (GetByName (cf_SwitchNetNS cfg))) in
  with_defer (NetNS_Close switchNs) (start_in_ns cfg switchNs cs_start).

Definition StartReserved (cfg : Config) : M StartOutput :=
  let '(cfg, valid) := ValidateReserved cfg in
  let* _ := mpure valid in
  let* _ := mwrap (λ e, errorw "failed to ensure bpffs: " e "") EnsureBPFFS in
  let pinPath := path_join [BPFPath; cf_Name cfg] in
  let lock := mwrap (λ e, errorw "failed to acquire control lock: " e "") (AcquireControlLock (cf_Name cfg)) in
  let~ r := call (OsMkdir pinPath) in
  match r with
  | Err e =>
      if errors_is e SysEEXIST then with_lock lock (getExistingSwitch (cf_Name cfg) cfg)
      else merr (errorw ("create pin directory " +:+ pinPath +:+ ": ") e "")
  | Ok _ => with_lock lock (start_new cfg)
  | Panic => mpanic
  | OutOfFuel => Ret OutOfFuel
  end.

(** The configuration is validated in place, so provisioning sees the same
    name and mode. *)
Definition Start (fuel : nat) (cfg : Config) : M StartOutput :=
  let* output := StartReserved cfg in
  let* _ := ProvisionPorts unmarshal fuel (cf_Name cfg) (MkProvisionOptions 0 0 (cf_DefaultMode cfg)) in
  mok output.
End Lifecycle.
