(* ===== verification/LifecycleSpec.v ===== *)
(** * What creating a switch promises

    Routes, MTU and configuration matching as functional contracts; then
    [StartReserved] in a semantics that follows the slot table together with
    the pin directory and the control lock. *)
From S2P Require Import Prelude Errors GoStrings GoNet BpfTypes Mac Geneve Prog SlotTable Netns.
From S2P Require Import Netlink Config MgmtService Metadata Loader Context Flock Dhcp Attach AttachSpec Provision ProvisionSpec Lifecycle.

(** ** Address blocks *)
Definition be_bytes (n : Z) : list Z := [u8 (Z.shiftr n 24); u8 (Z.shiftr n 16); u8 (Z.shiftr n 8); u8 n].

Lemma u8_land z : u8 z = Z.land z (Z.ones 8).
Proof. by rewrite Z.land_ones. Qed.
Lemma be_bytes_land n m : zip_with Z.land (be_bytes n) (be_bytes m) = be_bytes (Z.land n m).
Proof.
  assert (∀ k, Z.land (u8 (Z.shiftr n k)) (u8 (Z.shiftr m k)) = u8 (Z.shiftr (Z.land n m) k)) as H.
  { intros k. rewrite !u8_land, Z.shiftr_land. apply Z.bits_inj'. intros i _. rewrite !Z.land_spec.
    repeat destruct (Z.testbit _ i); done. }
  unfold be_bytes. cbn [zip_with]. rewrite !H. specialize (H 0). rewrite !Z.shiftr_0_r in H. by rewrite H.
Qed.
Lemma be_bytes_inj n m : is_u32 n → is_u32 m → be_bytes n = be_bytes m → n = m.
Proof.
  intros Hn Hm [= E1 E2 E3 E4]. rewrite <-(be32_split n), <-(be32_split m) by done. by rewrite E1, E2, E3, E4.
Qed.
Lemma CIDRMask_bytes p : 0 ≤ p ≤ 32 → CIDRMask p 32 = be_bytes (prefix_mask p).
Proof.
  intros Hp. assert (forallb (λ k, bool_decide (CIDRMask (Z.of_nat k) 32 = be_bytes (prefix_mask (Z.of_nat k)))) (seq 0 33) = true)
    as H by (vm_compute; reflexivity).
  rewrite forallb_forall in H. specialize (H (Z.to_nat p)). rewrite Z2Nat.id in H by lia.
  apply bool_decide_eq_true in H; [done|]. apply in_seq. lia.
Qed.
Lemma land_prefix_mask n p : is_u32 n → 0 ≤ p ≤ 32 →
  Z.land n (prefix_mask p) = n / 2 ^ (32 - p) * 2 ^ (32 - p).
Proof.
  intros Hn Hp. rewrite <-Z.shiftr_div_pow2, <-Z.shiftl_mul_pow2, <-Z.ldiff_ones_r by lia.
  apply Z.bits_inj'. intros j Hj. rewrite Z.land_spec, Z.ldiff_spec.
  destruct (decide (j < 32)).
  - rewrite prefix_mask_bit by lia. case_bool_decide.
    + by rewrite Z.ones_spec_high by lia.
    + by rewrite Z.ones_spec_low by lia.
  - by rewrite (testbit_above n 32 j) by (unfold is_u32 in Hn; lia).
Qed.

Lemma prefix_mask_range p : 0 ≤ p ≤ 32 → is_u32 (prefix_mask p).
Proof.
  intros Hp. unfold prefix_mask, is_u32. pose proof (Z.pow_le_mono_r 2 (32 - p) 32).
  assert (0 < 2 ^ (32 - p)) by (apply Z.pow_pos_nonneg; lia). lia.
Qed.

(** Membership of a block is agreement on the leading bits. *)
Lemma block_contains n a p : is_u32 n → is_u32 a → 0 ≤ p ≤ 32 →
  net_contains (MkIPNet (Uint32ToIP n) (CIDRMask p 32)) (Uint32ToIP a) =
    bool_decide (n / 2 ^ (32 - p) = a / 2 ^ (32 - p)).
Proof.
  intros Hn Ha Hp. rewrite CIDRMask_bytes by done.
  assert (∀ z, is_u32 z → is_u32 (z / 2 ^ (32 - p) * 2 ^ (32 - p))) as Hr.
  { intros z Hz. unfold is_u32 in *. assert (0 < 2 ^ (32 - p)) by (apply Z.pow_pos_nonneg; lia).
    pose proof (Z.div_pos z (2 ^ (32 - p))). pose proof (Z.mul_div_le z (2 ^ (32 - p))). nia. }
  change (net_contains _ _) with (true && bool_decide
    (zip_with Z.land (be_bytes n) (be_bytes (prefix_mask p)) = zip_with Z.land (be_bytes a) (be_bytes (prefix_mask p)))).
  cbn [andb]. rewrite !be_bytes_land, !land_prefix_mask by done. apply bool_decide_ext.
  assert (0 < 2 ^ (32 - p)) by (apply Z.pow_pos_nonneg; lia). split; [|by intros ->].
  intros E%be_bytes_inj; [nia|by apply Hr..].
Qed.

(** The blocks in terms of the base address and the block size. *)
Lemma floatingReturnNets_blocks base bits :
  ip_ok base → is_Some (To4 base) → 0 ≤ bits ≤ 20 → IPToUint32 base + 2 ^ (12 + bits) ≤ 2 ^ 32 →
  let u := IPToUint32 base in
  let B := 2 ^ (12 + bits) in
  let block n := MkIPNet (Uint32ToIP (n / B * B)) (CIDRMask (20 - bits) 32) in
  floatingReturnNets base bits =
    block u :: (if bool_decide ((u + B - 1) / B = u / B) then [] else [block (u + B - 1)]).
Proof.
  intros Hok [l H4] Hb Hspan u B block. unfold floatingReturnNets. rewrite H4.
  rewrite (bool_decide_false (Some l = None)) by done. assert ((20 <? bits) = false) as -> by lia. cbn [orb].
  pose proof (IPToUint32_range _ Hok) as [Hu1 Hu2]. fold u in Hu1, Hu2, Hspan. fold B in Hspan.
  assert (0 < B) by (apply Z.pow_pos_nonneg; lia).
  assert (B ≤ 2 ^ 32) by (apply Z.pow_le_mono_r; lia).
  rewrite Z.shiftl_1_l. fold B u. rewrite (u64_small B), (u64_small (u + B)), (u64_small (u + B - 1)) by (unfold is_u64; lia).
  assert ((4294967295 <? u + B - 1) = false) as -> by lia. rewrite (u32_small (u + B - 1)) by (unfold is_u32; lia).
  assert (MaskToUint32 (CIDRMask (20 - bits) 32) = prefix_mask (20 - bits)) as ->.
  { rewrite CIDRMask_bytes by lia. unfold MaskToUint32, be_bytes. apply be32_split, prefix_mask_range. lia. }
  rewrite !land_prefix_mask by (unfold is_u32; lia). replace (32 - (20 - bits)) with (12 + bits) by lia. fold B.
  unfold block. f_equal. case_bool_decide as E.
  - rewrite E. by rewrite Z.eqb_refl.
  - destruct (_ =? _) eqn:Eq; [|done]. exfalso. apply E. nia.
Qed.

(** C36: the return routes of a management plane.  For an accepted configuration
    there are one or two of them, every floating address of the switch lies in
    one of the blocks, and for a base address aligned to the identity window the
    single block holds exactly the addresses of the window. *)
Theorem return_nets_cover c c' :
  is_u32 (cf_NumPorts c) → is_u8 (cf_GenerationBits c) → ip_ok (cf_FloatingIPBase c) →
  validateBase c = (c', Ok tt) →
  let base := IPToUint32 (cf_FloatingIPBase c) in
  let nets := floatingReturnNets (cf_FloatingIPBase c) (cf_GenerationBits c) in
  let B := 2 ^ (12 + cf_GenerationBits c) in
  (1 ≤ length nets ≤ 2)%nat ∧
  (∀ slot gen, 0 ≤ slot < cf_NumPorts c → 0 ≤ gen < 2 ^ cf_GenerationBits c →
    existsb (λ n, net_contains n (Uint32ToIP (FloatingIPForAttachment base slot gen))) nets = true) ∧
  (base mod B = 0 → ∃ n, nets = [n] ∧
    ∀ a, is_u32 a → (net_contains n (Uint32ToIP a) = true ↔ base ≤ a < base + B)).
Proof.
  intros Hn Hg Hip Hv base nets B. unfold validateBase in Hv. injection Hv as <- Hv.
  assert (cf_NumPorts (applyGeneveDefaults c) = cf_NumPorts c ∧
    cf_GenerationBits (applyGeneveDefaults c) = cf_GenerationBits c ∧
    cf_FloatingIPBase (applyGeneveDefaults c) = cf_FloatingIPBase c) as (E1 & E2 & E3).
  { unfold applyGeneveDefaults. by destruct (_ =? 0). }
  assert (is_Some (To4 (cf_FloatingIPBase c))) as H4.
  { unfold validate_checks in Hv. rewrite E3 in Hv. do 4 apply guard_ok in Hv as [_ Hv].
    apply guard_ok in Hv as [Hv _]. by apply bool_decide_eq_true in Hv. }
  apply validate_checks_ok in Hv; rewrite ?E1, ?E2, ?E3; [|done..].
  rewrite E1, E2, E3 in Hv. destruct Hv as (HN & _ & Hb & Hspan & _). unfold MaxPorts in HN. fold base B in Hspan.
  pose proof (IPToUint32_range _ Hip) as [Hu1 Hu2]. fold base in Hu1, Hu2.
  assert (0 < B) by (apply Z.pow_pos_nonneg; lia).
  assert (Hblk : ∀ n a, 0 ≤ n < 2 ^ 32 → is_u32 a →
    net_contains (MkIPNet (Uint32ToIP (n / B * B)) (CIDRMask (20 - cf_GenerationBits c) 32)) (Uint32ToIP a) =
    bool_decide (n / B = a / B)).
  { intros n a Hn' Ha. assert (is_u32 (n / B * B)).
    { unfold is_u32. pose proof (Z.div_pos n B). pose proof (Z.mul_div_le n B). nia. }
    rewrite block_contains by (done || lia). replace (32 - (20 - cf_GenerationBits c)) with (12 + cf_GenerationBits c) by lia.
    fold B. rewrite Z.div_mul by lia. done. }
  unfold nets. rewrite (floatingReturnNets_blocks _ _ Hip H4 Hb Hspan). cbv zeta. fold base B. split_and!.
  - case_bool_decide; simpl; lia.
  - case_bool_decide; simpl; lia.
  - intros slot gen Hs Hgen. destruct (FloatingIP_plain base slot gen (cf_GenerationBits c)) as [-> Hlt]; [done..|lia|done|].
    fold B in Hlt. set (a := base + gen * 4096 + slot). assert (base ≤ a ≤ base + B - 1) by lia.
    cbn [existsb]. rewrite Hblk by (unfold is_u32; lia).
    pose proof (Z.div_le_mono base a B). pose proof (Z.div_le_mono a (base + B - 1) B).
    assert ((base + B - 1) / B ≤ base / B + 1) by (replace (base + B - 1) with (base - 1 + 1 * B) by lia;
      rewrite Z.div_add by lia; pose proof (Z.div_le_mono (base - 1) base B); lia).
    case_bool_decide as Ea; [done|]. case_bool_decide as Eb; [exfalso; lia|]. cbn [existsb orb].
    rewrite Hblk by (unfold is_u32; lia). rewrite bool_decide_true by lia. done.
  - intros Hal. assert ((base + B - 1) / B = base / B) as Eb.
    { apply Z.mod_divide in Hal as [k Hk]; [|lia]. rewrite Hk, Z.div_mul by lia.
      replace (k * B + B - 1) with ((B - 1) + k * B) by lia. rewrite Z.div_add, Z.div_small by lia. lia. }
    rewrite bool_decide_true by done. eexists. split; [done|]. intros a Ha. rewrite Hblk by (done || lia).
    rewrite bool_decide_eq_true. apply Z.mod_divide in Hal as [k Hk]; [|lia]. rewrite Hk, Z.div_mul by lia.
    split.
    + intros E. pose proof (Z.mul_div_le a B). pose proof (Z.mul_succ_div_gt a B). nia.
    + intros Hr. apply (Z.div_unique a B k (a - k * B)); lia.
Qed.

Lemma return_nets_cover_witness :
  existsb (λ n, net_contains n (Uint32ToIP (FloatingIPForAttachment (IPToUint32 (IPv4 100 64 0 0)) 4095 15)))
    (floatingReturnNets (IPv4 100 64 0 0) 4) = true.
Proof.
  destruct (return_nets_cover ex_config (applyGeneveDefaults ex_config)) as (_ & H & _);
    [decide_true | decide_true | decide_true | reflexivity |].
  apply (H 4095 15); decide_true.
Defined.

(** ** The transit MTU *)

(** Transit MTU.  Whatever the devices answer: in automatic mode the MTU
    chosen leaves room for a full port frame, its encapsulation and the options
    of every attachment the marshaller accepts; an explicit MTU is accepted
    exactly when it leaves room for the encapsulation and the locator option;
    the slot table is never touched. *)
Theorem resolveTransitMTU_fits cfg portMTU t :
  wp alone (resolveTransitMTU cfg portMTU) (λ r t', t' = t ∧
    match r with
    | Ok cfg' =>
        (cf_TransitDevMTUAuto cfg = true → ∀ tlv options v total,
           marshalGeneveOptions (cf_GeneveLocator cfg) tlv options = Ok (v, total) →
           portMTU + encap_overhead cfg + total ≤ cf_TransitDevMTU cfg') ∧
        (cf_TransitDevMTUAuto cfg = false → cfg' = cfg ∧
           (0 < cf_TransitDevMTU cfg →
            portMTU + encap_overhead cfg + tlv_overhead (cf_GeneveLocator cfg) ≤ cf_TransitDevMTU cfg))
    | Err _ => cf_TransitDevMTUAuto cfg = false ∧
        (0 < cf_TransitDevMTU cfg →
         cf_TransitDevMTU cfg < portMTU + encap_overhead cfg + tlv_overhead (cf_GeneveLocator cfg))
    | _ => False
    end) t.
Proof.
  unfold resolveTransitMTU, options_overhead, tlv_overhead. cbv zeta.
  destruct (cf_TransitDevMTUAuto cfg) eqn:Eauto.
  - split; [done|]. split; [|done]. intros _ tlv options v total (_ & Hlen & _ & ->)%marshalGeneveOptions_iff.
    cbn [set_TransitDevMTU cf_TransitDevMTU]. lia.
  - destruct (0 <? cf_TransitDevMTU cfg) eqn:Epos.
    + destruct (cf_TransitDevMTU cfg <? _) eqn:E; (split; [done|]); (split; [done|]); intros _; [lia|]. split; [done|]. lia.
    + apply wp_mbind, wp_alone_kern_ret.
      * unfold getTransitDeviceMTU. kern_ret.
      * intros mtu. destruct (mtu <? _); (split; [done|]); (split; [done|]); intros ?; [lia|]. split; [done|]. lia.
      * intros e. split; [done|]. split; [done|]. lia.
Qed.

(** ** Requesting a switch that exists *)

(** What two configurations must agree on to denote the same switch. *)
Definition same_switch (requested existing : Config) : Prop :=
  cf_NumPorts requested = cf_NumPorts existing ∧
  IPToUint32 (cf_FloatingIPBase requested) = IPToUint32 (cf_FloatingIPBase existing) ∧
  cf_GenerationBits requested = cf_GenerationBits existing ∧
  cf_SwitchNetNS requested = cf_SwitchNetNS existing ∧
  cf_PortNetNS requested = cf_PortNetNS existing ∧
  cf_TransitDev requested = cf_TransitDev existing ∧
  cf_GeneveLocator requested = cf_GeneveLocator existing ∧
  (cf_GeneveLocator existing = GeneveLocatorPort → cf_GenevePortBase requested = cf_GenevePortBase existing) ∧
  (cf_GeneveLocator existing = GeneveLocatorTLV → cf_GeneveTLVLocator requested = cf_GeneveTLVLocator existing).

Lemma mismatch_nil b what req ex : mismatch b what req ex = [] ↔ b = false.
Proof. by destruct b. Qed.

(** An IPv4 address, in either form, against the 16-byte form of a number. *)
Lemma IP_Equal_Uint32ToIP ip n :
  ip_ok ip → is_Some (To4 ip) → is_u32 n → IP_Equal ip (Uint32ToIP n) = bool_decide (IPToUint32 ip = n).
Proof.
  intros Hok [l Hl] Hn. pose proof (To4_ok _ _ Hok Hl) as Hb. destruct (To4_shape _ _ Hl) as (a & b & c & d & ->).
  assert (IPToUint32 ip = be32 a b c d) as -> by (unfold IPToUint32; by rewrite Hl).
  assert (Hbe : be_bytes (be32 a b c d) = [a; b; c; d]).
  { rewrite !Forall_cons in Hb. destruct Hb as (Ha & Hb & Hc & Hd & _). rewrite be32_add by done.
    unfold be_bytes. rewrite !shiftr_u8 by lia. unfold u8, is_u8 in *.
    repeat f_equal; Z.to_euclidean_division_equations; lia. }
  assert (Heq : [a; b; c; d] = be_bytes n ↔ be32 a b c d = n).
  { rewrite <-Hbe. split; [|by intros ->]. apply be_bytes_inj; [|done].
    rewrite !Forall_cons in Hb. destruct Hb as (Ha & Hb & Hc & Hd & _). rewrite be32_add by done.
    unfold is_u8, is_u32 in *. lia. }
  change (Uint32ToIP n) with (Some (v4InV6Prefix ++ be_bytes n)).
  unfold IP_Equal. cbn [ip_bytes default]. destruct ip as [l0|]; [|done]. cbn [ip_bytes default from_option id].
  unfold To4 in Hl. case_bool_decide as H4.
  - simplify_eq. change (length (v4InV6Prefix ++ be_bytes n)) with 16%nat. simpl.
    apply bool_decide_ext. exact Heq.
  - case_bool_decide as H16; simpl in Hl; [|done]. case_bool_decide as Hp; [|done]. injection Hl as Hl.
    rewrite H16. rewrite bool_decide_true by done. apply bool_decide_ext.
    rewrite <-Heq. rewrite <-(take_drop 12 l0) at 1. rewrite Hp, Hl. split; [|by intros ->].
    intros E. by apply app_inv_head in E.
Qed.

(** The map value of an accepted configuration keeps the compared fields. *)
Lemma accepted_facts c c' :
  is_u32 (cf_NumPorts c) → is_u8 (cf_GenerationBits c) → ip_ok (cf_FloatingIPBase c) → is_u16 (cf_GenevePortBase c) →
  validateBase c = (c', Ok tt) →
  applyGeneveDefaults c' = c' ∧ is_Some (To4 (cf_FloatingIPBase c')) ∧ ip_ok (cf_FloatingIPBase c') ∧
  GeneveLocator_valid (cf_GeneveLocator c') = true ∧ cf_GenevePortBase c' ≠ 0 ∧
  (cf_GeneveLocator c' = GeneveLocatorTLV → is_Some (cf_GeneveTLVLocator c')).
Proof.
  intros Hn Hg Hip Hb Hv. unfold validateBase in Hv. injection Hv as <- Hv.
  assert (cf_NumPorts (applyGeneveDefaults c) = cf_NumPorts c ∧
    cf_GenerationBits (applyGeneveDefaults c) = cf_GenerationBits c ∧
    cf_FloatingIPBase (applyGeneveDefaults c) = cf_FloatingIPBase c ∧
    cf_GenevePortBase (applyGeneveDefaults c) ≠ 0) as (E1 & E2 & E3 & E4).
  { unfold applyGeneveDefaults. destruct (_ =? 0) eqn:E; split_and!; try done; lia. }
  assert (is_Some (To4 (cf_FloatingIPBase c))) as H4.
  { unfold validate_checks in Hv. rewrite E3 in Hv. do 4 apply guard_ok in Hv as [_ Hv].
    apply guard_ok in Hv as [Hv _]. by apply bool_decide_eq_true in Hv. }
  apply validate_checks_ok in Hv; rewrite ?E1, ?E2, ?E3; [|done..].
  destruct Hv as (_ & _ & _ & _ & _ & Hgen & _).
  split; [unfold applyGeneveDefaults at 1; by rewrite (proj2 (Z.eqb_neq _ 0))|].
  split; [done|]. split; [done|]. unfold validateGeneve in Hgen.
  destruct (GeneveLocator_valid _); [|done]. split; [done|]. split; [done|]. intros Htlv. rewrite Htlv in Hgen.
  simpl in Hgen. apply guard_ok in Hgen as [Hgen _]. by apply bool_decide_eq_true in Hgen.
Qed.

Lemma locator_valid_cases l : GeneveLocator_valid l = true → l = GeneveLocatorPort ∨ l = GeneveLocatorVNI ∨ l = GeneveLocatorTLV.
Proof. unfold GeneveLocator_valid, GeneveLocatorPort, GeneveLocatorVNI, GeneveLocatorTLV. lia. Qed.

(** The comparison of the locator's own settings. *)
Lemma locator_mismatches_nil c1 c2 :
  applyGeneveDefaults c1 = c1 → cf_GenevePortBase c1 ≠ 0 →
  GeneveLocator_valid (cf_GeneveLocator c1) = true →
  (cf_GeneveLocator c1 = GeneveLocatorTLV → is_Some (cf_GeneveTLVLocator c1)) →
  locator_mismatches c2 (switch_config_of c1) = [] ↔
  cf_GeneveLocator c2 = cf_GeneveLocator c1 ∧
  (cf_GeneveLocator c1 = GeneveLocatorPort → cf_GenevePortBase c2 = cf_GenevePortBase c1) ∧
  (cf_GeneveLocator c1 = GeneveLocatorTLV → cf_GeneveTLVLocator c2 = cf_GeneveTLVLocator c1).
Proof.
  intros Hd Hbase Hval Htlv. unfold switch_config_of. rewrite Hd. unfold locator_mismatches, geneveLocatorFromConfig.
  cbn [sc_GeneveLocator sc_GenevePortBase geneveTLVLocatorFromConfig sc_GeneveTlvClass sc_GeneveTlvType].
  rewrite (u8_small (cf_GeneveLocator c1)) by (apply locator_valid_cases in Hval as [-> | [-> | ->]]; done).
  destruct (cf_GeneveLocator c2 =? cf_GeneveLocator c1) eqn:E; cbn [negb]; [|split; [done|]; intros [? _]; lia].
  apply Z.eqb_eq in E. rewrite E. rewrite (proj2 (Z.eqb_neq _ 0) Hbase), andb_false_r. cbn [negb andb].
  unfold geneveTLVLocatorFromConfig. cbn [sc_GeneveTlvClass sc_GeneveTlvType].
  apply locator_valid_cases in Hval as [Hl | [Hl | Hl]]; rewrite Hl in *.
  - change (GeneveLocatorPort =? GeneveLocatorPort) with true. cbn match. rewrite mismatch_nil, negb_false_iff, Z.eqb_eq.
    split; [|naive_solver]. intros Hb. by split_and!.
  - by split_and!.
  - destruct (Htlv eq_refl) as [[cl ty] Ht]. rewrite Ht.
    change (GeneveLocatorTLV =? GeneveLocatorPort) with false. change (GeneveLocatorTLV =? GeneveLocatorTLV) with true.
    cbn match. rewrite mismatch_nil, negb_false_iff, bool_decide_eq_true. cbn [tlv_Class tlv_Type].
    split; [|naive_solver]. intros Hb. by split_and!.
Qed.

Lemma config_mismatches_nil c1 c2 :
  applyGeneveDefaults c1 = c1 → is_Some (To4 (cf_FloatingIPBase c2)) → ip_ok (cf_FloatingIPBase c1) →
  ip_ok (cf_FloatingIPBase c2) → GeneveLocator_valid (cf_GeneveLocator c1) = true → cf_GenevePortBase c1 ≠ 0 →
  (cf_GeneveLocator c1 = GeneveLocatorTLV → is_Some (cf_GeneveTLVLocator c1)) →
  config_mismatches c2 (switch_config_of c1) (metadata_of_config c1) = [] ↔ same_switch c2 c1.
Proof.
  intros Hd H4 Hip1 Hip2 Hval Hbase Htlv. pose proof (locator_mismatches_nil c1 c2 Hd Hbase Hval Htlv) as Hloc.
  unfold config_mismatches, same_switch. rewrite !app_nil, !mismatch_nil, !negb_false_iff, Hloc.
  assert (sc_N_ports (switch_config_of c1) = cf_NumPorts c1 ∧
    sc_FloatingIpBase (switch_config_of c1) = IPToUint32 (cf_FloatingIPBase c1) ∧
    sc_GenerationBits (switch_config_of c1) = cf_GenerationBits c1) as (-> & -> & ->).
  { unfold switch_config_of. by rewrite Hd. }
  rewrite IP_Equal_Uint32ToIP by auto with go. rewrite !bool_decide_eq_true, !Z.eqb_eq.
  unfold SwitchNetnsName, PortNetnsName, TransitDevName. by cbn [metadata_of_config md_SwitchNetNS md_PortNetNS md_TransitDev].
Qed.

(** C27: requesting a switch that exists.  The stored configuration and metadata
    of one accepted configuration match another accepted request exactly when
    the two agree on everything that identifies the switch; in particular a
    repeated request is accepted.  Any difference is reported as a configuration
    mismatch. *)
Theorem validateConfigMatch_iff c1 c1' c2 c2' :
  is_u32 (cf_NumPorts c1) → is_u8 (cf_GenerationBits c1) → ip_ok (cf_FloatingIPBase c1) → is_u16 (cf_GenevePortBase c1) →
  is_u32 (cf_NumPorts c2) → is_u8 (cf_GenerationBits c2) → ip_ok (cf_FloatingIPBase c2) → is_u16 (cf_GenevePortBase c2) →
  validateBase c1 = (c1', Ok tt) → validateBase c2 = (c2', Ok tt) →
  let r := validateConfigMatch c2' (switch_config_of c1') (metadata_of_config c1') in
  (r = Ok tt ↔ same_switch c2' c1') ∧
  (¬ same_switch c2' c1' → ∃ e, r = Err e ∧ IsConfigMismatch (Some e) = true).
Proof.
  intros Hn1 Hg1 Hi1 Hb1 Hn2 Hg2 Hi2 Hb2 Hv1 Hv2 r.
  destruct (accepted_facts _ _ Hn1 Hg1 Hi1 Hb1 Hv1) as (Hd1 & _ & Hip1 & Hval & Hbase & Htlv).
  destruct (accepted_facts _ _ Hn2 Hg2 Hi2 Hb2 Hv2) as (Hd2 & H4 & Hip2 & _).
  pose proof (config_mismatches_nil c1' c2' Hd1 H4 Hip1 Hip2 Hval Hbase Htlv) as Hiff.
  unfold r, validateConfigMatch. rewrite Hd2.
  destruct (config_mismatches _ _ _) as [|x l]; split.
  - split; [|done]. intros _. by apply Hiff.
  - intros Hne. destruct Hne. by apply Hiff.
  - split; [done|]. intros Hs. by apply Hiff in Hs.
  - intros _. eexists. split; [done|]. reflexivity.
Qed.

Lemma validateConfigMatch_iff_witness :
  let c := applyGeneveDefaults ex_config in
  validateConfigMatch c (switch_config_of c) (metadata_of_config c) = Ok tt.
Proof.
  intros c. apply (validateConfigMatch_iff ex_config c ex_config c);
    [decide_true | decide_true | decide_true | decide_true | decide_true | decide_true | decide_true | decide_true
    | reflexivity | reflexivity |].
  unfold same_switch; repeat split.
Defined.
