(* ===== verification/Refine.v ===== *)
(** * The port machine

    What a caller of an opened switch needs to know of it: a list of ports,
    each free, reserved or attached, and what each call does to that list.
    Slots, atomic words, option maps and devices are gone.  The last theorem
    says that any sequence of calls on the slot table is one of this machine. *)
From S2P Require Import Prelude Errors GoStrings GoNet BpfTypes Mac Geneve Prog SlotTable Netns.
From S2P Require Import Netlink Config MgmtService Metadata Loader Context Flock Attach AttachSpec Provision ProvisionSpec.
From S2P Require Import Stop StopSpec PortSpec Status StatusSpec.

(** ** Ports *)
Record attachment := MkAttachment {
  ac_ip : Z; ac_gateway : Z; ac_vni : Z; ac_mac : list Z; ac_opts : Z; ac_generation : Z; ac_up : bool;
}.
#[export] Instance attachment_eq_dec : EqDecision attachment.
Proof. solve_decision. Defined.
Inductive aport := PFree | PReserved | PAttached (a : attachment).
#[export] Instance aport_eq_dec : EqDecision aport.
Proof. solve_decision. Defined.
Definition is_attached (p : aport) : bool := match p with PAttached _ => true | _ => false end.
Definition num (P : aport → bool) (ps : list aport) : Z := Z.of_nat (length (List.filter P ps)).
Definition is_reserved (p : aport) : bool := match p with PReserved => true | _ => false end.
Definition is_free (p : aport) : bool := match p with PFree => true | _ => false end.

(** ** Calls and answers *)
Inductive port_call :=
  | CAttach (opts : AttachOptions)
  | CDetach (opts : DetachOptions)
  | CReserve (opts : ReserveOptions)
  | CSetPortUp (opts : PortUpOptions)
  | CRelease (opts : ReleaseOptions)
  | CProvision (opts : ProvisionOptions)
  | CStatus.
Inductive answer :=
  | APort (port : Z)
  | ADone
  | ACount (n : Z)
  | ACounts (used available reserved : Z).

(** Port numbers that a 32-bit slot index can hold. *)
Definition call_ok (c : port_call) : bool :=
  match c with
  | CAttach opts => ao_Port opts <=? 2 ^ 32
  | CDetach opts => do_Port opts <=? 2 ^ 32
  | CReserve opts => ro_Port opts <=? 2 ^ 32
  | CSetPortUp opts => po_Port opts <=? 2 ^ 32
  | CProvision opts => pv_Port opts <=? 2 ^ 32
  | CRelease _ | CStatus => true
  end.

(** ** The machine

    [admit] says which requests are well formed for the switch, and the
    attachment they describe. *)
Section machine.
Context (admit_attach : AttachOptions → option attachment).
Context (admit_up : PortUpOptions → Z → option attachment).

(** A requested port, or the lowest free one. *)
Definition chosen (port : Z) (ps : list aport) (i : nat) : Prop :=
  ps !! i = Some PFree ∧
  if 0 <? port then port = Z.of_nat i + 1 else ∀ j, (j < i)%nat → ps !! j ≠ Some PFree.

(** Provisioning makes Reserved ports Free; a release makes ports Reserved. *)
Definition freed (p p' : aport) : Prop := p' = p ∨ p = PReserved ∧ p' = PFree.
Definition taken (p p' : aport) : Prop := p' = p ∨ p' = PReserved.

Inductive port_step : port_call → list aport → res answer → list aport → Prop :=
  | step_attach opts ps i a :
      admit_attach opts = Some a → chosen (ao_Port opts) ps i →
      port_step (CAttach opts) ps (Ok (APort (Z.of_nat i + 1))) (<[i := PAttached a]> ps)
  | step_detach opts ps i a :
      do_Port opts = Z.of_nat i + 1 → ps !! i = Some (PAttached a) →
      port_step (CDetach opts) ps (Ok ADone) (<[i := PFree]> ps)
  | step_reserve opts ps i p :
      ro_Port opts = Z.of_nat i + 1 → ps !! i = Some p → ro_Force opts = true ∨ p = PFree →
      port_step (CReserve opts) ps (Ok (APort (Z.of_nat i + 1))) (<[i := PReserved]> ps)
  | step_up opts ps i a a' :
      po_Port opts = Z.of_nat i + 1 → ps !! i = Some (PAttached a) → ac_up a = false →
      admit_up opts (ac_generation a) = Some a' →
      port_step (CSetPortUp opts) ps (Ok ADone) (<[i := PAttached a']> ps)
  | step_release opts ps :
      rl_Force opts = true ∨ num is_attached ps = 0 →
      port_step (CRelease opts) ps (Ok ADone) (replicate (length ps) PReserved)
  | step_provision opts ps ps' n :
      Forall2 freed ps ps' → n = num is_reserved ps - num is_reserved ps' →
      (0 < pv_Count opts → n ≤ pv_Count opts) →
      (0 < pv_Count opts ∧ n = pv_Count opts ∨
       ∀ i, (0 < pv_Port opts → pv_Port opts = Z.of_nat i + 1) → ps' !! i ≠ Some PReserved) →
      port_step (CProvision opts) ps (Ok (ACount n)) ps'
  | step_status ps :
      port_step CStatus ps (Ok (ACounts (num is_attached ps) (num is_free ps) (num is_reserved ps))) ps
  | step_refused c ps e : port_step c ps (Err e) ps
  | step_release_fails opts ps ps' e :
      rl_Force opts = true ∨ num is_attached ps = 0 → Forall2 taken ps ps' →
      port_step (CRelease opts) ps (Err e) ps'
  | step_provision_fails opts ps ps' e :
      Forall2 freed ps ps' → port_step (CProvision opts) ps (Err e) ps'.

Inductive port_steps : list port_call → list aport → list (res answer) → list aport → Prop :=
  | steps_nil ps : port_steps [] ps [] ps
  | steps_cons c cs ps r ps' rs ps'' :
      port_step c ps r ps' → port_steps cs ps' rs ps'' → port_steps (c :: cs) ps (r :: rs) ps''.

Lemma port_step_length c ps r ps' : port_step c ps r ps' → length ps' = length ps.
Proof.
  destruct 1; rewrite ?length_insert, ?length_replicate; try done; symmetry; by eapply Forall2_length.
Qed.
End machine.

(** ** The switch, seen as that machine *)
Definition abs_attachment (x : SlotItem) : attachment :=
  MkAttachment (si_InnerIp x) (si_TransitGatewayIp x) (si_TransitGeneveVni x) (si_TransitMac x)
    (si_GeneveOptsLen x) (si_Generation x) (negb (Z.land (si_Flags x) PortFUp =? 0)).
Definition abs_port (x : SlotItem) : aport :=
  match state_of (si_InnerIp x) with
  | SFree => PFree
  | SReserved => PReserved
  | SAllocated _ => PAttached (abs_attachment x)
  end.
Definition abs_table (n : Z) (s : list SlotItem) : list aport := abs_port <$> take (Z.to_nat n) s.

Definition admit_attach (sw : switchContext) (opts : AttachOptions) : option attachment :=
  match attach_checks sw opts with
  | Ok (value, _, ip) =>
      Some (MkAttachment ip (gateway_of (ao_TransitGatewayIP opts)) (ao_TransitGeneveVNI opts)
              (mac_or_zero (ao_TransitMAC opts)) (gv_Len value) (ao_Generation opts) (negb (ao_AdminDown opts)))
  | _ => None
  end.
Definition admit_up (sw : switchContext) (opts : PortUpOptions) (generation : Z) : option attachment :=
  match port_up_checks sw opts with
  | Ok (ip, (value, _)) =>
      Some (MkAttachment ip (IPToUint32 (po_TransitGatewayIP opts)) (po_TransitGeneveVNI opts)
              (mac_or_zero (po_TransitMAC opts)) (gv_Len value) generation true)
  | _ => None
  end.

Section switch.
Context (map_range : gset Z → list Z) (fuel : nat) (name : string) (sw : switchContext).

(** A call on the open switch, with what the machine's answer keeps of its
    result. *)
Definition perform (c : port_call) : M answer :=
  match c with
  | CAttach opts => let* out := Attach sw opts in mok (APort (at_Port out))
  | CDetach opts => let* _ := Detach sw opts in mok ADone
  | CReserve opts => let* out := Reserve fuel sw opts in mok (APort (re_Port out))
  | CSetPortUp opts => let* _ := SetPortUp sw opts in mok ADone
  | CRelease opts => let* _ := release_body fuel name opts sw in mok ADone
  | CProvision opts => let* out := provision_body fuel name opts sw in mok (ACount (pr_Provisioned out))
  | CStatus => let* out := Status map_range sw in
      mok (ACounts (ss_PortsUsed out) (ss_PortsAvailable out) (ss_PortsReserved out))
  end.
Fixpoint session (cs : list port_call) : prog (list (res answer)) :=
  match cs with
  | [] => Ret []
  | c :: cs => let~ r := perform c in let~ rs := session cs in Ret (r :: rs)
  end.
End switch.

(** ** Lists of ports and tables of slots *)
Lemma mem_step_length {B} (e : ev B) s b s' : mem_step e s = Some (b, s') → length s' = length s.
Proof.
  destruct e; simpl; intros H; repeat case_match; simplify_eq; try done; by rewrite ?set_slot_length.
Qed.
(** A program alone keeps the size of the mapping. *)
Lemma wp_alone_length {A} (p : prog A) Q s :
  wp alone p Q s → wp alone p (λ a s', Q a s' ∧ length s' = length s) s.
Proof.
  assert (∀ n s, length s = n → wp alone p Q s → wp alone p (λ a s', Q a s' ∧ length s' = n) s) as H.
  { clear s. intros n. induction p as [a|B e k IH]; intros s Hs; [done|]. intros [Hok H]. split; [done|].
    intros b s' Hstep. apply IH; [|by apply H]. destruct Hstep as (s0 & <- & Hm).
    destruct e; try (by apply mem_step_length in Hm; rewrite Hm). by subst. }
  by apply H.
Qed.

Lemma only_slot_insert i s s' x y :
  only_slot i s s' → slot_at s i = Some x → slot_at s' i = Some y → s' = set_slot s i y.
Proof.
  intros Ho Hx Hy. pose proof (slot_at_range _ _ _ Hx) as [Hi _].
  assert (∀ l k, slot_at l (Z.of_nat k) = l !! k) as Hat.
  { intros l k. unfold slot_at. assert ((Z.of_nat k <? 0) = false) as -> by (apply Z.ltb_ge; lia). by rewrite Nat2Z.id. }
  apply list_eq. intros k. rewrite <-!Hat. destruct (decide (Z.of_nat k = i)) as [->|Hne].
  - by rewrite Hy, (slot_at_set _ _ _ _ Hx).
  - rewrite slot_at_set_ne by done. by apply Ho.
Qed.

Section table.
Context (n : Z).
Implicit Types s : list SlotItem.

Lemma abs_table_length s : 0 ≤ n ≤ Z.of_nat (length s) → Z.of_nat (length (abs_table n s)) = n.
Proof. intros. unfold abs_table. rewrite length_fmap, length_take. lia. Qed.
Lemma abs_table_lookup s i : 0 ≤ i < n → abs_table n s !! Z.to_nat i = abs_port <$> slot_at s i.
Proof.
  intros Hi. unfold abs_table, slot_at. destruct (i <? 0) eqn:E; [lia|].
  by rewrite list_lookup_fmap, lookup_take_lt by lia.
Qed.
Lemma abs_table_lookup_nat s k p :
  abs_table n s !! k = Some p → ∃ x, slot_at s (Z.of_nat k) = Some x ∧ p = abs_port x ∧ Z.of_nat k < n.
Proof.
  intros H. pose proof (lookup_lt_Some _ _ _ H) as Hk. unfold abs_table in Hk.
  rewrite length_fmap, length_take in Hk. assert (Z.of_nat k < n) as Hn by lia.
  rewrite <-(Nat2Z.id k) in H. rewrite abs_table_lookup in H by lia.
  destruct (slot_at s (Z.of_nat k)) as [x|]; simplify_eq/=. by exists x.
Qed.
Lemma abs_table_set s i y : 0 ≤ i < n → abs_table n (set_slot s i y) = <[Z.to_nat i := abs_port y]> (abs_table n s).
Proof. intros Hi. unfold abs_table, set_slot. by rewrite take_insert_lt, list_fmap_insert by lia. Qed.
Lemma abs_table_same s i x y :
  0 ≤ i < n → slot_at s i = Some x → abs_port y = abs_port x → abs_table n (set_slot s i y) = abs_table n s.
Proof.
  intros Hi Hx Hy. rewrite abs_table_set, Hy by done. apply list_insert_id.
  by rewrite abs_table_lookup, Hx by done.
Qed.

Lemma num_ip_count P Q s :
  (∀ x, P (abs_port x) = Q (si_InnerIp x)) → num P (abs_table n s) = ip_count Q n s.
Proof.
  intros HPQ. unfold num, ip_count, abs_table. f_equal.
  induction (take (Z.to_nat n) s) as [|x l IH]; [done|]. rewrite fmap_cons, filter_cons. cbn [List.filter].
  rewrite HPQ. destruct (Q (si_InnerIp x)); [rewrite decide_True by done; simpl; by rewrite IH|].
  by rewrite decide_False.
Qed.

Lemma abs_port_cases x :
  (si_InnerIp x = InnerIPFree ∧ abs_port x = PFree) ∨ (si_InnerIp x = InnerIPReserved ∧ abs_port x = PReserved) ∨
  (IsSlotAllocated (si_InnerIp x) = true ∧ abs_port x = PAttached (abs_attachment x)).
Proof.
  unfold abs_port, state_of, IsSlotAllocated, IsSlotFreeOrReserved.
  destruct (si_InnerIp x =? InnerIPFree) eqn:E1; [apply Z.eqb_eq in E1; by left|].
  destruct (si_InnerIp x =? InnerIPReserved) eqn:E2; [apply Z.eqb_eq in E2; by right; left|]. by right; right.
Qed.
End table.

Ltac abs_cases x :=
  let H := fresh "Hcase" in
  pose proof (abs_port_cases x) as H;
  destruct H as [[?Hip ?Habs]|[[?Hip ?Habs]|[?Hip ?Habs]]].

Lemma abs_free x : si_InnerIp x = InnerIPFree → abs_port x = PFree.
Proof. unfold abs_port. by intros ->. Qed.
Lemma abs_reserved x : si_InnerIp x = InnerIPReserved → abs_port x = PReserved.
Proof. unfold abs_port. by intros ->. Qed.
Lemma abs_allocated x : IsSlotAllocated (si_InnerIp x) = true → abs_port x = PAttached (abs_attachment x).
Proof. unfold abs_port. intros H%IsSlotAllocated_spec. by rewrite H. Qed.
Lemma free_at_abs n s i : 0 ≤ i < n → free_at s i ↔ abs_table n s !! Z.to_nat i = Some PFree.
Proof.
  intros Hi. rewrite abs_table_lookup by done. unfold free_at, owner, abs_port.
  destruct (slot_at s i) as [x|]; simpl; [|done]. destruct (state_of _); naive_solver.
Qed.

Lemma same_device_shape x y : same_device x y → slot_shape x → slot_shape y.
Proof. intros (_ & _ & _ & _ & Hc & _ & He) [H1 H2]. split; congruence. Qed.
Lemma shape_set s i x y :
  Forall slot_shape s → slot_at s i = Some x → (slot_shape x → slot_shape y) → Forall slot_shape (set_slot s i y).
Proof.
  intros Hs Hx Hy. apply Forall_insert; [done|]. apply Hy. unfold slot_at in Hx. destruct (i <? 0); [done|].
  by eapply Forall_lookup_1.
Qed.

(** ** Call by call *)
Definition res_map {A B} (f : A → B) (r : res A) : res B :=
  match r with Ok a => Ok (f a) | Err e => Err e | Panic => Panic | OutOfFuel => OutOfFuel end.
Section refines.
Context (map_range : gset Z → list Z) (fuel : nat) (name : string) (sw : switchContext) (Hfuel : (0 < fuel)%nat).
Notation n := (sc_N_ports (sx_cfg sw)).
Notation abs := (abs_table n).
Notation step := (port_step (admit_attach sw) (admit_up sw)).

(** What a call owes the machine. *)
Definition call_post (c : port_call) (s : list SlotItem) (r : res answer) (s' : list SlotItem) : Prop :=
  step c (abs s) r (abs s') ∧ Forall slot_shape s'.

Lemma refused c s e : Forall slot_shape s → call_post c s (Err e) s.
Proof. intros Hs. split; [constructor|done]. Qed.

(** One slot was replaced by one that looks the same. *)
Lemma refused_slot c s i x y e :
  Forall slot_shape s → 0 ≤ i < n → slot_at s i = Some x → abs_port y = abs_port x →
  (slot_shape x → slot_shape y) → call_post c s (Err e) (set_slot s i y).
Proof.
  intros Hs Hi Hx Hy Hsh. split; [|by eapply shape_set].
  rewrite (abs_table_same n s i x y) by done. constructor.
Qed.

Lemma wp_result {A B} (p : M A) (f : A → B) (Q : res B → list SlotItem → Prop) s :
  wp alone p (λ r s', Q (res_map f r) s') s → wp alone (let* a := p in mok (f a)) Q s.
Proof. intros H. apply wp_mbind. eapply wp_mono; [exact H|]. by intros []. Qed.

Lemma port_index port : 1 ≤ port → port <= 2 ^ 32 → u32 (port - 1) = port - 1.
Proof. intros. apply u32_small. unfold is_u32. lia. Qed.

Lemma attach_refines opts s :
  ctx_ok sw s → Forall slot_shape s → ao_Port opts ≤ 2 ^ 32 →
  wp alone (perform map_range fuel name sw (CAttach opts)) (call_post (CAttach opts) s) s.
Proof.
  intros Hctx Hs Hp. cbn [perform]. apply wp_result. eapply wp_mono; [by apply wp_Attach|].
  intros r s' Hpost. unfold attach_post in Hpost.
  destruct (attach_checks sw opts) as [[[value total] ip]|e| |] eqn:Hc; [|..|done|done].
  2:{ destruct Hpost as [-> ->]. by apply refused. }
  destruct r as [out|e| |]; try done; cbn [res_map].
  - destruct Hpost as (i & x & y & Hi & Hn & Hout & _ & Hf & Hx & Hy & Hatt & Hst & Ho).
    rewrite (only_slot_insert i s s' x y) by done. split.
    2:{ eapply shape_set; [done..|]. apply same_device_shape, (att_device _ _ _ _ _ Hatt). }
    rewrite abs_table_set, Hout by done. replace (i + 1) with (Z.of_nat (Z.to_nat i) + 1) by lia.
    rewrite abs_allocated by (rewrite (att_ip _ _ _ _ _ Hatt); by apply IsSlotAllocated_spec).
    constructor.
    + unfold admit_attach. rewrite Hc. f_equal. unfold abs_attachment.
      destruct Hatt as [-> -> -> -> -> -> -> _ _]. f_equal. by destruct (ao_AdminDown opts).
    + split; [by apply free_at_abs|]. unfold names_slot in Hn. destruct (0 <? ao_Port opts) eqn:E.
      * rewrite port_index in Hn by lia. lia.
      * intros j Hj Hfree. apply (Hn (Z.of_nat j)); [lia|]. apply (free_at_abs n); [lia|]. by rewrite Nat2Z.id.
  - destruct Hpost as [[-> _]|(i & x & y & Hi & _ & Hf & Hx & Hy & Hrb & Ho)]; [by apply refused|].
    rewrite (only_slot_insert i s s' x y) by done. eapply refused_slot; [done..| |].
    + rewrite !abs_free; [done| |by apply (rb_free _ _ Hrb)]. by eapply free_at_ip.
    + apply same_device_shape, (rb_device _ _ Hrb).
Qed.

Lemma detach_refines opts s :
  ctx_ok sw s → Forall slot_shape s → do_Port opts ≤ 2 ^ 32 →
  wp alone (perform map_range fuel name sw (CDetach opts)) (call_post (CDetach opts) s) s.
Proof.
  intros Hctx Hs Hp. cbn [perform]. apply wp_result. eapply wp_mono; [by apply wp_Detach|].
  intros [[]|e| |] s' Hpost; try done; cbn [res_map].
  - destruct Hpost as (x & H1 & Hi & Hx & Ha & ->). rewrite port_index in Hi, Hx |- * by done.
    set (i := do_Port opts - 1) in *. split.
    2:{ eapply shape_set; [done..|]. by destruct x. }
    rewrite abs_table_set by lia. rewrite (abs_free (detached x)) by (unfold detached; by rewrite InnerIp_set).
    eapply step_detach; [unfold i; lia|]. rewrite abs_table_lookup, Hx by lia. simpl. by rewrite abs_allocated.
  - destruct Hpost as [-> _]. by apply refused.
Qed.

Lemma force_reserved_shape x : slot_shape x → slot_shape (force_reserved sw x).
Proof. unfold force_reserved. case_match; by destruct x. Qed.

Lemma reserve_refines opts s :
  ctx_ok sw s → Forall slot_shape s → ro_Port opts ≤ 2 ^ 32 →
  wp alone (perform map_range fuel name sw (CReserve opts)) (call_post (CReserve opts) s) s.
Proof.
  intros Hctx Hs Hp. cbn [perform]. apply wp_result. eapply wp_mono; [by apply wp_Reserve|].
  intros [out|e| |] s' Hpost; try done; cbn [res_map].
  - destruct Hpost as (x & y & H1 & Hi & Hout & Hx & -> & Hy & Hwhy). rewrite port_index in Hi, Hx, Hout |- * by done.
    set (i := ro_Port opts - 1) in *. split.
    + rewrite abs_table_set, (abs_reserved y), Hout by (done || lia).
      replace (i + 1) with (Z.of_nat (Z.to_nat i) + 1) by lia.
      eapply (step_reserve _ _ _ _ _ (abs_port x)); [unfold i; lia|by rewrite abs_table_lookup, Hx by lia|].
      destruct Hwhy as [(_ & -> & _)|(_ & Hwhy)]; [by left|]. destruct (ro_Force opts); [by left|right].
      destruct Hwhy as [Hfree _]. by apply abs_free.
    + eapply shape_set; [done..|]. destruct Hwhy as [(_ & _ & ->)|(_ & Hwhy)]; [done|].
      destruct (ro_Force opts), Hwhy as [_ ->]; [apply force_reserved_shape|by destruct x].
  - rewrite Hpost. by apply refused.
Qed.

Lemma set_port_up_refines opts s :
  ctx_ok sw s → Forall slot_shape s → po_Port opts ≤ 2 ^ 32 →
  wp alone (perform map_range fuel name sw (CSetPortUp opts)) (call_post (CSetPortUp opts) s) s.
Proof.
  intros Hctx Hs Hp. cbn [perform]. apply wp_result. eapply wp_mono; [apply wp_SetPortUp; [done|lia]|].
  intros [[]|e| |] s' Hpost; try done; cbn [res_map].
  - destruct Hpost as (x & y & value & total & ip & Hi & Hc & Hst & Hx & Ha & Hdown & -> & Hpub).
    set (i := po_Port opts - 1) in *. split.
    + rewrite abs_table_set by done.
      rewrite (abs_allocated y) by (rewrite (pub_ip _ _ _ _ _ Hpub); by apply IsSlotAllocated_spec).
      eapply (step_up _ _ _ _ _ (abs_attachment x)); [unfold i; lia| | |].
      * rewrite abs_table_lookup, Hx by lia. simpl. by rewrite abs_allocated.
      * simpl. by rewrite Hdown.
      * unfold admit_up. rewrite Hc. unfold abs_attachment. by destruct Hpub as [-> -> -> -> -> -> -> _ _].
    + eapply shape_set; [done..|]. apply same_device_shape, (pub_device _ _ _ _ _ Hpub).
  - destruct Hpost as [-> _]. by apply refused.
Qed.

Lemma is_attached_abs s : num is_attached (abs s) = ip_count IsSlotAllocated n s.
Proof. apply num_ip_count. intros x. abs_cases x; rewrite Habs; simpl; [by rewrite Hip|by rewrite Hip|done]. Qed.
Lemma is_reserved_abs s : num is_reserved (abs s) = reserved_count n s.
Proof.
  apply num_ip_count. intros x. abs_cases x; rewrite Habs; cbn [is_reserved]; [by rewrite Hip|by rewrite Hip|].
  symmetry. apply Z.eqb_neq. intros E. by rewrite <-E in Hip.
Qed.
Lemma is_free_abs s : num is_free (abs s) = ip_count (Z.eqb InnerIPFree) n s.
Proof.
  apply num_ip_count. intros x. abs_cases x; rewrite Habs; cbn [is_free]; [by rewrite Hip|by rewrite Hip|].
  symmetry. apply Z.eqb_neq. intros E. by rewrite <-E in Hip.
Qed.

(** Two tables of the same size, related slot by slot. *)
Lemma abs_table_forall2 (R : aport → aport → Prop) s s' :
  length s' = length s → (∀ k x y, slot_at s k = Some x → slot_at s' k = Some y → R (abs_port x) (abs_port y)) →
  Forall2 R (abs s) (abs s').
Proof.
  intros Hl H. apply Forall2_same_length_lookup. split.
  { unfold abs_table. by rewrite !length_fmap, !length_take, Hl. }
  intros k p p' Hp Hp'. destruct (abs_table_lookup_nat _ _ _ _ Hp) as (x & Hx & -> & _).
  destruct (abs_table_lookup_nat _ _ _ _ Hp') as (y & Hy & -> & _). by eapply H.
Qed.

Lemma released_part_taken x y : released_part x y → taken (abs_port x) (abs_port y).
Proof.
  intros [Hr [Hip|Hip] _]; [left|right; by apply abs_reserved].
  unfold abs_port. rewrite Hip. destruct (state_of _); [done..|].
  unfold abs_attachment. destruct x, y. simpl in *. congruence.
Qed.
Lemma released_part_shape x y : released_part x y → slot_shape x → slot_shape y.
Proof. intros [Hr _ _] [H1 H2]. destruct x, y. simpl in *. unfold slot_shape. simpl. split; congruence. Qed.
Lemma table_part_shape s s' : length s' = length s → table_part s s' → Forall slot_shape s → Forall slot_shape s'.
Proof.
  intros Hl Ht Hs. apply Forall_lookup. intros k y Hy. destruct (lookup_lt_is_Some_2 s k) as [x Hx].
  { rewrite <-Hl. by eapply lookup_lt_Some. }
  assert (∀ l, slot_at l (Z.of_nat k) = l !! k) as Hat.
  { intros l. unfold slot_at. assert ((Z.of_nat k <? 0) = false) as -> by (apply Z.ltb_ge; lia). by rewrite Nat2Z.id. }
  destruct (Ht (Z.of_nat k) x) as (y' & Hy' & Hr); [by rewrite Hat|]. rewrite Hat in Hy'. simplify_eq.
  eapply released_part_shape; [done|]. by eapply Forall_lookup_1.
Qed.

Lemma released_table_abs s : 0 ≤ n ≤ Z.of_nat (length s) →
  abs (released_table n s) = replicate (length (abs s)) PReserved.
Proof.
  intros Hn. apply list_eq. intros k. destruct (abs (released_table n s) !! k) as [p|] eqn:Hp.
  - destruct (abs_table_lookup_nat _ _ _ _ Hp) as (y & Hy & -> & Hk). symmetry. apply lookup_replicate.
    pose proof (abs_table_length n s Hn). split; [|lia]. apply abs_reserved.
    unfold slot_at, released_table, over in Hy. assert ((Z.of_nat k <? 0) = false) as E by (apply Z.ltb_ge; lia).
    rewrite E, Nat2Z.id, lookup_app_l in Hy by (rewrite length_map, length_take; lia).
    change (map ?f) with (fmap (M := list) f) in Hy. rewrite list_lookup_fmap in Hy.
    destruct (take _ _ !! k) as [x|]; simplify_eq/=. by destruct x.
  - symmetry. apply lookup_replicate_None. apply lookup_ge_None in Hp. unfold abs_table in *.
    rewrite length_fmap, length_take in *. unfold released_table in Hp. by rewrite over_length in Hp.
Qed.

Lemma release_refines opts s :
  ctx_ok sw s → Forall slot_shape s →
  wp alone (perform map_range fuel name sw (CRelease opts)) (call_post (CRelease opts) s) s.
Proof.
  intros Hctx Hs. pose proof (ctx_pos _ _ Hctx). pose proof (ctx_fit _ _ Hctx). cbn [perform]. apply wp_result.
  eapply wp_mono; [by apply wp_alone_length, wp_release_body|].
  intros r s' [(Huse & Ht & Hr) Hl].
  assert (rl_Force opts = true ∨ num is_attached (abs s) = 0 ∨ ¬ is_ok r ∧ s' = s) as Hmode.
  { rewrite is_attached_abs. destruct (rl_Force opts); [by left|]. right.
    destruct (decide (0 < ip_count IsSlotAllocated n s)); [right; by apply Huse|left]. unfold ip_count in *. lia. }
  assert (Forall slot_shape s') as Hs' by by eapply table_part_shape.
  split; [|done]. destruct r as [out|e| |]; try done; cbn [res_map].
  - destruct Hr as (-> & _). rewrite released_table_abs by lia. constructor.
    destruct Hmode as [?|[?|[Hno _]]]; [by left|by right|by destruct Hno].
  - assert (Forall2 taken (abs s) (abs s')) as Htk.
    { apply abs_table_forall2; [done|]. intros k x y Hx Hy. destruct (Ht k x Hx) as (y' & Hy' & Hp). simplify_eq.
      by apply released_part_taken. }
    destruct Hmode as [?|[?|[_ ->]]]; [apply step_release_fails; auto..|constructor].
Qed.

Lemma slot_after_freed log env m port f k x y :
  slot_after log env m port f k x y → freed (abs_port x) (abs_port y).
Proof.
  intros [->|(Hx & _ & [(_ & Hy & _)|(_ & _ & Hy & _)])]; [by left| |].
  - right. split; [by apply abs_reserved|]. by apply abs_free.
  - left. by rewrite !abs_reserved.
Qed.
Lemma slot_after_shape log env m port f k x y : slot_shape x → slot_after log env m port f k x y → slot_shape y.
Proof. intros Hx [->|(_ & _ & [[Hw _]|(_ & Hw & _)])]; [done|apply (wr_shape _ _ _ _ _ Hw)..]. Qed.
Lemma table_after_freed log env m port f s s' :
  Forall slot_shape s → table_after log env m port f s s' → Forall slot_shape s' ∧ Forall2 freed (abs s) (abs s').
Proof.
  intros Hs [Hlen Ht]. assert (H : Forall2 (λ x y, slot_shape y ∧ freed (abs_port x) (abs_port y)) s s').
  { apply Forall2_same_length_lookup_2; [done|]. intros k x y Hx Hy.
    assert (Hk : slot_after log env m port f (Z.of_nat k) x y).
    { apply Ht; unfold slot_at; rewrite (proj2 (Z.ltb_ge _ _)), Nat2Z.id by lia; done. }
    split; [|by eapply slot_after_freed]. eapply slot_after_shape; [|done]. by eapply Forall_lookup_1. }
  split.
  - apply Forall_lookup. intros k y Hy. by destruct (Forall2_lookup_r _ _ _ _ _ H Hy) as (x & _ & ? & _).
  - unfold abs_table. apply Forall2_fmap, Forall2_take. eapply Forall2_impl; [exact H|]. by intros x y [].
Qed.

Lemma provision_refines opts s :
  ctx_ok sw s → Forall slot_shape s → pv_Port opts ≤ 2 ^ 32 →
  wp alone (perform map_range fuel name sw (CProvision opts)) (call_post (CProvision opts) s) s.
Proof.
  intros Hctx Hs Hp. cbn [perform]. apply wp_result. eapply wp_mono; [by apply wp_provision_alone|].
  intros r s' [g Hr]. unfold provision_post in Hr. cbv zeta in Hr. simpl in Hr. destruct r as [out|e| |]; try done; cbn [res_map].
  - destruct Hr as ((env & _ & Ht) & Hn & _ & _ & Hlim & Hrest). destruct (table_after_freed _ _ _ _ _ _ _ Hs Ht) as [Hs' Hf].
    split; [|done]. apply step_provision; [done|by rewrite !is_reserved_abs|done|].
    destruct Hrest as [Hrest|Hrest]; [right|by left].
    intros i Hi Habs. destruct (abs_table_lookup_nat _ _ _ _ Habs) as (x & Hx & Hpx & Hin).
    apply (Hrest (Z.of_nat i) x); [|lia|done|].
    + split; [lia|]. intros H0. rewrite port_index by lia. specialize (Hi H0). lia.
    + abs_cases x; congruence.
  - destruct Hr as [->|(env & k & _ & Ht & _)].
    + split; [|done]. apply step_provision_fails. clear. induction (abs s); constructor; [by left|done].
    + destruct (table_after_freed _ _ _ _ _ _ _ Hs Ht) as [Hs' Hf]. split; [|done]. by apply step_provision_fails.
Qed.

Lemma status_refines s :
  ctx_ok sw s → Forall slot_shape s → wp alone (perform map_range fuel name sw CStatus) (call_post CStatus s) s.
Proof.
  intros Hctx Hs. pose proof (ctx_pos _ _ Hctx). pose proof (ctx_fit _ _ Hctx). cbn [perform].
  apply wp_result. eapply wp_mono; [by apply wp_Status|].
  intros [out|e| |] s' [-> Hr]; try done; cbn [res_map]; [|by apply refused].
  destruct Hr as (Hsum & Hports & Hu & Hres). split; [|done].
  pose proof (ip_count_split n s ltac:(lia)) as Hsplit.
  assert (ss_PortsUsed out = num is_attached (abs s) ∧ ss_PortsAvailable out = num is_free (abs s) ∧
    ss_PortsReserved out = num is_reserved (abs s)) as (-> & -> & ->); [|constructor].
  rewrite is_attached_abs, is_free_abs, is_reserved_abs. unfold reserved_count in *. lia.
Qed.

Lemma perform_refines c s :
  ctx_ok sw s → Forall slot_shape s → call_ok c = true →
  wp alone (perform map_range fuel name sw c) (λ r s', call_post c s r s' ∧ ctx_ok sw s') s.
Proof.
  intros Hctx Hs Hc. eapply wp_mono.
  - apply wp_alone_length. instantiate (1 := call_post c s).
    destruct c; cbn [call_ok] in Hc; try apply Z.leb_le in Hc;
      auto using attach_refines, detach_refines, reserve_refines, set_port_up_refines, release_refines,
        provision_refines, status_refines.
  - intros r s' [Hp Hl]. split; [done|]. destruct Hctx. constructor; try done. by rewrite Hl.
Qed.

Lemma session_steps cs : ∀ s,
  ctx_ok sw s → Forall slot_shape s → Forall (λ c, call_ok c = true) cs →
  wp alone (session map_range fuel name sw cs)
    (λ rs s', port_steps (admit_attach sw) (admit_up sw) cs (abs s) rs (abs s') ∧ ctx_ok sw s') s.
Proof.
  induction cs as [|c cs IH]; intros s Hctx Hs Hcs; cbn [session]; [split; [constructor|done]|].
  inversion_clear Hcs. apply wp_bind. eapply wp_mono; [by apply perform_refines|].
  intros r s1 [[Hstep Hs1] Hctx1]. apply wp_bind. eapply wp_mono; [by apply IH|].
  intros rs s2 [Hsteps Hctx2]. split; [|done]. by econstructor.
Qed.
End refines.

(** C2: the open switch refines the port machine.  Whatever sequence of
    attach, detach, reserve, set-port-up, release, provision and status calls a
    caller makes, and whatever the kernel answers to each of their events, the
    answers and the final table are those of one run of the machine: an
    attachment goes to the requested or lowest free port, only an attached port
    is detached or brought up, only provisioning makes a Reserved port Free, and
    a failing call leaves every port alone, except that a failing release may
    have reserved some and a failing provisioning may have freed some Reserved
    ones.  Every call of the sequence returns. *)
Theorem session_refines map_range fuel name sw cs s :
  ctx_ok sw s → Forall slot_shape s → (0 < fuel)%nat → Forall (λ c, call_ok c = true) cs →
  wp alone (session map_range fuel name sw cs)
    (λ rs s', port_steps (admit_attach sw) (admit_up sw) cs (abs_table (sc_N_ports (sx_cfg sw)) s) rs
                         (abs_table (sc_N_ports (sx_cfg sw)) s') ∧ ctx_ok sw s') s.
Proof. intros Hctx Hs Hfuel Hcs. by apply session_steps. Qed.

Definition ex_session : list port_call :=
  [CAttach (ex_attach 0); CStatus; CDetach (MkDetachOptions 2 "" true); CRelease (MkReleaseOptions true)].
Lemma session_refines_witness :
  abs_table 4 ex_table !! 2%nat = Some PFree ∧
  wp alone (session elements 1 "sw0" ex_switch ex_session)
    (λ rs s', port_steps (admit_attach ex_switch) (admit_up ex_switch) ex_session (abs_table 4 ex_table) rs
                         (abs_table 4 s') ∧ ctx_ok ex_switch s') ex_table.
Proof.
  split; [by vm_compute|].
  apply (session_refines elements 1 "sw0" ex_switch ex_session ex_table);
    [apply ex_switch_ok|apply ex_table_shape|lia|repeat constructor].
Defined.
