(* ===== verification/Progress.v ===== *)
(** * Progress under interference

    Attach, detach and set-port-up claim a slot in a bounded number of steps
    and give up when they lose a race.  A forced reservation and provisioning
    retry instead.  Here the rest of the world may change the table between any
    two events, but the address of the slot in question only a bounded number
    of times: the retry loops then end, after at most one more round than there
    were changes. *)
From S2P Require Import Prelude Errors GoStrings GoNet BpfTypes Prog SlotTable Interleave.
From S2P Require Import Netns Netlink Config Metadata Loader Context Flock Attach AttachSpec MgmtService Provision PortSpec.

(** The table, and how many more times others may change the address of slot
    [i]. *)
Definition interfered (i : Z) (t t' : list SlotItem * nat) : Prop :=
  length t'.1 = length t.1 ∧ (initial_ip t'.1 i = initial_ip t.1 i ∧ t'.2 = t.2 ∨ (t'.2 < t.2)%nat).
Definition interference (i : Z) : sem (list SlotItem * nat) :=
  MkSem
    (λ B e t, ∀ t', interfered i t t' → match e with EKern _ => True | _ => is_Some (mem_step e t'.1) end)
    (λ B e t b t'', ∃ t', interfered i t t' ∧ t''.2 = t'.2 ∧
       match e in ev B return B → Prop with
       | EKern _ => λ _, t''.1 = t'.1
       | e => λ b, mem_step e t'.1 = Some (b, t''.1)
       end b).

#[export] Instance interfered_preorder i : PreOrder (interfered i).
Proof.
  split; [by intros t; split; [|left]|]. intros t1 t2 t3 [? H1] [? H2]. split; [congruence|].
  destruct H1 as [[? ?]|?], H2 as [[? ?]|?]; [left; split; congruence|right; lia..].
Qed.

(** What is left to others never grows. *)
Definition later (t t' : list SlotItem * nat) : Prop := length t'.1 = length t.1 ∧ (t'.2 ≤ t.2)%nat.
#[export] Instance later_preorder : PreOrder later.
Proof. split; [by intros t|]. intros t1 t2 t3 [? ?] [? ?]. split; [congruence|lia]. Qed.
Lemma interfered_later i t t' : interfered i t t' → later t t'.
Proof. intros [Hl [[_ Hk]|Hk]]; split; [done|lia|done|lia]. Qed.

Lemma later_in_slots t t' j : later t t' → in_slots t.1 j → in_slots t'.1 j.
Proof. intros [Hl _]. unfold in_slots. by rewrite Hl. Qed.

Section rules.
Context (i : Z).
Notation io := (interference i).

Lemma wp_interfered_kern_only {A} (p : prog A) Q t :
  kern_only p → (∀ a t', later t t' → Q a t') → wp io p Q t.
Proof.
  revert t. induction p as [a|B e k IH]; intros t; cbn [kern_only wp]; [intros _ HQ; by apply HQ|].
  intros [He Hk] HQ. destruct e as [| | | |C q]; try done. split; [done|]. intros b [s1 k1] ([s0 k0] & Hi & E1 & E2).
  simpl in *. subst. apply IH; [done|]. intros a t' Ht'. apply HQ. transitivity (s0, k0); [|done].
  by eapply interfered_later.
Qed.
Lemma wp_interfered_kern_ret {A} (p : M A) (Q : res A → list SlotItem * nat → Prop) t :
  kern_ret p → (∀ a t', later t t' → Q (Ok a) t') → (∀ e t', later t t' → Q (Err e) t') → wp io p Q t.
Proof.
  unfold kern_ret. revert t. induction p as [a|B e k IH]; intros t; cbn [ends_in wp].
  - intros Hr Hok Herr. destruct a; try done; [by apply Hok|by apply Herr].
  - intros [He Hk] Hok Herr. destruct e as [| | | |C q]; try done. split; [done|].
    intros b [s1 k1] ([s0 k0] & Hi & E1 & E2). simpl in *. subst. apply interfered_later in Hi.
    apply IH; [done|intros a t' Ht'; apply Hok|intros e t' Ht'; apply Herr]; by transitivity (s0, k0).
Qed.
Lemma wp_interfered_defer {A C} (c : prog C) (p : M A) (Q : res A → list SlotItem * nat → Prop) t :
  kern_only c → wp io p (λ r t', ∀ t'', later t' t'' → Q r t'') t → wp io (with_defer c p) Q t.
Proof.
  intros Hc Hp. unfold with_defer. apply wp_bind. eapply wp_mono; [exact Hp|]. intros r t' HQ.
  apply wp_bind. apply wp_interfered_kern_only; [done|]. intros _ t'' Ht. by apply HQ.
Qed.

(** Accesses to the slot.  Only a swap that succeeds ends what is known of the
    address. *)
Lemma interfered_at t t' : in_slots t.1 i → interfered i t t' → ∃ x, slot_at t'.1 i = Some x.
Proof. intros Hin [Hl _]. apply slot_at_in. unfold in_slots in *. by rewrite Hl. Qed.

Lemma wp_interfered_load n (Q : Z → list SlotItem * nat → Prop) t :
  i < n → in_slots t.1 i →
  (∀ ip t', interfered i t t' → initial_ip t'.1 i = Some ip → Q ip t') → wp io (GetInnerIP n i) Q t.
Proof.
  intros Hn Hin HQ. unfold GetInnerIP. rewrite ptr_lt by done. split.
  - intros t' Hi. destruct (interfered_at _ _ Hin Hi) as [x Hx]. simpl. rewrite Hx. by eexists.
  - intros ip [s2 k2] ([s1 k1] & Hi & E & Hm). destruct (interfered_at _ _ Hin Hi) as [x Hx]. simpl in *. subst k2.
    rewrite Hx in Hm. simplify_eq. apply HQ; [done|]. simpl. unfold initial_ip. by rewrite Hx.
Qed.
Lemma wp_interfered_cas old new (Q : bool → list SlotItem * nat → Prop) t :
  in_slots t.1 i → (∀ t', later t t' → Q true t') →
  (∀ t', interfered i t t' → initial_ip t'.1 i ≠ Some old → Q false t') → wp io (cas i old new) Q t.
Proof.
  intros Hin Ht Hf. split.
  - intros t' Hi. destruct (interfered_at _ _ Hin Hi) as [x Hx]. simpl. rewrite Hx. destruct (_ =? _); by eexists.
  - intros b [s2 k2] ([s1 k1] & Hi & E & Hm). destruct (interfered_at _ _ Hin Hi) as [x Hx]. simpl in *. subst k2.
    rewrite Hx in Hm. destruct (si_InnerIp x =? old) eqn:E; simplify_eq.
    + apply Ht. apply interfered_later in Hi as [Hl Hk]. split; [simpl in *; by rewrite set_slot_length|done].
    + apply Hf; [done|]. simpl. unfold initial_ip. rewrite Hx. simpl. intros [= ?]. lia.
Qed.
Lemma wp_interfered_store w (Q : unit → list SlotItem * nat → Prop) t :
  in_slots t.1 i → (∀ t', interfered i t t' → Q tt t') → wp io (trigger (EStore i w)) Q t.
Proof.
  intros Hin HQ. split.
  - intros t' Hi. destruct (interfered_at _ _ Hin Hi) as [x Hx]. simpl. rewrite Hx. by eexists.
  - intros b [s2 k2] ([s1 k1] & Hi & E & Hm). destruct (interfered_at _ _ Hin Hi) as [x Hx]. simpl in *. subst k2.
    rewrite Hx in Hm. simplify_eq. apply HQ. destruct Hi as [Hl Hor]. unfold interfered in *. simpl in *.
    rewrite set_slot_length. split; [done|].
    rewrite (initial_ip_set _ _ _ x), decide_True, InnerIp_write by done.
    unfold initial_ip in *. rewrite Hx in Hor. exact Hor.
Qed.
Lemma wp_interfered_stores ws : ∀ (Q : unit → list SlotItem * nat → Prop) t,
  in_slots t.1 i → (∀ t', interfered i t t' → Q tt t') → wp io (stores i ws) Q t.
Proof.
  induction ws as [|w ws IH]; intros Q t Hin HQ; cbn [stores]; [by apply HQ|].
  apply wp_bind, wp_interfered_store; [done|]. intros t1 Ht1.
  apply IH; [by eapply later_in_slots, Hin; apply (interfered_later i)|].
  intros t' Ht'. apply HQ. by etransitivity.
Qed.
Lemma wp_interfered_update n ws (Q : unit → list SlotItem * nat → Prop) t :
  i < n → in_slots t.1 i → (∀ t', interfered i t t' → Q tt t') → wp io (UpdateSlotFields n i (λ p, stores p ws)) Q t.
Proof. intros. unfold UpdateSlotFields. rewrite GetSlot_lt by done. by apply wp_interfered_stores. Qed.
End rules.

Section loops.
Context (i : Z).
Notation io := (interference i).

(** A forced reservation needs one round more than there are changes. *)
Lemma reserve_force_ends sw h fuel : ∀ t (Q : res string → list SlotItem * nat → Prop),
  i < sx_numSlots sw → in_slots t.1 i → (t.2 < fuel)%nat →
  (∀ s t', later t t' → Q (Ok s) t') → wp io (reserve_force_loop fuel sw h i) Q t.
Proof.
  induction fuel as [|fuel IH]; intros t Q Hn Hin Hk HQ; [lia|]. cbn [reserve_force_loop]. cbv zeta.
  apply wp_bind, wp_interfered_load; [done|done|]. intros ip t1 Ht1 Hip. apply interfered_later in Ht1.
  pose proof (later_in_slots _ _ _ Ht1 Hin) as Hin1.
  destruct (ip =? InnerIPReserved) eqn:E; [by apply HQ|]. apply Z.eqb_neq in E.
  apply wp_bind. unfold TryReserve. rewrite (proj2 (Z.eqb_neq _ _) E), ptr_lt by done.
  apply wp_interfered_cas; [done| |].
  - intros t2 Ht2. pose proof (later_in_slots _ _ _ Ht2 Hin1) as Hin2. apply wp_bind.
    assert (later t t2) as Ht by by transitivity t1. destruct (_ && _).
    + apply wp_interfered_update; [done|done|]. intros t3 Ht3%interfered_later. apply HQ. by transitivity t2.
    + by apply HQ.
  - intros t2 Ht2 Hne. pose proof (interfered_later _ _ _ Ht2) as Hl2.
    destruct Ht1 as [Hl1 Hk1], Ht2 as [_ [[Hsame _]|Hlt]]; [congruence|].
    apply IH; [done|by eapply later_in_slots|lia|]. intros s t3 Ht3. apply HQ.
    destruct Hl2, Ht3. split; [congruence|lia].
Qed.

(** So does the release of a provisioned port. *)
Lemma unreserve_ends n fuel : ∀ t (Q : res unit → list SlotItem * nat → Prop),
  i < n → in_slots t.1 i → (t.2 < fuel)%nat →
  (∀ r t', later t t' → returns r → Q r t') → wp io (unreserve_loop fuel n i) Q t.
Proof.
  induction fuel as [|fuel IH]; intros t Q Hn Hin Hk HQ; [lia|]. cbn [unreserve_loop].
  assert (∀ t1, later t t1 → (initial_ip t1.1 i = Some InnerIPReserved → t1.2 < t.2)%nat →
    wp io (let~ current := GetInnerIP n i in
           if current =? InnerIPFree then mok tt
           else if negb (current =? InnerIPReserved)
           then merr (errorf ("slot " +:+ fmt_u i +:+ ": unexpected state 0x" +:+ fmt_x current +:+ " during provision"))
           else unreserve_loop fuel n i) Q t1) as Hagain.
  { intros t1 Ht1 Hres. pose proof (later_in_slots _ _ _ Ht1 Hin) as Hin1.
    apply wp_bind, wp_interfered_load; [done|done|]. intros ip t2 Ht2 Hip. pose proof (interfered_later _ _ _ Ht2) as Hl2.
    assert (later t t2) as Ht by by transitivity t1. destruct (ip =? InnerIPFree); [by apply HQ|].
    destruct (ip =? InnerIPReserved) eqn:E; cbn [negb]; [|by apply HQ]. apply Z.eqb_eq in E. subst ip.
    destruct Ht1 as [? ?], Ht2 as [_ [[Hsame Heq]|Hlt]].
    - rewrite Hsame in Hip. specialize (Hres Hip). apply IH; [done|by eapply later_in_slots|lia|].
      intros r t3 Ht3. apply HQ. by transitivity t2.
    - apply IH; [done|by eapply later_in_slots|lia|]. intros r t3 Ht3. apply HQ. by transitivity t2. }
  apply wp_bind. unfold TryUnreserve. rewrite ptr_lt by done.
  apply wp_bind. pose proof (wp_interfered_load i n) as Hload. unfold GetInnerIP in Hload.
  rewrite ptr_lt in Hload by done. apply Hload; [done|done|]. intros ip t1 Ht1 Hip.
  pose proof (interfered_later _ _ _ Ht1) as Hl1. pose proof (later_in_slots _ _ _ Hl1 Hin) as Hin1.
  destruct (ip =? InnerIPReserved) eqn:E; cbn [negb].
  - apply Z.eqb_eq in E. subst ip. apply wp_bind, wp_interfered_store; [done|].
    intros t2 Ht2. assert (interfered i t t2) as Ht by by transitivity t1.
    pose proof (interfered_later _ _ _ Ht) as Hl2.
    apply wp_interfered_cas; [by eapply later_in_slots| |].
    + intros t3 Ht3. apply HQ; [by transitivity t2|done].
    + intros t3 Ht3 Hne. cbn. apply Hagain; [transitivity t2; [done|by eapply interfered_later]|]. by intros.
  - apply Hagain; [done|]. intros Hr. rewrite Hip in Hr. injection Hr as ->. done.
Qed.
End loops.

(** C31: a forced reservation makes progress.  Let others change the whole table
    in any way between any two events of [Reserve], the address of the requested
    slot at most [k] times.  The call then returns, and it retries at most [k]
    times, whatever the kernel answers.  A forced reservation of a port of the
    switch cannot even fail when the switch has no option map, so that no lock
    is taken. *)
Theorem Reserve_progress fuel sw opts s k :
  ctx_ok sw s → (k < fuel)%nat →
  wp (interference (u32 (ro_Port opts - 1))) (Reserve fuel sw opts)
    (λ r _, returns r ∧
       (1 ≤ ro_Port opts → u32 (ro_Port opts - 1) < sc_N_ports (sx_cfg sw) → ro_Force opts = true →
        has_geneve_opts sw = false → ∃ status, r = Ok (MkReserveOutput (u32 (u32 (ro_Port opts - 1) + 1)) status))) (s, k).
Proof.
  intros Hctx Hfuel. pose proof (ctx_num _ _ Hctx) as Hnum. pose proof (ctx_pos _ _ Hctx).
  pose proof (ctx_fit _ _ Hctx). set (i := u32 (ro_Port opts - 1)). pose proof (u32_range (ro_Port opts - 1)) as [Hi _].
  fold i in Hi. unfold Reserve. destruct (ro_Port opts <=? 0) eqn:Hp; [split; [done|lia]|]. cbv zeta. fold i.
  destruct (_ <=? i) eqn:Hr; [split; [done|lia]|].
  assert (in_slots s i) as Hin by (unfold in_slots; lia).
  assert (∀ h t, later (s, k) t → wp (interference i) (reserve_body fuel sw opts h i)
    (λ r _, returns r ∧ (ro_Force opts = true → ∃ status, r = Ok (MkReserveOutput (u32 (i + 1)) status))) t) as Hbody.
  { intros h t Ht. pose proof (later_in_slots _ _ _ Ht Hin) as Hint. destruct Ht as [_ Hk]. simpl in Hk.
    unfold reserve_body. cbv zeta. apply wp_mbind. destruct (ro_Force opts).
    - apply reserve_force_ends; [lia|done|lia|]. intros status t' _. split; [done|]. by exists status.
    - apply wp_bind. unfold TryAllocate. rewrite ptr_lt by lia. apply wp_bind.
      apply wp_interfered_cas; [done| |].
      + intros t1 Ht1. apply wp_bind. apply wp_interfered_store; [by eapply later_in_slots|]. by intros t2 _.
      + intros t1 Ht1 _. apply wp_bind, wp_interfered_load; [lia| |].
        * by eapply later_in_slots, Hint; eapply interfered_later.
        * intros ip t2 _ _. by destruct (_ =? _). }
  destruct (has_geneve_opts sw).
  - unfold with_lock. apply wp_mbind, wp_interfered_kern_ret; [apply acquireCurrentSwitchControlLock_kern_ret| |].
    + intros lock t Ht. apply wp_interfered_defer; [apply ReleaseLock_kern_only|].
      eapply wp_mono; [by apply Hbody|]. intros r t' [Hret _] t'' _. by split.
    + by intros e t _.
  - eapply wp_mono; [by apply Hbody|]. intros r t' [Hret Hf]. split; [done|]. auto.
Qed.

Lemma Reserve_progress_witness :
  u32 (2 - 1) = 1 ∧
  wp (interference 1) (Reserve 6 ex_switch (MkReserveOptions 2 true)) (λ r _, returns r) (ex_table, 5%nat).
Proof.
  split; [done|]. eapply wp_mono; [apply (Reserve_progress 6 ex_switch (MkReserveOptions 2 true) ex_table 5)|].
  - apply ex_switch_ok.
  - lia.
  - by intros r t [H _].
Defined.
