(* ===== verification/StartSpec.v ===== *)
(** * What [StartReserved] leaves behind

    A semantics that follows the slot table, the pin directory and the control
    lock shows that a failed start takes back the directory it made and never
    touches one it did not make, and that a successful one leaves every slot
    reserved.  Two executions show the hypotheses at work: a full start, and
    the one way in which the directory is left behind. *)
From S2P Require Import Prelude Errors GoStrings GoNet BpfTypes Mac Geneve Prog SlotTable Maps Netns.
From S2P Require Import Netlink Config MgmtService Metadata Bindings Loader Context Flock Dhcp Attach AttachSpec Provision ProvisionSpec.
From S2P Require Import Lifecycle LifecycleSpec.

(** The directories made by this start, whether the control lock was taken, and
    the trees that were asked to be removed. *)
Record pin_state := MkPin { pin_made : list string; pin_locked : bool; pin_removed : list string }.
(** The pin directory of a switch. *)
Definition pin_dir (name : string) : string := path_join [BPFPath; name].

Definition pin_step {B} (q : kev B) (p : pin_state) (b : B) (p' : pin_state) : Prop :=
  match q in kev B return B → Prop with
  | OsMkdir path => λ b, p' = match b with inl _ => MkPin (pin_made p ++ [path]) (pin_locked p) (pin_removed p) | inr _ => p end
  | Flock _ op => λ b, p' = match b with
                            | inl _ => if op =? LOCK_UN then p else MkPin (pin_made p) true (pin_removed p)
                            | inr _ => p
                            end
  | OsRemoveAll path => λ _, p' = MkPin (pin_made p) (pin_locked p) (pin_removed p ++ [path])
  | _ => λ _, p' = p
  end b.

(** Stores must hit the table; the kernel may answer anything. *)
Definition start_sem : sem (list SlotItem * pin_state) :=
  MkSem
    (λ B e s, match e with ECas _ _ _ => is_Some (mem_step e s.1) | EStore _ _ => is_Some (mem_step e s.1) | _ => True end)
    (λ B e s b s',
       match e in ev B return B → Prop with
       | EKern q => λ b, s'.1 = s.1 ∧ pin_step q s.2 b s'.2
       | e => λ b, mem_step e s.1 = Some (b, s'.1) ∧ s'.2 = s.2
       end b).

(** Calls and reads that leave all of it alone. *)
Definition start_quiet (B : Type) (e : ev B) : Prop :=
  match e with
  | EKern (OsMkdir _) => False
  | EKern (Flock _ _) => False
  | EKern (OsRemoveAll _) => False
  | EKern _ => True
  | ELoadIP _ => True
  | ELoadSlot _ => True
  | _ => False
  end.

Lemma start_quiet_step {B} (e : ev B) s b s' : start_quiet B e → sem_step start_sem e s b s' → s' = s.
Proof.
  intros Hq Hs. destruct s as [t p], s' as [t' p']. simpl in Hs. destruct e as [i|i o n|i|i w|B q]; try done.
  - simpl in Hs. destruct (slot_at t i); [|by destruct Hs]. destruct Hs as [Hs ->]. by simplify_eq.
  - simpl in Hs. destruct (slot_at t i); [|by destruct Hs]. destruct Hs as [Hs ->]. by simplify_eq.
  - destruct Hs as [-> Hs]. simpl in *. f_equal. by destruct q.
Qed.
Lemma wp_start_quiet {A} (p : prog A) (Q : A → _ → Prop) s :
  obeys start_quiet p → (∀ a, Q a s) → wp start_sem p Q s.
Proof.
  revert s. induction p as [a|B e k IH]; intros s Hp HQ; [by apply HQ|]. destruct Hp as [He Hk].
  split; [by destruct e|]. intros b s' Hs%start_quiet_step; [subst; by apply IH|done].
Qed.

(** The fate of the directory does not depend on the answers either. *)
Definition start_tolerant (B : Type) (e : ev B) : Prop :=
  match e with
  | EKern (OsMkdir _) => False
  | EKern (Flock _ op) => op = LOCK_UN
  | _ => start_quiet B e
  end.
Lemma wp_start_unlock f (Q : res unit → _ → Prop) s : (∀ r, Q r s) → wp start_sem (call (Flock f LOCK_UN)) Q s.
Proof.
  intros HQ. destruct s as [t p]. apply wp_call; [done| |]; intros a [t' p'] [Ht Hp]; simpl in *; subst; apply HQ.
Qed.
Lemma wp_start_release f (Q : unit → _ → Prop) s : Q tt s → wp start_sem (ReleaseLock f) Q s.
Proof.
  intros HQ. unfold ReleaseLock. apply wp_bind, wp_start_unlock. intros _.
  apply wp_start_quiet; [split; done|]. by intros [].
Qed.

(** ** The programs [StartReserved] is made of *)
Ltac quiet := obeys ltac:(exact I).
#[local] Hint Extern 1 (obeys start_quiet (call _)) => split; [exact I|intros []; exact I] : obeys.

Lemma Do_quiet {A} ns (f : M A) : obeys start_quiet f → obeys start_quiet (Do ns f).
Proof. intros. unfold Do. quiet. Qed.
#[local] Hint Extern 2 (obeys start_quiet (Do _ _)) => apply Do_quiet; quiet : obeys.
Lemma do_opt_quiet {A} ns (f : M A) : obeys start_quiet f → obeys start_quiet (do_opt ns f).
Proof. intros. destruct ns; [by apply Do_quiet|done]. Qed.
#[local] Hint Extern 2 (obeys start_quiet (do_opt _ _)) => apply do_opt_quiet; quiet : obeys.
Lemma NetNS_Close_quiet ns : obeys start_quiet (NetNS_Close ns).
Proof. unfold NetNS_Close. quiet. Qed.
Lemma MoveDevice_quiet d f t : obeys start_quiet (MoveDevice d f t).
Proof. unfold MoveDevice. quiet. Qed.
Lemma GetByName_quiet n : obeys start_quiet (GetByName n).
Proof. unfold GetByName. quiet. Qed.
Lemma GetCurrent_quiet : obeys start_quiet GetCurrent.
Proof. unfold GetCurrent. quiet. Qed.
Lemma link_by_name_quiet p n : obeys start_quiet (link_by_name p n).
Proof. unfold link_by_name. quiet. Qed.
#[local] Hint Resolve NetNS_Close_quiet MoveDevice_quiet GetByName_quiet GetCurrent_quiet link_by_name_quiet : obeys.
Lemma setLinkUpByName_quiet n : obeys start_quiet (setLinkUpByName n).
Proof. unfold setLinkUpByName. quiet. Qed.
#[local] Hint Resolve setLinkUpByName_quiet : obeys.
Lemma CreateVethPairs_quiet l : obeys start_quiet (CreateVethPairs l).
Proof. induction l; cbn [CreateVethPairs]; quiet. Qed.
Lemma AttachTC_quiet n f d : obeys start_quiet (AttachTC n f d).
Proof. unfold AttachTC, attachTCToLink, ensureClsactQdisc. quiet. Qed.
Lemma GetMTUInNs_quiet ns n : obeys start_quiet (GetMTUInNs ns n).
Proof. unfold GetMTUInNs, GetMTU. quiet. Qed.
#[local] Hint Resolve CreateVethPairs_quiet AttachTC_quiet GetMTUInNs_quiet : obeys.
Lemma getTransitDeviceMTU_quiet d : obeys start_quiet (getTransitDeviceMTU d).
Proof. unfold getTransitDeviceMTU. quiet. Qed.
#[local] Hint Resolve getTransitDeviceMTU_quiet : obeys.
Lemma resolveTransitMTU_quiet c m : obeys start_quiet (resolveTransitMTU c m).
Proof. unfold resolveTransitMTU. quiet. Qed.
#[local] Hint Resolve resolveTransitMTU_quiet : obeys.
Lemma validateTransitDeviceEarly_quiet c : obeys start_quiet (validateTransitDeviceEarly c).
Proof. unfold validateTransitDeviceEarly, IsLinkDown. quiet. Qed.
Lemma max_peer_mtu_quiet n c ns i m : obeys start_quiet (max_peer_mtu n c ns i m).
Proof. revert i m. induction n as [|n IH]; intros i m; cbn [max_peer_mtu]; quiet; apply IH. Qed.
Lemma max_mgmt_mtu_quiet n c ns i m : obeys start_quiet (max_mgmt_mtu n c ns i m).
Proof. revert i m. induction n as [|n IH]; intros i m; cbn [max_mgmt_mtu]; quiet; apply IH. Qed.
#[local] Hint Resolve max_peer_mtu_quiet max_mgmt_mtu_quiet validateTransitDeviceEarly_quiet : obeys.
Lemma validateMTUSlowPath_quiet c ns : obeys start_quiet (validateMTUSlowPath c ns).
Proof. unfold validateMTUSlowPath. quiet. Qed.
Lemma LoadObjects_quiet : obeys start_quiet LoadObjects.
Proof. unfold LoadObjects, loadVswitch, LoadAndAssignObjects. quiet. Qed.
Lemma pin_all_quiet n l : obeys start_quiet (pin_all n l).
Proof. induction l as [|[[m|] f] l IH]; cbn [pin_all deref]; quiet. Qed.
Lemma close_all_quiet l errs : obeys start_quiet (close_all l errs).
Proof. revert errs. induction l as [|[m|] l IH]; intros errs; cbn [close_all]; quiet; apply IH. Qed.
Lemma close_progs_quiet l errs : obeys start_quiet (close_progs l errs).
Proof. revert errs. induction l as [|m l IH]; intros errs; cbn [close_progs]; quiet; apply IH. Qed.
#[local] Hint Resolve validateMTUSlowPath_quiet LoadObjects_quiet pin_all_quiet close_all_quiet close_progs_quiet : obeys.
Lemma Objects_Close_quiet o : obeys start_quiet (Objects_Close o).
Proof. unfold Objects_Close, Maps_Close. quiet. Qed.
Lemma PinMaps_quiet o n : obeys start_quiet (PinMaps o n).
Proof. unfold PinMaps. quiet. Qed.
Lemma anchor_block_quiet n o : obeys start_quiet (anchor_block n o).
Proof. unfold anchor_block, CreateDummyLink, LinkByName, AddClsactWithBlock, AddBlockFilter. quiet. Qed.
Lemma SaveMetadata_quiet m : obeys start_quiet (SaveMetadata m).
Proof. unfold SaveMetadata. quiet. Qed.
#[local] Hint Resolve Objects_Close_quiet PinMaps_quiet anchor_block_quiet SaveMetadata_quiet : obeys.
Lemma UpdateSwitchConfig_quiet c : obeys start_quiet (UpdateSwitchConfig c).
Proof. unfold UpdateSwitchConfig. quiet. Qed.
Lemma UpdateSwitchMetadata_quiet c : obeys start_quiet (UpdateSwitchMetadata c).
Proof. unfold UpdateSwitchMetadata. quiet. Qed.
Lemma NewMmappedSlots_quiet m n : obeys start_quiet (NewMmappedSlots m n).
Proof. unfold NewMmappedSlots. quiet. Qed.
Lemma write_protos_quiet s l : obeys start_quiet (write_protos s l).
Proof. induction l; cbn [write_protos]; quiet. Qed.
#[local] Hint Resolve UpdateSwitchConfig_quiet UpdateSwitchMetadata_quiet NewMmappedSlots_quiet write_protos_quiet : obeys.
Lemma WriteMgmtServices_quiet l : obeys start_quiet (WriteMgmtServices l).
Proof. induction l; cbn [WriteMgmtServices]; quiet. Qed.
Lemma MmappedSlots_Close_quiet b : obeys start_quiet (MmappedSlots_Close b).
Proof. unfold MmappedSlots_Close. quiet. Qed.
Lemma retry_loop_quiet n fn e : obeys start_quiet fn → obeys start_quiet (retry_loop n fn e).
Proof. intros Hf. revert e. induction n as [|n IH]; intros e; cbn [retry_loop]; quiet; apply IH. Qed.
#[local] Hint Resolve WriteMgmtServices_quiet MmappedSlots_Close_quiet : obeys.
#[local] Hint Extern 2 (obeys start_quiet (retryCleanup _)) => apply retry_loop_quiet; quiet : obeys.

Lemma add_return_routes_quiet d m l : obeys start_quiet (add_return_routes d m l).
Proof. induction l as [|n l IH]; cbn [add_return_routes]; [done|]. unfold AddDeviceRoute. quiet. Qed.
#[local] Hint Resolve add_return_routes_quiet : obeys.
Lemma create_mgmt_plane_quiet c sn o i me mn cs : obeys start_quiet (create_mgmt_plane c sn o i me mn cs).
Proof. unfold create_mgmt_plane, GetLinkIndexInNs, GetLinkIndex, SetLinkUp. quiet. Qed.
#[local] Hint Resolve create_mgmt_plane_quiet : obeys.
Lemma createMgmtPlanes_quiet c sn o cs : obeys start_quiet (createMgmtPlanes c sn o cs).
Proof.
  unfold createMgmtPlanes. generalize 0. revert cs. induction (cf_MgmtExtracts c) as [|me l IH]; intros cs i; cbn [mgmt_planes_loop]; quiet; apply IH.
Qed.
Lemma doRequest_quiet i t : obeys start_quiet (doRequest i t).
Proof. unfold doRequest. quiet. Qed.
#[local] Hint Resolve doRequest_quiet : obeys.
Lemma request_loop_quiet n att o last : obeys start_quiet (request_loop n att o last).
Proof. revert att last. induction n as [|n IH]; intros att last; cbn [request_loop]; quiet; apply IH. Qed.
#[local] Hint Resolve request_loop_quiet : obeys.
Lemma Request_quiet o : obeys start_quiet (Request o).
Proof. unfold Request. quiet. Qed.
#[local] Hint Resolve Request_quiet : obeys.
Lemma LoadMetadata_quiet u : obeys start_quiet (LoadMetadata u).
Proof. unfold LoadMetadata. quiet. Qed.
#[local] Hint Resolve LoadMetadata_quiet : obeys.
Lemma transit_dhcp_quiet u c : obeys start_quiet (transit_dhcp u c).
Proof. unfold transit_dhcp, updateSwitchConfigFields, updateSwitchMetadataFields. quiet. Qed.
#[local] Hint Resolve transit_dhcp_quiet : obeys.
Lemma setup_transit_quiet u c o : obeys start_quiet (setup_transit u c o).
Proof. unfold setup_transit, SetMTU, SetLinkUp, AddAddr. quiet. Qed.
#[local] Hint Resolve setup_transit_quiet : obeys.
Lemma configureTransitDevice_quiet u c sn o cs : obeys start_quiet (configureTransitDevice u c sn o cs).
Proof. unfold configureTransitDevice. quiet. Qed.

Lemma load_or_close_quiet {A} n o f (k : Z → M A) :
  (∀ m, obeys start_quiet (k m)) → obeys start_quiet (load_or_close n o f k).
Proof. intros. unfold load_or_close. quiet. Qed.
#[local] Hint Extern 1 (obeys start_quiet (load_or_close _ _ _ _)) => apply load_or_close_quiet; quiet : obeys.
Lemma openSwitch_quiet u n : obeys start_quiet (openSwitch u n).
Proof. unfold openSwitch, open_loaded, PinPathExists, LoadPinnedMaps, GetSwitchConfig, GetSwitchMetadata, Maps_Close, deref. quiet. Qed.
Lemma count_slots_quiet P k n i c : obeys start_quiet (count_slots P k n i c).
Proof. revert i c. induction k as [|k IH]; intros i c; [done|]. cbn [count_slots]. unfold GetInnerIP. quiet; apply IH. Qed.
Lemma Ports_loop_quiet k n i b : obeys start_quiet (Ports_loop k n i b).
Proof. revert i. induction k as [|k IH]; intros i; [done|]. cbn [Ports_loop]. quiet; apply IH. Qed.
#[local] Hint Resolve openSwitch_quiet count_slots_quiet Ports_loop_quiet : obeys.
Lemma switchContext_Close_quiet s : obeys start_quiet (switchContext_Close s).
Proof. unfold switchContext_Close, Maps_Close. quiet. Qed.
#[local] Hint Resolve switchContext_Close_quiet : obeys.
Lemma getExistingSwitch_quiet u n c : obeys start_quiet (getExistingSwitch u n c).
Proof. unfold getExistingSwitch, with_switch, Open, Ports, CountReservedSlots, CountFreeSlots. quiet. Qed.
Lemma EnsureBPFFS_quiet : obeys start_quiet EnsureBPFFS.
Proof. unfold EnsureBPFFS. quiet. Qed.

(** ** Rolling back *)
Definition removed (name : string) (p : pin_state) : pin_state :=
  MkPin (pin_made p) (pin_locked p) (pin_removed p ++ [pin_dir name]).

Lemma wp_start_call {A} (e : kev (ans A)) (Q : res A → _ → Prop) s :
  start_quiet _ (EKern e) → (∀ r, Q r s) → wp start_sem (call e) Q s.
Proof. intros He HQ. apply wp_start_quiet; [split; [done|by intros []]|done]. Qed.

Lemma cleanup_mgmt_quiet l ns : obeys start_quiet (cleanup_mgmt l ns).
Proof.
  induction l as [|i l IH]; cbn [cleanup_mgmt]; [done|]. unfold deref, DeleteLinkByIndexInNs, DeleteLinkByIndex. quiet; apply IH.
Qed.
#[local] Hint Resolve cleanup_mgmt_quiet : obeys.

Lemma wp_cleanup name cs cfg ns objs (Q : res unit → _ → Prop) t p :
  cs_pinDirCreated cs = true → cf_Name cfg = name → (∀ r, Q r (t, removed name p)) → wp start_sem (cleanup cs cfg ns objs) Q (t, p).
Proof.
  intros Hcs <- HQ. unfold cleanup, deref, DeleteVethPairInNs, DeleteVethPair.
  do 4 (apply wp_bind, wp_start_quiet; [quiet|]; intros ?).
  rewrite Hcs, orb_true_r. apply wp_bind. unfold UnpinMaps.
  apply wp_call; [done| |]; intros x [t' p'] [Ht Hp]; simpl in *; subst; apply HQ.
Qed.

(** One guarded step of the start: a failure rolls back. *)
Lemma wp_step {A B} name cs cfg ns objs (m : M A) (k : A → M B) (Q : res B → _ → Prop) t p :
  cs_pinDirCreated cs = true → cf_Name cfg = name → obeys start_quiet m →
  (∀ a, wp start_sem (k a) Q (t, p)) → (∀ e, Q (Err e) (t, removed name p)) →
  Q Panic (t, p) → Q OutOfFuel (t, p) →
  wp start_sem (mbind (on_err (cleanup cs cfg ns objs) m) k) Q (t, p).
Proof.
  intros Hcs Hn Hm Hk Herr Hp Hf. apply wp_mbind. unfold on_err. apply wp_bind, wp_start_quiet; [done|].
  intros [a|e| |]; [by apply Hk| |done|done]. apply wp_bind, (wp_cleanup name); [done..|]. intros _. apply Herr.
Qed.

(** The recorded directory stays recorded. *)
Definition keeps_dir {A} (x : cleanupState * A) : Prop := cs_pinDirCreated x.1 = true.
Lemma ends_in_any {A} (p : prog A) : kern_only p → ∀ B (P : B → Prop) (k : A → prog B),
  (∀ a, ends_in P (k a)) → ends_in P (pbind p k).
Proof. intros Hp B P k Hk. eapply ends_in_bind; [by apply kern_only_ends|]. intros a _. apply Hk. Qed.

Lemma wp_start_ends {A} P (p : prog A) (Q : A → _ → Prop) s :
  ends_in P p → obeys start_quiet p → (∀ a, P a → Q a s) → wp start_sem p Q s.
Proof.
  revert s. induction p as [a|B e k IH]; intros s He Hq HQ; [by apply HQ|]. destruct He as [He Hk], Hq as [Hq Hqk].
  split; [by destruct e|]. intros b s' Hs%start_quiet_step; [subst; by apply IH|done].
Qed.

Lemma Do_kern_only {A} ns (f : M A) : kern_only f → kern_only (Do ns f).
Proof. intros. unfold Do. kern_only. Qed.
Lemma add_return_routes_kern_only d m l : kern_only (add_return_routes d m l).
Proof. induction l as [|n l IH]; cbn [add_return_routes]; [done|]. unfold AddDeviceRoute. kern_only. Qed.
#[local] Hint Resolve add_return_routes_kern_only : kern_only.
#[local] Hint Extern 2 (kern_only (Do _ _)) => apply Do_kern_only; kern_only : kern_only.
Lemma cs_add_mgmt_dir i cs : cs_pinDirCreated (cs_add_mgmt i cs) = cs_pinDirCreated cs.
Proof. by destruct cs. Qed.

Lemma create_mgmt_plane_dir c sn o i me mn cs : cs_pinDirCreated cs = true →
  ends_in keeps_dir (create_mgmt_plane c sn o i me mn cs).
Proof.
  intros Hcs. unfold create_mgmt_plane. cbv zeta. destruct (MgmtMAC _ _); try done.
  apply ends_in_any; [kern_only|]. intros [] ; try done.
  apply ends_in_any; [kern_only|]. intros [idx| | |]; try done.
  apply ends_in_any; [unfold SetLinkUp; kern_only|]. intros r. unfold keeps_dir. cbn. by rewrite cs_add_mgmt_dir.
Qed.
Lemma createMgmtPlanes_dir c sn o cs : cs_pinDirCreated cs = true → ends_in keeps_dir (createMgmtPlanes c sn o cs).
Proof.
  unfold createMgmtPlanes. generalize 0. revert cs.
  induction (cf_MgmtExtracts c) as [|me l IH]; intros cs i Hcs; cbn [mgmt_planes_loop]; [done|].
  apply ends_in_any; [destruct (IsCallerNetNS me); kern_only|]. intros [ns| | |]; try done.
  eapply ends_in_bind; [by apply create_mgmt_plane_dir|]. intros [cs' r] Hcs'. destruct r; try done.
  apply ends_in_any; [kern_only|]. intros _. eapply ends_in_bind; [by apply IH|]. by intros [cs2 rest] H2.
Qed.

(** ** Reserving the slots *)
Definition init_slot (x : SlotItem) : SlotItem :=
  write_all [WIfindex 0; WTransitGatewayIp 0; WTransitGeneveVni 0; WGeneveOptsLen 0; WTransitMac mac_zero]
    (set_InnerIp InnerIPReserved x).

Definition reserved_from (lo hi : Z) (t t' : list SlotItem) : Prop :=
  length t' = length t ∧
  ∀ k, if bool_decide (lo ≤ k < hi)
       then ∃ x, slot_at t k = Some x ∧ si_InnerIp x = InnerIPFree ∧ slot_at t' k = Some (init_slot x)
       else slot_at t' k = slot_at t k.

Lemma wp_init_slots n numSlots : ∀ i t (Q : res unit → list SlotItem → Prop),
  0 ≤ i → i + Z.of_nat n ≤ numSlots → i + Z.of_nat n ≤ Z.of_nat (length t) →
  (∀ t', reserved_from i (i + Z.of_nat n) t t' → Q (Ok tt) t') → (∀ e t', Q (Err e) t') →
  wp alone (init_slots_loop n numSlots i) Q t.
Proof.
  induction n as [|n IH]; intros i t Q Hi Hn Hlen Hok Herr; cbn [init_slots_loop].
  - apply Hok. split; [done|]. intros k. rewrite bool_decide_false by lia. done.
  - destruct (slot_at_in t i) as [x Hx]; [unfold in_slots; lia|].
    apply wp_bind. unfold InitSlotReserved. rewrite ptr_lt by lia. apply wp_bind.
    eapply wp_cas_alone; [done|intros E|intros _; apply Herr]. cbn [negb]. apply wp_bind. eapply (wp_UpdateSlotFields numSlots i [WIfindex 0; WTransitGatewayIp 0; WTransitGeneveVni 0;
      WGeneveOptsLen 0; WTransitMac mac_zero]); [lia|by eapply slot_at_set|]. cbn [wp].
    rewrite set_slot_set. fold (init_slot x). apply IH; [lia|lia|rewrite set_slot_length; lia| |done].
    intros t' [Hlen' Ht']. apply Hok. split; [by rewrite Hlen', set_slot_length|]. intros k. specialize (Ht' k).
    destruct (decide (k = i)) as [->|Hne].
    + rewrite bool_decide_true by lia. rewrite bool_decide_false in Ht' by lia.
      exists x. split; [done|]. split; [done|]. rewrite Ht'. by eapply slot_at_set.
    + rewrite (bool_decide_ext _ (i + 1 ≤ k < i + 1 + Z.of_nat n)) by lia. case_bool_decide.
      * by rewrite slot_at_set_ne in Ht' by lia.
      * by rewrite slot_at_set_ne in Ht' by lia.
Qed.

Lemma wp_start_slots_only {A} (p : prog A) (Q : A → list SlotItem → Prop) s :
  slots_only p → wp alone p Q s.1 → wp start_sem p (λ a s', Q a s'.1 ∧ s'.2 = s.2) s.
Proof.
  destruct s as [t q]. simpl. revert t. induction p as [a|B e k IH]; simpl; intros t Hp; [auto|].
  destruct Hp as [He Hk]. intros [Hok Hstep]. specialize (Hok _ eq_refl).
  destruct e; try done; (split; [done|]); intros b [t' q']; simpl; intros [E ->];
    (apply IH; [done|]); apply Hstep; eauto.
Qed.
Lemma init_slots_slots_only n numSlots i : slots_only (init_slots_loop n numSlots i).
Proof.
  revert i. induction n as [|n IH]; intros i; cbn [init_slots_loop]; [done|].
  unfold InitSlotReserved, UpdateSlotFields. destruct (getInnerIPPtr numSlots i); [|done].
  split; [done|]. intros []; [|done]. destruct (GetSlot numSlots i); simpl; [|apply IH].
  repeat (split; [done|]; intros _). apply IH.
Qed.

(** ** The configuration keeps its name and its number of ports *)
Definition ok_and {A} (P : A → Prop) (r : res A) : Prop := match r with Ok a => P a | _ => True end.

Lemma ends_in_mbind {A B} (P : A → Prop) (Q : B → Prop) (m : M A) (f : A → M B) :
  ends_in (ok_and P) m → (∀ a, P a → ends_in (ok_and Q) (f a)) → ends_in (ok_and Q) (mbind m f).
Proof. intros Hm Hf. eapply ends_in_bind; [exact Hm|]. intros [a|e| |] Ha; [by apply Hf|done..]. Qed.
Lemma ends_in_mwrap {A} (P : A → Prop) f (m : M A) : ends_in (ok_and P) m → ends_in (ok_and P) (mwrap f m).
Proof. intros Hm. eapply ends_in_bind; [exact Hm|]. by intros [a|e| |] Ha. Qed.
Lemma ends_in_trivial {A} (m : M A) : kern_only m → ends_in (ok_and (λ _, True)) m.
Proof. intros. eapply ends_in_mono; [|by apply kern_only_ends]. by intros []. Qed.
Lemma ends_in_Do {A} (P : A → Prop) ns (f : M A) : ends_in (ok_and P) f → ends_in (ok_and P) (Do ns f).
Proof.
  intros Hf. unfold Do. eapply ends_in_mbind; [apply ends_in_trivial; kern_only|]. intros o _.
  unfold with_defer. eapply ends_in_bind; [|intros r Hr; apply ends_in_any; [kern_only|]; intros _; exact Hr].
  eapply ends_in_mbind; [apply ends_in_trivial; kern_only|]. intros _ _.
  eapply ends_in_bind; [exact Hf|]. intros [a|e| |] Ha; try done;
    (eapply ends_in_mbind; [apply ends_in_trivial; kern_only|]); by intros _ _.
Qed.

Definition same_ports (cfg cfg' : Config) : Prop := cf_NumPorts cfg' = cf_NumPorts cfg ∧ cf_Name cfg' = cf_Name cfg.
Ltac same_switch := unfold same_ports in *; destruct_and?; congruence.

Lemma resolveTransitMTU_ports c m : ends_in (ok_and (same_ports c)) (resolveTransitMTU c m).
Proof.
  unfold resolveTransitMTU. cbv zeta. destruct (cf_TransitDevMTUAuto c); [done|]. destruct (0 <? cf_TransitDevMTU c).
  - by destruct (cf_TransitDevMTU c <? _).
  - eapply ends_in_mbind; [apply ends_in_trivial; unfold getTransitDeviceMTU; kern_only|]. intros mtu _. by destruct (mtu <? _).
Qed.
Lemma validateTransitDeviceEarly_ports c : ends_in (ok_and (same_ports c)) (validateTransitDeviceEarly c).
Proof.
  unfold validateTransitDeviceEarly, IsLinkDown. case_bool_decide; [done|].
  eapply ends_in_mbind; [apply ends_in_trivial; kern_only|]. intros [] _; [|done]. cbn [negb].
  destruct (0 <? _); [apply resolveTransitMTU_ports|done].
Qed.
Lemma validateMTUSlowPath_ports c ns : ends_in (ok_and (same_ports c)) (validateMTUSlowPath c ns).
Proof.
  unfold validateMTUSlowPath. destruct (_ || _); [done|].
  assert (∀ n i m, kern_only (max_peer_mtu n c ns i m)).
  { induction n as [|n IH]; intros i m; cbn [max_peer_mtu]; kern_only; apply IH. }
  assert (∀ n i m, kern_only (max_mgmt_mtu n c ns i m)).
  { induction n as [|n IH]; intros i m; cbn [max_mgmt_mtu]; cbv zeta; kern_only; apply IH. }
  eapply ends_in_mbind; [by apply ends_in_trivial|]. intros m _.
  eapply ends_in_mbind; [by apply ends_in_trivial|]. intros m' _. apply resolveTransitMTU_ports.
Qed.
Lemma setup_transit_ports u c o : ends_in (ok_and (λ v, same_ports c v.1)) (setup_transit u c o).
Proof.
  assert (Hreq : ∀ o, kern_only (Request o)).
  { intros o'. unfold Request, doRequest. kern_only. generalize 0, (@None error).
    induction (Z.to_nat _) as [|n IH]; intros att last; cbn [request_loop]; [done|]. unfold doRequest. kern_only; apply IH. }
  assert (Hsave : ∀ m, kern_only (SaveMetadata m)) by (intros m; unfold SaveMetadata; kern_only).
  unfold setup_transit. cbv zeta. eapply ends_in_mbind; [apply ends_in_trivial; unfold SetMTU; kern_only|]. intros _ _.
  eapply ends_in_mbind; [apply ends_in_trivial; unfold SetLinkUp; kern_only|]. intros _ _.
  eapply (ends_in_mbind (same_ports c)).
  - destruct (cf_TransitAddrAuto c); [|done]. unfold transit_dhcp.
    eapply ends_in_mbind; [apply ends_in_trivial; kern_only; auto|]. intros l _.
    eapply ends_in_mbind; [apply ends_in_trivial; kern_only|]. intros [[addr nh] inf] _.
    eapply ends_in_mbind; [apply ends_in_trivial; unfold updateSwitchConfigFields; kern_only|]. intros _ _.
    eapply ends_in_mbind; [apply ends_in_trivial; unfold updateSwitchMetadataFields; kern_only; auto|]. by intros _ _.
  - intros c' Hc'. apply ends_in_any; [unfold AddAddr; kern_only|]. intros ip.
    eapply ends_in_mbind; [apply ends_in_trivial; kern_only|]. by intros _ _.
Qed.

Lemma configureTransitDevice_ends u c sn o cs : cs_pinDirCreated cs = true →
  ends_in (λ x, keeps_dir x ∧ ok_and (λ v, same_ports c v.1) x.2) (configureTransitDevice u c sn o cs).
Proof.
  intros Hcs. assert (∀ n d, cs_pinDirCreated (cs_caller n d cs) = true) as H1 by by destruct cs.
  assert (∀ c', cs_pinDirCreated (cs_moved c') = cs_pinDirCreated c') as H2 by by intros [].
  assert (∀ c', cs_pinDirCreated (cs_no_caller c') = cs_pinDirCreated c') as H3 by by intros [].
  unfold configureTransitDevice, keeps_dir. cbv zeta. case_bool_decide; [done|].
  apply ends_in_any; [kern_only|]. intros [ns| | |]; try done.
  apply ends_in_any; [kern_only|]. intros [[]| | |]; cbn [ends_in fst snd]; rewrite ?H1; try done.
  - eapply ends_in_bind; [apply ends_in_mwrap, ends_in_Do, setup_transit_ports|]. intros [v| | |] Hv;
      cbn [ends_in fst snd]; rewrite ?H2, ?H1; try done.
    apply ends_in_any; [kern_only|]. intros _. cbn [ends_in fst snd]. by rewrite H3, H2, H1.
  - apply ends_in_any; [kern_only|]. intros _. cbn [ends_in fst snd]. by rewrite H3, H1.
Qed.

(** ** The start as a whole *)

Lemma wp_start_defer {A C} (c : prog C) (p : M A) (Q : res A → _ → Prop) s :
  obeys start_quiet c → wp start_sem p Q s → wp start_sem (with_defer c p) Q s.
Proof.
  intros Hc Hp. unfold with_defer. apply wp_bind. eapply wp_mono; [exact Hp|]. intros r s' HQ.
  apply wp_bind, wp_start_quiet; [done|]. by intros _.
Qed.

(** A guarded step whose result is known to satisfy [P]. *)
Lemma wp_step_ends {A B} (P : A → Prop) name cs cfg ns objs (m : M A) (k : A → M B) (Q : res B → _ → Prop) t p :
  cs_pinDirCreated cs = true → cf_Name cfg = name → obeys start_quiet m → ends_in (ok_and P) m →
  (∀ a, P a → wp start_sem (k a) Q (t, p)) → (∀ e, Q (Err e) (t, removed name p)) →
  Q Panic (t, p) → Q OutOfFuel (t, p) →
  wp start_sem (mbind (on_err (cleanup cs cfg ns objs) m) k) Q (t, p).
Proof.
  intros Hcs Hn Hm HP Hk Herr Hp Hf. apply wp_mbind. unfold on_err. apply wp_bind. eapply wp_start_ends; [exact HP|done|].
  intros [a|e| |] Ha; [by apply Hk| |done|done]. apply wp_bind, (wp_cleanup name); [done..|]. intros _. apply Herr.
Qed.

Section start.
Context (unmarshal : string → res SwitchMetadata) (cfg0 : Config) (t0 : list SlotItem).
Hypothesis Hports : 0 ≤ cf_NumPorts cfg0.
Hypothesis Hfit : cf_NumPorts cfg0 ≤ Z.of_nat (length t0).

#[local] Notation dir := (pin_dir (cf_Name cfg0)).
(** What a run that made the directory and holds the lock ends with. *)
Definition new_post (r : res StartOutput) (s : list SlotItem * pin_state) : Prop :=
  match r with
  | Ok out => s.2 = MkPin [dir] true [] ∧ reserved_from 0 (cf_NumPorts cfg0) t0 s.1 ∧
      sto_Ports out = cf_NumPorts cfg0 ∧ sto_PortsReserved out = cf_NumPorts cfg0 ∧ sto_PortsAvailable out = 0
  | Err _ => s.2 = MkPin [dir] true [dir]
  | _ => s.2 = MkPin [dir] true []
  end.
Definition held_state (t : list SlotItem) : list SlotItem * pin_state := (t, MkPin [dir] true []).

Lemma wp_start_mapped cfg ns objs cs :
  cs_pinDirCreated cs = true → cf_NumPorts cfg = cf_NumPorts cfg0 → cf_Name cfg = cf_Name cfg0 →
  wp start_sem (start_mapped unmarshal cfg ns objs cs (cf_NumPorts cfg)) new_post (held_state t0).
Proof.
  intros Hcs Hnum Hname. unfold start_mapped. cbv zeta. rewrite Hnum.
  apply wp_mbind. unfold on_err at 1. apply wp_bind.
  eapply wp_mono; [apply wp_start_slots_only; [apply init_slots_slots_only|]|].
  { apply (wp_init_slots (Z.to_nat (cf_NumPorts cfg0)) (cf_NumPorts cfg0) 0 t0
      (λ r t, match r with Ok _ => reserved_from 0 (cf_NumPorts cfg0) t0 t | Err _ => True | _ => False end));
      [lia..| |done]. intros t'. by rewrite Z2Nat.id by lia. }
  intros [[]|e| |] [t p] [Hr Hp]; simpl in Hr, Hp; subst p; try done; cbn [wp];
    [|apply wp_bind, (wp_cleanup (cf_Name cfg0)); [done..|]; done].
  apply wp_bind. eapply wp_start_ends; [by apply createMgmtPlanes_dir|apply createMgmtPlanes_quiet|].
  intros [cs1 r1] Hcs1. cbv beta iota. apply (wp_step (cf_Name cfg0)); [done|same_switch|quiet| |done..]. intros planes.
  apply (wp_step (cf_Name cfg0)); [done|same_switch|apply WriteMgmtServices_quiet| |done..]. intros _.
  eapply (wp_step_ends _ (cf_Name cfg0)); [done|same_switch|apply validateMTUSlowPath_quiet|apply validateMTUSlowPath_ports| |done..].
  intros c2 Hc2. apply wp_bind.
  eapply wp_start_ends; [by apply configureTransitDevice_ends|apply configureTransitDevice_quiet|].
  intros [cs2 r2] [Hcs2 Hr2]. cbv beta iota.
  eapply (wp_step_ends (λ v, same_ports c2 v.1) (cf_Name cfg0)); [done|same_switch|quiet|exact Hr2| |done..].
  intros [c3 ip] Hc3. cbn [fst] in Hc3. cbn [wp mok].
  split_and!; simpl; try done; same_switch.
Qed.

Lemma wp_start_in_ns cfg ns : cf_NumPorts cfg = cf_NumPorts cfg0 → cf_Name cfg = cf_Name cfg0 →
  wp start_sem (start_in_ns unmarshal cfg ns cs_start) new_post (held_state t0).
Proof.
  intros Hnum Hname. unfold start_in_ns. cbv zeta.
  eapply (wp_step_ends _ (cf_Name cfg0)); [done|same_switch|apply validateTransitDeviceEarly_quiet|apply validateTransitDeviceEarly_ports| |done..].
  intros c1 Hc1. apply (wp_step (cf_Name cfg0)); [done|same_switch|quiet| |done..]. intros objs.
  apply (wp_step (cf_Name cfg0)); [done|same_switch|quiet| |done..]. intros _. apply (wp_step (cf_Name cfg0)); [done|same_switch|quiet| |done..]. intros _.
  apply (wp_step (cf_Name cfg0)); [done|same_switch|quiet| |done..]. intros _. apply (wp_step (cf_Name cfg0)); [done|same_switch|quiet| |done..]. intros _.
  destruct (mp_Slots (ob_Maps objs)) as [slots|]; cbn [deref]; [|done].
  eapply (wp_step_ends (λ n, n = cf_NumPorts c1) (cf_Name cfg0)); [done|same_switch|quiet| | |done..].
  { apply ends_in_mwrap. unfold NewMmappedSlots. apply ends_in_any; [kern_only|]. intros [[fd vs] me].
    apply ends_in_any; [kern_only|]. intros pg. eapply ends_in_mbind; [apply ends_in_trivial; kern_only|]. by intros _ _. }
  intros n ->. apply wp_start_defer; [quiet|]. apply wp_start_mapped; [done|same_switch..].
Qed.
End start.

(** ** With the directory and the lock *)
Definition lock_taken (p : pin_state) : pin_state := MkPin (pin_made p) true (pin_removed p).

Lemma wp_start_lock name (Q : res Z → _ → Prop) t p :
  (∀ f, Q (Ok f) (t, lock_taken p)) → (∀ e, Q (Err e) (t, p)) → Q Panic (t, p) → Q OutOfFuel (t, p) →
  wp start_sem (mwrap (λ e, errorw "failed to acquire control lock: " e "") (AcquireControlLock name)) Q (t, p).
Proof.
  intros Hok Herr Hp Hf. unfold AcquireControlLock, acquireSwitchLock. apply wp_mwrap, wp_mbind, wp_mwrap.
  apply wp_start_quiet; [apply EnsureBPFFS_quiet|]. intros [[]|e| |]; cbn [map_err]; [|apply Herr|done|done].
  apply wp_bind, wp_start_call; [done|]. intros [f|e| |]; [|destruct (errors_is e OsErrNotExist); apply Herr|done|done].
  apply wp_mbind. unfold on_err. apply wp_bind, wp_mwrap, wp_call; [done| |]; intros a [t' p'] [Ht Hpin];
    simpl in *; subst; cbn [wp map_err].
  - apply Hok.
  - split; [done|]. intros b [t' p'] [Ht Hpin]. simpl in *. subst. apply Herr.
Qed.

Lemma wp_start_with_lock {A} name (body : M A) (Q : res A → _ → Prop) t p :
  wp start_sem body Q (t, lock_taken p) → (∀ e, Q (Err e) (t, p)) → Q Panic (t, p) → Q OutOfFuel (t, p) →
  wp start_sem (with_lock (mwrap (λ e, errorw "failed to acquire control lock: " e "") (AcquireControlLock name)) body) Q (t, p).
Proof.
  intros Hb Herr Hp Hf. unfold with_lock. apply wp_mbind, wp_start_lock; try done.
  intros f. unfold with_defer. apply wp_bind. eapply wp_mono; [exact Hb|]. intros r s HQ.
  by apply wp_bind, wp_start_release.
Qed.


Definition free_table (n : nat) : list SlotItem :=
  replicate n (MkSlotItem 0 0 0 0 0 0 mac_zero 0 0 0 (MkMgmtCidr 0 0 0 mac_zero) 0 0
                 (replicate 15 (MkMgmtCidr 0 0 0 mac_zero)) 0).
Definition tap_config : Config :=
  MkConfig "sw0" "swns" "" 4 [2; 0; 94; 10; 18; 52] (IPv4 100 64 0 0) 4 [] [] "" None None false 0 false
    0 GeneveLocatorPort None false 0 mac_zero PortKindTap false.


(** ** Executions

    A host on which every call succeeds, except that taking the lock can be
    made to fail; it remembers the pin directory, whether the maps are pinned,
    and the two single-entry maps. *)
Record host := MkHost {
  h_dir : bool; h_flock_ok : bool; h_pinned : bool; h_config : option SwitchConfig; h_metadata : option (list Z);
}.
Definition h_error (s : sentinel) : error := sentinel_error s.
Definition h_link (name : string) (i : Z) : Link := MkLink name i 1500 true false true "tuntap" mac_zero.

#[export] Instance host_kernel : Kernel host := λ B e h,
  match e in kev B return B * host with
  | OsStat _ => (inl true, h)
  | OsOpen _ => (inl 3, h)
  | OsFileClose _ => (tt, h)
  | OsMkdir _ => if h_dir h then (inr (h_error SysEEXIST), h)
                 else (inl tt, MkHost true (h_flock_ok h) (h_pinned h) (h_config h) (h_metadata h))
  | OsMkdirAll _ => (inl tt, h)
  | OsRemoveAll _ => (inl tt, MkHost false (h_flock_ok h) false None None)
  | Flock _ op => (if h_flock_ok h || (op =? LOCK_UN) then inl tt else inr (errorf "interrupted system call"), h)
  | Statfs _ => (inl BPF_FS_MAGIC, h)
  | Mount _ _ _ => (inl tt, h)
  | NsGet => (inl 10, h)
  | NsSet _ => (inl tt, h)
  | NsGetFromName _ => (inl 11, h)
  | NsClose _ => (inl tt, h)
  | NlLinkByName n => (inl (h_link n 7), h)
  | NlLinkByIndex i => (inl (h_link "dev" i), h)
  | NlLinkList => (([], None), h)
  | NlLinkAdd _ => (inl tt, h)
  | NlLinkDelSpec _ => (inl tt, h)
  | NlLinkDel _ => (inl tt, h)
  | NlLinkSetUp _ => (inl tt, h)
  | NlLinkSetHardwareAddr _ _ => (inl tt, h)
  | NlLinkSetNsFd _ _ => (inl tt, h)
  | NlLinkSetMTU _ _ => (inl tt, h)
  | NlAddrAdd _ _ => (inl tt, h)
  | NlAddrList _ => (inl [], h)
  | NlRouteAdd _ _ _ _ => (inl tt, h)
  | NlQdiscList _ => (inl [], h)
  | NlQdiscAdd _ => (inl tt, h)
  | NlQdiscDel _ => (inl tt, h)
  | NlFilterList _ _ => (inl [], h)
  | NlFilterAdd _ => (inl tt, h)
  | NlFilterDel _ => (inl tt, h)
  | MapUpdate m _ v _ =>
      match m in bmap K V return V → ans unit * host with
      | MConfig => λ v, (inl tt, MkHost (h_dir h) (h_flock_ok h) (h_pinned h) (Some v) (h_metadata h))
      | MMetadata => λ v, (inl tt, MkHost (h_dir h) (h_flock_ok h) (h_pinned h) (h_config h) (Some v))
      | _ => λ _, (inl tt, h)
      end v
  | MapLookup m _ _ =>
      (match m in bmap K V return ans V with
       | MConfig => match h_config h with Some c => inl c | None => inr (h_error EbpfErrKeyNotExist) end
       | MMetadata => match h_metadata h with Some c => inl c | None => inr (h_error EbpfErrKeyNotExist) end
       | _ => inr (h_error EbpfErrKeyNotExist)
       end, h)
  | MapDelete _ _ => (inl tt, h)
  | LoadPinnedMap _ => (if h_pinned h then inl 5 else inr (h_error SysENOENT), h)
  | CloseMap _ => (inl tt, h)
  | MapID _ => (inl (Some 9), h)
  | PinMap _ _ => (inl tt, MkHost (h_dir h) (h_flock_ok h) true (h_config h) (h_metadata h))
  | LoadSpec => (inl 1, h)
  | LoadAndAssign _ => (inl ((1, 2, 3), (11, 12, 13, 14, 15, 16, 17, 18)), h)
  | CloseProg _ => (inl tt, h)
  | MapShape _ => ((4, 256, 4096), h)
  | Getpagesize => (4096, h)
  | Mmap _ _ => (inl tt, h)
  | Munmap => (inl tt, h)
  | NetInterfaceByName _ => (inl tt, h)
  | CtxErr => (None, h)
  | SleepOrDone => (None, h)
  | Sleep => (tt, h)
  | DhcpNewClient _ _ => (inl 6, h)
  | DhcpRequest _ => (inl None, h)
  | DhcpClientClose _ => (inl tt, h)
  | e => (refuse e, h)
  end.

Definition host0 : host := MkHost false true false None None.
Definition read_back (_ : string) : res SwitchMetadata := Ok (metadata_of_config tap_config).

(** A full start in tap mode: every port ends free and provisioned. *)
Lemma Start_runs :
  ∃ out t h, run (Start read_back 10 tap_config) (MkWorld (free_table 4) host0) = Some (Ok out, MkWorld t h) ∧
    h_dir h = true ∧ sto_Ports out = 4 ∧ length t = 4%nat ∧
    Forall (λ x, si_InnerIp x = InnerIPFree ∧ si_Ifindex x = 7 ∧ si_Mode x = PortKindTap) t.
Proof.
  eexists _, _, _. split; [vm_compute; reflexivity|]. split_and!; [done..|]. repeat constructor.
Qed.

(** Asking again for the running switch reports it instead of making another. *)
Lemma Start_again :
  ∃ out w, run (let~ _ := StartReserved read_back tap_config in StartReserved read_back tap_config)
             (MkWorld (free_table 4) host0) = Some (Ok out, w) ∧
    sto_PortsReserved out = 4 ∧ sto_GenerationBits out = 0 ∧ cf_GenerationBits tap_config = 4.
Proof. eexists _, _. split; [vm_compute; reflexivity|]. done. Qed.

(** The lock can fail after the directory was made: the directory stays, and
    the next start finds a corrupted switch. *)
Lemma Start_leaves_directory :
  ∃ e h e', run (StartReserved read_back tap_config) (MkWorld (free_table 4) (MkHost false false false None None)) =
      Some (Err e, MkWorld (free_table 4) h) ∧ h_dir h = true ∧
    fst <$> run (StartReserved read_back tap_config) (MkWorld (free_table 4) (MkHost (h_dir h) true false None None)) =
      Some (Err e') ∧ IsSwitchCorrupted (Some e') = true.
Proof. eexists _, _, _. split; [vm_compute; reflexivity|]. split; [done|]. split; [vm_compute; reflexivity|done]. Qed.
