(* ===== verification/Tapfd.v ===== *)
(** * The tapfd wire formats: pkg/tapfd/request.go and payload.go

    Request lines, OK and ERR lines, and the NUL-terminated metadata that
    travels with the file descriptors.  A [[]byte] is the string of its bytes. *)
From S2P Require Import Prelude Errors GoStrings GoText.

(** ** Constants *)
Definition RequestVersion : string := "TAPFD/1".
Definition RequestOpOpen : string := "OPEN".
Definition RequestOpInfo : string := "INFO".
Definition RequestOpPrepare : string := "PREPARE".
Definition RequestOpRelease : string := "RELEASE".
Definition RequestOpSetPortUp : string := "SET_PORT_UP".
Definition ResponseStatusOK : string := "OK".
Definition ResponseStatusERR : string := "ERR".
Definition RequestMaxLineSize : Z := 512.
Definition ErrorCodeBadRequest : string := "BAD_REQUEST".
Definition ErrorCodeSwitchMismatch : string := "SWITCH_MISMATCH".
Definition ErrorCodePortInvalid : string := "PORT_INVALID".
Definition ErrorCodePortUnavailable : string := "PORT_UNAVAILABLE".
Definition ErrorCodeProviderInternal : string := "PROVIDER_INTERNAL".
Definition MaxPayloadSize : Z := 512.

Definition NUL : string := str1 0.
Definition LF : string := str1 10.
Definition CR : string := str1 13.

(** ** OK responses around metadata *)
Definition ok_prefix : string := RequestVersion +:+ " " +:+ ResponseStatusOK +:+ " ".

Definition BuildOKResponse (payload : string) : res string :=
  guard! (negb (slen payload =? 0)) else errorf "empty tapfd payload" in
  guard! (contains payload NUL) else errorf "tapfd payload is not NUL-terminated" in
  let size := slen ok_prefix + slen payload in
  guard! (negb (MaxPayloadSize <? size))
  else errorf ("tapfd OK response size " +:+ fmt_d size +:+ " exceeds MaxPayloadSize=" +:+ fmt_d MaxPayloadSize) in
  Ok (ok_prefix +:+ payload).

Definition StripOKResponse (payload : string) : res string :=
  match cut_prefix ok_prefix payload with
  | None => Ok payload
  | Some rest =>
      guard! (negb (slen rest =? 0)) else errorf "empty TAPFD/1 OK response" in Ok rest
  end.

(** ** Requests *)
Definition validRequestOp (op : string) : bool :=
  bool_decide (op ∈ [RequestOpInfo; RequestOpOpen; RequestOpPrepare; RequestOpRelease; RequestOpSetPortUp]).

Definition line_breaks : string := CR +:+ LF +:+ NUL.

Definition BuildRequest (op extra : string) (wantNetns : bool) : res string :=
  guard! (validRequestOp op) else errorf ("unsupported tapfd request op " +:+ fmt_q op) in
  let extra := trim_space extra in
  guard! (negb (contains_any extra line_breaks)) else errorf "tapfd request contains a line break or NUL" in
  let line := RequestVersion +:+ " " +:+ op in
  let line := if wantNetns then line +:+ " want_netns=1" else line in
  let line := if negb (bool_decide (extra = "")) then line +:+ " " +:+ extra else line in
  guard! (negb (RequestMaxLineSize <? slen line + 1))
  else errorf ("tapfd request line too long: " +:+ fmt_d (slen line + 1) +:+ " > " +:+ fmt_d RequestMaxLineSize) in
  Ok (line +:+ LF).

Definition BuildOpenRequest (extra : string) (wantNetns : bool) : res string :=
  BuildRequest RequestOpOpen extra wantNetns.

Definition BuildOKLine (extra : string) : res string :=
  let extra := trim_space extra in
  guard! (negb (contains_any extra line_breaks)) else errorf "tapfd OK response contains a line break or NUL" in
  let line := RequestVersion +:+ " " +:+ ResponseStatusOK in
  let line := if negb (bool_decide (extra = "")) then line +:+ " " +:+ extra else line in
  guard! (negb (RequestMaxLineSize <? slen line + 1))
  else errorf ("tapfd OK response line too long: " +:+ fmt_d (slen line + 1) +:+ " > " +:+ fmt_d RequestMaxLineSize) in
  Ok (line +:+ LF).

Record Request := MkRequest {
  tr_Version : string; tr_Op : string; tr_WantNetns : bool; tr_Fields : gmap string string;
}.

Definition isTruthy (v : string) : bool :=
  bool_decide (to_lower (trim_space v) ∈ ["1"; "true"; "yes"; "on"]).

(** The token loop; [WantNetns] and [Fields] are the two fields it updates. *)
Fixpoint parse_tokens (toks : list string) (want : bool) (m : gmap string string)
    : res (bool * gmap string string) :=
  match toks with
  | [] => Ok (want, m)
  | tok :: toks =>
      match cut_str tok "=" with
      | None => Err (errorf ("malformed request token " +:+ fmt_q tok))
      | Some (key, val) =>
          if bool_decide (key = "") then Err (errorf ("malformed request token " +:+ fmt_q tok))
          else if bool_decide (key ∈ ["want_netns"; "TAPFD_WANT_NETNS"]) then parse_tokens toks (isTruthy val) m
          else parse_tokens toks want (<[key := val]> m)
      end
  end.

Definition ParseRequestLine (line : string) : res Request :=
  let line := trim_right_char (chr 13) (trim_space line) in
  guard! (negb (bool_decide (line = ""))) else errorf "empty request" in
  guard! (negb (RequestMaxLineSize <? slen line + 1))
  else errorf ("request line too long: " +:+ fmt_d (slen line + 1) +:+ " > " +:+ fmt_d RequestMaxLineSize) in
  match fields line with
  | v :: op :: toks =>
      guard! (bool_decide (v = RequestVersion)) else errorf ("unsupported request version " +:+ fmt_q v) in
      guard! (validRequestOp op) else errorf ("unsupported request op " +:+ fmt_q op) in
      let! r := parse_tokens toks false ∅ in
      Ok (MkRequest v op r.1 r.2)
  | _ => Err (errorf ("malformed request " +:+ fmt_q line))
  end.

(** ** Error lines *)
(** The loop of [sanitizeToken] over the runes of the text. *)
Fixpoint sanitize_loop (fuel : nat) (s : string) : string :=
  match fuel, s with
  | S fuel, String c r =>
      if bool_decide (byte_of c ∈ [61; 0; 10; 13; 32; 9]) then String (chr 95) (sanitize_loop fuel r)
      else match rune_len (bytes_of s) with
           | O => rune_error +:+ sanitize_loop fuel r
           | n => str_take n s +:+ sanitize_loop fuel (str_drop n s)
           end
  | _, _ => ""
  end.
Definition sanitizeToken (v : string) : string :=
  let v := trim_space v in sanitize_loop (String.length v) v.

Definition BuildErrorResponse (code message : string) : string :=
  let code := sanitizeToken code in
  let code := if bool_decide (code = "") then ErrorCodeProviderInternal else code in
  let message := sanitizeToken message in
  let message := if bool_decide (message = "") then "error" else message in
  RequestVersion +:+ " " +:+ ResponseStatusERR +:+ " code=" +:+ code +:+ " message=" +:+ message +:+ LF.

Fixpoint parse_error_tokens (toks : list string) (code message : string) : res (string * string) :=
  match toks with
  | [] => Ok (code, message)
  | tok :: toks =>
      match cut_str tok "=" with
      | None => Err (errorf ("malformed error token " +:+ fmt_q tok))
      | Some (key, val) =>
          if bool_decide (key = "") then Err (errorf ("malformed error token " +:+ fmt_q tok))
          else if bool_decide (key = "code") then parse_error_tokens toks val message
          else if bool_decide (key = "message") then parse_error_tokens toks code val
          else parse_error_tokens toks code message
      end
  end.

(** [None] when the payload is not an error line. *)
Definition ParseErrorResponse (payload : string) : option (res (string * string)) :=
  let line := trim_space payload in
  if bool_decide (line = "") || negb (has_prefix line (RequestVersion +:+ " " +:+ ResponseStatusERR)) then None
  else Some
    match fields line with
    | v :: st :: ((_ :: _) as toks) =>
        guard! (bool_decide (v = RequestVersion) && bool_decide (st = ResponseStatusERR))
        else errorf ("malformed error response " +:+ fmt_q line) in
        let! r := parse_error_tokens toks "" "" in
        Ok (if bool_decide (r.1 = "") then ErrorCodeProviderInternal else r.1, r.2)
    | _ => Err (errorf ("malformed error response " +:+ fmt_q line))
    end.

(** ** Port metadata *)
Record PortMetadata := MkPortMetadata {
  pm_Port : Z; pm_MAC : string; pm_InnerIP : string; pm_FDCount : Z; pm_NetnsFDCount : Z;
}.
Definition PortMetadata_zero : PortMetadata := MkPortMetadata 0 "" "" 0 0.

Definition Marshal (m : PortMetadata) : res string :=
  guard! (negb (bool_decide (pm_MAC m = ""))) else errorf "PortMetadata.MAC is required" in
  guard! (negb (bool_decide (pm_InnerIP m = ""))) else errorf "PortMetadata.InnerIP is required" in
  guard! (negb (pm_FDCount m =? 0)) else errorf "PortMetadata.FDCount must be at least 1" in
  let b := "port=" +:+ fmt_u (pm_Port m) +:+ " mac=" +:+ pm_MAC m +:+ " ip=" +:+ pm_InnerIP m
           +:+ " fd=" +:+ fmt_u (pm_FDCount m) in
  let b := if 0 <? pm_NetnsFDCount m then b +:+ " netns_fd=" +:+ fmt_u (pm_NetnsFDCount m) else b in
  let b := b +:+ NUL in
  guard! (negb (MaxPayloadSize <? slen b))
  else errorf ("metadata payload size " +:+ fmt_d (slen b) +:+ " exceeds MaxPayloadSize=" +:+ fmt_d MaxPayloadSize) in
  Ok b.

Definition set_Port (v : Z) (m : PortMetadata) := MkPortMetadata v (pm_MAC m) (pm_InnerIP m) (pm_FDCount m) (pm_NetnsFDCount m).
Definition set_MAC (v : string) (m : PortMetadata) := MkPortMetadata (pm_Port m) v (pm_InnerIP m) (pm_FDCount m) (pm_NetnsFDCount m).
Definition set_InnerIP (v : string) (m : PortMetadata) := MkPortMetadata (pm_Port m) (pm_MAC m) v (pm_FDCount m) (pm_NetnsFDCount m).
Definition set_FDCount (v : Z) (m : PortMetadata) := MkPortMetadata (pm_Port m) (pm_MAC m) (pm_InnerIP m) v (pm_NetnsFDCount m).
Definition set_NetnsFDCount (v : Z) (m : PortMetadata) := MkPortMetadata (pm_Port m) (pm_MAC m) (pm_InnerIP m) (pm_FDCount m) v.

(** A numeric field; its error names the key. *)
Definition parse_field (key val : string) (bits : Z) : res Z :=
  map_err (λ e, errorw (key +:+ "=" +:+ fmt_q val +:+ ": ") e "") (parse_uint val 10 bits).

Fixpoint parse_metadata (toks : list string) (m : PortMetadata) : res PortMetadata :=
  match toks with
  | [] => Ok m
  | tok :: toks =>
      match cut_str tok "=" with
      | None => Err (errorf ("malformed token " +:+ fmt_q tok +:+ " (expected key=value)"))
      | Some (key, val) =>
          if bool_decide (key = "port") then let! v := parse_field key val 32 in parse_metadata toks (set_Port v m)
          else if bool_decide (key = "mac") then parse_metadata toks (set_MAC val m)
          else if bool_decide (key = "ip") then parse_metadata toks (set_InnerIP val m)
          else if bool_decide (key = "fd") then let! v := parse_field key val 8 in parse_metadata toks (set_FDCount v m)
          else if bool_decide (key = "netns_fd") then let! v := parse_field key val 8 in parse_metadata toks (set_NetnsFDCount v m)
          else parse_metadata toks m
      end
  end.

Definition ParsePayload (buf : string) : res PortMetadata :=
  let e := index_byte (chr 0) buf in
  let line := if e <? 0 then buf else str_take (Z.to_nat e) buf in
  parse_metadata (fields line) PortMetadata_zero.
