(* ===== verification/TapfdSpec.v ===== *)
(** * The tapfd formats: what one side writes, the other reads

    Round trips of request lines, error lines and metadata payloads. *)
From S2P Require Import Prelude Errors GoStrings GoText Tapfd.

(** ** Key-value words *)
Definition eq_sign : ascii := "="%char.
Definition kv_text (kv : string * string) : string := kv.1 +:+ String eq_sign kv.2.
(** A field both sides can agree on. *)
Definition kv_ok (kv : string * string) : Prop :=
  word kv.1 ∧ lacks eq_sign kv.1 = true ∧ all_chars solid kv.2 = true.

#[export] Instance kv_ok_dec kv : Decision (kv_ok kv).
Proof. unfold kv_ok. apply _. Defined.

Lemma kv_word kv : kv_ok kv → word (kv_text kv).
Proof.
  destruct kv as [k v]. intros ([Hne Hk] & _ & Hv). simpl in *. split.
  - destruct k; [done|]. unfold kv_text. simpl. rewrite app_cons. done.
  - unfold kv_text. simpl. rewrite all_chars_app, Hk. simpl. by rewrite Hv.
Qed.
Lemma kv_cut kv : kv_ok kv → cut_str (kv_text kv) "=" = Some kv.
Proof. destruct kv as [k v]. intros (_ & Hk & _). apply (cut_char eq_sign k v Hk). Qed.
Lemma kv_words kvs : Forall kv_ok kvs → Forall word (kv_text <$> kvs).
Proof. intros H. apply Forall_fmap. eapply Forall_impl; [exact H|]. apply kv_word. Qed.

Definition reserved_key (k : string) : Prop := k ∈ ["want_netns"; "TAPFD_WANT_NETNS"].
Definition fields_of (kvs : list (string * string)) (m : gmap string string) : gmap string string :=
  foldl (λ m kv, <[kv.1 := kv.2]> m) m kvs.

Lemma parse_tokens_kv kvs want m :
  Forall kv_ok kvs → Forall (λ kv, ¬ reserved_key kv.1) kvs →
  parse_tokens (kv_text <$> kvs) want m = Ok (want, fields_of kvs m).
Proof.
  intros Hok Hres. revert m. induction Hok as [|[k v] kvs Hkv Hok IH]; intros m; [done|].
  inversion_clear Hres as [|? ? Hk Hres']. cbn [fmap list_fmap parse_tokens]. rewrite kv_cut by done.
  destruct Hkv as ([Hne _] & _). simpl in Hne, Hk. rewrite !bool_decide_false by done. by apply IH.
Qed.

Lemma fields_of_lookup kvs k v :
  NoDup kvs.*1 → fields_of kvs ∅ !! k = Some v ↔ (k, v) ∈ kvs.
Proof.
  unfold fields_of. intros Hnd.
  enough (∀ m : gmap string string, (∀ k', k' ∈ kvs.*1 → m !! k' = None) →
    foldl (λ m kv, <[kv.1 := kv.2]> m) m kvs !! k = Some v ↔ m !! k = Some v ∨ (k, v) ∈ kvs) as H.
  { rewrite H by (intros; apply lookup_empty). rewrite lookup_empty. naive_solver. }
  induction kvs as [|[a b] kvs IH]; intros m Hm; simpl.
  - set_solver.
  - simpl in Hnd. apply NoDup_cons in Hnd as [Ha Hnd]. rewrite IH; [|done|].
    + rewrite elem_of_cons. destruct (decide (a = k)) as [->|Hne].
      * rewrite lookup_insert_eq. assert (m !! k = None) as -> by (apply Hm; set_solver).
        split; [naive_solver|]. intros [|[[= ->]|Hin]]; [done|by left|by right].
      * rewrite lookup_insert_ne by done. naive_solver.
    + intros k' Hk'. rewrite lookup_insert_ne by set_solver. apply Hm. set_solver.
Qed.

(** ** Request lines *)
Definition request_words (op : string) (want : bool) (kvs : list (string * string)) : list string :=
  RequestVersion :: op :: (if want then ["want_netns=1"] else []) ++ (kv_text <$> kvs).

Lemma contains_any_none s set : all_chars (λ c, negb (any_char (λ d, bool_decide (c = d)) set)) s = true →
  contains_any s set = false.
Proof. intros H. unfold contains_any. unfold any_char at 1. apply negb_false_iff. exact H. Qed.
Lemma printable_no_breaks s : all_chars printable s = true → contains_any s line_breaks = false.
Proof.
  intros H. apply contains_any_none. eapply all_chars_mono; [|exact H]. intros c Hc.
  unfold any_char, line_breaks, CR, LF, NUL, str1. simpl.
  unfold printable in Hc. repeat case_bool_decide; subst; done.
Qed.
Lemma words_printable ws : Forall word ws → all_chars printable (join " " ws) = true.
Proof.
  intros H. apply all_chars_join; [done|]. eapply Forall_impl; [exact H|]. intros w [_ Hw].
  eapply all_chars_mono; [|exact Hw]. intros c Hc. unfold printable. by rewrite Hc.
Qed.
Lemma join_empty ws : Forall word ws → join " " ws = "" → ws = [].
Proof.
  intros H E. destruct H as [|w ws [Hne _] Hws]; [done|]. destruct ws as [|w' ws]; [done|].
  rewrite join_cons in E by done. by destruct w.
Qed.
Lemma validRequestOp_word op : validRequestOp op = true → word op.
Proof.
  unfold validRequestOp. rewrite bool_decide_eq_true. rewrite !elem_of_cons.
  intros [->|[->|[->|[->|[->|H]]]]]; [by split..|]. by apply elem_of_nil in H.
Qed.

(** What [BuildRequest] writes. *)
Lemma BuildRequest_line op kvs want :
  validRequestOp op = true → Forall kv_ok kvs →
  BuildRequest op (join " " (kv_text <$> kvs)) want =
    let line := join " " (request_words op want kvs) in
    if RequestMaxLineSize <? slen line + 1
    then Err (errorf ("tapfd request line too long: " +:+ fmt_d (slen line + 1) +:+ " > " +:+ fmt_d RequestMaxLineSize))
    else Ok (line +:+ LF).
Proof.
  intros Hop Hkvs. pose proof (kv_words _ Hkvs) as Hw.
  unfold BuildRequest. rewrite Hop. cbv zeta. rewrite trim_space_words by done.
  rewrite printable_no_breaks by (by apply words_printable). cbn [negb].
  assert ((let line := RequestVersion +:+ " " +:+ op in
           let line := if want then line +:+ " want_netns=1" else line in
           if negb (bool_decide (join " " (kv_text <$> kvs) = "")) then line +:+ " " +:+ join " " (kv_text <$> kvs) else line)
          = join " " (request_words op want kvs)) as E; [|cbv zeta in E |- *; rewrite E; by destruct (_ <? _)].
  unfold request_words. cbv zeta. destruct (decide (kvs = [])) as [->|Hne].
  - by destruct want.
  - rewrite bool_decide_false.
    2:{ intros E%join_empty; [|done]. by destruct kvs. }
    cbn [negb]. assert (kv_text <$> kvs ≠ []) by (by destruct kvs).
    destruct want; cbn [app]; rewrite !join_cons by done; by rewrite !str_app_assoc.
Qed.

(** ** Error lines *)
(** Text an error message may contain for the line to be one line of words:
    ASCII, its white space being blank, tab, CR, LF or NUL. *)
Definition message_char (c : ascii) : bool := solid c || bool_decide (byte_of c ∈ [0; 10; 13; 32; 9]).
Definition message_ok (s : string) : Prop := all_chars message_char s = true.

Definition clean_char (c : ascii) : ascii := if bool_decide (byte_of c ∈ [61; 0; 10; 13; 32; 9]) then chr 95 else c.
Fixpoint clean (s : string) : string := match s with "" => "" | String c s => String (clean_char c) (clean s) end.

Lemma sanitize_loop_clean s : message_ok s → sanitize_loop (String.length s) s = clean s.
Proof.
  unfold message_ok. induction s as [|c s IH]; [done|]. cbn [all_chars String.length sanitize_loop clean].
  intros [Hc Hs]%andb_true_iff. unfold clean_char. case_bool_decide as Hin; [by rewrite IH|].
  unfold message_char in Hc. rewrite bool_decide_false in Hc by set_solver. rewrite orb_false_r in Hc.
  assert (rune_len (bytes_of (String c s)) = 1%nat) as ->.
  { unfold solid in Hc. cbn [bytes_of rune_len]. assert (between 0 127 (byte_of c) = true) as ->; [|done].
    unfold between in *. lia. }
  cbn [str_take str_drop]. rewrite IH by done. done.
Qed.
Lemma clean_solid s : message_ok s → all_chars solid (clean s) = true ∧ lacks eq_sign (clean s) = true.
Proof.
  unfold message_ok. induction s as [|c s IH]; [done|]. cbn [all_chars clean].
  intros [Hc Hs]%andb_true_iff. destruct (IH Hs) as [H1 H2]. unfold lacks in *. cbn [all_chars].
  rewrite H1, H2, !andb_true_r. unfold clean_char. case_bool_decide as Hin; [done|].
  unfold message_char in Hc. rewrite bool_decide_false in Hc by set_solver. rewrite orb_false_r in Hc.
  split; [done|]. apply negb_true_iff, bool_decide_eq_false. intros ->. apply Hin. vm_compute. set_solver.
Qed.

(** Trimming keeps a message a message. *)
Lemma all_chars_drop P n s : all_chars P s = true → all_chars P (str_drop n s) = true.
Proof.
  revert s. induction n as [|n IH]; intros [|c s] H; try done. cbn [str_drop]. apply IH.
  by apply andb_true_iff in H as [_ ?].
Qed.
Lemma message_ok_trim s : message_ok s → message_ok (trim_space s).
Proof.
  unfold message_ok, trim_space. intros H.
  assert (all_chars message_char (trim_left s) = true) as H'.
  { unfold trim_left. generalize (String.length s) as fuel. intros fuel. revert s H.
    induction fuel as [|fuel IH]; intros s H; [done|]. cbn [trim_left_fuel]. destruct (space_len _); [done|].
    by apply IH, all_chars_drop. }
  revert H'. generalize (trim_left s). clear. intros t. induction t as [|c t IH]; [done|].
  cbn [trim_right all_chars]. destruct (all_space _); [done|]. intros [Hc Ht]%andb_true_iff.
  cbn [all_chars]. by rewrite Hc, IH.
Qed.

Definition sanitized (default s : string) : string :=
  let s := clean (trim_space s) in if bool_decide (s = "") then default else s.
Lemma sanitized_word d s : word d → lacks eq_sign d = true → message_ok s →
  word (sanitized d s) ∧ lacks eq_sign (sanitized d s) = true.
Proof.
  intros Hd Hl Hs. destruct (clean_solid (trim_space s)) as [H1 H2]; [by apply message_ok_trim|].
  unfold sanitized. cbv zeta. case_bool_decide; by split.
Qed.

(** Error lines.  For a code and a message in ASCII whose white space is
    blanks, tabs, CR and LF, parsing the line that [BuildErrorResponse] builds
    recognises an error and gives back the two texts with the characters that
    would break the line replaced; an empty text is replaced by the default
    one.  The line has one LF, at its end. *)
Theorem error_line_roundtrip code message :
  message_ok code → message_ok message →
  ParseErrorResponse (BuildErrorResponse code message) =
    Some (Ok (sanitized ErrorCodeProviderInternal code, sanitized "error" message)).
Proof.
  intros Hc Hm.
  destruct (sanitized_word ErrorCodeProviderInternal code) as [Wc Lc]; [by split|done|done|].
  destruct (sanitized_word "error" message) as [Wm Lm]; [by split|done|done|].
  set (c := sanitized ErrorCodeProviderInternal code) in *. set (m := sanitized "error" message) in *.
  set (ws := [RequestVersion; ResponseStatusERR; kv_text ("code", c); kv_text ("message", m)]).
  assert (BuildErrorResponse code message = join " " ws +:+ LF) as ->.
  { unfold BuildErrorResponse, sanitizeToken. rewrite !sanitize_loop_clean by (by apply message_ok_trim).
    fold (sanitized ErrorCodeProviderInternal code) (sanitized "error" message).
    unfold ws. cbn [join]. unfold kv_text. cbn [fst snd]. by rewrite !str_app_assoc. }
  assert (kv_ok ("code", c)) as Kc by (split_and!; [by split|done|apply Wc]).
  assert (kv_ok ("message", m)) as Km by (split_and!; [by split|done|apply Wm]).
  assert (Forall word ws) as Hws.
  { repeat constructor; try done; by apply kv_word. }
  unfold ParseErrorResponse. rewrite trim_space_nl by (by first [apply join_starts|apply join_ends]).
  cbv zeta. rewrite bool_decide_false by done.
  assert (has_prefix (join " " ws) (RequestVersion +:+ " " +:+ ResponseStatusERR) = true) as -> by done.
  cbn [orb negb]. rewrite fields_join by done. unfold ws. f_equal.
  cbn [parse_error_tokens].
  repeat first [rewrite kv_cut by done | rewrite bool_decide_true by done | rewrite bool_decide_false by done].
  cbn [andb res_bind fst snd]. rewrite bool_decide_false; [done|]. apply Wc.
Qed.
Lemma error_line_roundtrip_witness :
  ParseErrorResponse (BuildErrorResponse "PORT_INVALID" "port 3 is veth, not tap") =
    Some (Ok ("PORT_INVALID", "port_3_is_veth,_not_tap")).
Proof. by apply (error_line_roundtrip "PORT_INVALID" "port 3 is veth, not tap"). Defined.

(** Other white space is kept by [sanitizeToken] and splits the line: a message
    with a vertical tab is unreadable for the receiver. *)
Lemma error_line_vertical_tab :
  ParseErrorResponse (BuildErrorResponse "X" ("a" +:+ str1 11 +:+ "b")) =
    Some (Err (errorf ("malformed error token " +:+ fmt_q "b"))).
Proof. by vm_compute. Qed.

Lemma trim_cr_id s : ends_solid s = true → trim_right_char (chr 13) s = s.
Proof.
  induction s as [|c s IH]; [done|]. intros He. cbn [trim_right_char].
  assert (all_chars (λ x, bool_decide (x = chr 13)) (String c s) = false) as ->.
  { apply not_true_is_false. intros Hall. apply ends_solid_any in He. unfold any_char in He.
    apply negb_true_iff in He. enough (all_chars (negb ∘ solid) (String c s) = true) by congruence.
    eapply all_chars_mono; [|exact Hall]. by intros x ->%bool_decide_eq_true. }
  f_equal. destruct s; [done|]. by apply IH.
Qed.

(** Requests.  For a known operation and fields with distinct, unreserved
    keys, made of solid ASCII words, [BuildRequest] fails exactly when the line
    would be longer than 512 bytes; otherwise [ParseRequestLine] recovers the
    operation, the netns flag and exactly those fields, whether or not the
    line break is still there. *)
Lemma request_roundtrip op kvs want :
  validRequestOp op = true → Forall kv_ok kvs → Forall (λ kv, ¬ reserved_key kv.1) kvs → NoDup kvs.*1 →
  let line := join " " (request_words op want kvs) in
  match BuildRequest op (join " " (kv_text <$> kvs)) want with
  | Ok b => b = line +:+ LF ∧ slen b ≤ RequestMaxLineSize ∧ ∃ m,
      ParseRequestLine line = Ok (MkRequest RequestVersion op want m) ∧
      ParseRequestLine b = Ok (MkRequest RequestVersion op want m) ∧
      ∀ k v, m !! k = Some v ↔ (k, v) ∈ kvs
  | Err _ => RequestMaxLineSize < slen line + 1
  | _ => False
  end.
Proof.
  intros Hop Hkvs Hres Hnd line. rewrite BuildRequest_line by done. cbv zeta. fold line.
  destruct (RequestMaxLineSize <? slen line + 1) eqn:Hlen; [by apply Z.ltb_lt|]. apply Z.ltb_ge in Hlen.
  split; [done|]. split; [rewrite slen_app; exact Hlen|].
  assert (Forall word (request_words op want kvs)) as Hws.
  { unfold request_words. constructor; [by split|]. constructor; [by apply validRequestOp_word|].
    destruct want; [constructor; [by split|]|]; by apply kv_words. }
  assert (starts_solid line = true ∧ ends_solid line = true) as [Hs He]
    by (split; [by apply join_starts|by apply join_ends]).
  assert (∀ l, trim_space l = line → ParseRequestLine l = Ok (MkRequest RequestVersion op want (fields_of kvs ∅))) as H.
  { intros l Hl. unfold ParseRequestLine. rewrite Hl. cbv zeta.
    rewrite trim_cr_id by done.
    assert (bool_decide (line = "") = false) as -> by (apply bool_decide_eq_false; intros E; by rewrite E in Hs).
    rewrite (proj2 (Z.ltb_ge _ _) Hlen). cbn [negb].
    unfold line. rewrite fields_join by done. unfold request_words.
    rewrite bool_decide_true, Hop by done.
    destruct want; cbn [app parse_tokens].
    - change (cut_str "want_netns=1" "=") with (Some ("want_netns", "1")). cbv iota beta.
      rewrite bool_decide_false by done. rewrite bool_decide_true by (apply elem_of_cons; by left).
      rewrite parse_tokens_kv by done. done.
    - rewrite parse_tokens_kv by done. done. }
  exists (fields_of kvs ∅). split; [|split].
  - apply H. unfold line. by apply trim_space_words.
  - apply H. by apply trim_space_nl.
  - intros k v. by apply fields_of_lookup.
Qed.
Lemma request_roundtrip_witness :
  let kvs := [("switch", "sw0"); ("port", "7")] in
  match BuildRequest "OPEN" (join " " (kv_text <$> kvs)) true with
  | Ok b => b = "TAPFD/1 OPEN want_netns=1 switch=sw0 port=7" +:+ LF ∧ ∃ m,
      ParseRequestLine b = Ok (MkRequest "TAPFD/1" "OPEN" true m) ∧ m !! "port" = Some "7"
  | _ => False
  end.
Proof.
  intros kvs. pose proof (request_roundtrip "OPEN" kvs true) as H. cbv zeta in H.
  assert (Forall kv_ok kvs) as H1 by (apply (bool_decide_unpack _); by vm_compute).
  assert (Forall (λ kv, ¬ reserved_key kv.1) kvs) as H2 by (unfold reserved_key; apply (bool_decide_unpack _); by vm_compute).
  assert (NoDup kvs.*1) as H3 by (apply (bool_decide_unpack _); by vm_compute).
  specialize (H eq_refl H1 H2 H3). destruct (BuildRequest _ _ _) as [b|e| |]; [|exfalso; by vm_compute in H|done|done].
  destruct H as (-> & _ & m & _ & Hb & Hm). split; [done|]. exists m. split; [exact Hb|].
    apply Hm. right. by left.
Defined.

(** ** Any request [BuildRequest] accepts *)
(** A word as the parser reads it: split at its first [=], with a key. *)
Definition token_reads (tok : string) (kv : string * string) : Prop :=
  tok = kv_text kv ∧ kv.1 ≠ "" ∧ lacks eq_sign kv.1 = true.
(** The last value given for a key, and for the two names of the netns flag. *)
Definition last_value (P : string → Prop) `{∀ k, Decision (P k)} (kvs : list (string * string)) : option string :=
  last (filter (λ kv, P kv.1) kvs).*2.
#[export] Instance reserved_key_dec k : Decision (reserved_key k).
Proof. unfold reserved_key. apply _. Defined.
Definition netns_flag (want : bool) (kvs : list (string * string)) : bool :=
  match last_value reserved_key kvs with Some v => isTruthy v | None => want end.
Definition field_value (k : string) (kvs : list (string * string)) : option string :=
  if decide (reserved_key k) then None else last_value (λ k', k' = k) kvs.

Lemma last_value_cons (P : string → Prop) `{∀ k, Decision (P k)} kv kvs :
  last_value P (kv :: kvs) = match last_value P kvs with Some v => Some v | None => if decide (P kv.1) then Some kv.2 else None end.
Proof.
  unfold last_value. rewrite filter_cons. case_decide as Hk; [|by case_match]. cbn [fmap list_fmap].
  rewrite last_cons. by case_match.
Qed.
Lemma cut_token tok : match cut_str tok "=" with
  | Some (k, v) => tok = kv_text (k, v) ∧ lacks eq_sign k = true
  | None => ∀ kv, tok ≠ kv_text kv
  end.
Proof.
  pose proof (cut_char_spec eq_sign tok) as H. change (String eq_sign "") with "=" in H.
  destruct (cut_str tok "=") as [[k v]|]; [done|]. intros [k v] ->. unfold kv_text in H. simpl in H.
  unfold lacks in H. rewrite all_chars_app in H. apply andb_true_iff in H as [_ H]. cbn [all_chars] in H.
  by rewrite bool_decide_true in H.
Qed.
Lemma reads_unique tok k v kv :
  tok = kv_text (k, v) → lacks eq_sign k = true → token_reads tok kv → kv = (k, v).
Proof.
  intros -> Hk (E & _ & Hl). destruct kv as [k' v']. simpl in *. unfold kv_text in E. simpl in E.
  pose proof (cut_char eq_sign k v Hk) as H1. pose proof (cut_char eq_sign k' v' Hl) as H2. congruence.
Qed.

(** The token loop, for any words. *)
Lemma parse_tokens_spec toks : ∀ want m,
  match parse_tokens toks want m with
  | Ok (w, m') => ∃ kvs, Forall2 token_reads toks kvs ∧ w = netns_flag want kvs ∧
      ∀ k, m' !! k = match field_value k kvs with Some v => Some v | None => m !! k end
  | Err _ => ∃ tok, tok ∈ toks ∧ ∀ kv, ¬ token_reads tok kv
  | _ => False
  end.
Proof.
  induction toks as [|tok toks IH]; intros want m; cbn [parse_tokens].
  { exists []. split_and!; [constructor|done|]. intros k. unfold field_value. by case_decide. }
  pose proof (cut_token tok) as Hcut. destruct (cut_str tok "=") as [[key val]|].
  2:{ exists tok. split; [by left|]. intros kv [E _]. by apply (Hcut kv). }
  destruct Hcut as [Htok Hl]. case_bool_decide as Hempty.
  { exists tok. split; [by left|]. intros kv Hr. pose proof (reads_unique _ _ _ _ Htok Hl Hr) as ->. by destruct Hr as (_ & H & _). }
  assert (Hreads : token_reads tok (key, val)) by by split_and!.
  case_bool_decide as Hres.
  - specialize (IH (isTruthy val) m). destruct (parse_tokens toks (isTruthy val) m) as [[w m']|e| |]; try done.
    + destruct IH as (kvs & H2 & -> & Hm). exists ((key, val) :: kvs). split_and!; [by constructor| |].
      * unfold netns_flag. rewrite last_value_cons. destruct (last_value reserved_key kvs); [done|]. by rewrite decide_True.
      * intros k. rewrite Hm. unfold field_value. case_decide as Hk; [done|]. rewrite last_value_cons.
        destruct (last_value _ kvs); [done|]. rewrite decide_False; [done|]. simpl. intros ->. by apply Hk.
    + destruct IH as (t & Ht & Hn). exists t. split; [by right|done].
  - specialize (IH want (<[key:=val]> m)). destruct (parse_tokens toks want (<[key:=val]> m)) as [[w m']|e| |]; try done.
    + destruct IH as (kvs & H2 & -> & Hm). exists ((key, val) :: kvs). split_and!; [by constructor| |].
      * unfold netns_flag. rewrite last_value_cons. destruct (last_value reserved_key kvs); [done|]. by rewrite decide_False.
      * intros k. rewrite Hm. unfold field_value. case_decide as Hk.
        { rewrite lookup_insert_ne; [done|]. intros ->. done. }
        rewrite last_value_cons. destruct (last_value _ kvs); [done|]. simpl. case_decide as Hkk.
        { subst. by rewrite lookup_insert_eq. }
        by rewrite lookup_insert_ne.
    + destruct IH as (t & Ht & Hn). exists t. split; [by right|done].
Qed.

(** What [ParseRequestLine] makes of the line that [BuildRequest] writes. *)
Definition request_head (op : string) (want : bool) : list string :=
  RequestVersion :: op :: (if want then ["want_netns=1"] else []).
Lemma request_head_words op want : validRequestOp op = true → Forall word (request_head op want).
Proof.
  intros Hop. constructor; [by split|]. constructor; [by apply validRequestOp_word|]. destruct want; [|constructor].
  constructor; [by split|constructor].
Qed.
Lemma request_parsed op extra want b :
  BuildRequest op extra want = Ok b →
  ∃ line, b = line +:+ LF ∧ slen b ≤ RequestMaxLineSize ∧ lacks (chr 10) line = true ∧ lacks (chr 0) line = true ∧
    ParseRequestLine line =
      let! r := parse_tokens (fields (trim_space extra)) want ∅ in Ok (MkRequest RequestVersion op r.1 r.2).
Proof.
  unfold BuildRequest. destruct (validRequestOp op) eqn:Hop; [|done]. cbv zeta. set (t := trim_space extra).
  destruct (contains_any t line_breaks) eqn:Hbr; [done|]. cbn [negb].
  set (head := join " " (request_head op want)).
  set (line := if bool_decide (t = "") then head else head +:+ " " +:+ t).
  assert (Hline : (let line := RequestVersion +:+ " " +:+ op in
    let line := if want then line +:+ " want_netns=1" else line in
    if negb (bool_decide (t = "")) then line +:+ " " +:+ t else line) = line).
  { cbv zeta. unfold line, head, request_head. destruct want; cbn [join]; case_bool_decide; cbn [negb]; by rewrite ?str_app_assoc. }
  cbv zeta in Hline. rewrite Hline. destruct (RequestMaxLineSize <? slen line + 1) eqn:Hlen; [done|]. apply Z.ltb_ge in Hlen.
  intros [= <-]. exists line. pose proof (request_head_words op want Hop) as Hw.
  pose proof (words_printable _ Hw) as Hpr. fold head in Hpr.
  assert (Hlacks : ∀ d, printable d = false → lacks d line_breaks = false → lacks d line = true).
  { intros d Hd Hd'. assert (Hh : lacks d head = true).
    { unfold lacks. eapply all_chars_mono; [|exact Hpr]. intros c Hc. apply negb_true_iff, bool_decide_eq_false. congruence. }
    pose proof (contains_any_lacks t line_breaks d Hbr Hd') as Ht.
    unfold line. case_bool_decide; [done|]. unfold lacks in *. rewrite !all_chars_app, Hh, Ht. cbn [all_chars andb].
    rewrite !andb_true_r. apply negb_true_iff, bool_decide_eq_false. intros <-. done. }
  split; [done|]. split; [by rewrite slen_app|]. split; [by apply Hlacks|]. split; [by apply Hlacks|].
  assert (Hhead : starts_solid head = true) by (by apply join_starts).
  assert (Htrim : trim_space line = line).
  { unfold trim_space. rewrite trim_left_solid by (unfold line; case_bool_decide; [done|by apply starts_solid_app]).
    unfold line. case_bool_decide as Ht; [by apply trim_right_id, join_ends|]. rewrite <-str_app_assoc.
    apply trim_right_behind; [by rewrite all_chars_app, Hpr|apply trim_right_idem|done]. }
  unfold ParseRequestLine. rewrite Htrim. cbv zeta. rewrite trim_char_id by (by apply Hlacks).
  rewrite bool_decide_false; [|unfold line; by case_bool_decide]. cbn [negb].
  rewrite (proj2 (Z.ltb_ge _ _) Hlen). cbn [negb].
  assert (Hfields : fields line = request_head op want ++ fields t).
  { unfold line. case_bool_decide as Ht; [rewrite Ht; unfold head; by rewrite fields_join, app_nil_r|].
    by apply fields_behind. }
  rewrite Hfields. unfold request_head. cbn [app]. rewrite bool_decide_true, Hop by done. cbn [negb].
  destruct want; [|done]. cbn [app parse_tokens].
  change (cut_str "want_netns=1" "=") with (Some ("want_netns", "1")). cbv iota beta.
  rewrite bool_decide_false by done. rewrite bool_decide_true by (apply elem_of_cons; by left). done.
Qed.


(** ** Metadata *)
Definition metadata_ok (m : PortMetadata) : Prop :=
  0 ≤ pm_Port m < 2 ^ 32 ∧ word (pm_MAC m) ∧ word (pm_InnerIP m) ∧
  0 < pm_FDCount m < 2 ^ 8 ∧ 0 ≤ pm_NetnsFDCount m < 2 ^ 8.

Definition metadata_words (m : PortMetadata) : list string :=
  [kv_text ("port", fmt_u (pm_Port m)); kv_text ("mac", pm_MAC m); kv_text ("ip", pm_InnerIP m);
   kv_text ("fd", fmt_u (pm_FDCount m))] ++
  (if 0 <? pm_NetnsFDCount m then [kv_text ("netns_fd", fmt_u (pm_NetnsFDCount m))] else []).

Lemma is_alnum_solid c : is_alnum c = true → solid c = true.
Proof. destruct c as [[] [] [] [] [] [] [] []]; by vm_compute. Qed.
Lemma fmt_u_solid n : all_chars solid (fmt_u n) = true.
Proof.
  eapply all_chars_mono; [apply is_alnum_solid|]. rewrite <-(pad0_0 (fmt_u n)). by apply pad0_alnum.
Qed.
Lemma Marshal_line m :
  metadata_ok m →
  Marshal m = let b := join " " (metadata_words m) +:+ NUL in
    if MaxPayloadSize <? slen b
    then Err (errorf ("metadata payload size " +:+ fmt_d (slen b) +:+ " exceeds MaxPayloadSize=" +:+ fmt_d MaxPayloadSize))
    else Ok b.
Proof.
  intros (_ & [Hm _] & [Hi _] & Hf & _). unfold Marshal. rewrite !bool_decide_false by done.
  cbn [negb]. rewrite (proj2 (Z.eqb_neq _ _)) by lia. cbn [negb]. cbv zeta.
  assert (∀ x, (if 0 <? pm_NetnsFDCount m then x +:+ " netns_fd=" +:+ fmt_u (pm_NetnsFDCount m) else x) =
    x +:+ (if 0 <? pm_NetnsFDCount m then " netns_fd=" +:+ fmt_u (pm_NetnsFDCount m) else "")) as E
    by (intros x; destruct (_ <? _); [done|by rewrite str_app_nil]).
  rewrite E. clear E. set (x := if 0 <? pm_NetnsFDCount m then (_ : string) else "").
  assert (join " " (metadata_words m) =
    ("port=" +:+ fmt_u (pm_Port m) +:+ " mac=" +:+ pm_MAC m +:+ " ip=" +:+ pm_InnerIP m +:+ " fd=" +:+ fmt_u (pm_FDCount m)) +:+ x) as ->.
  { unfold x, metadata_words, kv_text. destruct (_ <? _); cbn [app join fst snd]; by rewrite ?str_app_assoc, ?str_app_nil. }
  by destruct (MaxPayloadSize <? _).
Qed.
Lemma metadata_words_ok m : metadata_ok m → Forall word (metadata_words m).
Proof.
  intros (_ & [Hm Hm'] & [Hi Hi'] & _). unfold metadata_words.
  repeat (constructor; [apply kv_word; split_and!; try done; by first [apply fmt_u_solid|split]|]).
  destruct (_ <? _); [|constructor]. constructor; [|constructor]. apply kv_word.
  split_and!; [by split|done|apply fmt_u_solid].
Qed.
Lemma parse_field_fmt key n bits : 0 ≤ n < 2 ^ bits → parse_field key (fmt_u n) bits = Ok n.
Proof. intros H. unfold parse_field, fmt_u. by rewrite parse_uint_fmt. Qed.
Lemma cut_kv k v : lacks eq_sign k = true → cut_str (kv_text (k, v)) "=" = Some (k, v).
Proof. apply cut_char. Qed.
Lemma parse_metadata_words m : metadata_ok m → parse_metadata (metadata_words m) PortMetadata_zero = Ok m.
Proof.
  destruct m as [p mac ip fd ns]. intros (Hp & _ & _ & Hf & Hn). unfold metadata_words. simpl in *.
  cbn [app]. cbn [parse_metadata].
  repeat first [rewrite cut_kv by done | rewrite bool_decide_true by done | rewrite bool_decide_false by done
               | rewrite parse_field_fmt by lia | progress cbn [res_bind parse_metadata]].
  destruct (0 <? ns) eqn:E.
  - cbn [parse_metadata].
    repeat first [rewrite cut_kv by done | rewrite bool_decide_true by done | rewrite bool_decide_false by done
               | rewrite parse_field_fmt by lia | progress cbn [res_bind parse_metadata]]. done.
  - apply Z.ltb_ge in E. assert (ns = 0) as -> by lia. done.
Qed.
Lemma solid_lacks_nul s : all_chars printable s = true → lacks (chr 0) s = true.
Proof.
  intros H. unfold lacks. eapply all_chars_mono; [|exact H]. intros c Hc. apply negb_true_iff, bool_decide_eq_false.
  intros ->. by vm_compute in Hc.
Qed.

(** The parser sees the words before the NUL and nothing of what follows. *)
Lemma ParsePayload_line ws junk :
  Forall word ws → ParsePayload ((join " " ws +:+ NUL) +:+ junk) = parse_metadata ws PortMetadata_zero.
Proof.
  intros Hw. assert (lacks (chr 0) (join " " ws) = true) as Hl by (apply solid_lacks_nul; by apply words_printable).
  rewrite str_app_assoc. unfold ParsePayload. change (NUL +:+ junk) with (String (chr 0) junk).
  rewrite index_byte_app by done. rewrite (proj2 (Z.ltb_ge _ _)) by (unfold slen; lia).
  unfold slen. rewrite Nat2Z.id, str_take_app. by rewrite fields_join.
Qed.

(** Metadata.  For metadata in range whose MAC and address are solid ASCII
    words, [Marshal] fails exactly when the NUL-terminated text is longer than
    512 bytes; otherwise [ParsePayload] gives the same metadata back, whatever
    follows the NUL, and so does [ParsePayload] behind the OK prefix that
    [BuildOKResponse] puts before it, which fails only on the same bound. *)
Lemma payload_roundtrip m junk :
  metadata_ok m →
  match Marshal m with
  | Ok b => slen b ≤ MaxPayloadSize ∧ ParsePayload (b +:+ junk) = Ok m ∧ StripOKResponse b = Ok b ∧
      match BuildOKResponse b with
      | Ok r => slen r ≤ MaxPayloadSize ∧ StripOKResponse r = Ok b
      | Err _ => MaxPayloadSize < slen ok_prefix + slen b
      | _ => False
      end
  | Err _ => MaxPayloadSize < slen (join " " (metadata_words m)) + 1
  | _ => False
  end.
Proof.
  intros Hm. rewrite Marshal_line by done. cbv zeta. rewrite slen_app. change (slen NUL) with 1.
  pose proof (metadata_words_ok m Hm) as Hw. set (line := join " " (metadata_words m)) in *.
  assert (lacks (chr 0) line = true) as Hl by (apply solid_lacks_nul; by apply words_printable).
  destruct (MaxPayloadSize <? slen line + 1) eqn:Hlen; [by apply Z.ltb_lt|]. apply Z.ltb_ge in Hlen.
  assert (0 ≤ slen line) as Hpos by (unfold slen; lia).
  split; [by rewrite slen_app|]. split; [|split].
  - unfold line. rewrite ParsePayload_line by done.
    by apply parse_metadata_words.
  - unfold StripOKResponse. assert (cut_prefix ok_prefix (line +:+ NUL) = None) as ->; [|done].
    unfold line, metadata_words, kv_text. done.
  - unfold BuildOKResponse. rewrite slen_app. change (slen NUL) with 1.
    rewrite (proj2 (Z.eqb_neq _ _)) by lia. cbn [negb].
    assert (contains (line +:+ NUL) NUL = true) as ->.
    { unfold contains, NUL, str1. rewrite (cut_char (chr 0) line "" Hl). done. }
    cbn [negb].
    destruct (MaxPayloadSize <? slen ok_prefix + (slen line + 1)) eqn:Hr; cbn [negb].
    { apply Z.ltb_lt in Hr. done. }
    apply Z.ltb_ge in Hr. rewrite !slen_app. split; [done|].
    unfold StripOKResponse. rewrite cut_prefix_app, slen_app. change (slen NUL) with 1.
    by rewrite (proj2 (Z.eqb_neq _ _)) by lia.
Qed.
Lemma payload_roundtrip_witness :
  let m := MkPortMetadata 7 "02:11:22:33:44:55" "10.0.0.7/24" 1 1 in
  ParsePayload ("port=7 mac=02:11:22:33:44:55 ip=10.0.0.7/24 fd=1 netns_fd=1" +:+ NUL +:+ "xyz") = Ok m.
Proof.
  intros m. pose proof (payload_roundtrip m "xyz") as H. cbv zeta in H.
  assert (metadata_ok m) as Hm.
  { unfold metadata_ok, m; cbn [pm_Port pm_MAC pm_InnerIP pm_FDCount pm_NetnsFDCount].
    split_and!; try lia; by apply (bool_decide_unpack _); vm_compute. }
  specialize (H Hm). destruct (Marshal m) as [b|e| |] eqn:E; [|exfalso; by vm_compute in H|done|done].
  destruct H as (_ & H & _). revert E. vm_compute (Marshal m). intros [= <-]. exact H.
Defined.
