(* ===== verification/TapfdFd.v ===== *)
(** * Handing file descriptors over: pkg/tapfd/open.go, send.go and recv.go

    An [*os.File] is the descriptor it owns; its [Close] is [OsFileClose], and
    [syscall.Close] of a bare descriptor is [UnixClose].  A connection is the
    package's number for it. *)
From S2P Require Import Prelude Errors GoStrings GoNet BpfTypes Prog GoText Tapfd.

(** ** Opening a queue of a tap device *)
Definition tunDevice : string := "/dev/net/tun".
Definition O_RDWR : Z := 2.
Definition O_CLOEXEC : Z := 524288.
Definition IFF_TAP : Z := 2.
Definition IFF_NO_PI : Z := 4096.
Definition IFF_VNET_HDR : Z := 16384.

(** The name field: 16 bytes, the text cut or padded with NULs. *)
Definition name_field (s : string) : string := str_take 16 (s +:+ string_of (replicate 16 0)).
Fixpoint cstr (b : string) : string :=
  match b with
  | "" => ""
  | String c b => if byte_of c =? 0 then "" else String c (cstr b)
  end.

Definition OpenTap (tapName : string) (extraFlags : Z) : M Z :=
  if (slen tapName =? 0) || (16 <=? slen tapName)
  then merr (errorf ("invalid tap name " +:+ fmt_q tapName +:+ " (must be 1..15 chars)"))
  else
    let* fd := mwrap (λ e, errorw ("open " +:+ tunDevice +:+ ": ") e "")
                     (call (UnixOpen tunDevice (Z.lor O_RDWR O_CLOEXEC))) in
    let~ r := call (IoctlTunSetIff fd (name_field tapName) (Z.lor extraFlags IFF_TAP)) in
    match r with
    | Ok name =>
        let got := cstr name in
        if negb (bool_decide (got = tapName)) then
          let~ _ := call (UnixClose fd) in
          merr (errorf ("TUNSETIFF returned unexpected name " +:+ fmt_q got +:+ " (wanted " +:+ fmt_q tapName +:+ ")"))
        else
          let~ r := call (SetNonblock fd) in
          match r with
          | Err err =>
              let~ _ := call (UnixClose fd) in
              merr (errorw ("set nonblock on " +:+ tapName +:+ ": ") err "")
          | _ => mok fd
          end
    | Err errno =>
        let~ _ := call (UnixClose fd) in
        merr (errorw ("ioctl TUNSETIFF " +:+ tapName +:+ ": ") errno "")
    | Panic => mpanic
    | OutOfFuel => Ret OutOfFuel
    end.

(** ** Sending *)
Definition SendFd (sock : Z) (payload : string) (fds : list Z) : M unit :=
  if bool_decide (fds = []) then merr (errorf "SendFd: at least one fd required")
  else if slen payload =? 0
  then merr (errorf "SendFd: payload must be non-empty (kernel requires data with SCM_RIGHTS)")
  else mwrap (λ e, errorw "send fd via SCM_RIGHTS: " e "") (call (ConnWriteMsg sock payload fds)).

Definition ConnectUnix (path : string) : M Z :=
  let* _ := mwrap (λ e, errorw ("resolve unix " +:+ path +:+ ": ") e "") (call (ResolveUnixAddr path)) in
  mwrap (λ e, errorw ("connect unix " +:+ path +:+ ": ") e "") (call (DialUnix "unix" path)).

(** [os.NewFile] answers nil for a negative descriptor only. *)
Definition new_file (fd : Z) : option Z := if fd <? 0 then None else Some fd.

(** The [%T] of a connection that is no unix one is left out of the message. *)
Definition UnixConnFromFd (fd : Z) : M Z :=
  match new_file fd with
  | None => merr (errorf ("fd " +:+ fmt_d fd +:+ " is not a valid file descriptor"))
  | Some f =>
      with_defer (kern (OsFileClose f))
        (let* c := mwrap (λ e, errorw ("wrap fd " +:+ fmt_d fd +:+ " as net.Conn: ") e "") (call (FileConn f)) in
         let '(c, unix) := c in
         if negb unix then
           let~ _ := call (ConnClose c) in
           merr (errorf ("fd " +:+ fmt_d fd +:+ " is not a unix socket"))
         else mok c)
  end.

(** ** Receiving *)
Definition SOL_SOCKET : Z := 1.
Definition SCM_RIGHTS : Z := 1.
Definition is_rights (m : SocketControlMessage) : bool := (scm_Level m =? SOL_SOCKET) && (scm_Type m =? SCM_RIGHTS).

(** [syscall.ParseUnixRights]: only control messages of another kind are
    refused. *)
Definition ParseUnixRights (m : SocketControlMessage) : res (list Z) :=
  if negb (is_rights m) then Err (errorf "invalid argument") else Ok (scm_Fds m).

Fixpoint closeIntFds (fds : list Z) : prog unit :=
  match fds with
  | [] => Ret tt
  | fd :: fds => let~ _ := kern (UnixClose fd) in closeIntFds fds
  end.
Fixpoint closeFiles (fs : list Z) : prog unit :=
  match fs with
  | [] => Ret tt
  | f :: fs => let~ _ := kern (OsFileClose f) in closeFiles fs
  end.

Fixpoint collect_fds (scms : list SocketControlMessage) (fds : list Z) : M (list Z) :=
  match scms with
  | [] => mok fds
  | m :: scms =>
      if is_rights m then
        match ParseUnixRights m with
        | Ok more => collect_fds scms (fds ++ more)
        | Err err => let~ _ := closeIntFds fds in merr (errorw "parse SCM_RIGHTS: " err "")
        | _ => mpanic
        end
      else collect_fds scms fds
  end.

Definition no_fds_error (buf : string) : error :=
  match ParseErrorResponse buf with
  | Some (Ok (code, msg)) =>
      if bool_decide (msg = "") then errorf ("tapfd provider error " +:+ code)
      else errorf ("tapfd provider error " +:+ code +:+ ": " +:+ msg)
  | Some (Err perr) => perr
  | _ => errorf "no SCM_RIGHTS fds in message"
  end.

(** Wrap the descriptors one by one. *)
Fixpoint wrap_files (fds : list Z) (files : list Z) : M (list Z) :=
  match fds with
  | [] => mok files
  | fd :: rest =>
      match new_file fd with
      | None =>
          let~ _ := closeFiles files in
          let~ _ := closeIntFds fds in
          merr (errorf ("os.NewFile returned nil for fd " +:+ fmt_d fd))
      | Some f => wrap_files rest (files ++ [f])
      end
  end.

Definition count_error (meta : PortMetadata) (nfds : Z) : option error :=
  let nNetns := pm_NetnsFDCount meta in
  if 1 <? nNetns then
    Some (errorf ("netns_fd=" +:+ fmt_u nNetns +:+ " unsupported (at most 1 netns fd allowed)"))
  else if negb (pm_FDCount meta =? 0) then
    let want := pm_FDCount meta + nNetns in
    if negb (nfds =? want)
    then Some (errorf ("fd count mismatch: payload says fd=" +:+ fmt_u (pm_FDCount meta) +:+ " netns_fd=" +:+ fmt_u nNetns
                       +:+ " (total " +:+ fmt_d want +:+ "), ancillary delivered " +:+ fmt_d nfds))
    else None
  else if nfds <? nNetns
  then Some (errorf ("fd count mismatch: payload says netns_fd=" +:+ fmt_u nNetns
                     +:+ " but ancillary delivered only " +:+ fmt_d nfds +:+ " fds"))
  else None.

(** The close-everything error path after the descriptors are known. *)
Definition fail_closing {A} (fds : list Z) (e : error) : M A := let~ _ := closeIntFds fds in merr e.

Definition recv_split (fds : list Z) (buf : string) : M (list Z * option Z * PortMetadata) :=
  match StripOKResponse buf with
  | Err err => fail_closing fds (errorw "parse response: " err "")
  | Ok payload =>
      match ParsePayload payload with
      | Err err => fail_closing fds (errorw "parse payload: " err "")
      | Ok meta =>
          match count_error meta (Z.of_nat (length fds)) with
          | Some e => fail_closing fds e
          | None =>
              let* files := wrap_files fds [] in
              let cut := (length files - Z.to_nat (pm_NetnsFDCount meta))%nat in
              mok (take cut files,
                   if pm_NetnsFDCount meta =? 1 then files !! cut else None, meta)
          end
      | _ => mpanic
      end
  | _ => mpanic
  end.

(** [syscall.CmsgSpace(8 * 4)]: the 16-byte header and eight descriptors. *)
Definition recvOOBSize : Z := 16 + 8 * 4.

Definition RecvFdsWithNetns (conn : Z) : M (list Z * option Z * PortMetadata) :=
  let* r := mwrap (λ e, errorw "recvmsg: " e "") (call (ConnReadMsg conn MaxPayloadSize recvOOBSize)) in
  let '(buf, anc) := r in
  if slen buf =? 0 then merr (errorf "recvmsg: empty payload (sender must include metadata)")
  else
    match anc with
    | inr err => merr (errorw "parse ancillary: " err "")
    | inl scms =>
        let* fds := collect_fds scms [] in
        if bool_decide (fds = []) then merr (no_fds_error buf) else recv_split fds buf
    end.

Definition RecvFds (conn : Z) : M (list Z * PortMetadata) :=
  let* r := RecvFdsWithNetns conn in
  let '(tapFiles, netnsFile, meta) := r in
  let~ _ := match netnsFile with Some f => kern (OsFileClose f) | None => Ret tt end in
  mok (tapFiles, meta).

Definition RecvFd (conn : Z) : M (Z * PortMetadata) :=
  let* r := RecvFds conn in
  let '(files, meta) := r in
  match files with
  | [f] => mok (f, meta)
  | _ => let~ _ := closeFiles files in
         merr (errorf ("RecvFd: expected exactly 1 fd, got " +:+ fmt_d (Z.of_nat (length files))))
  end.
