(* ===== verification/HostIo.v ===== *)
(** * Descriptors, namespaces and connections as state

    A sequential semantics over the slot table and the part of the host the
    tapfd code acts on: the open descriptors with what each denotes, the
    thread's network namespace, the bytes and messages that wait on the
    connection, and a log of what was done to it.  It is the documented
    behaviour of Linux and of Go's [net] and [os]: a successful open answers a
    fresh descriptor, a close releases it whatever it answers, a read delivers
    the next byte that waits or fails, with [io.EOF] only when none is left, a receive installs fresh descriptors for those
    that were sent, which on a stream socket come with at least one byte.  Every call may fail. *)
From S2P Require Import Prelude Errors GoStrings GoNet BpfTypes Prog Tapfd TapfdFd.

(** ** The host *)
Inductive descr :=
  | DFile (path : string)
  | DQueue (name : string) (flags : Z) (ns : nat)   (* a queue of a tap device in a namespace *)
  | DNetns (ns : nat)
  | DOther (n : nat).

Inductive io_event :=
  | IoReadFail (c : Z) (e : error)
  | IoWrite (c : Z) (b : string) (n : Z) (err : option error)
  | IoSend (c : Z) (b : string) (rights : list (option descr)) (sent : bool)
  | IoClose (c : Z).

Record host_io := MkIo {
  io_ns : nat;
  io_open : gmap Z descr;
  io_in : string;
  io_msgs : list (string * list descr);
  io_log : list io_event;
}.
Definition set_ns (n : nat) (g : host_io) : host_io := MkIo n (io_open g) (io_in g) (io_msgs g) (io_log g).
Definition set_open (o : gmap Z descr) (g : host_io) : host_io := MkIo (io_ns g) o (io_in g) (io_msgs g) (io_log g).
(** Some input was consumed, and a failure of the read was logged. *)
Definition read_to (left : string) (fails : list io_event) (g : host_io) : host_io :=
  MkIo (io_ns g) (io_open g) left (io_msgs g) (io_log g ++ fails).
Definition set_msgs (l : list (string * list descr)) (g : host_io) : host_io :=
  MkIo (io_ns g) (io_open g) (io_in g) l (io_log g).
Definition add_log (e : io_event) (g : host_io) : host_io :=
  MkIo (io_ns g) (io_open g) (io_in g) (io_msgs g) (io_log g ++ [e]).

(** The descriptors a message carries. *)
Definition rights_of (scms : list SocketControlMessage) : list Z :=
  concat (scm_Fds <$> filter (λ m, is_rights m = true) scms).
(** Fresh descriptors for the given things. *)
Definition installs (fds : list Z) (ds : list descr) (o o' : gmap Z descr) : Prop :=
  NoDup fds ∧ length fds = length ds ∧ Forall (λ fd, 0 ≤ fd ∧ o !! fd = None) fds ∧
  o' = list_to_map (zip fds ds) ∪ o.
Definition opens (fd : Z) (d : descr) (g g' : host_io) : Prop :=
  0 ≤ fd ∧ io_open g !! fd = None ∧ g' = set_open (<[fd := d]> (io_open g)) g.
(** A message that fits the buffers of the receiver arrives whole. *)
Definition fits (m : string * list descr) : Prop := slen m.1 ≤ MaxPayloadSize ∧ (length m.2 ≤ 8)%nat.

Definition delivered (g : host_io) (s : string) (ds : list descr) (rest : list (string * list descr)) : Prop :=
  match io_msgs g with m :: ms => fits m → (s, ds) = m ∧ rest = ms | [] => rest = [] end.

Definition io_step (ns_of : string → nat) {B} (q : kev B) (g : host_io) (b : B) (g' : host_io) : Prop :=
  match q in kev B return B → Prop with
  | NsGet => λ b, match b with inl h => opens h (DNetns (io_ns g)) g g' | inr _ => g' = g end
  | NsGetFromName n => λ b, match b with inl h => opens h (DNetns (ns_of n)) g g' | inr _ => g' = g end
  | NsSet h => λ b, match b with
                    | inl _ => ∃ n, io_open g !! h = Some (DNetns n) ∧ g' = set_ns n g
                    | inr _ => g' = g
                    end
  | NsClose h => λ _, g' = set_open (delete h (io_open g)) g
  | OsOpen p => λ b, match b with inl f => opens f (DFile p) g g' | inr _ => g' = g end
  | OsFileClose f => λ _, g' = set_open (delete f (io_open g)) g
  | UnixOpen p _ => λ b, match b with inl f => opens f (DFile p) g g' | inr _ => g' = g end
  | NetlinkSocket => λ b, match b with inl f => opens f (DFile "netlink") g g' | inr _ => g' = g end
  | UnixClose f => λ _, g' = set_open (delete f (io_open g)) g
  | IoctlTunSetIff f _ flags => λ b,
      match b with
      | inl nm => io_open g !! f = Some (DFile tunDevice) ∧
                  g' = set_open (<[f := DQueue (cstr nm) flags (io_ns g)]> (io_open g)) g
      | inr _ => g' = g
      end
  | ConnRead c => λ b,
      ∃ left, g' = read_to left (match b.2 with Some e => [IoReadFail c e] | None => [] end) g ∧
        (b.2 = Some (sentinel_error IoEOF) → left = "") ∧
        match b.1 with
        | Some v => ∃ a, io_in g = String a left ∧ v = byte_of a
        | None => is_Some b.2 ∧ left = io_in g
        end
  | ConnWrite c s => λ b, g' = add_log (IoWrite c s b.1 b.2) g
  | ConnWriteMsg c s fds => λ b,
      g' = add_log (IoSend c s ((λ fd, io_open g !! fd) <$> fds) (match b with inl _ => true | inr _ => false end)) g
  | ConnReadMsg _ _ _ => λ b,
      match b with
      | inr _ => g' = g
      | inl (s, anc) => ∃ ds o' rest,
          g' = set_msgs rest (set_open o' g) ∧ (slen s = 0 → ds = []) ∧ delivered g s ds rest ∧
          match anc with
          | inl scms => installs (rights_of scms) ds (io_open g) o'
          | inr _ => ∃ fds, installs fds ds (io_open g) o'
          end
      end
  | ConnClose c => λ _, g' = add_log (IoClose c) g
  | _ => λ _, g' = g
  end b.

(** In the strict reading only an open descriptor may be closed. *)
Definition io_ok (strict : bool) {B} (q : kev B) (g : host_io) : Prop :=
  match q with
  | OsFileClose f | UnixClose f | NsClose f => strict = true → is_Some (io_open g !! f)
  | _ => True
  end.
Definition io_sem (strict : bool) (ns_of : string → nat) : sem (list SlotItem * host_io) :=
  ghost_sem (@io_ok strict) (@io_step ns_of).

Lemma io_strict_lax ns_of {A} (p : prog A) Q t : wp (io_sem true ns_of) p Q t → wp (io_sem false ns_of) p Q t.
Proof.
  revert t. induction p as [a|B e k IH]; intros t; [done|]. intros [Hok Hs]. split.
  - destruct e as [| | | |B q]; try done. by destruct q.
  - intros b t' Hst. apply IH, Hs. exact Hst.
Qed.
