(* ===== verification/TapfdFdSpec.v ===== *)
(** * No descriptor is lost in a handoff

    The descriptor ledger of [OpenTap], [SendFd] and the receivers, in the
    strict reading of the host: nothing is closed twice, and on an error
    everything that was opened or received is closed. *)
From S2P Require Import Prelude Errors GoStrings GoNet BpfTypes Prog GoText Tapfd TapfdSpec TapfdFd HostIo.

(** ** Maps of installed descriptors *)
Lemma set_open_id g : set_open (io_open g) g = g.
Proof. by destruct g. Qed.
Lemma installs_cons fd fds d ds o :
  installs (fd :: fds) (d :: ds) o (list_to_map (zip (fd :: fds) (d :: ds)) ∪ o) →
  (list_to_map (zip (fd :: fds) (d :: ds)) ∪ o : gmap Z descr) !! fd = Some d ∧
  delete fd (list_to_map (zip (fd :: fds) (d :: ds)) ∪ o : gmap Z descr) = list_to_map (zip fds ds) ∪ o ∧
  installs fds ds o (list_to_map (zip fds ds) ∪ o).
Proof.
  intros ([Hnd1 Hnd2]%NoDup_cons & [= Hlen] & [[Hpos Hfresh] Hall]%Forall_cons & _). split_and!.
  - simpl. by rewrite <-insert_union_l, lookup_insert_eq.
  - simpl. rewrite <-insert_union_l, delete_insert_id; [done|]. apply lookup_union_None. split; [|done].
    apply not_elem_of_list_to_map. rewrite fst_zip by lia. done.
  - by split_and!.
Qed.
Lemma installs_nil o : (list_to_map (zip [] []) ∪ o : gmap Z descr) = o.
Proof. apply (left_id_L ∅ (∪)). Qed.
Lemma installs_length fds ds o o' : installs fds ds o o' → length fds = length ds.
Proof. by intros (_ & ? & _). Qed.
Lemma installs_eq fds ds o o' : installs fds ds o o' → o' = list_to_map (zip fds ds) ∪ o.
Proof. by intros (_ & _ & _ & ?). Qed.

(** ** The receiver without its effects *)
Lemma collect_fds_rights scms fds : collect_fds scms fds = mok (fds ++ rights_of scms).
Proof.
  revert fds. induction scms as [|m scms IH]; intros fds; cbn [collect_fds].
  - unfold rights_of. simpl. by rewrite app_nil_r.
  - unfold ParseUnixRights, rights_of. rewrite filter_cons. destruct (is_rights m); cbn [negb].
    + rewrite decide_True by done. rewrite IH. cbn [fmap list_fmap concat]. by rewrite app_assoc.
    + rewrite decide_False by done. apply IH.
Qed.
Lemma wrap_files_all fds files : Forall (λ fd, 0 ≤ fd) fds → wrap_files fds files = mok (files ++ fds).
Proof.
  intros H. revert files. induction H as [|fd fds Hfd H IH]; intros files; cbn [wrap_files]; [by rewrite app_nil_r|].
  unfold new_file. assert (fd <? 0 = false) as -> by lia. by rewrite IH, <-app_assoc.
Qed.
Lemma parse_metadata_returns toks m : returns (parse_metadata toks m).
Proof.
  revert m. induction toks as [|tok toks IH]; intros m; cbn [parse_metadata]; [done|].
  destruct (cut_str tok "=") as [[key val]|]; [|done]. unfold parse_field, parse_uint.
  repeat case_bool_decide; try apply IH; destruct val; try done;
    (destruct (parse_digits _ _ _ _); cbn [map_err res_bind]; [apply IH|done]).
Qed.

(** What the receiver makes of a payload and the descriptors with it. *)
Definition recv_result (fds : list Z) (buf : string) : res (list Z * option Z * PortMetadata) :=
  let! payload := map_err (λ e, errorw "parse response: " e "") (StripOKResponse buf) in
  let! meta := map_err (λ e, errorw "parse payload: " e "") (ParsePayload payload) in
  match count_error meta (Z.of_nat (length fds)) with
  | Some e => Err e
  | None =>
      let cut := (length fds - Z.to_nat (pm_NetnsFDCount meta))%nat in
      Ok (take cut fds, if pm_NetnsFDCount meta =? 1 then fds !! cut else None, meta)
  end.
Lemma recv_split_result fds buf :
  Forall (λ fd, 0 ≤ fd) fds →
  recv_split fds buf = match recv_result fds buf with Err e => fail_closing fds e | r => mpure r end
  ∧ returns (recv_result fds buf).
Proof.
  intros H. unfold recv_split, recv_result.
  assert (returns (StripOKResponse buf)) as Hs by (unfold StripOKResponse; returns).
  destruct (StripOKResponse buf) as [p|e| |]; try done. cbn [map_err res_bind].
  pose proof (parse_metadata_returns (fields (let e := index_byte (chr 0) p in
    if e <? 0 then p else str_take (Z.to_nat e) p)) PortMetadata_zero) as Hp.
  change (returns (ParsePayload p)) in Hp. destruct (ParsePayload p) as [m|e| |]; try done.
  cbn [map_err res_bind]. destruct (count_error _ _); [done|]. rewrite wrap_files_all by done. done.
Qed.

(** The counts agree when they are announced. *)
Definition counts_ok (taps : list Z) (netns : option Z) (meta : PortMetadata) : Prop :=
  (pm_FDCount meta ≠ 0 → Z.of_nat (length taps) = pm_FDCount meta) ∧
  (is_Some netns ↔ pm_NetnsFDCount meta = 1) ∧ pm_NetnsFDCount meta ≤ 1.
Lemma parse_digits_range base maxv acc s n :
  0 ≤ base → 0 ≤ acc → parse_digits base maxv acc s = inl n → 0 ≤ n ∧ (acc ≤ maxv → n ≤ maxv).
Proof.
  intros Hb. revert acc. induction s as [|c s IH]; intros acc Hacc; cbn [parse_digits].
  - intros [= <-]. done.
  - destruct (digit_val c) as [d|] eqn:Hd; [|done]. apply digit_val_nonneg in Hd.
    destruct (base <=? d); [done|]. cbv zeta. destruct (maxv <? acc * base + d) eqn:E; [done|].
    intros H. apply IH in H; [|nia]. lia.
Qed.
Lemma parse_field_range key s bits n : 0 ≤ bits → parse_field key s bits = Ok n → 0 ≤ n < 2 ^ bits.
Proof.
  intros Hbits. unfold parse_field, parse_uint. destruct s; [done|].
  destruct (parse_digits _ _ _ _) as [v|] eqn:E; [|done]. intros [= <-].
  assert (0 < 2 ^ bits) by (by apply Z.pow_pos_nonneg). apply parse_digits_range in E; lia.
Qed.
Definition counts_range (m : PortMetadata) : Prop := 0 ≤ pm_FDCount m < 2 ^ 8 ∧ 0 ≤ pm_NetnsFDCount m < 2 ^ 8.
Lemma parse_metadata_range toks m m' : parse_metadata toks m = Ok m' → counts_range m → counts_range m'.
Proof.
  revert m. induction toks as [|tok toks IH]; intros m; cbn [parse_metadata]; [by intros [= <-]|].
  destruct (cut_str tok "=") as [[key val]|]; [|done].
  repeat case_bool_decide; try (intros Hr Hm; eapply IH; [exact Hr|exact Hm]).
  all: destruct (parse_field key val _) as [v|e| |] eqn:E; try done; cbn [res_bind]; intros Hr Hm;
    apply parse_field_range in E; [|done]; (eapply IH; [exact Hr|]); destruct Hm; by split.
Qed.
Lemma ParsePayload_range buf m : ParsePayload buf = Ok m → counts_range m.
Proof. intros H. by eapply parse_metadata_range; [exact H|]. Qed.

(** Carving off the trailing namespace descriptor. *)
Lemma split_tail (fds : list Z) n :
  0 ≤ n ≤ 1 → n ≤ Z.of_nat (length fds) →
  let cut := (length fds - Z.to_nat n)%nat in
  let netns := if n =? 1 then fds !! cut else None in
  take cut fds ++ option_list netns = fds ∧ (is_Some netns ↔ n = 1) ∧
  Z.of_nat (length (take cut fds)) = Z.of_nat (length fds) - n.
Proof.
  intros Hn Hlen. cbv zeta. rewrite length_take. assert (n = 0 ∨ n = 1) as [->| ->] by lia.
  - rewrite Nat.sub_0_r, take_ge, app_nil_r by done. split_and!; [done|split; [by intros []|lia]|lia].
  - change (Z.to_nat 1) with 1%nat. simpl.
    destruct (lookup_lt_is_Some_2 fds (length fds - 1)) as [x Hx]; [lia|]. rewrite Hx.
    change (option_list (Some x)) with [x]. rewrite <-(take_S_r _ _ _ Hx), take_ge by lia. split_and!; [done|split; eauto|lia].
Qed.
Lemma recv_result_ok fds buf taps netns meta :
  recv_result fds buf = Ok (taps, netns, meta) → taps ++ option_list netns = fds ∧ counts_ok taps netns meta.
Proof.
  unfold recv_result. destruct (StripOKResponse buf) as [p|e| |]; try done. cbn [map_err res_bind].
  destruct (ParsePayload p) as [m|e| |] eqn:Ep; try done. cbn [map_err res_bind].
  apply ParsePayload_range in Ep. destruct Ep as (Hf0 & Hn0). unfold count_error. cbv zeta.
  destruct (1 <? pm_NetnsFDCount m) eqn:H1; [done|]. apply Z.ltb_ge in H1.
  pose proof (split_tail fds (pm_NetnsFDCount m)) as Hs. cbv zeta in Hs.
  destruct (pm_FDCount m =? 0) eqn:Hf; cbn [negb].
  - destruct (Z.of_nat (length fds) <? _) eqn:Hlt; [done|]. apply Z.ltb_ge in Hlt. apply Z.eqb_eq in Hf.
    destruct Hs as (Hs1 & Hs2 & Hs3); [lia|lia|]. intros [= <- <- <-]. split; [done|]. by split_and!.
  - destruct (Z.of_nat (length fds) =? _) eqn:Hlen; [|done]. apply Z.eqb_eq in Hlen. cbn [negb].
    destruct Hs as (Hs1 & Hs2 & Hs3); [lia|lia|]. intros [= <- <- <-]. split; [done|]. split_and!; [lia|done|lia].
Qed.

Section ledger.
Context (ns_of : string → nat).
Notation io := (io_sem true ns_of).

Lemma wp_closeIntFds fds ds o s g (Q : unit → _ → Prop) :
  installs fds ds o (io_open g) → Q tt (s, set_open o g) → wp io (closeIntFds fds) Q (s, g).
Proof.
  revert ds g. induction fds as [|fd fds IH]; intros ds g Hin HQ.
  - destruct ds; [|by destruct Hin as (_ & ? & _)].
    apply installs_eq in Hin. rewrite installs_nil in Hin. rewrite <-Hin, set_open_id in HQ. exact HQ.
  - destruct ds as [|d ds]; [by destruct Hin as (_ & ? & _)|].
    pose proof (installs_eq _ _ _ _ Hin) as E. rewrite E in Hin. apply installs_cons in Hin as (H1 & H2 & H3).
    cbn [closeIntFds]. apply wp_bind. apply wp_ghost_kern; [intros _; simpl; rewrite E; eauto|].
    intros b g'. simpl. intros ->. rewrite E, H2. eapply IH; [exact H3|]. exact HQ.
Qed.
Lemma wp_closeFiles fds ds o s g (Q : unit → _ → Prop) :
  installs fds ds o (io_open g) → Q tt (s, set_open o g) → wp io (closeFiles fds) Q (s, g).
Proof.
  revert ds g. induction fds as [|fd fds IH]; intros ds g Hin HQ.
  - destruct ds; [|by destruct Hin as (_ & ? & _)].
    apply installs_eq in Hin. rewrite installs_nil in Hin. rewrite <-Hin, set_open_id in HQ. exact HQ.
  - destruct ds as [|d ds]; [by destruct Hin as (_ & ? & _)|].
    pose proof (installs_eq _ _ _ _ Hin) as E. rewrite E in Hin. apply installs_cons in Hin as (H1 & H2 & H3).
    cbn [closeFiles]. apply wp_bind. apply wp_ghost_kern; [intros _; simpl; rewrite E; eauto|].
    intros b g'. simpl. intros ->. rewrite E, H2. eapply IH; [exact H3|]. exact HQ.
Qed.

(** ** Opening *)
Lemma wp_unix_close fd s g (Q : res unit → _ → Prop) :
  is_Some (io_open g !! fd) → (∀ r, Q r (s, set_open (delete fd (io_open g)) g)) →
  wp io (call (UnixClose fd)) Q (s, g).
Proof. intros Hfd HQ. apply wp_ghost_call; [by intros _| |]; intros x g' ->; apply HQ. Qed.
Lemma opens_close fd d d' g g' : opens fd d g g' →
  set_open (delete fd (<[fd := d']> (io_open g'))) (set_open (<[fd := d']> (io_open g')) g') = g.
Proof.
  intros (_ & Hn & ->). destruct g. unfold set_open. simpl in *. f_equal.
  by rewrite insert_insert_eq, delete_insert_id.
Qed.
Lemma opens_close' fd d g g' : opens fd d g g' → set_open (delete fd (io_open g')) g' = g.
Proof.
  intros (_ & Hn & ->). destruct g. unfold set_open. simpl in *. f_equal. by rewrite delete_insert_id.
Qed.

(** A queue that [OpenTap] hands out is one of the named device, in the
    thread's namespace; on an error nothing stays open. *)
Lemma wp_OpenTap name flags s g (Q : res Z → _ → Prop) :
  (∀ fd g', opens fd (DQueue name (Z.lor flags IFF_TAP) (io_ns g)) g g' → Q (Ok fd) (s, g')) →
  (∀ e, Q (Err e) (s, g)) → wp io (OpenTap name flags) Q (s, g).
Proof.
  intros HQ Herr. unfold OpenTap. destruct (_ || _); [apply Herr|].
  apply wp_mbind, wp_mwrap, wp_ghost_call; [done| |intros e g' ->; apply Herr].
  intros fd g1 Hop. cbn [map_err fst snd] in *. apply wp_bind, wp_ghost_call; [done| |].
  - intros nm g2 [_ ->]. cbn [fst snd] in *.
    assert (Hns : io_ns g1 = io_ns g) by (by destruct Hop as (_ & _ & ->)). rewrite Hns.
    set (g2 := set_open _ g1).
    assert (Hg2 : set_open (delete fd (io_open g2)) g2 = g) by (unfold g2; cbn [set_open io_open]; by eapply opens_close).
    assert (Hfd : is_Some (io_open g2 !! fd)) by (unfold g2; cbn [set_open io_open]; rewrite lookup_insert_eq; eauto).
    cbv zeta. case_bool_decide as Hnm; cbn [negb].
    + apply wp_bind, wp_ghost_call; [done| |].
      * intros [] g3 ->. cbn [fst snd mok wp]. apply HQ. destruct Hop as (Hp & Hn & ->).
        unfold g2. rewrite Hnm. split_and!; [done|done|]. unfold set_open. simpl. by rewrite insert_insert_eq.
      * intros e g3 ->. cbn [fst snd]. apply wp_bind, wp_unix_close; [done|]. intros r. rewrite Hg2. apply Herr.
    + apply wp_bind, wp_unix_close; [done|]. intros r. rewrite Hg2. apply Herr.
  - intros e g2 ->. cbn [fst snd]. apply wp_bind, wp_unix_close.
    + destruct Hop as (_ & _ & ->). simpl. rewrite lookup_insert_eq. eauto.
    + intros r. erewrite opens_close' by done. apply Herr.
Qed.

(** ** Receiving *)
Definition ancillary_unparsed (e : error) : Prop := ∃ e', e = errorw "parse ancillary: " e' "".

Lemma wp_RecvFdsWithNetns c s g (Q : res (list Z * option Z * PortMetadata) → _ → Prop) :
  (∀ e, Q (Err (errorw "recvmsg: " e "")) (s, g)) →
  (∀ fds ds buf o' rest, installs fds ds (io_open g) o' → delivered g buf ds rest →
     let g0 := set_msgs rest g in let g1 := set_msgs rest (set_open o' g) in
     (slen buf = 0 → ∀ e, Q (Err e) (s, g0)) ∧ (∀ e, Q (Err (errorw "parse ancillary: " e "")) (s, g1)) ∧
     (ds = [] → Q (Err (no_fds_error buf)) (s, g0)) ∧
     match recv_result fds buf with
     | Ok r => Q (Ok r) (s, g1)
     | Err e => Q (Err e) (s, g0)
     | _ => True
     end) →
  wp io (RecvFdsWithNetns c) Q (s, g).
Proof.
  intros Herr Hmsg. unfold RecvFdsWithNetns. apply wp_mbind, wp_mwrap, wp_ghost_call; [done| |].
  2:{ intros e g' ->. apply Herr. }
  intros [buf anc] g' (ds & o' & rest & -> & Hnil & Hdel & Hin). cbn [map_err fst snd] in *.
  assert (∃ fds, installs fds ds (io_open g) o') as [fds Hfds] by (destruct anc; eauto).
  destruct (Hmsg fds ds buf o' rest Hfds Hdel) as (Hempty & Hanc & Hnone & _).
  destruct (slen buf =? 0) eqn:Hbuf.
  { apply Z.eqb_eq in Hbuf. specialize (Hnil Hbuf). subst ds. destruct fds; [|by destruct Hfds as (_ & ? & _)].
    apply installs_eq in Hfds. rewrite installs_nil in Hfds. subst o'. rewrite set_open_id. by apply Hempty. }
  destruct anc as [scms|e]; [|apply Hanc]. rewrite collect_fds_rights. cbn [app mbind mok pbind].
  clear fds Hfds Hempty Hanc Hnone. set (fds := rights_of scms) in *.
  destruct (Hmsg fds ds buf o' rest Hin Hdel) as (_ & _ & Hnone & Hres).
  case_bool_decide as Hf.
  - rewrite Hf in Hin. destruct ds; [|by destruct Hin as (_ & ? & _)].
    apply installs_eq in Hin. rewrite installs_nil in Hin. subst o'. rewrite set_open_id. by apply Hnone.
  - assert (Forall (λ fd, 0 ≤ fd) fds) as Hpos.
    { destruct Hin as (_ & _ & H & _). eapply Forall_impl; [exact H|]. by intros ? []. }
    destruct (recv_split_result fds buf Hpos) as [-> Hret].
    destruct (recv_result fds buf) as [r|e| |]; try done. unfold fail_closing.
    apply wp_bind. eapply (wp_closeIntFds fds ds (io_open g)); [exact Hin|]. destruct g. exact Hres.
Qed.
End ledger.

(** C24: [RecvFdsWithNetns], for every message, malformed ones included.  It
    comes back with a value or an error, never closes a descriptor twice, and
    loses none: on success the tap files followed by the namespace file are
    exactly the descriptors that arrived, all of them fresh, with the counts
    that the payload announced; on an error every descriptor that arrived was
    closed again, unless the control messages could not be parsed. *)
Theorem RecvFdsWithNetns_no_leak ns_of c t :
  wp (io_sem true ns_of) (RecvFdsWithNetns c)
    (λ r t', t'.1 = t.1 ∧
       match r with
       | Ok (taps, netns, meta) =>
           counts_ok taps netns meta ∧
           ∃ ds, installs (taps ++ option_list netns) ds (io_open t.2) (io_open t'.2)
       | Err e => io_open t'.2 = io_open t.2 ∨ ancillary_unparsed e
       | _ => False
       end) t.
Proof.
  destruct t as [s g]. apply wp_RecvFdsWithNetns; [by auto|]. intros fds ds buf o' rest Hin Hdel g0 g1.
  split_and!; [by auto|intros e; split; [done|right; by eexists]|by auto|].
  pose proof (recv_split_result fds buf) as Hret.
  destruct (recv_result fds buf) as [[[taps netns] meta]|e| |] eqn:Hr; [|by auto|done|done].
  destruct (recv_result_ok _ _ _ _ _ Hr) as [<- Hc]. split; [done|]. split; [done|]. by exists ds.
Qed.
