(* ===== verification/TapServer.v ===== *)
(** * The tapfd service: cmd/connector-ctl/open_port.go and tapfd_server.go

    One request per connection: read a line, dispatch it, answer it, close.  A
    handler is a program; the accept loop answers the connections it handed to
    one goroutine each, so a server is the pool of those handlers. *)
From S2P Require Import Prelude Errors GoStrings GoNet BpfTypes Mac Geneve Prog SlotTable Netns.
From S2P Require Import Netlink Config Metadata Loader Context Flock Attach GoText Tapfd TapfdFd.

(** ** open_port.go *)
Definition tapSocketEnv : string := "TAPFD_SOCKET".
Definition tapNetnsEnv : string := "TAPFD_WANT_NETNS".

Definition wantNetnsFD : prog bool := let~ v := kern (OsGetenv tapNetnsEnv) in Ret (isTruthy v).

Record OpenPortResult := MkOpenPortResult {
  op_Port : Z; op_TapDev : string; op_SentTo : string; op_MAC : string; op_InnerIP : string; op_NetnsSent : bool;
}.

Definition port_kind_error (port kind : Z) : error :=
  errorf ("port " +:+ fmt_d port +:+ " is " +:+ PortKind_String kind
          +:+ ", not tap (open-port only valid for tap slots)").

Definition validateOpenPort (sw : switchContext) (port : Z) : M Z :=
  if port <=? 0 then merr (errorf "--port must be a positive integer")
  else
    let n := sc_N_ports (sx_cfg sw) in
    let slotID := u32 (port - 1) in
    if n <=? slotID then merr (port_error port ErrPortOutOfRange (" (max " +:+ fmt_u n +:+ ")"))
    else
      read_slot (sx_numSlots sw) slotID (λ x,
        let kind := SlotPortKind x in
        if negb (kind =? PortKindTap) then merr (port_kind_error port kind)
        else read_slot (sx_numSlots sw) slotID (λ x,
          if si_Ifindex x =? 0
          then merr (port_error port ErrPortNotProvisioned " (must run 'provision --mode=tap' first)")
          else
            let~ innerIP := GetInnerIP (sx_numSlots sw) slotID in
            if (innerIP =? InnerIPFree) || (innerIP =? InnerIPReserved)
            then merr (port_error port ErrPortNotAttached " (run 'attach' before 'open-port')")
            else mok slotID)).

(** From the open queue on: the metadata, the message, the result. *)
Definition send_tap (sw : switchContext) (slotID conn : Z) (tapName sentTo : string)
    (withNetnsFD okPrefix : bool) (ns : NetNS) (tapFile : Z) : M OpenPortResult :=
  let cfg := sx_cfg sw in
  let* portMAC := mpure (GetPortMAC (sc_SwitchMac cfg) (sc_PortMac cfg) slotID) in
  read_slot (sx_numSlots sw) slotID (λ slot,
    let meta := MkPortMetadata (u32 (slotID + 1)) (mac_string portMAC) (ip_string (Uint32ToIP (si_InnerIp slot))) 1 0 in
    let meta := if withNetnsFD then set_NetnsFDCount 1 meta else meta in
    let fds := if withNetnsFD then [tapFile; ns_handle ns] else [tapFile] in
    let* payload := mwrap (λ e, errorw "build metadata payload: " e "") (mpure (Marshal meta)) in
    let* payload := if okPrefix
                    then mwrap (λ e, errorw "build OK response: " e "") (mpure (BuildOKResponse payload))
                    else mok payload in
    let* _ := mwrap (λ e, errorw "transfer tap fd: " e "") (SendFd conn payload fds) in
    mok (MkOpenPortResult (u32 (slotID + 1)) tapName sentTo (pm_MAC meta) (pm_InnerIP meta) withNetnsFD)).

Definition openPortAndSendToConn (sw : switchContext) (switchName : string) (slotID conn : Z) (sentTo : string)
    (withNetnsFD okPrefix : bool) (switchNs : option NetNS) : M OpenPortResult :=
  let tapName := TapDeviceName switchName slotID in
  let body (ns : NetNS) : M OpenPortResult :=
    let* tapFile := mwrap (λ e, errorw ("open tap " +:+ tapName +:+ ": ") e "")
                          (Do ns (OpenTap tapName (Z.lor IFF_NO_PI IFF_VNET_HDR))) in
    with_defer (kern (OsFileClose tapFile))
      (send_tap sw slotID conn tapName sentTo withNetnsFD okPrefix ns tapFile) in
  match switchNs with
  | Some ns => body ns
  | None =>
      let switchNsName := SwitchNetnsName (sx_meta sw) in
      let* ns := mwrap (λ e, errorw ("switch netns " +:+ switchNsName +:+ ": ") e "") (GetByName switchNsName) in
      with_defer (NetNS_Close ns) (body ns)
  end.

Definition dialTapSocket (spec : string) : M Z :=
  match cut_prefix "fd=" spec with
  | Some nStr =>
      let bad := errorf ("invalid " +:+ tapSocketEnv +:+ " fd= value " +:+ fmt_q nStr) in
      match atoi nStr with
      | Ok n => if n <? 0 then merr bad else UnixConnFromFd n
      | _ => merr bad
      end
  | None => ConnectUnix spec
  end.

Definition openPortAndSend (sw : switchContext) (switchName : string) (slotID : Z) (socketSpec : string)
    (withNetnsFD : bool) : M OpenPortResult :=
  let* conn := dialTapSocket socketSpec in
  with_defer (call (ConnClose conn))
    (openPortAndSendToConn sw switchName slotID conn socketSpec withNetnsFD false None).

(** ** Requests and answers *)
(** The first of the names with a non-empty value. *)
Fixpoint requestField (req : Request) (names : list string) : string :=
  match names with
  | [] => ""
  | name :: names =>
      let v := default "" (tr_Fields req !! name) in
      if negb (bool_decide (v = "")) then v else requestField req names
  end.

Definition tapFDErrorCode (err : error) : string :=
  if IsPortOutOfRange (Some err) then ErrorCodePortInvalid
  else if IsPortAllocated (Some err) || IsPortNotAttached (Some err) || IsPortNotProvisioned (Some err)
  then ErrorCodePortUnavailable
  else if contains (emsg err) "no free slots available" then ErrorCodePortUnavailable
  else if contains (emsg err) "not tap" then ErrorCodePortInvalid
  else ErrorCodeProviderInternal.

Definition sendTapFDError (conn : Z) (code : string) (err : option error) : prog unit :=
  let msg := match err with Some e => emsg e | None => "error" end in
  let~ _ := kern (ConnWrite conn (BuildErrorResponse code msg)) in Ret tt.

Definition ErrShortWrite : error := errorf "short write".

Definition sendTapFDOK (conn : Z) (fields : string) : M unit :=
  match BuildOKLine fields with
  | Err err =>
      let~ _ := kern (ConnWrite conn (BuildErrorResponse ErrorCodeProviderInternal (emsg err))) in merr err
  | Ok msg =>
      let~ r := kern (ConnWrite conn msg) in
      let '(n, err) := r in
      match err with
      | Some err => merr err
      | None => if negb (n =? slen msg) then merr ErrShortWrite else mok tt
      end
  | _ => mpanic
  end.

(** [fuel] bounds the reads; only a read that answers nothing and no error
    uses it up without progress. *)
Fixpoint read_request_loop (fuel : nat) (conn : Z) (buf : string) : M string :=
  match fuel with
  | O => Ret OutOfFuel
  | S fuel =>
      if slen buf <? RequestMaxLineSize then
        let~ r := kern (ConnRead conn) in
        let '(one, err) := r in
        let fail (buf : string) : M string :=
          match err with
          | Some e => if bool_decide (e = sentinel_error IoEOF) && (0 <? slen buf) then mok buf else merr e
          | None => read_request_loop fuel conn buf
          end in
        match one with
        | Some c =>
            if c =? 10 then mok buf
            else if c =? 0 then merr (errorf "request line contains NUL")
            else fail (buf +:+ str1 c)
        | None => fail buf
        end
      else merr (errorf ("request line too long: " +:+ fmt_d (slen buf + 1) +:+ " > " +:+ fmt_d RequestMaxLineSize))
  end.
Definition readTapFDRequestLine (fuel : nat) (conn : Z) : M string := read_request_loop fuel conn "".

(** ** The options of PREPARE and SET_PORT_UP *)
Definition AttachOptions_zero : AttachOptions := MkAttachOptions 0 0 "" None None 0 [] [] false false.

(** The first of the two spellings that is present. *)
Definition admin_down_field (req : Request) : res bool :=
  match from_option Some (tr_Fields req !! "ADMIN_DOWN") (tr_Fields req !! "admin_down") with
  | Some down =>
      map_err (λ e, errorw ("invalid admin_down " +:+ fmt_q down +:+ ": ") e "") (parse_bool down)
  | None => Ok false
  end.

(** An optional field: [zero] when it is empty. *)
Definition opt_field {A} (text : string) (zero : A) (parse : string → res A) : res A :=
  if bool_decide (text = "") then Ok zero else parse text.
Definition parse_u32_field (what text : string) : res Z :=
  map_err (λ _, errorf ("invalid " +:+ what +:+ " " +:+ fmt_q text)) (parse_uint text 10 32).
Definition parse_ip_field (what text : string) : res IP :=
  match ParseIP text with
  | None => Err (errorf ("invalid " +:+ what +:+ " " +:+ fmt_q text))
  | ip => Ok ip
  end.

Definition prepareAttachOptions (req : Request) : res AttachOptions :=
  let innerText := requestField req ["inner_ip"; "INNER_IP"] in
  guard! (negb (bool_decide (innerText = ""))) else errorf "missing inner_ip field" in
  let! innerIP := parse_ip_field "inner_ip" innerText in
  let! adminDown := admin_down_field req in
  let! generation := opt_field (requestField req ["generation"; "GENERATION"]) 0 (parse_u32_field "generation") in
  let! gateway := opt_field (requestField req ["transit_gateway_ip"; "transit-gateway-ip"; "TRANSIT_GATEWAY_IP"])
                            None (parse_ip_field "transit_gateway_ip") in
  let! vni := opt_field (requestField req ["transit_geneve_vni"; "transit-geneve-vni"; "TRANSIT_GENEVE_VNI"])
                        0 (parse_u32_field "transit_geneve_vni") in
  let! options := opt_field (requestField req ["transit_geneve_opts"; "transit-geneve-opts"; "TRANSIT_GENEVE_OPTS"]) []
                    (λ t, map_err (λ e, errorw ("invalid transit_geneve_opts " +:+ fmt_q t +:+ ": ") e "")
                                  (ParseGeneveOptions t)) in
  let! mac := opt_field (requestField req ["transit_mac"; "transit-mac"; "transit-mac-addr"; "TRANSIT_MAC"]) []
                (λ t, map_err (λ e, errorw ("invalid transit_mac " +:+ fmt_q t +:+ ": ") e "") (ParseMAC t)) in
  Ok (MkAttachOptions 0 generation "" innerIP gateway vni options mac adminDown false).

(** ** Handlers *)
Definition handleTapFDInfo (conn : Z) (sw : switchContext) : M unit :=
  let~ _ := sendTapFDOK conn ("generation_bits=" +:+ fmt_u (sc_GenerationBits (sx_cfg sw))) in mok tt.

Definition prepare_response (out : AttachOutput) : string :=
  let tail := " floating_ip=" +:+ at_FloatingIP out +:+ " mac=" +:+ at_PortMAC out +:+ " ip=" +:+ at_InnerIP out
              +:+ " mode=" +:+ at_Mode out in
  let response := "port=" +:+ fmt_u (at_Port out) +:+ tail in
  let response := if 0 <? at_GenerationBits out
                  then "port=" +:+ fmt_u (at_Port out) +:+ " generation=" +:+ fmt_u (at_Generation out) +:+ tail
                  else response in
  if at_AdminDown out then response +:+ " admin_down=1" else response.

(** A call whose error is answered with [code] and ends the handler. *)
Definition or_answer {A} (conn : Z) (code : error → string) (p : M A) (k : A → M unit) : M unit :=
  let~ r := p in
  match r with
  | Ok a => k a
  | Err e => let~ _ := sendTapFDError conn (code e) (Some e) in mok tt
  | Panic => mpanic
  | OutOfFuel => Ret OutOfFuel
  end.
Definition answer_error (conn : Z) (code : string) (e : error) : M unit :=
  let~ _ := sendTapFDError conn code (Some e) in mok tt.

Definition undo_prepare (sw : switchContext) (port : Z) : M unit := Detach sw (MkDetachOptions port "" true).

Definition not_tap_text (out : AttachOutput) : string :=
  "port " +:+ fmt_u (at_Port out) +:+ " is " +:+ at_Mode out +:+ ", not tap".

Definition handleTapFDPrepare (conn : Z) (sw : switchContext) (req : Request) : M unit :=
  or_answer conn (λ _, ErrorCodeBadRequest) (mpure (prepareAttachOptions req)) (λ opts,
  or_answer conn tapFDErrorCode (Attach sw opts) (λ out,
    if negb (bool_decide (at_Mode out = PortKind_String PortKindTap)) then
      let~ r := undo_prepare sw (at_Port out) in
      match r with
      | Err detachErr =>
          answer_error conn ErrorCodeProviderInternal (errorw (not_tap_text out +:+ "; rollback: ") detachErr "")
      | Ok _ => answer_error conn ErrorCodePortInvalid (errorf (not_tap_text out))
      | Panic => mpanic
      | OutOfFuel => Ret OutOfFuel
      end
    else
      let~ r := sendTapFDOK conn (prepare_response out) in
      match r with
      | Err _ =>
          let~ r := undo_prepare sw (at_Port out) in
          match r with Panic => mpanic | OutOfFuel => Ret OutOfFuel | _ => mok tt end
      | r => Ret r
      end)).

(** The port of OPEN and RELEASE. *)
Definition request_port (req : Request) : res Z :=
  let portText := requestField req ["port"; "PORT"] in
  guard! (negb (bool_decide (portText = ""))) else errorf "missing port field" in
  match atoi portText with
  | Ok port => if port <=? 0 then Err (errorf ("invalid port " +:+ fmt_q portText)) else Ok port
  | _ => Err (errorf ("invalid port " +:+ fmt_q portText))
  end.

Definition handleTapFDOpen (conn : Z) (switchName : string) (sw : switchContext) (switchNs : option NetNS)
    (req : Request) : M unit :=
  or_answer conn (λ _, ErrorCodePortInvalid) (mpure (request_port req)) (λ port,
  or_answer conn tapFDErrorCode (validateOpenPort sw port) (λ slotID,
  or_answer conn tapFDErrorCode
    (openPortAndSendToConn sw switchName slotID conn ("tapfd-listen:" +:+ switchName) (tr_WantNetns req) true switchNs)
    (λ _, mok tt))).

Definition handleTapFDRelease (conn : Z) (sw : switchContext) (req : Request) : M unit :=
  or_answer conn (λ _, ErrorCodePortInvalid) (mpure (request_port req)) (λ port,
  or_answer conn tapFDErrorCode (Detach sw (MkDetachOptions port "" false)) (λ _,
    let~ _ := sendTapFDOK conn ("port=" +:+ fmt_d port +:+ " released=1") in mok tt)).

Definition port_up_forbidden : list string := ["generation"; "GENERATION"; "admin_down"; "ADMIN_DOWN"].

Definition handleTapFDSetPortUp (conn : Z) (sw : switchContext) (req : Request) : M unit :=
  let invalid := answer_error conn ErrorCodePortInvalid (errorf "invalid port") in
  match atoi (requestField req ["port"; "PORT"]) with
  | Ok port =>
      if port <=? 0 then invalid
      else
        match List.find (λ key, bool_decide (is_Some (tr_Fields req !! key))) port_up_forbidden with
        | Some key => answer_error conn ErrorCodeBadRequest (errorf (key +:+ " is not a SET_PORT_UP field"))
        | None =>
            or_answer conn (λ _, ErrorCodeBadRequest) (mpure (prepareAttachOptions req)) (λ network,
            let opts := MkPortUpOptions port (ao_InnerIP network) (ao_TransitGatewayIP network)
                          (ao_TransitGeneveVNI network) (ao_TransitGeneveOpts network) (ao_TransitMAC network) in
            or_answer conn tapFDErrorCode (SetPortUp sw opts) (λ _,
              let~ _ := sendTapFDOK conn ("port=" +:+ fmt_d port +:+ " admin_down=0") in mok tt))
        end
  | _ => invalid
  end.

(** The request after it was read. *)
Definition dispatch (conn : Z) (switchName : string) (sw : option switchContext) (switchNs : option NetNS)
    (req : Request) : M unit :=
  let requestSwitch := requestField req ["switch"; "vswitch"; "VSWITCH"] in
  if bool_decide (requestSwitch = "")
  then answer_error conn ErrorCodeBadRequest (errorf "missing switch field")
  else if negb (bool_decide (requestSwitch = switchName))
  then answer_error conn ErrorCodeSwitchMismatch
         (errorf ("requested switch " +:+ requestSwitch +:+ ", serving " +:+ switchName))
  else
    match sw with
    | None => answer_error conn ErrorCodeProviderInternal (errorf "switch handle unavailable")
    | Some sw =>
        let op := tr_Op req in
        if bool_decide (op = RequestOpInfo) then handleTapFDInfo conn sw
        else if bool_decide (op = RequestOpPrepare) then handleTapFDPrepare conn sw req
        else if bool_decide (op = RequestOpOpen) then handleTapFDOpen conn switchName sw switchNs req
        else if bool_decide (op = RequestOpRelease) then handleTapFDRelease conn sw req
        else if bool_decide (op = RequestOpSetPortUp) then handleTapFDSetPortUp conn sw req
        else answer_error conn ErrorCodeBadRequest (errorf ("unsupported request op " +:+ fmt_q op))
    end.

Definition handleTapFDConn (fuel : nat) (conn : Z) (switchName : string) (sw : option switchContext)
    (switchNs : option NetNS) : M unit :=
  with_defer (call (ConnClose conn))
    (or_answer conn (λ _, ErrorCodeProviderInternal) (call (ConnSetReadDeadline conn true)) (λ _,
     or_answer conn (λ _, ErrorCodeBadRequest) (readTapFDRequestLine fuel conn) (λ line,
       let~ _ := call (ConnSetReadDeadline conn false) in
       or_answer conn (λ _, ErrorCodeBadRequest) (mpure (ParseRequestLine line)) (λ req,
         dispatch conn switchName sw switchNs req)))).

(** ** The server *)
Record tapFDServer := MkTapFDServer { ts_path : string; ts_ln : Z; ts_netns : option NetNS }.

(** [filepath.IsAbs] and, for an absolute path, [filepath.Dir]. *)
Definition is_abs (path : string) : bool := has_prefix path "/".
Definition path_dir (path : string) : string := clean_abs (join "/" (removelast (split_on "/" path))).

Definition prepareTapFDListenPath (path : string) : M unit :=
  if bool_decide (path = "") then merr (errorf "tapfd listen socket path is required")
  else if negb (is_abs path) then merr (errorf ("tapfd listen socket path must be absolute: " +:+ path))
  else
    let* _ := mwrap (λ e, errorw "create tapfd socket directory: " e "") (call (OsMkdirAll (path_dir path))) in
    let~ st := call (OsLstat path) in
    match st with
    | Ok socket =>
        if negb socket then merr (errorf ("tapfd listen path exists and is not a socket: " +:+ path))
        else
          let~ r := call (DialUnixTimeout path) in
          match r with
          | Ok conn =>
              let~ _ := call (ConnClose conn) in merr (errorf ("tapfd listen socket already active: " +:+ path))
          | _ => mwrap (λ e, errorw ("remove stale tapfd socket " +:+ path +:+ ": ") e "") (call (OsRemove path))
          end
    | Err err =>
        if errors_is err OsErrNotExist then mok tt
        else merr (errorw ("stat tapfd listen socket " +:+ path +:+ ": ") err "")
    | Panic => mpanic
    | OutOfFuel => Ret OutOfFuel
    end.

Definition close_opt_netns (ns : option NetNS) : M unit :=
  match ns with Some ns => NetNS_Close ns | None => mok tt end.

(** The accept loop is started in a goroutine of its own. *)
Definition startTapFDServer (path : string) (sw : option switchContext) : M tapFDServer :=
  let* _ := prepareTapFDListenPath path in
  let* switchNs := match sw with
                   | Some sw =>
                       let name := SwitchNetnsName (sx_meta sw) in
                       let* ns := mwrap (λ e, errorw ("switch netns " +:+ name +:+ ": ") e "") (GetByName name) in
                       mok (Some ns)
                   | None => mok None
                   end in
  on_err (close_opt_netns switchNs)
    (let* _ := mwrap (λ e, errorw ("resolve tapfd socket " +:+ path +:+ ": ") e "") (call (ResolveUnixAddr path)) in
     let* ln := mwrap (λ e, errorw ("listen tapfd socket " +:+ path +:+ ": ") e "") (call (ListenUnix path)) in
     let* _ := on_err (let~ _ := call (ListenerClose ln) in call (OsRemove path))
                 (mwrap (λ e, errorw ("chmod tapfd socket " +:+ path +:+ ": ") e "") (call (OsChmod path 432))) in
     mok (MkTapFDServer path ln switchNs)).

(** The accept loop: the connections it handed to a handler each, and what it
    put on the error channel. *)
Fixpoint serve (fuel : nat) (s : tapFDServer) (accepted : list Z) : M (list Z * option error) :=
  match fuel with
  | O => Ret OutOfFuel
  | S fuel =>
      let~ r := call (ListenerAccept (ts_ln s)) in
      match r with
      | Err err =>
          if errors_is err NetErrClosed then mok (accepted, None)
          else
            let~ done := kern CtxErr in
            match done with
            | Some _ => mok (accepted, None)
            | None => mok (accepted, Some (errorw ("accept tapfd socket " +:+ ts_path s +:+ ": ") err ""))
            end
      | Ok conn => serve fuel s (accepted ++ [conn])
      | Panic => mpanic
      | OutOfFuel => Ret OutOfFuel
      end
  end.

Definition server_handlers (fuel : nat) (s : tapFDServer) (switchName : string) (sw : option switchContext)
    (conns : list Z) : list (M unit) :=
  (λ conn, handleTapFDConn fuel conn switchName sw (ts_netns s)) <$> conns.

(** The clean-up once the loop and the handlers are done; the first error
    counts, a socket that is gone is none. *)
Definition tapFDServer_Close (s : tapFDServer) : M unit :=
  let~ closed := call (ListenerClose (ts_ln s)) in
  let~ removed := call (OsRemove (ts_path s)) in
  let err := match removed with
             | Err rmErr => if negb (errors_is rmErr OsErrNotExist) && is_ok closed then removed else closed
             | _ => closed
             end in
  let~ ns := close_opt_netns (ts_netns s) in
  match ns with
  | Err nsErr => if is_ok err then merr nsErr else Ret err
  | _ => Ret err
  end.
