(* ===== verification/HandoffSpec.v ===== *)
(** * A handoff from end to end

    What [openPortAndSendToConn] puts on the connection, and what the receiver
    of [pkg/tapfd] makes of it: the queue of the port's tap device, the
    namespace when it was asked for, and the port's metadata. *)
From S2P Require Import Prelude Errors GoStrings GoNet BpfTypes Mac Geneve Prog SlotTable Netns.
From S2P Require Import Netlink Config Metadata Loader Context Flock Attach AttachSpec.
From S2P Require Import GoText Tapfd TapfdSpec TapfdFd HostIo TapfdFdSpec TapServer.

(** ** The metadata of a port is in range *)
Lemma alnum_solid s : all_chars is_alnum s = true → all_chars solid s = true.
Proof. apply all_chars_mono, is_alnum_solid. Qed.
Lemma mac_string_solid m : all_chars solid (mac_string m) = true.
Proof.
  unfold mac_string. apply all_chars_join; [done|]. apply Forall_fmap, Forall_true. intros b.
  apply alnum_solid. by apply pad0_alnum.
Qed.
Lemma mac_string_word m : m ≠ [] → word (mac_string m).
Proof.
  intros Hm. split; [|apply mac_string_solid]. destruct m as [|b m]; [done|]. unfold mac_string. simpl.
  assert (fmt_02x b ≠ "") as Hb.
  { unfold fmt_02x, pad0. intros E. apply (f_equal String.length) in E. revert E.
    rewrite length_str_app. pose proof (print_base_nonempty (print_fuel b) 16 b "") as Hne.
    change (print_base (print_fuel b) 16 b "") with (fmt_x b) in Hne.
    destruct (fmt_x b); [destruct Hne; [unfold print_fuel; lia|done]|simpl; lia]. }
  destruct (map fmt_02x m); [done|]. by destruct (fmt_02x b).
Qed.
Lemma ip_string_word n : word (ip_string (Uint32ToIP n)).
Proof.
  assert (∀ l, (0 < length l)%nat → word (fmt_v4 l)) as H.
  { intros l Hl. split.
    - destruct l as [|a l]; [simpl in Hl; lia|]. unfold fmt_v4. simpl.
      assert (fmt_u a ≠ "") as Ha by (apply print_base_nonempty; unfold print_fuel; lia).
      destruct (map fmt_u l); [done|]. by destruct (fmt_u a).
    - unfold fmt_v4. apply all_chars_join; [done|]. apply Forall_fmap, Forall_true. intros b. apply fmt_u_solid. }
  unfold Uint32ToIP. generalize (u8 (Z.shiftr n 24)), (u8 (Z.shiftr n 16)), (u8 (Z.shiftr n 8)), (u8 n).
  intros a b c d. change (ip_string (IPv4 a b c d)) with
    (match To4 (IPv4 a b c d) with Some v4 => fmt_v4 v4 | None => fmt_v6 (v4InV6Prefix ++ [a; b; c; d]) end).
  rewrite To4_IPv4. apply H. simpl. lia.
Qed.

(** ** The sending side *)
Definition restore_broken (tapName : string) (e : error) : Prop :=
  ∃ e' post, e = errorw ("open tap " +:+ tapName +:+ ": ") (errorw "failed to restore netns: " e' post) "".

Section send.
Context (ns_of : string → nat).
Notation io := (io_sem true ns_of).

Lemma wp_ns_close_io h s g (Q : res unit → _ → Prop) :
  is_Some (io_open g !! h) → (∀ r, Q r (s, set_open (delete h (io_open g)) g)) →
  wp io (call (NsClose h)) Q (s, g).
Proof. intros Hh HQ. apply wp_ghost_call; [by intros _| |]; intros x g' ->; apply HQ. Qed.

(** A queue opened inside a namespace: the thread comes back and the handle
    that remembered its own namespace is closed. *)
Lemma wp_Do_OpenTap ns n name flags s g (Q : res Z → _ → Prop) :
  io_open g !! ns_handle ns = Some (DNetns n) →
  (∀ fd g', opens fd (DQueue name (Z.lor flags IFF_TAP) n) g g' → Q (Ok fd) (s, g')) →
  (∀ e, Q (Err e) (s, g)) →
  (∀ e post g', io_log g' = io_log g → io_open g ⊆ io_open g' → Q (Err (errorw "failed to restore netns: " e post)) (s, g')) →
  wp io (Do ns (OpenTap name flags)) Q (s, g).
Proof.
  intros Hns HQ Herr Hbad. unfold Do. apply wp_mbind, wp_mwrap, wp_ghost_call; [done| |intros e g' ->; apply Herr].
  intros h g1 (_ & Hfresh & ->). cbn [map_err fst snd] in *. unfold with_defer. apply wp_bind.
  set (g1 := set_open _ g). assert (Hh : ns_handle ns ≠ h) by congruence.
  assert (Hback : set_open (delete h (io_open g1)) g1 = g).
  { unfold g1, set_open. simpl. destruct g; simpl in *. by rewrite delete_insert_id. }
  assert (Hclose : ∀ r : res Z, Q r (s, g) → wp io (let~ _ := call (NsClose h) in Ret r) Q (s, g1)).
  { intros r Hr. apply wp_bind, wp_ns_close_io; [unfold g1; simpl; rewrite lookup_insert_eq; eauto|].
    intros _. by rewrite Hback. }
  apply wp_mbind, wp_mwrap, wp_ghost_call; [done| |intros e g' ->; by apply Hclose].
  intros [] g2 (n' & Hn' & ->). cbn [map_err fst snd] in *.
  assert (n' = n) as ->.
  { unfold g1, set_open in Hn'. simpl in Hn'. rewrite lookup_insert_ne in Hn' by done. congruence. }
  (* the restore, with the queue or without it *)
  assert (Hset : ∀ (o : gmap Z descr) (k : M Z) wrap,
    o !! h = Some (DNetns (io_ns g)) → io_open g ⊆ delete h o →
    wp io k (λ r t', wp io (let~ _ := call (NsClose h) in Ret r) Q t') (s, set_open o g1) →
    (∀ e, ∃ e' post, wrap e = errorw "failed to restore netns: " e' post) →
    wp io (let* _ := mwrap wrap (call (NsSet h)) in k) (λ r t', wp io (let~ _ := call (NsClose h) in Ret r) Q t')
      (s, set_open o (set_ns n g1))).
  { intros o k wrap Ho Hsub Hk Hw. apply wp_mbind, wp_mwrap, wp_ghost_call; [done| |].
    - intros [] g' (m & Hm & ->). cbn [map_err fst snd] in *. simpl in Hm. rewrite Ho in Hm. simplify_eq.
      exact Hk.
    - intros e g' ->. cbn [map_err fst snd wp]. apply wp_bind, wp_ns_close_io; [simpl; by rewrite Ho|].
      intros _. destruct (Hw e) as (e' & post & ->). by apply Hbad. }
  apply wp_bind, wp_OpenTap.
  - intros fd g3 (Hpos & Hfd & ->). simpl in Hfd. apply Hset.
    + simpl in *. destruct (decide (h = fd)) as [<-|Hne]; [by rewrite lookup_insert_eq in Hfd|].
      rewrite lookup_insert_ne, lookup_insert_eq by done. done.
    + simpl in *. destruct (decide (h = fd)) as [<-|Hne]; [by rewrite lookup_insert_eq in Hfd|].
      rewrite lookup_insert_ne in Hfd by done. rewrite delete_insert_ne, delete_insert_id by done.
      by apply insert_subseteq.
    + destruct (decide (h = fd)) as [<-|Hne]; [by rewrite lookup_insert_eq in Hfd|].
      rewrite lookup_insert_ne in Hfd by done.
      refine (_ : wp io (let~ _ := call (NsClose h) in Ret (Ok fd)) Q (s, _)). apply wp_bind, wp_ns_close_io.
      { simpl. rewrite lookup_insert_ne, lookup_insert_eq by done. eauto. }
      intros _. apply HQ. split_and!; [done|done|]. unfold g1, set_open. simpl. f_equal.
      rewrite delete_insert_ne, delete_insert_id by done. done.
    + intros e. by eexists _, _.
  - intros e. change (set_ns n g1) with (set_open (io_open g1) (set_ns n g1)). apply Hset.
    + unfold g1. simpl. by rewrite lookup_insert_eq.
    + unfold g1. simpl. by rewrite delete_insert_id.
    + rewrite set_open_id. by apply Hclose.
    + intros e'. by eexists _, _.
Qed.

(** The metadata of a port, and the payloads that carry it. *)
Definition port_meta (slotID : Z) (mac : HardwareAddr) (x : SlotItem) (want : bool) : PortMetadata :=
  MkPortMetadata (u32 (slotID + 1)) (mac_string mac) (ip_string (Uint32ToIP (si_InnerIp x))) 1 (if want then 1 else 0).
Definition carries (okPrefix : bool) (m : PortMetadata) (payload : string) : Prop :=
  ∃ b, Marshal m = Ok b ∧ if okPrefix then BuildOKResponse b = Ok payload else payload = b.
Definition handed_off (slotID : Z) (mac : HardwareAddr) (x : SlotItem) (tapName sentTo : string) (want : bool)
    : OpenPortResult :=
  let m := port_meta slotID mac x want in
  MkOpenPortResult (u32 (slotID + 1)) tapName sentTo (pm_MAC m) (pm_InnerIP m) want.
Definition send_fds (want : bool) (tapFile : Z) (ns : NetNS) : list Z :=
  if want then [tapFile; ns_handle ns] else [tapFile].

Lemma Marshal_returns m : returns (Marshal m).
Proof. unfold Marshal. returns. Qed.
Lemma BuildOKResponse_returns b : returns (BuildOKResponse b).
Proof. unfold BuildOKResponse. returns. Qed.

Section send_tap.
Context (sw : switchContext) (slotID conn : Z) (tapName sentTo : string) (want okPrefix : bool) (ns : NetNS) (tapFile : Z).
Context (s : list SlotItem) (g : host_io) (x : SlotItem).
Context (Hlen : length (sc_SwitchMac (sx_cfg sw)) = 6%nat) (Hi : slotID < sx_numSlots sw) (Hx : slot_at s slotID = Some x).

Lemma wp_send_tap (Q : res OpenPortResult → _ → Prop) :
  let rights := (λ fd, io_open g !! fd) <$> send_fds want tapFile ns in
  (∀ payload mac, GetPortMAC (sc_SwitchMac (sx_cfg sw)) (sc_PortMac (sx_cfg sw)) slotID = Ok mac →
     carries okPrefix (port_meta slotID mac x want) payload →
     Q (Ok (handed_off slotID mac x tapName sentTo want)) (s, add_log (IoSend conn payload rights true) g)) →
  (∀ e, Q (Err e) (s, g)) →
  (∀ e payload, Q (Err e) (s, add_log (IoSend conn payload rights false) g)) →
  wp io (send_tap sw slotID conn tapName sentTo want okPrefix ns tapFile) Q (s, g).
Proof.
  intros rights HQ Herr Hfail. unfold send_tap. cbv zeta.
  destruct (GetPortMAC_ok _ (sc_PortMac (sx_cfg sw)) slotID Hlen) as [mac Hmac].
  destruct (GetPortMAC _ _ slotID) as [mac'|e| |] eqn:Em; try done. clear mac Hmac. rename mac' into mac.
  apply wp_mbind. cbn [mpure wp]. unfold read_slot. rewrite GetSlot_lt by done. cbn [deref].
  apply wp_bind, (wp_ghost_load_slot _ _ slotID x); [done|].
  change (if want then [tapFile; ns_handle ns] else [tapFile]) with (send_fds want tapFile ns).
  assert (∀ A (f : PortMetadata → A), f (if want then set_NetnsFDCount 1 (MkPortMetadata (u32 (slotID + 1)) (mac_string mac)
      (ip_string (Uint32ToIP (si_InnerIp x))) 1 0) else MkPortMetadata (u32 (slotID + 1)) (mac_string mac)
      (ip_string (Uint32ToIP (si_InnerIp x))) 1 0) = f (port_meta slotID mac x want)) as Hm by (by destruct want).
  rewrite (Hm _ Marshal), (Hm _ pm_MAC), (Hm _ pm_InnerIP).
  apply wp_mbind, wp_mwrap. cbn [mpure wp]. pose proof (Marshal_returns (port_meta slotID mac x want)) as Hret.
  destruct (Marshal _) as [b|e| |] eqn:Hb; try done; cbn [map_err]; [|apply Herr].
  assert (Hsend : ∀ payload, (if okPrefix then BuildOKResponse b = Ok payload else payload = b) →
    wp io (let* _ := mwrap (λ e, errorw "transfer tap fd: " e "") (SendFd conn payload (send_fds want tapFile ns)) in
           mok (MkOpenPortResult (u32 (slotID + 1)) tapName sentTo (pm_MAC (port_meta slotID mac x want))
                  (pm_InnerIP (port_meta slotID mac x want)) want)) Q (s, g)).
  { intros payload Hp. apply wp_mbind, wp_mwrap. unfold SendFd.
    rewrite bool_decide_false by (by destruct want). destruct (slen payload =? 0); [apply Herr|].
    apply wp_mwrap, wp_ghost_call; [done| |]; [intros [] g' ->|intros e g' ->]; cbn [map_err fst snd mok wp].
    - apply (HQ payload mac eq_refl). by exists b.
    - apply Hfail. }
  apply wp_mbind. destruct okPrefix; [|by apply Hsend]. apply wp_mwrap. cbn [mpure wp].
  pose proof (BuildOKResponse_returns b). destruct (BuildOKResponse b) as [p|e| |]; try done; cbn [map_err];
    [by apply Hsend|apply Herr].
Qed.
End send_tap.

(** The result of a handoff in a switch namespace [n]. *)
Definition tap_queue (tapName : string) (n : nat) : descr :=
  DQueue tapName (Z.lor (Z.lor IFF_NO_PI IFF_VNET_HDR) IFF_TAP) n.
Definition sent_descrs (tapName : string) (n : nat) (want : bool) : list descr :=
  tap_queue tapName n :: (if want then [DNetns n] else []).

Section handoff.
Context (sw : switchContext) (switchName : string) (slotID conn : Z) (sentTo : string) (want okPrefix : bool).
Context (s : list SlotItem) (x : SlotItem) (n : nat).
Context (Hlen : length (sc_SwitchMac (sx_cfg sw)) = 6%nat) (Hi : slotID < sx_numSlots sw) (Hx : slot_at s slotID = Some x).
Notation tapName := (TapDeviceName switchName slotID).

Definition handoff_body (ns : NetNS) : M OpenPortResult :=
  let* tapFile := mwrap (λ e, errorw ("open tap " +:+ tapName +:+ ": ") e "")
                        (Do ns (OpenTap tapName (Z.lor IFF_NO_PI IFF_VNET_HDR))) in
  with_defer (kern (OsFileClose tapFile)) (send_tap sw slotID conn tapName sentTo want okPrefix ns tapFile).

Lemma wp_handoff_body ns g (Q : res OpenPortResult → list SlotItem * host_io → Prop) :
  io_open g !! ns_handle ns = Some (DNetns n) →
  (∀ payload mac, GetPortMAC (sc_SwitchMac (sx_cfg sw)) (sc_PortMac (sx_cfg sw)) slotID = Ok mac →
     carries okPrefix (port_meta slotID mac x want) payload →
     Q (Ok (handed_off slotID mac x tapName sentTo want))
       (s, add_log (IoSend conn payload (Some <$> sent_descrs tapName n want) true) g)) →
  (∀ e, Q (Err e) (s, g)) →
  (∀ e payload, Q (Err e) (s, add_log (IoSend conn payload (Some <$> sent_descrs tapName n want) false) g)) →
  (∀ e g', io_log g' = io_log g → io_open g ⊆ io_open g' → restore_broken tapName e → Q (Err e) (s, g')) →
  wp io (handoff_body ns) Q (s, g).
Proof.
  intros Hns HQ Herr Hfail Hbad. unfold handoff_body. apply wp_mbind, wp_mwrap, (wp_Do_OpenTap ns n).
  - done.
  - intros fd g' (Hpos & Hfresh & ->). cbn [map_err].
    set (q := DQueue _ _ n). set (g1 := set_open _ g).
    assert (Hright : (λ fd, io_open g1 !! fd) <$> send_fds want fd ns = Some <$> sent_descrs tapName n want).
    { unfold g1, sent_descrs, send_fds. assert (fd ≠ ns_handle ns) by congruence.
      destruct want; simpl; rewrite lookup_insert_eq; [by rewrite lookup_insert_ne, Hns by done|done]. }
    assert (Hclose : ∀ r l, Q r (s, MkIo (io_ns g) (io_open g) (io_in g) (io_msgs g) l) →
      wp io (let~ _ := kern (OsFileClose fd) in Ret r) Q (s, MkIo (io_ns g1) (io_open g1) (io_in g1) (io_msgs g1) l)).
    { intros r l Hr. apply wp_bind, wp_ghost_kern; [simpl; by rewrite lookup_insert_eq|]. intros b g' ->.
      cbn [wp fst snd]. unfold g1, set_open. simpl. by rewrite delete_insert_id. }
    unfold with_defer. apply wp_bind. apply (wp_send_tap sw slotID conn tapName sentTo want okPrefix ns fd s g1 x Hlen Hi Hx).
    + intros payload mac Hmac Hc. rewrite Hright. apply Hclose. by apply HQ.
    + intros e. specialize (Hclose (Err e) (io_log g)). destruct g. by apply Hclose.
    + intros e payload. rewrite Hright. apply Hclose. apply Hfail.
  - intros e. apply Herr.
  - intros e post g' Hlog Hsub. apply Hbad; [done|done|]. by eexists _, _.
Qed.

Lemma wp_openPortAndSendToConn switchNs g (Q : res OpenPortResult → list SlotItem * host_io → Prop) :
  ns_of (SwitchNetnsName (sx_meta sw)) = n →
  (∀ ns, switchNs = Some ns → io_open g !! ns_handle ns = Some (DNetns n)) →
  (∀ payload mac, GetPortMAC (sc_SwitchMac (sx_cfg sw)) (sc_PortMac (sx_cfg sw)) slotID = Ok mac →
     carries okPrefix (port_meta slotID mac x want) payload →
     Q (Ok (handed_off slotID mac x tapName sentTo want))
       (s, add_log (IoSend conn payload (Some <$> sent_descrs tapName n want) true) g)) →
  (∀ e, Q (Err e) (s, g)) →
  (∀ e payload, Q (Err e) (s, add_log (IoSend conn payload (Some <$> sent_descrs tapName n want) false) g)) →
  (∀ e g', io_log g' = io_log g → io_open g ⊆ io_open g' → restore_broken tapName e → Q (Err e) (s, g')) →
  wp io (openPortAndSendToConn sw switchName slotID conn sentTo want okPrefix switchNs) Q (s, g).
Proof.
  intros Hn Hns HQ Herr Hfail Hbad. unfold openPortAndSendToConn. cbv zeta.
  destruct switchNs as [ns|]; [apply (wp_handoff_body ns); auto|].
  apply wp_mbind, wp_mwrap. unfold GetByName. cbv zeta. apply wp_bind, wp_ghost_call; [done| |].
  2:{ intros e g' ->. cbn [fst snd]. destruct (errors_is e OsErrNotExist); apply Herr. }
  intros st g' ->. cbn [fst snd].
  apply wp_mbind, wp_mwrap, wp_ghost_call; [done| |intros e g' ->; apply Herr].
  intros h g' (Hpos & Hfresh & ->). cbn [map_err fst snd mok wp] in *. rewrite Hn.
  set (g1 := set_open _ g).
  change (wp io (with_defer (NetNS_Close (MkNetNS (SwitchNetnsName (sx_meta sw)) h))
    (handoff_body (MkNetNS (SwitchNetnsName (sx_meta sw)) h))) Q (s, g1)).
  assert (Hclose : ∀ r l, Q r (s, MkIo (io_ns g) (io_open g) (io_in g) (io_msgs g) l) →
    wp io (let~ _ := NetNS_Close (MkNetNS (SwitchNetnsName (sx_meta sw)) h) in Ret r) Q
      (s, MkIo (io_ns g1) (io_open g1) (io_in g1) (io_msgs g1) l)).
  { intros r l Hr. apply wp_bind. unfold NetNS_Close. cbn [ns_handle]. apply wp_ns_close_io.
    { simpl. rewrite lookup_insert_eq. eauto. }
    intros b. unfold g1, set_open. simpl. by rewrite delete_insert_id. }
  unfold with_defer. apply wp_bind, wp_handoff_body.
  - unfold g1. simpl. by rewrite lookup_insert_eq.
  - intros payload mac Hmac Hc. apply Hclose. by apply HQ.
  - intros e. specialize (Hclose (Err e) (io_log g)). destruct g. by apply Hclose.
  - intros e payload. apply Hclose, Hfail.
  - intros e g' Hlog Hsub Hb. assert (io_open g' !! h = Some (DNetns n)) as Hh.
    { eapply lookup_weaken; [|exact Hsub]. unfold g1. simpl. by rewrite lookup_insert_eq. }
    apply wp_bind. unfold NetNS_Close. apply wp_ns_close_io; [cbn [ns_handle]; rewrite Hh; eauto|]. intros r.
    apply Hbad; [done| |done]. simpl. apply (delete_mono _ _ h) in Hsub. unfold g1 in Hsub. simpl in Hsub.
    by rewrite delete_insert_id in Hsub.
Qed.
End handoff.
End send.

(** ** The receiving side *)
Lemma port_meta_ok slotID mac x want :
  mac ≠ [] → metadata_ok (port_meta slotID mac x want).
Proof.
  intros Hmac. unfold metadata_ok, port_meta. cbn [pm_Port pm_MAC pm_InnerIP pm_FDCount pm_NetnsFDCount].
  split_and!; try apply (u32_range (slotID + 1)); try (by destruct want); try lia;
    [by apply mac_string_word|apply ip_string_word].
Qed.
Lemma carries_parses okPrefix m payload :
  metadata_ok m → carries okPrefix m payload →
  0 < slen payload ≤ MaxPayloadSize ∧ ∃ b, StripOKResponse payload = Ok b ∧ ParsePayload b = Ok m.
Proof.
  intros Hm (b & Hb & Hp). pose proof (payload_roundtrip m "" Hm) as H. rewrite Hb, str_app_nil in H.
  destruct H as (Hlen & Hparse & Hstrip & Hok). assert (0 < slen b) as Hpos.
  { destruct b as [|c b]; [|unfold slen; simpl; lia]. exfalso. revert Hb. rewrite Marshal_line by done. cbv zeta.
    by destruct (_ <? _). }
  destruct okPrefix; [|subst; split; [done|]; by exists b].
  rewrite Hp in Hok. destruct Hok as [Hlen' Hs]. split; [|by exists b]. split; [|done].
  destruct payload; [|unfold slen; simpl; lia]. exfalso. change (Ok "" = Ok b) in Hs. simplify_eq.
Qed.

Lemma GetPortMAC_nonempty sw mac slotID m : GetPortMAC sw mac slotID = Ok m → m ≠ [].
Proof.
  unfold GetPortMAC, PortMAC, derive_mac. destruct (IsZeroMAC mac) eqn:E.
  - destruct sw as [|? [|? [|? [|? [|? ?]]]]]; try done. by intros [= <-].
  - intros [= <-]. by destruct mac.
Qed.
Lemma port_meta_recv slotID mac x want okPrefix payload fds :
  mac ≠ [] → carries okPrefix (port_meta slotID mac x want) payload →
  length fds = (if want then 2 else 1)%nat →
  recv_result fds payload =
    Ok (take 1 fds, if want then fds !! 1%nat else None, port_meta slotID mac x want).
Proof.
  intros Hmac Hc Hlen. destruct (carries_parses _ _ _ (port_meta_ok slotID mac x want Hmac) Hc) as (_ & b & Hs & Hp).
  unfold recv_result. rewrite Hs. cbn [map_err res_bind]. rewrite Hp. cbn [map_err res_bind].
  unfold count_error. rewrite Hlen. by destruct want.
Qed.

Definition recv_failed (e : error) : Prop := (∃ e', e = errorw "recvmsg: " e' "") ∨ ancillary_unparsed e.

(** C22: the handoff, from the switch to the receiver.  When
    [openPortAndSendToConn] succeeds on a slot, it sent exactly one message:
    first a queue of the tap device of that port, opened in the switch
    namespace with the virtio header, then that namespace when it was asked
    for.  It left no descriptor open and the thread where it was, and a
    receiver that calls [RecvFdsWithNetns] on that message gets exactly these
    two files and the port's number, MAC and address, unless the receive itself
    fails.  When it fails, at most a message the kernel refused was tried, and
    the host is as before unless the thread could not go back to its
    namespace. *)
Theorem handoff_delivers ns_of sw switchName slotID conn sentTo want okPrefix switchNs x n t :
  ctx_ok sw t.1 → slotID < sx_numSlots sw → slot_at t.1 slotID = Some x →
  ns_of (SwitchNetnsName (sx_meta sw)) = n →
  (∀ ns, switchNs = Some ns → io_open t.2 !! ns_handle ns = Some (DNetns n)) →
  let tapName := TapDeviceName switchName slotID in
  let ds := sent_descrs tapName n want in
  wp (io_sem true ns_of) (openPortAndSendToConn sw switchName slotID conn sentTo want okPrefix switchNs)
    (λ r t', t'.1 = t.1 ∧
       match r with
       | Ok out => ∃ payload mac,
           GetPortMAC (sc_SwitchMac (sx_cfg sw)) (sc_PortMac (sx_cfg sw)) slotID = Ok mac ∧
           out = handed_off slotID mac x tapName sentTo want ∧
           t'.2 = add_log (IoSend conn payload (Some <$> ds) true) t.2 ∧
           ∀ conn' s g ms, io_msgs g = (payload, ds) :: ms →
             wp (io_sem true ns_of) (RecvFdsWithNetns conn')
               (λ r' t'', match r' with
                  | Ok (taps, netns, meta) => ∃ fd, taps = [fd] ∧
                      meta = port_meta slotID mac x want ∧ (is_Some netns ↔ want = true) ∧
                      io_open t''.2 !! fd = Some (tap_queue tapName n) ∧
                      ∀ f, netns = Some f → io_open t''.2 !! f = Some (DNetns n)
                  | Err e => recv_failed e
                  | _ => False
                  end) (s, g)
       | Err e =>
           t'.2 = t.2 ∨ (∃ payload, t'.2 = add_log (IoSend conn payload (Some <$> ds) false) t.2) ∨
           io_log t'.2 = io_log t.2 ∧ restore_broken tapName e
       | _ => False
       end) t.
Proof.
  intros Hctx Hi Hx Hn Hns tapName ds. destruct t as [s g].
  apply (wp_openPortAndSendToConn ns_of sw switchName slotID conn sentTo want okPrefix s x n (ctx_mac _ _ Hctx) Hi Hx
           switchNs g); [done|done| |by auto|by eauto|by auto].
  intros payload mac Hmac Hc. split; [done|]. exists payload, mac. split_and!; [done..|].
  intros conn' s0 g0 ms Hmsgs. apply wp_RecvFdsWithNetns; [intros e; left; by eexists|].
  intros fds ds' buf o' rest Hin Hdel. cbv zeta.
  pose proof (GetPortMAC_nonempty _ _ _ _ Hmac) as Hne.
  destruct (carries_parses _ _ _ (port_meta_ok slotID mac x want Hne) Hc) as ([Hpos Hmax] & _).
  unfold delivered in Hdel. rewrite Hmsgs in Hdel. destruct Hdel as [[= -> ->] ->].
  { split; [done|]. unfold ds, sent_descrs. simpl. destruct want; simpl; lia. }
  pose proof (installs_length _ _ _ _ Hin) as Hlen.
  rewrite (port_meta_recv slotID mac x want okPrefix payload fds Hne Hc)
    by (rewrite Hlen; unfold ds, sent_descrs; by destruct want).
  split_and!; [intros E; lia|intros e; right; by eexists|done|].
  pose proof (installs_eq _ _ _ _ Hin) as ->. destruct Hin as (Hnd & _).
  destruct want; simpl in Hlen.
  - destruct fds as [|fd [|f [|]]]; try done. exists fd. simpl.
    apply NoDup_cons in Hnd as [Hnd _]. assert (f ≠ fd) by set_solver.
    split_and!; [done|done|split; eauto| |intros f' [= <-]].
    + by rewrite <-insert_union_l, lookup_insert_eq.
    + by rewrite <-insert_union_l, lookup_insert_ne, <-insert_union_l, lookup_insert_eq by done.
  - destruct fds as [|fd [|]]; try done. exists fd. simpl.
    split_and!; [done|done|split; [by intros []|done]| |done]. by rewrite <-insert_union_l, lookup_insert_eq.
Qed.

Definition ex_host : host_io := MkIo 0 ∅ "" [] [].
Lemma handoff_delivers_witness :
  slot_at ex_table 1 = Some (default SlotItem_zero (slot_at ex_table 1)) ∧
  wp (io_sem true (λ _, 5%nat)) (openPortAndSendToConn ex_switch "sw0" 1 9 "sock" true true None)
    (λ r t', t'.1 = ex_table) (ex_table, ex_host).
Proof.
  split; [by vm_compute|]. eapply wp_mono.
  - apply (handoff_delivers (λ _, 5%nat) ex_switch "sw0" 1 9 "sock" true true None
      (default SlotItem_zero (slot_at ex_table 1)) 5 (ex_table, ex_host));
      [apply ex_switch_ok|by vm_compute|by vm_compute|done|done].
  - intros r t' [H _]. exact H.
Defined.

(** A host on which everything goes well, to run the sender. *)
#[export] Instance tap_kernel : Kernel unit := λ B e k,
  (match e in kev B return B with
   | OsStat _ => inl true
   | NsGet => inl 10
   | NsGetFromName _ => inl 11
   | NsSet _ | NsClose _ | UnixClose _ | SetNonblock _ | ConnWriteMsg _ _ _ => inl tt
   | UnixOpen _ _ => inl 12
   | IoctlTunSetIff _ name _ => inl name
   | e => refuse e
   end, k).
Lemma handoff_runs :
  ∃ w, run (K := unit) (openPortAndSendToConn ex_switch "sw0" 1 9 "sock" true true None) (MkWorld ex_table tt) =
    Some (Ok (MkOpenPortResult 2 "sw0-t2" "sock" "02:00:5e:0a:80:01" "10.0.0.1" true), w).
Proof. eexists. vm_compute. reflexivity. Qed.
