(* ===== verification/TapServerSpec.v ===== *)
(** * What the tapfd service does to the switch and to its clients *)
From S2P Require Import Prelude Errors GoStrings GoNet BpfTypes Mac Geneve Prog SlotTable Netns.
From S2P Require Import Netlink Config Metadata Loader Context Flock Attach AttachSpec PortSpec.
From S2P Require Import GoText Tapfd TapfdSpec TapfdFd HostIo TapfdFdSpec TapServer HandoffSpec.

(** ** Operations that leave the connections alone *)
Definition same_conns (g g' : host_io) : Prop :=
  io_in g' = io_in g ∧ io_msgs g' = io_msgs g ∧ io_log g' = io_log g.
Lemma same_conns_refl g : same_conns g g.
Proof. done. Qed.
Lemma same_conns_trans g1 g2 g3 : same_conns g1 g2 → same_conns g2 g3 → same_conns g1 g3.
Proof. unfold same_conns. intros (?&?&?) (?&?&?). split_and!; congruence. Qed.

(** Events on nothing but descriptors, devices, maps and slots. *)
Definition off_conn (B : Type) (e : ev B) : Prop :=
  match e with
  | EKern (ConnRead _) => False
  | EKern (ConnWrite _ _) => False
  | EKern (ConnReadMsg _ _ _) => False
  | EKern (ConnWriteMsg _ _ _) => False
  | EKern (ConnClose _) => False
  | _ => True
  end.
Lemma off_conn_within ns_of B (e : ev B) : off_conn B e → within (@io_ok false) (@io_step ns_of) same_conns B e.
Proof.
  destruct e as [| | | |B q]; try done. intros Hq. split; [by destruct q|].
  intros g b g'. destruct q; try done; cbn [io_step]; try (by intros ->);
    destruct b; try (by intros ->).
  all: try (intros (_ & _ & ->); done).
  - intros (n & _ & ->). done.
  - intros [_ ->]. done.
Qed.
Lemma obeys_mono {A} (P P' : ∀ B, ev B → Prop) (p : prog A) :
  (∀ B e, P B e → P' B e) → obeys P p → obeys P' p.
Proof. intros H. induction p as [a|B e k IH]; simpl; naive_solver. Qed.

Ltac off_conn := obeys ltac:(exact I).
#[local] Hint Extern 1 (obeys off_conn (call _)) => split; [exact I|intros []; exact I] : obeys.

Lemma stores_off i ws : obeys off_conn (stores i ws).
Proof. induction ws as [|w ws IH]; [done|]. cbn [stores]. off_conn. Qed.
Lemma UpdateSlotFields_off n i f : (∀ p, obeys off_conn (f p)) → obeys off_conn (UpdateSlotFields n i f).
Proof. intros. unfold UpdateSlotFields. by destruct (GetSlot n i). Qed.
Lemma TryAllocate_off n i ip : obeys off_conn (TryAllocate n i ip).
Proof. unfold TryAllocate, cas. off_conn. Qed.
Lemma TryRelease_off n i ip : obeys off_conn (TryRelease n i ip).
Proof. unfold TryRelease, cas. off_conn. Qed.
Lemma GetInnerIP_off n i : obeys off_conn (GetInnerIP n i).
Proof. unfold GetInnerIP. off_conn. Qed.
Lemma TryUpdateInnerIP_off n i old new : obeys off_conn (TryUpdateInnerIP n i old new).
Proof. unfold TryUpdateInnerIP, cas. off_conn. Qed.
Lemma FindFreeSlot_off n ip : obeys off_conn (FindFreeSlot n ip).
Proof.
  unfold FindFreeSlot. generalize 0. induction (Z.to_nat n) as [|k IH]; intros i; [done|].
  cbn [FindFreeSlot_loop]. apply obeys_bind; [apply TryAllocate_off|]. intros []; [done|apply IH].
Qed.
Lemma Do_off {A} ns (f : M A) : obeys off_conn f → obeys off_conn (Do ns f).
Proof. intros. unfold Do. off_conn. Qed.
Lemma GetByName_off n : obeys off_conn (GetByName n).
Proof. unfold GetByName. off_conn. Qed.
Lemma NetNS_Close_off ns : obeys off_conn (NetNS_Close ns).
Proof. unfold NetNS_Close. off_conn. Qed.
#[local] Hint Resolve stores_off UpdateSlotFields_off TryAllocate_off TryRelease_off GetInnerIP_off TryUpdateInnerIP_off
  FindFreeSlot_off GetByName_off NetNS_Close_off : obeys.
#[local] Hint Extern 2 (obeys off_conn (Do _ _)) => apply Do_off; solve [off_conn] : obeys.
Lemma read_slot_off {A} n i (k : SlotItem → M A) : (∀ x, obeys off_conn (k x)) → obeys off_conn (read_slot n i k).
Proof. intros. unfold read_slot. destruct (GetSlot n i); [|done]. cbn [deref]. off_conn. Qed.
Lemma store_slot_off {A} n i w (k : M A) : obeys off_conn k → obeys off_conn (store_slot n i w k).
Proof. intros. unfold store_slot. destruct (GetSlot n i); [|done]. cbn [deref]. off_conn. Qed.
#[local] Hint Extern 2 (obeys off_conn (read_slot _ _ _)) => apply read_slot_off; solve [off_conn] : obeys.
#[local] Hint Extern 2 (obeys off_conn (store_slot _ _ _ _)) => apply store_slot_off; solve [off_conn] : obeys.
Lemma MoveDevice_off d f t : obeys off_conn (MoveDevice d f t).
Proof. unfold MoveDevice, do_opt. off_conn. Qed.
Lemma GetLinkInNs_off ns n : obeys off_conn (GetLinkInNs ns n).
Proof. unfold GetLinkInNs. off_conn. Qed.
Lemma GetMTUInNs_off ns n : obeys off_conn (GetMTUInNs ns n).
Proof. unfold GetMTUInNs, GetMTU, link_by_name. off_conn. Qed.
#[local] Hint Resolve MoveDevice_off GetLinkInNs_off GetMTUInNs_off : obeys.
Lemma validateAttachMTU_off s i k o : obeys off_conn (validateAttachMTU s i k o).
Proof. unfold validateAttachMTU. off_conn. Qed.
Lemma writeGeneveOpts_off i v : obeys off_conn (writeGeneveOpts i v).
Proof. unfold writeGeneveOpts. off_conn. Qed.
Lemma ResetStats_off n i : obeys off_conn (ResetStats n i).
Proof. unfold ResetStats, GetStats. off_conn. Qed.
#[local] Hint Resolve validateAttachMTU_off writeGeneveOpts_off ResetStats_off : obeys.
Lemma attach_publish_off s opts i ip kind v t : obeys off_conn (attach_publish s opts i ip kind v t).
Proof. unfold attach_publish. off_conn. Qed.
#[local] Hint Resolve attach_publish_off : obeys.
Lemma or_rollback_off {A} n i ip w (p : M A) : obeys off_conn p → obeys off_conn (or_rollback (TryRelease n i ip) w p).
Proof. intros. unfold or_rollback. off_conn. Qed.
#[local] Hint Extern 2 (obeys off_conn (or_rollback _ _ _)) => apply or_rollback_off; solve [off_conn] : obeys.
Lemma with_port_moved_off {A} s opts i kind ip (k : M A) :
  obeys off_conn k → obeys off_conn (with_port_moved s opts i kind (TryRelease (sx_numSlots s) i ip) k).
Proof. intros. unfold with_port_moved. off_conn. Qed.
#[local] Hint Resolve with_port_moved_off : obeys.
Lemma attach_claimed_off s opts v t ip i : obeys off_conn (attach_claimed s opts v t ip i).
Proof.
  unfold attach_claimed. cbv zeta. apply obeys_bind; [auto with obeys|]. intros _. apply read_slot_off. intros x.
  match goal with |- obeys _ (if _ then _ else ?k) => assert (obeys off_conn k) as Hk by off_conn end.
  destruct (_ =? PortKindTap); [|done]. apply read_slot_off. intros y. off_conn.
Qed.
#[local] Hint Resolve attach_claimed_off : obeys.
Lemma Attach_off s opts : obeys off_conn (Attach s opts).
Proof. unfold Attach, attach_claim. off_conn. Qed.
Lemma Detach_off s opts : obeys off_conn (Detach s opts).
Proof. unfold Detach, detach_device, detach_release. off_conn. Qed.
Lemma SetPortUp_off s opts : obeys off_conn (SetPortUp s opts).
Proof. unfold SetPortUp, port_up_commit. off_conn. Qed.

(** ** The semantics of a handler *)
Section io.
Context (ns_of : string → nat).
Notation io := (io_sem false ns_of).

Lemma wp_off_conn {A} (p : prog A) (Q : A → list SlotItem → Prop) t :
  obeys off_conn p → wp alone p Q t.1 → wp io p (λ a t', Q a t'.1 ∧ same_conns t.2 t'.2) t.
Proof.
  intros Hp Hwp. apply wp_ghost_frame; [done|apply same_conns_trans| |done].
  eapply obeys_mono; [apply off_conn_within|exact Hp].
Qed.

(** *** Reading the request line *)
Lemma lacks_app c s t : lacks c (s +:+ t) = lacks c s && lacks c t.
Proof. apply all_chars_app. Qed.

Lemma before_lf a x line left :
  lacks (chr 10) a = true → a +:+ x = line +:+ LF +:+ left → ∃ y, line = a +:+ y.
Proof.
  revert line. induction a as [|d a IH]; intros line Ha E; [by exists line|].
  unfold lacks in Ha. cbn [all_chars] in Ha. apply andb_true_iff in Ha as [Hd Ha].
  destruct line as [|e line].
  - change ("" +:+ (LF +:+ left)) with (String (chr 10) left) in E. rewrite app_cons in E. injection E as -> _.
    by rewrite bool_decide_true in Hd.
  - rewrite !app_cons in E. injection E as -> E. destruct (IH line Ha E) as [y ->]. by exists y.
Qed.

(** The reader stops at the first line feed, or at the end of the stream. *)
Definition line_read (line input left : string) : Prop :=
  lacks (chr 10) line = true ∧ (input = line +:+ LF +:+ left ∨ input = line ∧ left = "").
(** No line of at most 511 bytes without NUL comes first. *)
Definition unreadable (input : string) : Prop :=
  ∀ line left, input = line +:+ LF +:+ left → slen line < RequestMaxLineSize → lacks (chr 0) line = false.
Definition read_post (c : Z) (input : string) (s : list SlotItem) (g : host_io) (r : res string)
    (t' : list SlotItem * host_io) : Prop :=
  t'.1 = s ∧ ∃ left fails, t'.2 = read_to left fails g ∧ (fails = [] ∨ ∃ e, fails = [IoReadFail c e]) ∧
    match r with
    | Ok line => line_read line input left
    | Err e => fails = [IoReadFail c e] ∨ unreadable input
    | _ => False
    end.

Lemma wp_read_request_loop fuel c buf s g :
  (Z.to_nat (RequestMaxLineSize - slen buf) < fuel)%nat → lacks (chr 10) buf = true →
  wp io (read_request_loop fuel c buf) (read_post c (buf +:+ io_in g) s g) (s, g).
Proof.
  revert buf g. induction fuel as [|fuel IH]; intros buf g Hfuel Hbuf; [lia|]. cbn [read_request_loop].
  destruct (slen buf <? RequestMaxLineSize) eqn:Hlen.
  2:{ apply Z.ltb_ge in Hlen. split; [done|]. exists (io_in g), []. split; [destruct g; unfold read_to; by rewrite app_nil_r|].
      split; [by left|]. right. intros line left E Hl. destruct (before_lf _ _ _ _ Hbuf E) as [y ->].
      rewrite slen_app in Hl. unfold slen in *. lia. }
  apply Z.ltb_lt in Hlen. apply wp_bind, wp_ghost_kern; [done|].
  intros [one err] g' (left & -> & Heof & Hone). cbn [fst snd] in *.
  set (fails := match err with Some e => [IoReadFail c e] | None => [] end).
  assert (fails = [] ∨ ∃ e, fails = [IoReadFail c e]) as Hfails by (unfold fails; destruct err; eauto).
  destruct one as [v|].
  - destruct Hone as (a & Hin & ->). destruct (byte_of a =? 10) eqn:H10.
    { split; [done|]. exists left, fails. split_and!; [done|done|]. split; [done|]. left. rewrite Hin. apply Z.eqb_eq in H10.
      rewrite <-(chr_byte_of a), H10. done. }
    assert (lacks (chr 10) (buf +:+ str1 (byte_of a)) = true) as Hbuf'.
    { rewrite lacks_app, Hbuf. unfold str1. rewrite chr_byte_of. unfold lacks. simpl. rewrite andb_true_r.
      apply negb_true_iff, bool_decide_eq_false. intros ->. by vm_compute in H10. }
    assert (buf +:+ io_in g = (buf +:+ str1 (byte_of a)) +:+ left) as Hsplit.
    { rewrite str_app_assoc, Hin. unfold str1. by rewrite chr_byte_of. }
    rewrite Hsplit. destruct (byte_of a =? 0) eqn:H0.
    { split; [done|]. exists left, fails. split_and!; [done|done|]. right. intros line l E _.
      destruct (before_lf _ _ _ _ Hbuf' E) as [y ->]. apply Z.eqb_eq in H0. rewrite !lacks_app, H0.
      change (lacks (chr 0) (str1 0)) with false. by rewrite andb_false_r. }
    destruct err as [e|].
    + destruct (bool_decide (e = sentinel_error IoEOF) && _) eqn:Ee.
      * apply andb_true_iff in Ee as [He _]. apply bool_decide_eq_true in He. subst e.
        rewrite (Heof eq_refl). split; [done|]. exists "", fails. split_and!; [done|done|]. split; [done|]. right.
        by rewrite str_app_nil.
      * split; [done|]. exists left, fails. split_and!; [done|done|]. by left.
    + eapply wp_mono; [apply IH; [|done]|].
      * rewrite slen_app. change (slen (str1 (byte_of a))) with 1. lia.
      * intros r t' (Hs & l & f & Hg & Hf & Hr). split; [done|]. exists l, f. split; [|done].
        rewrite Hg. unfold read_to, fails. simpl. by rewrite app_nil_r.
  - destruct Hone as [[e ->] ->]. destruct (bool_decide (e = sentinel_error IoEOF) && _) eqn:Ee.
    + apply andb_true_iff in Ee as [He _]. apply bool_decide_eq_true in He. subst e.
      pose proof (Heof eq_refl) as Hnil. rewrite Hnil, str_app_nil. split; [done|]. exists "", fails.
      split_and!; [done|done|]. split; [done|]. by right.
    + split; [done|]. exists (io_in g), fails. split_and!; [done|done|]. by left.
Qed.

(** C26: a request reaches the handler.  Take any request that [BuildRequest]
    accepts, whatever its extra text, and any continuation of the stream.  When
    every word of the extra text is [key=value] with a key, the server's reader
    and parser return the operation; as fields exactly the last value given
    for each key that does not name the netns flag; and as that flag the last
    value the extra text gives it, else the caller's; and what follows the
    request is left in the stream.  When some word is not of that form the
    request is refused, after its line was consumed.  The only other error is
    that of a read that failed. *)
Theorem request_delivered op extra want b rest fuel c s g :
  BuildRequest op extra want = Ok b → io_in g = b +:+ rest → (Z.to_nat RequestMaxLineSize < fuel)%nat →
  wp io (let* line := readTapFDRequestLine fuel c in mpure (ParseRequestLine line))
    (λ r t', t'.1 = s ∧
       let words := fields (trim_space extra) in
       match r with
       | Ok req => io_in t'.2 = rest ∧ tr_Op req = op ∧ ∃ kvs, Forall2 token_reads words kvs ∧
           tr_WantNetns req = netns_flag want kvs ∧ ∀ k, tr_Fields req !! k = field_value k kvs
       | Err e => io_log t'.2 = io_log g ++ [IoReadFail c e] ∨
           io_in t'.2 = rest ∧ ∃ tok, tok ∈ words ∧ ∀ kv, ¬ token_reads tok kv
       | _ => False
       end) (s, g).
Proof.
  intros Hb Hin Hfuel. destruct (request_parsed op extra want b Hb) as (line & -> & Hlen & Hlf & Hnul & Hparse).
  assert (slen line < RequestMaxLineSize) as Hshort by (rewrite slen_app in Hlen; change (slen LF) with 1 in Hlen; lia).
  assert (io_in g = line +:+ LF +:+ rest) as E by (by rewrite Hin, str_app_assoc).
  apply wp_mbind. eapply wp_mono; [apply (wp_read_request_loop fuel c "" s g); [done|done]|].
  intros r t' (Hs & left & fails & Hg & _ & Hr). change ("" +:+ io_in g) with (io_in g) in Hr.
  destruct r as [l|e| |]; try done.
  - destruct Hr as [Hl Hr]. cbn [mpure wp].
    assert (l = line ∧ left = rest) as [-> ->].
    { rewrite E in Hr. destruct Hr as [Hr|[Hr _]].
      - destruct (before_lf _ _ _ _ Hlf Hr) as [y ->].
        rewrite str_app_assoc in Hr. apply str_app_inj in Hr. destruct y as [|d y].
        + rewrite str_app_nil. split; [done|]. by injection Hr.
        + injection Hr as <- _. rewrite lacks_app in Hl. apply andb_true_iff in Hl as [_ Hl]. by vm_compute in Hl.
      - rewrite <-Hr in Hl. rewrite !lacks_app in Hl. change (lacks (chr 10) LF) with false in Hl.
        by rewrite andb_false_r in Hl. }
    rewrite Hparse. split; [done|]. cbv zeta. assert (io_in t'.2 = rest) as Hrest by by rewrite Hg.
    pose proof (parse_tokens_spec (fields (trim_space extra)) want ∅) as Htok.
    destruct (parse_tokens _ want ∅) as [[w m]|e| |]; try done; cbn [res_bind]; [|by right].
    destruct Htok as (kvs & H2 & -> & Hm). split_and!; [done|done|]. exists kvs. split_and!; [done|done|].
    intros k. simpl. rewrite Hm. destruct (field_value k kvs); [done|apply lookup_empty].
  - split; [done|]. left. destruct Hr as [->|Hr]; [by rewrite Hg|]. exfalso.
    specialize (Hr line rest E Hshort). rewrite Hnul in Hr. done.
Qed.
End io.

(** ** Undoing a PREPARE *)
Lemma attach_checks_abi s opts v : attach_checks s opts = Ok v → requireAttachmentABI s = Ok tt.
Proof. unfold attach_checks. intros H. invert_ok; by destruct (requireAttachmentABI s) as [[]|e| |]. Qed.

Lemma wp_Detach_skip s port x slots :
  let i := u32 (port - 1) in
  ctx_ok s slots → 1 ≤ port → i < sc_N_ports (sx_cfg s) → slot_at slots i = Some x →
  IsSlotAllocated (si_InnerIp x) = true → requireAttachmentABI s = Ok tt →
  wp alone (Detach s (MkDetachOptions port "" true))
    (λ r slots', r = Ok tt ∧ slots' = set_slot slots i (detached x)) slots.
Proof.
  intros i Hctx Hp Hi Hx Ha Habi. pose proof (ctx_num _ _ Hctx) as Hnum.
  pose proof (u32_range (port - 1)) as [Hi0 _]. fold i in Hi0.
  assert (IsSlotFreeOrReserved (si_InnerIp x) = false) as Hfr.
  { revert Ha. unfold IsSlotAllocated. by destruct (IsSlotFreeOrReserved _). }
  unfold Detach. cbn [do_Port]. fold i. rewrite (proj2 (Z.leb_gt port 0)) by lia. cbv zeta.
  rewrite (proj2 (Z.leb_gt _ i)) by lia. apply wp_mbind. rewrite Habi. cbn [mpure wp].
  apply wp_bind. eapply wp_GetInnerIP; [lia|done|]. rewrite Hfr.
  unfold read_slot. rewrite GetSlot_lt by lia. cbn [deref]. apply wp_bind. eapply wp_load_slot_alone; [done|].
  unfold detach_device. cbn [do_SkipDevice]. rewrite andb_false_r. apply wp_detach_release; [lia|done|done|done].
Qed.

(** Same owners, same devices. *)
Definition same_claims (slots slots' : list SlotItem) : Prop :=
  ∀ k x, slot_at slots k = Some x → ∃ y, slot_at slots' k = Some y ∧ si_InnerIp y = si_InnerIp x ∧ same_device x y.
Lemma same_device_refl x : same_device x x.
Proof. by repeat split. Qed.
Lemma same_claims_refl slots : same_claims slots slots.
Proof. intros k x Hx. exists x. split_and!; [done|done|apply same_device_refl]. Qed.
Lemma same_claims_slot slots slots' i x y :
  slot_at slots i = Some x → slot_at slots' i = Some y → only_slot i slots slots' →
  si_InnerIp y = si_InnerIp x → same_device x y → same_claims slots slots'.
Proof.
  intros Hx Hy Ho Hip Hd k z Hz. destruct (decide (k = i)) as [->|Hne].
  - simplify_eq. eauto.
  - rewrite <-(Ho k Hne) in Hz. exists z. split_and!; [done|done|apply same_device_refl].
Qed.
Lemma detached_device x : same_device x (detached x).
Proof. destruct x. by repeat split. Qed.
Lemma same_device_trans x y z : same_device x y → same_device y z → same_device x z.
Proof. unfold same_device. intros (?&?&?&?&?&?&?) (?&?&?&?&?&?&?). split_and!; congruence. Qed.

(** A context stays well-formed on a table with the same slots. *)
Lemma ctx_ok_slots sw slots slots' :
  ctx_ok sw slots → (∀ k, 0 ≤ k < sc_N_ports (sx_cfg sw) → is_Some (slot_at slots' k)) → ctx_ok sw slots'.
Proof.
  intros [? Hpos ? ? ?] H. constructor; try done.
  destruct (decide (sc_N_ports (sx_cfg sw) = 0)) as [->|Hne]; [lia|].
  destruct (H (sc_N_ports (sx_cfg sw) - 1)) as [x Hx]; [lia|]. apply slot_at_range in Hx. unfold in_slots in Hx. lia.
Qed.
Lemma ctx_ok_only sw slots slots' i y :
  ctx_ok sw slots → slot_at slots' i = Some y → only_slot i slots slots' → ctx_ok sw slots'.
Proof.
  intros Hctx Hy Ho. apply (ctx_ok_slots sw slots); [done|]. intros k Hk.
  destruct (decide (k = i)) as [->|Hne]; [eauto|]. rewrite (Ho k Hne). destruct Hctx.
  destruct (slot_at_in slots k) as [z Hz]; [unfold in_slots; lia|eauto].
Qed.

(** ** Answers *)
Definition is_error_line (b : string) : Prop := ∃ code msg, b = BuildErrorResponse code msg.
Definition is_response (b : string) : Prop := is_error_line b ∨ ∃ f, BuildOKLine f = Ok b.

(** One answer on the connection: a line, or a message with descriptors, or an
    error line after a message that could not be sent. *)
Definition answered (conn : Z) (l : list io_event) : Prop :=
  match l with
  | [IoWrite c b _ _] => c = conn ∧ is_response b
  | [IoSend c _ _ true] => c = conn
  | [IoSend c _ _ false; IoWrite c' b _ _] => c = conn ∧ c' = conn ∧ is_error_line b
  | _ => False
  end.

Section handlers.
Context (ns_of : string → nat).
Notation io := (io_sem false ns_of).
Context (conn : Z).

Definition answers (g : host_io) (r : res unit) (g' : host_io) : Prop :=
  r = Ok tt ∧ ∃ l, io_log g' = io_log g ++ l ∧ answered conn l.

Lemma wp_sendTapFDError code e s g (Q : unit → _ → Prop) :
  (∀ b n er, is_error_line b → Q tt (s, add_log (IoWrite conn b n er) g)) →
  wp io (sendTapFDError conn code e) Q (s, g).
Proof.
  intros HQ. unfold sendTapFDError. apply wp_bind, wp_ghost_kern; [done|]. intros [n er] g' ->.
  apply HQ. by eexists _, _.
Qed.
Lemma wp_answer_error code e s g (Q : res unit → _ → Prop) :
  (∀ b n er, is_error_line b → Q (Ok tt) (s, add_log (IoWrite conn b n er) g)) →
  wp io (answer_error conn code e) Q (s, g).
Proof. intros HQ. unfold answer_error. apply wp_bind, wp_sendTapFDError. intros b n er Hb. by apply HQ. Qed.

Lemma BuildOKLine_returns f : returns (BuildOKLine f).
Proof. unfold BuildOKLine. returns. Qed.
(** An OK line counts as sent only when all of it was taken. *)
Lemma wp_sendTapFDOK fields s g (Q : res unit → _ → Prop) :
  (∀ b, BuildOKLine fields = Ok b → Q (Ok tt) (s, add_log (IoWrite conn b (slen b) None) g)) →
  (∀ e b n er, is_response b → Q (Err e) (s, add_log (IoWrite conn b n er) g)) →
  wp io (sendTapFDOK conn fields) Q (s, g).
Proof.
  intros HQ Herr. unfold sendTapFDOK. pose proof (BuildOKLine_returns fields) as Hret.
  destruct (BuildOKLine fields) as [b|e| |] eqn:Hb; try done.
  - apply wp_bind, wp_ghost_kern; [done|]. intros [n er] g' ->. cbn [fst snd].
    assert (is_response b) as Hr by (right; eauto).
    destruct er as [e|]; [by apply Herr|]. destruct (n =? slen b) eqn:Hn; [|by apply Herr].
    apply Z.eqb_eq in Hn. subst n. by apply HQ.
  - apply wp_bind, wp_ghost_kern; [done|]. intros [n er] g' ->. apply Herr. left. by eexists _, _.
Qed.

Lemma wp_or_answer {A} code (p : M A) k (Q : res unit → _ → Prop) t :
  wp io p (λ r t', match r with
    | Ok a => wp io (k a) Q t'
    | Err e => ∀ b n er, is_error_line b → Q (Ok tt) (t'.1, add_log (IoWrite conn b n er) t'.2)
    | _ => False
    end) t →
  wp io (or_answer conn code p k) Q t.
Proof.
  intros Hp. unfold or_answer. apply wp_bind. eapply wp_mono; [exact Hp|]. intros [a|e| |] [s g] H; try done.
  apply wp_bind, wp_sendTapFDError. exact H.
Qed.
(** The pure checks before an operation. *)
Lemma wp_or_answer_pure {A} code (r : res A) k (Q : res unit → _ → Prop) s g :
  returns r → (∀ a, r = Ok a → wp io (k a) Q (s, g)) →
  (∀ b n er, is_error_line b → Q (Ok tt) (s, add_log (IoWrite conn b n er) g)) →
  wp io (or_answer conn code (mpure r) k) Q (s, g).
Proof. intros Hr Hk Herr. apply wp_or_answer. cbn [mpure wp]. destruct r; try done; auto. Qed.

Lemma log_write b n er g : is_error_line b → answers g (Ok tt) (add_log (IoWrite conn b n er) g).
Proof. intros Hb. split; [done|]. eexists. split; [done|]. split; [done|]. by left. Qed.
Lemma log_response b n er g : is_response b → answers g (Ok tt) (add_log (IoWrite conn b n er) g).
Proof. intros Hb. split; [done|]. eexists. split; [done|]. by split. Qed.
Lemma answers_after g g1 r g' : same_conns g g1 → answers g1 r g' → answers g r g'.
Proof. intros (_ & _ & Hlog) [Hr (l & El & Hl)]. split; [done|]. exists l. by rewrite El, Hlog. Qed.
End handlers.

Lemma opt_field_returns {A} text (zero : A) parse : (∀ t, returns (parse t)) → returns (opt_field text zero parse).
Proof. intros H. unfold opt_field. destruct (bool_decide _); [done|apply H]. Qed.
Lemma parse_uint_returns s base bits : returns (parse_uint s base bits).
Proof. unfold parse_uint. destruct s; [done|]. by destruct (parse_digits _ _ _ _). Qed.
Lemma parse_bool_returns s : returns (parse_bool s).
Proof. unfold parse_bool. returns. Qed.
Lemma atoi_range s n : atoi s = Ok n → n < 2 ^ 63.
Proof.
  unfold atoi. intros H. repeat case_match; simplify_eq; try done;
    repeat match goal with
    | H : (_ <? _) = false |- _ => apply Z.ltb_ge in H
    | H : parse_digits _ _ _ _ = inl _ |- _ => apply parse_digits_range in H; [|lia|lia]
    end; lia.
Qed.
Lemma parseHexUint_returns v b w : returns (parseHexUint v b w).
Proof. unfold parseHexUint. pose proof parse_uint_returns. returns; auto. Qed.
Lemma hex_decode_returns s : returns (hex_decode s).
Proof.
  enough (∀ n s, (String.length s ≤ n)%nat → returns (hex_decode s)) as H by by apply (H (String.length s)).
  intros n. induction n as [|n IH]; intros [|a [|b s']] Hs; simpl in Hs; try lia; try done; cbn [hex_decode].
  - by destruct (hex_val a).
  - destruct (hex_val a); [|done]. destruct (hex_val b); [|done]. apply returns_bind; [apply IH; lia|done].
Qed.
Lemma ParseGeneveOption_returns v : returns (ParseGeneveOption v).
Proof.
  unfold ParseGeneveOption. pose proof parseHexUint_returns. pose proof hex_decode_returns. returns; auto.
Qed.
Lemma ParseGeneveOptions_returns v : returns (ParseGeneveOptions v).
Proof.
  unfold ParseGeneveOptions. destruct (bool_decide _); [done|]. generalize 0.
  induction (split_on "," v) as [|p l IH]; intros i; cbn [ParseGeneveOptions_loop]; [done|].
  apply returns_bind; [apply returns_map_err, ParseGeneveOption_returns|]. intros o.
  apply returns_bind; [apply IH|done].
Qed.
Lemma parse_tokens_returns toks w m : returns (parse_tokens toks w m).
Proof.
  revert w m. induction toks as [|tok toks IH]; intros w m; cbn [parse_tokens]; [done|].
  destruct (cut_str tok "=") as [[k v]|]; [|done]. repeat case_bool_decide; try done; apply IH.
Qed.
Lemma ParseRequestLine_returns l : returns (ParseRequestLine l).
Proof. unfold ParseRequestLine. pose proof parse_tokens_returns. returns; auto. Qed.
Lemma request_port_returns req : returns (request_port req).
Proof. unfold request_port. pose proof (atoi_returns (requestField req ["port"; "PORT"])). cbv zeta. returns. Qed.
Lemma prepareAttachOptions_returns req : returns (prepareAttachOptions req).
Proof.
  pose proof parse_uint_returns. pose proof ParseGeneveOptions_returns. pose proof ParseMAC_returns. pose proof parse_bool_returns.
  unfold prepareAttachOptions, admin_down_field, parse_ip_field, parse_u32_field. cbv zeta.
  destruct (negb _); [|done].
  repeat first [apply returns_bind; [first [apply opt_field_returns; intros ?; try apply returns_map_err; auto|idtac]|intros ?]].
  all: try done; try (by destruct (ParseIP _)).
  destruct (from_option _ _ _); [|done]. by apply returns_map_err.
Qed.

(** ** PREPARE *)
(** The port was claimed for the client, who was told so. *)
Definition prepared (sw : switchContext) (conn : Z) (req : Request) (slots slots' : list SlotItem) (g g' : host_io) : Prop :=
  ∃ opts value total ip i x y out b,
    prepareAttachOptions req = Ok opts ∧ attach_checks sw opts = Ok (value, total, ip) ∧
    0 ≤ i < sc_N_ports (sx_cfg sw) ∧ (∀ j, 0 ≤ j < i → ¬ free_at slots j) ∧
    slot_at slots i = Some x ∧ si_InnerIp x = InnerIPFree ∧ SlotPortKind x = PortKindTap ∧
    slot_at slots' i = Some y ∧ attached opts value ip x y ∧ only_slot i slots slots' ∧
    at_Port out = i + 1 ∧ BuildOKLine (prepare_response out) = Ok b ∧
    io_log g' = io_log g ++ [IoWrite conn b (slen b) None].
(** The client got an answer that names no port of its own, and no port has a
    new owner. *)
Definition not_prepared (conn : Z) (slots slots' : list SlotItem) (g g' : host_io) : Prop :=
  same_claims slots slots' ∧ ∃ b n er, is_response b ∧ io_log g' = io_log g ++ [IoWrite conn b n er].

Lemma PortKind_String_tap k : PortKind_String k = PortKind_String PortKindTap → k = PortKindTap.
Proof. unfold PortKind_String. destruct (k =? PortKindVeth); [done|]. destruct (k =? PortKindTap) eqn:E; [|done]. lia. Qed.
Lemma prepareAttachOptions_auto req opts : prepareAttachOptions req = Ok opts → ao_Port opts = 0.
Proof. unfold prepareAttachOptions. intros H. invert_ok. done. Qed.

Section prepare.
Context (ns_of : string → nat).
Notation io := (io_sem false ns_of).

(** The roll-back after a successful [Attach]. *)
Lemma wp_undo_prepare sw opts value total ip i x y port slots slots' g1 (Q : res unit → list SlotItem * host_io → Prop) :
  ctx_ok sw slots → attach_checks sw opts = Ok (value, total, ip) → 0 ≤ i < sc_N_ports (sx_cfg sw) →
  slot_at slots i = Some x → si_InnerIp x = InnerIPFree → slot_at slots' i = Some y →
  attached opts value ip x y → state_of ip = SAllocated ip → only_slot i slots slots' → port = i + 1 →
  (∀ sl g2, same_claims slots sl → same_conns g1 g2 → Q (Ok tt) (sl, g2)) →
  wp io (undo_prepare sw port) Q (slots', g1).
Proof.
  intros Hctx Hc Hi Hx Hf Hy Hatt Hst Ho -> HQ. unfold undo_prepare.
  pose proof (ctx_max _ _ Hctx) as Hmax. unfold MaxPorts in Hmax.
  assert (u32 (i + 1 - 1) = i) as Hu by (replace (i + 1 - 1) with i by lia; apply u32_small; unfold is_u32; lia).
  eapply wp_mono; [apply wp_off_conn; [apply Detach_off|]|].
  - cbn [fst]. apply (wp_Detach_skip sw (i + 1) y slots'); rewrite ?Hu; try lia.
    + by eapply ctx_ok_only.
    + done.
    + apply IsSlotAllocated_spec. by rewrite (att_ip _ _ _ _ _ Hatt).
    + by eapply attach_checks_abi.
  - intros r [sl g2]. cbn [fst snd]. rewrite Hu. intros [[-> ->] Hsame]. apply HQ; [|done].
    apply (same_claims_slot slots _ i x (detached y)); [done|by eapply slot_at_set| | |].
    + intros k Hk. rewrite slot_at_set_ne by (done || lia). by apply Ho.
    + rewrite Hf. by destruct y.
    + eapply same_device_trans; [apply (att_device _ _ _ _ _ Hatt)|apply detached_device].
Qed.

Lemma wp_handleTapFDPrepare conn sw req slots g (Q : res unit → list SlotItem * host_io → Prop) :
  ctx_ok sw slots →
  (∀ sl g', prepared sw conn req slots sl g g' ∨ not_prepared conn slots sl g g' → Q (Ok tt) (sl, g')) →
  wp io (handleTapFDPrepare conn sw req) Q (slots, g).
Proof.
  intros Hctx HQ.
  assert (Hno : ∀ sl g1 b n er, same_claims slots sl → is_response b → io_log g1 = io_log g →
    Q (Ok tt) (sl, add_log (IoWrite conn b n er) g1)).
  { intros sl g1 b n er Hs Hb Hg. apply HQ. right. split; [done|]. exists b, n, er. simpl. by rewrite Hg. }
  unfold handleTapFDPrepare. apply wp_or_answer_pure; [apply prepareAttachOptions_returns| |].
  2:{ intros b n er Hb. apply Hno; [apply same_claims_refl|by left|done]. }
  intros opts Hopts. apply wp_or_answer.
  eapply wp_mono; [apply wp_off_conn; [apply Attach_off|by apply wp_Attach]|].
  intros r [sl g1] [Hpost Hsame]. cbn [fst snd] in *. assert (Hlog : io_log g1 = io_log g) by apply Hsame.
  unfold attach_post in Hpost. pose proof (prepareAttachOptions_auto _ _ Hopts) as Hport.
  destruct (attach_checks sw opts) as [[[value total] ip]|e| |] eqn:Hc; [|destruct Hpost as [-> ->]|by destruct r..].
  2:{ intros b n er Hb. apply Hno; [apply same_claims_refl|by left|done]. }
  destruct r as [out|e| |]; try done.
  - destruct Hpost as (i & x & y & Hi & Hnames & Hout & Hmode & Hfree & Hx & Hy & Hatt & Hst & Ho).
    assert (si_InnerIp x = InnerIPFree) as Hf by by eapply free_at_ip.
    unfold names_slot in Hnames. rewrite Hport in Hnames. cbn in Hnames.
    assert (Hundo : ∀ g1 (Q : res unit → list SlotItem * host_io → Prop),
      (∀ sl g2, same_claims slots sl → same_conns g1 g2 → Q (Ok tt) (sl, g2)) →
      wp io (undo_prepare sw (at_Port out)) Q (sl, g1)).
    { intros g0 Q0 HQ0. by eapply wp_undo_prepare. }
    case_bool_decide as Hm; cbn [negb].
    + apply wp_bind, wp_sendTapFDOK.
      * intros b Hb. cbn [wp]. apply HQ. left. exists opts, value, total, ip, i, x, y, out, b. rewrite Hmode in Hm.
        apply PortKind_String_tap in Hm. split_and!; try done; try apply Hi. simpl. by rewrite Hlog.
      * intros e b n er Hb. apply wp_bind, Hundo. intros sl2 g2 Hcl Hs2. cbn [wp mok].
        apply HQ. right. split; [done|]. exists b, n, er. split; [done|]. destruct Hs2 as (_ & _ & ->). simpl. by rewrite Hlog.
    + apply wp_bind, Hundo. intros sl2 g2 Hcl Hs2. apply wp_answer_error. intros b n er Hb.
      apply Hno; [done|by left|]. destruct Hs2 as (_ & _ & ->). done.
  - intros b n er Hb. apply Hno; [|by left|done].
    destruct Hpost as [[-> _]|(i & x & y & Hi & _ & Hfree & Hx & Hy & Hrb & Ho)]; [apply same_claims_refl|].
    apply (same_claims_slot slots sl i x y); try done.
    + rewrite (rb_free _ _ Hrb). symmetry. by eapply free_at_ip.
    + apply (rb_device _ _ Hrb).
Qed.

(** C19: PREPARE leaks no port.  For every request, every answer of the kernel
    and every outcome of the writes, the handler answers with exactly one line.
    Either the lowest free port, a tap port, is now attached as the request
    says and the whole OK line that names it was accepted by the connection; or
    no port has a new owner, and every device is in place: when the line could
    not be sent, when the port turned out not to be a tap port, and when the
    attachment failed, the claim was taken back. *)
Theorem prepare_leaks_no_port conn sw req t :
  ctx_ok sw t.1 →
  wp io (handleTapFDPrepare conn sw req)
    (λ r t', r = Ok tt ∧ (prepared sw conn req t.1 t'.1 t.2 t'.2 ∨ not_prepared conn t.1 t'.1 t.2 t'.2)) t.
Proof. destruct t as [s g]. intros Hctx. by apply wp_handleTapFDPrepare. Qed.
End prepare.

(** ** The other handlers *)
Definition mutating (op : string) : Prop := op ∈ [RequestOpPrepare; RequestOpRelease; RequestOpSetPortUp].

Section dispatch.
Context (ns_of : string → nat).
Notation io := (io_sem false ns_of).
Context (conn : Z).
(** A handler answers once; [frozen] handlers leave the table alone. *)
Definition handler_post (frozen : bool) (slots : list SlotItem) (g : host_io) (r : res unit)
    (t' : list SlotItem * host_io) : Prop :=
  answers conn g r t'.2 ∧ (frozen = true → t'.1 = slots).

Lemma handler_error frozen slots g g1 b n er :
  is_error_line b → same_conns g g1 → handler_post frozen slots g (Ok tt) (slots, add_log (IoWrite conn b n er) g1).
Proof. intros Hb Hs. split; [|done]. eapply answers_after; [exact Hs|]. by apply log_write. Qed.
Lemma handler_answer_error code e slots g :
  wp io (answer_error conn code e) (handler_post true slots g) (slots, g).
Proof. apply wp_answer_error. intros b n er Hb. by apply handler_error. Qed.

(** The last step of RELEASE, SET_PORT_UP and INFO. *)
Lemma wp_final_ok fields slots sl g g1 :
  same_conns g g1 →
  wp io (let~ _ := sendTapFDOK conn fields in mok tt) (handler_post (bool_decide (sl = slots)) slots g) (sl, g1).
Proof.
  intros Hs. apply wp_bind, wp_sendTapFDOK.
  - intros b Hb. split; [|by intros ?%bool_decide_eq_true]. eapply answers_after; [exact Hs|].
    apply log_response. right; eauto.
  - intros e b n er Hb. split; [|by intros ?%bool_decide_eq_true]. eapply answers_after; [exact Hs|]. by apply log_response.
Qed.
Lemma handler_thaw frozen slots g r t : handler_post frozen slots g r t → handler_post false slots g r t.
Proof. by intros [H _]. Qed.

Lemma wp_handleTapFDInfo sw slots g :
  wp io (handleTapFDInfo conn sw) (handler_post true slots g) (slots, g).
Proof.
  unfold handleTapFDInfo. eapply wp_mono; [by apply (wp_final_ok _ slots)|]. by rewrite bool_decide_true.
Qed.

(** An operation on the switch, answered with an error or an OK line. *)
Lemma wp_op_then_ok {A} (p : M A) (P : res A → list SlotItem → Prop) code fields slots g :
  obeys off_conn p → wp alone p P slots → (∀ r sl, P r sl → returns r) →
  wp io (or_answer conn code p (λ _, let~ _ := sendTapFDOK conn fields in mok tt)) (handler_post false slots g) (slots, g).
Proof.
  intros Hoff Hp Hret. apply wp_or_answer. eapply wp_mono; [by apply wp_off_conn|].
  intros r [sl g1] [HP Hs]. cbn [fst snd] in *. apply Hret in HP. destruct r as [a|e| |]; try done.
  - eapply wp_mono; [by apply (wp_final_ok _ slots)|]. apply handler_thaw.
  - intros b n er Hb. split; [|done]. eapply answers_after; [exact Hs|]. by apply log_write.
Qed.

Lemma wp_handleTapFDRelease sw req slots g :
  ctx_ok sw slots → wp io (handleTapFDRelease conn sw req) (handler_post false slots g) (slots, g).
Proof.
  intros Hctx. apply wp_or_answer_pure; [apply request_port_returns| |intros b n er Hb; by apply handler_error].
  intros port _. eapply wp_op_then_ok; [apply Detach_off|by apply wp_Detach|]. intros [] sl H; try done; by destruct H.
Qed.

Lemma wp_handleTapFDSetPortUp sw req slots g :
  ctx_ok sw slots → wp io (handleTapFDSetPortUp conn sw req) (handler_post false slots g) (slots, g).
Proof.
  intros Hctx. unfold handleTapFDSetPortUp. cbv zeta.
  assert (Herr : ∀ code e, wp io (answer_error conn code e) (handler_post false slots g) (slots, g)).
  { intros. eapply wp_mono; [apply handler_answer_error|]. apply handler_thaw. }
  destruct (atoi _) as [port|e| |] eqn:Hport; try apply Herr. apply atoi_range in Hport.
  destruct (port <=? 0); [apply Herr|]. destruct (List.find _ _); [apply Herr|].
  apply wp_or_answer_pure; [apply prepareAttachOptions_returns| |intros b n er Hb; by apply handler_error].
  intros network _. eapply wp_op_then_ok; [apply SetPortUp_off|by apply wp_SetPortUp|].
  intros [] sl H; try done; by destruct H.
Qed.

(** Validation reads the slot and changes nothing. *)
Lemma wp_validateOpenPort sw port slots g (Q : res Z → _ → Prop) :
  ctx_ok sw slots →
  (∀ i x, i = u32 (port - 1) → 0 ≤ i < sc_N_ports (sx_cfg sw) → slot_at slots i = Some x →
     SlotPortKind x = PortKindTap → IsSlotAllocated (si_InnerIp x) = true → Q (Ok i) (slots, g)) →
  (∀ e, Q (Err e) (slots, g)) → wp io (validateOpenPort sw port) Q (slots, g).
Proof.
  intros Hctx HQ Herr. pose proof (ctx_num _ _ Hctx) as Hnum. pose proof (ctx_fit _ _ Hctx) as Hfit.
  unfold validateOpenPort. cbv zeta. destruct (port <=? 0); [apply Herr|].
  pose proof (u32_range (port - 1)) as [Hi0 _]. set (i := u32 (port - 1)) in *.
  destruct (sc_N_ports (sx_cfg sw) <=? i) eqn:Hr; [apply Herr|]. apply Z.leb_gt in Hr.
  destruct (slot_at_in slots i) as [x Hx]; [unfold in_slots; lia|].
  unfold read_slot. rewrite GetSlot_lt by lia. cbn [deref].
  apply wp_bind, (wp_ghost_load_slot _ _ i x); [done|]. destruct (SlotPortKind x =? PortKindTap) eqn:Hk; cbn [negb]; [|apply Herr].
  apply wp_bind, (wp_ghost_load_slot _ _ i x); [done|]. destruct (si_Ifindex x =? 0); [apply Herr|].
  apply wp_bind. unfold GetInnerIP. rewrite ptr_lt by lia. apply (wp_ghost_load _ _ i x); [done|].
  destruct (_ || _) eqn:Hf; [apply Herr|]. apply (HQ i x); try done; [lia|].
  unfold IsSlotAllocated, IsSlotFreeOrReserved. by rewrite Hf.
Qed.

Definition netns_held (sw : switchContext) (switchNs : option NetNS) (g : host_io) : Prop :=
  ∀ ns, switchNs = Some ns → io_open g !! ns_handle ns = Some (DNetns (ns_of (SwitchNetnsName (sx_meta sw)))).

Lemma wp_handleTapFDOpen switchName sw switchNs req slots g :
  ctx_ok sw slots → netns_held sw switchNs g →
  wp io (handleTapFDOpen conn switchName sw switchNs req) (handler_post true slots g) (slots, g).
Proof.
  intros Hctx Hns. assert (Herr : ∀ b n er, is_error_line b → handler_post true slots g (Ok tt) (slots, add_log (IoWrite conn b n er) g))
    by (intros; by apply handler_error).
  apply wp_or_answer_pure; [apply request_port_returns| |done]. intros port _.
  apply wp_or_answer, wp_validateOpenPort; [done| |done]. intros i x _ Hi Hx _ _. apply wp_or_answer, io_strict_lax.
  pose proof (ctx_num _ _ Hctx) as Hnum.
  eapply (wp_openPortAndSendToConn ns_of sw switchName i conn _ _ true slots x _ (ctx_mac _ _ Hctx)); try done; [lia|..].
  - intros payload mac _ _. split; [|done]. split; [done|]. by eexists.
  - intros e payload b n er Hb. split; [|done]. split; [done|]. eexists. split; [simpl; by rewrite <-app_assoc|].
    by split_and!.
  - intros e g' Hlog _ _ b n er Hb. split; [|done]. split; [done|]. eexists. split; [simpl; by rewrite Hlog|].
    split; [done|]. by left.
Qed.
End dispatch.

(** ** A connection *)
Section connection.
Context (ns_of : string → nat).
Notation io := (io_sem false ns_of).
Context (conn : Z) (switchName : string) (sw : option switchContext) (switchNs : option NetNS).

(** A request that may change the table: for this switch, which is open, and
    one of the three operations. *)
Definition may_change (req : Request) : Prop :=
  requestField req ["switch"; "vswitch"; "VSWITCH"] = switchName ∧ is_Some sw ∧ mutating (tr_Op req).
#[export] Instance may_change_dec req : Decision (may_change req).
Proof. unfold may_change, mutating. apply _. Defined.

Definition service_ok (slots : list SlotItem) (g : host_io) : Prop :=
  ∀ s, sw = Some s → ctx_ok s slots ∧ netns_held ns_of s switchNs g.

Lemma wp_dispatch req slots g :
  service_ok slots g →
  wp io (dispatch conn switchName sw switchNs req)
    (handler_post conn (bool_decide (¬ may_change req)) slots g) (slots, g).
Proof.
  intros Hok. unfold dispatch. cbv zeta.
  assert (may_change req → bool_decide (¬ may_change req) = false) as Hfz
    by (intros Hm; by apply bool_decide_eq_false; intros Hn; apply Hn).
  generalize dependent (bool_decide (¬ may_change req)). intros fz Hfz.
  assert (Hfrozen : ∀ p, wp io p (handler_post conn true slots g) (slots, g) → wp io p (handler_post conn fz slots g) (slots, g)).
  { intros p Hp. eapply wp_mono; [exact Hp|]. intros r t [H1 H2]. split; auto. }
  assert (Herr : ∀ code e, wp io (answer_error conn code e) (handler_post conn fz slots g) (slots, g)).
  { intros. apply Hfrozen, handler_answer_error. }
  case_bool_decide as Hempty; [apply Herr|].
  case_bool_decide as Hsw; cbn [negb]; [|apply Herr]. unfold may_change in Hfz. destruct sw as [s|] eqn:Es; [|apply Herr].
  destruct (Hok s Es) as [Hctx Hns].
  assert (Hmut : ∀ p, mutating (tr_Op req) → wp io p (handler_post conn false slots g) (slots, g) →
    wp io p (handler_post conn fz slots g) (slots, g)).
  { intros p Hm Hp. rewrite Hfz; [exact Hp|]. split_and!; [done|eauto|done]. }
  case_bool_decide as H1; [apply Hfrozen, wp_handleTapFDInfo|].
  case_bool_decide as H2.
  { apply Hmut; [rewrite H2; apply (bool_decide_unpack _); by vm_compute|]. apply wp_handleTapFDPrepare; [done|]. intros sl g' H.
    split; [|done]. split; [done|].
    destruct H as [(opts & v & tot & ip & i & x & y & out & b & H)|(_ & b & n & er & Hb & Hlog)].
    - destruct_and!. eexists. split; [done|]. split; [done|]. right; eauto.
    - eexists. split; [done|]. by split. }
  case_bool_decide as H3; [by apply Hfrozen, wp_handleTapFDOpen|].
  case_bool_decide as H4; [apply Hmut; [rewrite H4; apply (bool_decide_unpack _); by vm_compute|by apply wp_handleTapFDRelease]|].
  case_bool_decide as H5; [apply Hmut; [rewrite H5; apply (bool_decide_unpack _); by vm_compute|by apply wp_handleTapFDSetPortUp]|apply Herr].
Qed.

Definition read_failures (l : list io_event) : Prop := ∃ es, l = IoReadFail conn <$> es.
Definition conn_post (slots : list SlotItem) (g : host_io) (r : res unit) (t' : list SlotItem * host_io) : Prop :=
  r = Ok tt ∧ (∃ fails l, io_log t'.2 = io_log g ++ fails ++ l ++ [IoClose conn] ∧
                 read_failures fails ∧ answered conn l) ∧
  (t'.1 = slots ∨ ∃ line left req, line_read line (io_in g) left ∧ ParseRequestLine line = Ok req ∧ may_change req).

Lemma wp_deadline b slots g (Q : res unit → list SlotItem * host_io → Prop) :
  (∀ r, returns r → Q r (slots, g)) → wp io (call (ConnSetReadDeadline conn b)) Q (slots, g).
Proof. intros HQ. apply wp_ghost_call; [done| |]; intros x g' ->; by apply HQ. Qed.

Lemma wp_handleTapFDConn fuel slots g :
  (Z.to_nat RequestMaxLineSize < fuel)%nat → service_ok slots g →
  wp io (handleTapFDConn fuel conn switchName sw switchNs) (conn_post slots g) (slots, g).
Proof.
  intros Hfuel Hok. unfold handleTapFDConn, with_defer. apply wp_bind.
  (* closing, after an answer given in a host that the reader left behind *)
  assert (Hclose : ∀ r sl g1 g2 fails, read_failures fails → io_log g1 = io_log g ++ fails → answers conn g1 r g2 →
    (sl = slots ∨ ∃ line left req, line_read line (io_in g) left ∧ ParseRequestLine line = Ok req ∧ may_change req) →
    wp io (let~ _ := call (ConnClose conn) in Ret r) (conn_post slots g) (sl, g2)).
  { intros r sl g1 g2 fails Hf Hg1 [-> (l & Hl & Ha)] Hsl. apply wp_bind, wp_ghost_call; [done| |];
      intros x g' ->; (split; [done|]); (split; [|done]); exists fails, l;
      (split; [simpl; by rewrite Hl, Hg1, !app_assoc|done]). }
  assert (Herr : ∀ g1 fails b n er, read_failures fails → io_log g1 = io_log g ++ fails → is_error_line b →
    wp io (let~ _ := call (ConnClose conn) in Ret (Ok tt)) (conn_post slots g) (slots, add_log (IoWrite conn b n er) g1)).
  { intros g1 fails b n er Hf Hg1 Hb. eapply Hclose; [done|done|by apply log_write|by left]. }
  assert (read_failures []) as Hnil by by exists [].
  apply wp_or_answer, wp_deadline. intros r Hr. destruct r as [[]|e| |]; try done.
  2:{ intros b n er Hb. eapply Herr; [done| |done]. by rewrite app_nil_r. }
  apply wp_or_answer. eapply wp_mono; [by apply (wp_read_request_loop ns_of fuel conn "" slots g)|].
  intros r' t' (Hs & left & fails & Hg & Hf & Hline). destruct t' as [s1 g1]. cbn [fst snd] in Hs, Hg. subst s1.
  change ("" +:+ io_in g) with (io_in g) in Hline.
  assert (read_failures fails) as Hrf by (destruct Hf as [->|[e ->]]; [done|by exists [e]]).
  assert (io_log g1 = io_log g ++ fails) as Hlog by by rewrite Hg.
  destruct r' as [line|e| |]; try done; [|intros b n er Hb; by eapply Herr].
  apply wp_bind, wp_deadline. intros _ _.
  apply wp_or_answer_pure; [apply ParseRequestLine_returns| |intros b n er Hb; by eapply Herr].
  intros req Hreq. eapply wp_mono; [apply wp_dispatch|].
  - intros s Es. destruct (Hok s Es) as [Hctx Hns]. split; [done|]. intros ns Ens. rewrite Hg. by apply Hns.
  - intros r2 [sl g2] [Hans Hfr]. cbn [fst snd] in *. eapply Hclose; [done|done|exact Hans|].
    destruct (decide (may_change req)) as [Hm|Hm].
    + right. by exists line, left, req.
    + left. apply Hfr. by apply bool_decide_eq_true.
Qed.

(** C23: every connection is answered.  Whatever bytes the client sends, however
    the reads, writes and sends fail and whatever the kernel answers, the
    handler ends normally after answering exactly once and closing the
    connection: one response line, or one message with descriptors, or an error
    line after a message that could not be sent.  The slot table can only have
    changed when a PREPARE, RELEASE or SET_PORT_UP request for this switch was
    read. *)
Theorem connection_answered fuel t :
  (Z.to_nat RequestMaxLineSize < fuel)%nat → service_ok t.1 t.2 →
  wp io (handleTapFDConn fuel conn switchName sw switchNs) (conn_post t.1 t.2) t.
Proof. destruct t as [s g]. apply wp_handleTapFDConn. Qed.
End connection.

(** ** Examples *)
Definition ex_extra : string := " switch=sw0  inner_ip=10.0.0.7 want_netns=0 switch=sw1 ".
Lemma request_delivered_witness :
  (∃ b, BuildRequest "PREPARE" ex_extra true = Ok b) ∧
  wp (io_sem false (λ _, 5%nat)) (let* line := readTapFDRequestLine 513 9 in mpure (ParseRequestLine line))
    (λ r t', match r with
             | Ok req => tr_WantNetns req = false ∧ tr_Fields req !! "switch" = Some "sw1"
             | Err e => io_log t'.2 = [IoReadFail 9 e] | _ => False end)
    (ex_table, MkIo 0 ∅ (("TAPFD/1 PREPARE want_netns=1 switch=sw0  inner_ip=10.0.0.7 want_netns=0 switch=sw1" +:+ LF) +:+ "more") [] []).
Proof.
  split; [eexists; by vm_compute|].
  assert (Hwords : fields (trim_space ex_extra) = kv_text <$> [("switch", "sw0"); ("inner_ip", "10.0.0.7"); ("want_netns", "0"); ("switch", "sw1")])
    by by vm_compute.
  eapply wp_mono.
  - apply (request_delivered (λ _, 5%nat) "PREPARE" ex_extra true
      ("TAPFD/1 PREPARE want_netns=1 switch=sw0  inner_ip=10.0.0.7 want_netns=0 switch=sw1" +:+ LF) "more" 513 9 ex_table);
      [by vm_compute|done|by vm_compute; lia].
  - intros r t' [_ H]. cbv zeta in H. rewrite Hwords in H. destruct r as [req|e| |]; try done.
    + destruct H as (_ & _ & kvs & H2 & Hw & Hf). rewrite Hw, Hf.
      assert (kvs = [("switch", "sw0"); ("inner_ip", "10.0.0.7"); ("want_netns", "0"); ("switch", "sw1")]) as ->; [|by vm_compute].
      cbn [fmap list_fmap] in H2. repeat match goal with H : Forall2 _ (_ :: _) _ |- _ => inversion_clear H | H : Forall2 _ [] _ |- _ => inversion_clear H end.
      repeat f_equal; by eapply reads_unique.
    + destruct H as [H|(_ & tok & Htok & Hn)]; [done|]. exfalso. apply list_elem_of_fmap in Htok as (kv & -> & Hkv).
      apply (Hn kv). assert (Forall (λ kv, token_reads (kv_text kv) kv)
        [("switch", "sw0"); ("inner_ip", "10.0.0.7"); ("want_netns", "0"); ("switch", "sw1")]) as Hall
        by (repeat constructor; done).
      by eapply Forall_forall in Hall.
Defined.

Definition ex_prepare : Request :=
  MkRequest RequestVersion RequestOpPrepare false (<["switch" := "sw0"]> (<["inner_ip" := "10.0.0.7"]> ∅)).
Lemma prepare_leaks_no_port_witness :
  wp (io_sem false (λ _, 5%nat)) (handleTapFDPrepare 9 ex_switch ex_prepare) (λ r t', r = Ok tt) (ex_table, ex_host).
Proof.
  eapply wp_mono; [apply (prepare_leaks_no_port (λ _, 5%nat) 9 ex_switch ex_prepare (ex_table, ex_host)), ex_switch_ok|].
  intros r t' [H _]. exact H.
Defined.

Lemma connection_answered_witness :
  wp (io_sem false (λ _, 5%nat)) (handleTapFDConn 513 9 "sw0" (Some ex_switch) None)
    (conn_post 9 "sw0" (Some ex_switch) ex_table ex_host) (ex_table, ex_host).
Proof.
  apply (connection_answered (λ _, 5%nat) 9 "sw0" (Some ex_switch) None 513 (ex_table, ex_host)); [by vm_compute; lia|].
  intros s [= <-]. split; [apply ex_switch_ok|done].
Defined.

(** A client that sends the given bytes, and keeps what it is sent. *)
#[export] Instance client_kernel : Kernel (string * list string) := λ B e k,
  match e in kev B return B * (string * list string) with
  | ConnRead _ => match k.1 with
                  | String c rest => ((Some (byte_of c), None), (rest, k.2))
                  | "" => ((None, Some (sentinel_error IoEOF)), k)
                  end
  | ConnWrite _ b => ((slen b, None), (k.1, k.2 ++ [b]))
  | ConnSetReadDeadline _ _ | ConnClose _ => (inl tt, k)
  | MapUpdate _ _ _ _ => (inl tt, k)
  | e => (refuse e, k)
  end.
Definition tap_slot : SlotItem := write_slot (WMode PortKindTap) (write_slot (WIfindex 7) SlotItem_zero).
Definition ask (table : list SlotItem) (line : string) : option (list string * list Z) :=
  match run (K := string * list string) (handleTapFDConn 513 9 "sw0" (Some ex_switch) None) (MkWorld table (line +:+ LF, [])) with
  | Some (Ok tt, MkWorld t (_, out)) => Some (out, si_InnerIp <$> t)
  | _ => None
  end.

(** A whole exchange: prepare, then a mistake, then release. *)
Lemma exchange_runs :
  ask (replicate 4 tap_slot) "TAPFD/1 PREPARE switch=sw0 inner_ip=10.0.0.7" =
    Some (["TAPFD/1 OK port=1 floating_ip=100.64.0.0 mac=02:00:5e:0a:80:00 ip=10.0.0.7 mode=tap" +:+ LF], [167772167; 0; 0; 0]) ∧
  ask (replicate 4 tap_slot) "TAPFD/1 RELEASE switch=sw0 port=3" =
    Some (["TAPFD/1 ERR code=PORT_UNAVAILABLE message=port_3:_port_not_attached" +:+ LF], [0; 0; 0; 0]) ∧
  ask [tap_slot; write_slot (WFlags 1) (set_InnerIp 167772167 tap_slot); tap_slot; tap_slot] "TAPFD/1 RELEASE switch=sw0 port=2" =
    Some (["TAPFD/1 OK port=2 released=1" +:+ LF], [0; 0; 0; 0]).
Proof. vm_compute. auto. Qed.

(** PREPARE takes the lowest free port whatever its kind: on a switch whose
    lowest free port is a veth one, it fails although tap ports are free. *)
Lemma prepare_ignores_mode :
  ask (SlotItem_zero :: replicate 3 tap_slot) "TAPFD/1 PREPARE switch=sw0 inner_ip=10.0.0.7" =
    Some (["TAPFD/1 ERR code=PORT_INVALID message=port_1_is_veth,_not_tap" +:+ LF], [0; 0; 0; 0]).
Proof. by vm_compute. Qed.
