(* ===== verification/GoNetSpec.v ===== *)
(** * The address parsers produce bytes

    Every number that a text can put into an address, a mask or a hardware
    address fits its byte. *)
From S2P Require Import Prelude Errors GoStrings GoNet BpfTypes.

#[local] Notation bytes := (Forall is_u8).

Lemma dec_digit_range c d : dec_digit c = Some d → 0 ≤ d < 10.
Proof.
  unfold dec_digit. destruct (digit_val c) as [v|] eqn:E; [|done]. apply digit_val_nonneg in E.
  destruct (v <? 10) eqn:?; [|done]. intros [= <-]. lia.
Qed.
Lemma hex_val_range c d : hex_val c = Some d → 0 ≤ d < 16.
Proof.
  unfold hex_val. destruct (digit_val c) as [v|] eqn:E; [|done]. apply digit_val_nonneg in E.
  destruct (v <? 16) eqn:?; [|done]. intros [= <-]. lia.
Qed.

Lemma parse_octet_u8 s : ∀ k v r, 0 ≤ v ≤ 255 → parse_octet k v s = Some r → is_u8 r.
Proof.
  unfold is_u8. induction s as [|c s IH]; intros k v r Hv; cbn [parse_octet].
  { destruct (bool_decide _); [done|]. intros [= <-]. lia. }
  destruct (dec_digit c) as [d|] eqn:Hd; [|done]. apply dec_digit_range in Hd.
  destruct (_ && _); [done|]. cbv zeta. destruct (255 <? v * 10 + d) eqn:E; [done|]. apply IH. lia.
Qed.
Lemma parse_v4_bytes s l : parse_v4 s = Some l → bytes l.
Proof.
  unfold parse_v4. destruct (split_on "." s) as [|a [|b [|c [|d [|]]]]]; try done.
  destruct (parse_octet 0 0 a) eqn:Ha, (parse_octet 0 0 b) eqn:Hb, (parse_octet 0 0 c) eqn:Hc,
    (parse_octet 0 0 d) eqn:Hd; try done.
  intros [= <-]. repeat constructor; (eapply parse_octet_u8; [|done]; lia).
Qed.

Lemma parse_group_range s : ∀ off acc r, (off ≤ 4)%nat → 0 ≤ acc < 16 ^ Z.of_nat off →
  parse_group off acc s = Some r → 0 ≤ r.1.2 < 2 ^ 16.
Proof.
  assert (∀ off acc, (off ≤ 4)%nat → 0 ≤ acc < 16 ^ Z.of_nat off → 0 ≤ acc < 2 ^ 16) as Hend.
  { intros off acc Hoff Hacc. change (2 ^ 16) with (16 ^ 4).
    pose proof (Z.pow_le_mono_r 16 (Z.of_nat off) 4). lia. }
  induction s as [|c s IH]; intros off acc r Hoff Hacc; cbn [parse_group].
  { intros [= <-]. by eapply Hend. }
  destruct (hex_val c) as [d|] eqn:Hd; [|intros [= <-]; by eapply Hend].
  apply hex_val_range in Hd. case_bool_decide; [done|]. apply IH; [lia|].
  rewrite Nat2Z.inj_succ, Z.pow_succ_r by lia. lia.
Qed.
Lemma group_bytes acc : 0 ≤ acc < 2 ^ 16 → bytes [acc / 256; acc mod 256].
Proof.
  intros H. unfold is_u8. repeat constructor; try (apply Z.mod_pos_bound; lia);
    [apply Z.div_pos; lia|apply Z.div_lt_upper_bound; lia].
Qed.

Lemma parse_v6_loop_bytes fuel : ∀ ip ell s r, bytes ip → parse_v6_loop fuel ip ell s = Some r → bytes r.1.1.
Proof.
  induction fuel as [|fuel IH]; intros ip ell s r Hip; cbn [parse_v6_loop]; [by intros [= <-]|].
  case_bool_decide; [by intros [= <-]|].
  destruct (parse_group 0 0 s) as [[[off acc] rest]|] eqn:Hg; [|done]. destruct off as [|off]; [done|].
  apply parse_group_range in Hg; [|lia|simpl; lia]. cbn [fst snd] in Hg. apply group_bytes in Hg.
  destruct rest as [|c r']; [intros [= <-]; by apply Forall_app_2|].
  case_bool_decide.
  - destruct (_ && _); [done|]. case_bool_decide; [done|].
    destruct (parse_v4 s) as [q|] eqn:Hq; [|done]. apply parse_v4_bytes in Hq. intros [= <-]. by apply Forall_app_2.
  - case_bool_decide; [|done]. cbv zeta. assert (bytes (ip ++ [acc / 256; acc mod 256])) as Hip' by by apply Forall_app_2.
    destruct r' as [|c2 r2]; [done|]. case_bool_decide; [|by apply IH].
    destruct ell; [done|]. destruct r2; [by intros [= <-]|]. by apply IH.
Qed.
Lemma parse_v6_bytes s l : parse_v6 s = Some l → bytes l.
Proof.
  assert (bytes (replicate 16 0)) as Hz by (apply Forall_replicate; unfold is_u8; lia).
  assert (∀ r, match r with Some (ip, _, _) => bytes ip | None => True end →
    match r with
    | Some (ip, ell, "") =>
        if bool_decide (length ip < 16)%nat then
          match ell with
          | Some k => Some (take k ip ++ replicate (16 - length ip) 0 ++ drop k ip)
          | None => None
          end
        else match ell with Some _ => None | None => Some ip end
    | _ => None
    end = Some l → bytes l) as Hfin.
  { intros [[[ip ell] rest]|] Hip; [|done]. destruct rest; [|done]. case_bool_decide.
    - destruct ell as [k|]; [|done]. intros [= <-]. apply Forall_app_2; [by apply Forall_take|].
      apply Forall_app_2; [|by apply Forall_drop]. apply Forall_replicate. unfold is_u8. lia.
    - destruct ell; [done|]. by intros [= <-]. }
  assert (∀ ell s, match parse_v6_loop 9 [] ell s with Some (ip, _, _) => bytes ip | None => True end) as Hl.
  { intros ell t. destruct (parse_v6_loop 9 [] ell t) as [[[ip e] r]|] eqn:E; [|done].
    by apply parse_v6_loop_bytes in E. }
  unfold parse_v6. cbv zeta. destruct (cut_prefix "::" s) as [[|c r]|]; [by intros [= <-]|apply Hfin, Hl..].
Qed.
Lemma parse_addr_bytes s l : parse_addr s = Some l → bytes l.
Proof.
  unfold parse_addr. destruct (addr_mark s); [|done]. case_bool_decide; [apply parse_v4_bytes|].
  case_bool_decide; [apply parse_v6_bytes|done].
Qed.
Lemma to16_bytes l : bytes l → bytes (to16 l).
Proof.
  intros Hl. unfold to16. case_bool_decide; [|done]. apply Forall_app_2; [|done].
  repeat constructor; unfold is_u8; lia.
Qed.
Lemma ParseIP_ok s : ip_ok (ParseIP s).
Proof.
  unfold ParseIP, ip_ok. destruct (parse_addr s) as [l|] eqn:E; [|constructor]. simpl.
  by eapply to16_bytes, parse_addr_bytes.
Qed.

Lemma mask_bytes_bytes n : ∀ ones, bytes (mask_bytes n ones).
Proof.
  induction n as [|n IH]; intros ones; cbn [mask_bytes]; constructor; [|apply IH].
  unfold is_u8. destruct (8 <=? ones) eqn:?; [lia|]. destruct (0 <? ones) eqn:?; [|lia].
  assert (0 < 2 ^ (8 - ones)) by (apply Z.pow_pos_nonneg; lia).
  assert (2 ^ (8 - ones) ≤ 2 ^ 8) by (apply Z.pow_le_mono_r; lia). lia.
Qed.
Lemma land_u8 a b : is_u8 a → is_u8 (Z.land a b).
Proof.
  intros Ha. unfold is_u8 in *. rewrite <-(Z.mod_small a (2 ^ 8)) by done. rewrite <-Z.land_ones by lia.
  rewrite <-Z.land_assoc, (Z.land_comm (Z.ones 8)), Z.land_assoc, Z.land_ones by lia. apply Z.mod_pos_bound. lia.
Qed.
Lemma zip_land_bytes l m : bytes l → bytes (zip_with Z.land l m).
Proof. intros Hl. revert m. induction Hl; intros [|b m]; simpl; constructor; auto using land_u8. Qed.
Lemma ParseCIDR_ok s ip n : ParseCIDR s = Ok (ip, n) → ip_ok ip ∧ ip_ok (net_ip n) ∧ bytes (net_mask n).
Proof.
  unfold ParseCIDR. destruct (cut_str s "/") as [[addr mask]|]; [|done].
  destruct (parse_addr addr) as [l|] eqn:E; [|done]. apply parse_addr_bytes, to16_bytes in E. cbv zeta.
  destruct mask; [done|]. destruct (dtoi _ _); [|done]. destruct (_ <? _); [done|]. intros [= <- <-].
  unfold ip_ok, ip_mask. simpl. split_and!; [done| |apply mask_bytes_bytes].
  apply zip_land_bytes. case_match; [by apply Forall_drop|done].
Qed.
Lemma MaskToUint32_range m : bytes m → is_u32 (MaskToUint32 m).
Proof.
  intros Hm. assert (∀ a b c d, bytes [a; b; c; d] → is_u32 (be32 a b c d)) as Hbe.
  { intros a b c d. rewrite !Forall_cons. intros (Ha & Hb & Hc & Hd & _). rewrite be32_add by done.
    unfold is_u8, is_u32 in *. lia. }
  unfold MaskToUint32. repeat (case_match; try (unfold is_u32; lia)); subst; apply Hbe; [done|].
  by apply (Forall_drop _ 12) in Hm.
Qed.

Lemma xtoi2_u8 a b v : xtoi2 a b = Some v → is_u8 v.
Proof.
  unfold xtoi2, is_u8. destruct (hex_val a) as [x|] eqn:Ha, (hex_val b) as [y|] eqn:Hb; try done.
  apply hex_val_range in Ha, Hb. intros [= <-]. lia.
Qed.
Lemma mac_pairs_bytes n sep s l : mac_pairs n sep s = Some l → bytes l.
Proof.
  revert s l. induction n as [|n IH]; intros s l; [destruct s; simpl; [by intros [= <-]|done]|].
  cbn [mac_pairs]. intros H. repeat (case_match; simplify_eq; try done);
    rewrite ?Forall_cons, ?Forall_nil; split_and?; eauto using xtoi2_u8.
Qed.
Lemma mac_quads_bytes n s l : mac_quads n s = Some l → bytes l.
Proof.
  revert s l. induction n as [|n IH]; intros s l; [by destruct s|].
  cbn [mac_quads]. intros H. repeat (case_match; simplify_eq; try done);
    rewrite ?Forall_cons, ?Forall_nil; split_and?; eauto using xtoi2_u8.
Qed.
Lemma ParseMAC_bytes s m : ParseMAC s = Ok m → bytes m.
Proof.
  unfold ParseMAC. cbv zeta. match goal with |- match ?p with _ => _ end = _ → _ => destruct p as [l|] eqn:E end; [|done].
  intros [= <-]. repeat (case_match; try done); eauto using mac_pairs_bytes, mac_quads_bytes.
Qed.
