(* ===== verification/Typed.v ===== *)
(** * Every value fits its field

    The slot memory is shared with the datapath, which reads fixed-width
    words.  Here every store of the control plane is shown to fit the field it
    goes to, for typed options, for the texts of the metadata, and for
    whatever bytes the clients of the provider socket send. *)
From S2P Require Import Prelude Errors GoStrings GoText GoNet GoNetSpec BpfTypes Mac Geneve Prog SlotTable Interleave Netns.
From S2P Require Import Netlink Config MgmtService Metadata Loader Context Flock Attach AttachSpec Provision ProvisionSpec.
From S2P Require Import Stop StopSpec PortSpec Footprint Safety Tapfd TapfdFd HostIo TapfdFdSpec TapServer.
#[local] Notation bytes := (Forall is_u8).

(** ** Field widths of vswitchSlotItem *)
Definition mac_typed (m : list Z) : Prop := length m = 6%nat ∧ bytes m.
Record cidr_typed (c : MgmtCidr) : Prop := {
  ct_ip : is_u32 (mc_Ip c); ct_mask : is_u32 (mc_Mask c); ct_ifindex : is_u32 (mc_Ifindex c);
  ct_mac : mac_typed (mc_MgmtMac c);
}.
Record slot_typed (x : SlotItem) : Prop := {
  st_ifindex : is_u32 (si_Ifindex x); st_ip : is_u32 (si_InnerIp x);
  st_tifindex : is_u32 (si_TransitIfindex x); st_tip : is_u32 (si_TransitIp x);
  st_gateway : is_u32 (si_TransitGatewayIp x); st_vni : is_u32 (si_TransitGeneveVni x);
  st_mac : mac_typed (si_TransitMac x); st_mode : is_u8 (si_Mode x); st_opts : is_u8 (si_GeneveOptsLen x);
  st_count : is_u32 (si_MgmtCidrCount x); st_cidr0 : cidr_typed (si_MgmtCidrs0 x);
  st_generation : is_u32 (si_Generation x); st_flags : is_u32 (si_Flags x);
  st_ext : length (si_MgmtCidrsExt x) = 2%nat ∧ Forall cidr_typed (si_MgmtCidrsExt x);
  st_ready : is_u32 (si_StatsReady x);
}.
#[export] Instance mac_typed_dec m : Decision (mac_typed m).
Proof. unfold mac_typed. apply _. Defined.
#[export] Instance cidr_typed_dec c : Decision (cidr_typed c).
Proof.
  refine (cast_if (decide (is_u32 (mc_Ip c) ∧ is_u32 (mc_Mask c) ∧ is_u32 (mc_Ifindex c) ∧ mac_typed (mc_MgmtMac c)))).
  - abstract (destruct_and!; by constructor).
  - abstract (intros []; naive_solver).
Defined.

Definition write_typed (w : slot_write) : Prop :=
  match w with
  | WIfindex v | WTransitIfindex v | WTransitIp v | WTransitGatewayIp v | WTransitGeneveVni v
  | WGeneration v | WFlags v | WStatsReady v | WMgmtCidrCount v => is_u32 v
  | WTransitMac m => mac_typed m
  | WMode v | WGeneveOptsLen v => is_u8 v
  | WMgmtCidrs0 c => cidr_typed c
  | WMgmtCidrsExt j c => (j < 2)%nat ∧ cidr_typed c
  end.
Notation ev_typed := (ev_fits write_typed (λ _ new, is_u32 new)).
Definition ans_typed {B} (e : ev B) : B → Prop :=
  match e in ev B return B → Prop with
  | ELoadIP _ => is_u32
  | ELoadSlot _ => slot_typed
  | _ => λ _, True
  end.
(** A program run by itself, the memory answering typed values. *)
Definition typed_sem : sem unit := MkSem (λ B e _, ev_typed B e) (λ B e _ b _, ans_typed e b).

(** ** What the kernel keeps of a store *)
Lemma write_slot_typed w x : write_typed w → slot_typed x → slot_typed (write_slot w x).
Proof.
  intros Hw []. destruct x, w; simpl in *; try (by constructor).
  destruct Hw as [Hj Hc]. constructor; simpl; try done. destruct st_ext0 as [Hl Hf]. split; [by rewrite length_insert|].
  by apply Forall_insert.
Qed.
Lemma set_InnerIp_typed ip x : is_u32 ip → slot_typed x → slot_typed (set_InnerIp ip x).
Proof. intros Hip []. destruct x. simpl in *. by constructor. Qed.
Lemma slot_at_typed s i x : Forall slot_typed s → slot_at s i = Some x → slot_typed x.
Proof. intros Hs Hx. unfold slot_at in Hx. destruct (i <? 0); [done|]. by eapply Forall_lookup_1. Qed.

Lemma mem_step_typed {B} (e : ev B) s b s' :
  ev_typed B e → Forall slot_typed s → mem_step e s = Some (b, s') → Forall slot_typed s' ∧ ans_typed e b.
Proof.
  intros He Hs. destruct e as [i|i old new|i|i w|C q]; simpl; [..|done];
    destruct (slot_at s i) as [x|] eqn:Hx; try done; pose proof (slot_at_typed _ _ _ Hs Hx) as Hxt.
  - intros [= <- <-]. split; [done|apply Hxt].
  - destruct (_ =? _); intros [= <- <-]; split; try done. by apply Forall_insert, set_InnerIp_typed.
  - by intros [= <- <-].
  - intros [= <- <-]. split; [|done]. by apply Forall_insert, write_slot_typed.
Qed.

(** ** Pools *)
Definition well_typed {A} (p : prog A) : Prop := wp typed_sem p (λ _ _, True) tt.

Lemma typed_pool_step {A} (ps ps' : list (prog A)) t t' :
  Forall well_typed ps → Forall slot_typed t → pool_step (ps, t) (ps', t') →
  Forall well_typed ps' ∧ Forall slot_typed t'.
Proof.
  intros Hps Ht Hstep. inversion Hstep as [? ? p B e k b ? Hp Hmem|? ? p B e k b Hp]; subst;
    destruct (proj1 (Forall_lookup _ _) Hps _ _ Hp) as [Hok Hk].
  - destruct (mem_step_typed e t b t' Hok Ht Hmem) as [Ht' Hb]. split; [|done]. apply Forall_insert; [done|].
    by apply (Hk b tt).
  - split; [|done]. apply Forall_insert; [done|]. by apply (Hk b tt).
Qed.
Lemma typed_pool {A} (ps ps' : list (prog A)) t t' :
  Forall well_typed ps → Forall slot_typed t → rtc pool_step (ps, t) (ps', t') → Forall slot_typed t'.
Proof.
  intros Hps Ht Hsteps. remember (ps, t) as c eqn:Ec. remember (ps', t') as c' eqn:Ec'. revert ps t ps' t' Ec Ec' Hps Ht.
  induction Hsteps as [c|c [p1 t1] c' Hs _ IH]; intros ps t ps' t' Ec Ec' Hps Ht.
  - rewrite Ec in Ec'. by simplify_eq.
  - subst c. destruct (typed_pool_step _ _ _ _ Hps Ht Hs). by eapply IH.
Qed.

(** *** Programs whose events are typed whatever the answers *)
Lemma wp_obeys_typed {A} (p : prog A) (Q : A → unit → Prop) u :
  obeys ev_typed p → (∀ a, Q a tt) → wp typed_sem p Q u.
Proof.
  intros Hp HQ. revert u. induction p as [a|B e k IH]; intros []; [apply HQ|]. destruct Hp as [He Hk].
  split; [exact He|]. intros b [] _. by apply IH.
Qed.
Lemma obeys_well_typed {A} (p : prog A) : obeys ev_typed p → well_typed p.
Proof. intros. by apply wp_obeys_typed. Qed.

(** ** Typed requests *)
#[export] Instance typed_class : event_class write_typed (λ _ new, is_u32 new).
Proof.
  assert (is_u32 0 ∧ is_u32 1 ∧ is_u8 0 ∧ is_u32 InnerIPFree ∧ is_u32 InnerIPReserved ∧ is_u32 PortFUp)
    as (? & ? & ? & ? & ? & ?) by (apply (bool_decide_unpack _); by vm_compute).
  constructor; simpl; try done; try by intros v [->| ->].
Qed.
#[export] Instance typed_clears : clears_prefixes write_typed.
Proof. assert (cidr_typed MgmtCidr_zero) by (apply (bool_decide_unpack _); by vm_compute). unfold clears_prefixes, write_typed, is_u32. split_and!; try done; lia. Qed.

Record attach_typed (opts : AttachOptions) : Prop := {
  at_inner : ip_ok (ao_InnerIP opts); at_gateway : ip_ok (ao_TransitGatewayIP opts);
  at_vni : is_u32 (ao_TransitGeneveVNI opts); at_mac : bytes (ao_TransitMAC opts);
  at_gen : is_u32 (ao_Generation opts);
}.
Record port_up_typed (opts : PortUpOptions) : Prop := {
  pt_inner : ip_ok (po_InnerIP opts); pt_gateway : ip_ok (po_TransitGatewayIP opts);
  pt_vni : is_u32 (po_TransitGeneveVNI opts); pt_mac : bytes (po_TransitMAC opts);
}.

Lemma mac_typed_zero : mac_typed mac_zero.
Proof. apply (bool_decide_unpack _). by vm_compute. Qed.
Lemma mac_typed_copy m : bytes m → (6 ≤ length m)%nat → mac_typed (copy_into mac_zero m).
Proof.
  intros Hm Hl. unfold copy_into. change (length mac_zero) with 6%nat. split.
  - rewrite length_app, length_take, length_drop. change (length mac_zero) with 6%nat. lia.
  - apply Forall_app_2; [by apply Forall_take|]. apply Forall_drop, mac_typed_zero.
Qed.
Lemma marshal_len_typed loc tlv opts v t : marshalGeneveOptions loc tlv opts = Ok (v, t) → is_u8 (gv_Len v).
Proof.
  unfold marshalGeneveOptions. rewrite res_bind_ok. intros ([v' off] & _ & H). case_match; [done|].
  injection H as <- <-. simpl. auto with go.
Qed.
Lemma attach_checks_len s opts v t ip : attach_checks s opts = Ok (v, t, ip) → is_u8 (gv_Len v).
Proof.
  unfold attach_checks. intros H. invert_ok;
    match goal with H : marshalGeneveOptions _ _ _ = Ok _ |- _ => by apply marshal_len_typed in H end.
Qed.
Lemma port_up_checks_typed s opts ip v t :
  port_up_typed opts → port_up_checks s opts = Ok (ip, (v, t)) → is_u32 ip ∧ is_u8 (gv_Len v).
Proof.
  intros [Hin _ _ _]. unfold port_up_checks. intros H. invert_ok.
  repeat match goal with
  | H : marshalGeneveOptions _ _ _ = Ok _ |- _ => apply marshal_len_typed in H
  | H : validateAttachmentAddresses _ _ _ = Ok _ |- _ => apply validateAttachmentAddresses_ok in H as [-> _]
  end. auto with go.
Qed.
Lemma mac_write_typed mac : bytes mac → Forall write_typed
  (if bool_decide (6 ≤ length mac)%nat then [WTransitMac (copy_into mac_zero mac)] else []).
Proof. intros Hm. case_bool_decide; constructor; [by apply mac_typed_copy|done]. Qed.

Lemma Attach_typed s opts : attach_typed opts → obeys ev_typed (Attach s opts).
Proof.
  intros [Hin Hgw Hvni Hmac Hgen]. apply Attach_fits; [apply _|]. intros v t ip Hc.
  pose proof (attach_checks_len _ _ _ _ _ Hc) as Hlen. apply attach_checks_ip in Hc as [-> Hst].
  constructor; simpl; [intros E; by rewrite E in Hst|by apply IPToUint32_range| |done].
  unfold claim_writes. apply Forall_app_2; [|by apply mac_write_typed].
  assert (is_u32 (match ao_TransitGatewayIP opts with
                  | Some _ => IPToUint32 (ao_TransitGatewayIP opts) | None => 0 end)) as Hg.
  { destruct (ao_TransitGatewayIP opts); [by apply IPToUint32_range|unfold is_u32; lia]. }
  repeat apply Forall_cons_2; try apply Forall_nil_2; simpl; try done; try (unfold is_u32, is_u8; lia).
  apply mac_typed_zero.
Qed.
Lemma SetPortUp_typed s opts : port_up_typed opts → obeys ev_typed (SetPortUp s opts).
Proof.
  intros Hopts. apply SetPortUp_fits; [apply _|]. intros ip v t Hc.
  destruct (port_up_checks_typed _ _ _ _ _ Hopts Hc) as [Hip Hlen]. destruct Hopts as [Hin Hgw Hvni Hmac].
  split; [|done]. unfold port_up_writes. apply Forall_app_2; [|by apply mac_write_typed].
  repeat apply Forall_cons_2; try apply Forall_nil_2; simpl; try done; [by apply IPToUint32_range|apply mac_typed_zero].
Qed.

(** ** Provisioning: the index of a prefix comes from what is read back *)
Lemma well_typed_bind {A B} (p : prog A) (f : A → prog B) :
  well_typed p → (∀ a, well_typed (f a)) → well_typed (pbind p f).
Proof. intros Hp Hf. apply wp_bind. eapply wp_mono; [exact Hp|]. intros a [] _. apply Hf. Qed.
Lemma well_typed_mbind {A B} (p : M A) (f : A → M B) :
  well_typed p → (∀ a, well_typed (f a)) → well_typed (mbind p f).
Proof. intros Hp Hf. apply well_typed_bind; [done|]. by intros []. Qed.
Lemma well_typed_mwrap {A} f (p : M A) : well_typed p → well_typed (mwrap f p).
Proof. intros. by apply well_typed_bind. Qed.
Lemma well_typed_defer {A C} (c : prog C) (p : M A) : well_typed c → well_typed p → well_typed (with_defer c p).
Proof. intros. apply well_typed_bind; [done|]. intros. by apply well_typed_bind. Qed.
Lemma kern_well_typed {A} (p : prog A) : kern_only p → well_typed p.
Proof. intros. by apply obeys_well_typed, kern_fits. Qed.
Lemma kern_ret_well_typed {A} (p : M A) : kern_ret p → well_typed p.
Proof. intros H. by apply kern_well_typed, kern_ret_only. Qed.
Lemma ends_well_typed {A B} (P : A → Prop) (p : prog A) (f : A → prog B) :
  ends_in P p → (∀ a, P a → well_typed (f a)) → well_typed (pbind p f).
Proof.
  intros Hp Hf. apply wp_bind. revert Hp. generalize tt. induction p as [a|C e k IH]; intros []; simpl.
  - intros HP. by apply Hf.
  - intros [He Hk]. destruct e; try done. split; [done|]. intros b [] _. by apply IH.
Qed.
Lemma read_well_typed {A} p (f : SlotItem → prog A) :
  (∀ x, slot_typed x → well_typed (f x)) → well_typed (let~ x := trigger (ELoadSlot p) in f x).
Proof. intros Hf. split; [done|]. intros x [] Hx. by apply Hf. Qed.
Lemma store_well_typed {A} p w (k : prog A) : write_typed w → well_typed k →
  well_typed (let~ _ := trigger (EStore p w) in k).
Proof. intros Hw Hk. split; [done|]. by intros x [] _. Qed.

Lemma write_cidr_typed p c : cidr_typed c → well_typed (write_cidr p c).
Proof.
  intros Hc. unfold write_cidr. apply read_well_typed. intros x _. destruct (_ =? 0); [by apply store_well_typed|].
  apply read_well_typed. intros y _. cbv zeta. destruct (_ <? _) eqn:E; [|done]. apply store_well_typed; [|done].
  pose proof (u32_range (si_MgmtCidrCount y - 1)) as Hr. unfold is_u32, MaxMgmtCIDRExt, MaxMgmtCIDRPerSlot in *.
  split; [lia|done].
Qed.
Lemma write_cidrs_typed p cs : Forall cidr_typed cs → well_typed (write_cidrs p cs).
Proof.
  induction 1 as [|c cs Hc _ IH]; [done|]. cbn [write_cidrs]. apply read_well_typed. intros x _.
  destruct (_ <=? _); [done|]. apply well_typed_mbind; [by apply write_cidr_typed|]. intros _.
  apply read_well_typed. intros y _. apply store_well_typed; [apply u32_range|done].
Qed.
Definition infos_typed (infos : list mgmtInfo) : Prop := Forall (λ mi, Forall cidr_typed (mi_cidrs mi)) infos.
Lemma write_mgmt_infos_typed p infos : infos_typed infos → well_typed (write_mgmt_infos p infos).
Proof.
  induction 1 as [|mi infos Hmi _ IH]; [done|]. cbn [write_mgmt_infos].
  apply well_typed_mbind; [by apply write_cidrs_typed|done].
Qed.
Lemma stores_well_typed i ws : Forall write_typed ws → well_typed (stores i ws).
Proof. intros. by apply obeys_well_typed, stores_fits. Qed.
Lemma writeSlotDeviceInfo_typed n i ifindex infos t1 t2 :
  infos_typed infos → is_u32 t2 → well_typed (writeSlotDeviceInfo n i ifindex infos t1 t2).
Proof.
  intros Hi Ht. unfold writeSlotDeviceInfo, UpdateSlotFieldsM. destruct (GetSlot n i) as [p|]; [|done].
  apply well_typed_bind; [apply stores_well_typed, Forall_cons_2; [apply u32_range|by apply Forall_cons_2]|].
  intros _. apply well_typed_mbind; [by apply write_mgmt_infos_typed|]. intros _. apply well_typed_bind; [|done].
  apply stores_well_typed, Forall_cons_2; [apply u32_range|by apply Forall_cons_2].
Qed.

Lemma lor_u8 a b : is_u8 a → is_u8 b → is_u8 (Z.lor a b).
Proof.
  intros Ha Hb. unfold is_u8 in *. rewrite <-(Z.mod_small a (2 ^ 8)), <-(Z.mod_small b (2 ^ 8)) by done.
  rewrite <-!Z.land_ones, <-Z.land_lor_distr_l, Z.land_ones by lia. apply Z.mod_pos_bound. lia.
Qed.
Lemma MgmtMAC_bytes sw i m : bytes sw → MgmtMAC sw i = Ok m → bytes m ∧ length m = 6%nat.
Proof.
  unfold MgmtMAC, derive_mac. intros Hsw. cbv zeta. destruct sw as [|a [|b [|c [|d [|e ?]]]]]; try done.
  intros [= <-]. rewrite !Forall_cons in Hsw. destruct Hsw as (? & ? & ? & ? & ? & _).
  split; [|done]. rewrite !Forall_cons, Forall_nil. split_and!; try done; try apply u8_range.
  apply lor_u8; [|apply u8_range]. rewrite Z.land_comm. apply land_u8. unfold is_u8, PortMACXOR. lia.
Qed.
Lemma mgmt_cidr_typed ifindex mac r c : bytes mac → length mac = 6%nat → mgmt_cidr ifindex mac r = Ok c → cidr_typed c.
Proof.
  intros Hm Hl. unfold mgmt_cidr. intros H. invert_ok. destruct (ParseCIDR r) as [[ip n]|e| |] eqn:E; try done.
  simplify_eq/=. apply ParseCIDR_ok in E as (_ & Hip & Hmask). constructor; simpl.
  - by apply IPToUint32_range.
  - by apply MaskToUint32_range.
  - apply u32_range.
  - apply mac_typed_copy; [done|lia].
Qed.

Section provision.
Context (sw : switchContext) (Hmac : bytes (sc_SwitchMac (sx_cfg sw))).

Lemma res_mapM_forall {A B} (f : A → res B) (P : B → Prop) l l' :
  (∀ a b, f a = Ok b → P b) → res_mapM f l = Ok l' → Forall P l'.
Proof.
  intros Hf. revert l'. induction l as [|a l IH]; intros l'; cbn [res_mapM]; [by intros [= <-]|].
  intros H. invert_ok. constructor; eauto.
Qed.
Lemma mgmt_infos_typed ns name l : ∀ i,
  ends_in (λ r, match r with Ok infos => infos_typed infos | _ => True end) (mgmt_infos ns name (sx_cfg sw) i l).
Proof.
  induction l as [|me l IH]; intros i; cbn [mgmt_infos]; [by constructor|]. cbv zeta.
  eapply ends_in_bind; [apply kern_only_ends, kern_ret_only; kern_ret|]. intros [ifindex|e| |] _; try done.
  destruct (MgmtMAC _ i) as [mac|e| |] eqn:Em; try done. destruct (MgmtMAC_bytes _ _ _ Hmac Em) as [Hb Hl].
  eapply (ends_in_bind (λ r, r = Ok mac)); [done|]. intros ? ->.
  destruct (res_mapM _ _) as [cidrs|e| |] eqn:Ec; try done.
  eapply (ends_in_bind (λ r, r = Ok cidrs)); [done|]. intros ? ->.
  eapply ends_in_bind; [apply IH|]. intros [rest|e| |] Hrest; try done. simpl in *. constructor; [|done]. simpl.
  eapply res_mapM_forall; [|exact Ec]. intros r c. by apply mgmt_cidr_typed.
Qed.
Lemma transit_info_typed ns meta :
  ends_in (λ r, match r with Ok t => is_u32 t.2 | _ => True end) (transit_info ns meta).
Proof.
  unfold transit_info. cbv zeta. case_bool_decide; [simpl; unfold is_u32; lia|].
  eapply ends_in_bind; [apply kern_only_ends, kern_ret_only; kern_ret|]. intros [i|e| |] _; try done.
  case_bool_decide; [done|]. destruct (ParseCIDR _) as [[ip n]|e| |] eqn:E; try done.
  apply ParseCIDR_ok in E as (Hip & _ & _). simpl. by apply IPToUint32_range.
Qed.

Lemma unreserve_typed fuel n i : well_typed (unreserve_loop fuel n i).
Proof.
  induction fuel as [|fuel IH]; [done|]. cbn [unreserve_loop]. apply well_typed_bind.
  - apply obeys_well_typed. unfold TryUnreserve, cas. assert (is_u32 0) by (unfold is_u32; lia). obeys fit_event.
  - intros []; [done|]. apply well_typed_bind; [apply obeys_well_typed, GetInnerIP_fits|]. intros c.
    destruct (_ =? _); [done|]. by destruct (negb _).
Qed.
Lemma provision_tail_typed env i new old sw' :
  infos_typed (pe_mgmt env) → is_u32 (pe_transit env).2 → well_typed (provision_tail env i new old sw').
Proof.
  intros Hi Ht. unfold provision_tail. cbv zeta.
  apply well_typed_bind; [apply kern_well_typed; kern_only|]. intros _.
  apply well_typed_mbind; [by apply writeSlotDeviceInfo_typed|]. intros _.
  apply well_typed_bind; [apply obeys_well_typed, update_stores_fits, Forall_cons_2; [apply u8_range|done]|]. intros _.
  apply well_typed_mbind; [apply kern_well_typed; kern_only|]. intros _.
  apply well_typed_bind; [apply kern_ret_well_typed; kern_ret|]. intros _. apply unreserve_typed.
Qed.
Lemma create_device_kern_only env ns i : kern_only (create_device env ns i).
Proof. unfold create_device, provisionVethSlot, provisionTapSlot. destruct ns; cbn [deref]; kern_only. Qed.
Lemma provision_loop_typed n env port count : infos_typed (pe_mgmt env) → is_u32 (pe_transit env).2 →
  ∀ i ns c, well_typed (provision_loop n env port count i ns c).
Proof.
  intros Hi Ht. induction n as [|n IH]; intros i ns c; cbn [provision_loop]; [done|].
  destruct (_ && _); [done|]. apply well_typed_bind; [apply obeys_well_typed, GetInnerIP_fits|]. intros ip.
  destruct (negb _); [done|]. destruct (GetSlot _ i) as [p|]; [|done].
  apply read_well_typed. intros x _. apply read_well_typed. intros y _.
  apply well_typed_bind; [apply kern_well_typed; unfold openPortNetns; kern_only|]. intros [ns'|e| |]; try done.
  apply well_typed_bind.
  - unfold provision_slot. cbv zeta. destruct (_ && _); [done|]. apply well_typed_mbind.
    + apply well_typed_mwrap, kern_well_typed, create_device_kern_only.
    + intros new. by apply provision_tail_typed.
  - intros [[]|e| |]; try done. by destruct (_ && _).
Qed.
Lemma provision_body_typed fuel name opts : well_typed (provision_body fuel name opts sw).
Proof.
  unfold provision_body. cbv zeta. apply well_typed_mbind; [apply kern_ret_well_typed; kern_ret|]. intros ns.
  apply well_typed_defer; [apply kern_well_typed; kern_only|].
  unfold mbind at 1. eapply ends_well_typed; [apply mgmt_infos_typed|]. intros [infos|e| |] Hi; try done.
  unfold mbind at 1. eapply ends_well_typed; [apply transit_info_typed|]. intros [t|e| |] Ht; try done.
  apply well_typed_bind; [by apply provision_loop_typed|]. intros [r pns].
  apply well_typed_defer; [apply kern_well_typed; destruct pns; kern_only|].
  apply well_typed_mbind; [done|]. intros c. apply well_typed_bind; [|done].
  apply obeys_well_typed, count_slots_fits.
Qed.
End provision.

(** ** Requests from the wire *)
Lemma parse_uint_range t base bits n : 0 ≤ base → 0 ≤ bits → parse_uint t base bits = Ok n → 0 ≤ n < 2 ^ bits.
Proof.
  intros Hb Hbits. unfold parse_uint. destruct t; [done|].
  destruct (parse_digits _ _ _ _) as [v|] eqn:E; [|done]. intros [= <-].
  assert (0 < 2 ^ bits) by (by apply Z.pow_pos_nonneg). apply parse_digits_range in E; lia.
Qed.
Lemma parse_u32_field_range what t n : parse_u32_field what t = Ok n → is_u32 n.
Proof.
  unfold parse_u32_field. destruct (parse_uint t 10 32) as [v|e| |] eqn:E; try done. intros [= <-].
  by apply parse_uint_range in E.
Qed.
Lemma parse_ip_field_ok what t ip : parse_ip_field what t = Ok ip → ip_ok ip.
Proof.
  unfold parse_ip_field. pose proof (ParseIP_ok t) as H. destruct (ParseIP t); [|done]. by intros [= <-].
Qed.
Lemma opt_field_inv {A} t (zero : A) parse v (P : A → Prop) :
  opt_field t zero parse = Ok v → P zero → (∀ v, parse t = Ok v → P v) → P v.
Proof. unfold opt_field. case_bool_decide; [by intros [= <-]|]. eauto. Qed.
Lemma mac_field_bytes t f v : map_err f (ParseMAC t) = Ok v → bytes v.
Proof. destruct (ParseMAC t) as [m|e| |] eqn:E; try done. intros [= <-]. by eapply ParseMAC_bytes. Qed.

Lemma prepareAttachOptions_typed req opts : prepareAttachOptions req = Ok opts → attach_typed opts.
Proof.
  unfold prepareAttachOptions. intros H. invert_ok. assert (is_u32 0) by (unfold is_u32; lia).
  constructor; simpl.
  - by eapply parse_ip_field_ok.
  - eapply (opt_field_inv _ _ _ _ ip_ok); [eassumption|constructor|apply parse_ip_field_ok].
  - eapply (opt_field_inv _ _ _ _ is_u32); [eassumption|done|apply parse_u32_field_range].
  - eapply (opt_field_inv _ _ _ _ bytes); [eassumption|constructor|intros v; apply mac_field_bytes].
  - eapply (opt_field_inv _ _ _ _ is_u32); [eassumption|done|apply parse_u32_field_range].
Qed.
Lemma port_up_of_attach opts port :
  attach_typed opts →
  port_up_typed (MkPortUpOptions port (ao_InnerIP opts) (ao_TransitGatewayIP opts) (ao_TransitGeneveVNI opts)
                   (ao_TransitGeneveOpts opts) (ao_TransitMAC opts)).
Proof. by intros [? ? ? ? ?]. Qed.

Section server.
Context (W : slot_write → Prop) (C : Z → Z → Prop) `{EC : !event_class W C}.
Notation fits_ev := (ev_fits W C).

Lemma sendTapFDError_fits c code e : kern_only (sendTapFDError c code e).
Proof. unfold sendTapFDError. kern_only. Qed.
Lemma sendTapFDOK_fits c f : kern_only (sendTapFDOK c f).
Proof. unfold sendTapFDOK. destruct (BuildOKLine f); kern_only. Qed.
Lemma answer_error_fits c code e : kern_only (answer_error c code e).
Proof. unfold answer_error, sendTapFDError. kern_only. Qed.
#[local] Hint Resolve sendTapFDError_fits sendTapFDOK_fits answer_error_fits : kern_only.

Lemma or_answer_fits {A} c code (p : M A) k :
  obeys fits_ev p → (∀ a, obeys fits_ev (k a)) → obeys fits_ev (or_answer c code p k).
Proof.
  intros Hp Hk. unfold or_answer. apply obeys_bind; [done|]. by intros [].
Qed.
Lemma or_answer_pure_fits {A} c code (r : res A) k :
  (∀ a, r = Ok a → obeys fits_ev (k a)) → obeys fits_ev (or_answer c code (mpure r) k).
Proof. intros Hk. unfold or_answer. destruct r; try done. by apply Hk. Qed.

Lemma request_line_fits fuel c : kern_only (readTapFDRequestLine fuel c).
Proof.
  unfold readTapFDRequestLine. generalize ""%string. induction fuel as [|fuel IH]; intros buf; cbn [read_request_loop]; [done|].
  destruct (_ <? _); [|done]. apply kern_only_bind; [done|]. intros [one err]. cbv zeta.
  assert (∀ buf, kern_only (match err with
    | Some e => if bool_decide (e = sentinel_error IoEOF) && (0 <? slen buf) then mok buf else merr e
    | None => read_request_loop fuel c buf
    end)) as Hf by (intros b; destruct err; [by destruct (_ && _)|done]).
  destruct one as [ch|]; [|apply Hf]. destruct (ch =? 10); [done|]. by destruct (ch =? 0).
Qed.
Lemma validateOpenPort_fits sw port : obeys fits_ev (validateOpenPort sw port).
Proof.
  unfold validateOpenPort. destruct (port <=? 0); [done|]. cbv zeta. destruct (_ <=? _); [done|].
  apply read_slot_fits. intros x. destruct (negb _); [done|]. apply read_slot_fits. intros y.
  destruct (_ =? 0); [done|]. apply obeys_bind; [apply GetInnerIP_fits|]. intros ip. by destruct (_ || _).
Qed.
Lemma openPortAndSendToConn_fits sw n i c t w o ns : obeys fits_ev (openPortAndSendToConn sw n i c t w o ns).
Proof.
  assert (∀ ns, obeys fits_ev (
    let* tapFile := mwrap (λ e, errorw ("open tap " +:+ TapDeviceName n i +:+ ": ") e "")
                          (Do ns (OpenTap (TapDeviceName n i) (Z.lor IFF_NO_PI IFF_VNET_HDR))) in
    with_defer (kern (OsFileClose tapFile)) (send_tap sw i c (TapDeviceName n i) t w o ns tapFile))) as Hbody.
  { intros ns'. apply obeys_mbind; [apply kern_fits; unfold OpenTap; kern_only|]. intros f.
    apply obeys_defer; [apply kern_fits; kern_only|]. unfold send_tap. cbv zeta.
    apply obeys_mbind; [done|]. intros mac. apply read_slot_fits. intros x.
    apply kern_fits. unfold SendFd. kern_only. }
  unfold openPortAndSendToConn. cbv zeta. destruct ns as [ns|]; [apply Hbody|].
  apply obeys_mbind; [apply kern_ret_fits; kern_ret|]. intros ns.
  apply obeys_defer; [apply kern_fits; kern_only|apply Hbody].
Qed.
End server.

(** A provider connection issues what its attach and set-port-up calls issue,
    and nothing else that a class would have to allow. *)
Section connection.
Context (W : slot_write → Prop) (C : Z → Z → Prop) `{EC : !event_class W C} (sw : switchContext) (conn : Z).
Notation fits_ev := (ev_fits W C).
Context (Hattach : ∀ opts, attach_typed opts → obeys fits_ev (Attach sw opts)).
Context (Hup : ∀ opts, port_up_typed opts → obeys fits_ev (SetPortUp sw opts)).
#[local] Hint Resolve sendTapFDError_fits sendTapFDOK_fits answer_error_fits : kern_only.
#[local] Hint Extern 5 (obeys fits_ev _) => apply kern_fits; solve [kern_only] : obeys.

Lemma handleTapFDPrepare_fits req : obeys fits_ev (handleTapFDPrepare conn sw req).
Proof.
  unfold handleTapFDPrepare. apply or_answer_pure_fits. intros opts Ho%prepareAttachOptions_typed.
  apply or_answer_fits; [by apply Hattach|]. intros out.
  assert (obeys fits_ev (undo_prepare sw (at_Port out))) as Hu by apply Detach_fits, _.
  destruct (negb _).
  - apply obeys_bind; [done|]. intros [a|e| |]; try done; apply kern_fits; kern_only.
  - apply obeys_bind; [apply kern_fits; kern_only|]. intros [a|e| |]; try done.
    apply obeys_bind; [done|]. by intros [].
Qed.
Lemma handleTapFDRelease_fits req : obeys fits_ev (handleTapFDRelease conn sw req).
Proof.
  unfold handleTapFDRelease. apply or_answer_pure_fits. intros port _.
  apply or_answer_fits; [apply Detach_fits, _|]. intros _. apply kern_fits. kern_only.
Qed.
Lemma handleTapFDSetPortUp_fits req : obeys fits_ev (handleTapFDSetPortUp conn sw req).
Proof.
  unfold handleTapFDSetPortUp. cbv zeta.
  assert (∀ c e, obeys fits_ev (answer_error conn c e)) as Hans by (intros; apply kern_fits; kern_only).
  destruct (atoi _) as [port|e| |]; try done. destruct (port <=? 0); [done|].
  destruct (List.find _ _); [done|]. apply or_answer_pure_fits. intros opts Ho%prepareAttachOptions_typed.
  apply or_answer_fits; [by apply Hup, port_up_of_attach|]. intros _. apply kern_fits. kern_only.
Qed.
Lemma handleTapFDOpen_fits name ns req : obeys fits_ev (handleTapFDOpen conn name sw ns req).
Proof.
  unfold handleTapFDOpen. apply or_answer_pure_fits. intros port _.
  apply or_answer_fits; [apply validateOpenPort_fits|]. intros i.
  by apply or_answer_fits; [apply openPortAndSendToConn_fits|].
Qed.
Lemma handleTapFDConn_fits fuel name ns : obeys fits_ev (handleTapFDConn fuel conn name (Some sw) ns).
Proof.
  assert (∀ c e, obeys fits_ev (answer_error conn c e)) as Hans by (intros; apply kern_fits; kern_only).
  unfold handleTapFDConn. apply obeys_defer; [by apply kern_fits|].
  apply or_answer_fits; [by apply kern_fits|]. intros _.
  apply or_answer_fits; [apply kern_fits, request_line_fits|]. intros line.
  apply obeys_bind; [by apply kern_fits|]. intros _. apply or_answer_pure_fits. intros req _.
  unfold dispatch. cbv zeta.
  destruct (bool_decide _); [done|]. destruct (negb _); [done|].
  destruct (bool_decide (tr_Op req = RequestOpInfo)); [apply kern_fits; unfold handleTapFDInfo; kern_only|].
  destruct (bool_decide (tr_Op req = RequestOpPrepare)); [apply handleTapFDPrepare_fits|].
  destruct (bool_decide (tr_Op req = RequestOpOpen)); [apply handleTapFDOpen_fits|].
  destruct (bool_decide (tr_Op req = RequestOpRelease)); [apply handleTapFDRelease_fits|].
  destruct (bool_decide (tr_Op req = RequestOpSetPortUp)); [apply handleTapFDSetPortUp_fits|done].
Qed.
End connection.
Lemma handleTapFDConn_typed sw fuel conn name ns : obeys ev_typed (handleTapFDConn fuel conn name (Some sw) ns).
Proof. apply handleTapFDConn_fits; [apply _|apply Attach_typed|apply SetPortUp_typed]. Qed.

(** ** The whole control plane at once *)
Inductive typed_call (s : switchContext) : prog unit → Prop :=
  | tc_Attach opts : attach_typed opts → typed_call s (discard (Attach s opts))
  | tc_Detach opts : typed_call s (discard (Detach s opts))
  | tc_Reserve fuel opts : typed_call s (discard (Reserve fuel s opts))
  | tc_SetPortUp opts : port_up_typed opts → typed_call s (discard (SetPortUp s opts))
  | tc_Release fuel name opts : typed_call s (discard (release_body fuel name opts s))
  | tc_StopReleased range name : typed_call s (discard (stop_released_body range name s))
  | tc_Provision fuel name opts : typed_call s (discard (provision_body fuel name opts s))
  | tc_Connection fuel conn name ns : typed_call s (discard (handleTapFDConn fuel conn name (Some s) ns)).

Lemma typed_call_well_typed s p : bytes (sc_SwitchMac (sx_cfg s)) → typed_call s p → well_typed p.
Proof.
  intros Hmac. destruct 1; (apply well_typed_bind; [|done]); try (by apply provision_body_typed);
    apply obeys_well_typed; auto using Attach_typed, SetPortUp_typed, handleTapFDConn_typed, Detach_fits, Reserve_fits,
      release_body_fits, stop_released_body_fits with typeclass_instances.
Qed.
