(* ===== verification/Formed.v ===== *)
(** * Well-formed slots under concurrency

    Only [ProvisionPorts], [ReleasePorts] and [StopReleased] store the device,
    mode and prefix fields of a slot, and all three hold the switch's exclusive
    control lock while they run.  So the processes of a switch are one sequence
    of such calls, and beside it any number of clients that attach, detach,
    reserve, bring up or serve the provider socket without that lock.  Here the
    slots keep more than their field widths through all interleavings of the
    two: in particular the count of a slot's prefixes never covers an entry
    that was not written, and the bounds check on the index never fails. *)
From S2P Require Import Prelude Errors GoStrings GoText GoNet GoNetSpec BpfTypes Mac Geneve Prog SlotTable Interleave Netns.
From S2P Require Import Netlink Config MgmtService Metadata Loader Context Flock Attach AttachSpec Provision ProvisionSpec.
From S2P Require Import Stop StopSpec PortSpec Footprint Safety Tapfd TapfdFd HostIo TapfdFdSpec TapServer Typed.

(** ** Programs that never panic, whatever the answers *)
Fixpoint all_ends {A} (P : A → Prop) (p : prog A) : Prop :=
  match p with Ret a => P a | Vis e k => ∀ b, all_ends P (k b) end.
Definition calm {A} (p : M A) : Prop := all_ends (λ r, r ≠ Panic) p.

Lemma all_ends_bind {A B} (P : A → Prop) (Q : B → Prop) (p : prog A) (f : A → prog B) :
  all_ends P p → (∀ a, P a → all_ends Q (f a)) → all_ends Q (pbind p f).
Proof. induction p as [a|C e k IH]; simpl; auto. Qed.
Lemma all_ends_true {A} (p : prog A) : all_ends (λ _, True) p.
Proof. induction p as [a|C e k IH]; simpl; auto. Qed.
Lemma ends_in_all {A} (P : A → Prop) (p : prog A) : ends_in P p → all_ends P p.
Proof. induction p as [a|B e k IH]; simpl; [done|]. intros [_ Hk] b. auto. Qed.
Lemma calm_bind {A B} (p : prog A) (f : A → M B) : (∀ a, calm (f a)) → calm (pbind p f).
Proof. intros Hf. eapply all_ends_bind; [apply all_ends_true|]. intros a _. apply Hf. Qed.
Lemma calm_mbind {A B} (p : M A) (f : A → M B) : calm p → (∀ a, calm (f a)) → calm (mbind p f).
Proof. intros Hp Hf. eapply all_ends_bind; [exact Hp|]. intros [] Hr; try done. apply Hf. Qed.
Lemma calm_defer {A C} (c : prog C) (p : M A) : calm p → calm (with_defer c p).
Proof.
  intros Hp. eapply all_ends_bind; [exact Hp|]. intros r Hr. eapply all_ends_bind; [apply all_ends_true|]. by intros _ _.
Qed.
Lemma all_ends_mono {A} (P Q : A → Prop) (p : prog A) : all_ends P p → (∀ a, P a → Q a) → all_ends Q p.
Proof. induction p as [a|B e k IH]; simpl; auto. Qed.
Lemma calm_kern_ret {A} (p : M A) : kern_ret p → calm p.
Proof. intros H%ends_in_all. eapply all_ends_mono; [exact H|]. by intros []. Qed.
Lemma calm_read_slot {A} n i (k : SlotItem → M A) : i < n → (∀ x, calm (k x)) → calm (read_slot n i k).
Proof. intros Hi Hk. unfold read_slot. rewrite GetSlot_lt by done. intros x. apply Hk. Qed.

(** *** Release and stop *)
Lemma rescan_calm fuel p : calm (rescan fuel p).
Proof. induction fuel as [|fuel IH]; [done|]. apply calm_bind. by intros []. Qed.
Lemma ignore_err_calm m : calm m → calm (ignore_err m).
Proof. intros Hm. eapply all_ends_bind; [exact Hm|]. by intros []. Qed.
Lemma collect_loop_calm k n i set : i + Z.of_nat k ≤ n → calm (collect_loop k n i set).
Proof.
  revert i set. induction k as [|k IH]; intros i set Hi; cbn [collect_loop]; [done|].
  apply calm_read_slot; [lia|]. intros x. apply calm_mbind; [apply IH; lia|done].
Qed.
Lemma count_devices_calm k n i c : i + Z.of_nat k ≤ n → calm (count_devices_loop k n i c).
Proof.
  revert i c. induction k as [|k IH]; intros i c Hi; cbn [count_devices_loop]; [done|].
  apply calm_read_slot; [lia|]. intros x. apply IH. lia.
Qed.
Lemma validate_loop_calm k n i : i + Z.of_nat k ≤ n → calm (validate_released_loop k n i).
Proof.
  revert i. induction k as [|k IH]; intros i Hi; cbn [validate_released_loop]; [done|].
  rewrite GetSlot_lt by lia. cbn [deref]. apply calm_bind. intros ip. apply calm_bind. intros x.
  destruct (_ || _); [done|]. apply IH. lia.
Qed.
Lemma deletePortInterfaces_calm s l d : calm (deletePortInterfaces s l d).
Proof.
  induction l as [|it l IH]; cbn [deletePortInterfaces]; [done|]. cbv zeta.
  apply calm_mbind; [apply calm_kern_ret; kern_ret|]. intros _.
  apply calm_mbind; [apply calm_kern_ret; kern_ret|]. intros _. by apply calm_bind.
Qed.
Section calm.
Context (s : switchContext) (n : Z) (Hn : sx_numSlots s = n) (H0 : 0 ≤ n).
Lemma collect_and_delete_calm set d : calm (collect_and_delete s n set d).
Proof.
  unfold collect_and_delete, collectPortInterfaces. apply calm_mbind; [apply collect_loop_calm; lia|]. intros c.
  by apply calm_mbind; [apply deletePortInterfaces_calm|].
Qed.
Lemma release_body_calm fuel name opts : sc_N_ports (sx_cfg s) = n → calm (release_body fuel name opts s).
Proof.
  intros Hports. unfold release_body, countPortsWithDevices. rewrite Hports. cbv zeta.
  apply calm_mbind; [apply calm_kern_ret; kern_ret|]. intros nd. apply calm_defer.
  apply calm_mbind; [apply count_devices_calm; lia|]. intros before.
  apply calm_mbind; [|intros _; apply calm_mbind; [apply count_devices_calm; lia|done]].
  destruct (rl_Force opts).
  - unfold release_force. cbv zeta. apply calm_mbind; [apply ignore_err_calm, rescan_calm|]. intros _.
    apply calm_mbind; [apply collect_and_delete_calm|]. intros set. apply calm_mbind; [apply rescan_calm|]. intros _.
    by apply calm_mbind; [apply collect_and_delete_calm|].
  - unfold release_safe. cbv zeta. apply calm_bind. intros used. destruct (0 <? used); [done|].
    apply calm_mbind; [apply rescan_calm|]. intros _. by apply calm_mbind; [apply collect_and_delete_calm|].
Qed.
End calm.

(** ** What holds of every slot *)
Section formed.
Context (sw : switchContext).

(** A prefix of one of the metadata's service routes. *)
Definition from_metadata (c : MgmtCidr) : Prop :=
  ∃ me route ifindex mac, me ∈ md_MgmtExtracts (sx_meta sw) ∧ route ∈ mm_ServiceRoutes me ∧
    route_prefix ifindex mac route c.
Record slot_formed (x : SlotItem) : Prop := {
  fm_count : 0 ≤ si_MgmtCidrCount x ≤ MaxMgmtCIDRPerSlot;
  fm_ext : length (si_MgmtCidrsExt x) = 2%nat;
  fm_cidrs : Forall from_metadata (slot_cidrs x);
  fm_mode : si_Mode x = PortKindVeth ∨ si_Mode x = PortKindTap;
  fm_flags : si_Flags x = 0 ∨ si_Flags x = PortFUp;
  fm_opts : 0 ≤ si_GeneveOptsLen x ≤ MaxGeneveOptsLen;
  fm_ready : si_StatsReady x = 0 ∨ si_StatsReady x = 1;
}.

(** ** Stores that keep it, whatever the slot holds *)
Definition keeps_formed (w : slot_write) : Prop := ∀ x, slot_formed x → slot_formed (write_slot w x).
Definition prefix_field (w : slot_write) : bool :=
  match w with WMgmtCidrCount _ | WMgmtCidrs0 _ | WMgmtCidrsExt _ _ => true | _ => false end.
(** What a client without the lock stores. *)
Definition client_write (w : slot_write) : Prop := keeps_formed w ∧ prefix_field w = false.
Notation ev_client := (ev_fits client_write (λ _ _, True)).
Notation ev_holder := (ev_fits keeps_formed (λ _ _, True)).

(** A bound on the stored value, for the fields that have one. *)
Definition good_value (w : slot_write) : Prop :=
  match w with
  | WMode v => v = PortKindVeth ∨ v = PortKindTap
  | WFlags v => v = 0 ∨ v = PortFUp
  | WGeneveOptsLen v => 0 ≤ v ≤ MaxGeneveOptsLen
  | WStatsReady v => v = 0 ∨ v = 1
  | _ => True
  end.
Lemma good_client_write w : prefix_field w = false → good_value w → client_write w.
Proof.
  intros Hw Hv. split; [|done]. intros x []. destruct x, w; simpl in *; try done; by constructor.
Qed.
#[export] Instance client_class : event_class client_write (λ _ _, True).
Proof.
  constructor; intros; try done; apply good_client_write; try done; simpl; unfold MaxGeneveOptsLen; lia.
Qed.
#[export] Instance holder_class : event_class keeps_formed (λ _ _, True).
Proof.
  destruct client_class as [H1 H2 H3 H4 _ _]. by constructor; [intros v Hv; apply H1|intros v Hv; apply H2|apply H3|apply H4|..].
Qed.

(** ** What the clients store *)
Lemma marshal_len_bound loc tlv opts v t : marshalGeneveOptions loc tlv opts = Ok (v, t) → 0 ≤ gv_Len v ≤ MaxGeneveOptsLen.
Proof.
  rewrite marshalGeneveOptions_iff. intros (_ & Hle & -> & _). pose proof (wire_len_nonneg opts).
  pose proof (tlv_overhead_range loc). simpl. lia.
Qed.
Lemma attach_checks_bound s opts v t ip : attach_checks s opts = Ok (v, t, ip) → 0 ≤ gv_Len v ≤ MaxGeneveOptsLen.
Proof.
  unfold attach_checks. intros H. invert_ok;
    match goal with H : marshalGeneveOptions _ _ _ = Ok _ |- _ => by apply marshal_len_bound in H end.
Qed.
Lemma port_up_checks_bound s opts ip v t : port_up_checks s opts = Ok (ip, (v, t)) → 0 ≤ gv_Len v ≤ MaxGeneveOptsLen.
Proof.
  unfold port_up_checks. intros H. invert_ok;
    match goal with H : marshalGeneveOptions _ _ _ = Ok _ |- _ => by apply marshal_len_bound in H end.
Qed.
Lemma good_client_writes ws : Forall (λ w, prefix_field w = false ∧ good_value w) ws → Forall client_write ws.
Proof. intros H. eapply Forall_impl; [exact H|]. intros w [? ?]. by apply good_client_write. Qed.

Lemma Attach_client s opts : obeys ev_client (Attach s opts).
Proof.
  apply Attach_fits; [apply _|]. intros v t ip Hc. pose proof (attach_checks_bound _ _ _ _ _ Hc).
  apply attach_checks_ip in Hc as [_ Hst]. constructor; [by intros ->|done| |].
  - apply good_client_writes. unfold claim_writes. apply Forall_app_2; [|case_bool_decide; repeat constructor].
    repeat apply Forall_cons_2; try apply Forall_nil_2; (split; [done|]); simpl; first [done | by left | unfold MaxGeneveOptsLen; lia].
  - split; apply good_client_write; done.
Qed.
Lemma SetPortUp_client s opts : obeys ev_client (SetPortUp s opts).
Proof.
  apply SetPortUp_fits; [apply _|]. intros ip v t Hc%port_up_checks_bound. split; [|done].
  apply good_client_writes. unfold port_up_writes. apply Forall_app_2; [|case_bool_decide; repeat constructor].
  repeat apply Forall_cons_2; try apply Forall_nil_2; (split; [done|]); simpl; done.
Qed.

Inductive client_call : M unit → Prop :=
  | cl_Attach opts : client_call (let~ _ := Attach sw opts in mok tt)
  | cl_Detach opts : client_call (let~ _ := Detach sw opts in mok tt)
  | cl_Reserve fuel opts : client_call (let~ _ := Reserve fuel sw opts in mok tt)
  | cl_SetPortUp opts : client_call (let~ _ := SetPortUp sw opts in mok tt)
  | cl_Connection fuel conn name ns : client_call (let~ _ := handleTapFDConn fuel conn name (Some sw) ns in mok tt).
Lemma client_call_obeys p : client_call p → obeys ev_client p.
Proof.
  destruct 1; (apply obeys_bind; [|done]); auto using Attach_client, SetPortUp_client, Detach_fits, Reserve_fits with typeclass_instances.
  apply handleTapFDConn_fits; [apply _|intros; apply Attach_client|intros; apply SetPortUp_client].
Qed.

(** ** The holder of the lock

    Between two of its events the clients may change every slot, except for
    the prefixes, and leave it well formed. *)
Definition same_prefixes (x y : SlotItem) : Prop :=
  si_MgmtCidrCount y = si_MgmtCidrCount x ∧ si_MgmtCidrs0 y = si_MgmtCidrs0 x ∧ si_MgmtCidrsExt y = si_MgmtCidrsExt x.
Definition clients_may (s s' : list SlotItem) : Prop := Forall2 same_prefixes s s' ∧ Forall slot_formed s'.
Definition held : sem (list SlotItem) :=
  MkSem
    (λ B e s, match e with
              | EStore i w => ∀ s' x, clients_may s s' → slot_at s' i = Some x → slot_formed (write_slot w x)
              | _ => True
              end)
    (λ B e s b s'', ∃ s', clients_may s s' ∧
       match e in ev B return B → Prop with
       | EKern _ => λ _, s'' = s'
       | e => λ b, mem_step e s' = Some (b, s'')
       end b).

Lemma clients_may_refl s : Forall slot_formed s → clients_may s s.
Proof. intros Hs. split; [|done]. apply Forall2_same_length_lookup_2; [done|]. intros. by simplify_eq. Qed.
Lemma clients_may_trans s1 s2 s3 : clients_may s1 s2 → clients_may s2 s3 → clients_may s1 s3.
Proof.
  intros [H1 _] [H2 Hf]. split; [|done]. eapply Forall2_trans; [|exact H1|exact H2].
  intros x y z (Ha & Hb & Hc) (Ha' & Hb' & Hc'). split_and!; congruence.
Qed.
Lemma clients_may_at s s' i x' : clients_may s s' → slot_at s' i = Some x' → ∃ x, slot_at s i = Some x ∧ same_prefixes x x'.
Proof.
  intros [H _]. unfold slot_at. destruct (i <? 0); [done|]. intros Hx'.
  destruct (Forall2_lookup_r _ _ _ _ _ H Hx') as (x & Hx & Hs). eauto.
Qed.
Lemma formed_at s i x : Forall slot_formed s → slot_at s i = Some x → slot_formed x.
Proof. unfold slot_at. destruct (i <? 0); [done|]. intros. by eapply Forall_lookup_1. Qed.
Lemma formed_set s i x : Forall slot_formed s → slot_formed x → Forall slot_formed (set_slot s i x).
Proof. apply Forall_insert. Qed.

(** A memory step of a client, or of the holder where [held] allows it. *)
Lemma mem_step_formed {B} (e : ev B) s b s' :
  match e with EStore i w => ∀ x, slot_at s i = Some x → slot_formed (write_slot w x) | _ => True end →
  Forall slot_formed s → mem_step e s = Some (b, s') → Forall slot_formed s'.
Proof.
  intros He Hs. destruct e as [i|i old new|i|i w|C q]; simpl; [..|done];
    destruct (slot_at s i) as [x|] eqn:Hx; try done; pose proof (formed_at _ _ _ Hs Hx) as Hxf.
  - by intros [= <- <-].
  - destruct (_ =? _); intros [= <- <-]; [|done]. apply formed_set; [done|]. destruct x, Hxf. by constructor.
  - by intros [= <- <-].
  - intros [= <- <-]. apply formed_set; auto.
Qed.
Lemma client_step_may {B} (e : ev B) s b s' :
  ev_client B e → Forall slot_formed s → mem_step e s = Some (b, s') → clients_may s s'.
Proof.
  intros He Hs Hm. split; [|eapply mem_step_formed; [|exact Hs|exact Hm]].
  - assert (Hset : ∀ i x y, slot_at s i = Some x → same_prefixes x y → Forall2 same_prefixes s (set_slot s i y)).
    { intros i x y Hx Hxy. unfold slot_at in Hx. destruct (i <? 0); [done|]. unfold set_slot.
      rewrite <-(list_insert_id s (Z.to_nat i) x) at 1 by done. apply Forall2_insert; [|done].
      by apply clients_may_refl. }
    destruct e as [i|i old new|i|i w|C q]; simpl in Hm; try done; destruct (slot_at s i) as [x|] eqn:Hx; try done.
    + simplify_eq. by apply clients_may_refl.
    + destruct (_ =? _); simplify_eq; [|by apply clients_may_refl]. eapply Hset; [done|]. by destruct x.
    + simplify_eq. by apply clients_may_refl.
    + simplify_eq. eapply Hset; [done|]. destruct He as [_ Hw]. by destruct x, w.
  - destruct e; try done. intros x Hx. apply He. by eapply formed_at.
Qed.

Lemma held_may {A} (p : prog A) (Q : A → Prop) s s' :
  wp held p (λ a _, Q a) s → clients_may s s' → wp held p (λ a _, Q a) s'.
Proof.
  destruct p as [a|B e k]; [done|]. intros [Hok Hk] Hs. split.
  - destruct e; try done. intros s2 x Hs2. apply Hok. by eapply clients_may_trans.
  - intros b s3 (s2 & Hs2 & Hm). apply Hk. exists s2. split; [by eapply clients_may_trans|done].
Qed.

(** ** Every interleaving *)
Definition pool_formed {A} (Q : A → Prop) (ps : list (prog A)) (t : list SlotItem) : Prop :=
  ∃ h cs, ps = h :: cs ∧ wp held h (λ a _, Q a) t ∧ Forall (obeys ev_client) cs ∧ Forall slot_formed t.
Lemma pool_formed_step {A} (Q : A → Prop) (ps ps' : list (prog A)) t t' :
  pool_formed Q ps t → pool_step (ps, t) (ps', t') → pool_formed Q ps' t'.
Proof.
  intros (h & cs & -> & Hh & Hcs & Ht) Hstep. pose proof (clients_may_refl t Ht) as Hrefl.
  inversion Hstep as [? ? p B e k b ? Hp Hmem|? ? p B e k b Hp]; subst; destruct p as [|p]; simpl in Hp.
  - injection Hp as ->. destruct Hh as [Hok Hk]. exists (k b), cs. split_and!; [done| |done|].
    + apply Hk. exists t. split; [done|]. by destruct e.
    + eapply mem_step_formed; [|exact Ht|exact Hmem]. destruct e; try done. intros x Hx. by eapply Hok.
  - pose proof (proj1 (Forall_lookup _ _) Hcs _ _ Hp) as [He Hk]. pose proof (client_step_may e t b t' He Ht Hmem) as Hmay.
    exists h, (<[p := k b]> cs). split_and!; [done|by eapply held_may| |apply Hmay]. by apply Forall_insert.
  - injection Hp as ->. destruct Hh as [_ Hk]. exists (k b), cs. split_and!; [done| |done|done]. apply Hk. by exists t'.
  - pose proof (proj1 (Forall_lookup _ _) Hcs _ _ Hp) as [He Hk].
    exists h, (<[p := k b]> cs). split_and!; [done|done| |done]. by apply Forall_insert.
Qed.
Lemma pool_formed_steps {A} (Q : A → Prop) (c c' : list (prog A) * list SlotItem) :
  rtc pool_step c c' → pool_formed Q c.1 c.2 → pool_formed Q c'.1 c'.2.
Proof.
  induction 1 as [c|[p1 t1] [p2 t2] c' Hs _ IH]; [done|]. intros H. apply IH. by eapply pool_formed_step.
Qed.

(** ** The holder's events *)
Lemma wp_held_load i (Q : SlotItem → list SlotItem → Prop) s :
  (∀ s' x, clients_may s s' → slot_at s' i = Some x → Q x s') → wp held (trigger (ELoadSlot i)) Q s.
Proof.
  intros HQ. split; [done|]. intros x s2 (s1 & Hs1 & Hm). simpl in Hm.
  destruct (slot_at s1 i) as [y|] eqn:Hy; [|done]. simplify_eq. by apply HQ.
Qed.
Lemma wp_held_store i w (Q : unit → list SlotItem → Prop) s :
  (∀ s' x, clients_may s s' → slot_at s' i = Some x →
     slot_formed (write_slot w x) ∧ Q tt (set_slot s' i (write_slot w x))) →
  wp held (trigger (EStore i w)) Q s.
Proof.
  intros HQ. split; [intros s' x Hs Hx; by apply (HQ s' x)|]. intros [] s2 (s1 & Hs1 & Hm). simpl in Hm.
  destruct (slot_at s1 i) as [y|] eqn:Hy; [|done]. simplify_eq. by apply HQ.
Qed.
(** Programs whose stores keep any slot well formed. *)
Lemma wp_held_obeys {A} (P : A → Prop) (p : prog A) (Q : A → list SlotItem → Prop) s :
  obeys ev_holder p → all_ends P p → Forall slot_formed s → (∀ a s', Forall slot_formed s' → P a → Q a s') →
  wp held p Q s.
Proof.
  intros Hp HP Hs HQ. revert s Hs. induction p as [a|B e k IH]; intros s Hs; [by apply HQ|].
  destruct Hp as [He Hk]. split.
  - destruct e; try done. intros s' x [_ Hs'] Hx. apply He. by eapply formed_at.
  - intros b s2 (s1 & [_ Hs1] & Hm). apply IH; [apply Hk|apply HP|].
    destruct e as [i|i old new|i|i w|C q]; try (eapply mem_step_formed; [|exact Hs1|exact Hm]; done).
    + eapply mem_step_formed; [|exact Hs1|exact Hm]. intros x Hx. apply He. by eapply formed_at.
    + by rewrite Hm.
Qed.
Lemma wp_held_ends {A} (P : A → Prop) (p : prog A) (Q : A → list SlotItem → Prop) s :
  ends_in P p → Forall slot_formed s → (∀ a s', Forall slot_formed s' → P a → Q a s') → wp held p Q s.
Proof.
  intros Hp. apply (wp_held_obeys P); [|by apply ends_in_all]. apply obeys_kern_only; [done|].
  clear -Hp. induction p as [a|B e k IH]; [done|]. destruct Hp as [He Hk]. split; [done|]. intros b. by apply IH.
Qed.

(** The end of a call of the holder. *)
Definition safe {A} (r : res A) (s : list SlotItem) : Prop := r ≠ Panic ∧ Forall slot_formed s.
Lemma wp_held_safe {A} (p : M A) s : obeys ev_holder p → calm p → Forall slot_formed s → wp held p safe s.
Proof. intros Hp Hc Hs. eapply wp_held_obeys; [exact Hp|exact Hc|done|]. intros r s' Hs' Hr. by split. Qed.
Lemma wp_held_defer {A C} (c : prog C) (p : M A) s : kern_only c → wp held p safe s → wp held (with_defer c p) safe s.
Proof.
  intros Hc Hp. apply wp_bind. eapply wp_mono; [exact Hp|]. intros r s' [Hr Hs'].
  apply wp_bind. eapply (wp_held_ends (λ _, True)); [by apply kern_only_ends|done|]. by intros a s2 Hs2 _.
Qed.
Lemma wp_held_mbind {A B} (p : M A) (f : A → M B) s :
  wp held p safe s → (∀ a s', Forall slot_formed s' → wp held (f a) safe s') → wp held (mbind p f) safe s.
Proof.
  intros Hp Hf. apply wp_mbind. eapply wp_mono; [exact Hp|]. intros [a|e| |] s' [Hr Hs']; try done. by apply Hf.
Qed.
Lemma wp_held_kern_ret {A} (p : M A) s : kern_ret p → Forall slot_formed s → wp held p safe s.
Proof. intros Hp Hs. apply wp_held_safe; [by apply obeys_kern_only, kern_ret_only|by apply calm_kern_ret|done]. Qed.

(** *** The prefixes of slot [p]: [n] of them, and entry [n] when it was written *)
Definition counted (p n : Z) (s : list SlotItem) : Prop := ∀ x, slot_at s p = Some x → si_MgmtCidrCount x = n.
Definition entry (p : Z) (n : nat) (c : MgmtCidr) (s : list SlotItem) : Prop :=
  ∀ x, slot_at s p = Some x → (si_MgmtCidrs0 x :: si_MgmtCidrsExt x) !! n = Some c.
Lemma counted_may p n s s' : clients_may s s' → counted p n s → counted p n s'.
Proof. intros Hs Hc x' Hx'. destruct (clients_may_at _ _ _ _ Hs Hx') as (x & Hx & Hn & _). rewrite Hn. by apply Hc. Qed.
Lemma entry_may p n c s s' : clients_may s s' → entry p n c s → entry p n c s'.
Proof. intros Hs Hc x' Hx'. destruct (clients_may_at _ _ _ _ Hs Hx') as (x & Hx & _ & -> & ->). by apply Hc. Qed.

(** Writing the entry just past the count changes none of those it covers. *)
Lemma formed_entry x n c :
  slot_formed x → si_MgmtCidrCount x = n → 0 ≤ n < MaxMgmtCIDRPerSlot →
  let w := if n =? 0 then WMgmtCidrs0 c else WMgmtCidrsExt (Z.to_nat (n - 1)) c in
  slot_formed (write_slot w x) ∧ si_MgmtCidrCount (write_slot w x) = n ∧
  (si_MgmtCidrs0 (write_slot w x) :: si_MgmtCidrsExt (write_slot w x)) !! Z.to_nat n = Some c.
Proof.
  intros Hx Hc Hn w. unfold MaxMgmtCIDRPerSlot in Hn. assert (Hsame : slot_cidrs (write_slot w x) = slot_cidrs x ∧
    length (si_MgmtCidrsExt (write_slot w x)) = 2%nat ∧ si_MgmtCidrCount (write_slot w x) = n ∧
    (si_MgmtCidrs0 (write_slot w x) :: si_MgmtCidrsExt (write_slot w x)) !! Z.to_nat n = Some c).
  { destruct Hx as [_ Hext _ _ _ _ _]. destruct x as [f1 f2 f3 f4 f5 f6 f7 f8 f9 m c0 f10 f11 ext f12].
    simpl in Hc, Hext. subst m. destruct ext as [|e1 [|e2 [|]]]; try done.
    assert (n = 0 ∨ n = 1 ∨ n = 2) as [->|[->| ->]] by lia; done. }
  destruct Hsame as (Hs & Hl & Hcount & He). split; [|done].
  destruct Hx as [Hcnt Hext Hcs Hmode Hfl Hopts Hrdy]. rewrite <-Hs in Hcs. clear Hs.
  assert (Hrest : si_Mode (write_slot w x) = si_Mode x ∧ si_Flags (write_slot w x) = si_Flags x ∧
    si_GeneveOptsLen (write_slot w x) = si_GeneveOptsLen x ∧ si_StatsReady (write_slot w x) = si_StatsReady x)
    by (unfold w; destruct (n =? 0), x; done).
  destruct Hrest as (Hm & Hf & Ho & Hr). constructor; rewrite ?Hm, ?Hf, ?Ho, ?Hr; try done.
  rewrite Hcount. unfold MaxMgmtCIDRPerSlot. lia.
Qed.
(** Then the count may cover it. *)
Lemma formed_count x n c :
  slot_formed x → si_MgmtCidrCount x = n → 0 ≤ n < MaxMgmtCIDRPerSlot → from_metadata c →
  (si_MgmtCidrs0 x :: si_MgmtCidrsExt x) !! Z.to_nat n = Some c →
  slot_formed (write_slot (WMgmtCidrCount (n + 1)) x).
Proof.
  intros [Hcnt Hext Hcs Hmode Hfl Hopts Hrdy] Hc Hn Hm He. unfold MaxMgmtCIDRPerSlot in Hn. unfold slot_cidrs in Hcs.
  destruct x. simpl in *. constructor; simpl; try done; [unfold MaxMgmtCIDRPerSlot; lia|]. unfold slot_cidrs. simpl.
  replace (Z.to_nat (n + 1)) with (S (Z.to_nat n)) by lia. rewrite (take_S_r _ _ c) by done.
  apply Forall_app_2; [by subst|by apply Forall_singleton].
Qed.
Lemma formed_reset x : slot_formed x → slot_formed (write_slot (WMgmtCidrCount 0) x).
Proof.
  intros [Hcnt Hext Hcs Hmode Hfl Hopts Hrdy]. destruct x. simpl in *. constructor; simpl; done.
Qed.

(** *** Provisioning *)
Lemma wp_held_write_cidr p n c s :
  Forall slot_formed s → counted p n s → 0 ≤ n < MaxMgmtCIDRPerSlot →
  wp held (write_cidr p c) (λ r s', r = Ok tt ∧ Forall slot_formed s' ∧ counted p n s' ∧ entry p (Z.to_nat n) c s') s.
Proof.
  intros Hs Hn Hrange. pose proof Hrange as Hlt. unfold MaxMgmtCIDRPerSlot in Hlt.
  assert (Hstore : ∀ s1, clients_may s s1 → wp held
    (let~ _ := trigger (EStore p (if n =? 0 then WMgmtCidrs0 c else WMgmtCidrsExt (Z.to_nat (n - 1)) c)) in mok tt)
    (λ r s', r = Ok tt ∧ Forall slot_formed s' ∧ counted p n s' ∧ entry p (Z.to_nat n) c s') s1).
  { intros s1 Hs1. apply wp_bind, wp_held_store. intros s2 x Hs2 Hx.
    pose proof (counted_may _ _ _ _ (clients_may_trans _ _ _ Hs1 Hs2) Hn x Hx) as Hxn.
    destruct (formed_entry x n c (formed_at _ _ _ (proj2 Hs2) Hx) Hxn Hrange) as (Hf & Hc & He).
    split; [done|]. cbn [wp mok]. split_and!; [done|by apply formed_set, Hf; apply Hs2| |];
      intros y Hy; rewrite (slot_at_set _ _ _ _ Hx) in Hy; by simplify_eq. }
  unfold write_cidr. apply wp_bind, wp_held_load. intros s1 x Hs1 Hx. pose proof (counted_may _ _ _ _ Hs1 Hn) as Hn1.
  rewrite (Hn1 x Hx). destruct (n =? 0) eqn:E; [by apply Hstore|].
  apply wp_bind, wp_held_load. intros s2 y Hs2 Hy. cbv zeta. rewrite (counted_may _ _ _ _ Hs2 Hn1 y Hy).
  rewrite u32_small by (unfold is_u32; lia).
  assert ((n - 1 <? MaxMgmtCIDRExt) = true) as -> by (unfold MaxMgmtCIDRExt, MaxMgmtCIDRPerSlot; lia).
  apply Hstore. by eapply clients_may_trans.
Qed.
Lemma wp_held_write_cidrs p cs : Forall from_metadata cs → ∀ n s,
  Forall slot_formed s → counted p n s → 0 ≤ n ≤ MaxMgmtCIDRPerSlot →
  wp held (write_cidrs p cs) (λ r s', r = Ok tt ∧ Forall slot_formed s' ∧
    ∃ n', counted p n' s' ∧ 0 ≤ n' ≤ MaxMgmtCIDRPerSlot) s.
Proof.
  induction 1 as [|c cs Hc _ IH]; intros n s Hs Hn Hr; cbn [write_cidrs]; [split_and!; [done|done|by exists n]|].
  apply wp_bind, wp_held_load. intros s1 x Hs1 Hx. pose proof (counted_may _ _ _ _ Hs1 Hn) as Hn1. rewrite (Hn1 x Hx).
  destruct (MaxMgmtCIDRPerSlot <=? n) eqn:E; [split_and!; [done|apply Hs1|by exists n]|].
  apply wp_mbind. eapply wp_mono; [apply wp_held_write_cidr; [apply Hs1|exact Hn1|lia]|].
  intros r s2 (-> & Hs2 & Hn2 & He2). apply wp_bind, wp_held_load. intros s3 y Hs3 Hy.
  pose proof (counted_may _ _ _ _ Hs3 Hn2) as Hn3. rewrite (Hn3 y Hy).
  unfold MaxMgmtCIDRPerSlot in Hr, E. rewrite u32_small by (unfold is_u32; lia).
  apply wp_bind, wp_held_store. intros s4 z Hs4 Hz. pose proof (clients_may_trans _ _ _ Hs3 Hs4) as Hs34.
  assert (Hf : slot_formed (write_slot (WMgmtCidrCount (n + 1)) z)).
  { apply (formed_count z n c); [by eapply formed_at; [apply Hs4|]|by apply (counted_may _ _ _ _ Hs34 Hn2)| |done|
      by apply (entry_may _ _ _ _ _ Hs34 He2)]. unfold MaxMgmtCIDRPerSlot. lia. }
  split; [done|]. apply (IH (n + 1)); [by apply formed_set; [apply Hs4|]| |unfold MaxMgmtCIDRPerSlot; lia].
  intros y' Hy'. rewrite (slot_at_set _ _ _ _ Hz) in Hy'. simplify_eq. by destruct z.
Qed.
Definition infos_from_metadata (infos : list mgmtInfo) : Prop := Forall (λ mi, Forall from_metadata (mi_cidrs mi)) infos.
Lemma wp_held_write_mgmt_infos p infos : infos_from_metadata infos → ∀ n s,
  Forall slot_formed s → counted p n s → 0 ≤ n ≤ MaxMgmtCIDRPerSlot →
  wp held (write_mgmt_infos p infos) (λ r s', r = Ok tt ∧ Forall slot_formed s') s.
Proof.
  induction 1 as [|mi infos Hmi _ IH]; intros n s Hs Hn Hr; cbn [write_mgmt_infos]; [done|].
  apply wp_mbind. eapply wp_mono; [by eapply wp_held_write_cidrs|]. intros r s' (-> & Hs' & n' & Hn' & Hr'). by eapply IH.
Qed.
Lemma wp_held_stores p ws s : Forall keeps_formed ws → Forall slot_formed s →
  wp held (stores p ws) (λ _ s', Forall slot_formed s') s.
Proof.
  intros Hws Hs. eapply (wp_held_obeys (λ _, True)); [by apply stores_fits|apply all_ends_true|done|]. by intros.
Qed.
Lemma wp_held_reset p s (Q : unit → list SlotItem → Prop) :
  (∀ s', Forall slot_formed s' → counted p 0 s' → Q tt s') → wp held (trigger (EStore p (WMgmtCidrCount 0))) Q s.
Proof.
  intros HQ. apply wp_held_store. intros s1 x Hs1 Hx.
  assert (Hf : slot_formed (write_slot (WMgmtCidrCount 0) x)) by (eapply formed_reset, formed_at; [apply Hs1|done]).
  split; [done|]. apply HQ; [by apply formed_set; [apply Hs1|]|].
  intros y Hy. rewrite (slot_at_set _ _ _ _ Hx) in Hy. simplify_eq. by destruct x.
Qed.
Lemma keeps_any w : prefix_field w = false → good_value w → keeps_formed w.
Proof. intros Hw Hv. by apply good_client_write. Qed.
Lemma wp_held_writeSlotDeviceInfo m i ifindex infos t1 t2 s :
  infos_from_metadata infos → Forall slot_formed s → wp held (writeSlotDeviceInfo m i ifindex infos t1 t2) safe s.
Proof.
  intros Hi Hs. unfold writeSlotDeviceInfo, UpdateSlotFieldsM. destruct (GetSlot m i) as [p|]; [|by split].
  apply wp_bind. cbn [stores]. apply wp_bind. eapply (wp_held_obeys (λ _, True)); [split; [|done]|apply all_ends_true|done|].
  { by apply keeps_any. }
  intros _ s1 Hs1 _. apply wp_bind, wp_held_reset. intros s2 Hs2 Hn. apply wp_mbind.
  eapply wp_mono; [apply (wp_held_write_mgmt_infos p infos Hi 0); [done|done|unfold MaxMgmtCIDRPerSlot; lia]|].
  intros r s3 [-> Hs3]. apply wp_bind. eapply wp_mono; [apply (wp_held_stores p [WTransitIfindex (u32 t1); WTransitIp t2]); [|done]|by intros].
  repeat apply Forall_cons_2; try apply Forall_nil_2; by apply keeps_any.
Qed.

Definition good_env (env : provision_env) : Prop := infos_from_metadata (pe_mgmt env).
Lemma wp_held_unreserve fuel m i s : Forall slot_formed s → wp held (unreserve_loop fuel m i) safe s.
Proof.
  intros Hs. apply wp_held_safe; [| |done].
  - induction fuel as [|fuel IH]; [done|]. cbn [unreserve_loop]. apply obeys_bind.
    + unfold TryUnreserve, cas. obeys ltac:(first [exact I | apply keeps_any; [done|by left]]).
    + intros []; [done|]. apply obeys_bind; [apply GetInnerIP_fits|]. intros c. destruct (_ =? _); [done|]. by destruct (negb _).
  - induction fuel as [|fuel IH]; [done|]. cbn [unreserve_loop]. apply calm_bind. intros []; [done|].
    apply calm_bind. intros c. destruct (_ =? _); [done|]. by destruct (negb _).
Qed.
Lemma wp_held_provision_tail env i new old sw' s :
  good_env env → pe_mode env = PortKindVeth ∨ pe_mode env = PortKindTap → Forall slot_formed s →
  wp held (provision_tail env i new old sw') safe s.
Proof.
  intros Hi Hmode Hs. unfold provision_tail. cbv zeta. apply wp_bind.
  eapply (wp_held_ends (λ _, True)); [apply kern_only_ends; kern_only|done|]. intros _ s1 Hs1 _.
  apply wp_held_mbind; [by apply wp_held_writeSlotDeviceInfo|]. intros _ s2 Hs2. apply wp_bind.
  eapply (wp_held_obeys (λ _, True)); [apply update_stores_fits|apply all_ends_true|done|].
  { apply Forall_singleton, keeps_any; [done|]. simpl. destruct Hmode as [-> | ->]; [by left|by right]. }
  intros _ s3 Hs3 _. apply wp_held_mbind; [apply wp_held_kern_ret; [kern_ret|done]|]. intros _ s4 Hs4.
  apply wp_bind. eapply (wp_held_ends (λ _, True)); [apply kern_only_ends, kern_ret_only; kern_ret|done|].
  intros _ s5 Hs5 _. by apply wp_held_unreserve.
Qed.
Lemma wp_held_provision_slot env portNs i mode old s :
  length (sc_SwitchMac (sx_cfg (pe_sw env))) = 6%nat → (pe_mode env = PortKindVeth → is_Some portNs) →
  good_env env → Forall slot_formed s → wp held (provision_slot env portNs i mode old) safe s.
Proof.
  intros Hm Hns Hi Hs. unfold provision_slot. cbv zeta.
  destruct (negb (pe_mode env =? PortKindVeth) && negb (pe_mode env =? PortKindTap)) eqn:E; [by split|].
  apply wp_held_mbind; [apply wp_held_kern_ret; [apply kern_ret_mwrap; by apply create_device_kern_ret|done]|].
  intros new s' Hs'. apply wp_held_provision_tail; [done|lia|done].
Qed.

Definition safe_scan (rp : res Z * option NetNS) (s : list SlotItem) : Prop := safe rp.1 s.
Lemma wp_held_provision_loop env port count m : ∀ i portNs c s,
  length (sc_SwitchMac (sx_cfg (pe_sw env))) = 6%nat → i + Z.of_nat m ≤ sx_numSlots (pe_sw env) →
  good_env env → Forall slot_formed s → wp held (provision_loop m env port count i portNs c) safe_scan s.
Proof.
  induction m as [|m IH]; intros i portNs c s Hm Hi Henv Hs; cbn [provision_loop]; [by split|].
  destruct (_ && _); [apply IH; try done; lia|]. apply wp_bind.
  eapply (wp_held_obeys (λ _, True)); [apply GetInnerIP_fits|apply all_ends_true|done|]. intros ip s1 Hs1 _.
  destruct (negb _); [apply IH; try done; lia|]. rewrite GetSlot_lt by lia.
  apply wp_bind, wp_held_load. intros s2 x [_ Hs2] _. apply wp_bind, wp_held_load. intros s3 y [_ Hs3] _.
  assert (Hslot : ∀ ns s4, (pe_mode env = PortKindVeth → is_Some ns) → Forall slot_formed s4 →
    wp held (let~ r := provision_slot env ns i (SlotPortKind x) (si_Ifindex y) in
             match r with
             | Ok _ => if (0 <? count) && (count <=? c + 1) then Ret (Ok (c + 1), ns)
                       else provision_loop m env port count (i + 1) ns (c + 1)
             | Err e => Ret (Err e, ns)
             | Panic => Ret (Panic, ns)
             | OutOfFuel => Ret (OutOfFuel, ns)
             end) safe_scan s4).
  { intros ns s4 Hns Hs4. apply wp_bind. eapply wp_mono; [by apply wp_held_provision_slot|].
    intros [[]|e| |] s5 [Hr Hs5]; try done. destruct (_ && _); [by split|]. apply IH; try done; lia. }
  apply wp_bind. destruct (pe_mode env =? PortKindVeth) eqn:E.
  - eapply wp_held_ends; [apply openPortNetns_some|done|]. intros [ns|e| |] s4 Hs4 Hns; try done. by apply Hslot.
  - apply Hslot; [lia|done].
Qed.

Lemma learns_ends_in {A} (p : prog A) (Q : A → asked → Prop) g : learns p Q g → ends_in (λ a, ∃ g', Q a g') p.
Proof.
  revert g. induction p as [a|B e k IH]; intros g; [by exists g|]. destruct e as [| | | |C q]; try done.
  intros Hk. split; [done|]. intros b. by eapply IH.
Qed.
Lemma mgmt_infos_from_metadata ns name : length (sc_SwitchMac (sx_cfg sw)) = 6%nat →
  ends_in (λ r, match r with Ok infos => infos_from_metadata infos | Err _ => True | _ => False end)
    (mgmt_infos ns name (sx_cfg sw) 0 (md_MgmtExtracts (sx_meta sw))).
Proof.
  intros Hm. eapply ends_in_mono; [|exact (learns_ends_in _ _ _ (mgmt_infos_learns ns name (sx_cfg sw) _ Hm 0 (MkAsked 0 [])))].
  intros [infos|e| |] (g' & _ & Hr); try done. destruct Hr as [Hlen Hr]. apply Forall_lookup. intros j mi Hmi.
  destruct (lookup_lt_is_Some_2 (md_MgmtExtracts (sx_meta sw)) j) as [me Hme]; [by rewrite <-Hlen; eapply lookup_lt_Some|].
  destruct (Hr j me mi Hme Hmi) as (_ & _ & Hroutes). apply Forall_lookup. intros k c Hc.
  destruct (Forall2_lookup_r _ _ _ _ _ Hroutes Hc) as (route & Hroute & Hp).
  exists me, route, (mi_ifindex mi), (mi_mac mi). split_and!; [by eapply list_elem_of_lookup_2..|done].
Qed.
Section calls.
Context (name : string) (n : Z).
Context (Hn : sx_numSlots sw = n) (Hports : sc_N_ports (sx_cfg sw) = n) (H0 : 0 ≤ n).
Context (Hmac : length (sc_SwitchMac (sx_cfg sw)) = 6%nat).

Lemma wp_held_provision_body fuel opts s :
  Forall slot_formed s → wp held (provision_body fuel name opts sw) safe s.
Proof.
  intros Hs. unfold provision_body. cbv zeta. apply wp_held_mbind; [apply wp_held_kern_ret; [kern_ret|done]|].
  intros ns s1 Hs1. apply wp_held_defer; [apply kern_ret_only, kern_ret_call|].
  apply wp_mbind. eapply wp_held_ends; [by apply mgmt_infos_from_metadata|done|].
  intros [infos|e| |] s2 Hs2 Hi; try done.
  apply wp_held_mbind; [apply wp_held_kern_ret; [apply transit_info_kern_ret|done]|]. intros t s3 Hs3.
  apply wp_bind. eapply wp_mono; [apply wp_held_provision_loop; simpl; [done|lia|exact Hi|done]|].
  intros [r portNs] s4 Hr. apply wp_held_defer; [destruct portNs; [apply kern_ret_only, kern_ret_call|done]|].
  apply wp_held_mbind; [exact Hr|]. intros c s5 Hs5. apply wp_bind.
  eapply (wp_held_obeys (λ _, True)); [apply count_slots_fits|apply all_ends_true|done|]. by intros available s6 Hs6 _.
Qed.
Lemma wp_held_release_body fuel opts s : Forall slot_formed s → wp held (release_body fuel name opts sw) safe s.
Proof. intros Hs. apply wp_held_safe; [apply release_body_fits, _|by eapply release_body_calm|done]. Qed.

Lemma formed_uncounted w x :
  (match w with WMgmtCidrs0 _ | WMgmtCidrsExt _ _ => True | _ => False end) →
  slot_formed x → si_MgmtCidrCount x = 0 → slot_formed (write_slot w x) ∧ si_MgmtCidrCount (write_slot w x) = 0.
Proof.
  intros Hw [Hcnt Hext Hcs Hmode Hfl Hopts Hrdy] Hz. unfold slot_cidrs in Hcs.
  destruct w as [| | | | | | | | |c|j c| | |]; try done; destruct x; simpl in *; subst; (split; [|done]);
    constructor; simpl; try done. by rewrite length_insert.
Qed.
Lemma wp_held_uncounted i w s (Q : unit → list SlotItem → Prop) :
  (match w with WMgmtCidrs0 _ | WMgmtCidrsExt _ _ => True | _ => False end) → counted i 0 s →
  (∀ s', Forall slot_formed s' → counted i 0 s' → Q tt s') → wp held (trigger (EStore i w)) Q s.
Proof.
  intros Hw Hz HQ. apply wp_held_store. intros s' y Hs' Hy.
  destruct (formed_uncounted w y Hw (formed_at _ _ _ (proj2 Hs') Hy) (counted_may _ _ _ _ Hs' Hz y Hy)) as [Hf Hc].
  split; [done|]. apply HQ; [by apply formed_set; [apply Hs'|]|].
  intros z Hzz. rewrite (slot_at_set _ _ _ _ Hy) in Hzz. by simplify_eq.
Qed.
Lemma wp_held_clear_mgmt k : ∀ i s,
  i + Z.of_nat k ≤ n → Forall slot_formed s → wp held (clear_mgmt_loop k n i) safe s.
Proof.
  induction k as [|k IH]; intros i s Hi Hs; cbn [clear_mgmt_loop]; [by split|].
  unfold read_slot. rewrite GetSlot_lt by lia. cbn [deref].
  apply wp_bind, wp_held_load. intros s1 x [_ Hs1] _. apply wp_bind.
  destruct (_ || _); [|apply IH; [lia|done]]. unfold UpdateSlotFields. rewrite GetSlot_lt by lia.
  cbn [stores]. apply wp_bind, wp_held_reset. intros s2 Hs2 Hz2.
  apply wp_bind, wp_held_uncounted; [done|done|]. intros s3 Hs3 Hz3.
  apply wp_bind, wp_held_uncounted; [done|done|]. intros s4 Hs4 Hz4.
  apply wp_bind, wp_held_uncounted; [done|done|]. intros s5 Hs5 Hz5. apply IH; [lia|done].
Qed.
Lemma wp_held_stop_body range s : Forall slot_formed s → wp held (stop_released_body range name sw) safe s.
Proof.
  intros Hs. unfold stop_released_body, validateAllReleased, collectPortInterfaces. rewrite Hports, Hn. cbv zeta.
  apply wp_held_mbind; [apply wp_held_safe; [apply validate_loop_fits|apply validate_loop_calm; lia|done]|].
  intros _ s1 Hs1. apply wp_held_mbind; [apply wp_held_safe; [apply collect_loop_fits|apply collect_loop_calm; lia|done]|].
  intros c s2 Hs2. apply wp_held_mbind; [apply wp_held_kern_ret; [apply stopGetSwitchNs_kern_ret|done]|]. intros nd s3 Hs3.
  apply wp_held_defer; [unfold close_ns_opt; destruct nd.1; [apply kern_ret_only, kern_ret_call|done]|].
  unfold stopCommonCleanup. rewrite Hports, Hn. cbv zeta.
  apply wp_held_mbind; [apply wp_held_kern_ret; [apply delete_mgmt_kern_ret|done]|]. intros _ s4 Hs4.
  apply wp_held_mbind; [apply wp_held_clear_mgmt; [lia|done]|]. intros _ s5 Hs5.
  apply wp_held_kern_ret; [|done]. apply with_transit_back_kern_ret, kern_ret_mbind; [destruct nd.1; kern_ret|].
  intros _. apply UnpinMaps_kern_ret.
Qed.

(** The calls that take the control lock, in the order in which they get it.  A
    panic ends the process. *)
Inductive lock_call :=
  | LRelease (fuel : nat) (opts : ReleaseOptions)
  | LStop (range : gset Z → list Z)
  | LProvision (fuel : nat) (opts : ProvisionOptions).
Definition run_lock_call (c : lock_call) : M unit :=
  match c with
  | LRelease fuel opts => let* _ := release_body fuel name opts sw in mok tt
  | LStop range => stop_released_body range name sw
  | LProvision fuel opts => let* _ := provision_body fuel name opts sw in mok tt
  end.
Fixpoint lock_session (cs : list lock_call) : M unit :=
  match cs with
  | [] => mok tt
  | c :: cs => let~ r := run_lock_call c in match r with Panic => mpanic | _ => lock_session cs end
  end.
Lemma wp_held_session cs : ∀ s, Forall slot_formed s → wp held (lock_session cs) safe s.
Proof.
  induction cs as [|c cs IH]; intros s Hs; cbn [lock_session]; [by split|]. apply wp_bind.
  assert (Hc : wp held (run_lock_call c) safe s).
  { destruct c; cbn [run_lock_call]; [apply wp_held_mbind; [by apply wp_held_release_body|by intros]
      |by apply wp_held_stop_body|apply wp_held_mbind; [by apply wp_held_provision_body|by intros]]. }
  eapply wp_mono; [exact Hc|]. intros [[]|e| |] s' [Hr Hs']; try done; by apply IH.
Qed.
End calls.
End formed.

(** C5: the slots stay well formed.  Let release, stop and provision calls run one
    after the other, as the exclusive control lock makes them, and beside them
    any number of attach, detach, reserve and set-port-up calls and provider
    connections, interleaved event by event, with arbitrary kernel answers and
    arbitrary bytes from the clients.  In every reachable table every slot has a
    known device kind, flags the datapath knows, an option length within the
    maximum, and at most three prefixes; and each entry that its prefix count
    covers is a parsed service route of the switch's metadata, also in the
    middle of a provisioning or a clean-up.  None of the calls under the lock
    panics; in particular the bounds check on the prefix index, whose
    operands are read from the shared slot again and again, always passes. *)
Theorem slots_well_formed sw name locked clients t ps t' :
  ctx_ok sw t → Forall (client_call sw) clients → Forall (slot_formed sw) t →
  rtc pool_step (lock_session sw name locked :: clients, t) (ps, t') →
  Forall (slot_formed sw) t' ∧ ps !! 0%nat ≠ Some (Ret Panic).
Proof.
  intros Hctx Hclients Ht Hsteps. destruct Hctx as [Hnum Hpos _ _ Hmac].
  assert (Hpool : pool_formed sw (λ r, r ≠ Panic) (lock_session sw name locked :: clients) t).
  { exists (lock_session sw name locked), clients. split_and!; [done| | |done].
    - eapply wp_mono; [by eapply wp_held_session|]. by intros r s [Hr _].
    - eapply Forall_impl; [exact Hclients|]. intros p. apply client_call_obeys. }
  destruct (pool_formed_steps sw _ _ _ Hsteps Hpool) as (h & cs & Hps & Hh & _ & Ht'). simpl in *. subst ps.
  split; [done|]. intros [= ->]. by apply Hh.
Qed.

(** A kernel on which every device exists, and a switch with one extraction. *)
Definition devices_kernel : Kernel unit := λ B e k,
  (match e in kev B return B with
   | NsGet => inl 10
   | NsSet _ | NsClose _ => inl tt
   | OsStat _ => inl false
   | NsGetFromName _ => inl 11
   | NlLinkByName n => inl (MkLink n 7 1500 true false true "tuntap" mac_zero)
   | NlLinkByIndex i => inl (MkLink "dev" i 1500 true false true "tuntap" mac_zero)
   | NlQdiscList _ => inl []
   | NlQdiscAdd _ => inl tt
   | MapUpdate _ _ _ _ => inl tt
   | e => refuse e
   end, k).
Definition ex_extract_switch : switchContext :=
  MkContext (sx_name ex_switch) (sx_maps ex_switch) ex_cfg
    (MkSwitchMetadata 1 "swns" "" "" "" "" [MkMgmtExtractMeta "mgmt" "eth0" ["10.96.0.0/12"; "169.254.169.254/32"]] []) 4 4.
Definition ex_locked : list lock_call := [LProvision 1 (MkProvisionOptions 0 0 PortKindTap); LRelease 1 (MkReleaseOptions true)].
Definition ex_clients : list (M unit) :=
  [let~ _ := Attach ex_extract_switch (ex_attach 3) in mok tt; let~ _ := Detach ex_extract_switch (MkDetachOptions 2 "" true) in mok tt].
Definition ex_formed_run : list (M unit) * world unit :=
  @pool_run unit devices_kernel _ (concat (replicate 50 [0; 0; 0; 1; 2]%nat)) (lock_session ex_extract_switch "sw0" ex_locked :: ex_clients)
    (MkWorld ex_table tt).
Lemma slots_well_formed_witness :
  (si_MgmtCidrCount <$> head (w_slots ex_formed_run.2)) = Some 2 ∧
  Forall (λ x, si_MgmtCidrCount x ≤ 3) (w_slots ex_formed_run.2).
Proof.
  split; [by vm_compute|].
  assert (Ht : Forall (slot_formed ex_extract_switch) ex_table).
  { unfold ex_table. repeat apply Forall_cons_2; try apply Forall_nil_2; constructor; simpl; try done; try (by left). }
  eapply Forall_impl; [|intros x Hx; exact (proj2 (fm_count ex_extract_switch x Hx))].
  apply (slots_well_formed ex_extract_switch "sw0" ex_locked ex_clients ex_table ex_formed_run.1).
  - decide_true.
  - repeat constructor.
  - exact Ht.
  - apply (@pool_run_sound unit devices_kernel _ _ _ (MkWorld ex_table tt)).
Defined.
