(* ===== verification/Daemon.v ===== *)
(** * systemd notifications: pkg/daemon/daemon.go

    [notify] talks to the socket systemd names in the environment; a failure is
    only reported.  The keepalive interval is half the watchdog period,
    computed in 64-bit nanoseconds, and never below one second. *)
From S2P Require Import Prelude Errors GoStrings GoTime Prog.

Definition MinWatchdogInterval : Z := 1 * Second.

Definition notify (msg : string) : prog unit :=
  let~ socketAddr := kern (OsGetenv "NOTIFY_SOCKET") in
  if bool_decide (socketAddr = "") then Ret tt
  else
    let~ r := kern (DialUnix "unixgram" socketAddr) in
    match r with
    | inr err => kern (Stderr ("[warn] sd_notify failed: " +:+ emsg err +:+ nl))
    | inl conn =>
        let~ w := kern (ConnWrite conn msg) in
        let~ _ := match w with
                  | (_, Some err) => kern (Stderr ("[warn] sd_notify write failed: " +:+ emsg err +:+ nl))
                  | (_, None) => Ret tt
                  end in
        let~ _ := kern (ConnClose conn) in Ret tt
    end.

Definition NotifyReady : prog unit := notify "READY=1".
Definition NotifyStatus (msg : string) : prog unit := notify ("STATUS=" +:+ msg).
Definition NotifyWatchdog : prog unit := notify "WATCHDOG=1".

(** The interval for a value of [WATCHDOG_USEC]; the product wraps. *)
Definition watchdog_interval (usecStr : string) : option Z :=
  if bool_decide (usecStr = "") then None
  else
    match atoi usecStr with
    | Ok usec =>
        if usec <=? 0 then None
        else
          let interval := Z.quot (i64 (usec * Microsecond)) 2 in
          Some (if interval <? MinWatchdogInterval then MinWatchdogInterval else interval)
    | _ => None
    end.
Definition WatchdogEnabled : prog (option Z) :=
  let~ usecStr := kern (OsGetenv "WATCHDOG_USEC") in Ret (watchdog_interval usecStr).

(** ** The keepalive loop

    Every callback runs, and every failure is reported, before the decision. *)
Fixpoint run_callbacks (callbacks : list (prog (option error))) (healthy : bool) : prog bool :=
  match callbacks with
  | [] => Ret healthy
  | cb :: callbacks =>
      let~ r := cb in
      match r with
      | Some err => let~ _ := NotifyStatus (emsg err) in run_callbacks callbacks false
      | None => run_callbacks callbacks healthy
      end
  end.

(** [fuel] bounds the ticks. *)
Fixpoint watchdog_loop (fuel : nat) (callbacks : list (prog (option error))) : M unit :=
  match fuel with
  | O => Ret OutOfFuel
  | S fuel =>
      let~ tick := kern TickOrDone in
      if (tick : bool) then
        let~ healthy := run_callbacks callbacks true in
        let~ _ := if (healthy : bool) then NotifyWatchdog else Ret tt in
        watchdog_loop fuel callbacks
      else mok tt
  end.

Definition RunWatchdog (fuel : nat) (callbacks : list (prog (option error))) : M unit :=
  let~ interval := WatchdogEnabled in
  match interval with
  | None => mok tt
  | Some _ => watchdog_loop fuel callbacks
  end.

(** The keepalive is never sent more often than once a second, and at least
    twice per watchdog period when that period is two seconds or more, also
    when the product of the period and 1000 wraps. *)
Lemma watchdog_interval_bounds s usec i :
  atoi s = Ok usec → watchdog_interval s = Some i →
  MinWatchdogInterval ≤ i ∧ (2000000 ≤ usec → 2 * i ≤ usec * Microsecond).
Proof.
  intros Hu. unfold watchdog_interval. case_bool_decide; [done|]. rewrite Hu.
  destruct (usec <=? 0) eqn:E; [done|]. apply Z.leb_gt in E. intros [= <-].
  unfold MinWatchdogInterval, GoTime.Second, Millisecond, Microsecond, Nanosecond.
  set (d := i64 _). assert (d ≤ usec * (1000 * 1)) as Hd.
  { unfold d, i64. pose proof (Z.mod_le (usec * (1000 * 1) + 2 ^ 63) (2 ^ 64)). lia. }
  pose proof (Z.quot_rem' d 2) as Hq. pose proof (Z.rem_bound_abs d 2).
  destruct (Z.quot d 2 <? _) eqn:Ei; [lia|]. apply Z.ltb_ge in Ei. lia.
Qed.
Example watchdog_thirty : watchdog_interval "30000000" = Some (15 * Second).
Proof. reflexivity. Qed.
Example watchdog_wraps : watchdog_interval "9223372036854776" = Some MinWatchdogInterval.
Proof. reflexivity. Qed.
