(* ===== verification/Output.v ===== *)
(** * The JSON documents of the commands

    Every output structure of pkg/vswitch, pkg/dhcp and cmd/connector-ctl as
    the value its field tags describe, in field order, and [printJSON].  A
    slice the code never leaves nil is an array even when empty; a map is
    written with its keys in byte order. *)
From S2P Require Import Prelude Errors GoStrings GoNet Json BpfTypes Mac Geneve Prog Config MgmtService Metadata.
From S2P Require Import Context Attach Provision Stop Status Dhcp Lifecycle TapfdFd TapServer.
From stdpp Require Import sorting.

Definition AttachOutput_json (o : AttachOutput) : json :=
  JObj (opt_bool "admin_down" (at_AdminDown o) ++ [("port", JNum (at_Port o))] ++
        opt_num "generation" (at_Generation o) ++ opt_num "generation_bits" (at_GenerationBits o) ++
        [("port_dev", JString (at_PortDev o)); ("port_netns", JString (at_PortNetNS o));
         ("port_mac", JString (at_PortMAC o)); ("inner_ip", JString (at_InnerIP o));
         ("floating_ip", JString (at_FloatingIP o)); ("mode", JString (at_Mode o));
         ("transit_type", JString (at_TransitType o))] ++
        opt_str "transit_gateway_ip" (at_TransitGatewayIP o) ++ opt_num "geneve_port" (at_GenevePort o) ++
        opt_str "geneve_locator" (at_GeneveLocator o) ++ opt_num "transit_geneve_vni" (at_TransitGeneveVNI o) ++
        opt_num "wire_geneve_vni" (at_WireGeneveVNI o) ++ opt_num "geneve_opts_len" (at_GeneveOptsLen o) ++
        opt_str "tap_sent_to" (at_TapSentTo o) ++ opt_bool "tap_netns_sent" (at_TapNetnsSent o)).

Definition Condition_json (c : Condition) : json :=
  JObj ([("type", JString (cd_Type c)); ("status", JString (cd_Status c))] ++
        opt_str "reason" (cd_Reason c) ++ opt_str "message" (cd_Message c)).
Definition MgmtPlaneInfo_json (m : MgmtPlaneInfo) : json :=
  JObj [("index", JNum (mpi_Index m)); ("mgmt_netns", JString (mpi_MgmtNetNS m)); ("mgmt_dev", JString (mpi_MgmtDev m));
        ("service_routes", JArr (map JString (mpi_ServiceRoutes m)));
        ("return_route_metric", JNum (mpi_ReturnRouteMetric m))].
Definition MgmtServiceInfo_json (m : MgmtServiceInfo) : json :=
  JObj [("vip", JString (msi_VIP m)); ("vport", JNum (msi_VPort m)); ("target_ip", JString (msi_TargetIP m));
        ("target_port", JNum (msi_TargetPort m)); ("protocols", JString (msi_Protocols m))].
Definition StatusOutput_json (s : StatusOutput) : json :=
  JObj ([("switch", JString (ss_Switch s)); ("state", JString (ss_State s));
         ("switch_netns", JString (ss_SwitchNetNS s)); ("port_netns", JString (ss_PortNetNS s));
         ("ports", JNum (ss_Ports s)); ("ports_used", JNum (ss_PortsUsed s));
         ("ports_available", JNum (ss_PortsAvailable s)); ("ports_reserved", JNum (ss_PortsReserved s))] ++
        opt_num "generation_bits" (ss_GenerationBits s) ++
        opt_arr "mgmt_planes" MgmtPlaneInfo_json (ss_MgmtPlanes s) ++
        opt_arr "mgmt_services" MgmtServiceInfo_json (ss_MgmtServices s) ++
        opt_str "transit_dev" (ss_TransitDev s) ++ opt_str "transit_dev_ip" (ss_TransitDevIP s) ++
        opt_arr "conditions" Condition_json (ss_Conditions s)).

Definition PortStatsOutput_json (p : PortStatsOutput) : json :=
  JObj ([("port", JNum (pt_Port p)); ("inner_ip", JString (pt_InnerIP p)); ("floating_ip", JString (pt_FloatingIP p))] ++
        opt_num "generation" (pt_Generation p) ++
        [("port_mac", JString (pt_PortMAC p));
         ("mgmt_rx_packets", JNum (pt_MgmtRxPackets p)); ("mgmt_rx_bytes", JNum (pt_MgmtRxBytes p));
         ("mgmt_tx_packets", JNum (pt_MgmtTxPackets p)); ("mgmt_tx_bytes", JNum (pt_MgmtTxBytes p));
         ("transit_rx_packets", JNum (pt_TransitRxPackets p)); ("transit_rx_bytes", JNum (pt_TransitRxBytes p));
         ("transit_tx_packets", JNum (pt_TransitTxPackets p)); ("transit_tx_bytes", JNum (pt_TransitTxBytes p))]).
Definition StatsOutput_json (s : StatsOutput) : json :=
  JObj [("switch", JString (so_Switch s)); ("ports", JArr (map PortStatsOutput_json (so_Ports s)))].

Definition ReleaseOutput_json (r : ReleaseOutput) : json :=
  JObj [("released", JNum (rl_Released r)); ("total", JNum (rl_Total r)); ("remaining", JNum (rl_Remaining r))].
Definition ProvisionOutput_json (p : ProvisionOutput) : json :=
  JObj [("provisioned", JNum (pr_Provisioned p)); ("total", JNum (pr_Total p)); ("available", JNum (pr_Available p))].
Definition ReserveOutput_json (r : ReserveOutput) : json :=
  JObj [("port", JNum (re_Port r)); ("status", JString (re_Status r))].

(** Map keys are written in order. *)
Definition key_le (a b : string * string) : Prop := String.leb (fst a) (fst b) = true.
#[export] Instance key_le_dec a b : Decision (key_le a b).
Proof. unfold key_le. apply _. Defined.
Definition map_json (m : gmap string string) : json :=
  JObj (map (λ '(k, v), (k, JString v)) (merge_sort key_le (map_to_list m))).
Definition StartOutput_json (s : StartOutput) : json :=
  JObj ([("switch", JString (sto_Switch s)); ("switch_netns", JString (sto_SwitchNetNS s));
         ("switch_maps", map_json (sto_SwitchMaps s)); ("port_netns", JString (sto_PortNetNS s));
         ("ports", JNum (sto_Ports s)); ("ports_used", JNum (sto_PortsUsed s));
         ("ports_available", JNum (sto_PortsAvailable s)); ("ports_reserved", JNum (sto_PortsReserved s));
         ("floating_ip_base", JString (sto_FloatingIPBase s))] ++
        opt_num "generation_bits" (sto_GenerationBits s) ++
        opt_arr "mgmt_planes" MgmtPlaneInfo_json (sto_MgmtPlanes s) ++
        opt_arr "mgmt_services" MgmtServiceInfo_json (sto_MgmtServices s) ++
        [("transit_type", JString (sto_TransitType s))] ++
        opt_str "transit_dev" (sto_TransitDev s) ++ opt_str "transit_dev_ip" (sto_TransitDevIP s) ++
        opt_str "geneve_locator" (sto_GeneveLocator s) ++ opt_num "geneve_port" (sto_GenevePort s) ++
        opt_num "geneve_port_base" (sto_GenevePortBase s) ++
        opt_str "geneve_tlv_locator" (sto_GeneveTLVLocator s)).

Definition OpenPortResult_json (r : OpenPortResult) : json :=
  JObj [("port", JNum (op_Port r)); ("tap_dev", JString (op_TapDev r)); ("sent_to", JString (op_SentTo r));
        ("mac", JString (op_MAC r)); ("inner_ip", JString (op_InnerIP r)); ("netns_sent", JBool (op_NetnsSent r))].

Definition LeaseOutput_json (l : LeaseOutput) : json :=
  JObj ([("interface", JString (lo_Interface l)); ("ip", JString (lo_IP l)); ("netmask", JString (lo_Netmask l));
         ("prefix_len", JNum (lo_PrefixLen l)); ("cidr", JString (lo_CIDR l))] ++
        opt_str "gateway" (lo_Gateway l) ++ opt_arr "dns_servers" JString (lo_DNSServers l) ++
        [("lease_time_seconds", JNum (lo_LeaseTimeSeconds l))] ++ opt_str "server_id" (lo_ServerID l)).

(** ** show (cmd/connector-ctl/show.go) *)
Record SlotJSON := MkSlotJSON {
  sj_AdminDown : bool; sj_SlotID : Z; sj_Port : Z; sj_State : string; sj_Mode : string; sj_Allocated : bool;
  sj_InnerIP : string; sj_FloatingIP : string; sj_Generation : Z; sj_PortMAC : string; sj_TransitIP : string;
  sj_TransitGatewayIP : string; sj_TransitGeneveVNI : Z; sj_GeneveOptsLen : Z; sj_TransitMAC : string;
  sj_Ifindex : Z;
}.
Definition SlotJSON_json (s : SlotJSON) : json :=
  JObj (opt_bool "admin_down" (sj_AdminDown s) ++
        [("slot_id", JNum (sj_SlotID s)); ("port", JNum (sj_Port s)); ("state", JString (sj_State s));
         ("mode", JString (sj_Mode s)); ("allocated", JBool (sj_Allocated s)); ("inner_ip", JString (sj_InnerIP s));
         ("floating_ip", JString (sj_FloatingIP s))] ++
        opt_num "generation" (sj_Generation s) ++ [("port_mac", JString (sj_PortMAC s))] ++
        opt_str "transit_ip" (sj_TransitIP s) ++ opt_str "transit_gateway_ip" (sj_TransitGatewayIP s) ++
        opt_num "transit_geneve_vni" (sj_TransitGeneveVNI s) ++ opt_num "geneve_opts_len" (sj_GeneveOptsLen s) ++
        opt_str "transit_mac" (sj_TransitMAC s) ++ [("ifindex", JNum (sj_Ifindex s))]).
Record ConfigJSON := MkConfigJSON {
  cj_SwitchMAC : string; cj_PortMAC : string; cj_NPorts : Z; cj_FloatingIPBase : string; cj_GenerationBits : Z;
  cj_GeneveLocator : string; cj_GenevePort : Z; cj_GenevePortBase : Z; cj_GeneveTLVLocator : string;
  cj_GeneveEncapEth : bool; cj_TransitNexthop : string; cj_TransitDev : string; cj_TransitDevAddr : string;
  cj_MgmtPlanes : list MgmtPlaneInfo; cj_MgmtServices : list MgmtServiceInfo;
}.
Definition ConfigJSON_json (c : ConfigJSON) : json :=
  JObj ([("switch_mac", JString (cj_SwitchMAC c)); ("port_mac", JString (cj_PortMAC c)); ("n_ports", JNum (cj_NPorts c));
         ("floating_ip_base", JString (cj_FloatingIPBase c))] ++
        opt_num "generation_bits" (cj_GenerationBits c) ++
        [("geneve_locator", JString (cj_GeneveLocator c)); ("geneve_port", JNum (cj_GenevePort c))] ++
        opt_num "geneve_port_base" (cj_GenevePortBase c) ++ opt_str "geneve_tlv_locator" (cj_GeneveTLVLocator c) ++
        [("geneve_encap_eth", JBool (cj_GeneveEncapEth c))] ++
        opt_str "transit_nexthop" (cj_TransitNexthop c) ++ opt_str "transit_dev" (cj_TransitDev c) ++
        opt_str "transit_dev_addr" (cj_TransitDevAddr c) ++
        opt_arr "mgmt_planes" MgmtPlaneInfo_json (cj_MgmtPlanes c) ++
        opt_arr "mgmt_services" MgmtServiceInfo_json (cj_MgmtServices c)).

(** ** deps.go *)
Definition printJSON (v : json) : M unit := let~ _ := kern (Stdout (json_pretty 0 v +:+ nl)) in mok tt.

Example reserve_document :
  json_pretty 0 (ReserveOutput_json (MkReserveOutput 7 "reserved")) =
  "{" +:+ nl +:+ "    " +:+ json_quote "port" +:+ ": 7," +:+ nl +:+
  "    " +:+ json_quote "status" +:+ ": " +:+ json_quote "reserved" +:+ nl +:+ "}".
Proof. reflexivity. Qed.
