(* ===== verification/Cli.v ===== *)
(** * The commands: cmd/connector-ctl

    One definition per command's [RunE] function.  The flags a command line
    sets are a record per command, its positional arguments a list or a name;
    the parsing of the command line, which a package outside the repository
    does, is not modelled.  [os.Exit] is an event that the code is written to
    survive, as its tests do; that it ends the process is a matter of the
    semantics (CliSpec.v). *)
From S2P Require Import Prelude Errors GoStrings GoTime GoNet Json BpfTypes Mac Geneve Prog SlotTable Netns Netlink Config.
From S2P Require Import MgmtService Metadata Loader Context Flock Attach Provision Stop Status Dhcp Lifecycle TapfdFd TapServer Output.

(** ** Shared endings *)
Definition not_running (switchName : string) : string := "Switch " +:+ switchName +:+ " is not running" +:+ nl.
Definition exit_missing (switchName : string) : M unit :=
  let~ _ := kern (Stdout (not_running switchName)) in
  let~ _ := kern (OsExit 3) in mok tt.

(** Exit status 3 for a switch that does not exist; other errors are returned. *)
Definition or_missing {A} (switchName : string) (p : M A) (k : A → M unit) : M unit :=
  let~ r := p in
  match r with
  | Ok a => k a
  | Err err => if IsNotExist (Some err) then exit_missing switchName else merr err
  | Panic => mpanic
  | OutOfFuel => Ret OutOfFuel
  end.

Section commands.
Context (unmarshal : string → res SwitchMetadata) (map_range : gset Z → list Z) (fuel : nat).

Definition opened (switchName : string) (k : switchContext → M unit) : M unit :=
  or_missing switchName (Open unmarshal switchName) (λ sw, with_defer (switchContext_Close sw) (k sw)).

(** ** status.go, stats.go *)
Definition runStatus (statusReadyOnly : bool) (switchName : string) : M unit :=
  or_missing switchName (StatusByName unmarshal map_range switchName) (λ output,
    if statusReadyOnly then
      if StatusOutput_IsReady output then let~ _ := kern (Stdout ("Ready" +:+ nl)) in mok tt
      else
        let reasons := GetNotReadyReasons output in
        let~ _ := kern (Stdout (if bool_decide (reasons = "") then "NotReady" +:+ nl
                                else "NotReady: " +:+ reasons +:+ nl)) in
        let~ _ := kern (OsExit 4) in mok tt
    else printJSON (StatusOutput_json output)).

Definition runStats (statsPorts : list Z) (switchName : string) : M unit :=
  or_missing switchName (StatsByName unmarshal switchName statsPorts) (λ output, printJSON (StatsOutput_json output)).

(** ** stop.go *)
Record stop_flags := MkStopFlags { stopForce : bool; stopForceClean : bool }.

Definition stop_defaults : stop_flags := MkStopFlags false false.
Definition runStop (f : stop_flags) (switchName : string) : M unit :=
  let~ r := Stop unmarshal map_range fuel switchName (MkStopOptions (stopForce f)) in
  match r with
  | Ok _ => let~ _ := kern (Stdout ("Switch " +:+ switchName +:+ " stopped" +:+ nl)) in mok tt
  | Err err =>
      if IsPortsInUse (Some err) then
        let~ _ := kern (Stderr (emsg err +:+ nl)) in
        let~ _ := kern (Stderr ("Free ports have been reserved (no new attach allowed)." +:+ nl)) in
        let~ _ := kern (Stderr ("Drain active ports and retry, or use --force to override." +:+ nl)) in
        let~ _ := kern (OsExit 4) in mok tt
      else if IsNotExist (Some err) then exit_missing switchName
      else if IsSwitchCorrupted (Some err) && stopForceClean f then
        let~ _ := kern (Stderr ("[warn] " +:+ emsg err +:+ nl)) in
        let~ _ := kern (Stderr ("[warn] force-cleaning pinned data for " +:+ switchName +:+ nl)) in
        let* _ := mwrap (λ e, errorw "force cleanup failed: " e "") (ForceCleanup switchName) in
        let~ _ := kern (Stdout ("Switch " +:+ switchName +:+ " force-cleaned" +:+ nl)) in mok tt
      else merr err
  | Panic => mpanic
  | OutOfFuel => Ret OutOfFuel
  end.

(** ** reserve.go, detach.go, provision.go *)
Definition runReserve (reservePort : Z) (reserveForce : bool) (switchName : string) : M unit :=
  if reservePort <=? 0 then merr (errorf "--port is required")
  else
    let* output := ReserveByName unmarshal fuel switchName (MkReserveOptions reservePort reserveForce) in
    printJSON (ReserveOutput_json output).

Definition runDetach (f : DetachOptions) (switchName : string) : M unit :=
  let* _ := DetachByName unmarshal switchName f in
  let~ _ := kern (Stdout ("Port " +:+ fmt_d (do_Port f) +:+ " detached from switch " +:+ switchName +:+ nl)) in mok tt.

Definition runProvision (provisionCount provisionPort : Z) (provisionMode switchName : string) : M unit :=
  if (0 <? provisionCount) && (0 <? provisionPort)
  then merr (errorf "--count and --port are mutually exclusive")
  else
    let* mode := mwrap (λ e, errorw "invalid --mode: " e "") (mpure (ParsePortKind provisionMode)) in
    let* output := ProvisionPorts unmarshal fuel switchName (MkProvisionOptions provisionCount provisionPort mode) in
    printJSON (ProvisionOutput_json output).

(** ** set_port_up.go *)
Record up_flags := MkUpFlags {
  upPort : Z; upInnerIP : string; upGateway : string; upVNI : Z; upOpts : list string; upMAC : string;
}.
Definition up_defaults : up_flags := MkUpFlags 0 "" "" 0 [] "".
Definition set_port_up_options (f : up_flags) : res PortUpOptions :=
  let ip := ParseIP (upInnerIP f) in
  guard! (bool_decide (is_Some ip) && bool_decide (is_Some (To4 ip)))
  else errorf ("invalid final inner IPv4 " +:+ fmt_q (upInnerIP f)) in
  let! gw := if bool_decide (upGateway f = "") then Ok None
             else
               let gw := ParseIP (upGateway f) in
               guard! (bool_decide (is_Some gw) && bool_decide (is_Some (To4 gw)))
               else errorf ("invalid transit gateway " +:+ fmt_q (upGateway f)) in Ok gw in
  let! mac := if bool_decide (upMAC f = "") then Ok [] else ParseMAC (upMAC f) in
  let! options := res_mapM ParseGeneveOption (upOpts f) in
  Ok (MkPortUpOptions (upPort f) ip gw (upVNI f) options mac).
Definition runSetPortUp (f : up_flags) (switchName : string) : M unit :=
  let* o := mpure (set_port_up_options f) in SetPortUpByName unmarshal switchName o.

(** ** open_port.go *)
Definition runOpenPort (openPortPort : Z) (switchName : string) : M unit :=
  if openPortPort <=? 0 then merr (errorf "--port must be a positive integer")
  else
    let~ socketSpec := kern (OsGetenv tapSocketEnv) in
    if bool_decide (socketSpec = "")
    then merr (errorf (tapSocketEnv +:+ " environment variable is required (fd=N or socket path)"))
    else
      opened switchName (λ sw,
        let* slotID := validateOpenPort sw openPortPort in
        let~ want := wantNetnsFD in
        let* result := openPortAndSend sw switchName slotID socketSpec want in
        printJSON (OpenPortResult_json result)).

(** ** attach.go *)
Record attach_flags := MkAttachFlags {
  attachPort : Z; attachGeneration : Z; attachToNetNS : string; attachInnerIP : string;
  attachTransitGatewayIP : string; attachTransitGeneveVNI : Z; attachTransitGeneveOpts : list string;
  attachTransitMACAddr : string; attachAdminDown : bool; attachSkipDevice : bool; attachOpenPort : bool;
}.
Definition attach_defaults : attach_flags := MkAttachFlags 0 0 "" "" "" 0 [] "" false false false.

(** Options are numbered from 1 in the message. *)
Fixpoint parse_geneve_flags (i : Z) (values : list string) : res (list GeneveOption) :=
  match values with
  | [] => Ok []
  | value :: values =>
      let! option := map_err (λ e, errorw ("invalid --transit-geneve-opt #" +:+ fmt_d (i + 1) +:+ ": ") e "")
                             (ParseGeneveOption value) in
      let! options := parse_geneve_flags (i + 1) values in
      Ok (option :: options)
  end.

Definition attach_options (f : attach_flags) (innerIP : IP) : res AttachOptions :=
  let! options := parse_geneve_flags 0 (attachTransitGeneveOpts f) in
  let! gw := if bool_decide (attachTransitGatewayIP f = "") then Ok None
             else match ParseIP (attachTransitGatewayIP f) with
                  | None => Err (errorf ("invalid transit-gateway-ip: " +:+ attachTransitGatewayIP f))
                  | gw => Ok gw
                  end in
  let! mac := if bool_decide (attachTransitMACAddr f = "") then Ok []
              else map_err (λ e, errorw "invalid transit-mac-addr: " e "") (ParseMAC (attachTransitMACAddr f)) in
  Ok (MkAttachOptions (attachPort f) (attachGeneration f) (attachToNetNS f) innerIP gw (attachTransitGeneveVNI f)
        options mac (attachAdminDown f) (attachSkipDevice f)).

Definition set_tap_sent (r : OpenPortResult) (o : AttachOutput) : AttachOutput :=
  MkAttachOutput (at_AdminDown o) (at_Port o) (at_Generation o) (at_GenerationBits o) (at_PortDev o)
    (at_PortNetNS o) (at_PortMAC o) (at_InnerIP o) (at_FloatingIP o) (at_Mode o) (at_TransitType o)
    (at_TransitGatewayIP o) (at_GenevePort o) (at_GeneveLocator o) (at_TransitGeneveVNI o)
    (at_WireGeneveVNI o) (at_GeneveOptsLen o) (op_SentTo r) (op_NetnsSent r).

Definition attachSendTapFd (switchName : string) (out : AttachOutput) (socketSpec : string) (withNetnsFD : bool)
    : M OpenPortResult :=
  with_switch (Open unmarshal switchName) (λ sw,
    openPortAndSend sw switchName (u32 (at_Port out - 1)) socketSpec withNetnsFD).

(** [_ = vswitchDetach(...)]. *)
Definition undo_attach (switchName : string) (out : AttachOutput) : M unit :=
  ignore_err (DetachByName unmarshal switchName (MkDetachOptions (at_Port out) "" true)).

Definition attach_and_open (switchName tapSocketSpec : string) (output : AttachOutput) : M AttachOutput :=
  if negb (bool_decide (at_Mode output = "tap")) then
    let* _ := undo_attach switchName output in
    merr (errorf ("--open-port is only valid for tap-mode slots (port " +:+ fmt_u (at_Port output)
                  +:+ " is " +:+ at_Mode output +:+ ")"))
  else
    let~ want := wantNetnsFD in
    let~ r := attachSendTapFd switchName output tapSocketSpec want in
    match r with
    | Ok fdInfo => mok (set_tap_sent fdInfo output)
    | Err err =>
        let* _ := undo_attach switchName output in
        merr (errorw "attach succeeded but tap fd transfer failed: " err "")
    | Panic => mpanic
    | OutOfFuel => Ret OutOfFuel
    end.

Definition runAttach (f : attach_flags) (switchName : string) : M unit :=
  if bool_decide (attachInnerIP f = "") then merr (errorf "--inner-ip is required")
  else
    match ParseIP (attachInnerIP f) with
    | None => merr (errorf ("invalid inner-ip: " +:+ attachInnerIP f))
    | innerIP =>
        let~ tapSocketSpec := if attachOpenPort f then kern (OsGetenv tapSocketEnv) else Ret "" in
        if attachOpenPort f && bool_decide (tapSocketSpec = "")
        then merr (errorf ("--open-port requires the " +:+ tapSocketEnv
                           +:+ " environment variable (fd=N or socket path)"))
        else
          let* opts := mpure (attach_options f innerIP) in
          let* output := AttachByName unmarshal switchName opts in
          let* output := if attachOpenPort f then attach_and_open switchName tapSocketSpec output else mok output in
          printJSON (AttachOutput_json output)
    end.

(** ** show.go *)
Fixpoint isZeroMAC (mac : HardwareAddr) : bool :=
  match mac with
  | [] => true
  | b :: mac => if negb (b =? 0) then false else isZeroMAC mac
  end.

Definition slot_state_name (innerIP : Z) : string :=
  if innerIP =? InnerIPFree then "free" else if innerIP =? InnerIPReserved then "reserved" else "allocated".

Definition slotToJSON (cfg : SwitchConfig) (ps : PortSlot) (sid : Z) : res SlotJSON :=
  let s := ps_Slot ps in
  let! portMAC := GetPortMAC (sc_SwitchMac cfg) (sc_PortMac cfg) sid in
  let ip_or_empty v := if v =? 0 then "" else ip_string (Uint32ToIP v) in
  Ok (MkSlotJSON
        (ps_Allocated ps && negb (Z.land (sc_Features cfg) SwitchFPortUp =? 0) && (Z.land (si_Flags s) PortFUp =? 0))
        sid (ps_Port ps) (slot_state_name (si_InnerIp s)) (PortKind_String (SlotPortKind s)) (ps_Allocated ps)
        (ip_string (Uint32ToIP (si_InnerIp s)))
        (ip_string (Uint32ToIP (FloatingIPForAttachment (sc_FloatingIpBase cfg) sid (si_Generation s))))
        (si_Generation s) (mac_string portMAC) (ip_or_empty (si_TransitIp s)) (ip_or_empty (si_TransitGatewayIp s))
        (si_TransitGeneveVni s)
        (if ps_Allocated ps then geneveTotalOptionsLen (geneveLocatorFromConfig cfg) (si_GeneveOptsLen s) else 0)
        (if isZeroMAC (si_TransitMac s) then "" else mac_string (si_TransitMac s)) (si_Ifindex s)).

Definition slot_filter (cfg : SwitchConfig) (slotArg : option string) : res (option Z) :=
  match slotArg with
  | None => Ok None
  | Some arg =>
      let! v := map_err (λ e, errorw ("invalid slot_id " +:+ fmt_q arg +:+ ": ") e "") (parse_uint arg 10 32) in
      guard! (negb (sc_N_ports cfg <=? u32 v))
      else errorf ("slot_id " +:+ fmt_u v +:+ " out of range (max " +:+ fmt_u (u32 (sc_N_ports cfg - 1)) +:+ ")") in
      Ok (Some (u32 v))
  end.

Fixpoint slots_to_json (cfg : SwitchConfig) (wanted : option Z) (slots : list PortSlot) : res (list SlotJSON) :=
  match slots with
  | [] => Ok []
  | ps :: slots =>
      let sid := u32 (ps_Port ps - 1) in
      if match wanted with Some f => negb (sid =? f) | None => false end
      then slots_to_json cfg wanted slots
      else
        let! sj := slotToJSON cfg ps sid in
        let! out := slots_to_json cfg wanted slots in
        Ok (sj :: out)
  end.

Definition runShowSlots (switchName : string) (slotArg : option string) : M unit :=
  opened switchName (λ sw,
    let* slots := Ports sw false in
    let* wanted := mpure (slot_filter (sx_cfg sw) slotArg) in
    let* out := mpure (slots_to_json (sx_cfg sw) wanted slots) in
    printJSON (JArr (map SlotJSON_json out))).

Definition config_view (cfg : SwitchConfig) (meta : SwitchMetadata) : ConfigJSON :=
  let loc := geneveLocatorFromConfig cfg in
  MkConfigJSON (mac_string (sc_SwitchMac cfg)) (mac_string (sc_PortMac cfg)) (sc_N_ports cfg)
    (ip_string (Uint32ToIP (sc_FloatingIpBase cfg))) (sc_GenerationBits cfg)
    (GeneveLocator_String loc) (geneveWirePort loc (sc_GenevePortBase cfg) 0)
    (if loc =? GeneveLocatorPort then sc_GenevePortBase cfg else 0)
    (if loc =? GeneveLocatorTLV then GeneveTLVLocator_String (geneveTLVLocatorFromConfig cfg) else "")
    (negb (sc_GeneveEncapEth cfg =? 0))
    (if sc_TransitNexthop cfg =? 0 then "" else ip_string (Uint32ToIP (sc_TransitNexthop cfg)))
    (TransitDevName meta) (TransitDevAddrStr meta) (MgmtPlaneInfos (Some meta)) (metadata_MgmtServiceInfos (Some meta)).
Definition runShowConfig (switchName : string) : M unit :=
  opened switchName (λ sw, printJSON (ConfigJSON_json (config_view (sx_cfg sw) (sx_meta sw)))).
End commands.

(** ** main.go

    [execute] is the command chosen by the command line.  The runtime ends a
    panicking process with status 2. *)
Definition main (execute : M unit) : prog unit :=
  let~ r := execute in
  match r with
  | Err err => let~ _ := kern (Stderr (emsg err +:+ nl)) in kern (OsExit 1)
  | Panic => kern (OsExit 2)
  | _ => Ret tt
  end.
