(* ===== verification/CliStart.v ===== *)
(** * Starting a switch from the command line

    cmd/connector-ctl/start.go: the configuration from the flags or from a
    file, and the start command; [LoadConfigFile] of pkg/vswitch/config.go with
    the JSON reader as a parameter; the DHCP commands (dhcp.go, dhcp_serve.go). *)
From S2P Require Import Prelude Errors GoStrings GoTime GoNet Json BpfTypes Mac Geneve Prog SlotTable Netns Netlink Config.
From S2P Require Import MgmtService Metadata Loader Context Flock Attach Provision Stop Status Dhcp Lifecycle TapfdFd TapServer Output Cli.

(** ** Configuration *)
Record start_flags := MkStartFlags {
  startConfigFile : string; startNetNS : string; startPortNetNS : string; startPorts : Z; startMACAddr : string;
  startFloatingIPBase : string; startGenerationBits : Z; startMgmtExtracts : list string;
  startMgmtServices : list string; startTransitDev : string; startTransitDevAddr : string;
  startTransitDevMTU : string; startGeneveLocator : string; startGenevePortBase : Z;
  startGeneveTLVLocator : string; startGeneveEncapEth : bool; startMTU : Z; startPortMACAddr : string;
  startReserved : bool; startMode : string;
}.

(** The values of the flags that are not given. *)
Definition start_defaults : start_flags :=
  MkStartFlags "" "" "" 0 "" "" 0 [] [] "" "" "" "port" 50000 "" false 0 "fixed" false "tap".

Definition set_Name (name : string) (c : Config) : Config :=
  let '(MkConfig _ sns pns n mac fip gb ex sv td ta tn taa tm tma pb loc tlv eth mtu pm dm def) := c in
  MkConfig name sns pns n mac fip gb ex sv td ta tn taa tm tma pb loc tlv eth mtu pm dm def.
Definition set_DefaultMode (mode : Z) (c : Config) : Config :=
  let '(MkConfig name sns pns n mac fip gb ex sv td ta tn taa tm tma pb loc tlv eth mtu pm _ def) := c in
  MkConfig name sns pns n mac fip gb ex sv td ta tn taa tm tma pb loc tlv eth mtu pm mode def.

Definition opt_tlv (text : string) : res (option GeneveTLVLocator) :=
  if bool_decide (text = "") then Ok None
  else let! parsed := ParseGeneveTLVLocator text in Ok (Some parsed).

(** Address, next hop, whether the address is automatic, MTU, whether the MTU
    is automatic; without a transit device the other flags are ignored. *)
Definition transit_flags (f : start_flags) : res (option IPNet * IP * bool * (Z * bool)) :=
  if bool_decide (startTransitDev f = "") then Ok (None, None, false, (0, false))
  else
    let! addr :=
      if bool_decide (startTransitDevAddr f = "") then Ok (None, None, false)
      else if bool_decide (startTransitDevAddr f = "auto") then Ok (None, None, true)
      else let! r := map_err (λ e, errorw "invalid transit-dev-addr: " e "") (ParseTransitDevAddr (startTransitDevAddr f)) in
           Ok (Some (fst r), snd r, false) in
    let! mtu :=
      if bool_decide (startTransitDevMTU f = "") then Ok (0, false)
      else if bool_decide (startTransitDevMTU f = "auto") then Ok (0, true)
      else
        let bad := Err (errorf ("invalid transit-dev-mtu: " +:+ startTransitDevMTU f)) in
        match atoi (startTransitDevMTU f) with
        | Ok m => if m <=? 0 then bad else Ok (m, false)
        | _ => bad
        end in
    Ok (addr, mtu).

Definition port_mac_flag (text : string) (mac : HardwareAddr) : res HardwareAddr :=
  if bool_decide (text = "fixed") then PortMACFixed mac
  else if bool_decide (text = "per-port") then Ok mac_zero
  else match ParseMAC text with
       | Ok m => Ok m
       | _ => Err (errorf "invalid port-mac-addr: expected 'fixed', 'per-port', or MAC address")
       end.

Definition flags_config (f : start_flags) (switchName : string) : res Config :=
  let! mac := map_err (λ e, errorw "invalid MAC address: " e "") (ParseMAC (startMACAddr f)) in
  match ParseIP (startFloatingIPBase f) with
  | None => Err (errorf ("invalid floating-ip-base: " +:+ startFloatingIPBase f))
  | floatingIP =>
      let! locator := ParseGeneveLocator (startGeneveLocator f) in
      let! tlv := opt_tlv (startGeneveTLVLocator f) in
      let! extracts := res_mapM (λ me, map_err (λ e, errorw "invalid mgmt-extract: " e "") (ParseMgmtExtract me))
                         (startMgmtExtracts f) in
      let! services := res_mapM (λ ms, map_err (λ e, errorw "invalid mgmt-service: " e "") (ParseMgmtService ms))
                         (startMgmtServices f) in
      let! transit := transit_flags f in
      let '(addr, gw, addrAuto, (mtu, mtuAuto)) := transit in
      let! portMAC := port_mac_flag (startPortMACAddr f) mac in
      Ok (MkConfig switchName (startNetNS f) (startPortNetNS f) (startPorts f) mac floatingIP (startGenerationBits f)
            extracts services (startTransitDev f) addr gw addrAuto mtu mtuAuto (startGenevePortBase f) locator tlv
            (startGeneveEncapEth f) (startMTU f) portMAC PortKindVeth false)
  end.

Section start.
Context (unmarshal_config : string → res FileConfig).
Context (unmarshal : string → res SwitchMetadata) (map_range : gset Z → list Z) (fuel : nat).

Definition LoadConfigFile (path : string) : M Config :=
  let* data := mwrap (λ e, errorw ("read config " +:+ path +:+ ": ") e "") (call (OsReadFile path)) in
  let* fc := mwrap (λ e, errorw ("parse config " +:+ path +:+ ": ") e "") (mpure (unmarshal_config data)) in
  mpure (ToConfig fc).

Definition buildConfig (f : start_flags) (args : list string) : M Config :=
  if negb (bool_decide (startConfigFile f = "")) then
    let* cfg := mwrap (λ e, errorw "load config: " e "") (LoadConfigFile (startConfigFile f)) in
    mok (match args with
         | name :: _ => if bool_decide (name = "") then cfg else set_Name name cfg
         | [] => cfg
         end)
  else
    match args with
    | [] => merr (errorf "switch_name argument is required (or use --config)")
    | switchName :: _ => mpure (flags_config f switchName)
    end.

Definition runStart (f : start_flags) (args : list string) : M unit :=
  let* cfg := buildConfig f args in
  let* mode := mwrap (λ e, errorw "invalid --mode: " e "") (mpure (ParsePortKind (startMode f))) in
  let cfg := set_DefaultMode mode cfg in
  let~ r := if startReserved f then StartReserved unmarshal cfg else Start unmarshal fuel cfg in
  match r with
  | Ok output => printJSON (StartOutput_json output)
  | Err err =>
      let~ _ := if IsConfigMismatch (Some err) then
                  let~ _ := kern (Stderr ("Error: " +:+ emsg err +:+ nl)) in kern (OsExit 1)
                else Ret tt in
      merr err
  | Panic => mpanic
  | OutOfFuel => Ret OutOfFuel
  end.
End start.

(** ** dhcp.go *)
Definition dhcp_request_defaults : RequestOptions := MkRequestOptions "" (5 * Second) 3.
Definition runDHCPRequest (opts : RequestOptions) : M unit :=
  let* lease := mwrap (λ e, errorw "DHCP request failed: " e "") (Request opts) in
  printJSON (LeaseOutput_json (Lease_ToOutput lease (rq_Interface opts))).

(** ** dhcp_serve.go *)
Record dhcp_serve_flags := MkDhcpServeFlags {
  dhcpServeDev : string; dhcpServeServerIP : string; dhcpServePool : string; dhcpServeGateway : string;
  dhcpServeDNS : string; dhcpServeLease : Z;
}.

Definition dhcp_serve_defaults : dhcp_serve_flags := MkDhcpServeFlags "" "" "" "" "" Hour.

Fixpoint parse_dns (parts : list string) : res (list IP) :=
  match parts with
  | [] => Ok []
  | p :: parts =>
      match ParseIP (trim_space p) with
      | None => Err (errorf ("invalid DNS server: " +:+ p))
      | dns => let! rest := parse_dns parts in Ok (dns :: rest)
      end
  end.

Definition dhcp_server_config (f : dhcp_serve_flags) : res ServerConfig :=
  match ParseIP (dhcpServeServerIP f) with
  | None => Err (errorf ("invalid server IP: " +:+ dhcpServeServerIP f))
  | ip =>
      match To4 ip with
      | None => Err (errorf ("server IP must be IPv4: " +:+ dhcpServeServerIP f))
      | serverIP =>
          let! pool := map_err (λ e, errorw "invalid pool range: " e "") (parsePoolRange (dhcpServePool f)) in
          let '(poolStart, poolEnd) := pool in
          let! gateway :=
            if bool_decide (dhcpServeGateway f = "") then Ok None
            else match ParseIP (dhcpServeGateway f) with
                 | None => Err (errorf ("invalid gateway: " +:+ dhcpServeGateway f))
                 | gw => match To4 gw with
                         | None => Err (errorf ("gateway must be IPv4: " +:+ dhcpServeGateway f))
                         | gw4 => Ok gw4
                         end
                 end in
          let! dns := if bool_decide (dhcpServeDNS f = "") then Ok [] else parse_dns (split_on "," (dhcpServeDNS f)) in
          Ok (MkServerConfig (dhcpServeDev f) serverIP poolStart poolEnd (Some (CIDRMask 24 32)) gateway dns
                (dhcpServeLease f) 0)
      end
  end.

Definition dhcp_banner (c : ServerConfig) : list string :=
  ["Starting DHCP server on " +:+ sv_Interface c +:+ nl;
   "  Server IP: " +:+ ip_string (sv_ServerIP c) +:+ nl;
   "  Pool: " +:+ ip_string (sv_PoolStart c) +:+ " - " +:+ ip_string (sv_PoolEnd c) +:+ nl;
   "  Gateway: " +:+ ip_string (sv_Gateway c) +:+ nl;
   "  Lease time: " +:+ dur_string (sv_LeaseTime c) +:+ nl] ++
  (match sv_DNS c with [] => [] | dns => ["  DNS: [" +:+ join " " (map ip_string dns) +:+ "]" +:+ nl] end).
Fixpoint print_lines (lines : list string) : prog unit :=
  match lines with
  | [] => Ret tt
  | l :: lines => let~ _ := kern (Stdout l) in print_lines lines
  end.

(** [serve] is the packet loop behind the interface [DHCPServer]. *)
Section dhcp_serve.
Context (serve : Server → M unit).
Definition runDHCPServe (f : dhcp_serve_flags) : M unit :=
  let* cfg := mpure (dhcp_server_config f) in
  let* server := mwrap (λ e, errorw "failed to create DHCP server: " e "") (mpure (NewServer cfg)) in
  let~ _ := print_lines (dhcp_banner cfg) in
  let~ r := serve server in
  match r with
  | Err err =>
      let~ done := kern CtxErr in
      match done with
      | Some _ => mok tt
      | None => merr (errorw "DHCP server error: " err "")
      end
  | r => Ret r
  end.
End dhcp_serve.
