(* ===== verification/Serve.v ===== *)
(** * The service: cmd/connector-ctl/serve.go

    [runServe] starts the switch with every slot reserved, opens the tap fd
    socket, tells systemd, lets ports be provisioned by a goroutine of its own
    and then serves a loop over its channels: a signal, a failed listener, the
    end of provisioning, the keepalive ticker and the health-check ticker.
    The [select] is the event [ServeSelect], whose arguments say which of the
    optional channels are not nil; tickers and the cancellation of the context
    are left to it. *)
From S2P Require Import Prelude Errors GoStrings GoTime GoNet Json BpfTypes Mac Geneve Prog SlotTable Netns Netlink Config.
From S2P Require Import MgmtService Metadata Loader Context Flock Attach Provision Stop Status Dhcp Lifecycle TapfdFd TapServer.
From S2P Require Import Output Cli CliStart Daemon.

Definition maxConsecutiveErrors : Z := 3.
Definition maxErrorDuration : Z := 90 * Second.

(** ** Health reports *)
Record serveWatcher := MkWatcher { sw_name : string; sw_lastReady : bool; sw_lastSummary : string; sw_first : bool }.
Definition newServeWatcher (name : string) : serveWatcher := MkWatcher name false "" true.

Definition formatHealthSummary (output : StatusOutput) : string :=
  let ready := StatusOutput_IsReady output in
  (if ready then "[info]" else "[warn]") +:+ " switch " +:+ ss_Switch output +:+ ": " +:+
  (if ready then "Ready" else "NotReady") +:+ ", " +:+ fmt_u (ss_Ports output) +:+ " ports (used=" +:+
  fmt_u (ss_PortsUsed output) +:+ ", available=" +:+ fmt_u (ss_PortsAvailable output) +:+ ", reserved=" +:+
  fmt_u (ss_PortsReserved output) +:+ ")" +:+
  (if ready then "" else " — " +:+ GetNotReadyReasons output).

(** The alert of a transition; none on the first report. *)
Definition transition_alert (w : serveWatcher) (output : StatusOutput) : prog unit :=
  let ready := StatusOutput_IsReady output in
  if negb (sw_first w) && negb (Bool.eqb ready (sw_lastReady w)) then
    kern (Stderr (if ready then "[info] switch " +:+ sw_name w +:+ ": recovered → Ready" +:+ nl
                  else "[warn] switch " +:+ sw_name w +:+ ": degraded → NotReady — " +:+ GetNotReadyReasons output +:+ nl))
  else Ret tt.

Section serve_cmd.
Context (unmarshal_config : string → res FileConfig).
Context (unmarshal : string → res SwitchMetadata) (map_range : gset Z → list Z) (fuel : nat).

(** The mutex makes one call one transition of the watcher. *)
Definition checkAndReportStatus (w : serveWatcher) : M (serveWatcher * bool) :=
  let~ r := StatusByName unmarshal map_range (sw_name w) in
  match r with
  | Err err =>
      let~ _ := kern (Stderr ("[warn] switch " +:+ sw_name w +:+ ": health check failed: " +:+ emsg err +:+ nl)) in
      let~ _ := NotifyStatus "health check error" in mok (w, false)
  | Ok output =>
      let~ _ := transition_alert w output in
      let summary := formatHealthSummary output in
      let~ _ := if bool_decide (summary = sw_lastSummary w) then Ret tt else kern (Stderr (summary +:+ nl)) in
      let~ _ := NotifyStatus summary in
      mok (MkWatcher (sw_name w) (StatusOutput_IsReady output) summary false, true)
  | Panic => mpanic
  | OutOfFuel => Ret OutOfFuel
  end.

(** ** The goroutine that provisions; its result goes to the loop's channel *)
Definition serve_provision (name : string) (mode : Z) : M unit :=
  let* output := ProvisionPorts unmarshal fuel name (MkProvisionOptions 0 0 mode) in
  let~ _ := if 0 <? pr_Provisioned output
            then kern (Stderr ("[info] switch " +:+ name +:+ ": provisioned " +:+ fmt_d (pr_Provisioned output)
                               +:+ "/" +:+ fmt_d (pr_Total output) +:+ " ports" +:+ nl))
            else Ret tt in
  mok tt.

(** ** The main loop *)
Record serve_state := MkServeState {
  sv_watcher : serveWatcher; sv_provDone : bool;      (* the channel is not nil yet *)
  sv_provisioned : bool; sv_errs : Z; sv_firstErr : Z;
}.
Definition set_watcher (w : serveWatcher) (s : serve_state) : serve_state :=
  MkServeState w (sv_provDone s) (sv_provisioned s) (sv_errs s) (sv_firstErr s).

(** What a failed health check leads to: [None] to go on, a result to leave. *)
Definition count_failure (name : string) (s : serve_state) : prog (serve_state * bool) :=
  let errs := sv_errs s + 1 in
  let~ first := if errs =? 1 then kern TimeNow else Ret (sv_firstErr s) in
  let s := MkServeState (sv_watcher s) (sv_provDone s) (sv_provisioned s) errs first in
  if maxConsecutiveErrors <=? errs then
    let~ now := kern TimeNow in
    if maxErrorDuration <=? time_sub now first then
      let~ now := kern TimeNow in
      let~ _ := kern (Stderr ("[fatal] switch " +:+ name +:+ ": " +:+ fmt_d errs
                  +:+ " consecutive health check errors over "
                  +:+ dur_string (dur_round (time_sub now first) Second) +:+ ", exiting" +:+ nl)) in
      let~ _ := kern (OsExit 1) in Ret (s, true)
    else Ret (s, false)
  else Ret (s, false).

(** [fuel] bounds the messages served. *)
Fixpoint serve_loop (n : nat) (name : string) (tapfd watchdog : bool) (s : serve_state) : M unit :=
  match n with
  | O => Ret OutOfFuel
  | S n =>
      let~ msg := kern (ServeSelect tapfd (sv_provDone s) watchdog) in
      match msg with
      | MsgSignal sig =>
          let~ _ := kern (Stderr ("[info] received " +:+ sig +:+ ", shutting down" +:+ nl)) in mok tt
      | MsgTapFD (Some err) =>
          let~ _ := kern (Stderr ("[fatal] switch " +:+ name +:+ ": tapfd listener failed: " +:+ emsg err +:+ nl)) in
          let~ _ := kern (OsExit 1) in merr err
      | MsgTapFD None => serve_loop n name tapfd watchdog s
      | MsgProvisioned (Some err) =>
          let~ _ := kern (Stderr ("[error] switch " +:+ name +:+ ": provision failed: " +:+ emsg err +:+ nl)) in
          let~ _ := kern (OsExit 1) in merr err
      | MsgProvisioned None =>
          let* r := checkAndReportStatus (sv_watcher s) in
          serve_loop n name tapfd watchdog (MkServeState (fst r) false true (sv_errs s) (sv_firstErr s))
      | MsgWatchdogTick => let~ _ := NotifyWatchdog in serve_loop n name tapfd watchdog s
      | MsgStatusTick =>
          if negb (sv_provisioned s) then serve_loop n name tapfd watchdog s
          else
            let* r := checkAndReportStatus (sv_watcher s) in
            let '(w, healthy) := r in
            if (healthy : bool)
            then serve_loop n name tapfd watchdog (MkServeState w (sv_provDone s) true 0 (sv_firstErr s))
            else
              let~ c := count_failure name (set_watcher w s) in
              let '(s, fatal) := c in
              if (fatal : bool) then mok tt else serve_loop n name tapfd watchdog s
      end
  end.

(** ** The command *)
Record serve_flags := MkServeFlags { serveStart : start_flags; serveTapFDListen : string }.

Definition serve_defaults : serve_flags := MkServeFlags start_defaults "".
Definition serveWatchInterval_default : Z := 30 * Second.

Definition with_tapfd (path : string) (name : string) (sw : switchContext) (k : bool → M unit) : M unit :=
  if bool_decide (path = "") then k false
  else
    let* srv := startTapFDServer path (Some sw) in
    with_defer (tapFDServer_Close srv)
      (let~ _ := kern (Stderr ("[info] switch " +:+ name +:+ ": tapfd listening on " +:+ path +:+ nl)) in k true).

Definition serve_announced (cfg : Config) (tapfd : bool) : M unit :=
  let name := cf_Name cfg in
  let~ _ := NotifyReady in
  let~ _ := kern (Stderr ("[info] switch " +:+ name +:+ ": ready" +:+ nl)) in
  let* r := checkAndReportStatus (newServeWatcher name) in
  let~ interval := WatchdogEnabled in
  serve_loop fuel name tapfd (bool_decide (is_Some interval)) (MkServeState (fst r) true false 0 0).

Definition runServe (f : serve_flags) (args : list string) : M unit :=
  let* cfg := buildConfig unmarshal_config (serveStart f) args in
  let* mode := mwrap (λ e, errorw "invalid --mode: " e "") (mpure (ParsePortKind (startMode (serveStart f)))) in
  let cfg := set_DefaultMode mode cfg in
  let~ r := StartReserved unmarshal cfg in
  match r with
  | Err err =>
      let~ _ := if IsConfigMismatch (Some err) then
                  let~ _ := kern (Stderr ("Error: " +:+ emsg err +:+ nl)) in kern (OsExit 1)
                else Ret tt in
      merr err
  | Ok _ =>
      let* sw := mwrap (λ e, errorw "open switch: " e "") (Open unmarshal (cf_Name cfg)) in
      with_defer (switchContext_Close sw)
        (with_tapfd (serveTapFDListen f) (cf_Name cfg) sw (serve_announced cfg))
  | Panic => mpanic
  | OutOfFuel => Ret OutOfFuel
  end.
End serve_cmd.
