(* ===== verification/ServeSpec.v ===== *)
(** * When the service gives up

    A monitor of what the service loop shows to the outside: the messages its
    channels deliver, the health checks it reports as failed, and the clock it
    reads.  The monitor counts consecutive failed checks and decides when the
    service must give up; the loop ends the process at exactly those moments. *)
From S2P Require Import Prelude Errors GoStrings GoText GoTime GoNet Json BpfTypes Mac Geneve Prog SlotTable Netns Netlink Config.
From S2P Require Import MgmtService Metadata Loader Context Flock Attach Provision Stop Status Dhcp Lifecycle TapfdFd TapServer.
From S2P Require Import Output Cli CliStart Daemon Serve.

(** ** The monitor *)
Record health := MkHealth {
  h_tick : bool;                (* a status tick was delivered and no failure reported for it yet *)
  h_ready : bool;               (* provisioning was reported as done *)
  h_fails : Z; h_first : Z;     (* consecutive failures, and the clock at the first *)
  h_now : Z;                    (* the last reading of the clock *)
  h_fatal : bool; h_stop : bool (* a fatal message, a signal *)
}.
Definition health_start (now : Z) : health := MkHealth false false 0 0 now false false.

(** Three failures in a row that span ninety seconds. *)
Definition must_give_up (h : health) : Prop := 3 ≤ h_fails h ∧ 90 * Second ≤ h_now h - h_first h.

(** A tick with no failure reported by the time of the next message succeeded. *)
Definition settle (h : health) : health :=
  if h_tick h then MkHealth false (h_ready h) 0 0 (h_now h) (h_fatal h) (h_stop h) else h.
Definition deliver (m : serve_msg) (h : health) : health :=
  let '(MkHealth t r f f1 now fatal stop) := settle h in
  match m with
  | MsgStatusTick => MkHealth r r f f1 now fatal stop
  | MsgSignal _ => MkHealth t r f f1 now fatal true
  | MsgTapFD (Some _) => MkHealth t r f f1 now true stop
  | MsgProvisioned (Some _) => MkHealth t r f f1 now true stop
  | MsgProvisioned None => MkHealth t true f f1 now fatal stop
  | _ => MkHealth t r f f1 now fatal stop
  end.
Definition report_failure (h : health) : health :=
  if h_tick h then MkHealth false (h_ready h) (h_fails h + 1) (h_first h) (h_now h) (h_fatal h) (h_stop h) else h.
(** The first failure of a row is dated by the next reading. *)
Definition read_clock (now : Z) (h : health) : health :=
  MkHealth (h_tick h) (h_ready h) (h_fails h) (if h_fails h =? 1 then now else h_first h) now (h_fatal h) (h_stop h).
Definition failure_report (name : string) : string := "[warn] switch " +:+ name +:+ ": health check failed: ".

(** The clock does not go back.  The process may end itself only with status 1,
    after a fatal message or when it must give up, and may wait for the next
    message only when it need not and no signal came. *)
Definition health_ok {B} (e : ev B) (h : health) : Prop :=
  match e with
  | EKern (OsExit code) => code = 1 ∧ (h_fatal h = true ∨ must_give_up h)
  | EKern (ServeSelect _ _ _) => ¬ must_give_up (settle h) ∧ h_fatal h = false ∧ h_stop h = false
  | _ => True
  end.
Definition health_step (name : string) {B} (e : ev B) (h : health) (b : B) (h' : health) : Prop :=
  match e in ev B return B → Prop with
  | EKern q =>
      match q in kev B return B → Prop with
      | OsExit _ => λ _, False
      | TimeNow => λ now, h_now h ≤ now ∧ h' = read_clock now h
      | Stderr s => λ _, h' = if has_prefix s (failure_report name) then report_failure h else h
      | ServeSelect _ _ _ => λ m, h' = deliver m h
      | _ => λ _, h' = h
      end
  | _ => λ _, h' = h
  end b.
Definition health_sem (name : string) : sem health := MkSem (@health_ok) (@health_step name).

(** ** Programs the monitor does not notice *)
Definition unnoticed (B : Type) (e : ev B) : Prop :=
  match e with
  | EKern (OsExit _) | EKern TimeNow | EKern (Stderr _) | EKern (ServeSelect _ _ _) => False
  | _ => True
  end.
Fixpoint results {A} (P : A → Prop) (p : prog A) : Prop :=
  match p with Ret a => P a | Vis _ k => ∀ b, results P (k b) end.
Lemma results_any {A} (p : prog A) : results (λ _, True) p.
Proof. induction p; simpl; auto. Qed.
Lemma results_bind {A B} (P : A → Prop) (Q : B → Prop) (p : prog A) (f : A → prog B) :
  results P p → (∀ a, P a → results Q (f a)) → results Q (pbind p f).
Proof. induction p as [a|C e k IH]; simpl; auto. Qed.

Lemma wp_unnoticed {A} name (P : A → Prop) (p : prog A) (Q : A → health → Prop) h :
  obeys unnoticed p → results P p → (∀ a, P a → Q a h) → wp (health_sem name) p Q h.
Proof.
  revert h. induction p as [a|B e k IH]; simpl; intros h Hp Hr HQ; [auto|].
  destruct Hp as [He Hk]. split; [destruct e as [| | | |B q]; try done; by destruct q|].
  intros b h' Hs. assert (h' = h) as ->; [|by apply IH]. destruct e as [| | | |B q]; try done. by destruct q.
Qed.

(** *** The answer of a fallible program, when it is a value *)
Definition ok_is {A} (P : A → Prop) (r : res A) : Prop := match r with Ok a => P a | _ => True end.
Lemma results_mbind {A B} (P : A → Prop) (Q : B → Prop) (p : M A) (f : A → M B) :
  results (ok_is P) p → (∀ a, P a → results (ok_is Q) (f a)) → results (ok_is Q) (mbind p f).
Proof. intros Hp Hf. eapply results_bind; [exact Hp|]. intros [a|e| |]; simpl; auto. Qed.
Lemma results_then {A B} (Q : B → Prop) (p : M A) (f : A → M B) :
  (∀ a, results (ok_is Q) (f a)) → results (ok_is Q) (mbind p f).
Proof. intros Hf. eapply results_bind; [apply results_any|]. intros [a|e| |] _; simpl; auto. Qed.
Lemma results_mwrap {A} (P : A → Prop) f (p : M A) : results (ok_is P) p → results (ok_is P) (mwrap f p).
Proof. intros Hp. eapply results_bind; [exact Hp|]. by intros [a|e| |]. Qed.
Lemma results_defer {A C} (P : A → Prop) (c : prog C) (p : M A) :
  results (ok_is P) p → results (ok_is P) (with_defer c p).
Proof. intros Hp. eapply results_bind; [exact Hp|]. intros r Hr. eapply results_bind; [apply results_any|]. by intros. Qed.
Lemma results_on_err {A C} (P : A → Prop) (c : prog C) (p : M A) :
  results (ok_is P) p → results (ok_is P) (on_err c p).
Proof.
  intros Hp. eapply results_bind; [exact Hp|]. intros [a|e| |] Hr; try done.
  eapply results_bind; [apply results_any|]. by intros.
Qed.

(** ** The status check is unnoticed and answers for the switch it was asked for *)
Ltac unseen := obeys ltac:(exact I).
Lemma close_all_unnoticed l errs : obeys unnoticed (close_all l errs).
Proof. revert errs. induction l as [|[m|] l IH]; intros errs; cbn [close_all]; [done| |by apply IH]. unseen. Qed.
#[local] Hint Resolve close_all_unnoticed : obeys.
Lemma load_or_close_unnoticed {A} n o f (k : Z → M A) :
  (∀ m, obeys unnoticed (k m)) → obeys unnoticed (load_or_close n o f k).
Proof. intros. unfold load_or_close. unseen. Qed.
#[local] Hint Extern 1 (obeys unnoticed (load_or_close _ _ _ _)) =>
  apply load_or_close_unnoticed; intros; unseen : obeys.
Lemma LoadPinnedMaps_unnoticed n : obeys unnoticed (LoadPinnedMaps n).
Proof. unfold LoadPinnedMaps. unseen. Qed.
Lemma open_loaded_unnoticed u n m : obeys unnoticed (open_loaded u n m).
Proof. unfold open_loaded, GetSwitchConfig, GetSwitchMetadata, LoadMetadata, NewMmappedSlots, deref. unseen. Qed.
Lemma Maps_Close_unnoticed m : obeys unnoticed (Maps_Close m).
Proof. unfold Maps_Close. unseen. Qed.
#[local] Hint Resolve LoadPinnedMaps_unnoticed open_loaded_unnoticed Maps_Close_unnoticed : obeys.
Lemma openSwitch_unnoticed u n : obeys unnoticed (openSwitch u n).
Proof. unfold openSwitch, PinPathExists. unseen. Qed.
Lemma switchContext_Close_unnoticed s : obeys unnoticed (switchContext_Close s).
Proof. unfold switchContext_Close, MmappedSlots_Close. unseen. Qed.
#[local] Hint Resolve openSwitch_unnoticed switchContext_Close_unnoticed : obeys.

Lemma GetInnerIP_unnoticed n i : obeys unnoticed (GetInnerIP n i).
Proof. unfold GetInnerIP. unseen. Qed.
#[local] Hint Resolve GetInnerIP_unnoticed : obeys.
Lemma count_slots_unnoticed P n m i c : obeys unnoticed (count_slots P n m i c).
Proof. revert i c. induction n as [|n IH]; intros i c; cbn [count_slots]; unseen. Qed.
Lemma build_ports_loop_unnoticed n m i acc : obeys unnoticed (build_ports_loop n m i acc).
Proof. revert i acc. induction n as [|n IH]; intros i acc; cbn [build_ports_loop]; unfold read_slot, deref; unseen. Qed.
#[local] Hint Resolve count_slots_unnoticed build_ports_loop_unnoticed : obeys.
Lemma triage_devices_unnoticed k up m l t : obeys unnoticed (triage_devices k up m l t).
Proof. revert t. induction l as [|i l IH]; intros t; cbn [triage_devices]; unfold HasTCFilter, has_filter_at; unseen. Qed.
#[local] Hint Resolve triage_devices_unnoticed : obeys.
Lemma check_devices_unnoticed mr p : obeys unnoticed (check_devices mr p).
Proof.
  unfold check_devices, LinkList, checkMgmtDevices, checkTransitDevice, checkPortDevices, HasBlockFilter, has_filter_at.
  unseen.
Qed.
#[local] Hint Resolve check_devices_unnoticed : obeys.
Lemma Status_unnoticed mr s : obeys unnoticed (Status mr s).
Proof.
  unfold Status, CountAllocatedSlots, CountReservedSlots, CountFreeSlots, checkConditions, buildPortsToCheck, Do, GetByName, NetNS_Close.
  unseen.
Qed.
#[local] Hint Resolve Status_unnoticed : obeys.
Lemma StatusByName_unnoticed u mr n : obeys unnoticed (StatusByName u mr n).
Proof. unfold StatusByName, with_switch, Open. unseen. Qed.

Lemma openSwitch_name u n : results (ok_is (λ sw, sx_name sw = n)) (openSwitch u n).
Proof.
  unfold openSwitch. apply results_then. intros b. destruct (negb b); [done|]. apply results_mwrap, results_then.
  intros maps. apply results_on_err. unfold open_loaded, deref. do 2 (apply results_then; intros ?).
  destruct (mp_Slots maps); [|done]. apply results_then. by intros.
Qed.
Lemma Status_name mr s : results (ok_is (λ out, ss_Switch out = sx_name s)) (Status mr s).
Proof.
  unfold Status. do 3 (eapply results_bind; [apply results_any|]; intros ? _).
  case_bool_decide; [done|]. eapply results_bind; [apply results_any|]. intros [ns|e| |] _; try done.
  apply results_defer, results_then. by intros.
Qed.
Lemma StatusByName_name u mr n : results (ok_is (λ out, ss_Switch out = n)) (StatusByName u mr n).
Proof.
  unfold StatusByName, with_switch, Open. eapply results_mbind; [apply openSwitch_name|].
  intros sw <-. apply results_defer, Status_name.
Qed.

(** ** What the monitor hears on the standard error *)
Lemma cut_prefix_same p q s : cut_prefix (p +:+ q) (p +:+ s) = cut_prefix q s.
Proof. induction p as [|a p IH]; simpl; [done|]. by rewrite bool_decide_eq_true_2. Qed.
Lemma failure_report_heard name s :
  has_prefix ("[warn] switch " +:+ name +:+ ": health check failed: " +:+ s) (failure_report name) = true.
Proof.
  unfold has_prefix, failure_report. rewrite !cut_prefix_same. apply bool_decide_eq_true_2.
  eexists. apply (cut_prefix_app ": health check failed: ").
Qed.
Lemma other_warning name c s :
  c ≠ "h"%char → has_prefix ("[warn] switch " +:+ name +:+ String ":" (String " " (String c s))) (failure_report name) = false.
Proof.
  intros Hc. unfold has_prefix, failure_report. rewrite !cut_prefix_same.
  apply bool_decide_eq_false_2. simpl. rewrite (bool_decide_eq_false_2 ("h"%char = c)); [|done]. by intros [].
Qed.

Section rules.
Context (name : string).
Implicit Types (h : health).

Lemma wp_return {A} (a : A) (Q : A → health → Prop) h : Q a h → wp (health_sem name) (Ret a) Q h.
Proof. done. Qed.
Lemma wp_stderr s (Q : unit → health → Prop) h :
  Q tt (if has_prefix s (failure_report name) then report_failure h else h) → wp (health_sem name) (kern (Stderr s)) Q h.
Proof. intros HQ. split; [done|]. by intros [] h' ->. Qed.
Lemma wp_quiet s (Q : unit → health → Prop) h :
  has_prefix s (failure_report name) = false → Q tt h → wp (health_sem name) (kern (Stderr s)) Q h.
Proof. intros E HQ. apply wp_stderr. by rewrite E. Qed.
Lemma wp_unnoticed_kern {B} (e : kev B) (Q : B → health → Prop) h :
  unnoticed _ (EKern e) → (∀ b, Q b h) → wp (health_sem name) (kern e) Q h.
Proof. intros He HQ. eapply (wp_unnoticed _ (λ _, True)); [by split|done|auto]. Qed.

Lemma wp_notify msg (Q : unit → health → Prop) h : Q tt h → wp (health_sem name) (notify msg) Q h.
Proof.
  intros HQ. unfold notify. rewrite wp_bind. apply wp_unnoticed_kern; [done|]. intros addr.
  case_bool_decide; [done|]. rewrite wp_bind. apply wp_unnoticed_kern; [done|].
  intros [conn|err]; [|by apply wp_quiet].
  rewrite wp_bind. apply wp_unnoticed_kern; [done|]. intros [n r]. rewrite wp_bind.
  destruct r; [apply wp_quiet|apply wp_return]; try done; rewrite wp_bind; by apply wp_unnoticed_kern.
Qed.

(** ** One health check

    A check reports a failure exactly when it fails, and keeps the switch it
    watches. *)
Lemma wp_checkAndReportStatus unmarshal map_range w (Q : res (serveWatcher * bool) → health → Prop) h :
  sw_name w = name →
  (∀ w' (healthy : bool), sw_name w' = name → Q (Ok (w', healthy)) (if healthy then h else report_failure h)) →
  Q Panic h → Q OutOfFuel h →
  wp (health_sem name) (checkAndReportStatus unmarshal map_range w) Q h.
Proof.
  intros Hw Hok Hp Hf. unfold checkAndReportStatus. rewrite wp_bind, Hw.
  apply (wp_unnoticed _ _ _ _ _ (StatusByName_unnoticed _ _ _) (StatusByName_name _ _ _)).
  intros [out|err| |] Hout; [|..|done|done]; simpl in Hout; cbv zeta.
  - rewrite wp_bind. assert (Hquiet : ∀ Q', Q' tt h → wp (health_sem name) (transition_alert w out) Q' h).
    { intros Q' HQ'. unfold transition_alert. cbv zeta. case_match; [|done]. rewrite Hw.
      apply wp_quiet; [|done]. case_match; [done|]. by apply other_warning. }
    apply Hquiet. rewrite wp_bind.
    assert (Hsum : has_prefix (formatHealthSummary out +:+ nl) (failure_report name) = false).
    { unfold formatHealthSummary. rewrite Hout. destruct (StatusOutput_IsReady out); [done|].
      rewrite !str_app_assoc. by apply other_warning. }
    case_bool_decide; [apply wp_return|apply wp_quiet; [done|]]; rewrite wp_bind; apply wp_notify; by apply (Hok _ true).
  - rewrite wp_bind. apply wp_stderr. rewrite failure_report_heard, wp_bind. apply wp_notify. by apply (Hok _ false).
Qed.
End rules.

(** ** The loop keeps the monitor's books

    A tick of which no failure was reported counts as settled: the loop clears
    its count where the monitor would. *)
Record keeps (h : health) (s : serve_state) : Prop := {
  kp_fatal : h_fatal h = false; kp_stop : h_stop h = false;
  kp_ready : sv_provisioned s = h_ready h;
  kp_errs : sv_errs s = h_fails (settle h);
  kp_first : 1 ≤ sv_errs s → sv_firstErr s = h_first (settle h);
  kp_nonneg : 0 ≤ sv_errs s;
  kp_alive : ¬ must_give_up (settle h);
}.
(** How a run may end: with a value only after a signal, and never with an error. *)
Definition served {A} (r : res A) (h : health) : Prop :=
  match r with
  | Ok _ => h_stop h = true
  | Err _ => False
  | Panic | OutOfFuel => h_fatal h = false ∧ h_stop h = false
  end.

Lemma settle_tick h : h_tick (settle h) = false.
Proof. by destruct h as [[] ? ? ? ? ? ?]. Qed.
Lemma deliver_settle m h : deliver m (settle h) = deliver m h.
Proof. by destruct h as [[] ? ? ? ? ? ?]. Qed.
Lemma keeps_settle h s : keeps h s → keeps (settle h) s.
Proof. destruct h as [[] ? ? ? ? ? ?]; intros []; by split. Qed.
Lemma time_sub_reaches a b d : d ≤ maxDuration → minDuration < d → d ≤ time_sub a b ↔ d ≤ a - b.
Proof. unfold time_sub. lia. Qed.

Section loop.
Context (name : string).

Lemma wp_now (Q : Z → health → Prop) h :
  (∀ now, h_now h ≤ now → Q now (read_clock now h)) → wp (health_sem name) (kern TimeNow) Q h.
Proof. intros HQ. split; [done|]. intros now h' [Hn ->]. by apply HQ. Qed.

Lemma read_clock_later t r f f1 n fatal stop now :
  f ≠ 1 → read_clock now (MkHealth t r f f1 n fatal stop) = MkHealth t r f f1 now fatal stop.
Proof. intros E%Z.eqb_neq. unfold read_clock. simpl. by rewrite E. Qed.

Lemma wp_select a b c (Q : serve_msg → health → Prop) h :
  ¬ must_give_up (settle h) ∧ h_fatal h = false ∧ h_stop h = false → (∀ m, Q m (deliver m h)) →
  wp (health_sem name) (kern (ServeSelect a b c)) Q h.
Proof. intros Hok HQ. split; [done|]. intros m h' ->. apply HQ. Qed.

(** A failed check: the count grows by one, the first of a row is dated, and
    the process ends exactly when it must give up. *)
Lemma wp_count_failure s h (Q : serve_state * bool → health → Prop) :
  h_tick h = false → h_fatal h = false → h_stop h = false → sv_provisioned s = h_ready h →
  h_fails h = sv_errs s + 1 → (1 ≤ sv_errs s → sv_firstErr s = h_first h) → 0 ≤ sv_errs s →
  (∀ s' h', keeps h' s' → sv_watcher s' = sv_watcher s → Q (s', false) h') →
  wp (health_sem name) (count_failure name s) Q h.
Proof.
  destruct h as [t r f f1 now fatal stop]. simpl. intros -> -> -> Hr -> Hfirst Hpos HQ.
  unfold count_failure, maxConsecutiveErrors, maxErrorDuration. cbv zeta. rewrite wp_bind.
  destruct (Z.eqb_spec (sv_errs s + 1) 1) as [E|E].
  - apply wp_now. intros now' _. rewrite (proj2 (Z.leb_gt 3 _)) by lia. apply wp_return.
    apply HQ; [|done]. unfold read_clock. simpl. rewrite E. simpl. split; try done. by intros [? ?].
  - apply wp_return. destruct (Z.leb_spec 3 (sv_errs s + 1)) as [E3|E3].
    + rewrite wp_bind. apply wp_now. intros now' _. rewrite read_clock_later by done.
      destruct (Z.leb_spec (90 * GoTime.Second) (time_sub now' (sv_firstErr s))) as [Ed|Ed].
      * rewrite wp_bind. apply wp_now. intros now'' Hn. rewrite read_clock_later by done.
        rewrite wp_bind. apply wp_quiet; [done|]. simpl in Hn. split; [|done].
        split; [done|]. right. apply time_sub_reaches in Ed; [|done..]. unfold must_give_up. simpl.
        rewrite <-Hfirst by lia. lia.
      * apply wp_return. apply HQ; [|done]. split; try done; simpl; [by intros; apply Hfirst; lia|lia|].
        unfold must_give_up. simpl. rewrite <-Hfirst by lia. intros [_ H]. apply time_sub_reaches in H; [lia|done..].
    + apply wp_return. apply HQ; [|done]. split; try done; simpl; [by intros; apply Hfirst; lia|lia|].
      unfold must_give_up. simpl. lia.
Qed.

Context (unmarshal : string → res SwitchMetadata) (map_range : gset Z → list Z).

(** One message, from a settled monitor. *)
Lemma wp_serve_loop n tapfd wd s h :
  sw_name (sv_watcher s) = name → keeps h s →
  wp (health_sem name) (serve_loop unmarshal map_range n name tapfd wd s) served h.
Proof.
  revert s h. induction n as [|n IH]; intros s h Hw Hk; [by destruct Hk; split|].
  cbn [serve_loop]. rewrite wp_bind. apply wp_select; [by destruct Hk|]. intros msg.
  rewrite <-deliver_settle. apply keeps_settle in Hk. assert (Ht := settle_tick h).
  destruct (settle h) as [t r f f1 now fatal stop], s as [w pd pr errs first]. simpl in Ht, Hw. subst t.
  destruct Hk as [Kf Ks Kr Ke K1 Kp Ka]. simpl in Kf, Ks, Kr, Ke, K1, Kp. subst fatal stop pr errs.
  assert (Hk : ∀ w' pd' r', keeps (MkHealth false r' f f1 now false false) (MkServeState w' pd' r' f first)) by by split.
  destruct msg as [sig|[err|]|[err|]| |]; cbv beta iota.
  - rewrite wp_bind. by apply wp_quiet.
  - rewrite wp_bind. apply wp_quiet; [done|]. split; [|done]. simpl. auto.
  - apply IH; [done|apply Hk].
  - rewrite wp_bind. apply wp_quiet; [done|]. split; [|done]. simpl. auto.
  - rewrite wp_mbind. apply wp_checkAndReportStatus; [done| |done|done].
    intros w' [] Hw'; (apply IH; [done|apply Hk]).
  - rewrite wp_bind. apply wp_notify. apply IH; [done|apply Hk].
  - destruct r; [|by apply IH; [done|apply Hk]].
    cbn [negb sv_provisioned sv_watcher]. rewrite wp_mbind. apply wp_checkAndReportStatus; [done| |done|done].
    intros w' [] Hw'; cbv beta iota.
    + apply IH; [done|]. split; try done. simpl. by intros [? _].
    + rewrite wp_bind. apply wp_count_failure; try done. intros s' h'' Hs' Hsw. apply IH; [|done].
      by rewrite Hsw.
Qed.
End loop.

(** C28: the service gives up exactly when its policy says so.  Whatever the
    kernel answers, whatever messages arrive in whatever order, and however long
    it runs: the service ends its own process (status 1) only after a fatal
    message (the tap fd listener or the provisioning failed) or when three or
    more consecutive health checks failed over at least ninety seconds, and it
    never waits for another message once one of these, or a signal, has
    happened; a health check that succeeds clears the count.  It returns only
    because of a signal, and never with an error. *)
Theorem service_gives_up unmarshal map_range fuel cfg tapfd now :
  wp (health_sem (cf_Name cfg)) (serve_announced unmarshal map_range fuel cfg tapfd) served (health_start now).
Proof.
  unfold serve_announced. cbv zeta. rewrite wp_bind. apply wp_notify. rewrite wp_bind.
  apply wp_quiet; [done|]. rewrite wp_mbind. apply wp_checkAndReportStatus; [done| |done|done].
  intros w' b Hw. replace (if b then _ else _) with (health_start now) by by destruct b. cbv beta iota.
  rewrite wp_bind. unfold WatchdogEnabled. rewrite wp_bind. apply wp_unnoticed_kern; [done|]. intros usec.
  apply wp_return. apply wp_serve_loop; [done|]. split; try done. simpl. by intros [? _].
Qed.
