(* ===== verification/CliSpec.v ===== *)
(** * What the commands promise their callers

    The exit status of the process, and that a switch started from flags is
    the switch started from the file with the same texts. *)
From S2P Require Import Prelude Errors GoStrings GoTime GoNet Json BpfTypes Mac Geneve Prog SlotTable Netns Netlink Config.
From S2P Require Import MgmtService Metadata Loader Context Flock Attach AttachSpec Provision Stop Status Dhcp Lifecycle TapfdFd.
From S2P Require Import TapServer Output Cli CliStart.

(** ** The process

    [exec] runs a program until it returns or calls [os.Exit]. *)
Inductive outcome (A : Type) := Returned (a : A) | Exited (code : Z) | Faulted.
Arguments Returned {A} _. Arguments Exited {A} _. Arguments Faulted {A}.

Definition exit_event {B} (q : kev B) : option Z := match q with OsExit code => Some code | _ => None end.
Fixpoint exec {K} `{Kernel K} {A} (p : prog A) (w : world K) : outcome A * world K :=
  match p with
  | Ret a => (Returned a, w)
  | Vis e k =>
      match e in ev B return (B → prog A) → outcome A * world K with
      | EKern q => λ k,
          match exit_event q with
          | Some code => (Exited code, w)
          | None => let '(b, kn) := kernel_step q (w_kern w) in exec (k b) (MkWorld (w_slots w) kn)
          end
      | e => λ k, match mem_step e (w_slots w) with
                  | Some (b, s) => exec (k b) (MkWorld s (w_kern w))
                  | None => (Faulted, w)
                  end
      end k
  end.
(** The status the process reports; a fault is a signal and has none. *)
Definition exit_status {K} `{Kernel K} {A} (p : prog A) (w : world K) : option Z :=
  match exec p w with
  | (Returned _, _) => Some 0
  | (Exited code, _) => Some code
  | (Faulted, _) => None
  end.

Section exec.
Context {K : Type} `{Kernel K}.

Lemma exec_bind {A B} (p : prog A) (f : A → prog B) w :
  exec (pbind p f) w =
    match exec p w with
    | (Returned a, w') => exec (f a) w'
    | (Exited code, w') => (Exited code, w')
    | (Faulted, w') => (Faulted, w')
    end.
Proof.
  revert w. induction p as [a|C e k IH]; intros w; [done|].
  destruct e as [i|i o n|i|i wr|C q]; cbn [pbind exec];
    try (match goal with |- context [match mem_step ?e ?s with _ => _ end] => destruct (mem_step e s) as [[]|] end;
         [apply IH | done]).
  destruct (exit_event q); [done|]. destruct (kernel_step q (w_kern w)) as [b kn]. apply IH.
Qed.
Lemma exec_exit {B} code (k : unit → prog B) w : exec (pbind (kern (OsExit code)) k) w = (Exited code, w).
Proof. done. Qed.
Lemma pbind_assoc {A B C} (p : prog A) (f : A → prog B) (g : B → prog C) w :
  exec (pbind (pbind p f) g) w = exec (pbind p (λ a, pbind (f a) g)) w.
Proof. rewrite !exec_bind. destruct (exec p w) as [[a|c|] w']; [|done..]. by rewrite exec_bind. Qed.
Lemma exit_assoc {A B C} (p : prog A) (f : A → prog B) (g : B → prog C) w :
  exit_status (pbind (pbind p f) g) w = exit_status (pbind p (λ a, pbind (f a) g)) w.
Proof. unfold exit_status. by rewrite pbind_assoc. Qed.
Lemma exit_seq {A B} (p : prog A) (k : A → prog B) w a w' :
  exec p w = (Returned a, w') → exit_status (pbind p k) w = exit_status (k a) w'.
Proof. intros E. unfold exit_status. by rewrite exec_bind, E. Qed.
Lemma exit_print {B} s (k : unit → prog B) w :
  ∃ w', exit_status (pbind (kern (Stdout s)) k) w = exit_status (k tt) w'.
Proof. unfold exit_status. simpl. destruct (kernel_step _ _) as [[] kn]. eauto. Qed.
Lemma exit_warn {B} s (k : unit → prog B) w :
  ∃ w', exit_status (pbind (kern (Stderr s)) k) w = exit_status (k tt) w'.
Proof. unfold exit_status. simpl. destruct (kernel_step _ _) as [[] kn]. eauto. Qed.
End exec.

(** Step over what is printed on the way to the end of the process. *)
Ltac exits_step :=
  match goal with
  | |- exit_status (pbind (kern (Stdout ?s)) ?k) ?w = _ => destruct (exit_print s k w) as [? ->]
  | |- exit_status (pbind (kern (Stderr ?s)) ?k) ?w = _ => destruct (exit_warn s k w) as [? ->]
  | |- exit_status (pbind (pbind _ _) _) _ = _ => rewrite exit_assoc
  end.
Ltac exits := repeat (exits_step; cbv beta); try reflexivity.

(** ** The documented statuses of the status and stop commands *)
Definition status_code (readyOnly : bool) (r : res StatusOutput) : Z :=
  match r with
  | Ok output => if readyOnly && negb (StatusOutput_IsReady output) then 4 else 0
  | Err err => if IsNotExist (Some err) then 3 else 1
  | Panic => 2
  | OutOfFuel => 0
  end.
Definition stop_code (r : res unit) : Z :=
  match r with
  | Ok _ => 0
  | Err err => if IsPortsInUse (Some err) then 4 else if IsNotExist (Some err) then 3 else 1
  | Panic => 2
  | OutOfFuel => 0
  end.

Section statuses.
Context {K : Type} `{Kernel K} (unmarshal : string → res SwitchMetadata) (map_range : gset Z → list Z) (fuel : nat).

(** How a command that ends by its error handling ends. *)
Lemma main_ok w : exit_status (main (mok tt)) w = Some 0.
Proof. done. Qed.
Lemma main_err e w : exit_status (main (merr e)) w = Some 1.
Proof. unfold main, merr. cbn [pbind]. by exits. Qed.
Lemma main_seq {A} (p : prog A) (k : A → M unit) w a w' :
  exec p w = (Returned a, w') → exit_status (main (pbind p k)) w = exit_status (main (k a)) w'.
Proof. intros E. unfold main at 1. rewrite exit_assoc. by rewrite (exit_seq _ _ _ _ _ E). Qed.
Lemma main_print s (k : unit → M unit) w :
  ∃ w', exit_status (main (pbind (kern (Stdout s)) k)) w = exit_status (main (k tt)) w'.
Proof. unfold main at 1. rewrite exit_assoc. edestruct @exit_print as [w' ->]. by exists w'. Qed.
Lemma main_warn s (k : unit → M unit) w :
  ∃ w', exit_status (main (pbind (kern (Stderr s)) k)) w = exit_status (main (k tt)) w'.
Proof. unfold main at 1. rewrite exit_assoc. edestruct @exit_warn as [w' ->]. by exists w'. Qed.
Lemma main_exit code (k : unit → M unit) w : exit_status (main (pbind (kern (OsExit code)) k)) w = Some code.
Proof. done. Qed.
Lemma main_json v w : exit_status (main (printJSON v)) w = Some 0.
Proof. unfold printJSON. destruct (main_print (json_pretty 0 v +:+ nl) (λ _, mok tt) w) as [w' ->]. done. Qed.
Lemma main_missing name w : exit_status (main (exit_missing name)) w = Some 3.
Proof. unfold exit_missing. edestruct main_print as [w' ->]. done. Qed.
End statuses.

Ltac main_step :=
  match goal with
  | |- exit_status (main (pbind (kern (Stdout _)) _)) _ = _ => edestruct @main_print as [? ->]
  | |- exit_status (main (pbind (kern (Stderr _)) _)) _ = _ => edestruct @main_warn as [? ->]
  | |- exit_status (main (pbind (kern (OsExit _)) _)) _ = _ => rewrite main_exit
  | |- exit_status (main (exit_missing _)) _ = _ => rewrite main_missing
  | |- exit_status (main (printJSON _)) _ = _ => rewrite main_json
  | |- exit_status (main (merr _)) _ = _ => rewrite main_err
  | |- exit_status (main (mok tt)) _ = _ => rewrite main_ok
  | |- exit_status (main (match ?x with _ => _ end)) _ = _ => destruct x eqn:?
  end.
Ltac main_steps := repeat (main_step; cbv beta); try done.

Section documented.
Context {K : Type} `{Kernel K} (unmarshal : string → res SwitchMetadata) (map_range : gset Z → list Z) (fuel : nat).

(** C40: the exit status of the process is the one the commands document.  Once
    the status of the switch is known to be [r], [status] ends with 3 for a
    switch that does not exist, 1 for any other error, 4 when only readiness was
    asked for and the switch is not ready, and 0 otherwise; once the stop itself
    has ended with [r], [stop] without forced cleaning ends with 0 for success,
    4 while ports are in use, 3 for a missing switch and 1 for other errors. *)
Theorem exit_statuses readyOnly force name w :
  (∀ r w', exec (StatusByName unmarshal map_range name) w = (Returned r, w') →
     exit_status (main (runStatus unmarshal map_range readyOnly name)) w = Some (status_code readyOnly r)) ∧
  (∀ r w', exec (Stop unmarshal map_range fuel name (MkStopOptions force)) w = (Returned r, w') →
     exit_status (main (runStop unmarshal map_range fuel (MkStopFlags force false) name)) w = Some (stop_code r)).
Proof.
  split; intros r w' E.
  - unfold runStatus, or_missing. rewrite (main_seq _ _ _ _ _ E). unfold status_code.
    destruct r as [out|e| |]; [|by main_steps..]. destruct readyOnly; [|by main_steps].
    destruct (StatusOutput_IsReady out); by main_steps.
  - unfold runStop. rewrite (main_seq _ _ _ _ _ E). unfold stop_code.
    destruct r as [[]|e| |]; cbn [stopForceClean]; rewrite ?andb_false_r; by main_steps.
Qed.
End documented.

(** A host without the switch. *)
#[export] Instance empty_host : Kernel unit := λ B e k,
  (match e in kev B return B with
   | OsStat _ => inr (sentinel_error OsErrNotExist)
   | Statfs _ => inl BPF_FS_MAGIC
   | OsOpen _ => inl 5
   | Flock _ _ => inl tt
   | e => refuse e
   end, k).
Definition no_metadata (s : string) : res SwitchMetadata := Err (errorf "no metadata").
Lemma exit_statuses_witness :
  exit_status (main (runStatus no_metadata elements true "sw0")) (MkWorld [] tt) = Some 3 ∧
  exit_status (main (runStop no_metadata elements 5 (MkStopFlags false false) "sw0")) (MkWorld [] tt) = Some 3.
Proof.
  destruct (exit_statuses (K := unit) no_metadata elements 5 true false "sw0" (MkWorld [] tt)) as [Hstatus Hstop].
  split; (etrans; [first [eapply Hstatus | eapply Hstop]; vm_compute; reflexivity | reflexivity]).
Defined.

(** ** Flags and files *)
(** The same outcome, the texts of errors apart. *)
Definition same_outcome {A} (r r' : res A) : Prop :=
  match r, r' with
  | Ok a, Ok b => a = b
  | Err _, Err _ | Panic, Panic | OutOfFuel, OutOfFuel => True
  | _, _ => False
  end.
Lemma same_bind {A B} (m m' : res A) (f f' : A → res B) :
  same_outcome m m' → (∀ a, same_outcome (f a) (f' a)) → same_outcome (res_bind m f) (res_bind m' f').
Proof. destruct m, m'; simpl; try done. intros ->. auto. Qed.
Lemma same_bind_l {A B C} (m : res A) (f : A → res B) (g : B → res C) r :
  same_outcome (res_bind m (λ a, res_bind (f a) g)) r → same_outcome (res_bind (res_bind m f) g) r.
Proof. by destruct m. Qed.
Lemma same_bind2 {A B C} (m : res (A * B)) (p : res A) (q : res B) (f : A * B → res C) (g : A → B → res C) :
  same_outcome m (let! a := p in let! b := q in Ok (a, b)) → (∀ a b, same_outcome (f (a, b)) (g a b)) →
  same_outcome (res_bind m f) (let! a := p in let! b := q in g a b).
Proof. destruct m, p, q; simpl; try done. intros -> H. apply H. Qed.
Lemma same_refl {A} (m : res A) : same_outcome m m.
Proof. by destruct m. Qed.
Lemma same_sym {A} (m m' : res A) : same_outcome m m' → same_outcome m' m.
Proof. destruct m, m'; simpl; try done. Qed.
Lemma same_trans {A} (m1 m2 m3 : res A) : same_outcome m1 m2 → same_outcome m2 m3 → same_outcome m1 m3.
Proof. destruct m1, m2, m3; simpl; try done. by intros -> ->. Qed.
Lemma same_map_err {A} f g (m m' : res A) : same_outcome m m' → same_outcome (map_err f m) (map_err g m').
Proof. by destruct m, m'. Qed.
Lemma same_map_err_l {A} f (m m' : res A) : same_outcome m m' → same_outcome (map_err f m) m'.
Proof. by destruct m, m'. Qed.
Lemma same_mapM {A B} (f g : A → res B) l :
  (∀ x, same_outcome (f x) (g x)) → same_outcome (res_mapM f l) (res_mapM g l).
Proof.
  intros Hf. induction l as [|x l IH]; [done|]. simpl. apply same_bind; [done|]. intros y. by apply same_bind.
Qed.

(** The file with the texts of the flags, letter by letter.  Only the locators are
    typed in the file: the JSON reader parses them with the functions that parse
    the flags. *)
Definition file_of (f : start_flags) (name : string) (locator : Z) (tlv : option GeneveTLVLocator) : FileConfig :=
  MkFileConfig name (startNetNS f) (startPortNetNS f) (startPorts f) (startMACAddr f) (startFloatingIPBase f)
    (startGenerationBits f) (startMgmtExtracts f) (startMgmtServices f) (startTransitDev f)
    (startTransitDevAddr f) (startTransitDevMTU f) locator (startGenevePortBase f) tlv
    (startGeneveEncapEth f) (startMTU f) (startPortMACAddr f).
Definition with_defaults (r : res Config) : res Config := let! c := r in Ok (applyGeneveDefaults c).

(** The flags with other transit texts and another port MAC text. *)
Definition with_texts (dev addr mtu mac : string) (f : start_flags) : start_flags :=
  MkStartFlags (startConfigFile f) (startNetNS f) (startPortNetNS f) (startPorts f) (startMACAddr f)
    (startFloatingIPBase f) (startGenerationBits f) (startMgmtExtracts f) (startMgmtServices f) dev addr mtu
    (startGeneveLocator f) (startGenevePortBase f) (startGeneveTLVLocator f) (startGeneveEncapEth f) (startMTU f) mac
    (startReserved f) (startMode f).
Definition set_TransitDev (dev : string) (c : Config) : Config :=
  let '(MkConfig name sns pns n mac fip gb ex sv _ ta tn taa tm tma pb loc tlv eth mtu pm dm def) := c in
  MkConfig name sns pns n mac fip gb ex sv dev ta tn taa tm tma pb loc tlv eth mtu pm dm def.
(** What the file reads: an empty port MAC is the fixed one, and the transit
    texts are looked at without a device as with one. *)
Definition file_reads (f : start_flags) : start_flags :=
  with_texts (if bool_decide (startTransitDev f = "") then "-" else startTransitDev f) (startTransitDevAddr f)
    (startTransitDevMTU f) (if bool_decide (startPortMACAddr f = "") then "fixed" else startPortMACAddr f) f.

Ltac same_flat := repeat match goal with |- same_outcome (res_bind (res_bind _ _) _) _ => apply same_bind_l end.
Section texts.
Context (f : start_flags) (name : string) (locator : Z) (tlv : option GeneveTLVLocator).
Context (Hloc : ParseGeneveLocator (startGeneveLocator f) = Ok locator) (Htlv : opt_tlv (startGeneveTLVLocator f) = Ok tlv).

(** In every case the file describes the switch of the flags it reads. *)
Lemma file_reads_flags :
  same_outcome (let! c := with_defaults (flags_config (file_reads f) name) in Ok (set_TransitDev (startTransitDev f) c))
    (ToConfig (file_of f name locator tlv)).
Proof.
  unfold with_defaults, flags_config, ToConfig, file_of, file_reads, with_texts. cbv zeta.
  cbn [fc_SwitchName fc_SwitchNetNS fc_PortNetNS fc_NumPorts fc_MACAddr fc_FloatingIPBase fc_GenerationBits
    fc_MgmtExtracts fc_MgmtServices fc_TransitDev fc_TransitDevAddr fc_TransitDevMTU fc_GeneveLocator
    fc_GenevePortBase fc_GeneveTLVLocator fc_GeneveEncapEth fc_MTU fc_PortMACAddr
    startMACAddr startFloatingIPBase startGeneveLocator startGeneveTLVLocator startMgmtExtracts startMgmtServices
    startTransitDev startTransitDevAddr startTransitDevMTU startPortMACAddr startNetNS startPortNetNS startPorts
    startGenerationBits startGenevePortBase startGeneveEncapEth startMTU].
  same_flat. apply same_bind; [apply same_map_err, same_refl|]. intros mac.
  destruct (ParseIP _) as [ip|]; [|done]. rewrite Hloc, Htlv. cbn [res_bind].
  same_flat. apply same_bind; [apply same_mapM; intros x; apply same_map_err, same_refl|]. intros extracts.
  same_flat. apply same_bind; [apply same_mapM; intros x; apply same_map_err, same_refl|]. intros services.
  same_flat. apply same_bind2.
  - unfold transit_flags. cbn [startTransitDev startTransitDevAddr startTransitDevMTU].
    rewrite bool_decide_false by (by case_bool_decide). apply same_bind.
    { repeat case_bool_decide; try done. apply same_bind; [apply same_map_err, same_refl|]. intros a. apply same_refl. }
    intros addr. apply same_bind; [|intros m; apply same_refl].
    repeat case_bool_decide; try done. cbv zeta. pose proof (atoi_returns (startTransitDevMTU f)).
    destruct (atoi _) as [m|e| |]; try done. by destruct (m <=? 0).
  - intros [[addr gw] auto] [mtu mauto]. same_flat. apply same_bind.
    + unfold port_mac_flag. destruct (decide (startPortMACAddr f = "")) as [->|Hmac]; [apply same_refl|].
      rewrite (bool_decide_false _ Hmac).
      rewrite (bool_decide_ext (startPortMACAddr f ∈ [""; "fixed"]) (startPortMACAddr f = "fixed")) by set_solver.
      repeat case_bool_decide; try apply same_refl. pose proof (ParseMAC_returns (startPortMACAddr f)).
      by destruct (ParseMAC _).
    + intros pm. unfold applyGeneveDefaults. cbn [res_bind same_outcome cf_GenevePortBase].
      by destruct (startGenevePortBase f =? 0).
Qed.

Lemma flags_config_dev g c : flags_config g name = Ok c → cf_TransitDev c = startTransitDev g.
Proof. unfold flags_config. intros H. by invert_ok. Qed.
Lemma set_dev_defaults dev c : set_TransitDev (cf_TransitDev c) (applyGeneveDefaults (set_TransitDev dev c)) = applyGeneveDefaults c.
Proof. destruct c as [? ? ? ? ? ? ? ? ? ? ? ? ? ? ? pb]. unfold applyGeneveDefaults. cbn. by destruct (pb =? 0). Qed.
Lemma set_own_dev g : same_outcome (let! c := with_defaults (flags_config g name) in Ok (set_TransitDev (startTransitDev g) c))
  (with_defaults (flags_config g name)).
Proof.
  unfold with_defaults. destruct (flags_config g name) as [c|e| |] eqn:E; try done. apply flags_config_dev in E.
  cbn [res_bind same_outcome]. rewrite <-E. pose proof (set_dev_defaults (cf_TransitDev c) c) as H.
  assert (set_TransitDev (cf_TransitDev c) c = c) as Hc by (by destruct c). by rewrite Hc in H.
Qed.
(** Without transit texts the name of the device is only recorded. *)
Lemma flags_config_named g dev :
  flags_config (with_texts dev "" "" (startPortMACAddr g) g) name =
  let! c := flags_config (with_texts "" "" "" (startPortMACAddr g) g) name in Ok (set_TransitDev dev c).
Proof.
  unfold flags_config, with_texts, transit_flags. cbn -[port_mac_flag bool_decide]. destruct (ParseMAC _) as [mac| | |]; try done.
  cbn -[port_mac_flag bool_decide]. destruct (ParseIP _); [|done].
  destruct (ParseGeneveLocator (startGeneveLocator g)); try done. destruct (opt_tlv (startGeneveTLVLocator g)); try done.
  destruct (res_mapM _ (startMgmtExtracts g)); try done.
  destruct (res_mapM _ (startMgmtServices g)); try done. cbn -[port_mac_flag bool_decide].
  destruct (bool_decide (dev = "")); cbn -[port_mac_flag bool_decide]; by destruct (port_mac_flag (startPortMACAddr g) mac).
Qed.
Lemma with_own_texts g :
  with_texts (startTransitDev g) (startTransitDevAddr g) (startTransitDevMTU g) (startPortMACAddr g) g = g.
Proof. by destruct g. Qed.
End texts.

(** C29: flags and a file with the same texts, the locators being well formed.
    When the port MAC text is not empty and no transit address or MTU is given
    without a device, building the configuration from the flags fails exactly
    when reading the file does, and otherwise both describe the same switch once
    the default port base is filled in, as every start does first.  In the two
    remaining cases they part: flags with an empty port MAC are refused, and
    transit texts without a device are ignored in the flags; the file reads the
    former as the fixed MAC and parses the latter. *)
Theorem flags_file_agree f name locator tlv :
  ParseGeneveLocator (startGeneveLocator f) = Ok locator →
  opt_tlv (startGeneveTLVLocator f) = Ok tlv →
  let flags := with_defaults (flags_config f name) in
  let file := ToConfig (file_of f name locator tlv) in
  (startPortMACAddr f ≠ "" → startTransitDev f ≠ "" ∨ startTransitDevAddr f = "" ∧ startTransitDevMTU f = "" →
     same_outcome flags file) ∧
  (startPortMACAddr f = "" → is_ok flags = false) ∧
  (startTransitDev f = "" → flags = with_defaults (flags_config (with_texts "" "" "" (startPortMACAddr f) f) name)) ∧
  same_outcome (let! c := with_defaults (flags_config (file_reads f) name) in Ok (set_TransitDev (startTransitDev f) c)) file.
Proof.
  intros Hloc Htlv flags file. pose proof (file_reads_flags f name locator tlv Hloc Htlv) as Hfile. fold file in Hfile.
  split_and!; [|intros Hmac|intros Hdev|exact Hfile].
  - intros Hmac Hdev. eapply same_trans; [|exact Hfile]. unfold file_reads. rewrite (bool_decide_false _ Hmac).
    case_bool_decide as Hd.
    + destruct Hdev as [?|[Ha Hm]]; [done|]. rewrite Ha, Hm. unfold with_defaults. rewrite flags_config_named.
      assert (with_texts "" "" "" (startPortMACAddr f) f = f) as -> by (rewrite <-(with_own_texts f) at 3; by rewrite Hd, Ha, Hm).
      unfold flags, with_defaults. destruct (flags_config f name) as [c|e| |] eqn:E; try done. apply flags_config_dev in E.
      cbn [res_bind same_outcome]. by rewrite <-E, set_dev_defaults.
    + rewrite with_own_texts. apply same_sym, set_own_dev.
  - unfold flags, with_defaults, flags_config. rewrite Hmac. destruct (ParseMAC _); try done. cbn.
    destruct (ParseIP _); [|done]. rewrite Hloc, Htlv. cbn.
    destruct (res_mapM _ (startMgmtExtracts f)); try done. cbn. destruct (res_mapM _ (startMgmtServices f)); try done. cbn.
    destruct (transit_flags f) as [[[[? ?] ?] [? ?]]| | |]; try done. 
  - unfold flags, flags_config, transit_flags, with_texts. cbn. by rewrite Hdev.
Qed.

Definition ex_flags : start_flags :=
  MkStartFlags "" "sandbox_switch" "" 64 "02:00:00:00:00:01" "100.100.96.0" 4
    ["sandbox_mgmt:mgmt0:169.254.169.254/32"] ["169.254.169.254:80:127.0.0.1:8080"] "eth1" "10.0.0.2/24:10.0.0.1"
    "1450" "tlv" 0 "0102:80" false 0 "fixed" false "tap".
Lemma flags_file_agree_witness :
  is_ok (flags_config ex_flags "sw0") = true ∧
  same_outcome (with_defaults (flags_config ex_flags "sw0")) (ToConfig (file_of ex_flags "sw0" 2 (Some (MkTLV 258 128)))).
Proof.
  split; [by vm_compute|]. destruct (flags_file_agree ex_flags "sw0" 2 (Some (MkTLV 258 128))) as [H _]; [by vm_compute..|].
  apply H; [done|by left].
Defined.

(** The two cases in which they part: the flags are accepted and the file is
    refused, and the other way round. *)
Lemma transit_texts_without_device :
  let f := with_texts "" "nonsense" "" "fixed" ex_flags in
  is_ok (flags_config f "sw0") = true ∧ is_ok (ToConfig (file_of f "sw0" 2 (Some (MkTLV 258 128)))) = false.
Proof. by vm_compute. Qed.
Lemma empty_port_mac :
  let f := with_texts "eth1" "" "" "" ex_flags in
  is_ok (flags_config f "sw0") = false ∧ is_ok (ToConfig (file_of f "sw0" 2 (Some (MkTLV 258 128)))) = true.
Proof. by vm_compute. Qed.
