(* ===== verification/AttachOpenSpec.v ===== *)
(** * Attach and open in one command: cmd/connector-ctl/attach.go

    [connector-ctl attach --open-port] attaches a port and hands its tap to the
    socket in the environment; when the hand-off fails it re-opens the switch
    by name and detaches the port again.  The semantics here is the one in
    which that can be stated: every opening of the switch that succeeds reads
    the configuration and metadata it was started with. *)
From S2P Require Import Prelude Errors GoStrings GoText GoNet BpfTypes Mac Geneve Prog SlotTable Netns Netlink Config Metadata.
From S2P Require Import Loader Context Flock Attach AttachSpec Provision ProvisionSpec PortSpec Stop Tapfd TapfdSpec TapfdFd.
From S2P Require Import HostIo TapfdFdSpec TapServer HandoffSpec TapServerSpec Output Cli.

(** ** What the command leaves outside the table

    Whether a message with descriptors was accepted by the receiver's socket,
    and whether the latest opening of the switch met a refusal. *)
Record handover := MkHandover { ho_sent : bool; ho_refused : bool }.
Definition set_refused (b : bool) (g : handover) : handover := MkHandover (ho_sent g) b.
Definition opening {A} (good : A → Prop) (b : ans A) (g g' : handover) : Prop :=
  match b with inl a => good a ∧ g' = g | inr _ => g' = set_refused true g end.

(** ** What an accepted attachment request is *)
Lemma attach_checks_parts sw opts value total ip : attach_checks sw opts = Ok (value, total, ip) →
  marshalGeneveOptions (geneveLocatorFromConfig (sx_cfg sw)) (tlv_from_config (sx_cfg sw)) (ao_TransitGeneveOpts opts)
    = Ok (value, total) ∧
  ip = IPToUint32 (ao_InnerIP opts) ∧ IsSlotFreeOrReserved ip = false ∧ Z.land (sc_Features (sx_cfg sw)) SwitchFPortUp ≠ 0.
Proof.
  intros Hc. pose proof (attach_checks_ip _ _ _ _ _ Hc) as [Hip Hst]. split_and!; [|done| |].
  - unfold attach_checks in Hc. by invert_ok.
  - unfold state_of in Hst. unfold IsSlotFreeOrReserved. by repeat case_match.
  - unfold attach_checks, requireAttachmentABI in Hc. invert_ok; by apply Z.eqb_neq.
Qed.
Lemma only_slot_length i s s' x y :
  only_slot i s s' → slot_at s i = Some x → slot_at s' i = Some y → length s' = length s.
Proof.
  intros Honly Hx Hy. assert (Hsame : ∀ k, in_slots s k ↔ in_slots s' k).
  { intros k. destruct (decide (k = i)) as [->|Hk]; [split; intros; by eapply slot_at_range|].
    split; intros [z Hz]%slot_at_in; eapply slot_at_range; [rewrite Honly by done|rewrite <-Honly by done]; exact Hz. }
  unfold in_slots in Hsame. pose proof (Hsame (Z.of_nat (length s))). pose proof (Hsame (Z.of_nat (length s'))). lia.
Qed.
Lemma attach_options_ip f ip opts : attach_options f ip = Ok opts → ao_InnerIP opts = ip.
Proof. unfold attach_options. intros H. by invert_ok. Qed.
Lemma detached_rolled_back opts value ip x y : attached opts value ip x y → rolled_back x (detached y).
Proof. intros [_ _ _ _ _ _ _ _ Hd]. by destruct y; constructor. Qed.

Section handover.
Context (cfg : SwitchConfig) (raw : list Z).

Definition lookup_step {K V} (m : bmap K V) (g : handover) (b : ans V) (g' : handover) : Prop :=
  match m in bmap K V return ans V → Prop with
  | MConfig => λ b, opening (λ v, v = cfg) b g g'
  | MMetadata => λ b, opening (λ v, v = raw) b g g'
  | _ => λ _, g' = g
  end b.
Definition ho_step {B} (q : kev B) (g : handover) (b : B) (g' : handover) : Prop :=
  match q in kev B return B → Prop with
  | OsStat _ => λ b, g' = set_refused (match b with inl true => false | _ => true end) g
  | LoadPinnedMap _ => λ b, opening (λ _, True) b g g'
  | Mmap _ _ => λ b, opening (λ _, True) b g g'
  | MapLookup m _ _ => λ b, lookup_step m g b g'
  | ConnWriteMsg _ _ _ => λ b, match b with inl _ => g' = MkHandover true (ho_refused g) | inr _ => g' = g end
  | _ => λ _, g' = g
  end b.
Definition ho_sem : sem (list SlotItem * handover) := ghost_sem (λ _ _ _, True) (@ho_step).

(** *** Events that send nothing, and events that change nothing here *)
Definition silent (B : Type) (e : ev B) : Prop := match e with EKern (ConnWriteMsg _ _ _) => False | _ => True end.
Definition still (B : Type) (e : ev B) : Prop :=
  match e with
  | EKern (ConnWriteMsg _ _ _) | EKern (OsStat _) | EKern (LoadPinnedMap _) | EKern (Mmap _ _) | EKern (MapLookup _ _ _) => False
  | _ => True
  end.
Definition same_sent (g g' : handover) : Prop := ho_sent g' = ho_sent g.
Lemma silent_within B (e : ev B) : silent B e → within (λ _ _ _, True) (@ho_step) same_sent B e.
Proof.
  destruct e as [| | | |B q]; try done. intros Hq. split; [done|]. intros g b g'.
  destruct q; try done; cbn [ho_step]; try (by intros ->); [destruct m; cbn [lookup_step]; try (by intros ->)|..].
  all: destruct b; try (by intros ->); by intros [_ ->].
Qed.
Lemma still_within B (e : ev B) : still B e → within (λ _ _ _, True) (@ho_step) eq B e.
Proof.
  destruct e as [| | | |B q]; try done. intros Hq. split; [done|]. intros g b g'.
  destruct q; try done; cbn [ho_step]; by intros ->.
Qed.

Lemma wp_silent {A} (p : prog A) (Q : A → list SlotItem → Prop) t :
  obeys silent p → wp alone p Q t.1 → wp ho_sem p (λ a t', Q a t'.1 ∧ ho_sent t'.2 = ho_sent t.2) t.
Proof.
  intros Hp Hwp. apply (wp_ghost_frame _ _ same_sent); unfold same_sent; [done|congruence| |done].
  eapply obeys_mono; [apply silent_within|exact Hp].
Qed.
Lemma wp_still {A} (p : prog A) (Q : A → list SlotItem → Prop) t :
  obeys still p → wp alone p Q t.1 → wp ho_sem p (λ a t', Q a t'.1 ∧ t'.2 = t.2) t.
Proof.
  intros Hp Hwp. eapply wp_mono; [apply (wp_ghost_frame _ _ eq p Q); [done|congruence| |done]|].
  - eapply obeys_mono; [apply still_within|exact Hp].
  - by intros a t' [? ->].
Qed.
(** Clean-ups, whatever they answer. *)
Lemma wp_still_kern {A} (p : prog A) (Q : A → list SlotItem * handover → Prop) t :
  obeys still p → kern_only p → (∀ a, Q a t) → wp ho_sem p Q t.
Proof.
  intros Hp Hk HQ. eapply wp_mono; [apply (wp_still p (λ _ s', s' = t.1)); [done|by apply wp_alone_kern_only]|].
  intros a [s' g'] [Es Eg]. simpl in Es, Eg. subst. destruct t. apply HQ.
Qed.

(** ** Opening *)
Lemma close_all_still l errs : obeys still (close_all l errs).
Proof. revert errs. induction l as [|[m|] l IH]; intros errs; cbn [close_all]; [done| |by apply IH]. obeys ltac:(exact I). Qed.
#[local] Hint Resolve close_all_still close_all_kern_only : obeys kern_only.
Lemma Maps_Close_still m : obeys still (Maps_Close m).
Proof. unfold Maps_Close. obeys ltac:(exact I). Qed.
#[local] Hint Resolve Maps_Close_still : obeys.
Lemma switchContext_Close_still s : obeys still (switchContext_Close s).
Proof. unfold switchContext_Close, MmappedSlots_Close. obeys ltac:(exact I). Qed.

Section opening.
Context (unmarshal : string → res SwitchMetadata) (meta : SwitchMetadata) (s : list SlotItem).
Context (Hmeta : match trim_nulls raw with [] => Ok SwitchMetadata_zero | t => unmarshal (string_of t) end = Ok meta).

(** An opening that answers an error met a refusal, and one that met none
    found every map. *)
Record opens_as (n : string) (sw : switchContext) : Prop := {
  oa_name : sx_name sw = n; oa_cfg : sx_cfg sw = cfg; oa_meta : sx_meta sw = meta;
  oa_num : sx_numSlots sw = sc_N_ports cfg; oa_ports : sx_numPorts sw = sc_N_ports cfg;
}.

Lemma wp_ho_call {A} (e : kev (ans A)) (Q : res A → _ → Prop) t :
  (∀ a g', ho_step e t.2 (inl a) g' → Q (Ok a) (t.1, g')) →
  (∀ er g', ho_step e t.2 (inr er) g' → Q (Err er) (t.1, g')) → wp ho_sem (call e) Q t.
Proof. intros. by apply wp_ghost_call. Qed.

Lemma wp_load_or_close_ho {A} n opened file (k : Z → M A) (Q : res A → _ → Prop) g :
  (∀ m, wp ho_sem (k m) Q (s, g)) → (∀ e, Q (Err e) (s, set_refused true g)) →
  wp ho_sem (load_or_close n opened file k) Q (s, g).
Proof.
  intros Hk He. unfold load_or_close. apply wp_bind, wp_ho_call; simpl.
  - intros m g' [_ ->]. apply Hk.
  - intros e g' ->. apply wp_bind, wp_still_kern; [apply close_all_still|apply close_all_kern_only|]. intros a. apply He.
Qed.

Lemma wp_LoadPinnedMaps_ho n (Q : res BpfMaps → _ → Prop) g :
  (∀ m g', is_Some (mp_Slots m) → ho_sent g' = ho_sent g → (ho_refused g' = false → is_Some (mp_GeneveOpts m)) →
     Q (Ok m) (s, g')) →
  (∀ e g', ho_sent g' = ho_sent g → ho_refused g' = true → Q (Err e) (s, g')) →
  wp ho_sem (LoadPinnedMaps n) Q (s, g).
Proof.
  intros Hok Herr. unfold LoadPinnedMaps. cbv zeta.
  (* the six required maps, then the last one *)
  assert (Hload : ∀ path (k : res Z → M BpfMaps) g1, (∀ m, wp ho_sem (k (Ok m)) Q (s, g1)) →
    (∀ e, wp ho_sem (k (Err e)) Q (s, set_refused true g1)) → wp ho_sem (pbind (call (LoadPinnedMap path)) k) Q (s, g1)).
  { intros path k g1 Hm He. apply wp_bind, wp_ho_call; simpl; [intros m g' [_ ->]|intros e g' ->]; auto. }
  apply Hload; [intros slots|intros e; destruct (errors_is e OsErrNotExist); [apply Hload; [intros slots|intros e']|]];
    apply wp_mbind; cbn [mpure map_err wp]; try by apply Herr.
  all: do 6 (apply wp_load_or_close_ho; [intros ?|intros ?; by apply Herr]).
  all: apply Hload; [intros opts; by apply Hok|intros e1]; destruct (_ || _); [|by apply Hok].
  all: apply wp_bind, wp_still_kern; [apply close_all_still|apply close_all_kern_only|intros; by apply Herr].
Qed.

Lemma wp_on_err_still {A C} (c : prog C) (p : M A) (Q : res A → _ → Prop) t :
  obeys still c → kern_only c → wp ho_sem p Q t → wp ho_sem (on_err c p) Q t.
Proof.
  intros Hc Hk Hp. unfold on_err. apply wp_bind. eapply wp_mono; [exact Hp|]. intros [a|e| |] t' HQ; try exact HQ.
  by apply wp_bind, wp_still_kern.
Qed.

Lemma wp_open_loaded n m (Q : res switchContext → _ → Prop) g :
  is_Some (mp_Slots m) → (ho_refused g = false → is_Some (mp_GeneveOpts m)) →
  (∀ sw, opens_as n sw → (ho_refused g = false → has_geneve_opts sw = true) → Q (Ok sw) (s, g)) →
  (∀ e, Q (Err e) (s, set_refused true g)) →
  wp ho_sem (open_loaded unmarshal n m) Q (s, g).
Proof.
  intros [slots Hslots] Hg Hok Herr. unfold open_loaded, GetSwitchConfig, GetSwitchMetadata, LoadMetadata.
  apply wp_mbind, wp_mwrap, wp_mwrap, wp_ho_call; [intros c g' [-> ->]|intros e g' ->; apply Herr]. cbn [map_err fst snd].
  apply wp_mbind, wp_mwrap, wp_mbind, wp_mwrap, wp_ho_call; [intros b g' [-> ->]|intros e g' ->; apply Herr]. cbn [map_err fst snd].
  assert (Hrest : wp ho_sem (deref (mp_Slots m) (λ slots,
      let* mmapSlots := mwrap (λ e, errorw "failed to mmap slots: " e "") (NewMmappedSlots slots (sc_N_ports cfg)) in
      mok (MkContext n (Some m) cfg meta mmapSlots (sc_N_ports cfg)))) Q (s, g)).
  { rewrite Hslots. cbn [deref]. unfold NewMmappedSlots. apply wp_mbind, wp_mwrap, wp_bind, wp_still_kern; [by split|by split|].
    intros [[fd size] entries]. apply wp_bind, wp_still_kern; [by split|by split|]. intros page.
    apply wp_mbind, wp_mwrap, wp_ho_call; [intros b g' [_ ->]|intros e g' ->; apply Herr].
    apply Hok; [by split|]. intros E. unfold has_geneve_opts. cbn. by apply bool_decide_eq_true_2, Hg. }
  destruct (trim_nulls raw) as [|c l] eqn:E; [injection Hmeta as ->; exact Hrest|].
  rewrite wp_mwrap. cbn [mpure wp]. rewrite Hmeta. exact Hrest.
Qed.

Lemma wp_openSwitch n (Q : res switchContext → _ → Prop) g :
  (∀ sw g', opens_as n sw → ho_sent g' = ho_sent g → (ho_refused g' = false → has_geneve_opts sw = true) →
     Q (Ok sw) (s, g')) →
  (∀ e g', ho_sent g' = ho_sent g → ho_refused g' = true → Q (Err e) (s, g')) →
  wp ho_sem (openSwitch unmarshal n) Q (s, g).
Proof.
  intros Hok Herr. unfold openSwitch. apply wp_mbind, wp_mwrap. unfold PinPathExists. cbv zeta.
  apply wp_bind, wp_ho_call; cbn [fst snd].
  - intros [] g' ->; [|by apply Herr]. cbn [mok wp map_err negb].
    apply wp_mwrap, wp_mbind, wp_mwrap, wp_LoadPinnedMaps_ho; cbn [map_err].
    + intros m g1 Hslots E1 Hg. apply wp_on_err_still; [apply Maps_Close_still|kern_only|].
      apply wp_open_loaded; [done|done| |].
      * intros sw Hsw Hopts. by apply Hok.
      * intros e. by apply Herr.
    + intros e g1 E1 E2. by apply Herr.
  - intros e g' ->. destruct (errors_is e OsErrNotExist); by apply Herr.
Qed.
End opening.

(** ** The roll-back *)
Lemma Detach_still sw p : obeys still (Detach sw (MkDetachOptions p "" true)).
Proof.
  unfold Detach, read_slot, detach_device. destruct (_ <=? 0); [done|]. cbv zeta. destruct (_ <=? _); [done|].
  assert (∀ n i, obeys still (GetInnerIP n i)) as Hip by (intros; unfold GetInnerIP; obeys ltac:(exact I)).
  apply obeys_mbind; [done|]. intros _. apply obeys_bind; [apply Hip|]. intros ip. destruct (IsSlotFreeOrReserved ip); [done|].
  destruct (GetSlot _ _); [|done]. cbn [deref do_SkipDevice negb]. apply obeys_bind; [by split|]. intros x.
  rewrite andb_false_r. unfold detach_release, store_slot, UpdateSlotFields, TryRelease, cas, deref. cbn [stores]. obeys ltac:(exact I).
Qed.

(** Without the device, detaching an attached port can only be refused by the
    compatibility check. *)
Lemma wp_Detach_slot sw i x slots :
  ctx_ok sw slots → 0 ≤ i < sc_N_ports (sx_cfg sw) → slot_at slots i = Some x → IsSlotFreeOrReserved (si_InnerIp x) = false →
  wp alone (Detach sw (MkDetachOptions (i + 1) "" true))
    (λ r slots', match requireAttachmentABI sw with
                 | Ok _ => r = Ok tt ∧ slots' = set_slot slots i (detached x)
                 | _ => ∃ e, r = Err e ∧ slots' = slots
                 end) slots.
Proof.
  intros Hctx Hi Hx Ha. pose proof (ctx_num _ _ Hctx) as Hnum. pose proof (ctx_max _ _ Hctx) as Hmax.
  pose proof (ctx_fit _ _ Hctx) as Hfit. unfold MaxPorts in Hmax. unfold Detach. cbn [do_Port].
  rewrite (proj2 (Z.leb_gt (i + 1) 0)) by lia. replace (i + 1 - 1) with i by lia.
  rewrite u32_small by (unfold is_u32; lia). cbv zeta. rewrite (proj2 (Z.leb_gt _ i)) by lia.
  apply wp_mbind. cbn [mpure wp]. destruct (requireAttachmentABI sw) as [[]|e| |] eqn:Habi; [|by eexists|..].
  2,3: unfold requireAttachmentABI in Habi; repeat case_match; done.
  apply wp_bind. eapply wp_GetInnerIP; [lia|done|]. rewrite Ha. unfold read_slot. rewrite GetSlot_lt by lia. cbn [deref].
  apply wp_bind. eapply wp_load_slot_alone; [done|]. unfold detach_device. cbn [do_SkipDevice negb]. rewrite andb_false_r.
  by apply (wp_detach_release _ _ i x); [lia|..].
Qed.

(** ** The command *)
Section command.
Context (unmarshal : string → res SwitchMetadata) (meta : SwitchMetadata) (name : string).
Context (Hmeta : match trim_nulls raw with [] => Ok SwitchMetadata_zero | t => unmarshal (string_of t) end = Ok meta).

(** The table holds a switch of this configuration. *)
Record holds_switch (s : list SlotItem) : Prop := {
  hs_pos : 0 ≤ sc_N_ports cfg; hs_fit : sc_N_ports cfg ≤ Z.of_nat (length s); hs_max : sc_N_ports cfg ≤ MaxPorts;
  hs_mac : length (sc_SwitchMac cfg) = 6%nat;
}.
Lemma opened_ok n sw s : opens_as meta n sw → holds_switch s → ctx_ok sw s.
Proof. intros [? E ? En ?] []. by constructor; rewrite ?E, ?En. Qed.

Lemma wp_with_switch {A} (f : switchContext → M A) (Q : res A → _ → Prop) s g :
  (∀ sw g', opens_as meta name sw → ho_sent g' = ho_sent g → (ho_refused g' = false → has_geneve_opts sw = true) →
     wp ho_sem (f sw) Q (s, g')) →
  (∀ e g', ho_sent g' = ho_sent g → ho_refused g' = true → Q (Err e) (s, g')) →
  wp ho_sem (with_switch (Open unmarshal name) f) Q (s, g).
Proof.
  intros Hf Herr. unfold with_switch, Open. apply wp_mbind. apply (wp_openSwitch unmarshal meta s Hmeta).
  - intros sw g' Ho Es Hg. unfold with_defer. apply wp_bind. eapply wp_mono; [by apply Hf|].
    intros r t HQ. apply wp_bind, wp_still_kern; [apply switchContext_Close_still| |by intros].
    apply kern_ret_only, switchContext_Close_kern_ret.
  - intros e g' Es Er. by apply Herr.
Qed.

(** The roll-back frees the port unless it cannot open the switch again. *)
Lemma wp_undo_attach out i x s g (Q : res unit → _ → Prop) :
  holds_switch s → Z.land (sc_Features cfg) SwitchFPortUp ≠ 0 → at_Port out = i + 1 → 0 ≤ i < sc_N_ports cfg →
  slot_at s i = Some x → IsSlotFreeOrReserved (si_InnerIp x) = false →
  (∀ g', ho_sent g' = ho_sent g → Q (Ok tt) (set_slot s i (detached x), g')) →
  (∀ g', ho_sent g' = ho_sent g → ho_refused g' = true → Q (Ok tt) (s, g')) →
  wp ho_sem (undo_attach unmarshal name out) Q (s, g).
Proof.
  intros Hs Hfeat Hport Hi Hx Ha Hok Hbad. unfold undo_attach, ignore_err, DetachByName. rewrite Hport.
  apply wp_bind, wp_with_switch; [|intros e g' E1 E2; by apply Hbad].
  intros sw g' Ho Es Hg. pose proof (opened_ok _ _ _ Ho Hs) as Hctx. pose proof (oa_cfg _ _ _ Ho) as Hcfg.
  eapply wp_mono; [apply wp_still; [apply Detach_still|apply (wp_Detach_slot _ i x); [done|by rewrite Hcfg|done..]]|].
  intros r [s' g1] [Hr E1]. cbn [fst snd] in *. subst g1. unfold requireAttachmentABI in Hr.
  rewrite Hcfg, (proj2 (Z.eqb_neq _ 0) Hfeat) in Hr. destruct (has_geneve_opts sw) eqn:Eg; cbn [negb] in Hr.
  - destruct Hr as [-> ->]. by apply Hok.
  - destruct Hr as (e & -> & ->). apply Hbad; [done|]. destruct (ho_refused g'); [done|]. by specialize (Hg eq_refl).
Qed.

(** *** The hand-off sends one message, or nothing *)
Definition sent_iff_ok {A} (s : list SlotItem) (r : res A) (t : list SlotItem * handover) : Prop :=
  t.1 = s ∧ match r with Ok _ => ho_sent t.2 = true | Err _ => ho_sent t.2 = false | _ => False end.
Lemma wp_quietly {A B} (p : M A) (k : res A → M B) s g (Q : res B → _ → Prop) :
  obeys silent p → kern_ret p → (∀ r g', returns r → ho_sent g' = ho_sent g → wp ho_sem (k r) Q (s, g')) →
  wp ho_sem (pbind p k) Q (s, g).
Proof.
  intros Hp Hk HQ. apply wp_bind. eapply wp_mono.
  - apply (wp_silent p (λ r s', returns r ∧ s' = s)); [done|]. apply wp_alone_kern_ret; [done|by split..].
  - intros r [s' g'] [[Hr E] Hg]. simpl in *. subst. by apply HQ.
Qed.
Lemma wp_defer_silent {A C} (c : prog C) (p : M A) s t :
  obeys silent c → kern_only c → wp ho_sem p (sent_iff_ok s) t → wp ho_sem (with_defer c p) (sent_iff_ok s) t.
Proof.
  intros Hc Hk Hp. unfold with_defer. apply wp_bind. eapply wp_mono; [exact Hp|]. intros r t' [E Hr].
  apply wp_bind. eapply wp_mono; [apply (wp_silent c (λ _ s', s' = t'.1)); [done|by apply wp_alone_kern_only]|].
  intros _ t1 [E1 E2]. split; [congruence|]. by rewrite E2.
Qed.

Ltac silent := obeys ltac:(exact I).
Lemma wp_send_tap_ho sw slotID conn tapName sentTo want ns tapFile s g x :
  length (sc_SwitchMac (sx_cfg sw)) = 6%nat → slotID < sx_numSlots sw → slot_at s slotID = Some x → ho_sent g = false →
  wp ho_sem (send_tap sw slotID conn tapName sentTo want false ns tapFile) (sent_iff_ok s) (s, g).
Proof.
  intros Hlen Hi Hx Hg. unfold send_tap. cbv zeta. pose proof (GetPortMAC_returns _ (sc_PortMac (sx_cfg sw)) slotID Hlen) as Hret.
  apply wp_mbind. cbn [mpure wp]. destruct (GetPortMAC _ _ slotID) as [mac|e| |]; try done.
  unfold read_slot. rewrite GetSlot_lt by done. cbn [deref]. apply wp_bind, (wp_ghost_load_slot _ _ slotID x); [done|].
  apply wp_mbind, wp_mwrap. cbn [mpure wp]. pose proof (Marshal_returns
    (if want then set_NetnsFDCount 1 (MkPortMetadata (u32 (slotID + 1)) (mac_string mac) (ip_string (Uint32ToIP (si_InnerIp x))) 1 0)
     else MkPortMetadata (u32 (slotID + 1)) (mac_string mac) (ip_string (Uint32ToIP (si_InnerIp x))) 1 0)) as Hm.
  destruct (Marshal _) as [payload|e| |]; try done. cbn [map_err]. apply wp_mbind. cbn [mok wp].
  apply wp_mbind, wp_mwrap. unfold SendFd. destruct (bool_decide _); [done|]. destruct (slen payload =? 0); [done|].
  apply wp_mwrap, wp_ho_call; cbn [fst snd]; [intros [] g' ->|intros e g' ->]; done.
Qed.

Lemma dialTapSocket_kern_ret spec : kern_ret (dialTapSocket spec).
Proof. unfold dialTapSocket, UnixConnFromFd, ConnectUnix. kern_ret. Qed.
Lemma dialTapSocket_silent spec : obeys silent (dialTapSocket spec).
Proof. unfold dialTapSocket, UnixConnFromFd, ConnectUnix. silent. Qed.
Lemma Do_OpenTap_kern_ret ns n flags : kern_ret (Do ns (OpenTap n flags)).
Proof. unfold Do, OpenTap. kern_ret. Qed.
Lemma Do_OpenTap_silent ns n flags : obeys silent (Do ns (OpenTap n flags)).
Proof. unfold Do, OpenTap. silent. Qed.

Lemma wp_openPortAndSend_ho sw slotID spec want s g x :
  length (sc_SwitchMac (sx_cfg sw)) = 6%nat → slotID < sx_numSlots sw → slot_at s slotID = Some x → ho_sent g = false →
  wp ho_sem (openPortAndSend sw name slotID spec want) (sent_iff_ok s) (s, g).
Proof.
  intros Hlen Hi Hx Hg. unfold openPortAndSend, mbind.
  apply wp_quietly; [apply dialTapSocket_silent|apply dialTapSocket_kern_ret|]. intros [conn|e| |] g1 Hr E1; try done; [|by split; [|simpl; congruence]].
  apply wp_defer_silent; [by split|by split|]. unfold openPortAndSendToConn, mbind. cbv zeta.
  apply wp_quietly; [unfold GetByName; silent|apply kern_ret_mwrap, GetByName_kern_ret|].
  intros [ns|e| |] g2 Hr2 E2; try done; [|by split; [|simpl; congruence]].
  apply wp_defer_silent; [by split|by split|].
  apply wp_quietly; [apply obeys_mwrap, Do_OpenTap_silent|apply kern_ret_mwrap, Do_OpenTap_kern_ret|].
  intros [tap|e| |] g3 Hr3 E3; try done; [|by split; [|simpl; congruence]].
  apply wp_defer_silent; [by split|by split|]. apply (wp_send_tap_ho _ _ _ _ _ _ _ _ _ _ x); try done. congruence.
Qed.

(** *** After the attachment *)
Lemma wp_attach_and_open out spec i y s g (Q : res AttachOutput → _ → Prop) :
  holds_switch s → Z.land (sc_Features cfg) SwitchFPortUp ≠ 0 → at_Port out = i + 1 → 0 ≤ i < sc_N_ports cfg →
  slot_at s i = Some y → IsSlotFreeOrReserved (si_InnerIp y) = false → ho_sent g = false →
  (∀ out' g', at_Mode out = "tap" → ho_sent g' = true → Q (Ok out') (s, g')) →
  (∀ e g', ho_sent g' = false → Q (Err e) (set_slot s i (detached y), g')) →
  (∀ e g', ho_sent g' = false → ho_refused g' = true → Q (Err e) (s, g')) →
  wp ho_sem (attach_and_open unmarshal name spec out) Q (s, g).
Proof.
  intros Hs Hfeat Hport Hi Hy Ha Hg Hok Hundone Hstays. unfold attach_and_open.
  assert (Hundo : ∀ e g', ho_sent g' = false →
    wp ho_sem (let* _ := undo_attach unmarshal name out in merr e) Q (s, g')).
  { intros e g' E. apply wp_mbind, (wp_undo_attach out i y); try done; intros g1 E1; [|intros E2];
      [apply Hundone|apply Hstays]; congruence. }
  case_bool_decide as Hmode; [|by apply Hundo]. cbn [negb]. unfold wantNetnsFD.
  apply wp_bind, wp_bind, wp_still_kern; [by split|by split|]. intros env. cbn [wp].
  apply wp_bind. eapply wp_mono with (Q := sent_iff_ok s).
  - unfold attachSendTapFd. apply wp_with_switch; [|by intros e g' E _; split; [|simpl; congruence]].
    intros sw g' Ho Es _. pose proof (oa_cfg _ _ _ Ho) as Hcfg. pose proof (oa_num _ _ _ Ho) as Hnum.
    rewrite Hport. replace (i + 1 - 1) with i by lia. destruct Hs as [? ? Hmax ?]. unfold MaxPorts in Hmax.
    rewrite u32_small by (unfold is_u32; lia).
    apply (wp_openPortAndSend_ho _ _ _ _ _ _ y); [by rewrite Hcfg|lia|done|congruence].
  - intros [info|e| |] [s' g'] [Es Hr]; simpl in Es, Hr; subst s'; try done; [by apply Hok|by apply Hundo].
Qed.

Definition attach_open_post (f : attach_flags) (s : list SlotItem) (r : res unit) (t : list SlotItem * handover) : Prop :=
  let ip := IPToUint32 (ParseIP (attachInnerIP f)) in
  match r with
  | Ok _ => ho_sent t.2 = true ∧ ∃ opts value total i x y,
      attach_options f (ParseIP (attachInnerIP f)) = Ok opts ∧
      marshalGeneveOptions (geneveLocatorFromConfig cfg) (tlv_from_config cfg) (ao_TransitGeneveOpts opts) = Ok (value, total) ∧
      0 ≤ i < sc_N_ports cfg ∧ names_slot opts s i ∧ free_at s i ∧
      slot_at s i = Some x ∧ SlotPortKind x = PortKindTap ∧
      slot_at t.1 i = Some y ∧ attached opts value ip x y ∧ only_slot i s t.1
  | Err _ => ho_sent t.2 = false ∧
      (t.1 = s ∨
       ∃ i x y, free_at s i ∧ slot_at s i = Some x ∧ slot_at t.1 i = Some y ∧ only_slot i s t.1 ∧
         (rolled_back x y ∨ ho_refused t.2 = true ∧ si_InnerIp y = ip))
  | _ => False
  end.

#[local] Hint Resolve ParseGeneveOption_returns : returns.
Lemma parse_geneve_flags_returns i l : returns (parse_geneve_flags i l).
Proof. revert i. induction l as [|v l IH]; intros i; cbn [parse_geneve_flags]; returns. Qed.
#[local] Hint Resolve parse_geneve_flags_returns : returns.
Lemma attach_options_returns f ip : returns (attach_options f ip).
Proof. unfold attach_options. returns. Qed.


Lemma wp_runAttach f s : attachOpenPort f = true → holds_switch s →
  wp ho_sem (runAttach unmarshal f name) (attach_open_post f s) (s, MkHandover false false).
Proof.
  intros Hopen Hs. unfold runAttach. assert (Hrefuse : ∀ e b, attach_open_post f s (Err e) (s, MkHandover false b)) by (by split; [|left]).
  case_bool_decide; [apply Hrefuse|]. rewrite Hopen.
  destruct (ParseIP (attachInnerIP f)) as [bytes|] eqn:Hip; [|apply Hrefuse].
  apply wp_bind, wp_still_kern; [by split|by split|]. intros spec. cbn [andb]. destruct (bool_decide (spec = "")); [apply Hrefuse|].
  apply wp_mbind. cbn [mpure wp]. pose proof (attach_options_returns f (Some bytes)) as Hret.
  destruct (attach_options f (Some bytes)) as [opts|e| |] eqn:Hopts; try done; clear Hret.
  pose proof (attach_options_ip _ _ _ Hopts) as Hipo.
  apply wp_mbind. unfold AttachByName. apply wp_with_switch; [|by intros e g' E _; split; [|left]].
  intros sw g Ho Es _. simpl in Es. pose proof (opened_ok _ _ _ Ho Hs) as Hctx. pose proof (oa_cfg _ _ _ Ho) as Hcfg.
  eapply wp_mono; [apply (wp_silent _ (attach_post sw opts s)); [|by apply wp_Attach]|].
  { eapply obeys_mono; [|apply Attach_off]. intros B e. destruct e as [| | | |B' q]; try done. by destruct q. }
  intros r [s' g1] [Hpost E1]. cbn [fst snd] in *. unfold attach_post in Hpost.
  destruct (attach_checks sw opts) as [[[value total] ip]|e| |] eqn:Hc; try done;
    [|destruct Hpost as [-> ->]; split; [simpl; congruence|by left]].
  apply attach_checks_parts in Hc as (Hm & Hipv & Hfr & Hfeat). rewrite Hcfg in *. rewrite Hipo in Hipv.
  destruct r as [out|e| |]; try done.
  - destruct Hpost as (i & x & y & Hi & Hn & Hport & Hmode & Hfree & Hx & Hy & Hatt & Hst & Honly).
    pose proof (att_ip _ _ _ _ _ Hatt) as Eip.
    apply wp_mbind, (wp_attach_and_open _ _ i y); try done.
    + destruct Hs. constructor; try done. by rewrite (only_slot_length i s s' x y).
    + by rewrite Eip.
    + simpl. congruence.
    + intros out' g2 Htap Hsent. apply wp_bind, wp_still_kern; [by split|by split|]. intros _. split; [done|].
      exists opts, value, total, i, x, y. rewrite Hip, <-Hipv. split_and!; try done; try lia.
      rewrite Hmode in Htap. unfold PortKind_String in Htap. by repeat case_match; try apply Z.eqb_eq.
    + intros e g2 Hsent. split; [done|]. right. exists i, x, (detached y). split_and!; try done.
      * by eapply slot_at_set.
      * intros k Hk. cbn [fst]. rewrite slot_at_set_ne by lia. by apply Honly.
      * left. by eapply detached_rolled_back.
    + intros e g2 Hsent Href. split; [done|]. right. exists i, x, y. split_and!; try done. right. split; [done|].
      by rewrite Eip, Hip.
  - split; [simpl; congruence|]. destruct Hpost as [[-> _]|(i & x & y & Hi & Hn & Hfree & Hx & Hy & Hrb & Honly)]; [by left|].
    right. exists i, x, y. split_and!; try done. by left.
Qed.
End command.
End handover.

(** C21: what [attach --open-port] leaves behind.  Run on a table that holds a
    switch of configuration [cfg], with every answer of the kernel possible
    except that an opening that succeeds reads that configuration and metadata:
    when the command succeeds, exactly one tap port (the requested or the
    lowest free one) is attached as asked and a message with its queue was
    accepted; when it fails, no message was accepted and either no port is
    attached, the concerned one being Free and down again, or the roll-back was
    itself refused when it opened the switch once more, and then the port stays
    attached to the address asked for ([attach_open_leaks] is such a run).  No
    other slot changes. *)
Theorem attach_open_outcome cfg raw unmarshal meta name f s :
  match trim_nulls raw with [] => Ok SwitchMetadata_zero | t => unmarshal (string_of t) end = Ok meta →
  attachOpenPort f = true → holds_switch cfg s →
  wp (ho_sem cfg raw) (runAttach unmarshal f name) (attach_open_post cfg f s) (s, MkHandover false false).
Proof. intros Hmeta. by apply (wp_runAttach cfg raw unmarshal meta name Hmeta). Qed.

Lemma attach_open_outcome_witness :
  let f := MkAttachFlags 0 0 "" "10.0.0.7" "" 0 [] "" false false true in
  wp (ho_sem ex_cfg []) (runAttach (λ _, Panic) f "sw0") (attach_open_post ex_cfg f ex_table) (ex_table, MkHandover false false).
Proof.
  apply (attach_open_outcome ex_cfg [] (λ _, Panic) SwitchMetadata_zero "sw0"); [reflexivity..|].
  constructor; vm_compute; done.
Defined.

(** A host that lets the switch be opened once: the attachment succeeds, the
    hand-off cannot open the switch, and neither can the roll-back. *)
Record visits := MkVisits { vi_open : bool }.
#[export] Instance visits_kernel : Kernel visits := λ B e v,
  match e in kev B return B * visits with
  | OsStat _ => (if vi_open v then inl true else inr (errorf "input/output error"), MkVisits false)
  | OsGetenv _ => ("/run/vm.sock", v)
  | LoadPinnedMap _ => (inl 3, v)
  | MapLookup m _ _ => (match m in bmap K V return ans V with MConfig => inl ex_cfg | MMetadata => inl [] | _ => refused end, v)
  | MapUpdate _ _ _ _ => (inl tt, v)
  | MapShape _ => ((3, 256, 5), v)
  | Mmap _ _ => (inl tt, v)
  | e => (refuse e, v)
  end.
Lemma attach_open_leaks :
  let f := MkAttachFlags 0 0 "" "10.0.0.7" "" 0 [] "" true false true in
  let taps := map (write_all [WMode PortKindTap; WIfindex 7]) ex_table in
  ∃ e t w, run (runAttach (λ _, Panic) f "sw0") (MkWorld taps (MkVisits true)) = Some (Err e, MkWorld t w) ∧
    si_InnerIp <$> slot_at taps 2 = Some InnerIPFree ∧ si_InnerIp <$> slot_at t 2 = Some (IPToUint32 (IPv4 10 0 0 7)).
Proof. eexists _, _, _. split; [vm_compute; reflexivity|]. split; vm_compute; reflexivity. Qed.
