(* ===== verification/TapfdGet.v ===== *)
(** * The standalone helper: cmd/connector-ctl/tapfd_get.go

    [tapfd get] opens or creates a tap device, brings it up through raw
    RTNETLINK messages, which are built here byte by byte, and hands the queue
    descriptor over.  The packed structures are little-endian, as on the
    platforms the program is built for.  The text of an errno and the usage
    text are parameters. *)
From S2P Require Import Prelude Errors GoStrings GoNet BpfTypes Prog GoText Tapfd TapfdFd TapServer.

(** ** Packed integers *)
Fixpoint le_bytes (n : nat) (v : Z) : list Z :=
  match n with O => [] | S n => v mod 256 :: le_bytes n (v / 256) end.
Fixpoint le_value (bs : list Z) : Z :=
  match bs with [] => 0 | b :: bs => b + 256 * le_value bs end.
Definition i32 (z : Z) : Z := (z + 2 ^ 31) mod 2 ^ 32 - 2 ^ 31.

(** ** Messages *)
Definition SizeofNlMsghdr : Z := 16.
Definition NLM_F_REQUEST : Z := 1.
Definition NLM_F_ACK : Z := 4.
Definition NLM_F_REPLACE : Z := 256.
Definition NLM_F_CREATE : Z := 1024.
Definition NLMSG_ERROR : Z := 2.
Definition RTM_NEWLINK : Z := 16.
Definition RTM_NEWADDR : Z := 20.
Definition IFF_UP : Z := 1.
Definition IFA_ADDRESS : Z := 1.
Definition IFA_LOCAL : Z := 2.
Definition AF_UNSPEC : Z := 0.
Definition AF_INET : Z := 2.
Definition AF_INET6 : Z := 10.
Definition RT_SCOPE_UNIVERSE : Z := 0.

Definition nlAlign (n : Z) : Z := Z.ldiff (n + 3) 3.

(** One attribute: length, type, value, padded to four bytes. *)
Definition nlAttr (buf : list Z) (typ : Z) (val : list Z) : list Z :=
  let l := 4 + Z.of_nat (length val) in
  buf ++ le_bytes 2 l ++ le_bytes 2 typ ++ val ++ replicate (Z.to_nat (nlAlign l - l)) 0.

Definition nl_message (msgType flags seq : Z) (body : list Z) : list Z :=
  le_bytes 4 (SizeofNlMsghdr + Z.of_nat (length body)) ++ le_bytes 2 msgType ++
  le_bytes 2 (Z.lor (Z.lor NLM_F_REQUEST NLM_F_ACK) flags) ++ le_bytes 4 seq ++ le_bytes 4 0 ++ body.

(** [struct ifinfomsg]: family, padding, type, index, flags, change mask. *)
Definition link_up_body (ifindex : Z) : list Z :=
  [AF_UNSPEC; 0] ++ le_bytes 2 0 ++ le_bytes 4 ifindex ++ le_bytes 4 IFF_UP ++ le_bytes 4 IFF_UP.

(** [struct ifaddrmsg]: family, prefix length, flags, scope, index. *)
Definition addr_add_body (ifindex : Z) (ip : IP) (prefix : Z) : list Z :=
  let '(family, raw) := match To4 ip with
                        | Some raw => (AF_INET, raw)
                        | None => (AF_INET6, to16 (ip_bytes ip))
                        end in
  let body := [family; u8 prefix; 0; RT_SCOPE_UNIVERSE] ++ le_bytes 4 ifindex in
  nlAttr (nlAttr body IFA_LOCAL raw) IFA_ADDRESS raw.

Section tapfd_get.
Context (errno_error : Z → error) (usage : prog unit).

Definition nlSend (fd msgType flags seq : Z) (body : list Z) : M unit :=
  let* _ := mwrap (λ e, errorw "sendto: " e "") (call (NetlinkSendto fd (nl_message msgType flags seq body))) in
  let* rbuf := mwrap (λ e, errorw "recvfrom: " e "") (call (NetlinkRecvfrom fd 4096)) in
  let n := Z.of_nat (length rbuf) in
  if n <? SizeofNlMsghdr + 4 then merr (errorf ("short netlink ack (" +:+ fmt_d n +:+ " bytes)"))
  else if le_value (take 2 (drop 4 rbuf)) =? NLMSG_ERROR then
    let errno := i32 (le_value (take 4 (drop 16 rbuf))) in
    if negb (errno =? 0) then merr (errno_error (u64 (i32 (- errno)))) else mok tt
  else mok tt.

Definition nlLinkUp (fd seq ifindex : Z) : M unit := nlSend fd RTM_NEWLINK 0 seq (link_up_body ifindex).
Definition nlAddrAdd (fd seq ifindex : Z) (ip : IP) (prefix : Z) : M unit :=
  nlSend fd RTM_NEWADDR (Z.lor NLM_F_CREATE NLM_F_REPLACE) seq (addr_add_body ifindex ip prefix).

Definition ifindexOf (name : string) : M Z :=
  let wrap e := errorw ("ifindex " +:+ name +:+ ": ") e "" in
  let* b := mwrap wrap (call (OsReadFile ("/sys/class/net/" +:+ name +:+ "/ifindex"))) in
  let* idx := mwrap wrap (mpure (atoi (trim_space b))) in
  mok (i32 idx).

(** ** Preparing the device *)
Definition assign_host_cidr (fd ifindex : Z) (tap hostCIDR : string) : M unit :=
  if bool_decide (hostCIDR = "") then mok tt
  else
    let* c := mwrap (λ e, errorw ("parse host-cidr " +:+ fmt_q hostCIDR +:+ ": ") e "") (mpure (ParseCIDR hostCIDR)) in
    let '(ip, ipnet) := c in
    mwrap (λ e, errorw ("assign " +:+ hostCIDR +:+ " to " +:+ tap +:+ ": ") e "")
          (nlAddrAdd fd 2 ifindex ip (mask_ones (net_mask ipnet))).

Definition prepareTap (tap hostCIDR : string) : M unit :=
  let* ifindex := ifindexOf tap in
  let* fd := mwrap (λ e, errorw "netlink socket: " e "") (call NetlinkSocket) in
  with_defer (call (UnixClose fd))
    (let* _ := mwrap (λ e, errorw "netlink bind: " e "") (call (NetlinkBind fd)) in
     let* _ := mwrap (λ e, errorw ("bring " +:+ tap +:+ " up: ") e "") (nlLinkUp fd 1 ifindex) in
     assign_host_cidr fd ifindex tap hostCIDR).

(** The queue and the name the kernel gave the device. *)
Definition openTap (name : string) : M (Z * string) :=
  let* fd := mwrap (λ e, errorw "open /dev/net/tun: " e "")
                   (call (UnixOpen "/dev/net/tun" (Z.lor O_RDWR O_CLOEXEC))) in
  let~ r := call (IoctlTunSetIff fd (name_field name) (Z.lor (Z.lor IFF_TAP IFF_NO_PI) IFF_VNET_HDR)) in
  match r with
  | Ok got => mok (fd, cstr got)
  | Err e =>
      let~ _ := call (UnixClose fd) in merr (errorw ("TUNSETIFF " +:+ name +:+ ": ") e "")
  | Panic => mpanic
  | OutOfFuel => Ret OutOfFuel
  end.

(** ** The hand-off *)
Definition buildPayload (mac ip : string) : string :=
  (if bool_decide (mac = "") then "" else "mac=" +:+ mac +:+ " ") +:+
  (if bool_decide (ip = "") then "" else "ip=" +:+ ip +:+ " ") +:+ "fd=1" +:+ NUL.

(** The assertion that the connection is a unix one panics when it is not. *)
Definition dial (spec : string) : M Z :=
  match cut_prefix "fd=" spec with
  | Some n =>
      match atoi n with
      | Ok fd =>
          if fd <? 0 then merr (errorf ("invalid " +:+ tapSocketEnv +:+ "=" +:+ fmt_q spec))
          else
            let~ r := call (FileConn fd) in
            let~ _ := kern (OsFileClose fd) in
            match r with
            | Ok (c, unix) => if negb unix then mpanic else mok c
            | Err err => merr (errorw ("fileconn fd=" +:+ fmt_d fd +:+ ": ") err "")
            | Panic => mpanic
            | OutOfFuel => Ret OutOfFuel
            end
      | _ => merr (errorf ("invalid " +:+ tapSocketEnv +:+ "=" +:+ fmt_q spec))
      end
  | None => mwrap (λ e, errorw ("dial " +:+ spec +:+ ": ") e "") (call (DialUnix "unix" spec))
  end.

Definition hand_off (conn : Z) (tap hostCIDR mac ip : string) : M unit :=
  let* q := openTap tap in
  let '(queue, name) := q in
  with_defer (call (UnixClose queue))
    (let~ _ := kern (Stderr ("connector-ctl tapfd get: handing off tap " +:+ name +:+ nl)) in
     let* _ := prepareTap name hostCIDR in
     mwrap (λ e, errorw "send fd: " e "") (call (ConnWriteMsg conn (buildPayload mac ip) [queue]))).

Definition runTapfdGet (tap : string) (create : bool) (hostCIDR mac ip : string) : M unit :=
  let~ sockSpec := kern (OsGetenv tapSocketEnv) in
  if bool_decide (sockSpec = "")
  then merr (errorf (tapSocketEnv +:+ " not set (run me as a tapfd helper)"))
  else
    let* tap :=
      if negb create then
        mwrap (λ _, errorf ("tap " +:+ fmt_q tap +:+ " does not exist (pass --new to create it)"))
              (let* _ := call (OsStat ("/sys/class/net/" +:+ tap)) in mok tap)
      else mok (if bool_decide (tap = "") then "tap%d" else tap) in
    let* conn := dial sockSpec in
    with_defer (call (ConnClose conn)) (hand_off conn tap hostCIDR mac ip).

(** The flags after parsing, and the remaining arguments. *)
Record get_flags := MkGetFlags {
  gf_new : bool; gf_hostCIDR : string; gf_mac : string; gf_ip : string; gf_args : list string;
}.
Definition runTapfdGetCmd (f : get_flags) : M unit :=
  match gf_args f with
  | _ :: _ :: _ => let~ _ := usage in merr (errorf "tapfd get: accepts at most one tap argument")
  | args =>
      let tap := default "" (head args) in
      if bool_decide (tap = "") && negb (gf_new f)
      then let~ _ := usage in merr (errorf "tapfd get: <tap> is required (or use --new to auto-create one)")
      else runTapfdGet tap (gf_new f) (gf_hostCIDR f) (gf_mac f) (gf_ip f)
  end.
End tapfd_get.
