(* ===== verification/TapfdGetSpec.v ===== *)
(** * What the standalone helper sends

    The RTNETLINK messages it builds are read back by a reference reader of
    the kernel's format, and a successful run sends exactly one message, which
    carries a queue of the tap with the framing the receivers expect; on every
    path the queue and the netlink socket are closed. *)
From S2P Require Import Prelude Errors GoStrings GoNet BpfTypes Prog GoText Tapfd TapfdFd TapfdSpec HostIo TapfdFdSpec TapServer TapfdGet.

(** ** A reader of RTNETLINK messages *)
Fixpoint read_attrs (fuel : nat) (bs : list Z) : option (list (Z * list Z)) :=
  match fuel, bs with
  | _, [] => Some []
  | O, _ => None
  | S fuel, _ =>
      let l := le_value (take 2 bs) in
      if (l <? 4) || (Z.of_nat (length bs) <? l) then None
      else
        rest ← read_attrs fuel (drop (Z.to_nat (nlAlign l)) bs);
        Some ((le_value (take 2 (drop 2 bs)), take (Z.to_nat (l - 4)) (drop 4 bs)) :: rest)
  end.
(** Type, flags, sequence number and body of a message of the length it states. *)
Definition read_message (bs : list Z) : option (Z * Z * Z * list Z) :=
  if (Z.of_nat (length bs) <? 16) || negb (le_value (take 4 bs) =? Z.of_nat (length bs)) then None
  else Some (le_value (take 2 (drop 4 bs)), le_value (take 2 (drop 6 bs)), le_value (take 4 (drop 8 bs)), drop 16 bs).
(** Family, prefix length, index and attributes of an address message. *)
Definition read_addr (body : list Z) : option (Z * Z * Z * list (Z * list Z)) :=
  match body with
  | family :: prefix :: _ :: _ :: rest =>
      attrs ← read_attrs (length rest) (drop 4 rest); Some (family, prefix, le_value (take 4 rest), attrs)
  | _ => None
  end.
(** Family, index, flags and change mask of a link message. *)
Definition read_link (body : list Z) : option (Z * Z * Z * Z) :=
  if bool_decide (length body = 16%nat)
  then Some (le_value (take 1 body), le_value (take 4 (drop 4 body)), le_value (take 4 (drop 8 body)),
             le_value (take 4 (drop 12 body)))
  else None.

Lemma le_bytes_length n v : length (le_bytes n v) = n.
Proof. revert v. induction n as [|n IH]; intros v; [done|]. simpl. by rewrite IH. Qed.
Lemma le_value_bytes n v : le_value (le_bytes n v) = v mod 2 ^ (8 * Z.of_nat n).
Proof.
  revert v. induction n as [|n IH]; intros v; simpl le_bytes; simpl le_value; [by rewrite Z.mod_1_r|].
  rewrite IH. replace (8 * Z.of_nat (S n)) with (8 + 8 * Z.of_nat n) by lia.
  rewrite Z.pow_add_r by lia. change (2 ^ 8) with 256. rewrite Z.rem_mul_r; [lia..|]. nia.
Qed.
Lemma take_le n v (l : list Z) : take n (le_bytes n v ++ l) = le_bytes n v.
Proof. by rewrite take_app_length' by by rewrite le_bytes_length. Qed.
Lemma drop_le n v (l : list Z) : drop n (le_bytes n v ++ l) = l.
Proof. by rewrite drop_app_length' by by rewrite le_bytes_length. Qed.

Lemma nlAlign_ge n : n ≤ nlAlign n < n + 4.
Proof.
  unfold nlAlign. change 3 with (Z.ones 2) at 2 4. rewrite Z.ldiff_ones_r by lia.
  rewrite Z.shiftr_div_pow2, Z.shiftl_mul_pow2 by lia. change (2 ^ 2) with 4.
  pose proof (Z.div_mod (n + 3) 4). pose proof (Z.mod_pos_bound (n + 3) 4). lia.
Qed.

Lemma message_reads t f seq body :
  is_u16 t → is_u16 f → Z.of_nat (length body) + 16 < 2 ^ 32 →
  read_message (nl_message t f seq body) =
    Some (t, Z.lor (Z.lor NLM_F_REQUEST NLM_F_ACK) f, u32 seq, body).
Proof.
  intros Ht Hf Hb. unfold read_message, nl_message, SizeofNlMsghdr.
  set (fl := Z.lor _ f).
  assert (is_u16 fl) as Hfl.
  { unfold fl. change (Z.lor NLM_F_REQUEST NLM_F_ACK) with 5. unfold is_u16 in *.
    split; [apply Z.lor_nonneg; lia|].
    destruct (decide (Z.lor 5 f = 0)) as [->|]; [lia|]. apply Z.log2_lt_pow2.
    { assert (0 ≤ Z.lor 5 f) by (apply Z.lor_nonneg; lia). lia. }
    rewrite Z.log2_lor by lia. apply Z.max_lub_lt; [by vm_compute|].
    destruct (decide (f = 0)) as [->|]; [by vm_compute|]. apply Z.log2_lt_pow2; lia. }
  rewrite !length_app, !le_bytes_length.
  rewrite take_le, le_value_bytes. change (2 ^ (8 * Z.of_nat 4)) with (2 ^ 32).
  rewrite (Z.mod_small (16 + _)) by lia.
  assert ((_ <? 16) = false) as -> by (apply Z.ltb_ge; lia).
  assert ((16 + Z.of_nat (length body) =? _) = true) as -> by (apply Z.eqb_eq; lia). simpl orb. cbv iota.
  change (@skipn Z 6) with (@skipn Z (4 + 2)). change (@skipn Z 8) with (@skipn Z (4 + (2 + 2))).
  change (@skipn Z 16) with (@skipn Z (4 + (2 + (2 + (4 + 4))))).
  rewrite <-!drop_drop, !drop_le, !take_le, !le_value_bytes.
  change (2 ^ (8 * Z.of_nat 2)) with (2 ^ 16). change (2 ^ (8 * Z.of_nat 4)) with (2 ^ 32).
  unfold is_u16 in *. by rewrite !Z.mod_small by lia.
Qed.

Lemma attr_reads fuel typ val rest attrs :
  is_u16 typ → Z.of_nat (length val) + 4 < 2 ^ 16 → read_attrs fuel rest = Some attrs →
  read_attrs (S fuel) (nlAttr [] typ val ++ rest) = Some ((typ, val) :: attrs).
Proof.
  intros Ht Hl Hr. unfold nlAttr. rewrite app_nil_l, <-!app_assoc.
  set (l := 4 + Z.of_nat (length val)). pose proof (nlAlign_ge l) as Hal.
  set (bs := le_bytes 2 l ++ _).
  assert (Hlen : length bs = (4 + length val + Z.to_nat (nlAlign l - l) + length rest)%nat).
  { unfold bs. rewrite !length_app, !le_bytes_length, length_replicate. lia. }
  assert (Hv : le_value (take 2 bs) = l).
  { unfold bs. rewrite take_le, le_value_bytes. apply Z.mod_small. change (2 ^ (8 * Z.of_nat 2)) with (2 ^ 16). lia. }
  assert (Hne : bs ≠ []) by (intros E; rewrite E in Hlen; simpl in Hlen; lia).
  assert (Hd4 : drop 4 bs = val ++ replicate (Z.to_nat (nlAlign l - l)) 0 ++ rest).
  { unfold bs. change 4%nat with (2 + 2)%nat. by rewrite <-drop_drop, !drop_le. }
  assert (Hdal : drop (Z.to_nat (nlAlign l)) bs = rest).
  { replace (Z.to_nat (nlAlign l)) with (4 + (length val + Z.to_nat (nlAlign l - l)))%nat by lia.
    rewrite <-drop_drop, Hd4, <-drop_drop, drop_app_length.
    by rewrite drop_app_length' by by rewrite length_replicate. }
  assert (Hty : le_value (take 2 (drop 2 bs)) = typ).
  { unfold bs. rewrite drop_le, take_le, le_value_bytes. apply Z.mod_small.
    change (2 ^ (8 * Z.of_nat 2)) with (2 ^ 16). exact Ht. }
  assert (Hval : take (Z.to_nat (l - 4)) (drop 4 bs) = val).
  { rewrite Hd4. replace (Z.to_nat (l - 4)) with (length val) by lia. apply take_app_length. }
  assert (Hstep : read_attrs (S fuel) bs =
    (if (le_value (take 2 bs) <? 4) || (Z.of_nat (length bs) <? le_value (take 2 bs)) then None
     else rest ← read_attrs fuel (drop (Z.to_nat (nlAlign (le_value (take 2 bs)))) bs);
          Some ((le_value (take 2 (drop 2 bs)), take (Z.to_nat (le_value (take 2 bs) - 4)) (drop 4 bs)) :: rest))).
  { by destruct bs. }
  rewrite Hstep, Hv.
  assert ((l <? 4) || (Z.of_nat (length bs) <? l) = false) as -> by (apply orb_false_iff; split; apply Z.ltb_ge; lia).
  by rewrite Hdal, Hr, Hty, Hval.
Qed.

Lemma nlAttr_app buf typ val : nlAttr buf typ val = buf ++ nlAttr [] typ val.
Proof. done. Qed.
Lemma To4_short ip raw : To4 ip = Some raw → length raw = 4%nat.
Proof. unfold To4. intros H. repeat case_match; simplify_eq; rewrite ?bool_decide_eq_true in *; [done|].
  rewrite length_drop. apply andb_true_iff in H2 as [H2%bool_decide_eq_true _]. lia.
Qed.
Lemma le_small (n : nat) v k : k = 2 ^ (8 * Z.of_nat n) → 0 ≤ v < k → le_value (le_bytes n v) = v.
Proof. intros -> H. rewrite le_value_bytes. by apply Z.mod_small. Qed.

(** The address an [IP] stands for, and its family. *)
Definition ip_family (ip : IP) : Z * list Z :=
  match To4 ip with Some raw => (AF_INET, raw) | None => (AF_INET6, to16 (ip_bytes ip)) end.

Lemma addr_body_reads ifindex ip prefix :
  (length (ip_bytes ip) ≤ 16)%nat →
  read_addr (addr_add_body ifindex ip prefix) =
    Some ((ip_family ip).1, u8 prefix, u32 ifindex,
          [(IFA_LOCAL, (ip_family ip).2); (IFA_ADDRESS, (ip_family ip).2)]).
Proof.
  intros Hip. unfold addr_add_body, ip_family.
  set (p := match To4 ip with Some _ => _ | None => _ end). destruct p as [family raw] eqn:Ep.
  assert (Hraw : (length raw ≤ 16)%nat).
  { subst p. destruct (To4 ip) as [r|] eqn:E; simplify_eq; [apply To4_short in E; lia|].
    unfold to16. case_bool_decide as E4; [|done]. by rewrite length_app, E4. }
  clear Ep. rewrite nlAttr_app, (nlAttr_app (_ ++ _)), <-!app_assoc. cbn [app read_addr fst snd].
  rewrite drop_le, take_le, le_value_bytes.
  change (2 ^ (8 * Z.of_nat 4)) with (2 ^ 32).
  set (rest := nlAttr [] IFA_LOCAL raw ++ nlAttr [] IFA_ADDRESS raw).
  assert (Hr : ∀ fuel, read_attrs (S (S fuel)) rest = Some [(IFA_LOCAL, raw); (IFA_ADDRESS, raw)]).
  { intros fuel. unfold rest. apply attr_reads; [done|lia|].
    rewrite <-(app_nil_r (nlAttr [] IFA_ADDRESS raw)). apply attr_reads; [done|lia|]. by destruct fuel. }
  assert (∃ n, length (le_bytes 4 ifindex ++ rest) = S (S n)) as [n Hn].
  { exists (2 + length rest)%nat. rewrite length_app, le_bytes_length. lia. }
  by rewrite Hn, Hr.
Qed.

Lemma link_body_reads ifindex :
  read_link (link_up_body ifindex) = Some (AF_UNSPEC, u32 ifindex, IFF_UP, IFF_UP).
Proof.
  unfold read_link. rewrite bool_decide_true by done.
  change (drop 4 (link_up_body ifindex)) with (le_bytes 4 ifindex ++ le_bytes 4 IFF_UP ++ le_bytes 4 IFF_UP).
  rewrite take_le, le_value_bytes. done.
Qed.

(** ** The payload, read by the receiving side of pkg/tapfd *)
Definition payload_words (mac ip : string) : list string :=
  (if bool_decide (mac = "") then [] else [kv_text ("mac", mac)]) ++
  (if bool_decide (ip = "") then [] else [kv_text ("ip", ip)]) ++ [kv_text ("fd", "1")].
Definition word_or_empty (s : string) : Prop := s = "" ∨ word s.

Lemma payload_words_ok mac ip : word_or_empty mac → word_or_empty ip → Forall word (payload_words mac ip).
Proof.
  assert (∀ k v, lacks eq_sign k = true → word k → word v → word (kv_text (k, v))) as Hkv.
  { intros k v Hk [Hk0 Hk1] [Hv0 Hv1]. by apply kv_word. }
  intros Hm Hi. unfold payload_words. repeat apply Forall_app_2; repeat case_bool_decide; constructor; auto.
  all: apply Hkv; try done; by destruct Hm, Hi.
Qed.
Lemma payload_line mac ip : buildPayload mac ip = join " " (payload_words mac ip) +:+ NUL.
Proof.
  unfold buildPayload, payload_words, kv_text.
  repeat case_bool_decide; cbn [app join fst snd]; by rewrite ?str_app_assoc.
Qed.

(** The receiver recovers the two address fields and one descriptor. *)
Lemma payload_parses mac ip junk :
  word_or_empty mac → word_or_empty ip →
  ParsePayload (buildPayload mac ip +:+ junk) = Ok (MkPortMetadata 0 mac ip 1 0).
Proof.
  intros Hm Hi. rewrite payload_line, ParsePayload_line by by apply payload_words_ok.
  unfold payload_words.
  repeat case_bool_decide; cbn [app parse_metadata];
    repeat first [rewrite cut_kv by done | rewrite bool_decide_true by done | rewrite bool_decide_false by done
               | progress cbn [res_bind parse_metadata]];
    by subst.
Qed.

(** ** What a run does to the host *)
Section host.
Context (ns_of : string → nat) (errno_error : Z → error) (usage : prog unit).
Notation io := (io_sem true ns_of).

(** Programs that only ask: the descriptors and the log stay as they are. *)
Definition asks (B : Type) (e : ev B) : Prop := within (@io_ok true) (@io_step ns_of) eq B e.
Ltac ask := split; [done | by intros ? ? ? ->].
Lemma wp_asks {A} (p : M A) (Q : res A → _ → Prop) t :
  kern_ret p → obeys asks p → (∀ a, Q (Ok a) t) → (∀ e, Q (Err e) t) → wp io p Q t.
Proof.
  intros Hk Ho Hok Herr. eapply wp_mono.
  - apply (wp_ghost_frame _ _ eq p (λ a s, returns a ∧ s = t.1)); [done|congruence|exact Ho|].
    by apply wp_alone_kern_ret.
  - intros a [s g] [[Hr E] Eg]. simpl in *. destruct t as [s0 g0]. simpl in *. subst.
    destruct a; [apply Hok|apply Herr|done|done].
Qed.
Lemma wp_seq {A B} (p : M A) (k : A → M B) (Q : res B → _ → Prop) t :
  kern_ret p → obeys asks p → (∀ a, wp io (k a) Q t) → (∀ e, Q (Err e) t) → wp io (mbind p k) Q t.
Proof. intros Hk Ho Hok Herr. apply wp_mbind, wp_asks; auto. Qed.

Lemma ifindexOf_kern_ret n : kern_ret (ifindexOf n).
Proof. unfold ifindexOf. kern_ret. Qed.
Lemma nlSend_kern_ret fd t f seq body : kern_ret (nlSend errno_error fd t f seq body).
Proof. unfold nlSend. kern_ret. Qed.
Lemma assign_kern_ret fd i tap cidr : kern_ret (assign_host_cidr errno_error fd i tap cidr).
Proof. unfold assign_host_cidr, nlAddrAdd. pose proof nlSend_kern_ret. kern_ret. Qed.
Lemma nlSend_asks fd t f seq body : obeys asks (nlSend errno_error fd t f seq body).
Proof. unfold nlSend. obeys ask. Qed.
Lemma assign_asks fd i tap cidr : obeys asks (assign_host_cidr errno_error fd i tap cidr).
Proof. unfold assign_host_cidr, nlAddrAdd. pose proof nlSend_asks. obeys ask. all: auto. Qed.
Lemma ifindexOf_asks n : obeys asks (ifindexOf n).
Proof. unfold ifindexOf. obeys ask. Qed.

(** The netlink socket is closed again, whatever happened. *)
Lemma wp_prepareTap tap cidr s g (Q : res unit → _ → Prop) :
  (∀ r, returns r → Q r (s, g)) → wp io (prepareTap errno_error tap cidr) Q (s, g).
Proof.
  intros HQ. unfold prepareTap.
  apply wp_seq; [apply ifindexOf_kern_ret|apply ifindexOf_asks|intros ifindex|intros e; by apply HQ].
  apply wp_mbind, wp_mwrap, wp_ghost_call; [done| |intros e g' ->; by apply HQ].
  intros fd g1 Hop. cbn [map_err fst snd] in *. unfold with_defer. apply wp_bind.
  set (body := mbind (mwrap _ _) _).
  assert (kern_ret body ∧ obeys asks body) as [Hk Ho].
  { unfold body, nlLinkUp. pose proof nlSend_kern_ret. pose proof assign_kern_ret.
    pose proof nlSend_asks. pose proof assign_asks. split; [kern_ret; auto|obeys ask; auto]. }
  assert (Hclose : ∀ r : res unit, returns r → wp io (let~ _ := call (UnixClose fd) in Ret r) Q (s, g1)).
  { intros r Hr. apply wp_bind, wp_unix_close.
    - destruct Hop as (_ & _ & ->). simpl. rewrite lookup_insert_eq. eauto.
    - intros _. erewrite opens_close' by done. by apply HQ. }
  apply wp_asks; [done|done| |]; intros a; by apply Hclose.
Qed.

(** The framing of every queue that is handed over. *)
Definition get_flags_word : Z := Z.lor (Z.lor IFF_TAP IFF_NO_PI) IFF_VNET_HDR.

Lemma wp_openTap name s g (Q : res (Z * string) → _ → Prop) :
  (∀ fd got g', opens fd (DQueue got get_flags_word (io_ns g)) g g' → Q (Ok (fd, got)) (s, g')) →
  (∀ e, Q (Err e) (s, g)) → wp io (openTap name) Q (s, g).
Proof.
  intros HQ Herr. unfold openTap. apply wp_mbind, wp_mwrap, wp_ghost_call; [done| |intros e g' ->; apply Herr].
  intros fd g1 Hop. cbn [map_err fst snd] in *. apply wp_bind, wp_ghost_call; [done| |].
  - intros nm g2 [_ ->]. cbn [fst snd mok wp] in *. apply HQ. destruct Hop as (Hp & Hn & ->).
    split_and!; [done|done|]. unfold set_open. simpl. by rewrite insert_insert_eq.
  - intros e g2 ->. cbn [fst snd]. apply wp_bind, wp_unix_close.
    + destruct Hop as (_ & _ & ->). simpl. rewrite lookup_insert_eq. eauto.
    + intros r. erewrite opens_close' by done. apply Herr.
Qed.

(** Nothing but one message with the queue, and the queue is closed. *)
Lemma wp_hand_off conn tap cidr mac ip s g (Q : res unit → _ → Prop) :
  (∀ got, Q (Ok tt) (s, add_log (IoSend conn (buildPayload mac ip) [Some (DQueue got get_flags_word (io_ns g))] true) g)) →
  (∀ e g', io_open g' = io_open g → io_ns g' = io_ns g →
     (g' = g ∨ ∃ got, g' = add_log (IoSend conn (buildPayload mac ip) [Some (DQueue got get_flags_word (io_ns g))] false) g) →
     Q (Err e) (s, g')) →
  wp io (hand_off errno_error conn tap cidr mac ip) Q (s, g).
Proof.
  intros Hok Herr. unfold hand_off. apply wp_mbind, wp_openTap; [|intros e; apply Herr; auto].
  intros fd got g1 Hop. cbn beta iota. unfold with_defer. apply wp_bind.
  set (d := DQueue _ _ _) in *.
  assert (Hfd : io_open g1 !! fd = Some d) by (destruct Hop as (_ & _ & ->); simpl; apply lookup_insert_eq).
  assert (Hclose : ∀ (r : res unit) lg g2, io_open g2 = io_open g1 → lg = set_open (delete fd (io_open g2)) g2 →
    Q r (s, lg) → wp io (let~ _ := call (UnixClose fd) in Ret r) Q (s, g2)).
  { intros r lg g2 E -> Hr. apply wp_bind, wp_unix_close; [rewrite E, Hfd; eauto|]. by intros _. }
  assert (Hback := opens_close' _ _ _ _ Hop).
  apply wp_bind, wp_ghost_kern; [done|]. intros [] g2 ->.
  apply wp_mbind, wp_prepareTap. intros r Hr. destruct r as [[]|e| |]; try done.
  2: { eapply Hclose; [done|done|]. apply Herr; auto. }
  assert (Hrights : (λ x, io_open g1 !! x) <$> [fd] = [Some d]) by (simpl; by rewrite Hfd).
  assert (Hlog : ∀ sent, set_open (delete fd (io_open g1)) (add_log (IoSend conn (buildPayload mac ip) [Some d] sent) g1)
    = add_log (IoSend conn (buildPayload mac ip) [Some d] sent) g) by (intros sent; by rewrite <-Hback).
  apply wp_mwrap, wp_ghost_call; [done| |].
  - intros [] g3 ->. cbn [map_err fst snd]. rewrite Hrights.
    eapply Hclose; [done|symmetry; apply Hlog|]. apply Hok.
  - intros e g3 ->. cbn [map_err fst snd]. rewrite Hrights.
    eapply Hclose; [done|symmetry; apply Hlog|]. apply Herr; [done|done|]. right. by exists got.
Qed.
End host.

(** ** The whole helper *)
Section helper.
Context (ns_of : string → nat) (errno_error : Z → error) (usage : prog unit).
Notation io := (io_sem false ns_of).

(** Dialling opens nothing; the inherited descriptor of [fd=N] is closed, and
    the call panics when that descriptor is a socket of another family. *)
Lemma wp_dial spec s g (Q : res Z → _ → Prop) :
  (∀ conn o, o = io_open g ∨ (∃ n, o = delete n (io_open g)) → Q (Ok conn) (s, set_open o g)) →
  (∀ e o, o = io_open g ∨ (∃ n, o = delete n (io_open g)) → Q (Err e) (s, set_open o g)) →
  (∀ o, o = io_open g ∨ (∃ n, o = delete n (io_open g)) → Q Panic (s, set_open o g)) →
  wp io (dial spec) Q (s, g).
Proof.
  intros Hok Herr Hpanic. pose proof (set_open_id g) as Hid.
  assert (Hfail : ∀ e, Q (Err e) (s, g)) by (intros e; rewrite <-Hid; auto).
  unfold dial. destruct (cut_prefix _ spec) as [n|].
  - pose proof (atoi_returns n) as Hr. destruct (atoi n) as [fd|e| |]; try done; [|apply Hfail].
    destruct (fd <? 0); [apply Hfail|].
    apply wp_bind, wp_ghost_call; [done| |].
    + intros [c unix] g1 ->. apply wp_bind, wp_ghost_kern; [done|]. intros [] g2 ->. cbn [fst snd].
      destruct unix; [apply Hok; eauto|apply Hpanic; eauto].
    + intros e g1 ->. apply wp_bind, wp_ghost_kern; [done|]. intros [] g2 ->. cbn [fst snd]. apply Herr. eauto.
  - apply wp_mwrap, wp_ghost_call; [done| |]; intros x g1 ->; [rewrite <-Hid; apply Hok; auto|apply Hfail].
Qed.

(** What one run may leave behind: the descriptors it found, less an inherited
    one, and on its connection at most one message, with a queue of a tap. *)
Definition helper_result (mac ip : string) (g g' : host_io) (r : res unit) : Prop :=
  let message conn got := IoSend conn (buildPayload mac ip) [Some (DQueue got get_flags_word (io_ns g))] in
  (io_open g' = io_open g ∨ ∃ n, io_open g' = delete n (io_open g)) ∧
  ∃ sent, io_log g' = io_log g ++ sent ∧
    match r with
    | Ok _ => ∃ conn got, sent = [message conn got true; IoClose conn]
    | Err _ => sent = [] ∨ ∃ conn, sent = [IoClose conn] ∨ ∃ got, sent = [message conn got false; IoClose conn]
    | Panic => sent = []
    | OutOfFuel => False
    end.

Lemma helper_refused mac ip g e : helper_result mac ip g g (Err e).
Proof. split; [auto|]. exists []. rewrite app_nil_r. auto. Qed.

Lemma wp_served conn tap cidr mac ip s g o (Q : res unit → _ → Prop) :
  o = io_open g ∨ (∃ n, o = delete n (io_open g)) →
  (∀ r g', helper_result mac ip g g' r → Q r (s, g')) →
  wp io (with_defer (call (ConnClose conn)) (hand_off errno_error conn tap cidr mac ip)) Q (s, set_open o g).
Proof.
  intros Ho HQ. unfold with_defer. apply wp_bind, io_strict_lax.
  assert (Hclose : ∀ (r : res unit) g1,
    (∀ g', g' = add_log (IoClose conn) g1 → helper_result mac ip g g' r) →
    wp io (let~ _ := call (ConnClose conn) in Ret r) Q (s, g1)).
  { intros r g1 H. apply wp_bind, wp_ghost_call; [done| |]; intros x g' ->; by apply HQ, H. }
  apply wp_hand_off.
  - intros got. apply Hclose. intros g' ->. split; [done|]. eexists. cbn [add_log io_log set_open].
    rewrite <-app_assoc. split; [done|]. by exists conn, got.
  - intros e g1 Ho1 _ [->|[got ->]]; apply Hclose; intros g' ->; (split; [done|]); eexists;
      cbn [add_log io_log set_open]; rewrite <-?app_assoc; (split; [done|]); right; exists conn; [by left|right].
    by exists got.
Qed.

(** C25: one run of the standalone helper sends at most one message on its
    connection and closes the connection once.  It succeeds exactly when that
    message, the payload for the given address fields together with a queue of a
    tap device with the virtio-net framing, opened in the thread's own
    namespace, was sent.  On every path the queue and the netlink socket are
    closed again; no descriptor it found is closed but an inherited connection. *)
Theorem runTapfdGet_hands_off tap create cidr mac ip t :
  wp io (runTapfdGet errno_error tap create cidr mac ip)
    (λ r t', t'.1 = t.1 ∧ helper_result mac ip t.2 t'.2 r) t.
Proof.
  destruct t as [s g]. cbn [fst snd]. unfold runTapfdGet.
  apply wp_bind, wp_ghost_kern; [done|]. intros spec g1 ->. cbn [fst snd].
  case_bool_decide; [split; [done|apply helper_refused]|].
  apply wp_mbind. destruct create; cbn [negb].
  2: apply wp_mwrap, wp_mbind, wp_ghost_call; [done| |intros e g1 ->; split; [done|apply helper_refused]]; intros isdir g1 ->.
  all: cbn [fst snd mok wp map_err]; apply wp_mbind, wp_dial;
    [ intros conn o Ho; apply wp_served; [done|]; by intros r g'
    | intros e o Ho; split; [done|]; split; [done|]; exists []; rewrite app_nil_r; auto
    | intros o Ho; split; [done|]; split; [done|]; exists []; by rewrite app_nil_r ].
Qed.
End helper.
