(* ===== verification/Packet.v ===== *)
(** * Packets: src/bpf/vmlinux.h

    A packet is the list of its bytes from the Ethernet header on.  Fields are
    read and written at their offsets; those of two and four bytes are in
    network order, so that reading one already is the [bpf_ntohs] or
    [bpf_ntohl] of the source.  Internet checksums are sums of 16-bit words
    modulo 65535. *)
From S2P Require Import Prelude Errors GoStrings GoNet BpfTypes.

(** ** Access *)
Definition get8 (p : list Z) (off : nat) : Z := nth off p 0.
Definition get16 (p : list Z) (off : nat) : Z := get8 p off * 256 + get8 p (off + 1).
Definition get32 (p : list Z) (off : nat) : Z := get16 p off * 65536 + get16 p (off + 2).
Definition get_mac (p : list Z) (off : nat) : list Z := take 6 (drop off p).
Definition bytes16 (v : Z) : list Z := [u8 (v / 256); u8 v].
Definition bytes32 (v : Z) : list Z := bytes16 (v / 65536) ++ bytes16 v.
(** Overwrite the bytes from [off] on. *)
Definition splice (off : nat) (bs p : list Z) : list Z := take off p ++ bs ++ drop (off + length bs) p.

(** ** Offsets of the header fields *)
Definition ETH_HLEN : nat := 14.
Definition IP_HLEN : nat := 20.
Definition UDP_HLEN : nat := 8.
Definition GENEVE_HLEN : nat := 8.
Definition off_h_dest : nat := 0.
Definition off_h_source : nat := 6.
Definition off_h_proto : nat := 12.
Definition off_ip_verihl : nat := 14.
Definition off_ip_protocol : nat := 23.
Definition off_ip_check : nat := 24.
Definition off_ip_saddr : nat := 26.
Definition off_ip_daddr : nat := 30.
Definition off_ar_hrd : nat := 14.
Definition off_ar_pro : nat := 16.
Definition off_ar_hln : nat := 18.
Definition off_ar_pln : nat := 19.
Definition off_ar_op : nat := 20.
Definition off_ar_sha : nat := 22.
Definition off_ar_sip : nat := 28.
Definition off_ar_tha : nat := 32.
Definition off_ar_tip : nat := 38.
Definition ARP_END : nat := 42.

Definition ip_ihl (p : list Z) : nat := Z.to_nat (Z.land (get8 p off_ip_verihl) 15).
(** The first byte after the IPv4 header. *)
Definition l4_off (p : list Z) : nat := ETH_HLEN + ip_ihl p * 4.

Definition ETH_P_IP : Z := 2048.
Definition ETH_P_ARP : Z := 2054.
Definition ETH_P_IPV6 : Z := 34525.
Definition ETH_P_TEB : Z := 25944.
Definition IPPROTO_TCP : Z := 6.
Definition IPPROTO_UDP : Z := 17.

(** ** Sums of words *)
Fixpoint words_sum (l : list Z) : Z :=
  match l with
  | a :: b :: l => a * 256 + b + words_sum l
  | [a] => a * 256
  | [] => 0
  end.
(** The bytes [lo, hi). *)
Definition segment (lo hi : nat) (p : list Z) : list Z := map (get8 p) (seq lo (hi - lo)).
(** Congruence modulo 65535, in which 16-bit words are added with end-around
    carry. *)
Definition eqm (a b : Z) : Prop := a mod 65535 = b mod 65535.
Infix "≡₁" := eqm (at level 70).
(** The words of a 16- or 32-bit value. *)
Definition sum32 (v : Z) : Z := v / 65536 + v mod 65536.

#[export] Instance eqm_equiv : Equivalence eqm.
Proof. unfold eqm. split; [done|by intros ??|by intros ??? ->]. Qed.
#[export] Instance eqm_add : Proper (eqm ==> eqm ==> eqm) Z.add.
Proof. unfold eqm. intros a b H c d H'. by rewrite Z.add_mod, H, H', <-Z.add_mod. Qed.
#[export] Instance eqm_sub : Proper (eqm ==> eqm ==> eqm) Z.sub.
Proof. unfold eqm. intros a b H c d H'. by rewrite Zminus_mod, H, H', <-Zminus_mod. Qed.
#[export] Instance eqm_opp : Proper (eqm ==> eqm) Z.opp.
Proof. intros a b H. rewrite <-(Z.sub_0_l a), <-(Z.sub_0_l b). by rewrite H. Qed.
#[export] Instance eqm_mul : Proper (eqm ==> eqm ==> eqm) Z.mul.
Proof. unfold eqm. intros a b H c d H'. by rewrite Z.mul_mod, H, H', <-Z.mul_mod. Qed.
Lemma eqm_iff a b : a ≡₁ b ↔ ∃ k, a = b + k * 65535.
Proof.
  unfold eqm. split.
  - intros H. exists (a / 65535 - b / 65535). pose proof (Z.div_mod a 65535). pose proof (Z.div_mod b 65535). lia.
  - intros [k ->]. by rewrite Z.mod_add.
Qed.
Lemma sum32_eqm v : sum32 v ≡₁ v.
Proof. apply eqm_iff. exists (- (v / 65536)). unfold sum32. pose proof (Z.div_mod v 65536). lia. Qed.

(** ** Reading what was written *)
Definition bytes (p : list Z) : Prop := Forall is_u8 p.
Lemma length_splice off bs p : (off + length bs ≤ length p)%nat → length (splice off bs p) = length p.
Proof. intros. unfold splice. rewrite !length_app, length_take, length_drop. lia. Qed.
Lemma get8_splice off bs p i : (off + length bs ≤ length p)%nat →
  get8 (splice off bs p) i =
    if bool_decide (off ≤ i < off + length bs)%nat then nth (i - off) bs 0 else get8 p i.
Proof.
  intros Hl. unfold get8, splice. case_bool_decide as Hi.
  - rewrite app_nth2; rewrite length_take; [|lia]. rewrite Nat.min_l by lia. rewrite app_nth1 by lia. done.
  - destruct (decide (i < off)%nat).
    + rewrite app_nth1 by (rewrite length_take; lia). rewrite <-(take_drop off p) at 2.
      by rewrite app_nth1 by (rewrite length_take; lia).
    + rewrite app_nth2; rewrite length_take; [|lia]. rewrite Nat.min_l by lia. rewrite app_nth2 by lia.
      rewrite <-(take_drop (off + length bs) p) at 2. rewrite app_nth2; rewrite length_take; [|lia]. f_equal. lia.
Qed.
Lemma get16_splice off bs p i : (off + length bs ≤ length p)%nat → (i + 2 ≤ off ∨ off + length bs ≤ i)%nat →
  get16 (splice off bs p) i = get16 p i.
Proof. intros Hl Hi. unfold get16. rewrite !get8_splice by done. rewrite !bool_decide_eq_false_2 by lia. done. Qed.
Lemma get8_splice_ne off bs p i : (off + length bs ≤ length p)%nat → ¬ (off ≤ i < off + length bs)%nat →
  get8 (splice off bs p) i = get8 p i.
Proof. intros Hl Hi. rewrite get8_splice by done. by rewrite bool_decide_eq_false_2. Qed.
Lemma get16_splice_eq off v p : is_u16 v → (off + 2 ≤ length p)%nat → get16 (splice off (bytes16 v) p) off = v.
Proof.
  intros Hv Hl. unfold get16, bytes16. rewrite !get8_splice by (simpl; lia). rewrite !bool_decide_eq_true_2 by (simpl; lia).
  replace (off - off)%nat with 0%nat by lia. replace (off + 1 - off)%nat with 1%nat by lia. cbn [nth].
  unfold u8, is_u16 in *. rewrite (Z.mod_small (v / 256)) by (split; [apply Z.div_pos|apply Z.div_lt_upper_bound]; lia).
  pose proof (Z.div_mod v 256). change (2 ^ 8) with 256. lia.
Qed.
Lemma get32_splice_eq off v p : is_u32 v → (off + 4 ≤ length p)%nat → get32 (splice off (bytes32 v) p) off = v.
Proof.
  intros Hv Hl. unfold is_u32 in Hv. assert (Hb : ∀ i, (i < 4)%nat → get8 (splice off (bytes32 v) p) (off + i) = nth i (bytes32 v) 0).
  { intros i Hi. rewrite get8_splice by (simpl; lia). rewrite bool_decide_eq_true_2 by (simpl; lia). f_equal. lia. }
  pose proof (Hb 0%nat) as H0. pose proof (Hb 1%nat) as H1. pose proof (Hb 2%nat) as H2. pose proof (Hb 3%nat) as H3.
  rewrite Nat.add_0_r in H0. unfold get32, get16. rewrite H0, H1, H2 by lia. replace (off + 2 + 1)%nat with (off + 3)%nat by lia.
  rewrite H3 by lia. cbn [nth bytes32 bytes16 app]. unfold u8.
  change (2 ^ 8) with 256. rewrite (Z.div_div v 65536 256) by lia. change (65536 * 256) with 16777216.
  rewrite (Z.mod_small (v / 16777216)) by (split; [apply Z.div_pos|apply Z.div_lt_upper_bound]; lia).
  pose proof (Z.div_mod v 256). pose proof (Z.div_mod (v / 256) 256). pose proof (Z.div_mod (v / 65536) 256).
  rewrite !Z.div_div in * by lia. change (256 * 256) with 65536 in *. change (65536 * 256) with 16777216 in *. lia.
Qed.
Lemma splice_ext p q : length p = length q → (∀ i, get8 p i = get8 q i) → p = q.
Proof. intros Hl Hg. apply (List.nth_ext _ _ 0 0); [done|]. intros i _. apply Hg. Qed.
Lemma splice_adj off off' bs bs' p : off' = (off + length bs)%nat → (off' + length bs' ≤ length p)%nat →
  splice off' bs' (splice off bs p) = splice off (bs ++ bs') p.
Proof.
  intros -> Hl. apply splice_ext; [rewrite !length_splice; rewrite ?length_app, ?length_splice; lia|].
  intros i. rewrite !get8_splice by (rewrite ?length_app, ?length_splice; lia). rewrite length_app.
  repeat case_bool_decide; try lia; try done; first [by rewrite app_nth1 by lia|rewrite app_nth2 by lia; f_equal; lia].
Qed.
Lemma splice_inside off a o b c p : length o = length c → (off + length (a ++ o ++ b) ≤ length p)%nat →
  splice (off + length a) c (splice off (a ++ o ++ b) p) = splice off (a ++ c ++ b) p.
Proof.
  intros Ho Hl. rewrite !length_app in Hl. apply splice_ext; [rewrite !length_splice; rewrite ?length_splice; rewrite ?length_app; lia|].
  intros i. rewrite !get8_splice by (rewrite ?length_splice; rewrite ?length_app; lia). rewrite !length_app.
  destruct (decide (off + length a ≤ i < off + length a + length c)%nat).
  { rewrite !bool_decide_eq_true_2 by lia. rewrite (app_nth2 a) by lia. rewrite app_nth1 by lia. f_equal. lia. }
  rewrite (bool_decide_eq_false_2 _ n). rewrite Ho. case_bool_decide; [|done].
  - destruct (decide (i - off < length a)%nat); [by rewrite !app_nth1 by lia|]. rewrite !(app_nth2 a) by lia.
    rewrite !app_nth2 by lia. f_equal. lia.
Qed.
Lemma splice_swap off off' bs bs' p : (off + length bs ≤ off')%nat → (off' + length bs' ≤ length p)%nat →
  splice off bs (splice off' bs' p) = splice off' bs' (splice off bs p).
Proof.
  intros H1 H2. apply splice_ext; [rewrite !length_splice; rewrite ?length_splice; lia|]. intros i.
  rewrite !get8_splice by (rewrite ?length_splice; lia). repeat case_bool_decide; done || lia.
Qed.
Lemma splice_nil off p : splice off [] p = p.
Proof. unfold splice. by rewrite Nat.add_0_r, app_nil_l, take_drop. Qed.
Lemma splice_0 bs p : (length bs ≤ length p)%nat → splice 0 bs p = bs ++ drop (length bs) p.
Proof. done. Qed.
Lemma bytes16_ok v : bytes (bytes16 v).
Proof. unfold bytes, bytes16. auto with go. Qed.
Lemma bytes32_ok v : bytes (bytes32 v).
Proof. unfold bytes, bytes32. apply Forall_app; split; apply bytes16_ok. Qed.
#[export] Hint Resolve bytes16_ok bytes32_ok : go.
Lemma bytes_splice off bs p : bytes bs → bytes p → bytes (splice off bs p).
Proof. unfold bytes, splice. intros. by repeat apply Forall_app_2; try apply Forall_take; try apply Forall_drop. Qed.
Lemma get8_u8 p i : bytes p → is_u8 (get8 p i).
Proof. intros Hp. unfold get8. destruct (nth_in_or_default i p 0) as [Hin| ->]; [|done]. unfold bytes in Hp. rewrite List.Forall_forall in Hp. by apply Hp. Qed.
Lemma get16_u16 p i : bytes p → is_u16 (get16 p i).
Proof. intros Hp. unfold get16, is_u16. pose proof (get8_u8 p i Hp). pose proof (get8_u8 p (i + 1) Hp). unfold is_u8 in *. lia. Qed.
Lemma get32_u32 p i : bytes p → is_u32 (get32 p i).
Proof. intros Hp. unfold get32, is_u32. pose proof (get16_u16 p i Hp). pose proof (get16_u16 p (i + 2) Hp). unfold is_u16 in *. lia. Qed.

(** ** Sums of parts *)
Lemma words_sum_app l1 l2 : Nat.Even (length l1) → words_sum (l1 ++ l2) = words_sum l1 + words_sum l2.
Proof.
  induction l1 as [l1 IH] using (well_founded_induction (well_founded_ltof _ (@length Z))). unfold ltof in IH.
  intros [k Hk]. destruct l1 as [|a [|b l1]]; [done|simpl in Hk; lia|]. cbn [app words_sum]. rewrite IH; [lia|simpl; lia|].
  exists (k - 1)%nat. simpl in Hk. lia.
Qed.
Lemma words_sum_bytes16 v : is_u16 v → words_sum (bytes16 v) = v.
Proof.
  intros Hv. cbn [words_sum bytes16]. unfold u8, is_u16 in *.
  rewrite (Z.mod_small (v / 256)) by (split; [apply Z.div_pos|apply Z.div_lt_upper_bound]; lia).
  pose proof (Z.div_mod v 256). change (2 ^ 8) with 256. lia.
Qed.
Lemma words_sum_bytes32 v : is_u32 v → words_sum (bytes32 v) = sum32 v.
Proof.
  intros Hv. unfold bytes32, is_u32 in *. rewrite words_sum_app by (exists 1%nat; done).
  assert (bytes16 v = bytes16 (v mod 65536)) as ->.
  { unfold bytes16, u8. rewrite (Z.mod_eq v 65536) by lia. f_equal; [|f_equal].
    - replace (v - 65536 * (v / 65536)) with (v + (- 256 * (v / 65536)) * 256) by lia. rewrite Z.div_add by lia.
      replace (v / 256 + - 256 * (v / 65536)) with (v / 256 + (- (v / 65536)) * 2 ^ 8) by lia. by rewrite Z.mod_add.
    - replace (v - 65536 * (v / 65536)) with (v + (- 256 * (v / 65536)) * 2 ^ 8) by lia. by rewrite Z.mod_add. }
  pose proof (Z.mod_pos_bound v 65536). rewrite !words_sum_bytes16; [done| |]; unfold is_u16.
  - lia.
  - split; [apply Z.div_pos|apply Z.div_lt_upper_bound]; lia.
Qed.

Lemma segment_split lo mid hi p : (lo ≤ mid ≤ hi)%nat → segment lo hi p = segment lo mid p ++ segment mid hi p.
Proof.
  intros H. unfold segment. rewrite <-map_app. f_equal. replace (hi - lo)%nat with ((mid - lo) + (hi - mid))%nat by lia.
  rewrite seq_app. do 2 f_equal; lia.
Qed.
Lemma segment_length lo hi p : length (segment lo hi p) = (hi - lo)%nat.
Proof. unfold segment. by rewrite length_map, length_seq. Qed.
Lemma segment_out lo hi off bs p : (off + length bs ≤ length p)%nat → (off + length bs ≤ lo ∨ hi ≤ off)%nat →
  segment lo hi (splice off bs p) = segment lo hi p.
Proof.
  intros Hl Ho. unfold segment. apply map_ext_in. intros i Hi%in_seq. apply get8_splice_ne; [done|lia].
Qed.
Lemma segment_in off bs p : (off + length bs ≤ length p)%nat → segment off (off + length bs) (splice off bs p) = bs.
Proof.
  intros Hl. apply (List.nth_ext _ _ 0 0); rewrite segment_length; [lia|]. intros i Hi. unfold segment.
  rewrite (nth_indep _ 0 (get8 (splice off bs p) 0)) by (rewrite length_map, length_seq; lia).
  rewrite map_nth, seq_nth by lia. rewrite get8_splice, bool_decide_eq_true_2 by lia. f_equal. lia.
Qed.
Lemma sum_segment16 off p : words_sum (segment off (off + 2) p) = get16 p off.
Proof. unfold segment. replace (off + 2 - off)%nat with 2%nat by lia. simpl. unfold get16. rewrite Nat.add_1_r. lia. Qed.
Lemma sum_segment32 off p : bytes p → words_sum (segment off (off + 4) p) = sum32 (get32 p off).
Proof.
  intros Hp. rewrite (segment_split off (off + 2)) by lia. replace (off + 4)%nat with (off + 2 + 2)%nat by lia.
  rewrite words_sum_app, !sum_segment16 by (rewrite segment_length; exists 1%nat; lia). unfold sum32, get32.
  pose proof (get16_u16 p (off + 2) Hp) as H2. unfold is_u16 in H2.
  rewrite Z.div_add_l, Z.div_small by lia. rewrite (Z.add_comm (_ * _)), Z.mod_add, Z.mod_small by lia. lia.
Qed.

(** A write inside a segment, at a word boundary, replaces words. *)
Lemma sum_splice lo hi off bs p :
  (lo ≤ off)%nat → (off + length bs ≤ hi)%nat → (off + length bs ≤ length p)%nat → Nat.Even (off - lo) → Nat.Even (length bs) →
  words_sum (segment lo hi (splice off bs p)) =
  words_sum (segment lo hi p) - words_sum (segment off (off + length bs) p) + words_sum bs.
Proof.
  intros H1 H2 H3 He1 He2. rewrite !(segment_split lo off hi), !(segment_split off (off + length bs) hi) by lia.
  rewrite !words_sum_app by (rewrite segment_length; first [done|by replace (off + length bs - off)%nat with (length bs) by lia]).
  rewrite segment_in by done. rewrite (segment_out lo off), (segment_out (off + length bs) hi) by (done || lia). lia.
Qed.

(** ** Reading behind a prefix *)
Lemma get8_skip n a b k : length a = n → get8 (a ++ b) (n + k) = get8 b k.
Proof. intros <-. unfold get8. rewrite app_nth2 by lia. f_equal. lia. Qed.
Lemma get16_skip n a b k : length a = n → get16 (a ++ b) (n + k) = get16 b k.
Proof. intros Hn. unfold get16. by rewrite <-Nat.add_assoc, !(get8_skip n). Qed.
Lemma get32_skip n a b k : length a = n → get32 (a ++ b) (n + k) = get32 b k.
Proof. intros Hn. unfold get32. by rewrite <-Nat.add_assoc, !(get16_skip n). Qed.
Lemma get16_bytes16 v l : is_u16 v → get16 (bytes16 v ++ l) 0 = v.
Proof. intros Hv. exact (get16_splice_eq 0 v ([0; 0] ++ l) Hv ltac:(simpl; lia)). Qed.
Lemma get32_bytes32 v l : is_u32 v → get32 (bytes32 v ++ l) 0 = v.
Proof. intros Hv. exact (get32_splice_eq 0 v ([0; 0; 0; 0] ++ l) Hv ltac:(simpl; lia)). Qed.
