(* ===== verification/Skb.v ===== *)
(** * Socket buffers and the kernel's helpers

    What a traffic-control program sees of a packet: its bytes, how many of
    them it may access directly ([data_end - data]), and the device it came in
    on.  The helpers of the kernel that change a packet are the operations of
    the class [BpfHelpers]; [BpfHelpersOk] states what the manual page
    bpf-helpers(7) says of them, for packets whose checksums are complete.  A
    concrete implementation, [simple_helpers], shows that the laws can hold. *)
From S2P Require Import Prelude Errors GoStrings GoNet BpfTypes Packet.

Record skb := MkSkb { sk_data : list Z; sk_linear : nat; sk_ingress_ifindex : Z }.
Definition sk_len (s : skb) : nat := length (sk_data s).

Definition BPF_F_PSEUDO_HDR : Z := 16.
Definition BPF_ADJ_ROOM_MAC : Z := 1.
Definition BPF_F_ADJ_ROOM_ENCAP_L3_IPV4 : Z := 2.
Definition BPF_F_ADJ_ROOM_ENCAP_L4_UDP : Z := 16.
Definition BPF_F_ADJ_ROOM_ENCAP_L2 (len : Z) : Z := Z.shiftl (Z.land len 255) 56.

(** Values to replace are given as the numbers their bytes in network order
    stand for.  [adjust_room] and [pull_data] answer [None] for an error.  The
    others leave the packet alone when they fail, and their results are not looked at. *)
Class BpfHelpers := {
  bpf_skb_store_bytes : skb → nat → list Z → skb;
  bpf_l3_csum_replace : skb → nat → Z → Z → Z → skb;      (* offset, from, to, size *)
  bpf_l4_csum_replace : skb → nat → Z → Z → Z → skb;      (* offset, from, to, flags and size *)
  bpf_skb_adjust_room : skb → Z → Z → Z → option skb;     (* length difference, mode, flags *)
  bpf_skb_pull_data : skb → nat → option skb;
}.

(** Same device, and no less of the packet accessible. *)
Definition same_frame (s s' : skb) : Prop :=
  sk_ingress_ifindex s' = sk_ingress_ifindex s ∧ (sk_linear s ≤ sk_linear s')%nat.

(** The words a [from] or [to] of [size] bytes counts for. *)
Definition csum_words (size v : Z) : Z := if size =? 4 then sum32 v else v.
(** A checksum field was updated for the replacement of [from] by [to]. *)
Definition csum_updated (off : nat) (size from to : Z) (p p' : list Z) : Prop :=
  ∃ c, is_u16 c ∧ p' = splice off (bytes16 c) p ∧ c ≡₁ get16 p off + csum_words size from - csum_words size to.

Class BpfHelpersOk (H : BpfHelpers) := {
  store_bytes_ok s off bs : (off + length bs ≤ sk_len s)%nat →
    sk_data (bpf_skb_store_bytes s off bs) = splice off bs (sk_data s) ∧ same_frame s (bpf_skb_store_bytes s off bs);
  l3_csum_ok s off from to size : (off + 2 ≤ sk_len s)%nat → Nat.Even off → size = 2 ∨ size = 4 →
    csum_updated off size from to (sk_data s) (sk_data (bpf_l3_csum_replace s off from to size)) ∧
    same_frame s (bpf_l3_csum_replace s off from to size);
  l4_csum_ok s off from to flags : (off + 2 ≤ sk_len s)%nat → Nat.Even off → Z.land flags 15 = 2 ∨ Z.land flags 15 = 4 →
    csum_updated off (Z.land flags 15) from to (sk_data s) (sk_data (bpf_l4_csum_replace s off from to flags)) ∧
    same_frame s (bpf_l4_csum_replace s off from to flags);
  (** Room is made, with arbitrary contents, or removed, after the Ethernet header. *)
  adjust_room_grow s n flags s' : (ETH_HLEN ≤ sk_linear s)%nat →
    bpf_skb_adjust_room s (Z.of_nat n) BPF_ADJ_ROOM_MAC flags = Some s' →
    ∃ room, length room = n ∧ sk_data s' = take ETH_HLEN (sk_data s) ++ room ++ drop ETH_HLEN (sk_data s) ∧
      sk_ingress_ifindex s' = sk_ingress_ifindex s ∧ (sk_linear s + n ≤ sk_linear s')%nat;
  adjust_room_shrink s n flags s' : (0 < n)%nat → (ETH_HLEN + n ≤ sk_linear s)%nat →
    bpf_skb_adjust_room s (- Z.of_nat n) BPF_ADJ_ROOM_MAC flags = Some s' →
    sk_data s' = take ETH_HLEN (sk_data s) ++ drop (ETH_HLEN + n) (sk_data s) ∧
    sk_ingress_ifindex s' = sk_ingress_ifindex s ∧ (sk_linear s ≤ sk_linear s' + n)%nat;
  pull_data_ok s n s' : (n ≤ sk_len s)%nat → bpf_skb_pull_data s n = Some s' →
    sk_data s' = sk_data s ∧ same_frame s s' ∧ (n ≤ sk_linear s')%nat;
}.

(** ** An implementation *)
Definition set_data (s : skb) (p : list Z) : skb := MkSkb p (sk_linear s) (sk_ingress_ifindex s).
Definition csum_replace (s : skb) (off : nat) (from to size : Z) : skb :=
  set_data s (splice off (bytes16 ((get16 (sk_data s) off + csum_words size from - csum_words size to) mod 65535)) (sk_data s)).
Definition simple_helpers : BpfHelpers := {|
  bpf_skb_store_bytes s off bs := set_data s (splice off bs (sk_data s));
  bpf_l3_csum_replace := csum_replace;
  bpf_l4_csum_replace s off from to flags := csum_replace s off from to (Z.land flags 15);
  bpf_skb_adjust_room s diff mode flags :=
    let n := Z.abs_nat diff in
    Some (if 0 <=? diff
          then MkSkb (take ETH_HLEN (sk_data s) ++ replicate n 0 ++ drop ETH_HLEN (sk_data s)) (sk_linear s + n) (sk_ingress_ifindex s)
          else MkSkb (take ETH_HLEN (sk_data s) ++ drop (ETH_HLEN + n) (sk_data s)) (sk_linear s - n) (sk_ingress_ifindex s));
  bpf_skb_pull_data s n := Some (MkSkb (sk_data s) (Nat.max n (sk_linear s)) (sk_ingress_ifindex s));
|}.

Lemma same_frame_refl s : same_frame s s.
Proof. by split. Qed.
#[export] Instance same_frame_trans : Transitive same_frame.
Proof. intros s1 s2 s3 [] []. split; [congruence|lia]. Qed.

#[export] Instance simple_helpers_ok : BpfHelpersOk simple_helpers.
Proof.
  assert (Hc : ∀ s off from to size, csum_updated off size from to (sk_data s) (sk_data (csum_replace s off from to size))).
  { intros s off from to size. eexists. split; [|split; [reflexivity|]].
    - unfold is_u16. pose proof (Z.mod_pos_bound (get16 (sk_data s) off + csum_words size from - csum_words size to) 65535). lia.
    - unfold eqm. by rewrite Z.mod_mod. }
  split; cbn [bpf_skb_store_bytes bpf_l3_csum_replace bpf_l4_csum_replace bpf_skb_adjust_room bpf_skb_pull_data simple_helpers].
  - by intros.
  - by intros.
  - by intros.
  - intros s n flags s' Hl [= <-]. exists (replicate n 0). rewrite length_replicate.
    rewrite (proj2 (Z.leb_le 0 (Z.of_nat n))) by lia. by rewrite Zabs2Nat.id.
  - intros s n flags s' Hn Hl [= <-]. rewrite (proj2 (Z.leb_gt 0 (- Z.of_nat n))) by lia.
    replace (Z.abs_nat (- Z.of_nat n)) with n by lia. cbn [sk_data sk_linear sk_ingress_ifindex].
    unfold ETH_HLEN in *. split_and!; [done|done|lia].
  - intros s n s' Hn [= <-]. unfold same_frame. simpl. split_and!; [done|done|lia|lia].
Qed.
