(* ===== verification/Datapath.v ===== *)
(** * The datapath: src/bpf/switch_kern.c and stats.h

    The three traffic-control programs, as functions of the tables they share
    with the control plane ([tables]: the slot table and the pinned maps), of
    the packet and of the counters.  A program stops at the first [return];
    the packet is accessed as the verifier allows it, below [data_end].  One
    run reads one state of the tables; [Publication] has the order of loads that
    the publication token enforces. *)
From S2P Require Import Prelude Errors GoStrings GoNet BpfTypes Packet Skb Prog Maps.

(** ** Runs *)
Inductive verdict :=
  | TC_ACT_OK
  | TC_ACT_SHOT
  | Redirect (ifindex : Z)                              (* bpf_redirect(ifindex, 0) *)
  | RedirectNeigh (ifindex : Z) (nexthop : option Z).   (* bpf_redirect_neigh *)
Record tc_state := MkTc { tc_skb : skb; tc_stats : gmap Z SlotStats }.
Definition tc (A : Type) : Type := tc_state → (verdict + A) * tc_state.

Definition tret {A} (a : A) : tc A := λ s, (inr a, s).
Definition tbind {A B} (p : tc A) (f : A → tc B) : tc B := λ s,
  match p s with (inr a, s') => f a s' | (inl v, s') => (inl v, s') end.
Definition act {A} (v : verdict) : tc A := λ s, (inl v, s).
Notation "'do' x <- p 'in' k" := (tbind p (λ x, k))
  (at level 10, x pattern, p at level 100, k at level 200) : go_scope.

Definition get_skb : tc skb := λ s, (inr (tc_skb s), s).
(** [if (data + n > data_end) return TC_ACT_OK]. *)
Definition need (n : nat) : tc unit := λ s,
  if (n <=? sk_linear (tc_skb s))%nat then (inr tt, s) else (inl TC_ACT_OK, s).
Definition change_skb (f : skb → skb) : tc unit := λ s, (inr tt, MkTc (f (tc_skb s)) (tc_stats s)).
(** A direct write. *)
Definition write (off : nat) (bs : list Z) : tc unit := change_skb (λ s, set_data s (splice off bs (sk_data s))).
Definition some_or_ok {A} (o : option A) : tc A := match o with Some a => tret a | None => act TC_ACT_OK end.

(** ** stats.h *)
Definition stats_generation (slot_id : Z) : tc Z := λ s,
  (inr (match tc_stats s !! slot_id with Some x => st_Generation x | None => 0 end), s).
Definition update_stats (count : SlotStats → SlotStats) (slot_id generation : Z) : tc unit := λ s,
  (inr tt,
   match tc_stats s !! slot_id with
   | Some x => if negb (generation =? 0) && (st_Generation x =? generation)
               then MkTc (tc_skb s) (<[slot_id := count x]> (tc_stats s)) else s
   | None => s
   end).
Definition count_mgmt_tx (len : Z) (x : SlotStats) : SlotStats :=
  let '(MkSlotStats g mrp mrb mtp mtb trp trb ttp ttb) := x in
  MkSlotStats g mrp mrb (u64 (mtp + 1)) (u64 (mtb + len)) trp trb ttp ttb.
Definition count_mgmt_rx (len : Z) (x : SlotStats) : SlotStats :=
  let '(MkSlotStats g mrp mrb mtp mtb trp trb ttp ttb) := x in
  MkSlotStats g (u64 (mrp + 1)) (u64 (mrb + len)) mtp mtb trp trb ttp ttb.
Definition count_transit_tx (len : Z) (x : SlotStats) : SlotStats :=
  let '(MkSlotStats g mrp mrb mtp mtb trp trb ttp ttb) := x in
  MkSlotStats g mrp mrb mtp mtb trp trb (u64 (ttp + 1)) (u64 (ttb + len)).
Definition count_transit_rx (len : Z) (x : SlotStats) : SlotStats :=
  let '(MkSlotStats g mrp mrb mtp mtb trp trb ttp ttb) := x in
  MkSlotStats g mrp mrb mtp mtb (u64 (trp + 1)) (u64 (trb + len)) ttp ttb.
Definition update_stats_mgmt_tx (slot_id generation pkt_len : Z) : tc unit := update_stats (count_mgmt_tx pkt_len) slot_id generation.
Definition update_stats_mgmt_rx (slot_id generation pkt_len : Z) : tc unit := update_stats (count_mgmt_rx pkt_len) slot_id generation.
Definition update_stats_transit_tx (slot_id generation pkt_len : Z) : tc unit := update_stats (count_transit_tx pkt_len) slot_id generation.
Definition update_stats_transit_rx (slot_id generation pkt_len : Z) : tc unit := update_stats (count_transit_rx pkt_len) slot_id generation.

(** ** Helpers of the programs *)
Definition is_slot_free (ip : Z) : bool := (ip =? InnerIPFree) || (ip =? InnerIPReserved).
Definition slot_publication_token (slot : SlotItem) (cfg : SwitchConfig) : Z :=
  if Z.land (sc_Features cfg) SwitchFPortUp =? 0 then PortFUp else Z.land (si_Flags slot) 1.

Definition is_zero_mac (mac : list Z) : bool :=
  Z.lor (Z.lor (Z.lor (Z.lor (Z.lor (get8 mac 0) (get8 mac 1)) (get8 mac 2)) (get8 mac 3)) (get8 mac 4)) (get8 mac 5) =? 0.
Definition get_port_mac (cfg : SwitchConfig) (slot_id : Z) : list Z :=
  if is_zero_mac (sc_PortMac cfg) then
    take 4 (sc_SwitchMac cfg) ++
    [Z.lor (Z.land (Z.lxor (get8 (sc_SwitchMac cfg) 4) 128) 128) (u8 (Z.shiftr slot_id 8)); u8 (Z.land slot_id 255)]
  else sc_PortMac cfg.

Definition csum_fold (csum : Z) : Z :=
  let csum := u32 (Z.land csum 65535 + Z.shiftr csum 16) in
  let csum := u32 (Z.land csum 65535 + Z.shiftr csum 16) in
  u16 (Z.lnot csum).
Definition csum_add (csum addend : Z) : Z :=
  let csum := u32 (csum + addend) in u32 (csum + (if csum <? addend then 1 else 0)).
(** The loop over the ten words of a header, read in memory order. *)
Fixpoint ip_checksum_loop (n i : nat) (p : list Z) (len : nat) (sum : Z) : Z :=
  match n with
  | O => sum
  | S n =>
      if (len <=? i * 2)%nat then sum
      else ip_checksum_loop n (S i) p len (csum_add sum (get8 p (i * 2) + get8 p (i * 2 + 1) * 256))
  end.
Definition ip_checksum (p : list Z) (len : nat) : Z := csum_fold (ip_checksum_loop 10 0 p len 0).

Definition cidr_matches (cidr : MgmtCidr) (dst_ip : Z) : bool :=
  Z.land dst_ip (mc_Mask cidr) =? Z.land (mc_Ip cidr) (mc_Mask cidr).
Definition match_mgmt_cidr (slot : SlotItem) (dst_ip : Z) : option (Z * list Z) :=
  let hit c := (mc_Ifindex c, mc_MgmtMac c) in
  let ext i := nth i (si_MgmtCidrsExt slot) MgmtCidr_zero in
  if (0 <? si_MgmtCidrCount slot) && cidr_matches (si_MgmtCidrs0 slot) dst_ip then Some (hit (si_MgmtCidrs0 slot))
  else if (1 <? si_MgmtCidrCount slot) && cidr_matches (ext 0%nat) dst_ip then Some (hit (ext 0%nat))
  else if (2 <? si_MgmtCidrCount slot) && cidr_matches (ext 1%nat) dst_ip then Some (hit (ext 1%nat))
  else None.

Definition ARPOP_REQUEST : Z := 1.
Definition ARPOP_REPLY : Z := 2.
Definition send_arp_reply_with_mac (reply_mac : list Z) : tc verdict :=
  do _ <- need off_ar_sha in
  do s <- get_skb in
  let p := sk_data s in
  if negb (get16 p off_ar_hrd =? 1) || negb (get16 p off_ar_pro =? ETH_P_IP) || negb (get8 p off_ar_hln =? 6)
     || negb (get8 p off_ar_pln =? 4) || negb (get16 p off_ar_op =? ARPOP_REQUEST)
  then act TC_ACT_OK
  else
    do _ <- need ARP_END in
    let orig_sip := get32 p off_ar_sip in
    let orig_tip := get32 p off_ar_tip in
    let orig_sha := get_mac p off_ar_sha in
    do _ <- write off_h_dest orig_sha in
    do _ <- write off_h_source reply_mac in
    do _ <- write off_ar_op (bytes16 ARPOP_REPLY) in
    do _ <- write off_ar_sha reply_mac in
    do _ <- write off_ar_sip (bytes32 orig_tip) in
    do _ <- write off_ar_tha orig_sha in
    do _ <- write off_ar_tip (bytes32 orig_sip) in
    tret (Redirect (sk_ingress_ifindex s)).

Section programs.
Context `{BpfHelpers} (T : tables).

Definition get_config : tc SwitchConfig := some_or_ok (m_config (snd T) !! 0).
Definition slot_lookup (slot_id : Z) : option SlotItem := slot_at (fst T) slot_id.

(** The gate in front of the fields of an attachment. *)
Definition publication_gate (slot : SlotItem) (cfg : SwitchConfig) : tc unit :=
  if slot_publication_token slot cfg <=? 0 then act TC_ACT_SHOT else tret tt.

(** ** Address translation *)
Definition l3_csum_fix (from to : Z) : tc unit := change_skb (λ s, bpf_l3_csum_replace s off_ip_check from to 4).
Definition l4_csum_at (off : nat) (from to flags : Z) : tc unit := change_skb (λ s, bpf_l4_csum_replace s off from to flags).
Definition store_bytes (off : nat) (bs : list Z) : tc unit := change_skb (λ s, bpf_skb_store_bytes s off bs).

(** A UDP datagram whose header is accessible and carries a checksum. *)
Definition udp_has_csum (l4 : nat) (s : skb) : bool :=
  (l4 + UDP_HLEN <=? sk_linear s)%nat && negb (get16 (sk_data s) (l4 + 6) =? 0).
Definition addr_flags : Z := Z.lor BPF_F_PSEUDO_HDR 4.

(** The address of one side was replaced: fix the transport checksum. *)
Definition l4_addr_fix (l4 : nat) (protocol from to : Z) : tc unit :=
  if protocol =? IPPROTO_UDP then
    do s <- get_skb in
    if udp_has_csum l4 s then l4_csum_at (l4 + 6) from to addr_flags else tret tt
  else if protocol =? IPPROTO_TCP then l4_csum_at (l4 + 16) from to addr_flags
  else tret tt.

(** The address and the port of a service were replaced. *)
Definition l4_svc_fix (l4 : nat) (protocol from to old_port new_port : Z) : tc unit :=
  let fix_at coff :=
    do _ <- l4_csum_at coff from to addr_flags in
    if negb (new_port =? old_port) then l4_csum_at coff old_port new_port 2 else tret tt in
  if protocol =? IPPROTO_UDP then
    do s <- get_skb in if udp_has_csum l4 s then fix_at (l4 + 6)%nat else tret tt
  else fix_at (l4 + 16)%nat.

(** Look a service up by an address and the transport port at [l4 + port_off]. *)
Definition svc_lookup (m : gmap SvcKey SvcVal) (s : skb) (ip : Z) (port_off : nat) : option (Z * SvcVal) :=
  let p := sk_data s in
  let protocol := get8 p off_ip_protocol in
  let l4 := l4_off p in
  if ((protocol =? IPPROTO_TCP) || (protocol =? IPPROTO_UDP)) && (l4 + 4 <=? sk_linear s)%nat then
    let port := get16 p (l4 + port_off) in
    match m !! MkSvcKey ip port protocol with Some v => Some (port, v) | None => None end
  else None.

(** Replace one address of the IPv4 header and, when a service was hit, the
    other address and its port. *)
Definition rewrite_addr (off : nat) (l4 : nat) (protocol from to : Z) : tc unit :=
  do _ <- store_bytes off (bytes32 to) in
  do _ <- l3_csum_fix from to in
  l4_addr_fix l4 protocol from to.
Definition rewrite_svc (off : nat) (l4 port_off : nat) (protocol from : Z) (svc : option (Z * SvcVal)) : tc unit :=
  match svc with
  | None => tret tt
  | Some (old_port, v) =>
      do _ <- store_bytes off (bytes32 (sv_Ip v)) in
      do _ <- l3_csum_fix from (sv_Ip v) in
      do _ <- l4_svc_fix l4 protocol from (sv_Ip v) old_port (sv_Port v) in
      if negb (sv_Port v =? old_port) then store_bytes (l4 + port_off) (bytes16 (sv_Port v)) else tret tt
  end.
(** Point the frame at its next device. *)
Definition rewrite_macs (dst src : list Z) : tc unit :=
  do _ <- need ETH_HLEN in
  do _ <- write off_h_dest dst in
  write off_h_source src.

(** ** Outgoing traffic of a sandbox, management plane *)
Definition nx_floating_ip (cfg : SwitchConfig) (slot : SlotItem) (slot_id : Z) : Z :=
  u32 (u32 (sc_FloatingIpBase cfg + u32 (Z.shiftl (si_Generation slot) 12)) + slot_id).
Definition nx_mgmt (cfg : SwitchConfig) (slot : SlotItem) (slot_id generation : Z) (mgmt : Z * list Z) : tc verdict :=
  do s <- get_skb in
  let p := sk_data s in
  let protocol := get8 p off_ip_protocol in
  let l4 := l4_off p in
  let svc := svc_lookup (m_fwd (snd T)) s (get32 p off_ip_daddr) 2 in
  do _ <- rewrite_addr off_ip_saddr l4 protocol (get32 p off_ip_saddr) (nx_floating_ip cfg slot slot_id) in
  do _ <- rewrite_svc off_ip_daddr l4 2 protocol (get32 p off_ip_daddr) svc in
  do _ <- rewrite_macs (snd mgmt) (sc_SwitchMac cfg) in
  do _ <- update_stats_mgmt_tx slot_id generation (Z.of_nat (sk_len s)) in
  tret (Redirect (fst mgmt)).

(** ** Outgoing traffic of a sandbox, transit *)
Definition GENEVE_TLV_LOCATOR_LEN : Z := 8.
Record locator_plan := MkPlan { lp_port : Z; lp_vni : Z; lp_len : Z }.
Definition nx_locator (cfg : SwitchConfig) (slot : SlotItem) (slot_id : Z) : option locator_plan :=
  let vni := si_TransitGeneveVni slot in
  if sc_GeneveLocator cfg =? 0 then Some (MkPlan (u16 (u32 (sc_GenevePortBase cfg + slot_id))) vni 0)
  else if sc_GeneveLocator cfg =? 1 then Some (MkPlan GenevePort (Z.lor (u32 (Z.shiftl slot_id GeneveVNILocatorBits)) vni) 0)
  else if sc_GeneveLocator cfg =? 2 then Some (MkPlan GenevePort vni GENEVE_TLV_LOCATOR_LEN)
  else None.

(** The opaque options of the slot and their critical flag; [None] when the
    hint and the map value do not agree. *)
Definition nx_user_opts (slot : SlotItem) (slot_id : Z) : option (list Z * bool) :=
  let len := si_GeneveOptsLen slot in
  if 0 <? len then
    if (MaxGeneveOptsLen <? len) || negb (Z.land len 3 =? 0) then None
    else
      match m_opts (snd T) !! slot_id with
      | None => None
      | Some o =>
          if negb (gv_Len o =? len) || (MaxGeneveOptsLen <? gv_Len o) || negb (Z.land (gv_Len o) 3 =? 0) || (1 <? gv_Critical o)
          then None else Some (take (Z.to_nat len) (gv_Data o), negb (gv_Critical o =? 0))
      end
  else Some ([], false).

Definition hash_ports (s : skb) (off : nat) (h : Z) : Z :=
  if (off + 4 <=? sk_linear s)%nat
  then Z.lxor h (Z.lor (Z.shiftl (get16 (sk_data s) off) 16) (get16 (sk_data s) (off + 2))) else h.
Definition get32_le (p : list Z) (off : nat) : Z :=
  get8 p off + get8 p (off + 1) * 256 + get8 p (off + 2) * 65536 + get8 p (off + 3) * 16777216.
Definition is_tcp_udp (protocol : Z) : bool := (protocol =? IPPROTO_UDP) || (protocol =? IPPROTO_TCP).
Definition flow_hash (proto : Z) : tc Z :=
  do s <- get_skb in
  let p := sk_data s in
  if proto =? ETH_P_IP then
    do _ <- need (ETH_HLEN + IP_HLEN) in
    let protocol := get8 p off_ip_protocol in
    let h := Z.lxor (Z.lxor (get32 p off_ip_saddr) (get32 p off_ip_daddr)) protocol in
    tret (if is_tcp_udp protocol then hash_ports s (l4_off p) h else h)
  else
    do _ <- need 54 in
    let nexthdr := get8 p 20 in
    let h := Z.lxor (Z.lxor (Z.lxor (Z.lxor (get32_le p 22) (get32_le p 34)) (get32_le p 38)) (get32_le p 50)) nexthdr in
    tret (if is_tcp_udp nexthdr then hash_ports s 54 h else h).
Definition src_port_of (hash_val : Z) : Z :=
  let h := u32 (hash_val + u32 (Z.shiftl hash_val 3)) in
  let h := Z.lxor h (Z.shiftr h 11) in
  let h := u32 (h + u32 (Z.shiftl h 15)) in
  u16 (49152 + Z.land h 16383).

(** *** The outer headers *)
Definition off_udp : nat := ETH_HLEN + IP_HLEN.
Definition off_geneve : nat := off_udp + UDP_HLEN.
Definition off_geneve_opts : nat := off_geneve + GENEVE_HLEN.

Definition inner_dst_mac (slot : SlotItem) : list Z :=
  if is_zero_mac (si_TransitMac slot) then replicate 6 255 else si_TransitMac slot.
Definition write_inner_eth (cfg : SwitchConfig) (slot : SlotItem) (slot_id proto : Z) (off : nat) : tc unit :=
  do _ <- need (off + ETH_HLEN) in
  do _ <- write off (inner_dst_mac slot) in
  do _ <- write (off + off_h_source) (get_port_mac cfg slot_id) in
  write (off + off_h_proto) (bytes16 proto).
Definition write_outer_ip (slot : SlotItem) : tc unit :=
  do s <- get_skb in
  let tot_len := u16 (Z.of_nat (sk_len s) - 14) in
  do _ <- write 14 [69] in
  do _ <- write 15 [0] in
  do _ <- write 16 (bytes16 tot_len) in
  do _ <- write 18 [0; 0] in
  do _ <- write 20 (bytes16 16384) in
  do _ <- write 22 [64] in
  do _ <- write 23 [IPPROTO_UDP] in
  do _ <- write 24 [0; 0] in
  do _ <- write 26 (bytes32 (si_TransitIp slot)) in
  do _ <- write 30 (bytes32 (si_TransitGatewayIp slot)) in
  do s <- get_skb in
  let check := ip_checksum (drop ETH_HLEN (sk_data s)) IP_HLEN in
  write 24 [u8 check; u8 (check / 256)].                       (* stored as computed, in memory order *)
Definition write_udp (src_port dst_port : Z) : tc unit :=
  do s <- get_skb in
  do _ <- write off_udp (bytes16 src_port) in
  do _ <- write (off_udp + 2) (bytes16 dst_port) in
  do _ <- write (off_udp + 4) (bytes16 (u16 (Z.of_nat (sk_len s) - 34))) in
  write (off_udp + 6) [0; 0].
Definition write_geneve (total_opts_len proto_type vni : Z) (critical : bool) : tc unit :=
  do _ <- write off_geneve [u8 (total_opts_len / 4)] in
  do _ <- write (off_geneve + 1) [if critical then 64 else 0] in
  do _ <- write (off_geneve + 2) (bytes16 proto_type) in
  do _ <- write (off_geneve + 4) [Z.land (Z.shiftr vni 16) 255; Z.land (Z.shiftr vni 8) 255; Z.land vni 255] in
  write (off_geneve + 7) [0].
Definition write_locator (cfg : SwitchConfig) (slot_id : Z) : tc unit :=
  do _ <- need (off_geneve_opts + 4) in
  do _ <- need (off_geneve_opts + 8) in
  do _ <- write off_geneve_opts (bytes16 (sc_GeneveTlvClass cfg)) in
  do _ <- write (off_geneve_opts + 2) [sc_GeneveTlvType cfg] in
  do _ <- write (off_geneve_opts + 3) [1] in
  write (off_geneve_opts + 4) (bytes32 slot_id).
Fixpoint copy_words (n i : nat) (off : nat) (opts : list Z) : tc unit :=
  match n with
  | O => tret tt
  | S n =>
      if (length opts <=? i * 4)%nat then tret tt
      else
        do _ <- need (off + i * 4 + 4) in
        do _ <- write (off + i * 4) (take 4 (drop (i * 4) opts)) in
        copy_words n (S i) off opts
  end.

Definition nx_transit (cfg : SwitchConfig) (slot : SlotItem) (slot_id generation proto : Z) : tc verdict :=
  do s0 <- get_skb in
  if (si_TransitIfindex slot =? 0) || (si_TransitGatewayIp slot =? 0) then act TC_ACT_OK
  else
    do plan <- some_or_ok (nx_locator cfg slot slot_id) in
    do opts <- some_or_ok (nx_user_opts slot slot_id) in
    let '(user_opts, user_critical) := opts in
    let total_opts_len := lp_len plan + Z.of_nat (length user_opts) in
    if MaxGeneveOptsLen <? total_opts_len then act TC_ACT_OK
    else
      do hash_val <- flow_hash proto in
      let encap_eth := negb (sc_GeneveEncapEth cfg =? 0) in
      let encap_len := 36 + total_opts_len + (if encap_eth then 14 else 0) in
      let adj_flags := Z.lor (Z.lor BPF_F_ADJ_ROOM_ENCAP_L4_UDP BPF_F_ADJ_ROOM_ENCAP_L3_IPV4)
                             (if encap_eth then BPF_F_ADJ_ROOM_ENCAP_L2 14 else 0) in
      do s1 <- some_or_ok (bpf_skb_adjust_room s0 encap_len BPF_ADJ_ROOM_MAC adj_flags) in
      do _ <- change_skb (λ _, s1) in
      do _ <- need ETH_HLEN in
      do _ <- need off_udp in
      do _ <- need off_geneve in
      do _ <- need off_geneve_opts in
      let opts_end := (off_geneve_opts + Z.to_nat total_opts_len)%nat in
      do _ <- need opts_end in
      do _ <- write off_h_dest (sc_SwitchMac cfg) in
      do _ <- write off_h_source (sc_SwitchMac cfg) in
      do _ <- write off_h_proto (bytes16 ETH_P_IP) in
      do _ <- if encap_eth then write_inner_eth cfg slot slot_id proto opts_end else tret tt in
      do _ <- write_outer_ip slot in
      do _ <- write_udp (src_port_of hash_val) (lp_port plan) in
      let tlv := sc_GeneveLocator cfg =? 2 in
      do _ <- write_geneve total_opts_len (if encap_eth then ETH_P_TEB else proto) (lp_vni plan)
                (user_critical || tlv && negb (Z.land (sc_GeneveTlvType cfg) 128 =? 0)) in
      do _ <- if tlv then write_locator cfg slot_id else tret tt in
      do _ <- copy_words 16 0 (off_geneve_opts + (if tlv then 8 else 0)) user_opts in
      do _ <- update_stats_transit_tx slot_id generation (Z.of_nat (sk_len s0)) in
      tret (RedirectNeigh (si_TransitIfindex slot) (if sc_TransitNexthop cfg =? 0 then None else Some (sc_TransitNexthop cfg))).

(** ** tc_ingress_nx *)
Definition generation_ok (cfg : SwitchConfig) (g : Z) : bool :=
  negb (20 <? sc_GenerationBits cfg) && (g <? Z.shiftl 1 (sc_GenerationBits cfg)).
Definition tc_ingress_nx : tc verdict :=
  do _ <- need ETH_HLEN in
  do cfg <- get_config in
  do s <- get_skb in
  let p := sk_data s in
  do slot_id <- some_or_ok (m_ifindex (snd T) !! sk_ingress_ifindex s) in
  do generation <- stats_generation slot_id in
  do slot <- some_or_ok (slot_lookup slot_id) in
  if is_slot_free (si_InnerIp slot) then act TC_ACT_OK
  else
    do _ <- publication_gate slot cfg in
    if negb (generation_ok cfg (si_Generation slot)) then act TC_ACT_OK
    else
      let proto := get16 p off_h_proto in
      if proto =? ETH_P_ARP then
        do _ <- need off_ar_sha in
        do _ <- need ARP_END in
        send_arp_reply_with_mac (match match_mgmt_cidr slot (get32 p off_ar_tip) with
                                 | Some (_, mac) => mac
                                 | None => sc_SwitchMac cfg
                                 end)
      else
        do mgmt <- (if proto =? ETH_P_IP then
                      do _ <- need (ETH_HLEN + IP_HLEN) in tret (match_mgmt_cidr slot (get32 p off_ip_daddr))
                    else tret None) in
        match mgmt with
        | Some hit => nx_mgmt cfg slot slot_id generation hit
        | None =>
            if negb (proto =? ETH_P_IP) && negb (proto =? ETH_P_IPV6) then act TC_ACT_OK
            else nx_transit cfg slot slot_id generation proto
        end.

(** ** tc_ingress_mx *)
(** The slot and the generation a floating address stands for. *)
Definition floating_identity (cfg : SwitchConfig) (ip : Z) : option (Z * Z) :=
  if ip <? sc_FloatingIpBase cfg then None
  else let identity := ip - sc_FloatingIpBase cfg in Some (Z.land identity 4095, Z.shiftr identity 12).
Definition mx_arp (cfg : SwitchConfig) (tip : Z) : tc (list Z) :=
  match floating_identity cfg tip with
  | None => tret (sc_SwitchMac cfg)
  | Some (sid, gen) =>
      if 20 <? sc_GenerationBits cfg then act TC_ACT_OK
      else if (gen <? Z.shiftl 1 (sc_GenerationBits cfg)) && (sid <? sc_N_ports cfg) then
        match slot_lookup sid with
        | Some slot =>
            if (si_Generation slot =? gen) && negb (is_slot_free (si_InnerIp slot))
            then do _ <- publication_gate slot cfg in tret (get_port_mac cfg sid)
            else tret (sc_SwitchMac cfg)
        | None => tret (sc_SwitchMac cfg)
        end
      else tret (sc_SwitchMac cfg)
  end.
Definition mx_ip (cfg : SwitchConfig) : tc verdict :=
  do _ <- need (ETH_HLEN + IP_HLEN) in
  do s <- get_skb in
  let p := sk_data s in
  do id <- some_or_ok (floating_identity cfg (get32 p off_ip_daddr)) in
  let '(slot_id, gen) := id in
  if negb (generation_ok cfg gen) || (sc_N_ports cfg <=? slot_id) then act TC_ACT_OK
  else
    do generation <- stats_generation slot_id in
    do slot <- some_or_ok (slot_lookup slot_id) in
    if negb (si_Generation slot =? gen) || is_slot_free (si_InnerIp slot) || (si_Ifindex slot =? 0) then act TC_ACT_OK
    else
      do _ <- publication_gate slot cfg in
      let protocol := get8 p off_ip_protocol in
      let l4 := l4_off p in
      let svc := svc_lookup (m_rev (snd T)) s (get32 p off_ip_saddr) 0 in
      do _ <- rewrite_addr off_ip_daddr l4 protocol (get32 p off_ip_daddr) (si_InnerIp slot) in
      do _ <- rewrite_svc off_ip_saddr l4 0 protocol (get32 p off_ip_saddr) svc in
      do _ <- rewrite_macs (get_port_mac cfg slot_id) (sc_SwitchMac cfg) in
      do s' <- get_skb in
      do _ <- update_stats_mgmt_rx slot_id generation (Z.of_nat (sk_len s')) in
      tret (Redirect (si_Ifindex slot)).
Definition tc_ingress_mx : tc verdict :=
  do _ <- need ETH_HLEN in
  do cfg <- get_config in
  do s <- get_skb in
  let p := sk_data s in
  if get16 p off_h_proto =? ETH_P_ARP then
    do _ <- need off_ar_sha in
    do _ <- need ARP_END in
    do mac <- mx_arp cfg (get32 p off_ar_tip) in
    send_arp_reply_with_mac mac
  else if negb (get16 p off_h_proto =? ETH_P_IP) then act TC_ACT_OK
  else mx_ip cfg.

(** ** tc_ingress_transit *)
(** The slot and the VNI a return packet names, by the locator of the switch. *)
Definition transit_locator (cfg : SwitchConfig) (p : list Z) : tc (Z * Z) :=
  let opt_len := Z.land (get8 p off_geneve) 63 * 4 in
  let critical := negb (Z.land (get8 p (off_geneve + 1)) 64 =? 0) in
  let dst_port := get16 p (off_udp + 2) in
  let wire_vni := Z.lor (Z.lor (Z.shiftl (get8 p (off_geneve + 4)) 16) (Z.shiftl (get8 p (off_geneve + 5)) 8)) (get8 p (off_geneve + 6)) in
  if sc_GeneveLocator cfg =? 0 then
    if negb (opt_len =? 0) || critical || (dst_port <? sc_GenevePortBase cfg) then act TC_ACT_OK
    else tret (dst_port - sc_GenevePortBase cfg, wire_vni)
  else if sc_GeneveLocator cfg =? 1 then
    if negb (dst_port =? GenevePort) || negb (opt_len =? 0) || critical then act TC_ACT_OK
    else tret (Z.shiftr wire_vni GeneveVNILocatorBits, Z.land wire_vni GeneveVNIValueMask)
  else if sc_GeneveLocator cfg =? 2 then
    if negb (dst_port =? GenevePort) || negb (opt_len =? GENEVE_TLV_LOCATOR_LEN) then act TC_ACT_OK
    else
      do _ <- need (off_geneve_opts + 4) in
      do _ <- need (off_geneve_opts + 8) in
      let type := get8 p (off_geneve_opts + 2) in
      let rsvd_len := get8 p (off_geneve_opts + 3) in
      if negb (get16 p off_geneve_opts =? sc_GeneveTlvClass cfg) || negb (type =? sc_GeneveTlvType cfg)
         || negb (Z.land rsvd_len 224 =? 0) || negb (Z.land rsvd_len 31 =? 1)
      then act TC_ACT_OK
      else if negb (Bool.eqb critical (negb (Z.land type 128 =? 0))) then act TC_ACT_OK
      else tret (get32 p (off_geneve_opts + 4), wire_vni)
  else act TC_ACT_OK.

Definition transit_deliver (cfg : SwitchConfig) (slot : SlotItem) (slot_id generation : Z) : tc verdict :=
  do s <- get_skb in
  let p := sk_data s in
  let opt_len := (Z.to_nat (Z.land (get8 p off_geneve) 63) * 4)%nat in
  let inner_proto := get16 p (off_geneve + 2) in
  let is_eth := inner_proto =? ETH_P_TEB in
  let opts_end := (off_geneve_opts + opt_len)%nat in
  let decap_len := (36 + opt_len + (if is_eth then 14 else 0))%nat in
  do h_proto <- (if is_eth then do _ <- need (opts_end + ETH_HLEN) in tret (get16 p (opts_end + off_h_proto))
                 else tret inner_proto) in
  if (sk_len s <=? ETH_HLEN + decap_len)%nat then act TC_ACT_OK
  else
    do s' <- some_or_ok (bpf_skb_adjust_room s (- Z.of_nat decap_len) BPF_ADJ_ROOM_MAC 0) in
    do _ <- change_skb (λ _, s') in
    do _ <- rewrite_macs (get_port_mac cfg slot_id) (sc_SwitchMac cfg) in
    do _ <- write off_h_proto (bytes16 h_proto) in
    do _ <- update_stats_transit_rx slot_id generation (Z.of_nat (sk_len s - decap_len)) in
    tret (Redirect (si_Ifindex slot)).

Definition tc_ingress_transit : tc verdict :=
  do s0 <- get_skb in
  do s <- some_or_ok (bpf_skb_pull_data s0 (if (sk_len s0 <? 128)%nat then sk_len s0 else 128%nat)) in
  do _ <- change_skb (λ _, s) in
  let p := sk_data s in
  do _ <- need ETH_HLEN in
  if negb (get16 p off_h_proto =? ETH_P_IP) then act TC_ACT_OK
  else
    do _ <- need off_udp in
    if negb (ip_ihl p =? 5)%nat || negb (get8 p off_ip_protocol =? IPPROTO_UDP) then act TC_ACT_OK
    else
      do _ <- need off_geneve in
      do cfg <- get_config in
      do _ <- need off_geneve_opts in
      if negb (Z.shiftr (get8 p off_geneve) 6 =? 0) then act TC_ACT_OK
      else if MaxGeneveOptsLen <? Z.land (get8 p off_geneve) 63 * 4 then act TC_ACT_OK
      else
        do found <- transit_locator cfg p in
        let '(slot_id, received_vni) := found in
        if sc_N_ports cfg <=? slot_id then act TC_ACT_OK
        else
          do generation <- stats_generation slot_id in
          do slot <- some_or_ok (slot_lookup slot_id) in
          if is_slot_free (si_InnerIp slot) || (si_Ifindex slot =? 0) then act TC_ACT_OK
          else
            do _ <- publication_gate slot cfg in
            if negb (get32 p off_ip_saddr =? si_TransitGatewayIp slot) || negb (received_vni =? si_TransitGeneveVni slot)
            then act TC_ACT_OK
            else transit_deliver cfg slot slot_id generation.
End programs.

(** The verdict of a program, its packet and its counters. *)
Definition run_tc (p : tc verdict) (s : skb) (stats : gmap Z SlotStats) : verdict * tc_state :=
  match p (MkTc s stats) with (inl v, s') => (v, s') | (inr v, s') => (v, s') end.
