(* ===== verification/NatSpec.v ===== *)
(** * Address translation on the management plane

    What the two programs on the management path do to an IPv4 frame: which
    fields they replace, that nothing else changes, and that a frame with valid
    checksums leaves with valid checksums. *)
From S2P Require Import Prelude Errors GoStrings GoNet BpfTypes Packet Skb Prog Maps Datapath.

(** ** IPv4 frames and their checksums *)
Definition ip_end (p : list Z) : nat := ETH_HLEN + Z.to_nat (get16 p 16).
Definition l3_sum (p : list Z) : Z := words_sum (segment ETH_HLEN (l4_off p) p).
(** The pseudo header and the transport segment (RFC 768, RFC 9293). *)
Definition l4_sum (p : list Z) : Z :=
  sum32 (get32 p off_ip_saddr) + sum32 (get32 p off_ip_daddr) + get8 p off_ip_protocol +
  Z.of_nat (ip_end p - l4_off p) + words_sum (segment (l4_off p) (ip_end p) p).
Definition l3_ok (p : list Z) : Prop := l3_sum p ≡₁ 0.
Definition l4_ok (p : list Z) : Prop :=
  (get8 p off_ip_protocol = IPPROTO_TCP → l4_sum p ≡₁ 0) ∧
  (get8 p off_ip_protocol = IPPROTO_UDP → get16 p (l4_off p + 6) = 0 ∨ l4_sum p ≡₁ 0).

(** A frame whose headers are well formed and accessible. *)
Record ipv4_frame (s : skb) : Prop := {
  if_bytes : bytes (sk_data s);
  if_ihl : (5 ≤ ip_ihl (sk_data s))%nat;
  if_end : (ip_end (sk_data s) ≤ sk_len s)%nat;
  if_l4 : (l4_off (sk_data s) ≤ ip_end (sk_data s))%nat;
  if_tcp : get8 (sk_data s) off_ip_protocol = IPPROTO_TCP → (l4_off (sk_data s) + 20 ≤ ip_end (sk_data s))%nat;
  if_udp : get8 (sk_data s) off_ip_protocol = IPPROTO_UDP → (l4_off (sk_data s) + 8 ≤ ip_end (sk_data s))%nat;
  if_linear : (l4_off (sk_data s) + (if is_tcp_udp (get8 (sk_data s) off_ip_protocol) then 8 else 0) ≤ sk_linear s)%nat;
}.

(** *** Changes of single bytes *)
Definition touches (f : nat → Prop) (p p' : list Z) : Prop :=
  length p' = length p ∧ (bytes p → bytes p') ∧ ∀ i, ¬ f i → get8 p' i = get8 p i.
Definition range (off n : nat) (i : nat) : Prop := (off ≤ i < off + n)%nat.
Lemma touches_refl f p : touches f p p.
Proof. by split_and!. Qed.
Lemma touches_trans f g p1 p2 p3 : touches f p1 p2 → touches g p2 p3 → touches (λ i, f i ∨ g i) p1 p3.
Proof.
  intros (L1 & B1 & R1) (L2 & B2 & R2). split_and!; [congruence|auto|].
  intros i Hi. rewrite R2 by tauto. apply R1. tauto.
Qed.
Lemma touches_weaken f g p p' : (∀ i, f i → g i) → touches f p p' → touches g p p'.
Proof. intros H (L & B & R). split_and!; [done|done|]. intros i Hi. apply R. auto. Qed.
Lemma touches_splice off bs p : bytes bs → (off + length bs ≤ length p)%nat → touches (range off (length bs)) p (splice off bs p).
Proof.
  intros Hb Hl. split_and!; [by apply length_splice|intros; by apply bytes_splice|]. intros i Hi. by apply get8_splice_ne.
Qed.
Lemma get16_touches f p p' i : touches f p p' → ¬ f i → ¬ f (i + 1)%nat → get16 p' i = get16 p i.
Proof. intros (_ & _ & R) H1 H2. unfold get16. by rewrite !R. Qed.
Lemma get32_touches f p p' i :
  touches f p p' → (∀ k, (k < 4)%nat → ¬ f (i + k)%nat) → get32 p' i = get32 p i.
Proof.
  intros Ht H. unfold get32. pose proof (H 0%nat). pose proof (H 1%nat). pose proof (H 2%nat). pose proof (H 3%nat).
  rewrite Nat.add_0_r in *. rewrite !(get16_touches f p p'); try done; try (by auto with lia).
  all: replace (i + 2 + 1)%nat with (i + 3)%nat by lia; auto with lia.
Qed.

(** The header fields the programs never touch. *)
Definition not_shape (i : nat) : Prop := (i < 12 ∨ 24 ≤ i)%nat.
Lemma shape_touches f p p' : touches f p p' → (∀ i, f i → not_shape i) →
  get16 p' 12 = get16 p 12 ∧ ip_ihl p' = ip_ihl p ∧ l4_off p' = l4_off p ∧ get16 p' 16 = get16 p 16 ∧
  ip_end p' = ip_end p ∧ get8 p' off_ip_protocol = get8 p off_ip_protocol.
Proof.
  intros Ht Hf. assert (∀ i, (12 ≤ i < 24)%nat → ¬ f i) as Hn by (intros i Hi Hfi; apply Hf in Hfi; unfold not_shape in Hfi; lia).
  assert (E16 : get16 p' 16 = get16 p 16) by (eapply get16_touches; [done|apply Hn; lia..]).
  assert (Eih : ip_ihl p' = ip_ihl p) by (unfold ip_ihl; destruct Ht as (_ & _ & R); rewrite R; [done|apply Hn; unfold off_ip_verihl; lia]).
  split_and!; try done.
  - eapply get16_touches; [done|apply Hn; lia..].
  - unfold l4_off. by rewrite Eih.
  - unfold ip_end. by rewrite E16.
  - destruct Ht as (_ & _ & R). apply R, Hn. unfold off_ip_protocol. lia.
Qed.
Lemma ipv4_frame_touches f s s' : ipv4_frame s → same_frame s s' → touches f (sk_data s) (sk_data s') → (∀ i, f i → not_shape i) →
  ipv4_frame s'.
Proof.
  intros [] [_ Hlin] Ht Hf. destruct (shape_touches _ _ _ Ht Hf) as (_ & E1 & E2 & _ & E3 & E4). destruct Ht as (L & B & _).
  split; unfold sk_len in *; rewrite ?E1, ?E2, ?E3, ?E4, ?L; auto; lia.
Qed.

(** *** How a write moves the sums *)
Section sums.
Context (p : list Z) (Hb : bytes p) (Hihl : (5 ≤ ip_ihl p)%nat) (Hend : (ip_end p ≤ length p)%nat) (Hl4 : (l4_off p ≤ ip_end p)%nat).

Lemma splice_shape off bs : bytes bs → (24 ≤ off)%nat → (off + length bs ≤ length p)%nat →
  let q := splice off bs p in
  ip_ihl q = ip_ihl p ∧ l4_off q = l4_off p ∧ ip_end q = ip_end p ∧ get8 q off_ip_protocol = get8 p off_ip_protocol.
Proof.
  intros Hbs H1 H2 q. destruct (shape_touches (range off (length bs)) p q) as (_ & ? & ? & _ & ? & ?); [by apply touches_splice| |done].
  unfold range, not_shape. lia.
Qed.
Lemma l4_off_ge : (34 ≤ l4_off p)%nat.
Proof. clear Hend Hl4. unfold l4_off, ETH_HLEN. lia. Qed.
Lemma l4_even k : Nat.Even (l4_off p + k) ↔ Nat.Even k.
Proof. clear Hend Hl4. unfold l4_off, ETH_HLEN. split; intros [m Hm]; [exists (m - 7 - 2 * ip_ihl p)%nat|exists (m + 7 + 2 * ip_ihl p)%nat]; lia. Qed.

Lemma l3_sum_in off bs : bytes bs → (24 ≤ off)%nat → (off + length bs ≤ l4_off p)%nat → Nat.Even off → Nat.Even (length bs) →
  l3_sum (splice off bs p) = l3_sum p - words_sum (segment off (off + length bs) p) + words_sum bs.
Proof.
  intros Hbs H1 H2 [k Hk] He. unfold l3_sum. destruct (splice_shape off bs) as (_ & -> & _ & _); [done..|lia|].
  apply sum_splice; unfold ETH_HLEN; try lia; [|done]. exists (k - 7)%nat. lia.
Qed.
Lemma l3_sum_out off bs : bytes bs → (l4_off p ≤ off)%nat → (off + length bs ≤ length p)%nat → l3_sum (splice off bs p) = l3_sum p.
Proof.
  intros Hbs H1 H2. unfold l3_sum. pose proof l4_off_ge. destruct (splice_shape off bs) as (_ & -> & _ & _); [done|lia..|].
  rewrite segment_out; [done|done|lia].
Qed.
Lemma l4_sum_in off bs : bytes bs → (l4_off p ≤ off)%nat → (off + length bs ≤ ip_end p)%nat → Nat.Even off → Nat.Even (length bs) →
  l4_sum (splice off bs p) = l4_sum p - words_sum (segment off (off + length bs) p) + words_sum bs.
Proof.
  intros Hbs H1 H2 He1 He2. unfold l4_sum. pose proof l4_off_ge as Hge.
  destruct (splice_shape off bs) as (_ & -> & -> & ->); [done|lia..|].
  rewrite sum_splice; [|lia|lia|lia| |done].
  - unfold get32. rewrite !get16_splice by (unfold off_ip_saddr, off_ip_daddr; lia). lia.
  - apply (l4_even (off - l4_off p)). by replace (l4_off p + (off - l4_off p))%nat with off by lia.
Qed.
Lemma l4_sum_check c : l4_sum (splice off_ip_check (bytes16 c) p) = l4_sum p.
Proof.
  unfold l4_sum. pose proof l4_off_ge as Hge. unfold off_ip_check.
  destruct (splice_shape 24 (bytes16 c)) as (_ & -> & -> & ->); [apply bytes16_ok|simpl; lia..|].
  rewrite segment_out by (simpl; lia). unfold get32, off_ip_saddr, off_ip_daddr. by rewrite !get16_splice by (simpl; lia).
Qed.
(** The two addresses. *)
Definition other_addr (off : nat) : nat := if (off =? off_ip_saddr)%nat then off_ip_daddr else off_ip_saddr.
Definition is_addr (off : nat) : Prop := off = off_ip_saddr ∨ off = off_ip_daddr.
Lemma l4_sum_addr off to : is_addr off → is_u32 to →
  l4_sum (splice off (bytes32 to) p) = l4_sum p - sum32 (get32 p off) + sum32 to.
Proof.
  intros Ho Hto. pose proof l4_off_ge as Hge. unfold is_addr, off_ip_saddr, off_ip_daddr in Ho.
  assert (Hf : get32 (splice off (bytes32 to) p) off = to) by (apply get32_splice_eq; [done|lia]).
  assert (Ht : get32 (splice off (bytes32 to) p) (other_addr off) = get32 p (other_addr off)).
  { unfold get32, other_addr, off_ip_saddr, off_ip_daddr. destruct Ho as [-> | ->]; simpl; by rewrite !get16_splice by (simpl; lia). }
  unfold l4_sum. destruct (splice_shape off (bytes32 to)) as (_ & -> & -> & ->); [apply bytes32_ok|simpl; lia..|].
  rewrite segment_out by (simpl; lia). unfold other_addr in Ht.
  destruct Ho as [-> | ->]; unfold off_ip_saddr, off_ip_daddr in *; cbn [Nat.eqb] in Ht; rewrite Hf, Ht; lia.
Qed.
End sums.

(** ** The helpers, on such frames *)
Section steps.
Context `{BpfHelpersOk}.

(** The transport checksum field. *)
Definition csum_off (p : list Z) : nat :=
  if get8 p off_ip_protocol =? IPPROTO_UDP then l4_off p + 6 else l4_off p + 16.
Definition fixes (f : nat → Prop) (s s' : skb) : Prop :=
  same_frame s s' ∧ touches f (sk_data s) (sk_data s') ∧ ipv4_frame s'.
Lemma fixes_trans f g s1 s2 s3 : fixes f s1 s2 → fixes g s2 s3 → fixes (λ i, f i ∨ g i) s1 s3.
Proof. intros (F1 & T1 & W1) (F2 & T2 & W2). split_and!; [by etrans|by eapply touches_trans|done]. Qed.
Lemma fixes_weaken f g s s' : (∀ i, f i → g i) → fixes f s s' → fixes g s s'.
Proof. intros Hfg (? & ? & ?). split_and!; [done|by eapply touches_weaken|done]. Qed.
Lemma fixes_splice s s' off bs : ipv4_frame s → same_frame s s' → sk_data s' = splice off bs (sk_data s) →
  bytes bs → (24 ≤ off)%nat → (off + length bs ≤ sk_len s)%nat → fixes (range off (length bs)) s s'.
Proof.
  intros Hf Hs E Hbs H1 H2. assert (touches (range off (length bs)) (sk_data s) (sk_data s')) as Ht by (rewrite E; by apply touches_splice).
  split_and!; [done|done|]. eapply ipv4_frame_touches; [done..|]. unfold range, not_shape. lia.
Qed.

(** One side's address, and the header checksum. *)
Lemma addr_and_l3 s off to : ipv4_frame s → is_addr off → is_u32 to →
  let s' := bpf_l3_csum_replace (bpf_skb_store_bytes s off (bytes32 to)) off_ip_check (get32 (sk_data s) off) to 4 in
  fixes (λ i, range off 4 i ∨ range off_ip_check 2 i) s s' ∧ get32 (sk_data s') off = to ∧
  l3_sum (sk_data s') ≡₁ l3_sum (sk_data s) ∧
  l4_sum (sk_data s') = l4_sum (sk_data s) - sum32 (get32 (sk_data s) off) + sum32 to.
Proof.
  intros Hf Ho Hto. set (s1 := bpf_skb_store_bytes _ _ _). set (p := sk_data s).
  pose proof Hf as [Hb Hi He Hl _ _ _]. fold p in Hb, Hi, He, Hl. change (sk_len s) with (length p) in He.
  pose proof (l4_off_ge p Hi) as Hge. assert (26 ≤ off ∧ off + 4 ≤ 34)%nat as [Ho1 Ho2] by (unfold is_addr, off_ip_saddr, off_ip_daddr in Ho; lia).
  destruct (store_bytes_ok s off (bytes32 to)) as [E1 F1]; [change (sk_len s) with (length p); simpl; lia|]. fold s1 in E1, F1. fold p in E1.
  assert (Hfix1 : fixes (range off 4) s s1) by (apply (fixes_splice _ _ off (bytes32 to)); try done; [apply bytes32_ok|lia|change (sk_len s) with (length p); simpl; lia]).
  assert (Hlen1 : length (sk_data s1) = length p) by apply Hfix1.
  destruct (l3_csum_ok s1 off_ip_check (get32 p off) to 4) as [(c & Hc & E2 & Hcc) F2]; [unfold off_ip_check, sk_len; lia|by exists 12%nat|by right|].
  set (s2 := bpf_l3_csum_replace _ _ _ _ _) in *.
  assert (Hfix2 : fixes (range off_ip_check 2) s1 s2).
  { apply (fixes_splice _ _ off_ip_check (bytes16 c)); try done; [apply Hfix1|apply bytes16_ok|unfold off_ip_check, sk_len; simpl; lia]. }
  destruct Hfix1 as (G1 & T1 & W1). pose proof W1 as [Hb1 Hi1 He1 Hl1 _ _ _]. pose proof (l4_off_ge _ Hi1) as Hge1.
  destruct (shape_touches _ _ _ T1) as (_ & _ & El4 & _ & Eend & _); [unfold range, not_shape; lia|].
  split_and!.
  - eapply fixes_trans; [split_and!; [exact G1|exact T1|exact W1]|done].
  - rewrite E2. unfold get32, off_ip_check. rewrite !get16_splice by (simpl; lia). fold (get32 (sk_data s1) off).
    rewrite E1. apply get32_splice_eq; [done|lia].
  - assert (get16 (sk_data s1) 24 = get16 p 24) as E24.
    { eapply get16_touches; [done|unfold range..]; lia. }
    rewrite E2, l3_sum_in by (first [done|apply bytes16_ok|by exists 12%nat|by exists 1%nat|unfold off_ip_check; simpl; lia]).
    rewrite E1, l3_sum_in; [|done|done|done|apply bytes32_ok|lia|simpl; lia| |by exists 2%nat].
    2:{ unfold is_addr, off_ip_saddr, off_ip_daddr in Ho. destruct Ho as [-> | ->]; [by exists 13%nat|by exists 15%nat]. }
    rewrite <-E1. simpl length. rewrite (sum_segment16 off_ip_check), (sum_segment32 off p Hb), words_sum_bytes16, words_sum_bytes32 by done.
    unfold off_ip_check in *. rewrite E24 in *. change (csum_words 4 ?v) with (sum32 v) in Hcc. rewrite Hcc. apply eqm_iff. exists 0. lia.
  - rewrite E2, l4_sum_check by done. rewrite E1. by apply l4_sum_addr.
Qed.

(** The transport checksum moves the sum by what it was told. *)
Lemma l4_csum_step s off from to flags : ipv4_frame s → Z.land flags 15 = 2 ∨ Z.land flags 15 = 4 →
  (l4_off (sk_data s) ≤ off)%nat → (off + 2 ≤ ip_end (sk_data s))%nat → Nat.Even off →
  let s' := bpf_l4_csum_replace s off from to flags in
  fixes (range off 2) s s' ∧ l3_sum (sk_data s') = l3_sum (sk_data s) ∧
  l4_sum (sk_data s') ≡₁ l4_sum (sk_data s) + csum_words (Z.land flags 15) from - csum_words (Z.land flags 15) to.
Proof.
  intros Hf Hsize Ho1 Ho2 Heven s'. pose proof Hf as [Hb Hi He Hl _ _ _]. unfold sk_len in He.
  pose proof (l4_off_ge _ Hi) as Hge.
  destruct (l4_csum_ok s off from to flags) as [(c & Hc & E & Hcc) F]; [unfold sk_len; lia|done|done|]. fold s' in E, F.
  split_and!.
  - apply (fixes_splice _ _ off (bytes16 c)); try done; [apply bytes16_ok|lia|unfold sk_len; simpl; lia].
  - rewrite E. apply l3_sum_out; first [done|apply bytes16_ok|simpl; lia].
  - rewrite E, l4_sum_in by first [done|apply bytes16_ok|by exists 1%nat|simpl; lia].
    change (length (bytes16 c)) with 2%nat. rewrite sum_segment16, words_sum_bytes16 by done. rewrite Hcc. apply eqm_iff. exists 0. lia.
Qed.

(** What a fix of the transport checksum is for: the sum moves by [d], unless a
    datagram carries no checksum, or one that came out as none. *)
Definition moved (s s' : skb) (d : Z) : Prop :=
  (get8 (sk_data s) off_ip_protocol = IPPROTO_TCP → l4_sum (sk_data s') ≡₁ l4_sum (sk_data s) + d) ∧
  (get8 (sk_data s) off_ip_protocol = IPPROTO_UDP →
     get16 (sk_data s') (l4_off (sk_data s) + 6) = 0 ∨
     get16 (sk_data s) (l4_off (sk_data s) + 6) ≠ 0 ∧ l4_sum (sk_data s') ≡₁ l4_sum (sk_data s) + d).

Lemma csum_field s : ipv4_frame s → is_tcp_udp (get8 (sk_data s) off_ip_protocol) = true →
  (l4_off (sk_data s) ≤ csum_off (sk_data s))%nat ∧ (csum_off (sk_data s) + 2 ≤ ip_end (sk_data s))%nat ∧ Nat.Even (csum_off (sk_data s)).
Proof.
  intros [_ Hi _ _ Ht Hu _] Hp. unfold csum_off. unfold is_tcp_udp in Hp.
  destruct (Z.eqb_spec (get8 (sk_data s) off_ip_protocol) IPPROTO_UDP) as [Eu|Eu]; cbn [orb] in Hp.
  - apply Hu in Eu. split_and!; [lia|lia|]. apply l4_even; [done|]. by exists 3%nat.
  - apply Z.eqb_eq, Ht in Hp. split_and!; [lia|lia|]. apply l4_even; [done|]. by exists 8%nat.
Qed.
Lemma udp_accessible s : ipv4_frame s → get8 (sk_data s) off_ip_protocol = IPPROTO_UDP →
  udp_has_csum (l4_off (sk_data s)) s = negb (get16 (sk_data s) (l4_off (sk_data s) + 6) =? 0).
Proof.
  intros [_ _ _ _ _ _ Hl] Hp. rewrite Hp in Hl. change (is_tcp_udp IPPROTO_UDP) with true in Hl. unfold udp_has_csum, UDP_HLEN.
  by rewrite (proj2 (Nat.leb_le (l4_off (sk_data s) + 8) (sk_linear s))).
Qed.
Lemma fixes_refl f s : ipv4_frame s → fixes f s s.
Proof. intros. split_and!; [apply same_frame_refl|apply touches_refl|done]. Qed.

(** *** Composition *)
Definition fine (f : nat → Prop) : Prop := ∀ i, f i → not_shape i.
Lemma moved_trans f s1 s2 s3 d1 d2 : touches f (sk_data s1) (sk_data s2) → fine f →
  moved s1 s2 d1 → moved s2 s3 d2 → moved s1 s3 (d1 + d2).
Proof.
  intros Ht Hf [M1 N1] [M2 N2]. destruct (shape_touches _ _ _ Ht Hf) as (_ & _ & E1 & _ & _ & E2).
  rewrite E2, E1 in *. split.
  - intros Hp. rewrite (M2 Hp), (M1 Hp). by rewrite Z.add_assoc.
  - intros Hp. destruct (N2 Hp) as [?|[H1 H2]]; [by left|]. destruct (N1 Hp) as [?|[H3 H4]]; [done|].
    right. split; [done|]. rewrite H2, H4. by rewrite Z.add_assoc.
Qed.
(** A change that is not to the transport checksum. *)
Lemma moved_exact f s s' d : touches f (sk_data s) (sk_data s') → (∀ i, f i → ¬ range (l4_off (sk_data s) + 6) 2 i) →
  l4_sum (sk_data s') = l4_sum (sk_data s) + d → moved s s' d.
Proof.
  intros Ht Hf E. split; [by rewrite E|]. intros _. rewrite E.
  rewrite (get16_touches f (sk_data s)) by first [done|intros Hi; apply Hf in Hi; unfold range in Hi; lia].
  destruct (decide (get16 (sk_data s) (l4_off (sk_data s) + 6) = 0)); [by left|by right].
Qed.
Lemma moved_l4_ok f s s' : touches f (sk_data s) (sk_data s') → fine f → moved s s' 0 → l4_ok (sk_data s) → l4_ok (sk_data s').
Proof.
  intros Ht Hf [M N] [O P]. destruct (shape_touches _ _ _ Ht Hf) as (_ & _ & E1 & _ & _ & E2). unfold l4_ok.
  rewrite E1, E2. split.
  - intros Hp. rewrite (M Hp), (O Hp). by rewrite Z.add_0_r.
  - intros Hp. destruct (N Hp) as [?|[H1 H2]]; [by left|]. right. destruct (P Hp) as [?|H3]; [done|]. by rewrite H2, H3.
Qed.

(** Part of a rewrite: the bytes it may change, and by how much the sum of the
    transport segment moves. *)
Record part (f : nat → Prop) (d : Z) (s s' : skb) : Prop := {
  pa_fixes : fixes f s s';
  pa_fine : fine f;
  pa_l3 : l3_sum (sk_data s') ≡₁ l3_sum (sk_data s);
  pa_moved : moved s s' d;
}.
Lemma part_trans f g d1 d2 s1 s2 s3 : part f d1 s1 s2 → part g d2 s2 s3 → part (λ i, f i ∨ g i) (d1 + d2) s1 s3.
Proof.
  intros [F1 N1 L1 M1] [F2 N2 L2 M2]. split.
  - by eapply fixes_trans.
  - intros i [Hi|Hi]; auto.
  - by rewrite L2.
  - eapply moved_trans; [apply F1|done..].
Qed.
Lemma part_shape f d s s' : part f d s s' → get16 (sk_data s') 12 = get16 (sk_data s) 12 ∧ l4_off (sk_data s') = l4_off (sk_data s) ∧
  ip_end (sk_data s') = ip_end (sk_data s) ∧ get8 (sk_data s') off_ip_protocol = get8 (sk_data s) off_ip_protocol.
Proof. intros [(_ & Ht & _) Hf _ _]. destruct (shape_touches _ _ _ Ht Hf) as (? & _ & ? & _ & ? & ?). done. Qed.
Lemma part_refl s : ipv4_frame s → part (λ _, False) 0 s s.
Proof.
  intros Hs. split; [by apply fixes_refl|by intros ? []|done|]. eapply (moved_exact (λ _, False)); [apply touches_refl|done|lia].
Qed.

(** *** The two rewrites *)
(** The port at [l4 + port_off], a word of the transport header before its
    checksum. *)
Definition port_at (port_off : nat) : Prop := port_off = 0%nat ∨ port_off = 2%nat.

Definition csum_range (p : list Z) (i : nat) : Prop := is_tcp_udp (get8 p off_ip_protocol) = true ∧ range (csum_off p) 2 i.
Lemma csum_range_fine s : ipv4_frame s → fine (csum_range (sk_data s)).
Proof.
  intros Hs i [_ Hi]. pose proof (l4_off_ge _ (if_ihl s Hs)). unfold csum_off, range, not_shape in *.
  destruct (_ =? IPPROTO_UDP); lia.
Qed.

Lemma moved_neutral s s' d : ipv4_frame s → is_tcp_udp (get8 (sk_data s) off_ip_protocol) = false → moved s s' d.
Proof.
  intros _ Hp. unfold moved. unfold is_tcp_udp in Hp. apply orb_false_iff in Hp as [H1%Z.eqb_neq H2%Z.eqb_neq]. by split.
Qed.
Lemma run_l4_addr_fix s st from to : ipv4_frame s →
  ∃ s', l4_addr_fix (l4_off (sk_data s)) (get8 (sk_data s) off_ip_protocol) from to (MkTc s st) = (inr tt, MkTc s' st) ∧
    part (csum_range (sk_data s)) (sum32 from - sum32 to) s s'.
Proof.
  intros Hf. unfold l4_addr_fix. set (F := csum_range (sk_data s)). assert (HF : fine F) by by apply csum_range_fine.
  assert (Hnone : moved s s (sum32 from - sum32 to) → part F (sum32 from - sum32 to) s s).
  { intros. by split; [apply fixes_refl| | |]. }
  assert (Hstep : is_tcp_udp (get8 (sk_data s) off_ip_protocol) = true →
    (get8 (sk_data s) off_ip_protocol = IPPROTO_UDP → get16 (sk_data s) (l4_off (sk_data s) + 6) ≠ 0) →
    part F (sum32 from - sum32 to) s (bpf_l4_csum_replace s (csum_off (sk_data s)) from to addr_flags)).
  { intros Hp Hne. destruct (csum_field s Hf Hp) as (H1 & H2 & H3).
    destruct (l4_csum_step s (csum_off (sk_data s)) from to addr_flags) as (Hx & Hl3 & Hl4); try done; [by right|].
    assert (Hd : l4_sum (sk_data (bpf_l4_csum_replace s (csum_off (sk_data s)) from to addr_flags)) ≡₁ l4_sum (sk_data s) + (sum32 from - sum32 to)).
    { rewrite Hl4. apply eqm_iff. exists 0. change (csum_words (Z.land addr_flags 15)) with sum32. lia. }
    split; [by eapply fixes_weaken; [|exact Hx]|done|by rewrite Hl3|]. split; [done|]. intros Hu. right. by split; [apply Hne|]. }
  destruct (Z.eqb_spec (get8 (sk_data s) off_ip_protocol) IPPROTO_UDP) as [Eu|Eu].
  - unfold tbind, get_skb. cbn [tc_skb]. rewrite udp_accessible by done.
    assert (csum_off (sk_data s) = (l4_off (sk_data s) + 6)%nat) as Eo by (unfold csum_off; by rewrite Eu).
    destruct (Z.eqb_spec (get16 (sk_data s) (l4_off (sk_data s) + 6)) 0) as [Ec|Ec]; cbn [negb].
    + exists s. split; [done|]. apply Hnone. split; [by rewrite Eu|by left].
    + rewrite <-Eo. eexists. split; [reflexivity|]. apply Hstep; [by rewrite Eu|done].
  - assert (csum_off (sk_data s) = (l4_off (sk_data s) + 16)%nat) as Eo.
    { unfold csum_off. by rewrite (proj2 (Z.eqb_neq _ _)). }
    destruct (Z.eqb_spec (get8 (sk_data s) off_ip_protocol) IPPROTO_TCP) as [Et|Et].
    + rewrite <-Eo. eexists. split; [reflexivity|]. apply Hstep; [by rewrite Et|done].
    + exists s. split; [done|]. apply Hnone, moved_neutral; [done|]. unfold is_tcp_udp. apply orb_false_iff. split; by apply Z.eqb_neq.
Qed.

(** The address of one side. *)
Definition addr_range (p : list Z) (off i : nat) : Prop := (range off 4 i ∨ range off_ip_check 2 i) ∨ csum_range p i.
Lemma part_csum_range f d s s' i : part f d s s' → csum_range (sk_data s') i ↔ csum_range (sk_data s) i.
Proof. intros (_ & E1 & _ & E2)%part_shape. unfold csum_range, csum_off. by rewrite E1, E2. Qed.
Lemma part_weaken f g d s s' : (∀ i, f i ↔ g i) → part f d s s' → part g d s s'.
Proof.
  intros Hfg [F N L M]. split; [eapply fixes_weaken; [|done]; apply Hfg| |done|done]. intros i Hi. by apply N, Hfg.
Qed.
Lemma part_eq f d d' s s' : d = d' → part f d s s' → part f d' s s'.
Proof. by intros ->. Qed.
Lemma csum_range_ge s i : ipv4_frame s → csum_range (sk_data s) i → (38 ≤ i)%nat.
Proof.
  intros Hs [_ Hi]. pose proof (l4_off_ge _ (if_ihl s Hs)). unfold csum_off, range in *. destruct (_ =? IPPROTO_UDP); lia.
Qed.
Lemma part_frame f d s s' : part f d s s' → ipv4_frame s'.
Proof. by intros [(_ & _ & ?) _ _ _]. Qed.
Lemma part_get32 f d s s' off : part f d s s' → (∀ k, (k < 4)%nat → ¬ f (off + k)%nat) → get32 (sk_data s') off = get32 (sk_data s) off.
Proof. intros [(_ & Ht & _) _ _ _]. by apply get32_touches. Qed.
Lemma part_get16 f d s s' off : part f d s s' → ¬ f off → ¬ f (off + 1)%nat → get16 (sk_data s') off = get16 (sk_data s) off.
Proof. intros [(_ & Ht & _) _ _ _]. by apply get16_touches. Qed.

Lemma part_store_addr s off to : ipv4_frame s → is_addr off → is_u32 to →
  let s' := bpf_l3_csum_replace (bpf_skb_store_bytes s off (bytes32 to)) off_ip_check (get32 (sk_data s) off) to 4 in
  part (λ i, range off 4 i ∨ range off_ip_check 2 i) (sum32 to - sum32 (get32 (sk_data s) off)) s s' ∧ get32 (sk_data s') off = to.
Proof.
  intros Hs Ho Hto s'. destruct (addr_and_l3 s off to) as (F & Hg & Hl3 & Hl4); [done..|]. fold s' in F, Hg, Hl3, Hl4.
  pose proof (l4_off_ge _ (if_ihl s Hs)) as Hge. unfold is_addr, off_ip_saddr, off_ip_daddr in Ho.
  split; [|done]. split; [done| |done|].
  - intros i. unfold not_shape, range, off_ip_check. lia.
  - eapply moved_exact; [apply F| |rewrite Hl4; lia]. unfold range, off_ip_check. lia.
Qed.
Lemma run_rewrite_addr s st off to : ipv4_frame s → is_addr off → is_u32 to →
  ∃ s', rewrite_addr off (l4_off (sk_data s)) (get8 (sk_data s) off_ip_protocol) (get32 (sk_data s) off) to (MkTc s st) = (inr tt, MkTc s' st) ∧
    part (addr_range (sk_data s) off) 0 s s' ∧ get32 (sk_data s') off = to.
Proof.
  intros Hs Ho Hto. destruct (part_store_addr s off to) as [P1 Hg]; [done..|]. set (s1 := bpf_l3_csum_replace _ _ _ _ _) in *.
  pose proof (part_shape _ _ _ _ P1) as (_ & El4 & _ & Ep). pose proof (part_frame _ _ _ _ P1) as Hs1.
  destruct (run_l4_addr_fix s1 st (get32 (sk_data s) off) to) as (s2 & R & P2); [done|].
  exists s2. split_and!.
  - unfold rewrite_addr, tbind. cbn [store_bytes l3_csum_fix change_skb tc_skb tc_stats]. fold s1. by rewrite <-El4, <-Ep.
  - eapply part_eq; [|eapply part_weaken; [|eapply part_trans; [exact P1|exact P2]]]; [lia|].
    intros i. unfold addr_range. by rewrite (part_csum_range _ _ _ _ i P1).
  - rewrite <-Hg. eapply part_get32; [exact P2|]. intros k Hk Hc%csum_range_ge; [|done].
    unfold is_addr, off_ip_saddr, off_ip_daddr in Ho. lia.
Qed.

(** The address and the port of a service. *)
Definition svc_fix_at (coff : nat) (from to old_port new_port : Z) : tc unit :=
  do _ <- l4_csum_at coff from to addr_flags in
  if negb (new_port =? old_port) then l4_csum_at coff old_port new_port 2 else tret tt.
Lemma l4_svc_fix_eq l4 protocol from to old_port new_port :
  l4_svc_fix l4 protocol from to old_port new_port =
    if protocol =? IPPROTO_UDP
    then do s <- get_skb in if udp_has_csum l4 s then svc_fix_at (l4 + 6) from to old_port new_port else tret tt
    else svc_fix_at (l4 + 16) from to old_port new_port.
Proof. done. Qed.
Lemma run_svc_fix_at s st from to old_port new_port : ipv4_frame s → is_tcp_udp (get8 (sk_data s) off_ip_protocol) = true →
  let d := sum32 from - sum32 to + (old_port - new_port) in
  ∃ s', svc_fix_at (csum_off (sk_data s)) from to old_port new_port (MkTc s st) = (inr tt, MkTc s' st) ∧
    fixes (csum_range (sk_data s)) s s' ∧ l3_sum (sk_data s') ≡₁ l3_sum (sk_data s) ∧
    l4_sum (sk_data s') ≡₁ l4_sum (sk_data s) + d.
Proof.
  intros Hs Hp d. destruct (csum_field s Hs Hp) as (H1 & H2 & H3).
  destruct (l4_csum_step s (csum_off (sk_data s)) from to addr_flags) as (Hx & Hl3 & Hl4); try done; [by right|].
  unfold svc_fix_at, tbind, l4_csum_at, change_skb. cbn [tc_skb tc_stats]. set (s1 := bpf_l4_csum_replace _ _ _ _ _) in *.
  assert (Hd : l4_sum (sk_data s1) ≡₁ l4_sum (sk_data s) + (sum32 from - sum32 to)).
  { rewrite Hl4. apply eqm_iff. exists 0. change (csum_words (Z.land addr_flags 15)) with sum32. lia. }
  assert (Hw : ∀ i, range (csum_off (sk_data s)) 2 i → csum_range (sk_data s) i) by done.
  destruct (Z.eqb_spec new_port old_port) as [E|E]; cbn [negb tc_skb].
  { exists s1. split_and!; [done|by eapply fixes_weaken|by rewrite Hl3|]. unfold d. by rewrite E, Hd, Z.sub_diag, Z.add_0_r. }
  destruct Hx as (G1 & T1 & W1). assert (F1 : fine (range (csum_off (sk_data s)) 2)).
  { intros i Hi. by eapply csum_range_fine, Hw. }
  destruct (shape_touches _ _ _ T1 F1) as (_ & _ & El & _ & Ee & _).
  destruct (l4_csum_step s1 (csum_off (sk_data s)) old_port new_port 2) as (Hx2 & Hl32 & Hl42);
    [done|by left|by rewrite El|by rewrite Ee|done|].
  eexists. split_and!; [reflexivity| | |].
  - eapply (fixes_weaken _ _ _ _); [|eapply fixes_trans; [split_and!; [exact G1|exact T1|exact W1]|exact Hx2]]. intros i [Hi|Hi]; by apply Hw.
  - by rewrite Hl32, Hl3.
  - rewrite Hl42, Hd. apply eqm_iff. exists 0. unfold d. change (csum_words (Z.land 2 15) old_port) with old_port.
    change (csum_words (Z.land 2 15) new_port) with new_port. lia.
Qed.
Lemma run_l4_svc_fix s st from to old_port new_port : ipv4_frame s → is_tcp_udp (get8 (sk_data s) off_ip_protocol) = true →
  ∃ s', l4_svc_fix (l4_off (sk_data s)) (get8 (sk_data s) off_ip_protocol) from to old_port new_port (MkTc s st) = (inr tt, MkTc s' st) ∧
    part (csum_range (sk_data s)) (sum32 from - sum32 to + (old_port - new_port)) s s'.
Proof.
  intros Hs Hp. rewrite l4_svc_fix_eq. set (d := _ + _).
  destruct (run_svc_fix_at s st from to old_port new_port Hs Hp) as (s' & R & F & L3 & L4). fold d in L4.
  assert (Hpart : (get8 (sk_data s) off_ip_protocol = IPPROTO_UDP → get16 (sk_data s) (l4_off (sk_data s) + 6) ≠ 0) →
    part (csum_range (sk_data s)) d s s').
  { intros Hne. split; [done|by apply csum_range_fine|done|]. split; [done|]. intros Hu. right. by split; [apply Hne|]. }
  unfold csum_off in R. destruct (Z.eqb_spec (get8 (sk_data s) off_ip_protocol) IPPROTO_UDP) as [Eu|Eu].
  - unfold tbind at 1, get_skb at 1. cbn [tc_skb]. rewrite udp_accessible by done.
    destruct (Z.eqb_spec (get16 (sk_data s) (l4_off (sk_data s) + 6)) 0) as [Ec|Ec]; cbn [negb].
    + exists s. split; [done|]. split; [by apply fixes_refl|by apply csum_range_fine|done|]. split; [by rewrite Eu|by left].
    + exists s'. split; [done|]. by apply Hpart.
  - exists s'. split; [done|]. by apply Hpart.
Qed.

Definition port_range (p : list Z) (port_off i : nat) : Prop := range (l4_off p + port_off) 2 i.
Lemma transport_room s : ipv4_frame s → is_tcp_udp (get8 (sk_data s) off_ip_protocol) = true →
  (l4_off (sk_data s) + 8 ≤ ip_end (sk_data s))%nat.
Proof. intros Hs Hp. destruct (csum_field s Hs Hp) as (H1 & H2 & _). unfold csum_off in *. destruct (_ =? _); lia. Qed.
Lemma part_store_port s port_off v : ipv4_frame s → is_tcp_udp (get8 (sk_data s) off_ip_protocol) = true → port_at port_off → is_u16 v →
  let off := (l4_off (sk_data s) + port_off)%nat in
  let s' := bpf_skb_store_bytes s off (bytes16 v) in
  part (port_range (sk_data s) port_off) (v - get16 (sk_data s) off) s s' ∧ get16 (sk_data s') off = v.
Proof.
  intros Hs Hp Ho Hv off s'. pose proof (transport_room s Hs Hp) as Hroom. pose proof Hs as [Hb Hi He Hl _ _ _]. unfold sk_len in He.
  pose proof (l4_off_ge _ Hi) as Hge. unfold port_at in Ho.
  assert (Hoff : (l4_off (sk_data s) ≤ off ∧ off + length (bytes16 v) ≤ ip_end (sk_data s))%nat).
  { change (length (bytes16 v)) with 2%nat. lia. }
  destruct Hoff as [Hoff1 Hoff2]. assert (Hoff3 : (off + length (bytes16 v) ≤ length (sk_data s))%nat) by lia.
  destruct (store_bytes_ok s off (bytes16 v)) as [E F]; [done|]. fold s' in E, F.
  assert (Hx : fixes (range off 2) s s') by (apply (fixes_splice _ _ off (bytes16 v)); first [done|apply bytes16_ok|lia]).
  split; [|rewrite E; apply get16_splice_eq; done]. split; [done| | |].
  - intros i. unfold port_range, range, not_shape. lia.
  - rewrite E, l3_sum_out by first [done|apply bytes16_ok]. done.
  - eapply moved_exact; [apply Hx|unfold range; lia|].
    rewrite E, l4_sum_in; try done; [|apply bytes16_ok| |by exists 1%nat].
    + change (length (bytes16 v)) with 2%nat. rewrite sum_segment16, words_sum_bytes16 by done. lia.
    + unfold off. apply l4_even; [done|]. destruct Ho as [-> | ->]; [by exists 0%nat|by exists 1%nat].
Qed.

Definition svc_range (p : list Z) (off port_off i : nat) : Prop := addr_range p off i ∨ port_range p port_off i.
Lemma svc_range_fine s off port_off : ipv4_frame s → is_addr off → fine (svc_range (sk_data s) off port_off).
Proof.
  intros Hs Ho i. pose proof (l4_off_ge _ (if_ihl s Hs)). intros [[?|?%csum_range_ge]|?];
  unfold svc_range, addr_range, port_range, range, not_shape, is_addr, off_ip_saddr, off_ip_daddr, off_ip_check in *; first [done|lia].
Qed.
Lemma part_sub f g d d' s s' : (∀ i, f i → g i) → fine g → d = d' → part f d s s' → part g d' s s'.
Proof. intros Hfg Hg -> [F N L M]. split; [by eapply fixes_weaken|done..]. Qed.
Definition val_ok (v : SvcVal) : Prop := is_u32 (sv_Ip v) ∧ is_u16 (sv_Port v).
(** The service's address, and both checksums. *)
Lemma run_svc_addr s st off port_off v : ipv4_frame s → is_tcp_udp (get8 (sk_data s) off_ip_protocol) = true →
  is_addr off → port_at port_off → val_ok v →
  let l4 := l4_off (sk_data s) in let old := get16 (sk_data s) (l4 + port_off) in
  ∃ s', (do _ <- store_bytes off (bytes32 (sv_Ip v)) in
         do _ <- l3_csum_fix (get32 (sk_data s) off) (sv_Ip v) in
         l4_svc_fix l4 (get8 (sk_data s) off_ip_protocol) (get32 (sk_data s) off) (sv_Ip v) old (sv_Port v)) (MkTc s st) = (inr tt, MkTc s' st) ∧
    part (addr_range (sk_data s) off) (old - sv_Port v) s s' ∧ get32 (sk_data s') off = sv_Ip v ∧ get16 (sk_data s') (l4 + port_off) = old.
Proof.
  intros Hs Hp Ho Hpo [Hip Hport] l4 old. destruct (part_store_addr s off (sv_Ip v)) as [P1 Hg]; [done..|].
  set (s1 := bpf_l3_csum_replace _ _ _ _ _) in *.
  pose proof (part_shape _ _ _ _ P1) as (_ & El4 & _ & Ep). pose proof (part_frame _ _ _ _ P1) as Hs1.
  pose proof (l4_off_ge _ (if_ihl s Hs)) as Hge. unfold is_addr, off_ip_saddr, off_ip_daddr in Ho. unfold port_at in Hpo.
  destruct (run_l4_svc_fix s1 st (get32 (sk_data s) off) (sv_Ip v) old (sv_Port v)) as (s2 & R2 & P2); [done|by rewrite Ep|].
  assert (Hc1 : ∀ i, csum_range (sk_data s1) i ↔ csum_range (sk_data s) i) by (intros; by eapply part_csum_range).
  pose proof (part_trans _ _ _ _ _ _ _ P1 P2) as P12. exists s2. split_and!.
  - unfold tbind. cbn [store_bytes l3_csum_fix change_skb tc_skb tc_stats]. fold s1. by rewrite <-R2, El4, Ep.
  - eapply part_eq; [|eapply part_weaken; [|exact P12]]; [lia|]. intros i. unfold addr_range. by rewrite Hc1.
  - rewrite <-Hg. eapply part_get32; [exact P2|]. intros k Hk Hc%csum_range_ge; [lia|done].
  - apply (part_get16 _ _ _ _ _ P12); unfold range, off_ip_check; rewrite Hc1; unfold csum_range, csum_off, range; fold l4; fold l4 in Hge;
      destruct (_ =? IPPROTO_UDP); lia.
Qed.
Lemma run_rewrite_svc s st off port_off v : ipv4_frame s → is_tcp_udp (get8 (sk_data s) off_ip_protocol) = true →
  is_addr off → port_at port_off → val_ok v →
  let l4 := l4_off (sk_data s) in
  ∃ s', rewrite_svc off l4 port_off (get8 (sk_data s) off_ip_protocol) (get32 (sk_data s) off)
          (Some (get16 (sk_data s) (l4 + port_off), v)) (MkTc s st) = (inr tt, MkTc s' st) ∧
    part (svc_range (sk_data s) off port_off) 0 s s' ∧ get32 (sk_data s') off = sv_Ip v ∧ get16 (sk_data s') (l4 + port_off) = sv_Port v.
Proof.
  intros Hs Hp Ho Hpo Hv l4. destruct (run_svc_addr s st off port_off v) as (s2 & R & P & Hg & Hold); [done..|].
  fold l4 in R, Hold. set (old := get16 (sk_data s) (l4 + port_off)) in *.
  assert (Esvc : rewrite_svc off l4 port_off (get8 (sk_data s) off_ip_protocol) (get32 (sk_data s) off) (Some (old, v)) (MkTc s st) =
    (if negb (sv_Port v =? old) then store_bytes (l4 + port_off) (bytes16 (sv_Port v)) else tret tt) (MkTc s2 st)).
  { unfold rewrite_svc, tbind in *. cbn [store_bytes l3_csum_fix change_skb] in *. by rewrite R. }
  rewrite Esvc. pose proof (part_shape _ _ _ _ P) as (_ & El & _ & Ep). pose proof (part_frame _ _ _ _ P) as Hs2.
  pose proof (svc_range_fine s off port_off Hs Ho) as Hfine.
  destruct (Z.eqb_spec (sv_Port v) old) as [E|E]; cbn [negb].
  - exists s2. split_and!; [done| |done|congruence]. eapply part_sub; [|done| |exact P]; [by left|rewrite E; apply Z.sub_diag].
  - destruct (part_store_port s2 port_off (sv_Port v)) as [P3 Hg3]; [done|by rewrite Ep|done|apply Hv|].
    rewrite El in P3, Hg3. fold l4 in P3, Hg3. rewrite Hold in P3. fold l4 old in P. eexists. split; [reflexivity|]. split_and!; [| |done].
    + eapply part_sub; [|done| |eapply part_trans; [exact P|exact P3]]; [|lia].
      intros i [?|Hi]; [by left|right]. unfold port_range in *. by rewrite <-El.
    + rewrite <-Hg. eapply part_get32; [exact P3|]. intros k Hk. pose proof (l4_off_ge _ (if_ihl s Hs)).
      unfold port_range, range. rewrite El. unfold is_addr, off_ip_saddr, off_ip_daddr in Ho. lia.
Qed.

(** *** The Ethernet header *)
Lemma segment_touches f lo hi p p' : touches f p p' → (∀ i, (lo ≤ i < hi)%nat → ¬ f i) → segment lo hi p' = segment lo hi p.
Proof. intros (_ & _ & R) Hf. unfold segment. apply map_ext_in. intros i Hi%in_seq. apply R, Hf. lia. Qed.
Lemma sums_low f p p' : touches f p p' → (∀ i, f i → (i < 12)%nat) → (5 ≤ ip_ihl p)%nat → l3_sum p' = l3_sum p ∧ l4_sum p' = l4_sum p.
Proof.
  intros Ht Hf Hi. destruct (shape_touches _ _ _ Ht) as (_ & _ & El & _ & Ee & Ep); [intros i Hx; left; by apply Hf|].
  assert (Hn : ∀ i, (12 ≤ i)%nat → ¬ f i) by (intros i H1 H2%Hf; lia). pose proof (l4_off_ge _ Hi).
  unfold l3_sum, l4_sum. rewrite El, Ee, Ep. unfold off_ip_saddr, off_ip_daddr, ETH_HLEN.
  rewrite !(segment_touches f _ _ p p') by (done || (intros; apply Hn; lia)).
  by rewrite !(get32_touches f p p') by (done || (intros; apply Hn; lia)).
Qed.
Lemma get_mac_splice off bs p : length bs = 6%nat → (off + 6 ≤ length p)%nat → get_mac (splice off bs p) off = bs.
Proof.
  intros Hb Hl. unfold get_mac, splice. rewrite drop_app_ge by (rewrite length_take; lia).
  rewrite length_take, Nat.min_l, Nat.sub_diag, drop_0 by lia. by rewrite take_app_length'.
Qed.
Lemma get_mac_0_splice bs p : (12 ≤ length p)%nat → length bs = 6%nat → get_mac (splice 6 bs p) 0 = get_mac p 0.
Proof. intros Hl Hb. unfold get_mac, splice. rewrite !drop_0. rewrite take_app_le by (rewrite length_take; lia). by rewrite take_take. Qed.
Definition is_mac (mac : list Z) : Prop := length mac = 6%nat ∧ bytes mac.
Lemma run_rewrite_macs s st dst src : ipv4_frame s → is_mac dst → is_mac src →
  ∃ s', rewrite_macs dst src (MkTc s st) = (inr tt, MkTc s' st) ∧ part (λ i, (i < 12)%nat) 0 s s' ∧
    get_mac (sk_data s') off_h_dest = dst ∧ get_mac (sk_data s') off_h_source = src.
Proof.
  intros Hs [Hd1 Hd2] [Hr1 Hr2]. pose proof Hs as [Hb Hi He Hl _ _ Hlin]. unfold sk_len in He. pose proof (l4_off_ge _ Hi) as Hge.
  unfold rewrite_macs, need, write, change_skb, tbind. cbn [tc_skb tc_stats].
  rewrite (proj2 (Nat.leb_le ETH_HLEN (sk_linear s))) by (unfold ETH_HLEN; lia). eexists. split; [reflexivity|].
  cbn [set_data sk_data tc_skb]. set (p1 := splice off_h_dest dst (sk_data s)).
  assert (Hl1 : length p1 = length (sk_data s)) by (apply length_splice; unfold off_h_dest; lia).
  assert (Ht : touches (λ i, (i < 12)%nat) (sk_data s) (splice off_h_source src p1)).
  { eapply touches_weaken; [|eapply touches_trans; apply touches_splice; try done]; unfold range, off_h_dest, off_h_source; lia. }
  destruct (sums_low _ _ _ Ht) as [E3 E4]; [done..|]. split_and!.
  - split; [split_and!; [by split|done|]|by left|by rewrite <-E3|].
    + eapply ipv4_frame_touches; [done|by split|exact Ht|by left].
    + eapply (moved_exact (λ i, (i < 12)%nat)); [exact Ht|unfold range; lia|]. cbn [sk_data set_data]. rewrite Z.add_0_r. exact E4.
  - transitivity (get_mac p1 0); [apply (get_mac_0_splice src p1); [lia|done]|]. apply (get_mac_splice 0 dst); [done|lia].
  - apply get_mac_splice; [done|unfold off_h_source; lia].
Qed.

(** *** A whole translation *)
(** The bytes a translation may change: the MAC addresses, the header checksum,
    the two addresses, the transport checksum and one port. *)
Definition nat_field (p : list Z) (port_off i : nat) : Prop :=
  (i < 12)%nat ∨ range off_ip_check 2 i ∨ range off_ip_saddr 8 i ∨
  is_tcp_udp (get8 p off_ip_protocol) = true ∧ (range (csum_off p) 2 i ∨ range (l4_off p + port_off) 2 i).
(** A frame came out as another: [a] is the side the sandbox's address is on,
    [b] the service's. *)
Record translated (off_a off_b port_off : nat) (to_a to_b to_port : Z) (dst src : list Z) (s s' : skb) : Prop := {
  tr_frame : ipv4_frame s';
  tr_same : same_frame s s';
  tr_addr_a : get32 (sk_data s') off_a = to_a;
  tr_addr_b : get32 (sk_data s') off_b = to_b;
  tr_port : get16 (sk_data s') (l4_off (sk_data s) + port_off) = to_port;
  tr_macs : get_mac (sk_data s') off_h_dest = dst ∧ get_mac (sk_data s') off_h_source = src;
  tr_l3 : l3_ok (sk_data s) → l3_ok (sk_data s');
  tr_l4 : l4_ok (sk_data s) → l4_ok (sk_data s');
  tr_rest : touches (nat_field (sk_data s) port_off) (sk_data s) (sk_data s');
}.
Definition translate (off_a off_b port_off l4 : nat) (protocol from to from_b : Z) (svc : option (Z * SvcVal)) (dst src : list Z) : tc unit :=
  do _ <- rewrite_addr off_a l4 protocol from to in
  do _ <- rewrite_svc off_b l4 port_off protocol from_b svc in
  rewrite_macs dst src.
Definition svc_hit_ok (p : list Z) (port_off : nat) (svc : option (Z * SvcVal)) : Prop :=
  match svc with
  | None => True
  | Some (old, v) => is_tcp_udp (get8 p off_ip_protocol) = true ∧ old = get16 p (l4_off p + port_off) ∧ val_ok v
  end.
Definition svc_ip (svc : option (Z * SvcVal)) (ip : Z) : Z := match svc with Some (_, v) => sv_Ip v | None => ip end.
Definition svc_port (svc : option (Z * SvcVal)) (port : Z) : Z := match svc with Some (_, v) => sv_Port v | None => port end.

Lemma run_rewrite_svc_opt s st off port_off svc : ipv4_frame s → is_addr off → port_at port_off → svc_hit_ok (sk_data s) port_off svc →
  let l4 := l4_off (sk_data s) in
  ∃ s' f, rewrite_svc off l4 port_off (get8 (sk_data s) off_ip_protocol) (get32 (sk_data s) off) svc (MkTc s st) = (inr tt, MkTc s' st) ∧
    part f 0 s s' ∧ (∀ i, f i → is_tcp_udp (get8 (sk_data s) off_ip_protocol) = true ∧ svc_range (sk_data s) off port_off i) ∧
    get32 (sk_data s') off = svc_ip svc (get32 (sk_data s) off) ∧
    get16 (sk_data s') (l4 + port_off) = svc_port svc (get16 (sk_data s) (l4 + port_off)).
Proof.
  intros Hs Ho Hpo Hsvc l4. destruct svc as [[old v]|].
  - destruct Hsvc as (Hp & -> & Hv). destruct (run_rewrite_svc s st off port_off v) as (s' & R & P & E1 & E2); [done..|].
    exists s', (svc_range (sk_data s) off port_off). by split_and!.
  - exists s, (λ _, False). split_and!; [done|by apply part_refl|by intros ? []|done|done].
Qed.
Lemma svc_range_nat_field s off port_off i : ipv4_frame s → is_addr off → svc_range (sk_data s) off port_off i →
  is_tcp_udp (get8 (sk_data s) off_ip_protocol) = true → nat_field (sk_data s) port_off i.
Proof.
  unfold svc_range, addr_range, csum_range, port_range, nat_field, range, is_addr, off_ip_saddr, off_ip_daddr. intuition lia.
Qed.
Lemma addr_range_nat_field s off port_off i : is_addr off → addr_range (sk_data s) off i → nat_field (sk_data s) port_off i.
Proof.
  unfold addr_range, csum_range, nat_field, range, is_addr, off_ip_saddr, off_ip_daddr. intuition lia.
Qed.

Lemma addr_range_other s a b k : ipv4_frame s → is_addr a → is_addr b → a ≠ b → (k < 4)%nat → ¬ addr_range (sk_data s) a (b + k).
Proof.
  intros Hs Ha Hb Hne Hk Hr. unfold is_addr, off_ip_saddr, off_ip_daddr in *.
  destruct Hr as [Hr|Hr%csum_range_ge]; [unfold range, off_ip_check in Hr; lia|lia|done].
Qed.
Lemma addr_range_port s a port_off k : ipv4_frame s → is_addr a → port_at port_off → (k < 2)%nat →
  ¬ addr_range (sk_data s) a (l4_off (sk_data s) + port_off + k).
Proof.
  intros Hs Ha Hp Hk Hr. pose proof (l4_off_ge _ (if_ihl s Hs)). unfold is_addr, port_at, off_ip_saddr, off_ip_daddr in *.
  destruct Hr as [Hr|[_ Hr]]; unfold range, off_ip_check, csum_off in Hr; [lia|]. destruct (_ =? IPPROTO_UDP); lia.
Qed.
Lemma run_translate s st a b port_off to svc dst src :
  ipv4_frame s → is_addr a → is_addr b → a ≠ b → port_at port_off → is_u32 to → svc_hit_ok (sk_data s) port_off svc →
  is_mac dst → is_mac src →
  let p := sk_data s in
  ∃ s', translate a b port_off (l4_off p) (get8 p off_ip_protocol) (get32 p a) to (get32 p b) svc dst src (MkTc s st) = (inr tt, MkTc s' st) ∧
    translated a b port_off to (svc_ip svc (get32 p b)) (svc_port svc (get16 p (l4_off p + port_off))) dst src s s'.
Proof.
  intros Hs Ha Hb Hab Hpo Hto Hsvc Hd Hr p.
  destruct (run_rewrite_addr s st a to) as (s1 & R1 & P1 & Ea1); [done..|]. fold p in R1.
  pose proof (part_shape _ _ _ _ P1) as (_ & El1 & _ & Ep1). pose proof (part_frame _ _ _ _ P1) as Hs1.
  assert (Eb1 : get32 (sk_data s1) b = get32 p b) by (eapply part_get32; [exact P1|]; intros; by apply addr_range_other).
  assert (Eport1 : get16 (sk_data s1) (l4_off p + port_off) = get16 p (l4_off p + port_off)).
  { eapply part_get16; [exact P1| |]; [rewrite <-(Nat.add_0_r (_ + _))|]; apply addr_range_port; (done || lia). }
  destruct (run_rewrite_svc_opt s1 st b port_off svc) as (s2 & f & R2 & P2 & Hf & Eb2 & Eport2); [done..| |].
  { destruct svc as [[old v]|]; [|done]. destruct Hsvc as (H1 & H2 & H3). unfold svc_hit_ok. rewrite Ep1, El1. fold p. by rewrite Eport1. }
  rewrite El1, Ep1, Eb1 in R2. rewrite El1 in Eport2. rewrite Eb1 in Eb2. fold p in R2, Eport2. rewrite Eport1 in Eport2.
  pose proof (part_frame _ _ _ _ P2) as Hs2. pose proof (part_shape _ _ _ _ P2) as (_ & El2 & _ & Ep2).
  destruct (run_rewrite_macs s2 st dst src) as (s3 & R3 & P3 & Ed & Er); [done..|].
  pose proof (part_trans _ _ _ _ _ _ _ (part_trans _ _ _ _ _ _ _ P1 P2) P3) as P. pose proof (l4_off_ge _ (if_ihl s Hs)) as Hge. fold p in Hge.
  pose proof P as [(Hsame & Ht & Hs3) Hfine L3 M].
  exists s3. split; [unfold translate, tbind; by rewrite R1, R2, R3|]. split; [done|done| | | |done| | |].
  - rewrite (part_get32 _ _ _ _ _ P3) by (unfold is_addr, off_ip_saddr, off_ip_daddr in Ha; lia). rewrite <-Ea1. eapply part_get32; [exact P2|].
    intros k Hk [_ [Hx|Hx]]%Hf; [by eapply addr_range_other in Hx|]. unfold port_range, range in Hx. rewrite El1 in Hx. fold p in Hx.
    unfold is_addr, off_ip_saddr, off_ip_daddr in Ha. lia.
  - rewrite (part_get32 _ _ _ _ _ P3) by (unfold is_addr, off_ip_saddr, off_ip_daddr in Hb; lia). done.
  - fold p. rewrite (part_get16 _ _ _ _ _ P3) by lia. done.
  - unfold l3_ok. by rewrite L3.
  - eapply moved_l4_ok; [exact Ht|done|exact M].
  - eapply touches_weaken; [|exact Ht]. intros i [[Hi|Hi]|Hi]; [by apply (addr_range_nat_field s a)| |by left].
    apply Hf in Hi as [Hp Hi]. apply (svc_range_nat_field s1 b port_off i) in Hi; [|done..].
    unfold nat_field, csum_off in *. rewrite El1, Ep1 in Hi. done.
Qed.
End steps.
