(* ===== verification/MgmtPath.v ===== *)
(** * The management path

    What [tc_ingress_nx] does with a packet to a management prefix and
    [tc_ingress_mx] with the answer, for a port whose attachment is published:
    the two translations are inverse to each other. *)
From S2P Require Import Prelude Errors GoStrings GoNet GoNetSpec BpfTypes Mac Config Prog Maps MgmtService Typed Packet Skb Datapath NatSpec.

(** ** Published ports *)
(** Slot [i] carries a published attachment that the programs can serve. *)
Record port_live `{BpfHelpers} (T : tables) (cfg : SwitchConfig) (i : Z) (slot : SlotItem) : Prop := {
  pl_config : m_config (snd T) !! 0 = Some cfg;
  pl_ifindex : m_ifindex (snd T) !! si_Ifindex slot = Some i;
  pl_slot : slot_lookup T i = Some slot;
  pl_typed : slot_typed slot;
  pl_taken : is_slot_free (si_InnerIp slot) = false;
  pl_up : 0 < slot_publication_token slot cfg;
  pl_generation : generation_ok cfg (si_Generation slot) = true;
  pl_index : 0 ≤ i < 4096 ∧ i < sc_N_ports cfg;
  pl_device : si_Ifindex slot ≠ 0;
  pl_plan : is_u32 (sc_FloatingIpBase cfg) ∧ 0 ≤ sc_GenerationBits cfg ∧ 0 ≤ si_Generation slot ∧
    sc_FloatingIpBase cfg + 2 ^ (12 + sc_GenerationBits cfg) ≤ 2 ^ 32;
  pl_switch_mac : is_mac (sc_SwitchMac cfg);
  pl_port_mac : is_mac (sc_PortMac cfg);
}.
(** The service tables hold 32-bit addresses and 16-bit ports. *)
Definition services_ok (m : maps_state) : Prop :=
  (∀ k v, m_fwd m !! k = Some v → val_ok v) ∧ (∀ k v, m_rev m !! k = Some v → val_ok v).

(** ** Addresses *)
(** The programs and the control plane compute the same floating address and
    the same port MAC. *)
Lemma nx_floating_ip_control cfg slot i :
  nx_floating_ip cfg slot i = FloatingIPForAttachment (sc_FloatingIpBase cfg) i (si_Generation slot).
Proof. reflexivity. Qed.
Lemma lor_zero a b : (Z.lor a b =? 0) = (a =? 0) && (b =? 0).
Proof. destruct (Z.eqb_spec (Z.lor a b) 0) as [E|E]; rewrite Z.lor_eq_0_iff in E; destruct (Z.eqb_spec a 0), (Z.eqb_spec b 0); naive_solver. Qed.
Lemma is_zero_mac_control mac : is_mac mac → is_zero_mac mac = IsZeroMAC mac.
Proof.
  intros [Hl _]. do 6 (destruct mac as [|? mac]; [done|]). destruct mac; [|done]. unfold is_zero_mac, get8. cbn [nth IsZeroMAC].
  rewrite !lor_zero. by repeat match goal with |- context [?x =? 0] => destruct (x =? 0); cbn [negb andb] end.
Qed.
Lemma get_port_mac_control cfg i : is_mac (sc_SwitchMac cfg) → is_mac (sc_PortMac cfg) →
  GetPortMAC (sc_SwitchMac cfg) (sc_PortMac cfg) i = Ok (get_port_mac cfg i).
Proof.
  intros [Hs _] Hp. unfold GetPortMAC, get_port_mac. rewrite is_zero_mac_control by done. destruct (IsZeroMAC _).
  - revert Hs. generalize (sc_SwitchMac cfg). intros mac Hs. do 6 (destruct mac as [|? mac]; [done|]). by destruct mac.
  - destruct Hp as [Hl _]. unfold copy_into. rewrite Hl, (take_ge (sc_PortMac cfg)) by (rewrite Hl; done). by rewrite app_nil_r.
Qed.
Lemma get_port_mac_ok cfg i : is_mac (sc_SwitchMac cfg) → is_mac (sc_PortMac cfg) → 0 ≤ i < 4096 → is_mac (get_port_mac cfg i).
Proof.
  intros [Hs Hb] Hp Hi. unfold get_port_mac. destruct (is_zero_mac _); [|done]. split.
  - rewrite length_app, length_take, Hs. done.
  - apply Forall_app_2; [by apply Forall_take|]. repeat apply Forall_cons_2; [|apply u8_range|by apply Forall_nil_2].
    apply lor_u8; [|apply u8_range]. rewrite Z.land_comm. by apply land_u8.
Qed.
Lemma floating_address cfg slot i :
  0 ≤ i < 4096 → is_u32 (sc_FloatingIpBase cfg) → 0 ≤ sc_GenerationBits cfg → 0 ≤ si_Generation slot →
  generation_ok cfg (si_Generation slot) = true → sc_FloatingIpBase cfg + 2 ^ (12 + sc_GenerationBits cfg) ≤ 2 ^ 32 →
  is_u32 (nx_floating_ip cfg slot i) ∧ floating_identity cfg (nx_floating_ip cfg slot i) = Some (i, si_Generation slot).
Proof.
  intros Hi Hb Hbits Hg Hok Hs. unfold generation_ok in Hok. apply andb_true_iff in Hok as [H1%negb_true_iff%Z.ltb_ge H2%Z.ltb_lt].
  rewrite Z.shiftl_1_l in H2. rewrite nx_floating_ip_control.
  destruct (FloatingIP_plain (sc_FloatingIpBase cfg) i (si_Generation slot) (sc_GenerationBits cfg)) as [-> Hlt]; [done|lia|done|done|lia|].
  split; [unfold is_u32 in *; lia|]. unfold floating_identity. rewrite (proj2 (Z.ltb_ge _ _)) by lia.
  replace (sc_FloatingIpBase cfg + si_Generation slot * 4096 + i - sc_FloatingIpBase cfg) with (i + si_Generation slot * 4096) by lia.
  change 4095 with (Z.ones 12). rewrite Z.land_ones, Z.shiftr_div_pow2 by lia. change (2 ^ 12) with 4096.
  rewrite Z.mod_add, Z.div_add by lia. by rewrite Z.mod_small, Z.div_small by lia.
Qed.

(** ** The two directions *)
Section path.
Context `{BpfHelpersOk} (T : tables) (cfg : SwitchConfig) (i : Z) (slot : SlotItem).
Context (Hlive : port_live T cfg i slot) (Hsvc : services_ok (snd T)).

(** The service a frame names on one side. *)
Definition svc_found (m : gmap SvcKey SvcVal) (p : list Z) (off port_off : nat) : option (Z * SvcVal) :=
  let port := get16 p (l4_off p + port_off) in
  if is_tcp_udp (get8 p off_ip_protocol) then
    match m !! MkSvcKey (get32 p off) port (get8 p off_ip_protocol) with Some v => Some (port, v) | None => None end
  else None.
Lemma svc_lookup_found m s off port_off : ipv4_frame s →
  svc_lookup m s (get32 (sk_data s) off) port_off = svc_found m (sk_data s) off port_off.
Proof.
  intros [_ _ _ _ _ _ Hl]. unfold svc_lookup, svc_found, is_tcp_udp in *. rewrite orb_comm. destruct (_ || _); [|done].
  by rewrite (proj2 (Nat.leb_le (l4_off (sk_data s) + 4) (sk_linear s))) by lia.
Qed.
Lemma svc_found_ok m p off port_off : (∀ k v, m !! k = Some v → val_ok v) → svc_hit_ok p port_off (svc_found m p off port_off).
Proof.
  intros Hm. unfold svc_found. destruct (is_tcp_udp _) eqn:Et; [|done]. destruct (m !! _) as [v|] eqn:E; [|done].
  split_and!; [done|done|]. by eapply Hm.
Qed.
Lemma ipv4_linear s n : ipv4_frame s → (n ≤ 34)%nat → (n <=? sk_linear s)%nat = true.
Proof. intros Hs Hn. apply Nat.leb_le. pose proof (l4_off_ge _ (if_ihl s Hs)). pose proof (if_linear s Hs). lia. Qed.

(** Counters of a slot, under the lock, for the generation read before. *)
Definition counted (count : SlotStats → SlotStats) (st : gmap Z SlotStats) : gmap Z SlotStats :=
  match st !! i with
  | Some x => if st_Generation x =? 0 then st else <[i := count x]> st
  | None => st
  end.
Lemma update_stats_counted count s st :
  update_stats count i (match st !! i with Some x => st_Generation x | None => 0 end) (MkTc s st) = (inr tt, MkTc s (counted count st)).
Proof.
  unfold update_stats, counted. cbn [tc_stats]. destruct (st !! i) as [x|]; [|done]. rewrite Z.eqb_refl. by destruct (_ =? 0).
Qed.

Lemma match_mgmt_cidr_mac dst ifx mac : match_mgmt_cidr slot dst = Some (ifx, mac) → is_mac mac.
Proof.
  pose proof (pl_typed _ _ _ _ Hlive) as Ht. pose proof (ct_mac _ (st_cidr0 _ Ht)) as Hc0. pose proof (st_ext _ Ht) as [Hl Hf].
  assert (Hext : ∀ n, (n < 2)%nat → is_mac (mc_MgmtMac (nth n (si_MgmtCidrsExt slot) MgmtCidr_zero))).
  { intros n Hn. rewrite List.Forall_forall in Hf. apply ct_mac, Hf, nth_In. lia. }
  unfold match_mgmt_cidr. repeat (destruct (_ && _); [intros [= <- <-]; (exact Hc0 || apply Hext; lia)|]). done.
Qed.
Lemma live_gate s : publication_gate slot cfg s = (inr tt, s).
Proof. unfold publication_gate. by rewrite (proj2 (Z.leb_gt _ _)) by apply (pl_up _ _ _ _ Hlive). Qed.

(** From the sandbox to a management service. *)
Lemma nx_translates s st ifx mac : ipv4_frame s → get16 (sk_data s) off_h_proto = ETH_P_IP → sk_ingress_ifindex s = si_Ifindex slot →
  match_mgmt_cidr slot (get32 (sk_data s) off_ip_daddr) = Some (ifx, mac) →
  let p := sk_data s in
  let svc := svc_found (m_fwd (snd T)) p off_ip_daddr 2 in
  ∃ s', tc_ingress_nx T (MkTc s st) = (inr (Redirect ifx), MkTc s' (counted (count_mgmt_tx (Z.of_nat (sk_len s))) st)) ∧
    translated off_ip_saddr off_ip_daddr 2 (nx_floating_ip cfg slot i) (svc_ip svc (get32 p off_ip_daddr))
      (svc_port svc (get16 p (l4_off p + 2))) mac (sc_SwitchMac cfg) s s'.
Proof.
  intros Hs Hproto Hdev Hm p svc. destruct (pl_plan _ _ _ _ Hlive) as (Hb & Hbits & Hg & Hspan).
  destruct (floating_address cfg slot i) as [Hf _]; try done; [apply Hlive..|].
  destruct (run_translate s st off_ip_saddr off_ip_daddr 2 (nx_floating_ip cfg slot i) svc mac (sc_SwitchMac cfg)) as (s' & R & Htr);
    first [done|by left|by right|by eapply match_mgmt_cidr_mac|by apply svc_found_ok, Hsvc|apply Hlive|idtac].
  fold p in R, Htr. exists s'. split; [|exact Htr].
  unfold tc_ingress_nx, tbind at 1, need at 1. cbn [tc_skb]. rewrite ipv4_linear by (done || unfold ETH_HLEN; lia).
  unfold tbind at 1, get_config. rewrite (pl_config _ _ _ _ Hlive). cbn [some_or_ok tret].
  unfold tbind at 1, get_skb at 1. cbn [tc_skb].
  unfold tbind at 1. rewrite Hdev, (pl_ifindex _ _ _ _ Hlive). cbn [some_or_ok tret].
  unfold tbind at 1, stats_generation. cbn [tc_stats].
  unfold tbind at 1. rewrite (pl_slot _ _ _ _ Hlive). cbn [some_or_ok tret]. rewrite (pl_taken _ _ _ _ Hlive).
  unfold tbind at 1. rewrite live_gate, (pl_generation _ _ _ _ Hlive), Hproto. cbn [negb].
  change (ETH_P_IP =? ETH_P_ARP) with false. change (ETH_P_IP =? ETH_P_IP) with true. cbv iota.
  unfold tbind at 1, tbind at 1, need. cbn [tc_skb]. rewrite ipv4_linear by (done || unfold ETH_HLEN, IP_HLEN; lia). cbn [tret]. rewrite Hm.
  unfold nx_mgmt. unfold tbind at 1, get_skb. cbn [tc_skb]. rewrite svc_lookup_found by done. fold p svc.
  unfold translate in R. unfold tbind in *.
  destruct (rewrite_addr _ _ _ _ _ _) as [[|[]] t1]; [done|]. destruct (rewrite_svc _ _ _ _ _ _ _) as [[|[]] t2]; [done|]. cbn [fst snd].
  rewrite R. unfold update_stats_mgmt_tx. by rewrite update_stats_counted.
Qed.

(** From a management service back to the sandbox. *)
Lemma mx_translates s st : ipv4_frame s → get16 (sk_data s) off_h_proto = ETH_P_IP →
  get32 (sk_data s) off_ip_daddr = nx_floating_ip cfg slot i →
  let p := sk_data s in
  let svc := svc_found (m_rev (snd T)) p off_ip_saddr 0 in
  ∃ s', tc_ingress_mx T (MkTc s st) = (inr (Redirect (si_Ifindex slot)), MkTc s' (counted (count_mgmt_rx (Z.of_nat (sk_len s))) st)) ∧
    translated off_ip_daddr off_ip_saddr 0 (si_InnerIp slot) (svc_ip svc (get32 p off_ip_saddr))
      (svc_port svc (get16 p (l4_off p + 0))) (get_port_mac cfg i) (sc_SwitchMac cfg) s s'.
Proof.
  intros Hs Hproto Hdst p svc. destruct (pl_plan _ _ _ _ Hlive) as (Hb & Hbits & Hg & Hspan). destruct (pl_index _ _ _ _ Hlive) as [Hi Hn].
  destruct (floating_address cfg slot i) as [_ Hid]; try done; [apply Hlive|].
  destruct (run_translate s st off_ip_daddr off_ip_saddr 0 (si_InnerIp slot) svc (get_port_mac cfg i) (sc_SwitchMac cfg)) as (s' & R & Htr);
    first [done|by left|by right|by apply svc_found_ok, Hsvc|apply get_port_mac_ok; first [done|apply Hlive]|apply (pl_typed _ _ _ _ Hlive)|apply Hlive|idtac].
  fold p in R, Htr. exists s'. split; [|exact Htr].
  unfold tc_ingress_mx, tbind at 1, need at 1. cbn [tc_skb]. rewrite ipv4_linear by (done || unfold ETH_HLEN; lia).
  unfold tbind at 1, get_config. rewrite (pl_config _ _ _ _ Hlive). cbn [some_or_ok tret].
  unfold tbind at 1, get_skb at 1. cbn [tc_skb]. rewrite Hproto.
  change (ETH_P_IP =? ETH_P_ARP) with false. change (ETH_P_IP =? ETH_P_IP) with true. cbn [negb]. unfold mx_ip.
  unfold tbind at 1, need at 1. cbn [tc_skb]. rewrite ipv4_linear by (done || unfold ETH_HLEN, IP_HLEN; lia).
  unfold tbind at 1, get_skb at 1. cbn [tc_skb].
  unfold tbind at 1. rewrite Hdst, Hid. cbn [some_or_ok tret]. rewrite (pl_generation _ _ _ _ Hlive), (proj2 (Z.leb_gt _ _)) by done. cbn [negb orb].
  unfold tbind at 1, stats_generation. cbn [tc_stats].
  unfold tbind at 1. rewrite (pl_slot _ _ _ _ Hlive). cbn [some_or_ok tret].
  rewrite Z.eqb_refl, (pl_taken _ _ _ _ Hlive), (proj2 (Z.eqb_neq _ 0)) by apply (pl_device _ _ _ _ Hlive). cbn [negb orb].
  unfold tbind at 1. rewrite live_gate, svc_lookup_found by done. fold p svc. rewrite <-Hdst. fold p.
  unfold translate in R. unfold tbind in *.
  destruct (rewrite_addr _ _ _ _ _ _) as [[|[]] t1]; [done|]. destruct (rewrite_svc _ _ _ _ _ _ _) as [[|[]] t2]; [done|].
  rewrite R. cbn [get_skb tc_skb]. unfold update_stats_mgmt_rx. rewrite update_stats_counted.
  destruct (tr_rest _ _ _ _ _ _ _ _ _ _ Htr) as [El _]. unfold sk_len. by rewrite El.
Qed.
End path.

(** ** There and back *)
(** A frame goes back along the flow of another. *)
Record reply_to (r q : list Z) : Prop := {
  an_from : get32 r off_ip_saddr = get32 q off_ip_daddr;
  an_to : get32 r off_ip_daddr = get32 q off_ip_saddr;
  an_protocol : get8 r off_ip_protocol = get8 q off_ip_protocol;
  an_ports : is_tcp_udp (get8 q off_ip_protocol) = true →
    get16 r (l4_off r + 0) = get16 q (l4_off q + 2) ∧ get16 r (l4_off r + 2) = get16 q (l4_off q + 0);
}.
(** Nothing but the translated fields changed, and valid checksums stay valid. *)
Definition kept (port_off : nat) (p p' : list Z) : Prop :=
  touches (nat_field p port_off) p p' ∧ (l3_ok p → l3_ok p') ∧ (l4_ok p → l4_ok p').

Lemma nat_field_fine s port_off : ipv4_frame s → fine (nat_field (sk_data s) port_off).
Proof.
  intros Hs k Hk. pose proof (l4_off_ge _ (if_ihl s Hs)). unfold nat_field, range, off_ip_check, off_ip_saddr, not_shape, csum_off in *.
  destruct (_ =? IPPROTO_UDP); lia.
Qed.
Section translation.
Context (a b port_off : nat) (ta tb tp : Z) (dst src : list Z) (s s' : skb).
Context (Hs : ipv4_frame s) (Htr : translated a b port_off ta tb tp dst src s s').

Lemma translated_kept : kept port_off (sk_data s) (sk_data s').
Proof. split_and!; apply Htr. Qed.
Lemma translated_shape : l4_off (sk_data s') = l4_off (sk_data s) ∧ get8 (sk_data s') off_ip_protocol = get8 (sk_data s) off_ip_protocol.
Proof. destruct (shape_touches _ _ _ (tr_rest _ _ _ _ _ _ _ _ _ _ Htr) (nat_field_fine s port_off Hs)) as (_ & _ & ? & _ & _ & ?). done. Qed.
Lemma translated_other_port other : port_at port_off → port_at other → other ≠ port_off →
  get16 (sk_data s') (l4_off (sk_data s) + other) = get16 (sk_data s) (l4_off (sk_data s) + other).
Proof.
  intros Hp Ho Hne. pose proof (l4_off_ge _ (if_ihl s Hs)). unfold port_at in *.
  eapply get16_touches; [apply (tr_rest _ _ _ _ _ _ _ _ _ _ Htr)| |];
    unfold nat_field, range, off_ip_check, off_ip_saddr, csum_off; destruct (_ =? IPPROTO_UDP); lia.
Qed.
End translation.

(** The answer of a service is led back to the service that was addressed. *)
Lemma service_back m p r : services_inverse m →
  (svc_found (m_fwd m) p off_ip_daddr 2 = None → svc_found (m_rev m) p off_ip_daddr 2 = None) →
  get8 r off_ip_protocol = get8 p off_ip_protocol →
  get32 r off_ip_saddr = svc_ip (svc_found (m_fwd m) p off_ip_daddr 2) (get32 p off_ip_daddr) →
  (is_tcp_udp (get8 p off_ip_protocol) = true →
    get16 r (l4_off r + 0) = svc_port (svc_found (m_fwd m) p off_ip_daddr 2) (get16 p (l4_off p + 2))) →
  svc_ip (svc_found (m_rev m) r off_ip_saddr 0) (get32 r off_ip_saddr) = get32 p off_ip_daddr ∧
  (is_tcp_udp (get8 p off_ip_protocol) = true →
    svc_port (svc_found (m_rev m) r off_ip_saddr 0) (get16 r (l4_off r + 0)) = get16 p (l4_off p + 2)).
Proof.
  intros Hinv Hnone Eproto Eip Eport. unfold svc_found in *. rewrite Eproto.
  destruct (is_tcp_udp _); [|by split]. specialize (Eport eq_refl). rewrite Eip, Eport.
  destruct (m_fwd m !! _) as [v|] eqn:Ef; cbn [svc_ip svc_port].
  - pose proof (Hinv _ _ Ef) as Er. cbn [sk_Ip sk_Port sk_Proto] in Er. by rewrite Er.
  - by destruct (m_rev m !! _); [specialize (Hnone eq_refl)|].
Qed.

(** C7: the management path translates back what it translated.  For every
    implementation of the kernel's helpers that does what they document, every
    published attachment and all service tables in which targets are led back to
    their services: a packet the sandbox sends from its own address to a
    management prefix leaves for the device of that prefix, under the floating
    address the control plane reports, with nothing but addresses, one port and
    checksums changed and valid checksums still valid; and any answer to the
    packet that left reaches the sandbox's device as an answer to the packet the
    sandbox sent.  A destination that is no service must not itself be the
    target of one. *)
Theorem management_round_trip `{BpfHelpersOk} T cfg i slot s st ifx mac :
  port_live T cfg i slot → services_ok (snd T) → services_inverse (snd T) →
  ipv4_frame s → get16 (sk_data s) off_h_proto = ETH_P_IP → sk_ingress_ifindex s = si_Ifindex slot →
  get32 (sk_data s) off_ip_saddr = si_InnerIp slot →
  match_mgmt_cidr slot (get32 (sk_data s) off_ip_daddr) = Some (ifx, mac) →
  (svc_found (m_fwd (snd T)) (sk_data s) off_ip_daddr 2 = None → svc_found (m_rev (snd T)) (sk_data s) off_ip_daddr 2 = None) →
  ∃ s1 st1, run_tc (tc_ingress_nx T) s st = (Redirect ifx, MkTc s1 st1) ∧
    get32 (sk_data s1) off_ip_saddr = FloatingIPForAttachment (sc_FloatingIpBase cfg) i (si_Generation slot) ∧
    kept 2 (sk_data s) (sk_data s1) ∧
    ∀ r st2, ipv4_frame r → get16 (sk_data r) off_h_proto = ETH_P_IP → reply_to (sk_data r) (sk_data s1) →
      ∃ r' st3, run_tc (tc_ingress_mx T) r st2 = (Redirect (si_Ifindex slot), MkTc r' st3) ∧
        reply_to (sk_data r') (sk_data s) ∧ kept 0 (sk_data r) (sk_data r').
Proof.
  intros Hlive Hsvc Hinv Hs Hproto Hdev Hsrc Hm Hnone.
  destruct (nx_translates T cfg i slot Hlive Hsvc s st ifx mac) as (s1 & R1 & Tr1); [done..|].
  set (svc := svc_found _ _ off_ip_daddr 2) in *. set (p := sk_data s) in *.
  destruct (translated_shape _ _ _ _ _ _ _ _ _ _ Hs Tr1) as [El1 Ep1]. fold p in El1, Ep1.
  eexists s1, _. split; [unfold run_tc; by rewrite R1|]. split; [by rewrite (tr_addr_a _ _ _ _ _ _ _ _ _ _ Tr1), nx_floating_ip_control|].
  split; [by eapply translated_kept|]. intros r st2 Hr Hrproto [Afrom Ato Aproto Aports].
  rewrite (tr_addr_b _ _ _ _ _ _ _ _ _ _ Tr1) in Afrom. rewrite (tr_addr_a _ _ _ _ _ _ _ _ _ _ Tr1) in Ato.
  rewrite Ep1 in Aproto, Aports. rewrite El1 in Aports. pose proof (tr_port _ _ _ _ _ _ _ _ _ _ Tr1) as Eport. fold p in Eport. rewrite Eport in Aports.
  pose proof (translated_other_port _ _ _ _ _ _ _ _ _ _ Hs Tr1 0 ltac:(by right) ltac:(by left) ltac:(done)) as Eother. fold p in Eother.
  rewrite Eother in Aports.
  destruct (mx_translates T cfg i slot Hlive Hsvc r st2) as (r' & R2 & Tr2); [done..|].
  destruct (translated_shape _ _ _ _ _ _ _ _ _ _ Hr Tr2) as [El2 Ep2].
  pose proof (translated_other_port _ _ _ _ _ _ _ _ _ _ Hr Tr2 2 ltac:(by left) ltac:(by right) ltac:(done)) as Eother2.
  eexists r', _. split; [unfold run_tc; by rewrite R2|]. split; [|by eapply translated_kept].
  destruct (service_back (snd T) p (sk_data r) Hinv Hnone Aproto Afrom) as [Eip Eport2]; [intros Et; by apply Aports|].
  split; [by rewrite (tr_addr_b _ _ _ _ _ _ _ _ _ _ Tr2)|by rewrite (tr_addr_a _ _ _ _ _ _ _ _ _ _ Tr2)|by rewrite Ep2|].
  intros Et. rewrite El2. split; [|by rewrite Eother2; apply Aports].
  rewrite (tr_port _ _ _ _ _ _ _ _ _ _ Tr2). by apply Eport2.
Qed.

(** *** A switch with one attached port and one service *)
Definition ex_mac (n : Z) : list Z := [2; 0; 0; 0; 0; n].
Definition ex_cidr : MgmtCidr := MkMgmtCidr 2851995648 4294901760 7 (ex_mac 9).
Definition ex_slot : SlotItem :=
  MkSlotItem 12 3232235778 4 167772161 167772162 100 mac_zero 0 0 1 ex_cidr 3 1 [MgmtCidr_zero; MgmtCidr_zero] 1.
Definition ex_config : SwitchConfig := MkSwitchConfig (ex_mac 1) 8 1681915904 50000 0 0 mac_zero 4 1 0 0 0.
Definition ex_service_key : SvcKey := MkSvcKey 2852039166 80 6.
Definition ex_tables : tables :=
  (replicate 2 SlotItem_zero ++ [ex_slot],
   MkMaps {[ 0 := ex_config ]} ∅ ∅ {[ 12 := 2 ]} ∅
     {[ ex_service_key := MkSvcVal 2851995653 8080 ]} {[ MkSvcKey 2851995653 8080 6 := MkSvcVal 2852039166 80 ]}).
(** A TCP segment from 192.168.1.2:40000 to 169.254.169.254:80. *)
Definition ex_frame : list Z :=
  ex_mac 1 ++ ex_mac 2 ++ [8; 0] ++
  [69; 0; 0; 40; 0; 0; 64; 0; 64; 6; 37; 41; 192; 168; 1; 2; 169; 254; 169; 254] ++
  [156; 64; 0; 80; 0; 0; 0; 1; 0; 0; 0; 0; 80; 2; 1; 0; 252; 169; 0; 0].
Example ex_frame_checksums : l3_ok ex_frame ∧ l4_ok ex_frame.
Proof. by split_and!. Qed.
Definition ex_skb : skb := MkSkb ex_frame 54 12.

Lemma ex_slot_typed : slot_typed ex_slot.
Proof. split; decide_true. Qed.
Lemma ex_port_live : @port_live simple_helpers ex_tables ex_config 2 ex_slot.
Proof.
  split; try (vm_compute; reflexivity).
  - exact ex_slot_typed.
  - unfold ex_config. simpl. lia.
  - done.
  - unfold ex_config, is_u32. simpl. lia.
  - decide_true.
  - decide_true.
Qed.
Lemma ex_services : services_ok (snd ex_tables) ∧ services_inverse (snd ex_tables).
Proof.
  split; [split|]; intros k v; cbn [snd ex_tables m_fwd m_rev]; intros [<- <-]%lookup_singleton_Some; [decide_true..|].
  by rewrite lookup_singleton_eq.
Qed.
Lemma ex_ipv4 : ipv4_frame ex_skb.
Proof. split; try (vm_compute; done || lia); try decide_true. Qed.

Lemma management_round_trip_witness :
  ∃ s1 st1, run_tc (@tc_ingress_nx simple_helpers ex_tables) ex_skb ∅ = (Redirect 7, MkTc s1 st1) ∧
    get32 (sk_data s1) off_ip_saddr = FloatingIPForAttachment 1681915904 2 3 ∧ kept 2 ex_frame (sk_data s1) ∧
    ∀ r st2, ipv4_frame r → get16 (sk_data r) off_h_proto = ETH_P_IP → reply_to (sk_data r) (sk_data s1) →
      ∃ r' st3, run_tc (@tc_ingress_mx simple_helpers ex_tables) r st2 = (Redirect 12, MkTc r' st3) ∧
        reply_to (sk_data r') ex_frame ∧ kept 0 (sk_data r) (sk_data r').
Proof.
  apply (management_round_trip ex_tables ex_config 2 ex_slot ex_skb ∅ 7 (ex_mac 9)).
  - exact ex_port_live.
  - exact (proj1 ex_services).
  - exact (proj2 ex_services).
  - exact ex_ipv4.
  - reflexivity.
  - reflexivity.
  - reflexivity.
  - vm_compute. reflexivity.
  - vm_compute. discriminate.
Defined.

(** ** Where the checksums are lost *)
(** A UDP datagram with a valid checksum whose UDP header lies outside the
    linear part: the address is rewritten, the checksum is not, and the datagram
    leaves with an invalid one. *)
Definition ex_udp : list Z :=
  ex_mac 1 ++ ex_mac 2 ++ [8; 0] ++
  [69; 0; 0; 28; 0; 0; 64; 0; 64; 17; 207; 31; 192; 168; 1; 2; 169; 254; 0; 9] ++ [156; 64; 0; 53; 0; 8; 247; 182].
Example nx_udp_out_of_reach :
  let '(v, s) := run_tc (@tc_ingress_nx simple_helpers ex_tables) (MkSkb ex_udp 34 12) ∅ in
  l4_ok ex_udp ∧ v = Redirect 7 ∧ get32 (sk_data (tc_skb s)) off_ip_saddr = 1681928194 ∧ ¬ l4_ok (sk_data (tc_skb s)).
Proof.
  vm_compute. split; [split; [discriminate|intros _; by right]|]. split; [done|]. split; [done|].
  intros [_ Hu]. destruct (Hu eq_refl); discriminate.
Qed.
(** A later fragment of a TCP packet: two bytes of its payload are taken for a
    checksum and changed. *)
Definition ex_fragment : list Z :=
  ex_mac 1 ++ ex_mac 2 ++ [8; 0] ++
  [69; 0; 0; 40; 0; 0; 0; 185; 64; 6; 0; 0; 192; 168; 1; 2; 169; 254; 0; 9] ++ replicate 20 0.
Example nx_fragment_payload :
  let '(v, s) := run_tc (@tc_ingress_nx simple_helpers ex_tables) (MkSkb ex_fragment 54 12) ∅ in
  v = Redirect 7 ∧ drop 34 (sk_data (tc_skb s)) ≠ drop 34 ex_fragment.
Proof. vm_compute. split; [reflexivity|discriminate]. Qed.
