(* ===== verification/PortGate.v ===== *)
(** * The gate in front of the ports

    Whatever a packet holds and whatever state the tables are in, the three
    programs deliver only to, and accept only from, a port whose attachment is
    published. *)
From S2P Require Import Prelude Errors GoStrings GoNet GoNetSpec BpfTypes Mac Config Prog Maps MgmtService Typed Packet Skb Datapath NatSpec MgmtPath.

(** ** Reasoning about runs *)
(** A run ends early with a verdict in [R], or goes on with a result in [Q]. *)
Definition ends {A} (R : verdict → Prop) (p : tc A) (Q : A → tc_state → Prop) (s : tc_state) : Prop :=
  match p s with (inl v, _) => R v | (inr a, s') => Q a s' end.
Section rules.
Context (R : verdict → Prop).
Lemma ends_bind {A B} (p : tc A) (f : A → tc B) Q s : ends R p (λ a s', ends R (f a) Q s') s → ends R (tbind p f) Q s.
Proof. unfold ends, tbind. by destruct (p s) as [[v|a] s']. Qed.
Lemma ends_ret {A} (a : A) (Q : A → tc_state → Prop) s : Q a s → ends R (tret a) Q s.
Proof. done. Qed.
Lemma ends_act {A} v (Q : A → tc_state → Prop) s : R v → ends R (act v) Q s.
Proof. done. Qed.
Lemma ends_get_skb (Q : skb → tc_state → Prop) s : Q (tc_skb s) s → ends R get_skb Q s.
Proof. done. Qed.
Lemma ends_need n (Q : unit → tc_state → Prop) s : R TC_ACT_OK → ((n ≤ sk_linear (tc_skb s))%nat → Q tt s) → ends R (need n) Q s.
Proof. intros HR HQ. unfold ends, need. destruct (Nat.leb_spec n (sk_linear (tc_skb s))); auto. Qed.
Lemma ends_some_or_ok {A} (o : option A) (Q : A → tc_state → Prop) s : R TC_ACT_OK → (∀ a, o = Some a → Q a s) → ends R (some_or_ok o) Q s.
Proof. intros HR HQ. destruct o; [by apply HQ|done]. Qed.
Lemma ends_mono {A} (p : tc A) (Q Q' : A → tc_state → Prop) s : (∀ a s', Q a s' → Q' a s') → ends R p Q s → ends R p Q' s.
Proof. intros HQ. unfold ends. destruct (p s) as [[v|a] s']; auto. Qed.
End rules.

(** Parts that only ever pass a packet on. *)
Definition passes {A} (p : tc A) : Prop := ∀ s, match p s with (inl v, _) => v = TC_ACT_OK | (inr _, _) => True end.
Lemma passes_bind {A B} (p : tc A) (f : A → tc B) : passes p → (∀ a, passes (f a)) → passes (tbind p f).
Proof. intros Hp Hf s. unfold tbind. pose proof (Hp s) as H. destruct (p s) as [[v|a] s']; [done|apply Hf]. Qed.
Lemma passes_ret {A} (a : A) : passes (tret a).
Proof. done. Qed.
Lemma passes_get_skb : passes get_skb.
Proof. done. Qed.
Lemma passes_need n : passes (need n).
Proof. intros s. unfold need. by destruct (_ <=? _)%nat. Qed.
Lemma passes_change f : passes (change_skb f).
Proof. done. Qed.
Lemma passes_write off bs : passes (write off bs).
Proof. done. Qed.
Lemma passes_stats c i g : passes (update_stats c i g).
Proof. done. Qed.
Lemma passes_some {A} (o : option A) : passes (some_or_ok o).
Proof. by destruct o. Qed.
Lemma passes_ok {A} : passes (act (A := A) TC_ACT_OK).
Proof. done. Qed.
Create HintDb tc.
#[export] Hint Resolve @passes_bind @passes_ret passes_get_skb passes_need passes_change passes_write passes_stats @passes_some @passes_ok : tc.
Ltac passes_solve :=
  repeat first
    [ progress (intros; cbv beta)
    | solve [auto with tc]
    | apply passes_bind
    | match goal with |- passes (match ?x with _ => _ end) => destruct x end
    | match goal with |- passes (if ?x then _ else _) => destruct x end ].
Lemma ends_passes {A} R (p : tc A) (Q : A → tc_state → Prop) s : R TC_ACT_OK → passes p → (∀ a s', Q a s') → ends R p Q s.
Proof. intros HR Hp HQ. unfold ends. pose proof (Hp s) as H. destruct (p s) as [[v|a] s']; [by subst|done]. Qed.

Section programs.
Context `{BpfHelpersOk} (T : tables).

Lemma passes_rewrite_addr off l4 pr from to : passes (rewrite_addr off l4 pr from to).
Proof. unfold rewrite_addr, l4_addr_fix, store_bytes, l3_csum_fix, l4_csum_at. passes_solve. Qed.
Lemma passes_rewrite_svc off l4 po pr from svc : passes (rewrite_svc off l4 po pr from svc).
Proof. unfold rewrite_svc, l4_svc_fix, store_bytes, l3_csum_fix, l4_csum_at. passes_solve. Qed.
Lemma passes_rewrite_macs d m : passes (rewrite_macs d m).
Proof. unfold rewrite_macs. passes_solve. Qed.
Lemma passes_flow_hash pr : passes (flow_hash pr).
Proof. unfold flow_hash. passes_solve. Qed.
Lemma passes_write_outer_ip slot : passes (write_outer_ip slot).
Proof. unfold write_outer_ip. passes_solve. Qed.
Lemma passes_write_udp a b : passes (write_udp a b).
Proof. unfold write_udp. passes_solve. Qed.
Lemma passes_write_geneve a b c d : passes (write_geneve a b c d).
Proof. unfold write_geneve. passes_solve. Qed.
Lemma passes_write_locator cfg i : passes (write_locator cfg i).
Proof. unfold write_locator. passes_solve. Qed.
Lemma passes_write_inner_eth cfg slot i pr off : passes (write_inner_eth cfg slot i pr off).
Proof. unfold write_inner_eth. passes_solve. Qed.
Lemma passes_copy_words n : ∀ i off opts, passes (copy_words n i off opts).
Proof. induction n; intros; cbn [copy_words]; passes_solve. Qed.
Lemma passes_transit_locator cfg p : passes (transit_locator cfg p).
Proof. unfold transit_locator. passes_solve. Qed.
End programs.
#[export] Hint Resolve passes_write_outer_ip passes_write_udp passes_write_geneve passes_write_locator passes_write_inner_eth
  passes_copy_words passes_transit_locator : tc.
#[export] Hint Resolve passes_rewrite_addr passes_rewrite_svc passes_rewrite_macs passes_flow_hash : tc.

(** One step of a run; the cases that end with [TC_ACT_OK] or [TC_ACT_SHOT] are closed. *)
Ltac tc_pass := apply ends_bind, ends_passes; [done|solve [auto with tc | passes_solve]|intros ? ?].

(** ** The gate *)
(** Slot [i] is published for the programs. *)
Record port_served `{BpfHelpers} (T : tables) (cfg : SwitchConfig) (i : Z) (slot : SlotItem) : Prop := {
  sv_config : m_config (snd T) !! 0 = Some cfg;
  sv_slot : slot_lookup T i = Some slot;
  sv_taken : is_slot_free (si_InnerIp slot) = false;
  sv_up : 0 < slot_publication_token slot cfg;
}.
(** What each program may do. *)
Definition nx_may `{BpfHelpers} (T : tables) (dev : Z) (v : verdict) : Prop :=
  match v with
  | Redirect d => ∃ cfg i slot, m_ifindex (snd T) !! dev = Some i ∧ port_served T cfg i slot ∧
      (d = dev ∨ ∃ dst mac, match_mgmt_cidr slot dst = Some (d, mac))
  | RedirectNeigh d _ => ∃ cfg i slot, m_ifindex (snd T) !! dev = Some i ∧ port_served T cfg i slot ∧ d = si_TransitIfindex slot ∧ d ≠ 0
  | _ => True
  end.
Definition mx_may `{BpfHelpers} (T : tables) (dev : Z) (p : list Z) (v : verdict) : Prop :=
  match v with
  | Redirect d => get16 p off_h_proto = ETH_P_ARP ∧ d = dev ∨
      ∃ cfg i slot, port_served T cfg i slot ∧ i < sc_N_ports cfg ∧ d = si_Ifindex slot ∧ d ≠ 0 ∧
        floating_identity cfg (get32 p off_ip_daddr) = Some (i, si_Generation slot)
  | RedirectNeigh _ _ => False
  | _ => True
  end.
Definition transit_may `{BpfHelpers} (T : tables) (p : list Z) (v : verdict) : Prop :=
  match v with
  | Redirect d => ∃ cfg i slot, port_served T cfg i slot ∧ i < sc_N_ports cfg ∧ d = si_Ifindex slot ∧ d ≠ 0 ∧
      get32 p off_ip_saddr = si_TransitGatewayIp slot ∧
      ∃ s s', transit_locator cfg p s = (inr (i, si_TransitGeneveVni slot), s')
  | RedirectNeigh _ _ => False
  | _ => True
  end.

Section gate.
Context `{BpfHelpersOk} (T : tables).

Lemma ends_gate R slot cfg (Q : unit → tc_state → Prop) s : R TC_ACT_SHOT → (0 < slot_publication_token slot cfg → Q tt s) →
  ends R (publication_gate slot cfg) Q s.
Proof. intros HR HQ. unfold publication_gate. destruct (Z.leb_spec (slot_publication_token slot cfg) 0); [done|by apply HQ]. Qed.
Lemma ends_generation R i (Q : Z → tc_state → Prop) s : (∀ g, Q g s) → ends R (stats_generation i) Q s.
Proof. intros HQ. apply HQ. Qed.
Lemma ends_arp R (Q : verdict → tc_state → Prop) mac s : R TC_ACT_OK → (∀ s', Q (Redirect (sk_ingress_ifindex (tc_skb s))) s') →
  ends R (send_arp_reply_with_mac mac) Q s.
Proof.
  intros HR HQ. unfold send_arp_reply_with_mac. apply ends_bind, ends_need; [done|]. intros _. apply ends_bind, ends_get_skb.
  destruct (_ || _); [by apply ends_act|]. apply ends_bind, ends_need; [done|]. intros _.
  do 7 (apply ends_bind, ends_passes; [done|auto with tc|intros ? ?]). apply HQ.
Qed.
Lemma ends_transit R (Q : verdict → tc_state → Prop) cfg slot i g pr s : R TC_ACT_OK →
  (∀ nh s', si_TransitIfindex slot ≠ 0 → Q (RedirectNeigh (si_TransitIfindex slot) nh) s') → ends R (nx_transit T cfg slot i g pr) Q s.
Proof.
  intros HR HQ. unfold nx_transit. apply ends_bind, ends_get_skb.
  destruct (_ || _) eqn:Et; [by apply ends_act|]. apply orb_false_iff in Et as [Et%Z.eqb_neq _].
  apply ends_bind, ends_some_or_ok; [done|]. intros plan _. apply ends_bind, ends_some_or_ok; [done|]. intros [opts crit] _.
  destruct (_ <? _); [by apply ends_act|].
  repeat (apply ends_bind, ends_passes; [done|solve [auto with tc | passes_solve]|intros ? ?]). by apply HQ.
Qed.
Lemma ends_mx_arp R cfg tip s : R TC_ACT_OK → R TC_ACT_SHOT → ends R (mx_arp T cfg tip) (λ _ s', s' = s) s.
Proof.
  intros HR HS. unfold mx_arp. destruct (floating_identity cfg tip) as [[sid gen]|]; [|done].
  destruct (_ <? _); [by apply ends_act|]. destruct (_ && _); [|done]. destruct (slot_lookup T sid) as [slot|]; [|done].
  destruct (_ && _); [|done]. by apply ends_bind, ends_gate.
Qed.

Lemma nx_gate s : ends (nx_may T (sk_ingress_ifindex (tc_skb s))) (tc_ingress_nx T) (λ v _, nx_may T (sk_ingress_ifindex (tc_skb s)) v) s.
Proof.
  set (R := nx_may _ _). unfold tc_ingress_nx. apply ends_bind, ends_need; [done|]. intros _.
  apply ends_bind, ends_some_or_ok; [done|]. intros cfg Hcfg. apply ends_bind, ends_get_skb.
  apply ends_bind, ends_some_or_ok; [done|]. intros i Hi. apply ends_bind, ends_generation. intros g.
  apply ends_bind, ends_some_or_ok; [done|]. intros slot Hslot. destruct (is_slot_free _) eqn:Hfree; [by apply ends_act|].
  apply ends_bind, ends_gate; [done|]. intros Hup. destruct (negb _); [by apply ends_act|].
  assert (Hserved : port_served T cfg i slot) by by split.
  assert (Hneigh : ∀ nh, si_TransitIfindex slot ≠ 0 → R (RedirectNeigh (si_TransitIfindex slot) nh)) by (intros; by exists cfg, i, slot).
  destruct (_ =? ETH_P_ARP).
  - do 2 (apply ends_bind, ends_need; [done|]; intros _). apply ends_arp; [done|]. intros ?. exists cfg, i, slot. auto.
  - apply ends_bind. eapply (ends_mono _ _ (λ m s', ∀ d mac, m = Some (d, mac) → ∃ dst, match_mgmt_cidr slot dst = Some (d, mac))).
    2:{ destruct (_ =? ETH_P_IP); [apply ends_bind, ends_need; [done|]; intros _|]; apply ends_ret; [|done]. intros d mac Hm. by eexists. }
    intros [[d mac]|] s' Hm.
    + destruct (Hm d mac eq_refl) as [dst Hdst]. unfold nx_mgmt. apply ends_bind, ends_get_skb. do 4 tc_pass. apply ends_ret.
      exists cfg, i, slot. split_and!; [done|done|]. right. by exists dst, mac.
    + destruct (_ && _); [by apply ends_act|]. by apply ends_transit; [|intros; apply Hneigh].
Qed.
Lemma mx_gate s : let p := sk_data (tc_skb s) in let dev := sk_ingress_ifindex (tc_skb s) in
  ends (mx_may T dev p) (tc_ingress_mx T) (λ v _, mx_may T dev p v) s.
Proof.
  intros p dev. set (R := mx_may _ _ _). unfold tc_ingress_mx. apply ends_bind, ends_need; [done|]. intros _.
  apply ends_bind, ends_some_or_ok; [done|]. intros cfg Hcfg. apply ends_bind, ends_get_skb.
  destruct (Z.eqb_spec (get16 (sk_data (tc_skb s)) off_h_proto) ETH_P_ARP) as [Ea|Ea].
  - do 2 (apply ends_bind, ends_need; [done|]; intros _). apply ends_bind.
    eapply (ends_mono _ _ (λ _ s', s' = s)); [|by apply ends_mx_arp]. intros mac s' ->. apply ends_arp; [done|]. intros ?. by left.
  - destruct (negb _); [by apply ends_act|]. unfold mx_ip. apply ends_bind, ends_need; [done|]. intros _. apply ends_bind, ends_get_skb.
    apply ends_bind, ends_some_or_ok; [done|]. intros [i gen] Hid. destruct (_ || _) eqn:Eg; [by apply ends_act|].
    apply orb_false_iff in Eg as [_ Hn%Z.leb_gt]. apply ends_bind, ends_generation. intros g.
    apply ends_bind, ends_some_or_ok; [done|]. intros slot Hslot. destruct (_ || _) eqn:Et; [by apply ends_act|].
    apply orb_false_iff in Et as [[Hgen%negb_false_iff%Z.eqb_eq Hfree]%orb_false_iff Hdev%Z.eqb_neq].
    apply ends_bind, ends_gate; [done|]. intros Hup. do 3 tc_pass. apply ends_bind, ends_get_skb. tc_pass. apply ends_ret.
    right. exists cfg, i, slot. split_and!; [by split|done|done|done|]. by rewrite Hgen.
Qed.

Lemma ends_result R {A} (p : tc A) (Q : A → tc_state → Prop) s : R TC_ACT_OK → passes p → (∀ a s', p s = (inr a, s') → Q a s') → ends R p Q s.
Proof. intros HR Hp HQ. unfold ends. pose proof (Hp s) as Hps. destruct (p s) as [[v|a] s']; [by subst|by apply HQ]. Qed.
Lemma transit_gate s : let p := sk_data (tc_skb s) in ends (transit_may T p) (tc_ingress_transit T) (λ v _, transit_may T p v) s.
Proof.
  intros p. set (R := transit_may _ _). unfold tc_ingress_transit. apply ends_bind, ends_get_skb.
  apply ends_bind, ends_some_or_ok; [done|]. intros s1 Hpull.
  assert (sk_data s1 = p) as Ep.
  { eapply pull_data_ok; [|exact Hpull]. destruct (Nat.ltb_spec (sk_len (tc_skb s)) 128); lia. }
  rewrite Ep. tc_pass. apply ends_bind, ends_need; [done|]. intros _. destruct (negb _); [by apply ends_act|].
  apply ends_bind, ends_need; [done|]. intros _. destruct (_ || _); [by apply ends_act|]. apply ends_bind, ends_need; [done|]. intros _.
  apply ends_bind, ends_some_or_ok; [done|]. intros cfg Hcfg. apply ends_bind, ends_need; [done|]. intros _.
  do 2 (destruct (negb _) || destruct (_ <? _); [by apply ends_act|]).
  apply ends_bind, ends_result; [done|auto with tc|]. intros [i vni] s2 Hloc. destruct (Z.leb_spec (sc_N_ports cfg) i); [by apply ends_act|].
  apply ends_bind, ends_generation. intros g. apply ends_bind, ends_some_or_ok; [done|]. intros slot Hslot.
  destruct (_ || _) eqn:Et; [by apply ends_act|]. apply orb_false_iff in Et as [Hfree Hdev%Z.eqb_neq].
  apply ends_bind, ends_gate; [done|]. intros Hup. destruct (_ || _) eqn:Ev; [by apply ends_act|].
  apply orb_false_iff in Ev as [Hgw%negb_false_iff%Z.eqb_eq Hvni%negb_false_iff%Z.eqb_eq].
  unfold transit_deliver. apply ends_bind, ends_get_skb. tc_pass. destruct (_ <=? _)%nat; [by apply ends_act|].
  do 5 tc_pass. apply ends_ret. exists cfg, i, slot. split_and!; [by split|done|done|done|done|]. by rewrite <-Hvni; eexists _, _.
Qed.
End gate.

Lemma run_ends R p s st v st' : ends R p (λ v _, R v) (MkTc s st) → run_tc p s st = (v, st') → R v.
Proof. unfold ends, run_tc. destruct (p _) as [[w|w] t]; by intros ? [= <- <-]. Qed.

(** C10: the datapath is closed by default.  Whatever the packet, the counters
    and the state of the tables, and however the kernel's helpers behave within
    their documentation: a packet of a port is sent on only when the port's
    device leads to a slot that is taken and up, and then back to the port (an
    ARP reply), to a management device of one of its prefixes, or to the device
    of its transit network; a packet from a management device is delivered only
    to the device of a slot that is taken, up and of the generation its address
    names (ARP requests are answered to where they came from); and a packet from
    a transit network only to the device of a slot that is taken and up, that
    the packet's locator names, and whose gateway and network identifier it
    carries. *)
Theorem datapath_closed `{BpfHelpersOk} T s st v st' :
  (run_tc (tc_ingress_nx T) s st = (v, st') → nx_may T (sk_ingress_ifindex s) v) ∧
  (run_tc (tc_ingress_mx T) s st = (v, st') → mx_may T (sk_ingress_ifindex s) (sk_data s) v) ∧
  (run_tc (tc_ingress_transit T) s st = (v, st') → transit_may T (sk_data s) v).
Proof.
  split_and!; apply run_ends.
  - apply (nx_gate T (MkTc s st)).
  - apply (mx_gate T (MkTc s st)).
  - apply (transit_gate T (MkTc s st)).
Qed.
Lemma datapath_closed_witness :
  let '(v, t) := run_tc (@tc_ingress_nx simple_helpers ex_tables) ex_skb ∅ in v = Redirect 7 ∧ @nx_may simple_helpers ex_tables 12 v.
Proof.
  destruct (run_tc (@tc_ingress_nx simple_helpers ex_tables) ex_skb ∅) as [v t] eqn:E. split.
  - apply (f_equal fst) in E. vm_compute in E. by subst v.
  - exact (proj1 (datapath_closed ex_tables ex_skb ∅ v t) E).
Defined.
