(* ===== verification/TransitPath.v ===== *)
(** * The transit path

    The frame [tc_ingress_nx] sends into the transit network, byte by byte, and
    what [tc_ingress_transit] makes of such a frame at the other end. *)
From S2P Require Import Prelude Errors GoStrings GoNet GoNetSpec BpfTypes Mac Geneve Config Prog Maps MgmtService Typed Packet Skb Datapath NatSpec MgmtPath.

(** ** The outer headers *)
Definition ip_header_with (check : list Z) (tot src dst : Z) : list Z :=
  [69; 0] ++ bytes16 tot ++ [0; 0] ++ bytes16 16384 ++ [64; IPPROTO_UDP] ++ check ++ bytes32 src ++ bytes32 dst.
(** The one's complement of the sum of the words, in network order. *)
Definition ip_header (tot src dst : Z) : list Z :=
  let c := ip_checksum (ip_header_with [0; 0] tot src dst) IP_HLEN in
  ip_header_with [u8 c; u8 (c / 256)] tot src dst.
Definition udp_header (src_port dst_port len : Z) : list Z := bytes16 src_port ++ bytes16 dst_port ++ bytes16 len ++ [0; 0].
Definition geneve_header (opts_len proto_type vni : Z) (critical : bool) : list Z :=
  [u8 (opts_len / 4); if critical then 64 else 0] ++ bytes16 proto_type ++
  [Z.land (Z.shiftr vni 16) 255; Z.land (Z.shiftr vni 8) 255; Z.land vni 255; 0].
Definition locator_option (cfg : SwitchConfig) (i : Z) : list Z :=
  bytes16 (sc_GeneveTlvClass cfg) ++ [sc_GeneveTlvType cfg; 1] ++ bytes32 i.

(** *** The header checksum *)
(** The loop adds the words as a little-endian machine reads them; byte order
    only multiplies the sum by 256 (RFC 1071). *)
Fixpoint le_sum (l : list Z) : Z := match l with a :: b :: l => a + b * 256 + le_sum l | [a] => a | [] => 0 end.
Lemma pair_ind (P : list Z → Prop) : P [] → (∀ a, P [a]) → (∀ a b l, P l → P (a :: b :: l)) → ∀ l, P l.
Proof.
  intros H0 H1 H2. assert (∀ l, P l ∧ ∀ a, P (a :: l)) as H; [|apply H].
  induction l as [|b l [IH1 IH2]]; split; auto.
Qed.
Lemma words_sum_le l : words_sum l ≡₁ 256 * le_sum l.
Proof.
  induction l as [|a|a b l IH] using pair_ind; cbn [words_sum le_sum]; [done|by rewrite Z.mul_comm|].
  rewrite IH. apply eqm_iff. exists (- b). lia.
Qed.
Lemma csum_add_plain a b : 0 ≤ a → 0 ≤ b → a + b < 2 ^ 32 → csum_add a b = a + b.
Proof.
  intros. unfold csum_add, u32. rewrite (Z.mod_small (a + b)) by lia. rewrite (proj2 (Z.ltb_ge (a + b) b)) by lia.
  rewrite Z.add_0_r. apply Z.mod_small; lia.
Qed.
Lemma ip_checksum_loop_sum p : bytes p → length p = 20%nat → ∀ n i sum, (n + i = 10)%nat → 0 ≤ sum ≤ Z.of_nat i * 65535 →
  ip_checksum_loop n i p 20 sum = sum + le_sum (drop (i * 2) p) ∧ 0 ≤ sum + le_sum (drop (i * 2) p) ≤ 655350.
Proof.
  intros Hb Hl. induction n as [|n IH]; intros i sum Hn Hs; cbn [ip_checksum_loop].
  - rewrite drop_ge by lia. cbn [le_sum]. lia.
  - rewrite (proj2 (Nat.leb_gt 20 (i * 2))) by lia.
    assert (drop (i * 2) p = get8 p (i * 2) :: get8 p (i * 2 + 1) :: drop (S i * 2) p) as ->.
    { unfold get8. rewrite <-(nth_skipn (i * 2) p 1 0). rewrite <-(Nat.add_0_r (i * 2)) at 2. rewrite <-(nth_skipn (i * 2) p 0 0).
      replace (S i * 2)%nat with (i * 2 + 2)%nat by lia. rewrite <-drop_drop. pose proof (length_drop p (i * 2)) as Hd.
      destruct (drop (i * 2) p) as [|a [|b l]]; simpl in Hd; [lia|lia|done]. }
    pose proof (get8_u8 p (i * 2) Hb). pose proof (get8_u8 p (i * 2 + 1) Hb). unfold is_u8 in *. cbn [le_sum].
    rewrite csum_add_plain by lia. destruct (IH (S i) (sum + (get8 p (i * 2) + get8 p (i * 2 + 1) * 256))) as [-> ?]; lia.
Qed.
Lemma csum_fold_spec s : 0 ≤ s < 2 ^ 32 → is_u16 (csum_fold s) ∧ csum_fold s ≡₁ - s.
Proof.
  intros Hs. unfold csum_fold. change 65535 with (Z.ones 16). rewrite !Z.land_ones, !Z.shiftr_div_pow2 by lia. change (2 ^ 16) with 65536.
  pose proof (Z.div_mod s 65536). pose proof (Z.mod_pos_bound s 65536). assert (0 ≤ s / 65536 ≤ 65535) by (split; [apply Z.div_pos|apply Z.lt_succ_r, Z.div_lt_upper_bound]; lia).
  set (c1 := u32 (s mod 65536 + s / 65536)). assert (E1 : c1 = s mod 65536 + s / 65536) by (apply Z.mod_small; lia).
  pose proof (Z.div_mod c1 65536). pose proof (Z.mod_pos_bound c1 65536). assert (0 ≤ c1 / 65536 ≤ 1) by (split; [apply Z.div_pos|apply Z.lt_succ_r, Z.div_lt_upper_bound]; lia).
  set (c2 := u32 (c1 mod 65536 + c1 / 65536)). assert (E2 : c2 = c1 mod 65536 + c1 / 65536) by (apply Z.mod_small; lia).
  assert (0 ≤ c2 ≤ 65535) by lia. unfold u16, Z.lnot, Z.pred.
  assert ((- c2 + -1) mod 2 ^ 16 = 65535 - c2) as ->.
  { replace (- c2 + -1) with (65535 - c2 + (-1) * 2 ^ 16) by lia. rewrite Z.mod_add by lia. apply Z.mod_small. lia. }
  split; [unfold is_u16; lia|]. apply eqm_iff. exists (1 + s / 65536 + c1 / 65536). lia.
Qed.
Lemma ip_header_with_ok c tot src dst : bytes c → bytes (ip_header_with c tot src dst).
Proof.
  intros Hc. unfold ip_header_with. repeat apply Forall_app_2; try apply bytes16_ok; try apply bytes32_ok; try done; decide_true.
Qed.
(** The header is valid: its words add up to zero. *)
Lemma ip_header_valid tot src dst : words_sum (ip_header tot src dst) ≡₁ 0.
Proof.
  unfold ip_header. set (h0 := ip_header_with [0; 0] tot src dst). set (c := ip_checksum h0 IP_HLEN).
  assert (Hb : bytes h0) by (apply ip_header_with_ok; decide_true).
  destruct (ip_checksum_loop_sum h0 Hb eq_refl 10 0 0) as [El Hr]; [done|lia|]. rewrite drop_0, Z.add_0_l in *.
  destruct (csum_fold_spec (le_sum h0)) as [Hc Hcc]; [lia|]. assert (c = csum_fold (le_sum h0)) as Ec by (rewrite <-El; reflexivity).
  rewrite <-Ec in Hc, Hcc.
  assert (words_sum (ip_header_with [u8 c; u8 (c / 256)] tot src dst) = words_sum h0 + (u8 c * 256 + u8 (c / 256))) as ->.
  { unfold h0, ip_header_with. cbn [words_sum app bytes16 bytes32]. lia. }
  assert (u8 c * 256 + u8 (c / 256) ≡₁ 256 * c) as ->.
  { unfold u8, is_u16 in *. change (2 ^ 8) with 256. rewrite (Z.mod_small (c / 256)) by (split; [apply Z.div_pos|apply Z.div_lt_upper_bound]; lia).
    apply eqm_iff. exists (- (c / 256)). pose proof (Z.div_mod c 256). lia. }
  rewrite words_sum_le, Hcc. apply eqm_iff. exists 0. lia.
Qed.

(** ** Writing *)
Lemma ip_checksum_ext p q : (∀ i, (i < 20)%nat → get8 p i = get8 q i) → ip_checksum p IP_HLEN = ip_checksum q IP_HLEN.
Proof.
  intros Hpq. unfold ip_checksum. f_equal. unfold IP_HLEN.
  assert (∀ n i sum, (n + i ≤ 10)%nat → ip_checksum_loop n i p 20 sum = ip_checksum_loop n i q 20 sum) as Hl; [|by apply Hl].
  induction n as [|n IH]; intros i sum Hn; [done|]. cbn [ip_checksum_loop]. destruct (_ <=? _)%nat; [done|].
  rewrite !Hpq by lia. apply IH. lia.
Qed.
Lemma tbind_run {A B} (q : tc A) (k : A → tc B) s a s' : q s = (inr a, s') → tbind q k s = k a s'.
Proof. intros E. unfold tbind. by rewrite E. Qed.
Lemma tbind_get {A} (k : skb → tc A) s : tbind get_skb k s = k (tc_skb s) s.
Proof. done. Qed.
Lemma tbind_some {A B} (o : option A) (k : A → tc B) a s : o = Some a → tbind (some_or_ok o) k s = k a s.
Proof. by intros ->. Qed.
Lemma tbind_none {A B} (o : option A) (k : A → tc B) s : o = None → tbind (some_or_ok o) k s = (inl TC_ACT_OK, s).
Proof. by intros ->. Qed.
Lemma tbind_change {A} f (k : unit → tc A) s : tbind (change_skb f) k s = k tt (MkTc (f (tc_skb s)) (tc_stats s)).
Proof. done. Qed.
Lemma tbind_need {A} n (k : unit → tc A) s : (n ≤ sk_linear (tc_skb s))%nat → tbind (need n) k s = k tt s.
Proof. intros Hn. apply tbind_run. unfold need. by rewrite (proj2 (Nat.leb_le _ _)). Qed.
Section writes.
Context (lin : nat) (dev : Z) (st : gmap Z SlotStats).
Definition at_data (p : list Z) : tc_state := MkTc (MkSkb p lin dev) st.

Lemma run_write off bs p : write off bs (at_data p) = (inr tt, at_data (splice off bs p)).
Proof. done. Qed.
Lemma bind_write {A} off bs (k : unit → tc A) p : tbind (write off bs) k (at_data p) = k tt (at_data (splice off bs p)).
Proof. done. Qed.
Lemma bind_need {A} n (k : unit → tc A) p : (n ≤ lin)%nat → tbind (need n) k (at_data p) = k tt (at_data p).
Proof. intros Hn. unfold tbind, need, at_data. cbn [tc_skb sk_linear]. by rewrite (proj2 (Nat.leb_le _ _)). Qed.
Lemma bind_get {A} (k : skb → tc A) p : tbind get_skb k (at_data p) = k (MkSkb p lin dev) (at_data p).
Proof. done. Qed.
Lemma bind_run {A B} (q : tc A) (k : A → tc B) a p p' : q (at_data p) = (inr a, at_data p') → tbind q k (at_data p) = k a (at_data p').
Proof. intros E. unfold tbind. by rewrite E. Qed.

Lemma run_outer_ip slot p : (34 ≤ length p)%nat →
  write_outer_ip slot (at_data p) =
    (inr tt, at_data (splice 14 (ip_header (u16 (Z.of_nat (length p) - 14)) (si_TransitIp slot) (si_TransitGatewayIp slot)) p)).
Proof.
  intros Hl. unfold write_outer_ip. rewrite bind_get. cbn [sk_len sk_data]. set (tot := u16 _).
  rewrite !bind_write. rewrite bind_get. cbn [sk_data].
  rewrite !(splice_adj 14) by first [reflexivity|simpl; lia].
  set (src := si_TransitIp slot). set (dst := si_TransitGatewayIp slot).
  match goal with |- context [splice 14 ?h p] => change h with (ip_header_with [0; 0] tot src dst) end.
  rewrite (ip_checksum_ext _ (ip_header_with [0; 0] tot src dst)).
  - rewrite run_write. do 2 f_equal. unfold ip_header. set (c := ip_checksum _ _).
    exact (splice_inside 14 ([69; 0] ++ bytes16 tot ++ [0; 0] ++ bytes16 16384 ++ [64; IPPROTO_UDP]) [0; 0]
             (bytes32 src ++ bytes32 dst) [u8 c; u8 (c / 256)] p eq_refl Hl).
  - intros i Hi. unfold get8 at 1. rewrite nth_skipn. change (nth (ETH_HLEN + i) ?q 0) with (get8 q (ETH_HLEN + i)).
    rewrite get8_splice by (exact Hl). rewrite bool_decide_eq_true_2 by (unfold ETH_HLEN; simpl; lia).
    unfold ETH_HLEN. by replace (14 + i - 14)%nat with i by lia.
Qed.
Lemma run_udp src_port dst_port p : (42 ≤ length p)%nat →
  write_udp src_port dst_port (at_data p) =
    (inr tt, at_data (splice off_udp (udp_header src_port dst_port (u16 (Z.of_nat (length p) - 34))) p)).
Proof.
  intros Hl. unfold write_udp. rewrite bind_get. cbn [sk_len sk_data]. set (len := u16 _). rewrite !bind_write, run_write. do 2 f_equal.
  change off_udp with 34%nat. by rewrite !(splice_adj 34) by first [reflexivity|simpl; lia].
Qed.
Lemma run_geneve opts_len proto_type vni critical p : (50 ≤ length p)%nat →
  write_geneve opts_len proto_type vni critical (at_data p) =
    (inr tt, at_data (splice off_geneve (geneve_header opts_len proto_type vni critical) p)).
Proof.
  intros Hl. unfold write_geneve. rewrite !bind_write, run_write. do 2 f_equal.
  change off_geneve with 42%nat. by rewrite !(splice_adj 42) by first [reflexivity|simpl; lia].
Qed.
Lemma run_locator cfg i p : (58 ≤ length p)%nat → (58 ≤ lin)%nat →
  write_locator cfg i (at_data p) = (inr tt, at_data (splice off_geneve_opts (locator_option cfg i) p)).
Proof.
  intros Hl Hlin. unfold write_locator. rewrite !bind_need by (change off_geneve_opts with 50%nat; lia). rewrite !bind_write, run_write. do 2 f_equal.
  change off_geneve_opts with 50%nat. by rewrite !(splice_adj 50) by first [reflexivity|simpl; lia].
Qed.
Lemma run_inner_eth cfg slot i proto off p :
  is_mac (inner_dst_mac slot) → is_mac (get_port_mac cfg i) → (off + 14 ≤ length p)%nat → (off + 14 ≤ lin)%nat →
  write_inner_eth cfg slot i proto off (at_data p) =
    (inr tt, at_data (splice off (inner_dst_mac slot ++ get_port_mac cfg i ++ bytes16 proto) p)).
Proof.
  intros [Hd _] [Hs _] Hl Hlin. unfold write_inner_eth. rewrite bind_need by (unfold ETH_HLEN; lia). rewrite !bind_write, run_write. do 2 f_equal.
  unfold off_h_source, off_h_proto. rewrite (splice_adj off) by (rewrite ?Hd, ?Hs; lia).
  rewrite splice_adj by (rewrite ?length_app, ?Hd, ?Hs; simpl; lia). by rewrite app_assoc.
Qed.
(** The option words, one by one. *)
Lemma run_copy_words opts off : Nat.divide 4 (length opts) → (off + length opts ≤ lin)%nat →
  ∀ n i p, (length opts ≤ (i + n) * 4)%nat → (i * 4 ≤ length opts)%nat → (off + length opts ≤ length p)%nat →
  copy_words n i off opts (at_data (splice off (take (i * 4) opts) p)) = (inr tt, at_data (splice off opts p)).
Proof.
  intros [k Hk] Hlin. induction n as [|n IH]; intros i p Hn Hi Hl; cbn [copy_words].
  - rewrite take_ge by lia. done.
  - destruct (Nat.leb_spec (length opts) (i * 4)) as [Hle|Hlt]; [by rewrite take_ge by lia|].
    rewrite bind_need, bind_write by lia.
    rewrite splice_adj by (rewrite length_take, ?length_take, ?length_drop; lia).
    assert (take (i * 4) opts ++ take 4 (drop (i * 4) opts) = take (S i * 4) opts) as ->.
    { rewrite take_drop_commute. replace (i * 4 + 4)%nat with (S i * 4)%nat by lia.
      rewrite <-(take_drop (i * 4) (take (S i * 4) opts)) at 2. by rewrite take_take, Nat.min_l by lia. }
    apply IH; lia.
Qed.
End writes.

(** ** The frame of the transit network *)
Definition is_tlv (cfg : SwitchConfig) : bool := sc_GeneveLocator cfg =? 2.
Definition encap_eth (cfg : SwitchConfig) : bool := negb (sc_GeneveEncapEth cfg =? 0).
Definition locator_bytes (cfg : SwitchConfig) (i : Z) : list Z := if is_tlv cfg then locator_option cfg i else [].
Definition inner_eth (cfg : SwitchConfig) (slot : SlotItem) (i proto : Z) : list Z :=
  if encap_eth cfg then inner_dst_mac slot ++ get_port_mac cfg i ++ bytes16 proto else [].
Definition transit_options (cfg : SwitchConfig) (i : Z) (opts : list Z) : list Z := locator_bytes cfg i ++ opts.
Definition wire_critical (cfg : SwitchConfig) (user : bool) : bool :=
  user || is_tlv cfg && negb (Z.land (sc_GeneveTlvType cfg) 128 =? 0).
Definition payload_type (cfg : SwitchConfig) (proto : Z) : Z := if encap_eth cfg then ETH_P_TEB else proto.
(** Everything in front of a payload of [len] bytes. *)
Definition outer_headers (cfg : SwitchConfig) (slot : SlotItem) (i proto src_port : Z) (plan : locator_plan) (opts : list Z)
    (user_critical : bool) (len : nat) : list Z :=
  let o := transit_options cfg i opts in
  let e := inner_eth cfg slot i proto in
  let n := Z.of_nat (36 + length o + length e + len) in
  sc_SwitchMac cfg ++ sc_SwitchMac cfg ++ bytes16 ETH_P_IP ++
  ip_header (u16 n) (si_TransitIp slot) (si_TransitGatewayIp slot) ++
  udp_header src_port (lp_port plan) (u16 (n - 20)) ++
  geneve_header (Z.of_nat (length o)) (payload_type cfg proto) (lp_vni plan) (wire_critical cfg user_critical) ++
  o ++ e.

Section encapsulation.
Context `{BpfHelpersOk} (T : tables) (cfg : SwitchConfig) (i : Z) (slot : SlotItem).
Context (Hlive : port_live T cfg i slot).

Lemma nx_locator_len plan : nx_locator cfg slot i = Some plan → lp_len plan = Z.of_nat (length (locator_bytes cfg i)).
Proof.
  unfold nx_locator, locator_bytes, is_tlv. destruct (Z.eqb_spec (sc_GeneveLocator cfg) 0) as [->|]; [by intros [= <-]|].
  destruct (Z.eqb_spec (sc_GeneveLocator cfg) 1) as [->|]; [by intros [= <-]|].
  destruct (Z.eqb_spec (sc_GeneveLocator cfg) 2); [by intros [= <-]|done].
Qed.
(** The option values the control plane stores have their 64 bytes. *)
Definition opts_ok (m : maps_state) : Prop := ∀ k o, m_opts m !! k = Some o → length (gv_Data o) = 64%nat.
Lemma user_opts_shape opts crit : opts_ok (snd T) → nx_user_opts T slot i = Some (opts, crit) → Nat.divide 4 (length opts) ∧ (length opts ≤ 64)%nat.
Proof.
  intros Hok. unfold nx_user_opts. destruct (Z.ltb_spec 0 (si_GeneveOptsLen slot)) as [Hpos|]; [|intros [= <- <-]; split; [by exists 0%nat|simpl; lia]].
  destruct (_ || _) eqn:E; [done|]. apply orb_false_iff in E as [Hle%Z.ltb_ge Hdiv%negb_false_iff%Z.eqb_eq].
  destruct (m_opts (snd T) !! i) as [o|] eqn:Eo; [|done]. destruct (_ || _); [done|]. intros [= <- <-].
  rewrite length_take, (Hok _ _ Eo). unfold MaxGeneveOptsLen in Hle. rewrite Nat.min_l by lia. split; [|lia].
  change 3 with (Z.ones 2) in Hdiv. rewrite Z.land_ones in Hdiv by lia. change (2 ^ 2) with 4 in Hdiv.
  exists (Z.to_nat (si_GeneveOptsLen slot / 4)). pose proof (Z.div_mod (si_GeneveOptsLen slot) 4). lia.
Qed.
Lemma inner_dst_mac_ok : is_mac (inner_dst_mac slot).
Proof. unfold inner_dst_mac. destruct (is_zero_mac _); [split; [done|by decide_true]|apply (pl_typed _ _ _ _ Hlive)]. Qed.
Lemma length_inner_eth proto : length (inner_eth cfg slot i proto) = if encap_eth cfg then 14%nat else 0%nat.
Proof.
  unfold inner_eth. destruct (encap_eth cfg); [|done]. rewrite !length_app. destruct inner_dst_mac_ok as [-> _].
  destruct (get_port_mac_ok cfg i) as [-> _]; [apply Hlive..|done].
Qed.

Lemma length_eth_header : length (sc_SwitchMac cfg ++ sc_SwitchMac cfg ++ bytes16 ETH_P_IP) = 14%nat.
Proof. rewrite !length_app. destruct (pl_switch_mac _ _ _ _ Hlive) as [-> _]. done. Qed.
Lemma length_locator : length (locator_bytes cfg i) = if is_tlv cfg then 8%nat else 0%nat.
Proof. unfold locator_bytes. by destruct (is_tlv cfg). Qed.
(** Disjoint pieces behind a prefix that grows. *)
Lemma splice_grow n a b off e p : n = length a → (length (a ++ b) ≤ off)%nat → (off + length e ≤ length p)%nat →
  splice n b (splice off e (splice 0 a p)) = splice off e (splice 0 (a ++ b) p).
Proof.
  intros -> H1 H2. rewrite length_app in H1. rewrite splice_swap by (rewrite ?length_splice; simpl; lia).
  by rewrite (splice_adj 0) by (simpl; lia).
Qed.
Lemma run_if {A} (c : bool) (p q : tc A) s r : (c = true → p s = r) → (c = false → q s = r) → (if c then p else q) s = r.
Proof. destruct c; auto. Qed.

Lemma length_outer proto src plan opts uc len : 
  length (outer_headers cfg slot i proto src plan opts uc len) =
    (50 + length (transit_options cfg i opts) + length (inner_eth cfg slot i proto))%nat.
Proof.
  unfold outer_headers. rewrite !length_app. destruct (pl_switch_mac _ _ _ _ Hlive) as [-> _].
  change (length (ip_header _ _ _)) with 20%nat. change (length (udp_header _ _ _)) with 8%nat.
  change (length (geneve_header _ _ _ _)) with 8%nat. change (length (bytes16 _)) with 2%nat. lia.
Qed.

Section fill.
Context (lin : nat) (dev : Z) (st : gmap Z SlotStats) (P : list Z).
Context (proto src : Z) (plan : locator_plan) (opts : list Z) (uc : bool).
Notation o := (transit_options cfg i opts).
Notation e := (inner_eth cfg slot i proto).
Context (Hdiv : Nat.divide 4 (length opts)) (Hmax : (length opts ≤ 64)%nat).
Context (Hlin : (50 + length o + length e ≤ lin)%nat) (HP : (50 + length o + length e ≤ length P)%nat).

(** The writes of [nx_transit], in the order of the source, and what follows. *)
Definition fill_headers {A} (k : tc A) : tc A :=
  let opts_end := (off_geneve_opts + length o)%nat in
  do _ <- write off_h_dest (sc_SwitchMac cfg) in
  do _ <- write off_h_source (sc_SwitchMac cfg) in
  do _ <- write off_h_proto (bytes16 ETH_P_IP) in
  do _ <- if encap_eth cfg then write_inner_eth cfg slot i proto opts_end else tret tt in
  do _ <- write_outer_ip slot in
  do _ <- write_udp src (lp_port plan) in
  do _ <- write_geneve (Z.of_nat (length o)) (payload_type cfg proto) (lp_vni plan) (wire_critical cfg uc) in
  do _ <- if is_tlv cfg then write_locator cfg i else tret tt in
  do _ <- copy_words 16 0 (off_geneve_opts + (if is_tlv cfg then 8 else 0)) opts in
  k.

Lemma run_fill_headers {A} (k : tc A) :
  fill_headers k (at_data lin dev st P) =
    k (at_data lin dev st (splice 0 (outer_headers cfg slot i proto src plan opts uc (length P - (50 + length o + length e))) P)).
Proof.
  pose proof length_eth_header as Heth. pose proof length_locator as Hloc. pose proof (length_inner_eth proto) as He.
  destruct (pl_switch_mac _ _ _ _ Hlive) as [Hsm _]. unfold fill_headers. rewrite !bind_write.
  change off_h_source with 6%nat. change off_h_proto with 12%nat. change off_h_dest with 0%nat.
  rewrite (splice_adj 0) by (rewrite ?Hsm; lia). rewrite (splice_adj 0) by (rewrite ?length_app, ?Hsm; simpl; lia).
  rewrite <-app_assoc. unfold outer_headers. remember (sc_SwitchMac cfg ++ sc_SwitchMac cfg ++ bytes16 ETH_P_IP) as h0 eqn:Eh0.
  assert (Hlo : length o = (length (locator_bytes cfg i) + length opts)%nat) by apply length_app.
  remember (50 + length o)%nat as oe eqn:Eoe. change (off_geneve_opts + length o)%nat with (50 + length o)%nat. rewrite <-Eoe.
  (* the inner Ethernet header *)
  rewrite (bind_run _ _ _ _ _ tt _ (splice oe e (splice 0 h0 P))).
  2:{ unfold inner_eth in *. destruct (encap_eth cfg); [|by rewrite splice_nil].
      apply run_inner_eth; [apply inner_dst_mac_ok|apply get_port_mac_ok; apply Hlive|rewrite length_splice; lia|lia]. }
  assert (Hlen : ∀ h, (length h ≤ oe)%nat → length (splice oe e (splice 0 h P)) = length P).
  { intros h Hh. rewrite !length_splice; rewrite ?length_splice; lia. }
  (* the outer headers *)
  pose proof (run_outer_ip lin dev st slot (splice oe e (splice 0 h0 P))) as R1. rewrite Hlen in R1 by lia.
  rewrite (bind_run _ _ _ _ _ _ _ _ (R1 ltac:(lia))). clear R1. remember (ip_header _ _ _) as h1 eqn:E1.
  assert (H1 : length h1 = 20%nat) by by rewrite E1. rewrite splice_grow by (rewrite ?length_app; lia).
  assert (H01 : length (h0 ++ h1) = 34%nat) by (rewrite length_app; lia).
  pose proof (run_udp lin dev st src (lp_port plan) (splice oe e (splice 0 (h0 ++ h1) P))) as R1. rewrite Hlen in R1 by lia.
  rewrite (bind_run _ _ _ _ _ _ _ _ (R1 ltac:(lia))). clear R1. remember (udp_header _ _ _) as h2 eqn:E2.
  assert (H2 : length h2 = 8%nat) by by rewrite E2. change off_udp with 34%nat.
  rewrite (splice_grow 34) by first [done|rewrite length_app; lia|lia]. assert (H02 : length ((h0 ++ h1) ++ h2) = 42%nat) by (rewrite length_app; lia).
  pose proof (run_geneve lin dev st (Z.of_nat (length o)) (payload_type cfg proto) (lp_vni plan) (wire_critical cfg uc)
    (splice oe e (splice 0 ((h0 ++ h1) ++ h2) P))) as R1. rewrite Hlen in R1 by lia.
  rewrite (bind_run _ _ _ _ _ _ _ _ (R1 ltac:(lia))). clear R1. remember (geneve_header _ _ _ _) as h3 eqn:E3.
  assert (H3 : length h3 = 8%nat) by by rewrite E3. change off_geneve with 42%nat.
  rewrite (splice_grow 42) by first [done|rewrite length_app; lia|lia]. assert (H03 : length (((h0 ++ h1) ++ h2) ++ h3) = 50%nat) by (rewrite length_app; lia).
  remember (((h0 ++ h1) ++ h2) ++ h3) as h eqn:Eh.
  (* the options *)
  assert (Hhl : length (h ++ locator_bytes cfg i) = (50 + if is_tlv cfg then 8 else 0)%nat) by (rewrite length_app; lia).
  rewrite (bind_run _ _ _ _ _ tt _ (splice oe e (splice 0 (h ++ locator_bytes cfg i) P))).
  2:{ rewrite <-(splice_grow 50) by first [done|lia]. unfold locator_bytes in *. destruct (is_tlv cfg); [|by rewrite splice_nil].
      apply run_locator; [rewrite Hlen; simpl in *; lia|simpl in *; lia]. }
  assert (Hcl : (length (h ++ locator_bytes cfg i) + length opts ≤ oe)%nat) by (rewrite Hhl, <-Hloc; lia).
  assert (Hcl' : (length (h ++ locator_bytes cfg i) + length opts ≤ lin)%nat) by lia.
  change off_geneve_opts with 50%nat. rewrite <-Hhl.
  pose proof (run_copy_words lin dev st opts _ Hdiv Hcl' 16 0 (splice oe e (splice 0 (h ++ locator_bytes cfg i) P))) as R1.
  change (take (0 * 4) opts) with (@nil Z) in R1. rewrite splice_nil, Hlen in R1 by lia. rewrite (tbind_run _ _ _ _ _ (R1 ltac:(simpl; lia) ltac:(lia) ltac:(lia))). clear R1.
  rewrite splice_grow by first [done|rewrite length_app; lia|lia]. rewrite <-app_assoc. change (locator_bytes cfg i ++ opts) with o.
  rewrite splice_adj by (rewrite ?length_app; lia). rewrite Eh, E1, E2, E3. do 2 f_equal.
  rewrite Eh0, <-!app_assoc.
  replace (Z.of_nat (36 + length o + length e + (length P - (oe + length e)))) with (Z.of_nat (length P) - 14) by lia.
  by replace (Z.of_nat (length P) - 14 - 20) with (Z.of_nat (length P) - 34) by lia.
Qed.
End fill.

Definition encap_size (proto : Z) (opts : list Z) : nat := 36 + length (transit_options cfg i opts) + length (inner_eth cfg slot i proto).
Definition encap_flags : Z :=
  Z.lor (Z.lor BPF_F_ADJ_ROOM_ENCAP_L4_UDP BPF_F_ADJ_ROOM_ENCAP_L3_IPV4) (if encap_eth cfg then BPF_F_ADJ_ROOM_ENCAP_L2 14 else 0).
Definition nexthop_of : option Z := if sc_TransitNexthop cfg =? 0 then None else Some (sc_TransitNexthop cfg).
(** What the slot and the packet need for encapsulation. *)
Record transit_ready (s : skb) (proto : Z) (plan : locator_plan) (opts : list Z) (uc : bool) (h : Z) : Prop := {
  tr_device : si_TransitIfindex slot ≠ 0;
  tr_gateway : si_TransitGatewayIp slot ≠ 0;
  tr_plan : nx_locator cfg slot i = Some plan;
  tr_opts : nx_user_opts T slot i = Some (opts, uc);
  tr_fits : lp_len plan + Z.of_nat (length opts) ≤ MaxGeneveOptsLen;
  tr_hash : ∀ st, flow_hash proto (MkTc s st) = (inr h, MkTc s st);
  tr_linear : (14 ≤ sk_linear s ≤ sk_len s)%nat;
}.
Lemma total_opts_len plan opts : nx_locator cfg slot i = Some plan →
  lp_len plan + Z.of_nat (length opts) = Z.of_nat (length (transit_options cfg i opts)).
Proof. intros Hp. rewrite (nx_locator_len _ Hp). unfold transit_options. rewrite length_app. lia. Qed.
Lemma run_nx_transit s st proto plan opts uc h : opts_ok (snd T) → transit_ready s proto plan opts uc h →
  let g := match st !! i with Some x => st_Generation x | None => 0 end in
  match bpf_skb_adjust_room s (Z.of_nat (encap_size proto opts)) BPF_ADJ_ROOM_MAC encap_flags with
  | None => nx_transit T cfg slot i g proto (MkTc s st) = (inl TC_ACT_OK, MkTc s st)
  | Some _ => ∃ s', nx_transit T cfg slot i g proto (MkTc s st) =
        (inr (RedirectNeigh (si_TransitIfindex slot) nexthop_of), MkTc s' (counted i (count_transit_tx (Z.of_nat (sk_len s))) st)) ∧
      sk_data s' = outer_headers cfg slot i proto (src_port_of h) plan opts uc (sk_len s - 14) ++ drop 14 (sk_data s) ∧
      (14 + encap_size proto opts ≤ sk_linear s')%nat
  end.
Proof.
  intros Hok [Hdev Hgw Hplan Hopts Hfits Hhash Hlin] g. destruct (user_opts_shape _ _ Hok Hopts) as [Hdiv Hmax].
  pose proof (total_opts_len _ opts Hplan) as Htot.
  pose proof (length_inner_eth proto) as He.
  unfold nx_transit. rewrite tbind_get. cbn [tc_skb]. rewrite (proj2 (Z.eqb_neq _ _) Hdev), (proj2 (Z.eqb_neq _ _) Hgw). cbn [orb].
  rewrite (tbind_some _ _ _ _ Hplan), (tbind_some _ _ _ _ Hopts). rewrite Htot, (proj2 (Z.ltb_ge _ _)) by lia.
  rewrite (tbind_run _ _ _ _ _ (Hhash st)). cbv zeta.
  replace (36 + Z.of_nat (length (transit_options cfg i opts)) + (if negb (sc_GeneveEncapEth cfg =? 0) then 14 else 0))
    with (Z.of_nat (encap_size proto opts)) by (unfold encap_size; rewrite He; unfold encap_eth; destruct (negb _); lia).
  change (Z.lor (Z.lor BPF_F_ADJ_ROOM_ENCAP_L4_UDP BPF_F_ADJ_ROOM_ENCAP_L3_IPV4) _) with encap_flags. rewrite Nat2Z.id.
  destruct (bpf_skb_adjust_room _ _ _ _) as [[P lin dev]|] eqn:Eroom; [|done]. rewrite (tbind_some _ _ _ _ eq_refl).
  rewrite tbind_change. cbn [tc_stats]. change (MkTc (MkSkb P lin dev) st) with (at_data lin dev st P).
  apply adjust_room_grow in Eroom as (room & Hroom & EP & _ & Hlin'); [|unfold ETH_HLEN; lia]. cbn [sk_data sk_linear] in EP, Hlin'.
  unfold encap_size in Hlin' at 1, Hroom at 1.
  rewrite !tbind_need by (cbn [at_data tc_skb sk_linear]; unfold off_geneve_opts, off_geneve, off_udp, ETH_HLEN, IP_HLEN, UDP_HLEN, GENEVE_HLEN; lia).
  assert (HlP : length P = (sk_len s + encap_size proto opts)%nat).
  { rewrite EP, !length_app, length_take, length_drop, Hroom. unfold encap_size, sk_len, ETH_HLEN in *. lia. }
  pose proof (run_fill_headers lin dev st P proto (src_port_of h) plan opts uc Hdiv Hmax) as Hfill.
  rewrite HlP in Hfill. unfold encap_size in Hfill.
  match type of Hfill with ?A → ?B → _ => specialize (Hfill ltac:(lia) ltac:(lia) verdict) end.
  replace (sk_len s + _ - _)%nat with (sk_len s - 14)%nat in Hfill by lia.
  set (k := do _ <- update_stats_transit_tx i g (Z.of_nat (sk_len s)) in tret (RedirectNeigh (si_TransitIfindex slot) nexthop_of)).
  exists (MkSkb (splice 0 (outer_headers cfg slot i proto (src_port_of h) plan opts uc (sk_len s - 14)) P) lin dev).
  split_and!; cbn [sk_data sk_linear].
  - etransitivity; [exact (Hfill k)|]. unfold k, update_stats_transit_tx, at_data, g. by rewrite (tbind_run _ _ _ _ _ (update_stats_counted i _ _ _)).
  - rewrite splice_0 by (rewrite length_outer, HlP; unfold encap_size; lia). rewrite length_outer. f_equal.
    rewrite EP, app_assoc. rewrite drop_app_length' by (rewrite length_app, length_take, Hroom; unfold sk_len, ETH_HLEN in *; lia). done.
  - unfold encap_size. lia.
Qed.

(** *** The whole program *)
Definition needed (proto : Z) : nat := if proto =? ETH_P_IP then 34 else 54.
Lemma run_flow_hash s proto : (needed proto ≤ sk_linear s)%nat → ∃ h, ∀ st, flow_hash proto (MkTc s st) = (inr h, MkTc s st).
Proof.
  unfold needed, flow_hash. intros Hl. destruct (proto =? ETH_P_IP); eexists; intros st; rewrite tbind_get, tbind_need by done; cbn [tc_skb]; reflexivity.
Qed.
Lemma src_port_range h : 49152 ≤ src_port_of h ≤ 65535.
Proof.
  unfold src_port_of. set (x := Z.lxor _ _). set (y := u32 _). change 16383 with (Z.ones 14). rewrite Z.land_ones by lia.
  pose proof (Z.mod_pos_bound y (2 ^ 14)). unfold u16. rewrite Z.mod_small by lia. lia.
Qed.
Lemma segment_app a b c : segment (length a) (length a + length b) (a ++ b ++ c) = b.
Proof.
  assert (splice (length a) b (a ++ b ++ c) = a ++ b ++ c) as E.
  { unfold splice. by rewrite take_app_length, (app_assoc a b c), <-length_app, drop_app_length, app_assoc. }
  rewrite <-E. apply segment_in. rewrite !length_app. lia.
Qed.
Lemma outer_l3_ok proto src plan opts uc len rest : l3_ok (outer_headers cfg slot i proto src plan opts uc len ++ rest).
Proof.
  unfold outer_headers. set (n := Z.of_nat _). set (h := ip_header _ _ _). set (e := sc_SwitchMac cfg ++ sc_SwitchMac cfg ++ bytes16 ETH_P_IP).
  pose proof length_eth_header as He. fold e in He.
  match goal with |- l3_ok ((_ ++ _ ++ _ ++ _ ++ ?x) ++ rest) => set (t := x) end.
  replace ((_ ++ _ ++ _ ++ _ ++ t) ++ rest) with (e ++ h ++ t ++ rest) by (unfold e; by rewrite <-!app_assoc).
  assert (Hihl : ∀ q, ip_ihl (e ++ h ++ q) = 5%nat).
  { intros q. unfold ip_ihl, get8, off_ip_verihl. rewrite app_nth2 by lia. by rewrite He. }
  unfold l3_ok, l3_sum, l4_off. rewrite Hihl. change (ETH_HLEN + 5 * 4)%nat with (14 + 20)%nat. change ETH_HLEN with 14%nat.
  rewrite <-He at 1 2. change 20%nat with (length h) at 1. rewrite segment_app. apply ip_header_valid.
Qed.

Lemma nx_transits s st proto plan opts uc : opts_ok (snd T) → sk_ingress_ifindex s = si_Ifindex slot →
  get16 (sk_data s) off_h_proto = proto → proto = ETH_P_IP ∨ proto = ETH_P_IPV6 →
  (proto = ETH_P_IP → match_mgmt_cidr slot (get32 (sk_data s) off_ip_daddr) = None) → (needed proto ≤ sk_linear s ≤ sk_len s)%nat →
  si_TransitIfindex slot ≠ 0 → si_TransitGatewayIp slot ≠ 0 → nx_locator cfg slot i = Some plan → nx_user_opts T slot i = Some (opts, uc) →
  lp_len plan + Z.of_nat (length opts) ≤ MaxGeneveOptsLen →
  ∃ h, transit_ready s proto plan opts uc h ∧
    tc_ingress_nx T (MkTc s st) = nx_transit T cfg slot i (match st !! i with Some x => st_Generation x | None => 0 end) proto (MkTc s st).
Proof.
  intros Hok Hdev Hproto Hp Hm Hlin Hti Hgw Hplan Hopts Hfits. destruct (run_flow_hash s proto) as [h Hh]; [lia|].
  exists h. assert (34 ≤ sk_linear s)%nat as H34 by (unfold needed in Hlin; destruct (_ =? _); lia). split; [split; (done || lia)|].
  unfold tc_ingress_nx. rewrite tbind_need by (cbn [tc_skb]; unfold ETH_HLEN; lia).
  unfold get_config. rewrite (tbind_some _ _ _ _ (pl_config _ _ _ _ Hlive)), tbind_get. cbn [tc_skb].
  rewrite Hdev, (tbind_some _ _ _ _ (pl_ifindex _ _ _ _ Hlive)). rewrite (tbind_run (stats_generation i) _ (MkTc s st) _ _ eq_refl). cbn [tc_stats].
  rewrite (tbind_some _ _ _ _ (pl_slot _ _ _ _ Hlive)), (pl_taken _ _ _ _ Hlive).
  rewrite (tbind_run _ _ _ _ _ (live_gate T cfg i slot Hlive _)), (pl_generation _ _ _ _ Hlive), Hproto. cbn [negb].
  destruct Hp as [-> | ->].
  - change (ETH_P_IP =? ETH_P_ARP) with false. change (ETH_P_IP =? ETH_P_IP) with true. cbn [negb andb].
    rewrite (tbind_run _ _ (MkTc s st) None (MkTc s st)); [done|]. rewrite tbind_need by done. by rewrite Hm.
  - change (ETH_P_IPV6 =? ETH_P_ARP) with false. change (ETH_P_IPV6 =? ETH_P_IP) with false. change (ETH_P_IPV6 =? ETH_P_IPV6) with true.
    cbn [negb andb]. by rewrite (tbind_run _ _ (MkTc s st) None (MkTc s st)).
Qed.
End encapsulation.

(** ** Arrival *)
Section arrival.
Context `{BpfHelpersOk} (T : tables) (cfg : SwitchConfig) (i : Z) (slot : SlotItem).
Context (Hlive : port_live T cfg i slot).

(** A frame that names the port and comes from its gateway, with [o] bytes of
    options, and the payload it carries. *)
Record arrives (p : list Z) (o : nat) (h_proto : Z) : Prop := {
  ar_proto : get16 p off_h_proto = ETH_P_IP;
  ar_ihl : ip_ihl p = 5%nat;
  ar_udp : get8 p off_ip_protocol = IPPROTO_UDP;
  ar_source : get32 p off_ip_saddr = si_TransitGatewayIp slot;
  ar_version : Z.shiftr (get8 p off_geneve) 6 = 0;
  ar_opts : Z.land (get8 p off_geneve) 63 * 4 = Z.of_nat o;
  ar_max : (o ≤ 64)%nat;
  ar_locator : ∀ s, (50 + o ≤ sk_linear (tc_skb s))%nat → transit_locator cfg p s = (inr (i, si_TransitGeneveVni slot), s);
  ar_type : h_proto = if get16 p (off_geneve + 2) =? ETH_P_TEB then get16 p (off_geneve_opts + o + off_h_proto) else get16 p (off_geneve + 2);
}.
Definition decap_size (p : list Z) (o : nat) : nat := 36 + o + if get16 p (off_geneve + 2) =? ETH_P_TEB then 14 else 0.
Definition delivered_frame (p : list Z) (o : nat) (h_proto : Z) : list Z :=
  get_port_mac cfg i ++ sc_SwitchMac cfg ++ bytes16 h_proto ++ drop (14 + decap_size p o) p.

Lemma run_deliver s st o h_proto s' g : let p := sk_data s in
  arrives p o h_proto → (14 + decap_size p o < sk_len s)%nat → (14 + decap_size p o ≤ sk_linear s)%nat →
  bpf_skb_adjust_room s (- Z.of_nat (decap_size p o)) BPF_ADJ_ROOM_MAC 0 = Some s' →
  ∃ s2, transit_deliver cfg slot i g (MkTc s st) =
      (do _ <- update_stats_transit_rx i g (Z.of_nat (sk_len s - decap_size p o)) in tret (Redirect (si_Ifindex slot))) (MkTc s2 st) ∧
    sk_data s2 = delivered_frame p o h_proto.
Proof.
  intros p Harr Hlen Hlin Hroom. pose proof Harr as [_ _ _ _ _ Ho _ _ Htype]. unfold transit_deliver. rewrite tbind_get. cbn [tc_skb]. fold p.
  assert ((Z.to_nat (Z.land (get8 p off_geneve) 63) * 4)%nat = o) as -> by lia.
  change (36 + o + (if (get16 p (off_geneve + 2) =? ETH_P_TEB)%Z then 14 else 0))%nat with (decap_size p o).
  rewrite (tbind_run _ _ _ h_proto (MkTc s st)).
  2:{ rewrite Htype. unfold decap_size in Hlin. destruct (_ =? ETH_P_TEB); [|done]. rewrite tbind_need; [done|].
      cbn [tc_skb]. unfold off_geneve_opts, off_geneve, off_udp, ETH_HLEN, IP_HLEN, UDP_HLEN, GENEVE_HLEN. lia. }
  rewrite (proj2 (Nat.leb_gt _ _)) by (unfold ETH_HLEN; lia). rewrite (tbind_some _ _ _ _ Hroom), tbind_change. cbn [tc_stats].
  apply adjust_room_shrink in Hroom as (Ed & _ & Hl); [|unfold decap_size; lia|unfold ETH_HLEN; lia]. fold p in Ed.
  destruct s' as [q lin dev]. cbn [sk_data sk_linear] in *. change (MkTc (MkSkb q lin dev) st) with (at_data lin dev st q).
  destruct (get_port_mac_ok cfg i) as [Hd _]; [apply Hlive..|]. destruct (pl_switch_mac _ _ _ _ Hlive) as [Hs _].
  assert (Hlq : (14 ≤ length q)%nat) by (rewrite Ed, length_app, length_take; unfold sk_len, ETH_HLEN, p in *; lia).
  rewrite (tbind_run _ _ _ tt (at_data lin dev st (splice 0 (get_port_mac cfg i ++ sc_SwitchMac cfg) q))).
  2:{ unfold rewrite_macs. rewrite bind_need, bind_write, run_write by (unfold ETH_HLEN; lia). do 2 f_equal. apply splice_adj; rewrite ?Hd, ?Hs; unfold off_h_source; lia. }
  rewrite bind_write. eexists. split; [reflexivity|]. cbn [sk_data]. unfold delivered_frame.
  rewrite splice_adj by (rewrite ?length_app, ?Hd, ?Hs; simpl; unfold off_h_proto; lia).
  rewrite splice_0 by (rewrite !length_app, Hd, Hs; simpl; lia). rewrite !length_app, Hd, Hs. change (length (bytes16 h_proto)) with 2%nat.
  rewrite <-!app_assoc. do 3 f_equal. rewrite Ed. apply drop_app_length'. rewrite length_take. unfold sk_len, ETH_HLEN, p in *. lia.
Qed.

Definition pull_len (s : skb) : nat := if (sk_len s <? 128)%nat then sk_len s else 128.
Lemma run_arrival s st o h_proto s1 s2 : arrives (sk_data s) o h_proto → (14 + decap_size (sk_data s) o < sk_len s)%nat →
  bpf_skb_pull_data s (pull_len s) = Some s1 →
  bpf_skb_adjust_room s1 (- Z.of_nat (decap_size (sk_data s) o)) BPF_ADJ_ROOM_MAC 0 = Some s2 →
  ∃ s3, tc_ingress_transit T (MkTc s st) =
      (inr (Redirect (si_Ifindex slot)), MkTc s3 (counted i (count_transit_rx (Z.of_nat (sk_len s - decap_size (sk_data s) o))) st)) ∧
    sk_data s3 = delivered_frame (sk_data s) o h_proto.
Proof.
  intros Harr Hlen Hpull Hroom. pose proof Harr as [Hproto Hihl Hudp Hsrc Hver Hopt Hmax Hloc _].
  assert (Hp : (pull_len s ≤ sk_len s ∧ 14 + decap_size (sk_data s) o ≤ pull_len s)%nat).
  { unfold pull_len. destruct (Nat.ltb_spec (sk_len s) 128); [lia|]. unfold decap_size. destruct (_ =? ETH_P_TEB); lia. }
  destruct (pull_data_ok s (pull_len s) s1) as (E1 & _ & Hlin); [lia|done|]. unfold sk_len in Hlen. rewrite <-E1 in *. set (p := sk_data s1) in *.
  assert (Hlin' : (50 + o ≤ sk_linear s1)%nat) by (unfold decap_size in Hp; lia).
  destruct (run_deliver s1 st o h_proto s2 (match st !! i with Some x => st_Generation x | None => 0 end)) as (s3 & R & E3); [done|exact Hlen|fold p; lia|done|].
  exists s3. split; [|done]. unfold tc_ingress_transit. rewrite tbind_get. cbn [tc_skb].
  fold (pull_len s). rewrite (tbind_some _ _ _ _ Hpull), tbind_change. cbn [tc_stats]. fold p.
  rewrite tbind_need by (cbn [tc_skb]; unfold ETH_HLEN; lia). rewrite Hproto, Z.eqb_refl. cbn [negb].
  rewrite tbind_need by (cbn [tc_skb]; unfold off_udp, ETH_HLEN, IP_HLEN; lia). rewrite Hihl, Hudp. cbn [negb orb Nat.eqb]. rewrite Z.eqb_refl. cbn [negb].
  rewrite tbind_need by (cbn [tc_skb]; unfold off_geneve, off_udp, ETH_HLEN, IP_HLEN, UDP_HLEN; lia).
  unfold get_config. rewrite (tbind_some _ _ _ _ (pl_config _ _ _ _ Hlive)).
  rewrite tbind_need by (cbn [tc_skb]; unfold off_geneve_opts, off_geneve, off_udp, ETH_HLEN, IP_HLEN, UDP_HLEN, GENEVE_HLEN; lia).
  rewrite Hver, Hopt. cbn [negb Z.eqb]. rewrite (proj2 (Z.ltb_ge _ _)) by (unfold MaxGeneveOptsLen; lia).
  rewrite (tbind_run _ _ _ _ _ (Hloc (MkTc s1 st) Hlin')). destruct (pl_index _ _ _ _ Hlive) as [_ Hn]. rewrite (proj2 (Z.leb_gt _ _)) by lia.
  rewrite (tbind_run (stats_generation i) _ (MkTc s1 st) _ _ eq_refl). cbn [tc_stats].
  rewrite (tbind_some _ _ _ _ (pl_slot _ _ _ _ Hlive)), (pl_taken _ _ _ _ Hlive), (proj2 (Z.eqb_neq _ _) (pl_device _ _ _ _ Hlive)). cbn [orb].
  rewrite (tbind_run _ _ _ _ _ (live_gate T cfg i slot Hlive _)). rewrite Hsrc, !Z.eqb_refl. cbn [negb orb]. rewrite R.
  unfold update_stats_transit_rx. rewrite (tbind_run _ _ _ _ _ (update_stats_counted i _ _ _)). unfold sk_len. by rewrite <-E1.
Qed.
End arrival.

(** ** From switch to switch *)
(** What routers may change on the way: the MAC addresses, the time to live and
    the header checksum. *)
Definition route_field (k : nat) : Prop := (k < 12 ∨ k = 22 ∨ 24 ≤ k < 26)%nat.
(** Both switches locate slots the same way. *)
Record same_locator (c c' : SwitchConfig) : Prop := {
  sl_locator : sc_GeneveLocator c' = sc_GeneveLocator c;
  sl_base : sc_GenevePortBase c' = sc_GenevePortBase c;
  sl_class : sc_GeneveTlvClass c' = sc_GeneveTlvClass c;
  sl_type : sc_GeneveTlvType c' = sc_GeneveTlvType c;
}.
Lemma vni_bytes v : 0 ≤ v < 2 ^ 24 →
  Z.lor (Z.lor (Z.shiftl (Z.land (Z.shiftr v 16) 255) 16) (Z.shiftl (Z.land (Z.shiftr v 8) 255) 8)) (Z.land v 255) = v.
Proof.
  intros Hv. change 255 with (Z.ones 8). rewrite !Z.land_ones, !Z.shiftr_div_pow2 by lia. change (2 ^ 8) with 256. change (2 ^ 16) with 65536.
  pose proof (Z.mod_pos_bound v 256). pose proof (Z.mod_pos_bound (v / 256) 256). pose proof (Z.mod_pos_bound (v / 65536) 256).
  rewrite <-Z.lor_assoc, (lor_shiftl_add _ (v mod 256) 8) by lia. change (2 ^ 8) with 256.
  rewrite lor_shiftl_add by lia. change (2 ^ 16) with 65536.
  pose proof (Z.div_mod v 256). pose proof (Z.div_mod (v / 256) 256). rewrite Z.div_div in * by lia. change (256 * 256) with 65536 in *.
  rewrite (Z.mod_small (v / 65536)) by (split; [apply Z.div_pos|apply Z.div_lt_upper_bound]; lia). lia.
Qed.

Section between.
Context `{BpfHelpersOk} (cfg cfg' : SwitchConfig) (i : Z) (slot slot' : SlotItem).
Context (Hsm : is_mac (sc_SwitchMac cfg)) (Hloc : same_locator cfg cfg') (Hi : 0 ≤ i < 4096).
Context (Hbase : 0 ≤ sc_GenevePortBase cfg ∧ sc_GenevePortBase cfg + i < 65536) (Htlv : is_u16 (sc_GeneveTlvClass cfg) ∧ is_u8 (sc_GeneveTlvType cfg)).
Context (Hip : is_u32 (si_TransitIp slot)) (Hgw : si_TransitGatewayIp slot' = si_TransitIp slot).
Context (Hvni : si_TransitGeneveVni slot' = si_TransitGeneveVni slot) (Hvni0 : 0 ≤ si_TransitGeneveVni slot).
Context (Hvalid : validateTransitGeneveVNI (sc_GeneveLocator cfg) (si_TransitGeneveVni slot) = Ok tt).
Context (Hinner : is_mac (inner_dst_mac slot) ∧ is_mac (get_port_mac cfg i)).

(** The plan is the one the control plane reports. *)
Lemma nx_locator_control plan : nx_locator cfg slot i = Some plan →
  lp_port plan = geneveWirePort (sc_GeneveLocator cfg) (sc_GenevePortBase cfg) i ∧
  lp_vni plan = geneveWireVNI (sc_GeneveLocator cfg) i (si_TransitGeneveVni slot).
Proof.
  unfold nx_locator, geneveWirePort, geneveWireVNI, GeneveLocatorPort, GeneveLocatorVNI.
  destruct (Z.eqb_spec (sc_GeneveLocator cfg) 0) as [E|]; [rewrite E; by intros [= <-]|].
  destruct (Z.eqb_spec (sc_GeneveLocator cfg) 1); [by intros [= <-]|].
  destruct (Z.eqb_spec (sc_GeneveLocator cfg) 2); [by intros [= <-]|done].
Qed.
Lemma plan_ranges plan : nx_locator cfg slot i = Some plan → is_u16 (lp_port plan) ∧ 0 ≤ lp_vni plan < 2 ^ 24.
Proof.
  intros [-> ->]%nx_locator_control. split.
  - unfold geneveWirePort. destruct (sc_GeneveLocator cfg =? GeneveLocatorPort); [apply u16_range|]. unfold is_u16, GeneveStandardPort, GenevePort. lia.
  - destruct (Z.eqb_spec (sc_GeneveLocator cfg) GeneveLocatorVNI) as [E|E].
    + rewrite E in *. apply (geneveWireVNI_splits i (si_TransitGeneveVni slot)); [unfold MaxPorts; lia|done|done].
    + unfold geneveWireVNI, validateTransitGeneveVNI in *. rewrite (proj2 (Z.eqb_neq _ _) E) in *.
      destruct (Z.ltb_spec 16777215 (si_TransitGeneveVni slot)); [done|]. lia.
Qed.

(** *** The header fields of a frame on the way *)
Section fields.
Context (proto src : Z) (plan : locator_plan) (len : nat) (payload q : list Z).
Notation p := (outer_headers cfg slot i proto src plan [] false len ++ payload).
Notation o := (transit_options cfg i []).
Notation e := (inner_eth cfg slot i proto).
Context (Hplan : nx_locator cfg slot i = Some plan) (Hproto : proto = ETH_P_IP ∨ proto = ETH_P_IPV6) (Hroute : touches route_field p q).

Definition after_macs : list Z :=
  let n := Z.of_nat (36 + length o + length e + len) in
  bytes16 ETH_P_IP ++ ip_header (u16 n) (si_TransitIp slot) (si_TransitGatewayIp slot) ++ udp_header src (lp_port plan) (u16 (n - 20)) ++
  geneve_header (Z.of_nat (length o)) (payload_type cfg proto) (lp_vni plan) (wire_critical cfg false) ++ o ++ e ++ payload.
Lemma frame_after_macs : p = (sc_SwitchMac cfg ++ sc_SwitchMac cfg) ++ after_macs.
Proof. unfold outer_headers, after_macs. by rewrite <-!app_assoc. Qed.
Lemma field8 k : k ≠ 10%nat → ¬ (12 ≤ k < 14)%nat → get8 q (12 + k) = get8 after_macs k.
Proof.
  intros H1 H2. destruct Hroute as (_ & _ & R). rewrite R by (unfold route_field; lia). rewrite frame_after_macs. apply get8_skip.
  rewrite length_app. by destruct Hsm as [-> _].
Qed.
Lemma field16 k : k ≠ 10%nat → k ≠ 9%nat → ¬ (11 ≤ k < 14)%nat → get16 q (12 + k) = get16 after_macs k.
Proof. intros. unfold get16. by rewrite <-Nat.add_assoc, !field8 by lia. Qed.
Lemma field32 k : (14 ≤ k)%nat → get32 q (12 + k) = get32 after_macs k.
Proof. intros. unfold get32. by rewrite <-Nat.add_assoc, !field16 by lia. Qed.
Lemma options_length : length o = if is_tlv cfg then 8%nat else 0%nat.
Proof. unfold transit_options, locator_bytes. rewrite app_nil_r. by destruct (is_tlv cfg). Qed.
Lemma field_opts_byte : get8 q off_geneve = if is_tlv cfg then 2 else 0.
Proof.
  transitivity (u8 (Z.of_nat (length o) / 4)); [exact (field8 30 ltac:(lia) ltac:(lia))|]. rewrite options_length. by destruct (is_tlv cfg).
Qed.
Lemma field_critical : negb (Z.land (get8 q (off_geneve + 1)) 64 =? 0) = wire_critical cfg false.
Proof.
  replace (get8 q (off_geneve + 1)) with (if wire_critical cfg false then 64 else 0) by (symmetry; exact (field8 31 ltac:(lia) ltac:(lia))).
  by destruct (wire_critical cfg false).
Qed.
Lemma field_port : get16 q (off_udp + 2) = lp_port plan.
Proof.
  transitivity (get16 (bytes16 (lp_port plan) ++ []) 0); [exact (field16 24 ltac:(lia) ltac:(lia) ltac:(lia))|].
  apply get16_bytes16, (plan_ranges plan Hplan).
Qed.
Lemma field_type : get16 q (off_geneve + 2) = payload_type cfg proto.
Proof.
  transitivity (get16 (bytes16 (payload_type cfg proto) ++ []) 0); [exact (field16 32 ltac:(lia) ltac:(lia) ltac:(lia))|].
  apply get16_bytes16. unfold payload_type, is_u16, ETH_P_TEB, ETH_P_IP, ETH_P_IPV6 in *. destruct (encap_eth cfg); lia.
Qed.
Lemma field_source : get32 q off_ip_saddr = si_TransitIp slot.
Proof.
  transitivity (get32 (bytes32 (si_TransitIp slot) ++ []) 0); [exact (field32 14 ltac:(lia))|]. by apply get32_bytes32.
Qed.
Lemma field_vni : Z.lor (Z.lor (Z.shiftl (get8 q (off_geneve + 4)) 16) (Z.shiftl (get8 q (off_geneve + 5)) 8)) (get8 q (off_geneve + 6)) = lp_vni plan.
Proof.
  rewrite (field8 34 ltac:(lia) ltac:(lia) : get8 q (off_geneve + 4) = Z.land (Z.shiftr (lp_vni plan) 16) 255).
  rewrite (field8 35 ltac:(lia) ltac:(lia) : get8 q (off_geneve + 5) = Z.land (Z.shiftr (lp_vni plan) 8) 255).
  rewrite (field8 36 ltac:(lia) ltac:(lia) : get8 q (off_geneve + 6) = Z.land (lp_vni plan) 255).
  apply vni_bytes, (plan_ranges plan Hplan).
Qed.
Lemma field_tlv : is_tlv cfg = true → get16 q off_geneve_opts = sc_GeneveTlvClass cfg ∧ get8 q (off_geneve_opts + 2) = sc_GeneveTlvType cfg ∧
  get8 q (off_geneve_opts + 3) = 1 ∧ get32 q (off_geneve_opts + 4) = i.
Proof.
  intros Et. assert (Eo : transit_options cfg i [] = locator_option cfg i) by (unfold transit_options, locator_bytes; by rewrite Et, app_nil_r).
  pose proof (field16 38 ltac:(lia) ltac:(lia) ltac:(lia)) as F0. pose proof (field8 40 ltac:(lia) ltac:(lia)) as F2.
  pose proof (field8 41 ltac:(lia) ltac:(lia)) as F3. pose proof (field32 42 ltac:(lia)) as F4.
  unfold after_macs in F0, F2, F3, F4. rewrite Eo in F0, F2, F3, F4. split_and!; [| exact F2|exact F3|].
  - etransitivity; [exact F0|]. transitivity (get16 (bytes16 (sc_GeneveTlvClass cfg) ++ []) 0); [done|]. apply get16_bytes16, Htlv.
  - etransitivity; [exact F4|]. transitivity (get32 (bytes32 i ++ []) 0); [done|]. apply get32_bytes32. unfold is_u32. lia.
Qed.
Lemma field_inner_proto : encap_eth cfg = true → get16 q (off_geneve_opts + length o + off_h_proto) = proto.
Proof.
  intros Ee. assert (He : e = (inner_dst_mac slot ++ get_port_mac cfg i) ++ bytes16 proto) by (unfold inner_eth; by rewrite Ee, app_assoc).
  replace (off_geneve_opts + length o + off_h_proto)%nat with (12 + ((38 + length o) + 12))%nat
    by (unfold off_geneve_opts, off_geneve, off_udp, off_h_proto, ETH_HLEN, IP_HLEN, UDP_HLEN, GENEVE_HLEN; lia).
  rewrite field16 by lia. unfold after_macs. set (n := Z.of_nat (36 + _ + _ + _)).
  rewrite !(app_assoc _ _ (e ++ payload)). rewrite (get16_skip (38 + length o)).
  - rewrite He, <-!app_assoc, app_assoc. destruct Hinner as [[H1 _] [H2 _]]. rewrite <-(Nat.add_0_r 12), (get16_skip 12) by (rewrite length_app; lia).
    apply get16_bytes16. unfold is_u16, ETH_P_IP, ETH_P_IPV6 in *. lia.
  - rewrite !length_app. change (length (ip_header _ _ _)) with 20%nat. change (length (udp_header _ _ _)) with 8%nat.
    change (length (geneve_header _ _ _ _)) with 8%nat. change (length (bytes16 _)) with 2%nat. lia.
Qed.
Lemma outer_located s : (50 + length o ≤ sk_linear (tc_skb s))%nat →
  transit_locator cfg' q s = (inr (i, si_TransitGeneveVni slot'), s).
Proof.
  destruct Hloc as [El Eb Ec Ey]. intros Hlin. rewrite Hvni. unfold transit_locator.
  rewrite field_opts_byte, field_critical, field_port, field_vni, El, Eb. pose proof options_length as Hol.
  destruct (nx_locator_control plan Hplan) as [Eport Evni]. unfold nx_locator, wire_critical, is_tlv in *.
  unfold geneveWirePort, geneveWireVNI, GeneveLocatorPort, GeneveLocatorVNI in *.
  destruct (Z.eqb_spec (sc_GeneveLocator cfg) 0) as [E|E].
  { rewrite E in Evni |- *. cbn in Evni. rewrite Eport, Evni. unfold u16, u32. rewrite (Z.mod_small _ (2 ^ 32)) by lia. rewrite Z.mod_small by lia.
    cbn. rewrite (proj2 (Z.ltb_ge _ _)) by lia. unfold tret. by replace (_ + i - _) with i by lia. }
  rewrite Eport. destruct (Z.eqb_spec (sc_GeneveLocator cfg) 1) as [E1|E1].
  { rewrite E1. cbn. unfold tret. rewrite Evni. rewrite E1 in Hvalid.
    destruct (geneveWireVNI_splits i (si_TransitGeneveVni slot)) as (_ & W1 & W2); [unfold MaxPorts; lia|done|done|].
    unfold geneveWireVNI in W1, W2. cbn [Z.eqb GeneveLocatorVNI Pos.eqb] in W1, W2. by rewrite W1, W2. }
  destruct (Z.eqb_spec (sc_GeneveLocator cfg) 2) as [E2|E2]; [|done].
  destruct field_tlv as (F1 & F2 & F3 & F4); [unfold is_tlv; by rewrite E2|].
  cbn [negb Z.eqb]. change (negb (GeneveStandardPort =? GenevePort) || _) with false. cbv iota.
  rewrite !tbind_need by (unfold off_geneve_opts, off_geneve, off_udp, ETH_HLEN, IP_HLEN, UDP_HLEN, GENEVE_HLEN; lia).
  rewrite F1, F2, F3, F4, Ec, Ey, !Z.eqb_refl. cbn [negb orb andb]. change (Z.land 1 224) with 0. change (Z.land 1 31) with 1. cbn [Z.eqb Pos.eqb negb orb].
  rewrite Bool.eqb_reflx. cbn [negb]. by rewrite Evni.
Qed.
Lemma arrives_outer : arrives cfg' i slot' q (length o) proto.
Proof.
  destruct Hloc as [El Eb Ec Ey]. split.
  - exact (field16 0 ltac:(lia) ltac:(lia) ltac:(lia)).
  - unfold ip_ihl. by rewrite (field8 2 ltac:(lia) ltac:(lia) : get8 q off_ip_verihl = 69).
  - exact (field8 11 ltac:(lia) ltac:(lia)).
  - by rewrite field_source.
  - rewrite field_opts_byte. by destruct (is_tlv cfg).
  - rewrite field_opts_byte, options_length. by destruct (is_tlv cfg).
  - rewrite options_length. destruct (is_tlv cfg); lia.
  - apply outer_located.
  - rewrite field_type. unfold payload_type. destruct (encap_eth cfg) eqn:Ee.
    + rewrite Z.eqb_refl. by rewrite field_inner_proto.
    + rewrite (proj2 (Z.eqb_neq _ _)); [done|]. unfold ETH_P_TEB, ETH_P_IP, ETH_P_IPV6 in *. lia.
Qed.
End fields.
End between.

(** ** The properties *)
(** A packet of the port that is for the transit network, and a slot that can
    carry it there. *)
Record for_transit `{BpfHelpers} (T : tables) (cfg : SwitchConfig) (i : Z) (slot : SlotItem) (s : skb)
    (proto : Z) (plan : locator_plan) (opts : list Z) (uc : bool) : Prop := {
  ft_device : sk_ingress_ifindex s = si_Ifindex slot;
  ft_proto : get16 (sk_data s) off_h_proto = proto ∧ (proto = ETH_P_IP ∨ proto = ETH_P_IPV6);
  ft_not_mgmt : proto = ETH_P_IP → match_mgmt_cidr slot (get32 (sk_data s) off_ip_daddr) = None;
  ft_headers : (needed proto ≤ sk_linear s ≤ sk_len s)%nat;
  ft_network : si_TransitIfindex slot ≠ 0 ∧ si_TransitGatewayIp slot ≠ 0;
  ft_plan : nx_locator cfg slot i = Some plan;
  ft_opts : nx_user_opts T slot i = Some (opts, uc);
  ft_fits : lp_len plan + Z.of_nat (length opts) ≤ MaxGeneveOptsLen;
}.
Lemma run_for_transit `{BpfHelpersOk} T cfg i slot s st proto plan opts uc : port_live T cfg i slot → opts_ok (snd T) →
  for_transit T cfg i slot s proto plan opts uc →
  match bpf_skb_adjust_room s (Z.of_nat (encap_size cfg i slot proto opts)) BPF_ADJ_ROOM_MAC (encap_flags cfg) with
  | None => run_tc (tc_ingress_nx T) s st = (TC_ACT_OK, MkTc s st)
  | Some _ => ∃ src s' st', 49152 ≤ src ≤ 65535 ∧
      run_tc (tc_ingress_nx T) s st = (RedirectNeigh (si_TransitIfindex slot) (nexthop_of cfg), MkTc s' st') ∧
      sk_data s' = outer_headers cfg slot i proto src plan opts uc (sk_len s - 14) ++ drop 14 (sk_data s)
  end.
Proof.
  intros Hlive Hok [Hdev [Hproto Hp] Hm Hlin [Hti Hgw] Hplan Hopts Hfits].
  destruct (nx_transits T cfg i slot Hlive s st proto plan opts uc) as (h & Hready & Hrun); [done..|].
  pose proof (run_nx_transit T cfg i slot Hlive s st proto plan opts uc h Hok Hready) as Hnx. unfold run_tc.
  destruct (bpf_skb_adjust_room _ _ _ _); [|by rewrite Hrun, Hnx].
  destruct Hnx as (s' & R & Ed & _). exists (src_port_of h), s'. eexists. split_and!; [apply src_port_range..| |done].
  by rewrite Hrun, R.
Qed.
Lemma touches_drop f n p q : touches f p q → (∀ k, f k → (k < n)%nat) → drop n q = drop n p.
Proof.
  intros (L & _ & R) Hf. apply splice_ext; [rewrite !length_drop; lia|]. intros k. unfold get8. rewrite !nth_skipn.
  apply (R (n + k)%nat). intros Hk%Hf. lia.
Qed.

(** C11: the frame on the transit network.  For every implementation of the
    kernel's helpers within their documentation and every published attachment
    with a transit network: an IPv4 or IPv6 packet of the sandbox that is for no
    management prefix leaves for the transit device inside exactly these
    headers, whatever was in the room the kernel made: Ethernet, an IPv4 header
    from the slot's address to its gateway with the exact length and a valid
    checksum, a UDP header to the port of the slot's locator from a port in
    49152..65535, a Geneve header with the wire VNI and the critical bit, the
    locator option of the TLV mode, the slot's own options unchanged and, in
    Ethernet mode, the inner Ethernet header; behind them the packet as it was.
    Port and VNI are the ones the control plane reports.  When the kernel
    refuses the room the packet is passed on unchanged. *)
Theorem transit_frame `{BpfHelpersOk} T cfg i slot s st proto plan opts uc : port_live T cfg i slot → opts_ok (snd T) →
  for_transit T cfg i slot s proto plan opts uc →
  lp_port plan = geneveWirePort (sc_GeneveLocator cfg) (sc_GenevePortBase cfg) i ∧
  lp_vni plan = geneveWireVNI (sc_GeneveLocator cfg) i (si_TransitGeneveVni slot) ∧
  match bpf_skb_adjust_room s (Z.of_nat (encap_size cfg i slot proto opts)) BPF_ADJ_ROOM_MAC (encap_flags cfg) with
  | None => run_tc (tc_ingress_nx T) s st = (TC_ACT_OK, MkTc s st)
  | Some _ => ∃ src s' st', 49152 ≤ src ≤ 65535 ∧
      run_tc (tc_ingress_nx T) s st = (RedirectNeigh (si_TransitIfindex slot) (nexthop_of cfg), MkTc s' st') ∧
      sk_data s' = outer_headers cfg slot i proto src plan opts uc (sk_len s - 14) ++ drop 14 (sk_data s) ∧
      l3_ok (sk_data s')
  end.
Proof.
  intros Hlive Hok Hft. pose proof (run_for_transit T cfg i slot s st proto plan opts uc Hlive Hok Hft) as Hrun.
  destruct (nx_locator_control cfg i slot plan (ft_plan _ _ _ _ _ _ _ _ _ Hft)) as [Ep Ev]. split; [done|]. split; [done|].
  destruct (bpf_skb_adjust_room _ _ _ _); [|done]. destruct Hrun as (src & s' & st' & Hsrc & R & Ed).
  exists src, s', st'. split_and!; [lia..|done|done|]. rewrite Ed. by eapply outer_l3_ok.
Qed.

(** Two ports are each other's end of a tunnel: the same index and network
    identifier, the sender's address is the receiver's gateway, and both
    switches locate slots the same way, within their ranges. *)
Record tunnel (cfg cfg' : SwitchConfig) (i : Z) (slot slot' : SlotItem) : Prop := {
  tu_locator : same_locator cfg cfg';
  tu_source : si_TransitGatewayIp slot' = si_TransitIp slot;
  tu_vni : si_TransitGeneveVni slot' = si_TransitGeneveVni slot;
  tu_valid : validateTransitGeneveVNI (sc_GeneveLocator cfg) (si_TransitGeneveVni slot) = Ok tt;
  tu_ports : 0 ≤ sc_GenevePortBase cfg ∧ sc_GenevePortBase cfg + i < 65536;
  tu_tlv : is_u16 (sc_GeneveTlvClass cfg) ∧ is_u8 (sc_GeneveTlvType cfg);
}.
(** C12: a packet crosses the transit network.  For two switches, each with a
    published attachment of the same index, whose slots are each other's tunnel
    end: a packet for the transit network, sent without opaque options, leaves
    the first; and whatever routers change of MAC addresses, time to live and
    header checksum, and wherever the frame's linear part ends, the second
    delivers it to the device of its slot, from the switch's MAC address to the
    port's, with the protocol and every byte behind the Ethernet header as the
    sandbox sent them, unless a helper of the kernel refuses. *)
Theorem transit_round_trip `{BpfHelpersOk} T cfg slot T' cfg' slot' i s st proto plan r :
  port_live T cfg i slot → opts_ok (snd T) → for_transit T cfg i slot s proto plan [] false →
  port_live T' cfg' i slot' → tunnel cfg cfg' i slot slot' →
  bpf_skb_adjust_room s (Z.of_nat (encap_size cfg i slot proto [])) BPF_ADJ_ROOM_MAC (encap_flags cfg) = Some r →
  ∃ s1 st1, run_tc (tc_ingress_nx T) s st = (RedirectNeigh (si_TransitIfindex slot) (nexthop_of cfg), MkTc s1 st1) ∧
    ∀ q st2 q1 q2, touches route_field (sk_data s1) (sk_data q) →
      bpf_skb_pull_data q (pull_len q) = Some q1 →
      bpf_skb_adjust_room q1 (- Z.of_nat (encap_size cfg i slot proto [])) BPF_ADJ_ROOM_MAC 0 = Some q2 →
      ∃ s2 st3, run_tc (tc_ingress_transit T') q st2 = (Redirect (si_Ifindex slot'), MkTc s2 st3) ∧
        sk_data s2 = get_port_mac cfg' i ++ sc_SwitchMac cfg' ++ bytes16 proto ++ drop 14 (sk_data s).
Proof.
  intros Hlive Hok Hft Hlive' [Hloc Hgw Hvni Hvalid Hports Htlv] Hroom.
  pose proof (run_for_transit T cfg i slot s st proto plan [] false Hlive Hok Hft) as Hrun. rewrite Hroom in Hrun.
  destruct Hrun as (src & s1 & st1 & _ & R1 & E1). exists s1, st1. split; [done|]. intros q st2 q1 q2 Hroute Hpull Hshrink.
  destruct Hft as [_ [_ Hproto] _ Hlen _ Hplan _ _]. pose proof (pl_typed _ _ _ _ Hlive) as Ht. rewrite E1 in Hroute.
  assert (Hmacs : is_mac (inner_dst_mac slot) ∧ is_mac (get_port_mac cfg i)).
  { split; [by eapply inner_dst_mac_ok|apply get_port_mac_ok; apply Hlive]. }
  assert (Ha : arrives cfg' i slot' (sk_data q) (length (transit_options cfg i [])) proto).
  { eapply arrives_outer; try done; [apply Hlive|apply Hlive|apply Ht|apply (st_vni _ Ht)]. }
  assert (Hty : get16 (sk_data q) (off_geneve + 2) = payload_type cfg proto).
  { eapply field_type; try done. all: apply Hlive. }
  pose proof (length_inner_eth T cfg i slot Hlive proto) as He.
  assert (Hsz : decap_size (sk_data q) (length (transit_options cfg i [])) = encap_size cfg i slot proto []).
  { unfold decap_size, encap_size. rewrite Hty, He. unfold payload_type. destruct (encap_eth cfg); [done|].
    rewrite (proj2 (Z.eqb_neq _ _)); [done|]. unfold ETH_P_TEB, ETH_P_IP, ETH_P_IPV6 in *. lia. }
  assert (Hl : sk_len q = (14 + encap_size cfg i slot proto [] + (sk_len s - 14))%nat).
  { unfold sk_len at 1. destruct Hroute as [-> _]. rewrite length_app, (length_outer T cfg i slot Hlive), length_drop. unfold sk_len, encap_size. lia. }
  destruct (run_arrival T' cfg' i slot' Hlive' q st2 _ proto q1 q2 Ha) as (s3 & R & E3); rewrite ?Hsz; try done.
  { rewrite Hl. unfold needed in Hlen. destruct (_ =? ETH_P_IP); lia. }
  exists s3. eexists. split; [unfold run_tc; by rewrite R|]. rewrite E3. unfold delivered_frame. rewrite Hsz. do 3 f_equal.
  rewrite (touches_drop _ _ _ _ Hroute) by (unfold route_field, encap_size; lia).
  apply drop_app_length'. rewrite (length_outer T cfg i slot Hlive). unfold encap_size. lia.
Qed.

(** *** Two switches *)
Definition ex_out_frame : list Z :=
  ex_mac 1 ++ ex_mac 2 ++ [8; 0] ++
  [69; 0; 0; 28; 0; 0; 64; 0; 64; 17; 0; 0; 192; 168; 1; 2; 8; 8; 8; 8] ++ [156; 64; 0; 53; 0; 8; 0; 0].
Definition ex_out : skb := MkSkb ex_out_frame 42 12.
Definition ex_plan : locator_plan := MkPlan 50002 100 0.
Definition ex_slot' : SlotItem :=
  MkSlotItem 21 3232235779 4 167772162 167772161 100 mac_zero 0 0 0 MgmtCidr_zero 0 1 [MgmtCidr_zero; MgmtCidr_zero] 1.
Definition ex_tables' : tables :=
  (replicate 2 SlotItem_zero ++ [ex_slot'], MkMaps {[ 0 := ex_config ]} ∅ ∅ {[ 21 := 2 ]} ∅ ∅ ∅).
Lemma ex_port_live' : @port_live simple_helpers ex_tables' ex_config 2 ex_slot'.
Proof.
  split; try (vm_compute; reflexivity).
  - split; decide_true.
  - unfold ex_config. simpl. lia.
  - done.
  - unfold ex_config, is_u32. simpl. lia.
  - decide_true.
  - decide_true.
Qed.
Lemma ex_opts_ok : opts_ok (snd ex_tables).
Proof. intros k o. cbn [snd ex_tables m_opts]. by rewrite lookup_empty. Qed.
Lemma ex_for_transit : @for_transit simple_helpers ex_tables ex_config 2 ex_slot ex_out ETH_P_IP ex_plan [] false.
Proof.
  split; try (vm_compute; reflexivity).
  - split; [reflexivity|by left].
  - split; apply Nat.leb_le; reflexivity.
  - by split.
  - vm_compute. discriminate.
Qed.
Lemma ex_tunnel : tunnel ex_config ex_config 2 ex_slot ex_slot'.
Proof. split; [by split|done|done|done|unfold ex_config; simpl; lia|decide_true]. Qed.

Lemma transit_frame_witness :
  ∃ src s' st', 49152 ≤ src ≤ 65535 ∧ run_tc (@tc_ingress_nx simple_helpers ex_tables) ex_out ∅ = (RedirectNeigh 4 None, MkTc s' st') ∧
    sk_data s' = outer_headers ex_config ex_slot 2 ETH_P_IP src ex_plan [] false 28 ++ drop 14 ex_out_frame ∧ l3_ok (sk_data s').
Proof.
  exact (proj2 (proj2 (transit_frame ex_tables ex_config 2 ex_slot ex_out ∅ ETH_P_IP ex_plan [] false ex_port_live ex_opts_ok ex_for_transit))).
Defined.
Lemma transit_round_trip_witness :
  ∃ s1 st1, run_tc (@tc_ingress_nx simple_helpers ex_tables) ex_out ∅ = (RedirectNeigh 4 None, MkTc s1 st1) ∧
    ∀ q st2 q1 q2, touches route_field (sk_data s1) (sk_data q) →
      @bpf_skb_pull_data simple_helpers q (pull_len q) = Some q1 →
      @bpf_skb_adjust_room simple_helpers q1 (- 36) BPF_ADJ_ROOM_MAC 0 = Some q2 →
      ∃ s2 st3, run_tc (@tc_ingress_transit simple_helpers ex_tables') q st2 = (Redirect 21, MkTc s2 st3) ∧
        sk_data s2 = get_port_mac ex_config 2 ++ ex_mac 1 ++ [8; 0] ++ drop 14 ex_out_frame.
Proof.
  exact (transit_round_trip ex_tables ex_config ex_slot ex_tables' ex_config ex_slot' 2 ex_out ∅ ETH_P_IP ex_plan _
    ex_port_live ex_opts_ok ex_for_transit ex_port_live' ex_tunnel eq_refl).
Defined.
