(* ===== verification/LivePort.v ===== *)
(** * From the control plane to the datapath

    A successful [Attach] of a provisioned port leaves exactly the state the
    programs' properties ask for. *)
From S2P Require Import Prelude Errors GoStrings GoNet GoNetSpec BpfTypes Mac Geneve Prog SlotTable Netns.
From S2P Require Import Netlink Config Metadata Loader Context Flock Attach AttachSpec Maps MgmtService Typed Packet Skb Datapath NatSpec MgmtPath.

(** What start leaves in the maps, for an accepted configuration. *)
Record switch_maps (sw : switchContext) (m : maps_state) : Prop := {
  sm_config : m_config m !! 0 = Some (sx_cfg sw);
  sm_base : is_u32 (sc_FloatingIpBase (sx_cfg sw));
  sm_bits : 0 ≤ sc_GenerationBits (sx_cfg sw) ≤ 20;
  sm_span : sc_FloatingIpBase (sx_cfg sw) + 2 ^ (12 + sc_GenerationBits (sx_cfg sw)) ≤ 2 ^ 32;
  sm_switch_mac : is_mac (sc_SwitchMac (sx_cfg sw));
  sm_port_mac : is_mac (sc_PortMac (sx_cfg sw));
}.
(** What provisioning leaves: every free port has a device that leads back to it. *)
Definition ports_provisioned (sw : switchContext) (m : maps_state) (slots : list SlotItem) : Prop :=
  ∀ i x, free_at slots i → slot_at slots i = Some x →
    slot_typed x ∧ si_Ifindex x ≠ 0 ∧ m_ifindex m !! si_Ifindex x = Some i.

Lemma checks_generation s opts r : attach_checks s opts = Ok r → 0 ≤ sc_GenerationBits (sx_cfg s) ≤ 20 → is_u32 (ao_Generation opts) →
  generation_ok (sx_cfg s) (ao_Generation opts) = true.
Proof.
  intros Hc Hbits Hg. unfold generation_ok. rewrite (proj2 (Z.ltb_ge 20 _)) by lia. cbn [negb andb]. apply Z.ltb_lt.
  assert (1 ≤ 2 ^ sc_GenerationBits (sx_cfg s) ≤ 2 ^ 20) by (split; [apply Z.lt_pred_le, Z.pow_pos_nonneg; lia|apply Z.pow_le_mono_r; lia]).
  unfold attach_checks in Hc. rewrite Z.shiftl_1_l in *.
  destruct (sc_GenerationBits (sx_cfg s) =? 0) eqn:E0.
  - apply Z.eqb_eq in E0. rewrite E0. destruct (ao_Generation opts =? 0) eqn:Eg; [lia|].
    invert_ok.
  - destruct (Z.leb_spec (u64 (2 ^ sc_GenerationBits (sx_cfg s))) (ao_Generation opts)) as [Hle|Hlt]; [invert_ok|].
    unfold u64 in Hlt. rewrite Z.mod_small in Hlt by lia. done.
Qed.
Lemma attached_typed opts value ip x y : attached opts value ip x y → attach_typed opts → slot_typed x → is_u32 ip → is_u8 (gv_Len value) → slot_typed y.
Proof.
  intros [E1 E2 E3 E4 E5 E6 E7 E8 (D1 & D2 & D3 & D4 & D5 & D6 & D7)] [_ Hgw Hvni Hmac Hgen] [] Hip Hlen.
  split; rewrite ?E1, ?E2, ?E3, ?E4, ?E5, ?E6, ?E7, ?D1, ?D2, ?D3, ?D4, ?D5, ?D6, ?D7; try done.
  - unfold gateway_of. destruct (ao_TransitGatewayIP opts); [by apply IPToUint32_range|decide_true].
  - unfold mac_or_zero. case_bool_decide; [by apply mac_typed_copy|apply mac_typed_zero].
  - destruct (ao_AdminDown opts); decide_true.
  - destruct E8 as [-> | ->]; decide_true.
Qed.

(** C20: an attached port is live.  Whatever the kernel and the device packages
    answer: when [Attach] succeeds, without the request to stay down, on a
    provisioned switch whose maps hold an accepted configuration, the port it
    reports is published for the programs under the requested address and
    generation, so that they serve it: the two translations of the management
    path and the transit path hold for it from then on. *)
Theorem attach_goes_live `{BpfHelpers} sw m slots opts :
  ctx_ok sw slots → switch_maps sw m → ports_provisioned sw m slots → attach_typed opts → ao_AdminDown opts = false →
  wp alone (Attach sw opts) (λ r slots',
    match r with
    | Ok out => ∃ i y, at_Port out = i + 1 ∧ port_live (slots', m) (sx_cfg sw) i y ∧
        si_InnerIp y = IPToUint32 (ao_InnerIP opts) ∧ si_Generation y = ao_Generation opts ∧
        si_TransitGatewayIp y = gateway_of (ao_TransitGatewayIP opts) ∧ si_TransitGeneveVni y = ao_TransitGeneveVNI opts
    | Err _ => True
    | _ => False
    end) slots.
Proof.
  intros Hctx [Hcfg Hbase Hbits Hspan Hsm Hpm] Hprov Hopts Hup. eapply wp_mono; [by apply wp_Attach|].
  intros [out|e| |] slots' Hpost; unfold attach_post in Hpost; destruct (attach_checks sw opts) as [[[value len] ip]|e'| |] eqn:Hc; try done; try naive_solver.
  destruct Hpost as (i & x & y & Hi & _ & Hout & _ & Hfree & Hx & Hy & Hatt & Hst & _). destruct (Hprov i x Hfree Hx) as (Htx & Hdev & Hmap).
  pose proof (attach_checks_ip _ _ _ _ _ Hc) as [-> _]. pose proof Hatt as [E1 E2 E3 _ _ E6 E7 _ (D1 & _)].
  assert (Hgen : generation_ok (sx_cfg sw) (ao_Generation opts) = true) by (eapply checks_generation; [done..|apply Hopts]).
  exists i, y. split_and!; try done. split; rewrite ?D1, ?E6; try done.
  - eapply attached_typed; [done..|apply IPToUint32_range, Hopts|by eapply attach_checks_len].
  - rewrite E1. apply IsSlotAllocated_spec in Hst. unfold IsSlotAllocated, IsSlotFreeOrReserved in Hst. by apply negb_true_iff in Hst.
  - unfold slot_publication_token. rewrite E7, Hup. destruct (_ =? 0); by vm_compute.
  - pose proof (ctx_max _ _ Hctx). unfold MaxPorts in *. lia.
  - split_and!; [done|lia|apply Hopts|done].
Qed.

Definition ex_free : SlotItem :=
  MkSlotItem 12 InnerIPFree 4 167772161 0 0 mac_zero 0 0 1 ex_cidr 0 0 [MgmtCidr_zero; MgmtCidr_zero] 0.
Definition ex_reserved : SlotItem :=
  MkSlotItem 0 InnerIPReserved 0 0 0 0 mac_zero 0 0 0 MgmtCidr_zero 0 0 [MgmtCidr_zero; MgmtCidr_zero] 0.
Definition ex_slots : list SlotItem := ex_free :: replicate 3 ex_reserved.
Definition ex_maps : maps_state := MkMaps {[ 0 := ex_cfg ]} ∅ ∅ {[ 12 := 0 ]} ∅ ∅ ∅.
Definition ex_request : AttachOptions := MkAttachOptions 0 0 "" (IPv4 10 0 0 7) (IPv4 10 0 0 1) 77 [] [] false false.
Lemma ex_provisioned : ports_provisioned ex_switch ex_maps ex_slots.
Proof.
  intros i x Hfree Hx. unfold free_at, owner in Hfree. rewrite Hx in Hfree. unfold slot_at in Hx. destruct (Z.ltb_spec i 0); [done|].
  destruct (Z.to_nat i) as [|n] eqn:En.
  - injection Hx as <-. split; [split; decide_true|]. split; [done|]. replace i with 0 by lia. by vm_compute.
  - cbn in Hx. change (replicate 3 ex_reserved !! n = Some x) in Hx. apply lookup_replicate in Hx as [-> _]. discriminate Hfree.
Qed.
Lemma attach_goes_live_witness :
  is_ok (attach_checks ex_switch ex_request) = true ∧
  wp alone (Attach ex_switch ex_request) (λ r slots',
    match r with
    | Ok out => ∃ i y, at_Port out = i + 1 ∧ @port_live simple_helpers (slots', ex_maps) ex_cfg i y ∧
        si_InnerIp y = 167772167 ∧ si_Generation y = 0 ∧ si_TransitGatewayIp y = 167772161 ∧ si_TransitGeneveVni y = 77
    | Err _ => True
    | _ => False
    end) ex_slots.
Proof.
  split; [by vm_compute|]. apply (@attach_goes_live simple_helpers ex_switch ex_maps ex_slots ex_request).
  - decide_true.
  - split; try (vm_compute; reflexivity); try decide_true.
  - exact ex_provisioned.
  - split; decide_true.
  - reflexivity.
Defined.
