(* ===== verification/Publication.v ===== *)
(** * What the datapath can see of an attachment

    The traffic-control programs read a slot while attachments, set-port-ups and
    detachments write it.  They load the owner and the publication bit first and
    every other field, and the separate options map, after it.  Here the writers
    are sequences of events on the slot table and the maps, any number of them
    interleave, and a monitor says what the owner of a slot may do to it while
    others read; the readers are the packets of [Traffic].  Events are atomic and
    in program order: that the compiled programs keep the order is what the
    address dependency in [slot_publication_token] and [published_value] is
    for. *)
From S2P Require Import Prelude Errors GoStrings GoNet BpfTypes Mac Geneve Prog SlotTable Interleave.
From S2P Require Import Netns Netlink Config Metadata Loader Context Flock Attach AttachSpec Maps Packet Skb Datapath.

(** ** Interleavings over the slot table and the maps *)
Inductive tpool_step {A} : list (prog A) * tables → list (prog A) * tables → Prop :=
  | tpool_event ps t p B (e : ev B) k b t' :
      ps !! p = Some (Vis e k) → sem_step tables_sem e t b t' → tpool_step (ps, t) (<[p := k b]> ps, t').

(** A kernel that keeps the maps, for runs of such interleavings. *)
#[export] Instance maps_kernel : Kernel maps_state := λ B q m,
  match q in kev B return B * maps_state with
  | MapUpdate b k v _ => (inl tt, bput b m k (Some v))
  | MapLookup b k _ => (match bget b m k with Some v => inl v | None => refused end, m)
  | MapDelete b k => (inl tt, bput b m k None)
  | q => (refuse q, m)
  end.
Lemma maps_kernel_sound B (q : kev B) m b m' : maps_kernel B q m = (b, m') → map_step q m b m'.
Proof. destruct q; cbn [maps_kernel map_step]; intros [= <- <-]; try done. by destruct (bget _ _ _) eqn:E; split. Qed.
Lemma prog_step_sound {A} (ps : list (prog A)) p k k' (w w' : world maps_state) :
  ps !! p = Some k → prog_step k w = Some (k', w') →
  tpool_step (ps, (w_slots w, w_kern w)) (<[p := k']> ps, (w_slots w', w_kern w')).
Proof.
  intros Hp Hs. destruct k as [a|B e k]; [done|]. cbn [prog_step] in Hs.
  destruct e as [j|j old new|j|j wr|B q].
  1-4: destruct (mem_step _ _) as [[b s']|] eqn:E in Hs; [|done]; simplify_eq; (eapply tpool_event; [exact Hp|by split]).
  destruct (kernel_step q (w_kern w)) as [b kn] eqn:E. simplify_eq.
  eapply tpool_event; [exact Hp|]. split; [done|]. by apply maps_kernel_sound.
Qed.

(** ** The monitor of a process

    [Blind]: it owns no slot.  [Owns i y o c]: it has claimed slot [i], which
    holds [y], whose options are [o] and whose counters are [c].  Only an owner
    writes, and only while its slot is down, or to take it down, which [revoke]
    grants; what it puts up must be [whole], and marked ready only with fresh
    counters.  It may also give the slot back or change its address. *)

(** The generation of the counters, and whether the owner of the slot has put
    them at zero, with a new generation, while the slot was down as it still is
    or until it went up. *)
Record counters := MkCounters { co_gen : Z; co_fresh : bool }.
Definition stale (c : counters) : counters := MkCounters (co_gen c) false.
Inductive view :=
  | Blind
  | Owns (i : Z) (y : SlotItem) (o : option GeneveOptsValue) (c : counters).

Definition is_up (y : SlotItem) : bool := 0 <? Z.land (si_Flags y) 1.
Definition is_ready (y : SlotItem) : bool := si_StatsReady y =? 1.
Definition opts_at (t : tables) (i : Z) : option GeneveOptsValue := m_opts (snd t) !! i.
Definition stats_at (t : tables) (i : Z) : option SlotStats := m_stats (snd t) !! i.
Definition gen_of (o : option SlotStats) : Z := match o with Some x => st_Generation x | None => 0 end.
Definition no_counts (g : Z) : SlotStats := MkSlotStats g 0 0 0 0 0 0 0 0.
Definition keeps_device (w : slot_write) : Prop := ∀ z, same_device z (write_slot w z).
Definition free_down (slots : list SlotItem) : Prop :=
  ∀ i x, slot_at slots i = Some x → si_InnerIp x = InnerIPFree → is_up x = false.

(** The entry of the options or of the counters that a call replaces. *)
Inductive entry := OptsEntry (o : option GeneveOptsValue) | StatsEntry (v : option SlotStats).
Definition entry_write {B} (q : kev B) : option (Z * entry) :=
  match q with
  | MapUpdate m k v _ =>
      (match m in bmap K V return K → V → option (Z * entry) with
       | MGeneveOpts => λ k v, Some (k, OptsEntry (Some v))
       | MStats => λ k v, Some (k, StatsEntry (Some v))
       | _ => λ _ _, None end) k v
  | MapDelete m k =>
      (match m in bmap K V return K → option (Z * entry) with
       | MGeneveOpts => λ k, Some (k, OptsEntry None)
       | MStats => λ k, Some (k, StatsEntry None)
       | _ => λ _, None end) k
  | _ => None
  end.
(** Counters are only ever replaced by zeros of a later generation. *)
Definition entry_ok (e : entry) (c : counters) : Prop :=
  match e with
  | OptsEntry _ => True
  | StatsEntry (Some v) => co_gen c < st_Generation v ∧ v = no_counts (st_Generation v)
  | StatsEntry None => False
  end.
Definition entry_done (e : entry) (i : Z) (y : SlotItem) (o : option GeneveOptsValue) (c : counters) : view :=
  match e with
  | OptsEntry o' => Owns i y o' c
  | StatsEntry v => Owns i y o (MkCounters (gen_of v) true)
  end.

Section monitor.
Context (revoke : Prop) (whole : Z → SlotItem → option GeneveOptsValue → Prop) (t0 : tables).

(** A free slot, as far as provisioning left it what it was. *)
Definition free_at_start (i : Z) (y : SlotItem) : Prop :=
  ∃ x, slot_at (fst t0) i = Some x ∧ si_InnerIp x = InnerIPFree ∧ same_device x y.
Definition claimable (i : Z) (y : SlotItem) : Prop :=
  is_up y = false ∧ si_InnerIp y = InnerIPFree ∧ free_at_start i y.
(** Where a slot that is up comes from. *)
Definition origin (i : Z) (y : SlotItem) (o : option GeneveOptsValue) : Prop :=
  (slot_at (fst t0) i = Some y ∧ opts_at t0 i = o) ∨ whole i y o.

(** A slot that may be up. *)
Definition may_be_up (i : Z) (y : SlotItem) (o : option GeneveOptsValue) (c : counters) : Prop :=
  is_up y = true → whole i y o ∧ (is_ready y = true → co_fresh c = true).
Definition owns (v : view) (P : Z → SlotItem → option GeneveOptsValue → counters → Prop) : Prop :=
  match v with Owns i y o c => P i y o c | Blind => False end.
Definition pub_ok {B} (e : ev B) (v : view) : Prop :=
  match e with
  | ECas i old new =>
      match v with
      | Blind => 0 ≤ i ∧ old = InnerIPFree ∧ new ≠ InnerIPFree
      | Owns j y _ _ => i = j ∧ old = si_InnerIp y ∧ is_up y = false
      end
  | EStore i w =>
      owns v (λ j y o c, i = j ∧ keeps_device w ∧
        if is_up y then revoke ∧ is_up (write_slot w y) = false else may_be_up i (write_slot w y) o c)
  | EKern q =>
      match entry_write q with
      | Some (k, e) => owns v (λ j y _ c, k = j ∧ is_up y = false ∧ entry_ok e c)
      | None => True
      end
  | _ => True
  end.
Definition wrote {A} (w : option (Z * entry)) (v : view) (b : ans A) (v' : view) : Prop :=
  match w, v, b with
  | Some (_, e), Owns j y o c, inl _ => v' = entry_done e j y o c
  | _, _, _ => v' = v
  end.
Definition pub_kern {B} (q : kev B) (v : view) (b : B) (v' : view) : Prop :=
  match q in kev B return B → Prop with
  | MapUpdate m k val lk => λ b, wrote (entry_write (MapUpdate m k val lk)) v b v'
  | MapDelete m k => λ b, wrote (entry_write (MapDelete m k)) v b v'
  | MapLookup m k _ => λ b, v' = v ∧
      match v with
      | Owns j _ _ c =>
          (match m in bmap K V return K → ans V → Prop with
           | MStats => λ k b, k = j → match b with inl val => st_Generation val = co_gen c | inr _ => True end
           | _ => λ _ _, True
           end) k b
      | Blind => True
      end
  | _ => λ _, v' = v
  end b.
Definition pub_step {B} (e : ev B) (v : view) (b : B) (v' : view) : Prop :=
  match e in ev B return B → Prop with
  | ELoadIP i => λ ip, v' = v ∧
      match v with Owns j y _ _ => i = j → ip = si_InnerIp y | Blind => True end
  | ECas i _ new => λ b,
      match v with
      | Blind => if b then ∃ y o g, v' = Owns i (set_InnerIp new y) o (MkCounters g false) ∧ claimable i y else v' = Blind
      | Owns j y o c => b = true ∧ v' = if new =? InnerIPFree then Blind else Owns j (set_InnerIp new y) o c
      end
  | ELoadSlot i => λ y, v' = v ∧
      match v with Owns j z _ _ => i = j → y = z | Blind => True end
  | EStore _ w => λ _,
      match v with Owns j y o c => v' = Owns j (write_slot w y) o (if is_up y then stale c else c) | Blind => False end
  | EKern q => λ b, pub_kern q v b v'
  end b.
Definition pub_sem : sem view := MkSem (@pub_ok) (@pub_step).

(** ** The invariant of a pool *)
Definition view_ok (t : tables) (v : view) : Prop :=
  match v with
  | Blind => True
  | Owns i y o c =>
      slot_at (fst t) i = Some y ∧ opts_at t i = o ∧ gen_of (stats_at t i) = co_gen c ∧
      si_InnerIp y ≠ InnerIPFree ∧ may_be_up i y o c ∧ free_at_start i y
  end.
Definition unclaimed (t : tables) (i : Z) (y : SlotItem) : Prop :=
  (slot_at (fst t0) i = Some y ∧ opts_at t i = opts_at t0 i) ∨ claimable i y.
Definition owned (vs : list view) (i : Z) : Prop := ∃ p y o c, vs !! p = Some (Owns i y o c).
(** The owner of the slot has put its counters at zero. *)
Definition fresh (vs : list view) (i : Z) : Prop := ∃ p y o c, vs !! p = Some (Owns i y o c) ∧ co_fresh c = true.

Record pub_inv {A} (Q : nat → A → view → Prop) (ps : list (prog A)) (vs : list view) (t : tables) : Prop := {
  pv_len : length vs = length ps;
  pv_wp : ∀ p k v, ps !! p = Some k → vs !! p = Some v → wp pub_sem k (Q p) v;
  pv_view : ∀ p v, vs !! p = Some v → view_ok t v;
  pv_disj : ∀ p q i y o c y' o' c', vs !! p = Some (Owns i y o c) → vs !! q = Some (Owns i y' o' c') → p = q;
  pv_rest : ∀ i y, slot_at (fst t) i = Some y → ¬ owned vs i → unclaimed t i y;
}.

Lemma owned_dec vs i : owned vs i ∨ ¬ owned vs i.
Proof.
  induction vs as [|v vs IH]; [right; by intros (p & y & o & c & ?)|].
  assert ((∃ y o c, v = Owns i y o c) ∨ ∀ y o c, v ≠ Owns i y o c) as [(y & o & c & ->)|Hv].
  { destruct v as [|j y o c]; [by right|]. destruct (decide (j = i)) as [->|]; [by eauto|right; congruence]. }
  { left. by exists 0%nat, y, o, c. }
  destruct IH as [(p & y & o & c & Hp)|Hn]; [left; by exists (S p), y, o, c|right].
  intros ([|p] & y & o & c & Hp); [injection Hp; apply Hv|apply Hn; by exists p, y, o, c].
Qed.

(** *** What a step does to each slot *)
Definition same_at (t t' : tables) (i : Z) : Prop :=
  slot_at (fst t') i = slot_at (fst t) i ∧ opts_at t' i = opts_at t i ∧ stats_at t' i = stats_at t i.
Definition slot_down (t : tables) (i : Z) : Prop := ∀ y, slot_at (fst t) i = Some y → is_up y = false.
(** The counters are kept, or replaced by zeros of a later generation. *)
Definition reset_at (t t' : tables) (i : Z) : Prop :=
  ∃ g, stats_at t' i = Some (no_counts g) ∧ gen_of (stats_at t i) < g.
Record slot_step (vs vs' : list view) (t t' : tables) (i : Z) : Prop := {
  ss_slot : same_at t t' i ∨ slot_down t i ∨ revoke ∧ slot_down t' i;
  ss_stats : stats_at t' i = stats_at t i ∨ reset_at t t' i;
  ss_fresh : fresh vs' i → reset_at t t' i ∨
    fresh vs i ∧ stats_at t' i = stats_at t i ∧ (same_at t t' i ∨ slot_down t i);
}.
Lemma slot_step_same vs vs' t t' i : same_at t t' i → (fresh vs' i → fresh vs i) → slot_step vs vs' t t' i.
Proof. intros Hs Hf. split; [by left|left; apply Hs|]. intros H%Hf. right. split_and!; [done|apply Hs|by left]. Qed.
Lemma same_at_refl t i : same_at t t i.
Proof. done. Qed.
Lemma same_at_set t i x j : 0 ≤ i → j ≠ i → same_at t (set_slot (fst t) i x, snd t) j.
Proof. intros Hi Hj. split_and!; [by apply slot_at_set_ne|done..]. Qed.

Lemma view_ok_same t t' v : (∀ i y o c, v = Owns i y o c → same_at t t' i) → view_ok t v → view_ok t' v.
Proof. destruct v as [|i y o c]; [done|]. intros Hs. destruct (Hs i y o c eq_refl) as (E1 & E2 & E3). unfold view_ok. by rewrite E1, E2, E3. Qed.

(** Where a view is replaced, the others stay. *)
Lemma fresh_insert vs p v v' j : vs !! p = Some v → (∀ y o c, v' = Owns j y o c → co_fresh c = true → ∃ y o c, v = Owns j y o c ∧ co_fresh c = true) →
  fresh (<[p := v']> vs) j → fresh vs j.
Proof.
  intros Hp Hv (q & y & o & c & [(<- & -> & _)|(_ & Hq)]%list_lookup_insert_Some & Hc); [|by exists q, y, o, c].
  destruct (Hv y o c eq_refl Hc) as (y' & o' & c' & -> & Hc'). by exists p, y', o', c'.
Qed.

(** What process [p] may do to slot [i] without hurting the others. *)
Lemma pub_inv_change {A} (Q : nat → A → view → Prop) ps vs t p k v v' i t' :
  pub_inv Q ps vs t → is_Some (ps !! p) → vs !! p = Some v → wp pub_sem k (Q p) v' →
  (∀ j, j ≠ i → same_at t t' j) → view_ok t' v' →
  (∀ q y o c, vs !! q = Some (Owns i y o c) → q = p) →
  (∀ j y o c, v = Owns j y o c → j = i) →
  match v' with Owns j _ _ _ => j = i | _ => ∀ y, slot_at (fst t') i = Some y → unclaimed t' i y end →
  slot_step vs (<[p := v']> vs) t t' i →
  pub_inv Q (<[p := k]> ps) (<[p := v']> vs) t' ∧ ∀ j, slot_step vs (<[p := v']> vs) t t' j.
Proof.
  intros [Hl Hw Hv Hd Hr] [k0 Hp] Hvp Hk Hsame Hok Hno Hown Hnew Hstep. pose proof (lookup_lt_Some _ _ _ Hvp) as Hlt.
  split; [split|].
  - by rewrite !length_insert.
  - intros q k' w [(<- & -> & _)|(Hne & ?)]%list_lookup_insert_Some Hq.
    + rewrite list_lookup_insert_eq in Hq by done. by simplify_eq.
    + rewrite list_lookup_insert_ne in Hq by done. by eapply Hw.
  - intros q w [(<- & -> & _)|(Hne & Hq)]%list_lookup_insert_Some; [done|].
    apply (view_ok_same t); [|by eapply Hv]. intros j y o c ->. apply Hsame. intros ->. by apply Hne, eq_sym, (Hno q y o c).
  - intros q r j y o c y' o' c' [(<- & -> & _)|(Hne & Hq)]%list_lookup_insert_Some
      [(<- & E & _)|(Hne' & Hq')]%list_lookup_insert_Some; try done.
    + subst j. by rewrite (Hno r _ _ _ Hq').
    + subst v'. subst j. by apply (Hno q _ _ _ Hq).
    + by eapply Hd.
  - intros j y Hy Hnone. destruct (decide (j = i)) as [->|Hj].
    + destruct v' as [|j z o c]; [by apply Hnew|]. subst j. destruct Hnone. exists p, z, o, c. by apply list_lookup_insert_eq.
    + destruct (Hsame j Hj) as (E1 & E2 & _). rewrite E1 in Hy. unfold unclaimed. rewrite E2. apply (Hr j y Hy).
      intros (q & z & o & c & Hq). apply Hnone. exists q, z, o, c. rewrite list_lookup_insert_ne; [done|].
      intros <-. rewrite Hvp in Hq. injection Hq as ->. by apply Hj, (Hown j z o c).
  - intros j. destruct (decide (j = i)) as [->|Hj]; [done|]. apply slot_step_same; [by apply Hsame|].
    apply (fresh_insert _ _ v); [done|]. intros y o c -> _. by destruct Hj.
Qed.

(** A step that changes nothing of the slots, the options and the counters. *)
Lemma pub_inv_quiet {A} (Q : nat → A → view → Prop) ps vs t p k v t' :
  pub_inv Q ps vs t → is_Some (ps !! p) → vs !! p = Some v → wp pub_sem k (Q p) v → (∀ j, same_at t t' j) →
  pub_inv Q (<[p := k]> ps) vs t' ∧ ∀ j, slot_step vs vs t t' j.
Proof.
  intros [Hl Hw Hv Hd Hr] [k0 Hp] Hvp Hk Hsame. split; [split|].
  - by rewrite length_insert.
  - intros q k' w [(<- & -> & _)|(Hne & ?)]%list_lookup_insert_Some Hq; [by simplify_eq|by eapply Hw].
  - intros q w Hq. apply (view_ok_same t); [by intros|by eapply Hv].
  - done.
  - intros j y Hy Hnone. destruct (Hsame j) as (E1 & E2 & _). rewrite E1 in Hy. unfold unclaimed. rewrite E2. by apply (Hr j y Hy).
  - intros j. by apply slot_step_same.
Qed.

Context (Hdown : free_down (fst t0)).

Lemma inv_up {A} (Q : nat → A → view → Prop) ps vs t i y :
  pub_inv Q ps vs t → slot_at (fst t) i = Some y → is_up y = true → origin i y (opts_at t i) ∧ si_InnerIp y ≠ InnerIPFree.
Proof.
  intros [_ _ Hv _ Hr] Hy Hup. destruct (owned_dec vs i) as [(p & z & o & c & Hp)|Hn].
  - destruct (Hv _ _ Hp) as (Hz & Ho & _ & Hne & Hw & _). rewrite Hy in Hz. injection Hz as <-. subst o.
    split; [right; by apply Hw|done].
  - destruct (Hr i y Hy Hn) as [[Hi Ho]|[Hd _]]; [|by rewrite Hup in Hd]. split; [by left|]. intros Hf.
    by rewrite (Hdown i y Hi Hf) in Hup.
Qed.
(** A slot that was free at the start, is up and has its counters marked ready:
    it has an owner, who put the counters at zero. *)
Lemma inv_ready {A} (Q : nat → A → view → Prop) ps vs t i x y :
  pub_inv Q ps vs t → slot_at (fst t0) i = Some x → si_InnerIp x = InnerIPFree →
  slot_at (fst t) i = Some y → is_up y = true → is_ready y = true → fresh vs i ∧ whole i y (opts_at t i).
Proof.
  intros [_ _ Hv _ Hr] Hx Hf Hy Hup Hready. destruct (owned_dec vs i) as [(p & z & o & c & Hp)|Hn].
  - destruct (Hv _ _ Hp) as (Hz & Ho & _ & _ & Hw & _). rewrite Hy in Hz. injection Hz as <-. subst o.
    destruct (Hw Hup) as [Hwh Hc]. split; [|done]. exists p, y, (opts_at t i), c. auto.
  - destruct (Hr i y Hy Hn) as [[Hi _]|[Hd _]]; [|by rewrite Hup in Hd]. rewrite Hx in Hi. injection Hi as <-.
    by rewrite (Hdown i x Hx Hf) in Hup.
Qed.
Lemma inv_free {A} (Q : nat → A → view → Prop) ps vs t i y :
  pub_inv Q ps vs t → slot_at (fst t) i = Some y → si_InnerIp y = InnerIPFree → ¬ owned vs i ∧ claimable i y.
Proof.
  intros [_ _ Hv _ Hr] Hy Hf.
  assert (Hn : ¬ owned vs i) by (intros (p & z & o & c & Hp); destruct (Hv _ _ Hp) as (Hz & _ & _ & Hne & _); congruence).
  split; [done|]. destruct (Hr i y Hy Hn) as [[Hi _]|Hc]; [|done]. split_and!; [by eapply Hdown|done|].
  exists y. by split_and!.
Qed.

(** The calls that replace an entry, and all others. *)
Lemma kern_writes {B} (q : kev B) m b m' k e y c s :
  entry_write q = Some (k, e) → map_step q m b m' → entry_ok e c → gen_of (m_stats m !! k) = co_gen c →
  ∃ o' c', pub_kern q (Owns k y (m_opts m !! k) c) b (Owns k y o' c') ∧ m_opts m' !! k = o' ∧ gen_of (m_stats m' !! k) = co_gen c' ∧
    (∀ j, j ≠ k → same_at (s, m) (s, m') j) ∧
    ((m_stats m' !! k = m_stats m !! k ∧ c' = c) ∨ reset_at (s, m) (s, m') k).
Proof.
  intros E Hs Hok Hg. destruct q; try discriminate E; destruct m0; try discriminate E; injection E as <- <-; cbn [map_step] in Hs.
  all: destruct b as [b|b]; subst m'; [|exists (m_opts m !! key), c; split_and!; try done; by left].
  all: try by destruct Hok.
  - destruct Hok as [Hlt Hz]. exists (m_opts m !! key), (MkCounters (st_Generation val) true).
    assert (Hst : m_stats (bput MStats m key (Some val)) !! key = Some val) by (destruct m; simpl; by rewrite lookup_partial_alter_eq).
    split_and!; [done|by destruct m|by rewrite Hst|..].
    + intros j Hj. destruct m. split_and!; [done..|]. unfold stats_at. simpl. by rewrite lookup_partial_alter_ne by done.
    + right. exists (st_Generation val). unfold stats_at. cbn [snd]. rewrite Hst, <-Hz, Hg. done.
  - exists (Some val), c. split_and!; [done|..|by left; destruct m].
    + destruct m. simpl. by rewrite lookup_partial_alter_eq.
    + by destruct m.
    + intros j Hj. destruct m. split_and!; [done| |done]. unfold opts_at. simpl. by rewrite lookup_partial_alter_ne by done.
  - exists None, c. split_and!; [done|..|by left; destruct m].
    + destruct m. simpl. by rewrite lookup_partial_alter_eq.
    + by destruct m.
    + intros j Hj. destruct m. split_and!; [done| |done]. unfold opts_at. simpl. by rewrite lookup_partial_alter_ne by done.
Qed.
Lemma kern_keeps {B} (q : kev B) m b m' v :
  entry_write q = None → map_step q m b m' → (∀ j y o c, v = Owns j y o c → gen_of (m_stats m !! j) = co_gen c) →
  pub_kern q v b v ∧ m_opts m' = m_opts m ∧ m_stats m' = m_stats m.
Proof.
  intros E Hs Hv. destruct q; cbn [map_step pub_kern] in *; try (by subst).
  - rewrite E. split; [done|]. destruct b; subst; [|done]. by destruct m0, m.
  - destruct Hs as [-> Hb]. split_and!; try done. destruct v as [|j y o c]; [done|].
    destruct m0; try done. intros ->. destruct b as [val|]; [|done]. rewrite <-(Hv _ _ _ _ eq_refl). cbn [bget] in Hb. by rewrite Hb.
  - rewrite E. split; [done|]. destruct b; subst; [|done]. by destruct m0, m.
Qed.

(** *** An owner changes its slot: nobody else is concerned *)
Lemma inv_others {A} (Q : nat → A → view → Prop) ps vs t p i y o c :
  pub_inv Q ps vs t → vs !! p = Some (Owns i y o c) →
  (∀ q y' o' c', vs !! q = Some (Owns i y' o' c') → q = p) ∧ ∀ j y' o' c', Owns i y o c = Owns j y' o' c' → j = i.
Proof. intros HI Hp. split; [|congruence]. intros q y' o' c' Hq. by eapply (pv_disj _ _ _ _ HI). Qed.
Lemma fresh_own vs p i y o c : vs !! p = Some (Owns i y o c) → co_fresh c = true → fresh vs i.
Proof. intros Hp Hc. by exists p, y, o, c. Qed.

(** What an owner does to the slot itself. *)
Lemma inv_own {A} (Q : nat → A → view → Prop) ps vs t p k i y o c z c' :
  pub_inv Q ps vs t → is_Some (ps !! p) → vs !! p = Some (Owns i y o c) → si_InnerIp z ≠ InnerIPFree → same_device y z →
  may_be_up i z o c' → co_gen c' = co_gen c →
  (is_up y = false ∧ (co_fresh c' = true → co_fresh c = true)) ∨ (revoke ∧ is_up z = false ∧ co_fresh c' = false) →
  wp pub_sem k (Q p) (Owns i z o c') →
  pub_inv Q (<[p := k]> ps) (<[p := Owns i z o c']> vs) (set_slot (fst t) i z, snd t) ∧
  ∀ j, slot_step vs (<[p := Owns i z o c']> vs) t (set_slot (fst t) i z, snd t) j.
Proof.
  intros HI Hp Hv Hne Hdev Hup Hgen Hcase Hk. destruct (pv_view _ _ _ _ HI _ _ Hv) as (Hy & Ho & Hg & _ & _ & x & Hx & Hxf & Hs).
  pose proof (slot_at_range _ _ _ Hy) as [Hi _]. destruct (inv_others Q ps vs t p i y o c HI Hv) as [H1 H2].
  pose proof (lookup_lt_Some _ _ _ Hv) as Hlt.
  assert (Hz : slot_at (set_slot (fst t) i z) i = Some z) by (by eapply slot_at_set).
  eapply (pub_inv_change Q ps vs t p k (Owns i y o c) _ i); try done.
  - intros j Hj. by apply same_at_set.
  - cbn [view_ok fst]. split_and!; try done; [unfold stats_at in *; cbn [snd]; congruence|].
    exists x. split_and!; [done..|]. destruct Hdev as (?&?&?&?&?&?&?), Hs as (?&?&?&?&?&?&?). split_and!; congruence.
  - split; [|by left|].
    + right. destruct Hcase as [[Hd _]|(Hr & Hd & _)]; [left|right; split; [done|]]; intros z' Hz'; [by rewrite Hy in Hz'; injection Hz' as <-|].
      cbn [fst] in Hz'. rewrite Hz in Hz'. by injection Hz' as <-.
    + intros (q & y' & o' & c1 & Hq & Hc1). right. assert (q = p) as ->.
      { destruct (decide (q = p)); [done|]. rewrite list_lookup_insert_ne in Hq by done. by eapply H1. }
      rewrite list_lookup_insert_eq in Hq by done. injection Hq as <- <- <-.
      destruct Hcase as [[Hd Hc]|(_ & _ & Hc)]; [|by rewrite Hc in Hc1].
      split_and!; [by eapply fresh_own, Hc|done|right]. intros z' Hz'. by rewrite Hy in Hz'; injection Hz' as <-.
Qed.
Lemma inv_claim {A} (Q : nat → A → view → Prop) ps vs t p k i y new (c := MkCounters (gen_of (stats_at t i)) false) :
  pub_inv Q ps vs t → is_Some (ps !! p) → vs !! p = Some Blind → slot_at (fst t) i = Some y → si_InnerIp y = InnerIPFree →
  new ≠ InnerIPFree → wp pub_sem k (Q p) (Owns i (set_InnerIp new y) (opts_at t i) c) →
  pub_inv Q (<[p := k]> ps) (<[p := Owns i (set_InnerIp new y) (opts_at t i) c]> vs) (set_slot (fst t) i (set_InnerIp new y), snd t) ∧
  ∀ j, slot_step vs (<[p := Owns i (set_InnerIp new y) (opts_at t i) c]> vs) t (set_slot (fst t) i (set_InnerIp new y), snd t) j.
Proof.
  intros HI Hp Hv Hy Hf Hnew Hk. destruct (inv_free Q ps vs t i y HI Hy Hf) as [Hno (Hd & _ & x & Hx & Hxf & Hs)].
  pose proof (slot_at_range _ _ _ Hy) as [Hi _].
  assert (Hdn : slot_down t i) by (intros z Hz; by rewrite Hy in Hz; injection Hz as <-).
  eapply (pub_inv_change Q ps vs t p k Blind _ i); try done.
  - intros j Hj. by apply same_at_set.
  - cbn [view_ok fst]. split_and!; [by eapply slot_at_set|done|done|by rewrite InnerIp_set| |].
    + intros Hup. exfalso. revert Hup. replace (is_up _) with false; [done|]. by destruct y.
    + exists x. split_and!; [done..|]. by destruct y.
  - intros q z o c' Hq. destruct Hno. by exists q, z, o, c'.
  - split; [by right; left|by left|]. intros (q & z & o & c' & [(_ & E & _)|(_ & Hq)]%list_lookup_insert_Some & Hc).
    + injection E as <- <- <-. done.
    + destruct Hno. by exists q, z, o, c'.
Qed.
Lemma inv_release {A} (Q : nat → A → view → Prop) ps vs t p k i y o c :
  pub_inv Q ps vs t → is_Some (ps !! p) → vs !! p = Some (Owns i y o c) → is_up y = false → wp pub_sem k (Q p) Blind →
  pub_inv Q (<[p := k]> ps) (<[p := Blind]> vs) (set_slot (fst t) i (set_InnerIp InnerIPFree y), snd t) ∧
  ∀ j, slot_step vs (<[p := Blind]> vs) t (set_slot (fst t) i (set_InnerIp InnerIPFree y), snd t) j.
Proof.
  intros HI Hp Hv Hd Hk. destruct (pv_view _ _ _ _ HI _ _ Hv) as (Hy & Ho & _ & Hne & _ & x & Hx & Hxf & Hs).
  pose proof (slot_at_range _ _ _ Hy) as [Hi _]. destruct (inv_others Q ps vs t p i y o c HI Hv) as [H1 H2].
  assert (Hdn : slot_down t i) by (intros z Hz; by rewrite Hy in Hz; injection Hz as <-).
  eapply (pub_inv_change Q ps vs t p k (Owns i y o c) _ i); try done.
  - intros j Hj. by apply same_at_set.
  - cbn [fst]. intros z Hz. rewrite (slot_at_set _ _ _ _ Hy) in Hz. injection Hz as <-. right. split_and!.
    + by destruct y.
    + apply InnerIp_set.
    + exists x. split_and!; [done..|]. by destruct y.
  - split; [by right; left|by left|]. intros Hf. right. split_and!; [|done|by right].
    by apply (fresh_insert _ _ _ _ _ Hv) in Hf.
Qed.
(** An owner replaces the options or the counters. *)
Lemma inv_entry {A} (Q : nat → A → view → Prop) ps vs t p k i y o c m' o' c' :
  pub_inv Q ps vs t → is_Some (ps !! p) → vs !! p = Some (Owns i y o c) → is_up y = false →
  (∀ j, j ≠ i → same_at t (fst t, m') j) → m_opts m' !! i = o' → gen_of (m_stats m' !! i) = co_gen c' →
  (m_stats m' !! i = stats_at t i ∧ c' = c) ∨ reset_at t (fst t, m') i →
  wp pub_sem k (Q p) (Owns i y o' c') →
  pub_inv Q (<[p := k]> ps) (<[p := Owns i y o' c']> vs) (fst t, m') ∧ ∀ j, slot_step vs (<[p := Owns i y o' c']> vs) t (fst t, m') j.
Proof.
  intros HI Hp Hv Hd Hm Ho' Hg' Hcase Hk. destruct (pv_view _ _ _ _ HI _ _ Hv) as (Hy & Ho & _ & Hne & _ & Hx).
  destruct (inv_others Q ps vs t p i y o c HI Hv) as [H1 H2]. pose proof (lookup_lt_Some _ _ _ Hv) as Hlt.
  assert (Hdn : slot_down t i) by (intros z Hz; by rewrite Hy in Hz; injection Hz as <-).
  eapply (pub_inv_change Q ps vs t p k (Owns i y o c) _ i); try done.
  - cbn [view_ok fst]. split_and!; try done. intros Hup. by rewrite Hup in Hd.
  - split; [by right; left|destruct Hcase as [[Hc _]|Hc]; [by left|by right]|]. intros Hf. destruct Hcase as [[Hst ->]|Hc]; [|by left]. right.
    split_and!; [|done|by right]. apply (fresh_insert _ _ _ _ _ Hv) in Hf; [done|]. intros y1 o1 c1 [= -> -> ->] Hc1. by eexists _, _, _.
Qed.
(** Packets count, which concerns nobody. *)
Lemma inv_counted {A} (Q : nat → A → view → Prop) ps vs t m' :
  pub_inv Q ps vs t → m_opts m' = m_opts (snd t) → (∀ j, gen_of (m_stats m' !! j) = gen_of (stats_at t j)) → pub_inv Q ps vs (fst t, m').
Proof.
  intros [Hl Hw Hv Hd Hr] Ho Hg. split; [done..| |done|].
  - intros p v Hp. pose proof (Hv p v Hp) as Hok. destruct v as [|i y o c]; [done|]. destruct Hok as (Hy & Hoo & Hgg & Hrest).
    split_and!; [done| |by rewrite <-Hgg; apply Hg|apply Hrest..]. unfold opts_at in *. cbn [snd]. by rewrite Ho.
  - intros i y Hy Hn. destruct (Hr i y Hy Hn) as [[? E]|?]; [left|by right]. split; [done|]. unfold opts_at in *. cbn [snd]. by rewrite Ho.
Qed.

(** Every step of a monitored pool keeps the invariant. *)
Lemma pub_inv_step {A} (Q : nat → A → view → Prop) ps vs t ps' t' :
  pub_inv Q ps vs t → tpool_step (ps, t) (ps', t') → ∃ vs', pub_inv Q ps' vs' t' ∧ ∀ j, slot_step vs vs' t t' j.
Proof.
  intros HI Hstep. inversion Hstep as [? ? p B e k b ? Hp Hs]; subst; clear Hstep.
  destruct (lookup_lt_is_Some_2 vs p) as [v Hv]; [rewrite (pv_len _ _ _ _ HI); by eapply lookup_lt_Some|].
  destruct (pv_wp _ _ _ _ HI _ _ _ Hp Hv) as [Hok Hnext]. cbn [sem_ok sem_step pub_sem] in Hok, Hnext.
  pose proof (pv_view _ _ _ _ HI _ _ Hv) as Hview. assert (HSp : is_Some (ps !! p)) by by eexists.
  destruct t as [s m], t' as [s' m'].
  destruct e as [i|i old new|i|i w|B q]; cbn [tables_sem sem_step fst snd mem_step] in Hs; destruct Hs as [Hmem Hmaps].
  1-4: subst m'; destruct (slot_at s i) as [y|] eqn:Hy; [|done].
  - simplify_eq. exists vs. eapply pub_inv_quiet; [done..| |done]. apply Hnext. split; [done|].
    destruct v as [|j z o c]; [done|]. destruct Hview as (Hz & _). cbn [fst] in Hz. intros <-. congruence.
  - destruct v as [|j z o c]; cbn [pub_ok] in Hok.
    + destruct Hok as (Hi & -> & Hnew). destruct (Z.eqb_spec (si_InnerIp y) InnerIPFree) as [Hf|Hf]; simplify_eq.
      * eexists. apply (inv_claim Q ps vs (s, m)); [done..|]. apply Hnext. eexists y, _, _. split; [done|].
        by apply (inv_free Q ps vs (s, m) i y HI Hy).
      * exists vs. eapply pub_inv_quiet; [done..| |done]. by apply Hnext.
    + destruct Hok as (-> & -> & Hd). destruct Hview as (Hz & _ & _ & _ & _). cbn [fst] in Hz. assert (z = y) as -> by congruence.
      rewrite Z.eqb_refl in Hmem. simplify_eq.
      cbn [pub_step] in Hnext. destruct (Z.eqb_spec new InnerIPFree) as [->|Hnew].
      * eexists. eapply (inv_release Q ps vs (s, m)); [done..|]. by apply Hnext.
      * eexists. apply (inv_own Q ps vs (s, m) p _ j y o c); [done..| | | |done|by left|by apply Hnext].
        -- by rewrite InnerIp_set.
        -- by destruct y.
        -- intros Hup. exfalso. revert Hup. replace (is_up _) with false; [done|]. by destruct y.
  - simplify_eq. exists vs. eapply pub_inv_quiet; [done..| |done]. apply Hnext. split; [done|].
    destruct v as [|j z o c]; [done|]. destruct Hview as (Hz & _). cbn [fst] in Hz. intros <-. congruence.
  - simplify_eq. destruct v as [|j z o c]; cbn [pub_ok owns] in Hok; [done|]. destruct Hok as (-> & Hdev & Hw).
    destruct Hview as (Hz & _ & _ & Hne & _). cbn [fst] in Hz. assert (z = y) as -> by congruence.
    eexists. eapply (inv_own Q ps vs (s, m) p _ j y o c); [done..| |apply Hdev| | | |by apply Hnext].
    + by rewrite InnerIp_write.
    + destruct (is_up y); [|done]. destruct Hw as [_ Hd]. intros Hup. by rewrite Hup in Hd.
    + by destruct (is_up y).
    + destruct (is_up y); [|by left]. right. by destruct Hw.
  - subst s'. cbn [pub_ok] in Hok. destruct (entry_write q) as [[k' e]|] eqn:Ew.
    + destruct v as [|j z o c]; [done|]. destruct Hok as (-> & Hd & Hok). destruct Hview as (_ & Ho & Hg & _). unfold opts_at, stats_at in *. cbn [snd] in *.
      destruct (kern_writes q m b m' j e z c s Ew Hmaps Hok Hg) as (o' & c' & Hk & Ho' & Hg' & Hne & Hcase). rewrite Ho in Hk.
      eexists. eapply (inv_entry Q ps vs (s, m)); [done..|]. apply Hnext. exact Hk.
    + assert (Hgen : ∀ j y o c, v = Owns j y o c → gen_of (m_stats m !! j) = co_gen c) by (intros j y o c ->; by destruct Hview as (_ & _ & ? & _)).
      destruct (kern_keeps q m b m' v Ew Hmaps Hgen) as (Hk & Heq & Hst). exists vs.
      eapply (pub_inv_quiet Q ps vs (s, m)); [done|done|done|by apply Hnext|].
      intros j. split_and!; [done|..]; unfold opts_at, stats_at; cbn [snd]; by rewrite ?Heq, ?Hst.
Qed.
Lemma pub_inv_init {A} (Q : nat → A → view → Prop) ps :
  (∀ p k, ps !! p = Some k → wp pub_sem k (Q p) Blind) → pub_inv Q ps (replicate (length ps) Blind) t0.
Proof.
  intros Hk. split.
  - apply length_replicate.
  - intros p k v Hp [-> _]%lookup_replicate. by eapply Hk.
  - by intros p v [-> _]%lookup_replicate.
  - by intros p q i y o c y' o' c' [? _]%lookup_replicate.
  - intros i y Hy _. by left.
Qed.

(** ** Programs that write neither options nor counters *)
Definition no_entry (B : Type) (e : ev B) : Prop := match e with EKern q => entry_write q = None | _ => False end.
Lemma wp_no_entry {A} P (p : prog A) (Q : A → view → Prop) v :
  obeys no_entry p → ends_in P p → (∀ a, P a → Q a v) → wp pub_sem p Q v.
Proof.
  induction p as [a|B e k IH]; cbn [obeys ends_in]; intros Ho He HQ; [by apply HQ|].
  destruct e as [| | | |B q]; try (by destruct He). destruct Ho as [Hq Ho], He as [_ He]. cbn [no_entry] in Hq.
  split; [cbn [sem_ok pub_sem pub_ok]; by rewrite Hq|]. intros b v' Hs. assert (v' = v) as ->; [|by apply IH].
  cbn [sem_step pub_sem pub_step] in Hs. destruct q; cbn [pub_kern] in Hs; try (rewrite Hq in Hs); try exact Hs. by destruct Hs.
Qed.
End monitor.

Ltac no_entry := obeys ltac:(first [reflexivity | exact I]).
Lemma Do_no_entry {A} ns (f : M A) : obeys no_entry f → obeys no_entry (Do ns f).
Proof. intros. unfold Do. no_entry. Qed.
Lemma GetByName_no_entry n : obeys no_entry (GetByName n).
Proof. unfold GetByName. no_entry. Qed.
Lemma MoveDevice_no_entry d f t : obeys no_entry (MoveDevice d f t).
Proof. unfold MoveDevice, do_opt. destruct f; no_entry; apply Do_no_entry; no_entry. Qed.
Lemma GetMTUInNs_no_entry ns n : obeys no_entry (GetMTUInNs ns n).
Proof. unfold GetMTUInNs, GetMTU, link_by_name. apply Do_no_entry. no_entry. Qed.
Lemma GetLinkInNs_no_entry ns n : obeys no_entry (GetLinkInNs ns n).
Proof. unfold GetLinkInNs. apply Do_no_entry. no_entry. Qed.
#[export] Hint Resolve GetByName_no_entry MoveDevice_no_entry GetMTUInNs_no_entry : obeys.
Lemma NetNS_Close_no_entry ns : obeys no_entry (NetNS_Close ns).
Proof. unfold NetNS_Close. no_entry. Qed.
#[export] Hint Resolve NetNS_Close_no_entry : obeys.
Lemma validateAttachMTU_no_entry s i kind n : obeys no_entry (validateAttachMTU s i kind n).
Proof. unfold validateAttachMTU. no_entry. Qed.
#[export] Hint Resolve validateAttachMTU_no_entry : obeys.
