(* ===== verification/PublicationSpec.v ===== *)
(** * Attachments as the datapath sees them

    [Attach], [SetPortUp] and [Detach] keep to the monitor of [Publication], and
    so do tenants that go through sessions of them.  What packets get to see of
    it is in [TrafficSpec]. *)
From S2P Require Import Prelude Errors GoStrings GoNet BpfTypes Mac Geneve Prog SlotTable Interleave.
From S2P Require Import Netns Netlink Config Metadata Loader Context Flock Attach AttachSpec PortSpec Maps Packet Skb Datapath Publication.

(** ** Attach keeps to the monitor *)
Definition keeps_down (w : slot_write) : Prop :=
  keeps_device w ∧ ∀ z, is_up z = false → is_up (write_slot w z) = false.
Lemma claim_writes_down opts : Forall keeps_down (claim_writes opts).
Proof.
  assert (∀ w, keeps_device w → (∀ z, is_up (write_slot w z) = is_up z) → keeps_down w) as Hk.
  { intros w Hd Hu. split; [done|]. intros z. by rewrite Hu. }
  unfold claim_writes. apply Forall_app_2; [|destruct (bool_decide _)]; repeat apply Forall_cons_2; try apply Forall_nil_2.
  2: by split; [intros []|intros []].
  all: apply Hk; by intros [].
Qed.

Section attach.
Context (revoke : Prop) (whole : Z → SlotItem → option GeneveOptsValue → Prop) (t0 : tables).
Notation pub := (pub_sem revoke whole t0).
Context (s : switchContext) (opts : AttachOptions) (value : GeneveOptsValue) (total ip i : Z).
Context (Hi : 0 ≤ i < sx_numSlots s).

Lemma wp_pub_stores ws y o c (Q : unit → view → Prop) :
  Forall keeps_down ws → is_up y = false → Q tt (Owns i (write_all ws y) o c) → wp pub (stores i ws) Q (Owns i y o c).
Proof.
  intros Hws. revert y. induction Hws as [|w ws [Hdev Hw] _ IH]; intros y Hd HQ; [done|]. cbn [stores]. apply wp_bind.
  split; [cbn [sem_ok pub_sem pub_ok owns]; rewrite Hd; split_and!; try done; intros Hup; by rewrite Hw in Hup|].
  intros [] v ->. rewrite Hd. apply IH; [by apply Hw|done].
Qed.
Lemma wp_pub_store_slot w y o c (k : M unit) (Q : res unit → view → Prop) :
  keeps_device w → is_up y = false → may_be_up whole i (write_slot w y) o c →
  wp pub k Q (Owns i (write_slot w y) o c) → wp pub (store_slot (sx_numSlots s) i w k) Q (Owns i y o c).
Proof.
  intros Hdev Hd Hw Hk. unfold store_slot. rewrite GetSlot_lt by lia. cbn [deref]. apply wp_bind.
  split; [cbn [sem_ok pub_sem pub_ok owns]; by rewrite Hd|]. intros [] v ->. by rewrite Hd.
Qed.
Lemma wp_pub_read_slot {A} y o c (k : SlotItem → M A) (Q : res A → view → Prop) :
  wp pub (k y) Q (Owns i y o c) → wp pub (read_slot (sx_numSlots s) i k) Q (Owns i y o c).
Proof.
  intros Hk. unfold read_slot. rewrite GetSlot_lt by lia. cbn [deref]. apply wp_bind.
  split; [done|]. intros x v [-> Hx]. by rewrite (Hx eq_refl).
Qed.
Lemma wp_pub_release y o c (Q : bool → view → Prop) :
  is_up y = false → si_InnerIp y = ip → Q true Blind → wp pub (TryRelease (sx_numSlots s) i ip) Q (Owns i y o c).
Proof.
  intros Hd Hip HQ. unfold TryRelease. rewrite ptr_lt by lia. split; [by split_and!|]. by intros b v [-> ->].
Qed.

Lemma wp_pub_ResetStats n y o c (Q : res unit → view → Prop) :
  is_up y = false → (∀ c', co_fresh c' = true → Q (Ok tt) (Owns i y o c')) → (∀ e, Q (Err e) (Owns i y o c)) →
  wp pub (ResetStats n i) Q (Owns i y o c).
Proof.
  intros Hd Hok Herr. unfold ResetStats, GetStats. apply wp_mbind. destruct (n <=? i); [apply Herr|]. apply wp_mwrap, wp_call; [done|..].
  - intros prev v [-> Hprev]. specialize (Hprev eq_refl). cbn [map_err]. destruct (_ =? MaxUint64); [apply Herr|]. apply wp_mwrap, wp_call.
    + cbn [sem_ok pub_sem pub_ok entry_write owns entry_ok st_Generation]. split_and!; [done|done|lia|done].
    + intros [] v ->. by apply Hok.
    + intros e v ->. apply Herr.
  - intros e v [-> _]. apply Herr.
Qed.

(** The slot is claimed, down and ours. *)
Section claimed.
Context (y : SlotItem) (Hd : is_up y = false) (Hip : si_InnerIp y = ip) (Hun : is_ready y = false).
Context (Hwhole : ao_AdminDown opts = false → ∀ ready, whole i (published_slot opts value ready y) (Some value)).

Lemma wp_pub_or_rollback {A} o c wrap (p : M A) (P : res A → view → Prop) :
  obeys no_entry p → kern_ret p → (∀ a, P (Ok a) (Owns i y o c)) → (∀ e, P (Err e) Blind) →
  wp pub (or_rollback (TryRelease (sx_numSlots s) i ip) wrap p) P (Owns i y o c).
Proof.
  intros Hq Hp Hok Herr. unfold or_rollback, on_err. apply wp_bind, wp_mwrap. eapply wp_no_entry; [done..|].
  intros [a|e| |] Hr; try done; cbn [map_err]; [apply Hok|]. apply wp_bind, wp_pub_release; [done..|]. apply Herr.
Qed.
Lemma wp_pub_Close {A} ns (p : M A) (P : res A → view → Prop) v :
  wp pub p P v → wp pub (with_defer (NetNS_Close ns) p) P v.
Proof.
  intros Hp. unfold with_defer. apply wp_bind. eapply wp_mono; [exact Hp|]. intros r v' HP. apply wp_bind.
  eapply wp_no_entry; [apply NetNS_Close_no_entry|by apply kern_only_ends|done].
Qed.
Lemma wp_pub_port_moved {A} o c portKind (k : M A) (P : res A → view → Prop) :
  wp pub k P (Owns i y o c) → (∀ e, P (Err e) Blind) →
  wp pub (with_port_moved s opts i portKind (TryRelease (sx_numSlots s) i ip) k) P (Owns i y o c).
Proof.
  intros Hk Herr. unfold with_port_moved. destruct (_ && _); [|done]. cbv zeta.
  apply wp_mbind, wp_pub_or_rollback; [auto with obeys|auto with kern_ret| |done]. intros portNs.
  apply wp_pub_Close, wp_mbind, wp_pub_or_rollback; [auto with obeys|auto with kern_ret| |done]. intros toNs.
  apply wp_pub_Close, wp_mbind, wp_pub_or_rollback; [auto with obeys|auto with kern_ret| |done]. by intros [].
Qed.
Lemma wp_pub_writeGeneveOpts o c wrap (P : res unit → view → Prop) :
  P (Ok tt) (Owns i y (Some value) c) → (∀ e, P (Err e) Blind) →
  wp pub (or_rollback (TryRelease (sx_numSlots s) i ip) wrap (writeGeneveOpts i value)) P (Owns i y o c).
Proof.
  intros Hok Herr. unfold or_rollback, on_err, writeGeneveOpts. apply wp_bind, wp_mwrap, wp_mwrap.
  apply wp_call; [by split|..].
  - intros [] v ->. exact Hok.
  - intros e v ->. cbn [map_err]. apply wp_bind, wp_pub_release; [done..|]. apply Herr.
Qed.

Lemma wp_pub_publish c portKind (Q : res AttachOutput → view → Prop) :
  length (sc_SwitchMac (sx_cfg s)) = 6%nat →
  (∀ ready mac c', (is_ready (published_slot opts value ready y) = true → co_fresh c' = true) →
     Q (Ok (attach_output s opts i portKind total mac)) (Owns i (published_slot opts value ready y) (Some value) c')) →
  wp pub (attach_publish s opts i ip portKind value total) Q (Owns i y (Some value) c).
Proof.
  intros Hm HQ. unfold attach_publish. cbv zeta. apply wp_bind. unfold GetInnerIP. rewrite ptr_lt by lia.
  split; [done|]. intros cur v [-> Hcur]. cbn [wp]. rewrite (Hcur eq_refl), Hip, Z.eqb_refl. cbn [negb].
  apply wp_bind. unfold UpdateSlotFields. rewrite GetSlot_lt by lia. set (y1 := write_all [WGeneveOptsLen (gv_Len value); WGeneration (ao_Generation opts)] y).
  assert (Hd1 : is_up y1 = false) by (unfold y1; by destruct y).
  apply wp_pub_stores; [repeat apply Forall_cons_2; try apply Forall_nil_2; by split; intros []|done|]. fold y1.
  assert (Hun1 : is_ready y1 = false) by (unfold y1; by destruct y).
  assert (Hend : ∀ ready y2 c2, is_up y2 = false → (is_ready y2 = true → co_fresh c2 = true) →
    published_slot opts value ready y = (if ao_AdminDown opts then y2 else write_slot (WFlags PortFUp) y2) →
    wp pub (let* _ := if negb (ao_AdminDown opts) then store_slot (sx_numSlots s) i (WFlags PortFUp) (mok tt) else mok tt in
            let* portMAC := mpure (GetPortMAC (sc_SwitchMac (sx_cfg s)) (sc_PortMac (sx_cfg s)) i) in
            mok (attach_output s opts i portKind total portMAC)) Q (Owns i y2 (Some value) c2)).
  { intros ready y2 c2 Hd2 Hc2 Heq. assert (is_Some (get_ok (GetPortMAC (sc_SwitchMac (sx_cfg s)) (sc_PortMac (sx_cfg s)) i))) as [mac Hmac]
      by by apply GetPortMAC_ok.
    assert (Hready : is_ready (published_slot opts value ready y) = true → co_fresh c2 = true).
    { intros Hr. apply Hc2. rewrite Heq in Hr. by destruct (ao_AdminDown opts), y2. }
    destruct (GetPortMAC _ _ i) as [a| | |]; try done. apply wp_mbind. specialize (HQ ready a c2 Hready).
    destruct (ao_AdminDown opts) eqn:Ead; cbn [negb]; [by rewrite Heq in HQ|].
    apply wp_pub_store_slot; [by intros []|done| |by rewrite Heq in HQ]. intros _. rewrite <-Heq. split; [by apply Hwhole|done]. }
  apply wp_bind, wp_pub_ResetStats; [done|..].
  - intros c' Hc'. apply wp_mbind. cbn [is_ok].
    apply wp_pub_store_slot; [by intros []|done| |].
    + intros Hu. exfalso. revert Hu. replace (is_up _) with false; [done|]. by destruct y1.
    + apply (Hend true); [by destruct y1|done|]. unfold published_slot. by destruct (ao_AdminDown opts).
  - intros e. apply wp_mbind. cbn [is_ok]. apply (Hend false); [done|by rewrite Hun1|]. unfold published_slot. by destruct (ao_AdminDown opts).
Qed.
End claimed.

Lemma wp_pub_attach_claimed y o c (Q : res AttachOutput → view → Prop) :
  length (sc_SwitchMac (sx_cfg s)) = 6%nat → is_up y = false → si_InnerIp y = ip → (∀ e, Q (Err e) Blind) →
  (∀ kind ready mac c', (is_ready (published_slot opts value ready (write_all (claim_writes opts) y)) = true → co_fresh c' = true) →
     Q (Ok (attach_output s opts i kind total mac))
     (Owns i (published_slot opts value ready (write_all (claim_writes opts) y)) (Some value) c')) →
  (ao_AdminDown opts = false → ∀ ready, whole i (published_slot opts value ready (write_all (claim_writes opts) y)) (Some value)) →
  wp pub (attach_claimed s opts value total ip i) Q (Owns i y o c).
Proof.
  intros Hm Hd Hip Herr HQ Hw. unfold attach_claimed. cbv zeta. apply wp_bind. unfold UpdateSlotFields. rewrite GetSlot_lt by lia.
  apply wp_pub_stores; [apply claim_writes_down|done|].
  assert (Hd1 : is_up (write_all (claim_writes opts) y) = false).
  { pose proof (claim_writes_down opts) as Hws. revert Hws Hd. clear. generalize y. induction (claim_writes opts) as [|w ws IH]; [done|].
    intros z [[_ Hw] ?]%Forall_cons_1 Hz. apply IH; auto. }
  pose proof (InnerIp_write_all (claim_writes opts) y) as Hip1. rewrite Hip in Hip1.
  assert (Hun1 : is_ready (write_all (claim_writes opts) y) = false).
  { unfold claim_writes. by destruct y, (bool_decide (6 ≤ length (ao_TransitMAC opts))%nat). }
  set (y1 := write_all (claim_writes opts) y) in *. apply wp_pub_read_slot.
  assert (Hrest : wp pub
    (let* _ := or_rollback (TryRelease (sx_numSlots s) i ip)
                 (λ e, errorw ("write GENEVE options for port " +:+ fmt_u (u32 (i + 1)) +:+ ": ") e "")
                 (writeGeneveOpts i value) in
     let* _ := if negb (total =? 0)
               then or_rollback (TryRelease (sx_numSlots s) i ip) id
                      (validateAttachMTU s i (SlotPortKind y1) total) else mok tt in
     with_port_moved s opts i (SlotPortKind y1) (TryRelease (sx_numSlots s) i ip)
       (attach_publish s opts i ip (SlotPortKind y1) value total)) Q (Owns i y1 o c)).
  { apply wp_mbind, (wp_pub_writeGeneveOpts y1 Hd1 Hip1); [|done]. apply wp_mbind.
    assert (Hpub : wp pub (with_port_moved s opts i (SlotPortKind y1) (TryRelease (sx_numSlots s) i ip)
       (attach_publish s opts i ip (SlotPortKind y1) value total)) Q (Owns i y1 (Some value) c)).
    { apply (wp_pub_port_moved y1 Hd1 Hip1); [|done].
      apply (wp_pub_publish y1 Hd1 Hip1 Hun1); [done..|]. intros ready mac c'. apply HQ. }
    destruct (negb (total =? 0)); [|done].
    apply (wp_pub_or_rollback y1 Hd1 Hip1); [auto with obeys|auto with kern_ret|by intros _|done]. }
  destruct (SlotPortKind y1 =? PortKindTap); [|done]. apply wp_pub_read_slot. destruct (si_Ifindex y1 =? 0); [|done].
  apply wp_bind, wp_pub_release; [done..|]. apply Herr.
Qed.
End attach.

Section claim.
Context (revoke : Prop) (whole : Z → SlotItem → option GeneveOptsValue → Prop) (t0 : tables).
Notation pub := (pub_sem revoke whole t0).

(** What a claim leaves: the slot as it was but for the owner. *)
Definition just_claimed (i ip : Z) (v : view) : Prop :=
  ∃ y o c, v = Owns i (write_slot (WStatsReady 0) (set_InnerIp ip y)) o c ∧ claimable t0 i y.
Lemma wp_pub_TryAllocate n i ip (Q : bool → view → Prop) :
  0 ≤ i → ip ≠ InnerIPFree → (∀ v, just_claimed i ip v → Q true v) → Q false Blind → wp pub (TryAllocate n i ip) Q Blind.
Proof.
  intros Hi Hip Ht Hf. unfold TryAllocate, getInnerIPPtr. destruct (n <=? i); [done|]. apply wp_bind. split; [done|].
  intros [] v Hv; cbn [sem_step pub_sem pub_step] in Hv; cbn [wp]; [|by subst]. destruct Hv as (y & o & g & -> & Hc). cbn [negb].
  apply wp_bind. split.
  - destruct Hc as (Hd & _). cbn [sem_ok pub_sem pub_ok owns]. replace (is_up (set_InnerIp ip y)) with false by (by destruct y).
    split_and!; [done|by intros []|]. intros Hu. exfalso. revert Hu. replace (is_up _) with false; [done|]. by destruct y.
  - intros [] v ->. apply Ht. by eexists y, o, _.
Qed.
Lemma wp_pub_FindFreeSlot n ip (Q : res Z → view → Prop) :
  ip ≠ InnerIPFree → (∀ i v, 0 ≤ i < n → just_claimed i ip v → Q (Ok i) v) → (∀ e, Q (Err e) Blind) →
  wp pub (FindFreeSlot n ip) Q Blind.
Proof.
  intros Hip Hok Herr. unfold FindFreeSlot.
  assert (∀ k i, 0 ≤ i → i + Z.of_nat k ≤ Z.max n 0 → wp pub (FindFreeSlot_loop k n i ip) Q Blind) as H.
  { induction k as [|k IH]; intros i Hi Hk; cbn [FindFreeSlot_loop]; [apply Herr|].
    apply wp_bind, wp_pub_TryAllocate; [done|done|intros v; apply Hok; lia|]. apply IH; lia. }
  apply H; lia.
Qed.
Lemma wp_pub_Attach s opts (Q : res AttachOutput → view → Prop) :
  length (sc_SwitchMac (sx_cfg s)) = 6%nat → sx_numSlots s ≤ MaxPorts → (∀ e, Q (Err e) Blind) →
  (∀ value total ip i y ready out c, attach_checks s opts = Ok (value, total, ip) → claimable t0 i y →
     0 ≤ i < sx_numSlots s → at_Port out = i + 1 → (is_ready (published_slot opts value ready (claimed_slot opts ip y)) = true → co_fresh c = true) →
     Q (Ok out) (Owns i (published_slot opts value ready (claimed_slot opts ip y)) (Some value) c)) →
  (∀ value total ip i y ready, attach_checks s opts = Ok (value, total, ip) → claimable t0 i y → ao_AdminDown opts = false →
     whole i (published_slot opts value ready (claimed_slot opts ip y)) (Some value)) →
  wp pub (Attach s opts) Q Blind.
Proof.
  intros Hm Hmax Herr HQ Hw. unfold Attach. apply wp_mbind. cbn [mpure wp]. pose proof (attach_checks_returns s opts) as Hr.
  destruct (attach_checks s opts) as [[[value total] ip]|e| |] eqn:Hc; [|apply Herr|done..].
  pose proof (attach_checks_ip _ _ _ _ _ Hc) as [_ Hst].
  assert (ip ≠ InnerIPFree) as Hne by (intros ->; by vm_compute in Hst).
  assert (Hclaimed : ∀ i v, 0 ≤ i < sx_numSlots s → just_claimed i ip v → wp pub (attach_claimed s opts value total ip i) Q v).
  { intros i v Hi (y & o & c & -> & Hcl). apply wp_pub_attach_claimed; [done..| | |done| |].
    - destruct Hcl as [Hd _]. by destruct y.
    - by rewrite InnerIp_write, InnerIp_set.
    - intros kind ready mac c' Hc'. apply (HQ value total ip i y ready); [done..| |done]. cbn [attach_output at_Port].
      apply u32_small. unfold is_u32, MaxPorts in *. lia.
    - intros Hup ready. by apply (Hw value total ip i y ready). }
  apply wp_mbind. unfold attach_claim. destruct (0 <? ao_Port opts).
  - destruct (sc_N_ports (sx_cfg s) <=? u32 (ao_Port opts - 1)); [apply Herr|]. cbv zeta.
    pose proof (u32_range (ao_Port opts - 1)) as [Hu _]. apply wp_bind. set (i := u32 (ao_Port opts - 1)) in *.
    destruct (Z.lt_ge_cases i (sx_numSlots s)) as [Hlt|Hge].
    + apply wp_pub_TryAllocate; [done..| |apply Herr]. intros v Hv. apply Hclaimed; [lia|done].
    + unfold TryAllocate, getInnerIPPtr. rewrite (proj2 (Z.leb_le _ _) Hge). apply Herr.
  - apply wp_pub_FindFreeSlot; [done|apply Hclaimed|intros e; apply Herr].
Qed.
End claim.

(** ** SetPortUp keeps to the monitor *)
Section port_up.
Context (revoke : Prop) (whole : Z → SlotItem → option GeneveOptsValue → Prop) (t0 : tables).
Notation pub := (pub_sem revoke whole t0).
Context (s : switchContext) (u : PortUpOptions) (i gen : Z).
Context (Hi : 0 ≤ i < sx_numSlots s) (Hport : u32 (po_Port u - 1) = i).

(** The slot of an attachment with this generation, on its device. *)
Definition ours (y : SlotItem) : Prop := free_at_start t0 i y ∧ si_Generation y = gen.
Definition ours_view (v : view) : Prop :=
  ∃ y o c, v = Owns i y o c ∧ ours y ∧ (is_ready y = true → co_fresh c = true).
Lemma ours_write w y : keeps_device w → si_Generation (write_slot w y) = si_Generation y → ours y → ours (write_slot w y).
Proof.
  intros Hdev Hg [(x & Hx & Hf & Hs) Hy]. split; [|by rewrite Hg]. exists x. split_and!; [done..|].
  destruct (Hdev y) as (?&?&?&?&?&?&?), Hs as (?&?&?&?&?&?&?). split_and!; congruence.
Qed.
Lemma ours_rename ip y : ours y → ours (set_InnerIp ip y).
Proof. intros [(x & Hx & Hf & Hs) Hy]. split; [|by destruct y]. exists x. split_and!; [done..|]. by destruct y. Qed.
Lemma port_up_writes_down value : Forall (λ w, keeps_down w ∧ ∀ y, si_Generation (write_slot w y) = si_Generation y) (port_up_writes u value).
Proof.
  unfold port_up_writes. apply Forall_app_2; [|destruct (bool_decide _)]; repeat apply Forall_cons_2; try apply Forall_nil_2.
  all: split; [split; by intros []|by intros []].
Qed.
Lemma ours_writes value y : ours y → ours (write_all (port_up_writes u value) y).
Proof.
  generalize (port_up_writes_down value) y. clear y. induction 1 as [|w ws [[Hdev _] Hg] _ IH]; intros y Hy; [done|].
  apply IH. by apply ours_write.
Qed.
Lemma writes_down value y : is_up y = false → is_up (write_all (port_up_writes u value) y) = false.
Proof.
  generalize (port_up_writes_down value) y. clear y. induction 1 as [|w ws [[_ Hw] _] _ IH]; intros y Hy; [done|]. apply IH. by apply Hw.
Qed.

Lemma wp_pub_GetInnerIP y o c (Q : Z → view → Prop) :
  Q (si_InnerIp y) (Owns i y o c) → wp pub (GetInnerIP (sx_numSlots s) i) Q (Owns i y o c).
Proof. intros HQ. unfold GetInnerIP. rewrite ptr_lt by lia. split; [done|]. intros ip v [-> Hip]. by rewrite (Hip eq_refl). Qed.

Context (Hwhole : ∀ ip value total y, port_up_checks s u = Ok (ip, (value, total)) → ours y → whole i (up_slot u value ip y) (Some value)).
Notation kept := (λ (r : res unit) (v : view), ours_view v).

Lemma port_up_writes_ready value y : is_ready (write_all (port_up_writes u value) y) = is_ready y.
Proof. unfold port_up_writes. by destruct y, (bool_decide (6 ≤ length (po_TransitMAC u))%nat). Qed.
Lemma wp_pub_commit y c ip value total : port_up_checks s u = Ok (ip, (value, total)) → ours y → is_up y = false →
  (is_ready y = true → co_fresh c = true) →
  wp pub (port_up_commit s u i (si_InnerIp y) ip value) kept (Owns i y (Some value) c).
Proof.
  intros Hc Hy Hd Hready. rewrite <-(port_up_writes_ready value) in Hready. unfold port_up_commit. cbv zeta. apply wp_bind. unfold UpdateSlotFields. rewrite GetSlot_lt by lia.
  pose proof (ours_writes value y Hy) as Hy1. pose proof (writes_down value y Hd) as Hd1.
  pose proof (InnerIp_write_all (port_up_writes u value) y) as Hip1.
  apply (wp_pub_stores revoke whole t0 i); [eapply Forall_impl; [apply port_up_writes_down|by intros w [? _]]|done|].
  assert (Hother : ours_view (Owns i (write_all (port_up_writes u value) y) (Some value) c)) by (by eexists _, _, _).
  assert (Hup : whole i (up_slot u value ip y) (Some value)) by (by eapply Hwhole). unfold up_slot in Hup.
  set (y1 := write_all (port_up_writes u value) y) in *. apply wp_bind. unfold TryUpdateInnerIP. rewrite <-Hip1.
  destruct (negb (IsSlotAllocated (si_InnerIp y1)) || _) eqn:Ea; [exact Hother|]. rewrite ptr_lt by lia.
  split; [by split_and!|]. intros b v [-> ->]. cbn [wp negb].
  assert (ip =? InnerIPFree = false) as ->.
  { apply orb_false_iff in Ea as [_ Ea%negb_false_iff]. unfold IsSlotAllocated, IsSlotFreeOrReserved in Ea.
    apply negb_true_iff, orb_false_iff in Ea. apply Ea. }
  apply wp_bind, wp_pub_GetInnerIP. rewrite InnerIp_set, Z.eqb_refl. cbn [negb].
  apply (wp_pub_store_slot revoke whole t0 s i Hi); [by intros []|by destruct y1|intros _; split; [done|]; intros Hr; apply Hready; by destruct y1|].
  eexists _, _, _. split_and!; [reflexivity| |intros Hr; apply Hready; by destruct y1].
  apply ours_write; [by intros []|by destruct y1|]. by apply ours_rename.
Qed.

Lemma wp_pub_SetPortUp y o c : ours y → (is_ready y = true → co_fresh c = true) → wp pub (SetPortUp s u) kept (Owns i y o c).
Proof.
  pose proof wp_pub_commit as Hcommit. intros Hy Hready. assert (Hstay : ours_view (Owns i y o c)) by (by exists y, o, c). unfold SetPortUp. cbv zeta.
  destruct (_ || _); [done|]. apply wp_mbind. cbn [mpure wp]. destruct (requireDeferredAttachmentABI s); try done.
  rewrite Hport. apply wp_bind, wp_pub_GetInnerIP. destruct (negb (IsSlotAllocated _)); [done|].
  apply (wp_pub_read_slot revoke whole t0 s i Hi). destruct (Z.land (si_Flags y) PortFUp =? 0) eqn:Ed; cbn [negb]; [|done].
  assert (Hd : is_up y = false) by (unfold is_up; change PortFUp with 1 in Ed; apply Z.eqb_eq in Ed; by rewrite Ed).
  apply wp_mbind. cbn [mpure wp]. destruct (port_up_checks s u) as [[ip [value total]]| | |] eqn:Hc; try done.
  assert (Hrest : wp pub
    (let~ seen := GetInnerIP (sx_numSlots s) i in
     if negb (seen =? si_InnerIp y) then merr (taken_over (po_Port u))
     else let* _ := writeGeneveOpts i value in
          let~ seen := GetInnerIP (sx_numSlots s) i in
          if negb (seen =? si_InnerIp y) then merr (taken_over (po_Port u))
          else port_up_commit s u i (si_InnerIp y) ip value) kept (Owns i y o c)).
  { apply wp_bind, wp_pub_GetInnerIP. rewrite Z.eqb_refl. cbn [negb]. apply wp_mbind. unfold writeGeneveOpts. apply wp_mwrap, wp_call; [by split|..].
    - intros [] v ->. cbn [map_err]. apply wp_bind, wp_pub_GetInnerIP. rewrite Z.eqb_refl. cbn [negb]. by eapply Hcommit.
    - intros e v ->. done. }
  apply wp_mbind. destruct (negb (total =? 0)); [|exact Hrest].
  apply (wp_pub_read_slot revoke whole t0 s i Hi). eapply wp_no_entry; [apply validateAttachMTU_no_entry|apply validateAttachMTU_kern_ret|].
  by intros [] ?.
Qed.
End port_up.

(** ** Detach keeps to the monitor *)
Section detach.
Context (revoke : Prop) (whole : Z → SlotItem → option GeneveOptsValue → Prop) (t0 : tables).
Notation pub := (pub_sem revoke whole t0).
Context (s : switchContext) (d : DetachOptions) (i gen : Z).
Context (Hi : 0 ≤ i < sx_numSlots s) (Hport : u32 (do_Port d - 1) = i) (Hrevoke : revoke).

(** A detachment that returns nil has given the port back; one that fails has
    left it alone. *)
Definition detached (r : res unit) (v : view) : Prop :=
  match r with Ok _ => v = Blind | _ => ours_view t0 i gen v end.
Lemma wp_pub_detach_release y o c (P : res unit → view → Prop) : P (Ok tt) Blind →
  wp pub (detach_release s d i (si_InnerIp y)) P (Owns i y o c).
Proof.
  intros HP. unfold detach_release. cbv zeta. apply wp_bind, wp_pub_GetInnerIP; [done|]. rewrite Z.eqb_refl. cbn [negb].
  unfold store_slot. rewrite GetSlot_lt by lia. cbn [deref]. apply wp_bind.
  assert (Hd : is_up (write_slot (WFlags 0) y) = false) by (by destruct y). split.
  { cbn [sem_ok pub_sem pub_ok owns]. split_and!; [done|by intros []|]. destruct (is_up y); [done|]. intros Hup. by rewrite Hup in Hd. }
  intros [] v ->. generalize (if is_up y then stale c else c). intros c'. cbn [wp].
  assert (Hip : si_InnerIp (write_slot (WFlags 0) y) = si_InnerIp y) by apply InnerIp_write.
  set (y1 := write_slot (WFlags 0) y) in *. apply wp_bind. unfold UpdateSlotFields. rewrite GetSlot_lt by lia.
  apply wp_pub_stores; [apply Forall_singleton; by split; intros []|done|]. cbn [write_all fold_left].
  apply wp_bind, (wp_pub_release revoke whole t0 s (si_InnerIp y) i Hi).
  - by destruct y1.
  - by rewrite InnerIp_write.
  - exact HP.
Qed.
Lemma wp_pub_detach_device {A} portKind (k : M A) (P : res A → view → Prop) v :
  wp pub k P v → (∀ e, P (Err e) v) → wp pub (detach_device s d i portKind k) P v.
Proof.
  intros Hk Herr. unfold detach_device. cbv zeta. destruct (_ && _); [|done].
  assert (Hcall : ∀ B (p : M B) f (q : B → M A), obeys no_entry p → kern_ret p → (∀ b, wp pub (q b) P v) →
    wp pub (let* x := mwrap f p in q x) P v).
  { intros B p f q Hp Hr Hq. apply wp_mbind, wp_mwrap. eapply wp_no_entry; [done..|]. intros [b|e| |] Hb; try done; [apply Hq|apply Herr]. }
  apply Hcall; [auto with obeys|auto with kern_ret|]. intros portNs. apply wp_pub_Close, wp_bind.
  eapply wp_no_entry; [apply GetLinkInNs_no_entry|apply GetLinkInNs_kern_ret|]. intros [l|e| |] Hl; try done.
  destruct (bool_decide _); [apply Herr|]. apply Hcall; [auto with obeys|auto with kern_ret|]. intros fromNs.
  apply wp_pub_Close, Hcall; [auto with obeys|auto with kern_ret|]. by intros [].
Qed.
Lemma wp_pub_Detach y o c : ours t0 i gen y → (is_ready y = true → co_fresh c = true) → wp pub (Detach s d) detached (Owns i y o c).
Proof.
  intros Hy Hready. assert (Hstay : ours_view t0 i gen (Owns i y o c)) by (by exists y, o, c). unfold Detach. cbv zeta.
  destruct (_ <=? 0); [exact Hstay|]. rewrite Hport. destruct (_ <=? i); [exact Hstay|]. apply wp_mbind. cbn [mpure wp].
  destruct (requireAttachmentABI s); try exact Hstay. apply wp_bind, wp_pub_GetInnerIP; [done|].
  destruct (IsSlotFreeOrReserved _); [exact Hstay|]. apply (wp_pub_read_slot revoke whole t0 s i Hi).
  apply wp_pub_detach_device; [by apply wp_pub_detach_release|]. intros e. exact Hstay.
Qed.
End detach.

(** ** Sessions *)
(** What the owner of an attachment may do with its port. *)
Inductive chore := UpPort (u : PortUpOptions) | DetachPort (d : DetachOptions).
Definition up_at (port : Z) (u : PortUpOptions) : PortUpOptions :=
  MkPortUpOptions port (po_InnerIP u) (po_TransitGatewayIP u) (po_TransitGeneveVNI u) (po_TransitGeneveOpts u) (po_TransitMAC u).
Definition detach_at (port : Z) (d : DetachOptions) : DetachOptions :=
  MkDetachOptions port (do_FromNetNS d) (do_SkipDevice d).
(** One after the other, until a detachment returns nil. *)
Fixpoint chores (s : switchContext) (port : Z) (cs : list chore) : prog bool :=
  match cs with
  | [] => Ret false
  | UpPort u :: cs => let~ _ := SetPortUp s (up_at port u) in chores s port cs
  | DetachPort d :: cs => let~ r := Detach s (detach_at port d) in if is_ok r then Ret true else chores s port cs
  end.
(** A tenant attaches, does its chores, and attaches again when it gave the
    port back or did not get one. *)
Definition session : Type := AttachOptions * list chore.
Fixpoint tenant (s : switchContext) (sessions : list session) : prog unit :=
  match sessions with
  | [] => Ret tt
  | (opts, cs) :: rest =>
      let~ r := Attach s opts in
      match r with
      | Ok out => let~ gone := chores s (at_Port out) cs in if gone then tenant s rest else Ret tt
      | _ => tenant s rest
      end
  end.
Definition detaches (c : chore) : Prop := match c with DetachPort _ => True | UpPort _ => False end.
Definition some_detach (tenants : list (list session)) : Prop :=
  ∃ ss opts cs c, ss ∈ tenants ∧ (opts, cs) ∈ ss ∧ c ∈ cs ∧ detaches c.

(** The slot and the options one of the tenants asked for: with an attachment,
    or with a later set-port-up of the same attachment. *)
Definition requested (s : switchContext) (tenants : list (list session)) (slots : list SlotItem)
    (i : Z) (y : SlotItem) (o : option GeneveOptsValue) : Prop :=
  ∃ ss opts cs x value total ip, ss ∈ tenants ∧ (opts, cs) ∈ ss ∧ slot_at slots i = Some x ∧ si_InnerIp x = InnerIPFree ∧ o = Some value ∧
    ((attach_checks s opts = Ok (value, total, ip) ∧ attached opts value ip x y) ∨
     (∃ u z, UpPort u ∈ cs ∧ port_up_checks s u = Ok (ip, (value, total)) ∧
        same_device x z ∧ si_Generation z = ao_Generation opts ∧ published u value ip z y)).

Lemma attached_device opts value ip x x' y : same_device x x' → attached opts value ip x' y → attached opts value ip x y.
Proof.
  intros (?&?&?&?&?&?&?) [? ? ? ? ? ? ? ? (?&?&?&?&?&?&?)]. constructor; try done. split_and!; congruence.
Qed.
Lemma published_port port u value ip z y : published (up_at port u) value ip z y → published u value ip z y.
Proof. by intros []. Qed.

Section tenants.
Context (s : switchContext) (tenants : list (list session)) (slots : list SlotItem) (m : maps_state) (Hctx : ctx_ok s slots).
Notation pub := (pub_sem (some_detach tenants) (requested s tenants slots) (slots, m)).

Lemma u32_port i : 0 ≤ i < sx_numSlots s → u32 (i + 1 - 1) = i.
Proof.
  pose proof (ctx_num _ _ Hctx) as Hnum. pose proof (ctx_max _ _ Hctx) as Hmax. intros Hi. replace (i + 1 - 1) with i by lia.
  apply u32_small. unfold is_u32, MaxPorts in *. lia.
Qed.
Lemma wp_pub_chores ss opts cs i port todo z o c :
  ss ∈ tenants → (opts, cs) ∈ ss → 0 ≤ i < sx_numSlots s → port = i + 1 → (∀ c, c ∈ todo → c ∈ cs) →
  ours (slots, m) i (ao_Generation opts) z → (is_ready z = true → co_fresh c = true) →
  wp pub (chores s port todo) (λ gone v, gone = true → v = Blind) (Owns i z o c).
Proof.
  intros Hss Hin Hi -> Hsub. revert z o c. induction todo as [|[u|d] todo IH]; intros z o c Hz Hr; [done|..]; cbn [chores]; apply wp_bind.
  - assert (Hsub' : ∀ c, c ∈ todo → c ∈ cs) by (intros c' Hc'; apply Hsub; by right).
    eapply wp_mono; [apply (wp_pub_SetPortUp _ _ _ s (up_at (i + 1) u) i (ao_Generation opts) Hi (u32_port i Hi)); [|exact Hz|exact Hr]|].
    + intros ip value total z' Hc [(x & Hx & Hf & Hs) Hg]. change (port_up_checks s (up_at (i + 1) u)) with (port_up_checks s u) in Hc.
      exists ss, opts, cs, x, value, total, ip. split_and!; try done. right. exists u, z'. split_and!; try done; [apply Hsub; by left|].
      eapply published_port, up_slot_published.
    + intros _ v (z' & o' & c' & -> & Hz' & Hr'). by apply IH.
  - assert (Hsub' : ∀ c, c ∈ todo → c ∈ cs) by (intros c' Hc'; apply Hsub; by right).
    eapply wp_mono; [apply (wp_pub_Detach _ _ _ s (detach_at (i + 1) d) i (ao_Generation opts) Hi (u32_port i Hi)); [|exact Hz|exact Hr]|].
    + exists ss, opts, cs, (DetachPort d). split_and!; try done. apply Hsub. by left.
    + intros [[]| | |] v Hv; cbn [is_ok wp]; [done|..]; destruct Hv as (z' & o' & c' & -> & Hz' & Hr'); by apply IH.
Qed.
Lemma wp_pub_tenant ss0 ss : ss0 ∈ tenants → (∀ q, q ∈ ss → q ∈ ss0) → wp pub (tenant s ss) (λ _ _, True) Blind.
Proof.
  intros Hss. pose proof (ctx_num _ _ Hctx) as Hnum. pose proof (ctx_max _ _ Hctx) as Hmax.
  induction ss as [|[opts cs] ss IH]; intros Hsub; [done|]. cbn [tenant].
  assert (Hin : (opts, cs) ∈ ss0) by (apply Hsub; by left). assert (Hrest : ∀ q, q ∈ ss → q ∈ ss0) by (intros q Hq; apply Hsub; by right).
  apply wp_bind, wp_pub_Attach; [exact (ctx_mac _ _ Hctx)|lia|intros e; by apply IH|..].
  - intros value total ip i y ready out c Hc (Hd & _ & Hfs) Hi Hout Hr. apply wp_bind.
    assert (Hours : ours (slots, m) i (ao_Generation opts) (published_slot opts value ready (claimed_slot opts ip y))).
    { pose proof (claimed_published opts value ip y ready) as Hatt. split; [|exact (att_gen _ _ _ _ _ Hatt)].
      destruct Hfs as (x & Hx & Hf & Hs). exists x. split_and!; [done..|]. exact (att_device _ _ _ _ _ (attached_device _ _ _ _ _ _ Hs Hatt)). }
    eapply wp_mono; [by eapply (wp_pub_chores ss0 opts cs i)|]. intros [] v Hv; [|done]. rewrite Hv by done. by apply IH.
  - intros value total ip i y ready Hc (_ & _ & x & Hx & Hxf & Hs) _. exists ss0, opts, cs, x, value, total, ip. split_and!; try done.
    left. split; [done|]. eapply attached_device; [exact Hs|]. apply claimed_published.
Qed.
End tenants.

(** ** A generation read before the gate

    [tc_ingress_mx] compares the slot's generation with the one the address
    names before it loads the publication bit, and not again behind it. *)
Definition mx_target (cfg : SwitchConfig) (i gen : Z) : prog (option (Z * Z)) :=
  let~ slot := trigger (ELoadSlot i) in
  if negb (si_Generation slot =? gen) then Ret None
  else
    let~ ip := trigger (ELoadIP i) in
    if is_slot_free ip then Ret None
    else
      let~ slot := trigger (ELoadSlot i) in
      if si_Ifindex slot =? 0 then Ret None
      else
        let~ slot := trigger (ELoadSlot i) in
        if slot_publication_token slot cfg <=? 0 then Ret None
        else
          let~ inner_ip := trigger (ELoadIP i) in
          let~ slot := trigger (ELoadSlot i) in
          Ret (Some (inner_ip, si_Ifindex slot)).
Definition ex_free_port : SlotItem :=
  MkSlotItem 12 InnerIPFree 4 167772161 0 0 mac_zero 0 0 0 MgmtCidr_zero 5 0 [MgmtCidr_zero; MgmtCidr_zero] 0.
Definition ex_gen_cfg : SwitchConfig :=
  MkSwitchConfig [2; 0; 94; 10; 18; 52] 4 1681915904 50000 0 0 mac_zero 4 (Z.lor SwitchFPortUp SwitchFDeferredUp) 0 0 0.
Definition ex_gen_switch : switchContext := MkContext "sw0" (sx_maps ex_switch) ex_gen_cfg SwitchMetadata_zero 4 4.
Definition ex_gen_attach : AttachOptions := MkAttachOptions 1 6 "" (IPv4 10 0 0 7) (IPv4 10 0 0 1) 77 [] [] false true.
(** Port 1 was last attached with generation 5 and is free.  A packet to its
    floating address of generation 5 loads the generation; then the port is
    attached with generation 6; then the packet goes on, and is delivered. *)
Definition ex_stale : list (prog (res AttachOutput + option (Z * Z))) * world maps_state :=
  pool_run ([1%nat] ++ replicate 40 0%nat ++ replicate 10 1%nat)
    [(let~ r := Attach ex_gen_switch ex_gen_attach in Ret (inl r)); (let~ r := mx_target ex_gen_cfg 0 5 in Ret (inr r))]
    (MkWorld (ex_free_port :: ex_table) maps_empty).
Lemma mx_stale_generation :
  (∃ out, ex_stale.1 = [Ret (inl (Ok out)); Ret (inr (Some (167772167, 12)))]) ∧
  si_Generation <$> slot_at (w_slots ex_stale.2) 0 = Some 6.
Proof. split; [by eexists; vm_compute|by vm_compute]. Qed.
