(* ===== verification/Traffic.v ===== *)
(** * Packets beside attachments and detachments

    Any number of tenants of one switch, each in sessions of attaching, setting
    up and detaching a port, interleave with any number of packets, one access
    to the slot table, the options or the counters at a time.  A packet captures
    the generation of the counters (stats.h), loads the owner and the publication
    bit, then whatever fields it needs, and in the end counts, which the spin lock
    of the counters makes one event. *)
From S2P Require Import Prelude Errors GoStrings GoNet BpfTypes Mac Geneve Prog SlotTable Interleave.
From S2P Require Import Netns Netlink Config Metadata Loader Context Flock Attach AttachSpec PortSpec Maps Packet Skb Datapath Publication PublicationSpec.

(** ** Packets: switch_kern.c, stats.h *)
(** One load behind the gate: some field of the slot, or of its options. *)
Inductive field := FSlot (f : SlotItem → Z) | FOpts (f : GeneveOptsValue → Z).
Definition field_of (x : SlotItem) (o : option GeneveOptsValue) (f : field) : option Z :=
  match f with FSlot f => Some (f x) | FOpts f => f <$> o end.
Inductive count_kind := MgmtTx | MgmtRx | TransitTx | TransitRx.
Definition update_kind (k : count_kind) : Z → Z → Z → tc unit :=
  match k with
  | MgmtTx => update_stats_mgmt_tx | MgmtRx => update_stats_mgmt_rx
  | TransitTx => update_stats_transit_tx | TransitRx => update_stats_transit_rx
  end.
Definition count (k : count_kind) : Z → SlotStats → SlotStats :=
  match k with
  | MgmtTx => count_mgmt_tx | MgmtRx => count_mgmt_rx
  | TransitTx => count_transit_tx | TransitRx => count_transit_rx
  end.
(** What a packet does with its slot: the loads behind the gate in their order,
    and the counters it adds its length to. *)
Record packet := MkPacket { pk_slot : Z; pk_fields : list field; pk_count : option (count_kind * Z) }.
Inductive stage :=
  | Arrived
  | Captured (g : Z)                                   (* the generation of the counters *)
  | Claimed (g : Z)                                    (* the slot has an owner *)
  | Passed (g : Z) (vals : list Z)                     (* the port is up; loaded so far *)
  | Finished (g : Z) (vals : list Z) (counted : bool)
  | Dropped.

(** A function of stats.h on the counters map. *)
Definition with_stats (m : maps_state) (st : gmap Z SlotStats) : maps_state :=
  let '(MkMaps c d _ i o f r) := m in MkMaps c d st i o f r.
Definition on_stats {A} (p : tc A) (t : tables) : (verdict + A) * tables :=
  let '(r, s) := p (MkTc (MkSkb [] 0 0) (m_stats (snd t))) in (r, (fst t, with_stats (snd t) (tc_stats s))).
Definition counts (t : tables) (i g : Z) : bool := negb (g =? 0) && (gen_of (stats_at t i) =? g).

Definition packet_step (cfg : SwitchConfig) (pk : packet) (st : stage) (t : tables) : stage * tables :=
  let i := pk_slot pk in
  match st with
  | Arrived => match (on_stats (stats_generation i) t).1 with inr g => (Captured g, t) | inl _ => (Dropped, t) end
  | Captured g =>
      match slot_at (fst t) i with
      | Some x => (if is_slot_free (si_InnerIp x) then Dropped else Claimed g, t)
      | None => (Dropped, t)
      end
  | Claimed g =>
      match slot_at (fst t) i with
      | Some x => (if slot_publication_token x cfg <=? 0 then Dropped else Passed g [], t)
      | None => (Dropped, t)
      end
  | Passed g vals =>
      match pk_fields pk !! length vals, slot_at (fst t) i with
      | Some f, Some x => (match field_of x (opts_at t i) f with Some v => Passed g (vals ++ [v]) | None => Dropped end, t)
      | Some _, None => (Dropped, t)
      | None, _ =>
          match pk_count pk with
          | Some (k, len) => (Finished g vals (counts t i g), (on_stats (update_kind k i g len) t).2)
          | None => (Finished g vals false, t)
          end
      end
  | st => (st, t)
  end.

(** ** Interleavings *)
Section traffic.
Context (cfg : SwitchConfig).
Definition config : Type := list (prog unit) * list (packet * stage) * tables.
Inductive traffic_step : config → config → Prop :=
  | control_step ps ks t ps' t' : tpool_step (ps, t) (ps', t') → traffic_step (ps, ks, t) (ps', ks, t')
  | data_step ps ks t q pk st st' t' :
      ks !! q = Some (pk, st) → packet_step cfg pk st t = (st', t') → traffic_step (ps, ks, t) (ps, <[q := (pk, st')]> ks, t').

(** A step that does not take slot [i] down. *)
Definition up_at_slot (t : tables) (i : Z) : bool := match slot_at (fst t) i with Some y => is_up y | None => false end.
Definition calm (i : Z) (c c' : config) : Prop := traffic_step c c' ∧ (up_at_slot (snd c) i → up_at_slot (snd c') i).

(** Runs by a schedule: [inl p] lets a tenant do one event, [inr q] a packet. *)
Definition run_one (a : nat + nat) (c : config) : config :=
  let '(ps, ks, t) := c in
  match a with
  | inl p =>
      match ps !! p ≫= λ k, prog_step k (MkWorld (fst t) (snd t)) with
      | Some (k, w) => (<[p := k]> ps, ks, (w_slots w, w_kern w))
      | None => c
      end
  | inr q =>
      match ks !! q with
      | Some (pk, st) => let '(st', t') := packet_step cfg pk st t in (ps, <[q := (pk, st')]> ks, t')
      | None => c
      end
  end.
Definition traffic_run (sched : list (nat + nat)) (c : config) : config := fold_left (λ c a, run_one a c) sched c.
Fixpoint calm_run (i : Z) (sched : list (nat + nat)) (c : config) : bool :=
  match sched with
  | [] => true
  | a :: sched => implb (up_at_slot (snd c) i) (up_at_slot (snd (run_one a c)) i) && calm_run i sched (run_one a c)
  end.
Lemma run_one_sound a c : run_one a c = c ∨ traffic_step c (run_one a c).
Proof.
  destruct c as [[ps ks] [s m]], a as [p|q]; cbn [run_one].
  - destruct (ps !! p) as [k|] eqn:Hp; simpl; [|by left].
    destruct (prog_step k _) as [[k' w']|] eqn:Hs; [|by left]. right. apply control_step. by eapply (prog_step_sound _ _ _ _ (MkWorld s m)).
  - destruct (ks !! q) as [[pk st]|] eqn:Hq; [|by left]. destruct (packet_step _ _ _ _) as [st' t'] eqn:Hs. right. by eapply data_step.
Qed.
Lemma traffic_run_sound sched c : rtc traffic_step c (traffic_run sched c).
Proof.
  revert c. induction sched as [|a sched IH]; intros c; [apply rtc_refl|]. change (traffic_run (a :: sched) c) with (traffic_run sched (run_one a c)).
  destruct (run_one_sound a c) as [E|Hs]; [rewrite E; apply IH|by eapply rtc_l].
Qed.
Lemma calm_run_sound i sched c : calm_run i sched c = true → rtc (calm i) c (traffic_run sched c).
Proof.
  revert c. induction sched as [|a sched IH]; intros c; [by intros _|]. cbn [calm_run]. intros [Hup Hrest]%andb_true_iff.
  change (traffic_run (a :: sched) c) with (traffic_run sched (run_one a c)).
  destruct (run_one_sound a c) as [E|Hs]; [by rewrite E in Hrest |- *; apply IH|]. eapply rtc_l; [|by apply IH].
  split; [done|]. destruct (up_at_slot _ _); [|done]. simpl in Hup. by rewrite Hup.
Qed.

(** ** What a packet changes *)
Lemma stats_gen_run i t : (on_stats (stats_generation i) t).1 = inr (gen_of (stats_at t i)).
Proof. done. Qed.
Lemma on_count k i g len t : (on_stats (update_kind k i g len) t).2 =
  if counts t i g then (fst t, with_stats (snd t) (<[i := match stats_at t i with Some x => count k len x | None => no_counts 0 end]> (m_stats (snd t)))) else t.
Proof.
  destruct t as [s [c d st ifx o f r]]. unfold on_stats, counts, stats_at. cbn [fst snd].
  assert (Hrun : update_kind k i g len (MkTc (MkSkb [] 0 0) st) = update_stats (count k len) i g (MkTc (MkSkb [] 0 0) st)) by (by destruct k).
  cbn [m_stats]. rewrite Hrun. unfold update_stats. cbn [tc_stats].
  destruct (st !! i) as [x|] eqn:E; cbn [gen_of].
  - by destruct (negb (g =? 0) && (st_Generation x =? g)).
  - destruct (Z.eqb_spec g 0) as [->|Hg]; [done|]. cbn [negb andb]. rewrite (proj2 (Z.eqb_neq 0 g)) by congruence. done.
Qed.
Lemma count_gen k len x : st_Generation (count k len x) = st_Generation x.
Proof. by destruct k, x. Qed.
Lemma count_comm k len k' len' x : count k len (count k' len' x) = count k' len' (count k len x).
Proof.
  assert (H : ∀ a b c, u64 (u64 (a + b) + c) = u64 (u64 (a + c) + b)).
  { intros a b c. unfold u64. rewrite !Zplus_mod_idemp_l. f_equal. lia. }
  destruct k, k', x; cbn [count count_mgmt_tx count_mgmt_rx count_transit_tx count_transit_rx]; f_equal; apply H.
Qed.
Lemma with_stats_at m st : m_stats (with_stats m st) = st ∧ m_opts (with_stats m st) = m_opts m.
Proof. by destruct m. Qed.

(** A packet keeps the slots, the options and the generations. *)
Lemma packet_step_keeps pk st t st' t' : packet_step cfg pk st t = (st', t') →
  fst t' = fst t ∧ m_opts (snd t') = m_opts (snd t) ∧ ∀ i, gen_of (stats_at t' i) = gen_of (stats_at t i).
Proof.
  assert (Hid : fst t = fst t ∧ m_opts (snd t) = m_opts (snd t) ∧ ∀ i, gen_of (stats_at t i) = gen_of (stats_at t i)) by done.
  unfold packet_step. intros Hs. destruct st as [|g|g|g vals|g vals b|]; try (injection Hs as <- <-; exact Hid).
  - destruct (slot_at _ _); injection Hs as <- <-; exact Hid.
  - destruct (slot_at _ _); injection Hs as <- <-; exact Hid.
  - destruct (_ !! length vals) as [f|]; [destruct (slot_at _ _); injection Hs as <- <-; exact Hid|].
    destruct (pk_count pk) as [[k len]|]; [|injection Hs as <- <-; exact Hid]. rewrite on_count in Hs. injection Hs as <- <-.
    destruct (counts _ _ _) eqn:Ec; [|exact Hid]. destruct t as [s m]. cbn [fst snd] in *.
    set (st := <[_ := _]> _). destruct (with_stats_at m st) as [E1 E2]. split_and!; [done|done|]. intros i. unfold stats_at. cbn [snd]. rewrite E1. unfold st.
    destruct (decide (i = pk_slot pk)) as [->|Hne]; [|by rewrite lookup_insert_ne by done].
    rewrite lookup_insert_eq. unfold counts, stats_at in *. cbn [snd] in *. destruct (m_stats m !! pk_slot pk) as [x|]; [cbn [gen_of]; apply count_gen|].
    cbn [gen_of] in Ec. apply andb_true_iff in Ec as [E3%negb_true_iff%Z.eqb_neq E4%Z.eqb_eq]. lia.
Qed.

(** ** What a packet has seen *)
Definition captured (st : stage) : option Z :=
  match st with Captured g | Claimed g | Passed g _ | Finished g _ _ => Some g | _ => None end.
Definition seen (st : stage) : option (list Z) :=
  match st with Passed _ vals | Finished _ vals _ => Some vals | _ => None end.
(** Everything loaded so far is what the tables hold, and the port is up. *)
Definition sees (t : tables) (pk : packet) (st : stage) : Prop :=
  ∀ vals, seen st = Some vals → ∃ y, slot_at (fst t) (pk_slot pk) = Some y ∧ is_up y = true ∧
    mapM (field_of y (opts_at t (pk_slot pk))) (take (length vals) (pk_fields pk)) = Some vals.
Definition stage_ok (pk : packet) (st : stage) : Prop :=
  match st with Finished _ vals _ => (length (pk_fields pk) ≤ length vals)%nat | _ => True end.

Lemma sees_same t t' pk st : slot_at (fst t') (pk_slot pk) = slot_at (fst t) (pk_slot pk) → opts_at t' (pk_slot pk) = opts_at t (pk_slot pk) →
  sees t pk st → sees t' pk st.
Proof. intros E1 E2 Hs vals Hv. destruct (Hs vals Hv) as (y & Hy & Hr). exists y. by rewrite E1, E2. Qed.
Lemma sees_finished t pk g vals b : sees t pk (Finished g vals b) → stage_ok pk (Finished g vals b) →
  ∃ y, slot_at (fst t) (pk_slot pk) = Some y ∧ is_up y = true ∧ mapM (field_of y (opts_at t (pk_slot pk))) (pk_fields pk) = Some vals.
Proof. intros Hs Hok. destruct (Hs vals eq_refl) as (y & Hy & Hup & Hm). exists y. by rewrite take_ge in Hm. Qed.

Context (Hfeat : Z.land (sc_Features cfg) SwitchFPortUp ≠ 0).
Lemma token_up y : (slot_publication_token y cfg <=? 0) = negb (is_up y).
Proof.
  unfold slot_publication_token, is_up. rewrite (proj2 (Z.eqb_neq _ _) Hfeat).
  destruct (Z.leb_spec (Z.land (si_Flags y) 1) 0), (Z.ltb_spec 0 (Z.land (si_Flags y) 1)); try done; lia.
Qed.
Lemma packet_step_ok pk st t st' t' : packet_step cfg pk st t = (st', t') → stage_ok pk st → stage_ok pk st'.
Proof.
  unfold packet_step. intros Hs Hok. destruct st as [|g|g|g vals|g vals b|]; try (by injection Hs as <- <-).
  1,2: destruct (slot_at _ _) as [y|]; injection Hs as <- <-; [by case_match|done].
  destruct (pk_fields pk !! length vals) as [f|] eqn:Hf.
  - destruct (slot_at _ _) as [y|]; injection Hs as <- <-; [by case_match|done].
  - apply lookup_ge_None in Hf. destruct (pk_count pk) as [[k len]|]; by injection Hs as <- <-.
Qed.
Lemma packet_step_seen pk st t st' t' : packet_step cfg pk st t = (st', t') → sees t pk st → sees t pk st'.
Proof.
  unfold packet_step. intros Hs Hsees. destruct st as [|g|g|g vals|g vals b|]; try (by injection Hs as <- <-).
  - destruct (slot_at _ _) as [y|]; injection Hs as <- <-; [by case_match|done].
  - destruct (slot_at _ _) as [y|] eqn:Hy; injection Hs as <- <-; [|done]. rewrite token_up.
    destruct (is_up y) eqn:Hup; [|done]. intros vals [= <-]. by exists y.
  - destruct (Hsees vals eq_refl) as (y & Hy & Hup & Hm). rewrite Hy in Hs.
    destruct (pk_fields pk !! length vals) as [f|] eqn:Hf.
    + injection Hs as <- <-. destruct (field_of y _ f) as [v|] eqn:Hv; [|done].
      intros vals' [= <-]. exists y. split_and!; [done..|]. rewrite length_app. simpl. rewrite Nat.add_1_r, (take_S_r _ _ f) by done.
      apply mapM_Some, Forall2_app; [by apply mapM_Some|by repeat constructor].
    + destruct (pk_count pk) as [[k len]|]; by injection Hs as <- <-.
Qed.
(** The generation is captured once, before the gate. *)
Lemma packet_step_captured pk st t st' t' g : packet_step cfg pk st t = (st', t') → captured st' = Some g →
  captured st = Some g ∨ (g = gen_of (stats_at t (pk_slot pk)) ∧ seen st' = None).
Proof.
  unfold packet_step. intros Hs Hg. destruct st as [|h|h|h vals|h vals b|]; try (injection Hs as <- <-; by left).
  - injection Hs as <- <-. right. by injection Hg.
  - destruct (slot_at _ _) as [y|]; injection Hs as <- <-; [|done]. destruct (is_slot_free _); [done|by left].
  - destruct (slot_at _ _) as [y|]; injection Hs as <- <-; [|done]. destruct (_ <=? 0); [done|by left].
  - destruct (_ !! length vals) as [f|].
    + destruct (slot_at _ _); injection Hs as <- <-; [|done]. destruct (field_of _ _ _); [by left|done].
    + destruct (pk_count pk) as [[k len]|]; injection Hs as <- <-; by left.
Qed.

End traffic.

Section invariant.
Context (cfg : SwitchConfig) (Hfeat : Z.land (sc_Features cfg) SwitchFPortUp ≠ 0).
Context (revoke : Prop) (whole : Z → SlotItem → option GeneveOptsValue → Prop) (t0 : tables) (Hdown : free_down (fst t0)).
Notation inv := (pub_inv (A:=unit) revoke whole t0 (λ _ _ _, True)).

Lemma data_inv ps vs t pk st st' t' : inv ps vs t → packet_step cfg pk st t = (st', t') → inv ps vs t'.
Proof.
  intros HI Hs. destruct (packet_step_keeps cfg pk st t st' t' Hs) as (E1 & E2 & E3). destruct t' as [s' m']. cbn [fst snd] in *. subst s'.
  by eapply inv_counted.
Qed.
Lemma inv_step c c' vs : traffic_step cfg c c' → inv c.1.1 vs c.2 → ∃ vs', inv c'.1.1 vs' c'.2.
Proof.
  intros [ps ks t ps' t' Hs|ps ks t q pk st st' t' Hq Hs] HI; cbn [fst snd] in *.
  - destruct (pub_inv_step revoke whole t0 Hdown _ _ _ _ _ _ HI Hs) as (vs' & HI' & _). by exists vs'.
  - exists vs. by eapply data_inv.
Qed.
Lemma inv_reach c c' : rtc (traffic_step cfg) c c' → (∃ vs, inv c.1.1 vs c.2) → ∃ vs, inv c'.1.1 vs c'.2.
Proof. induction 1 as [|c c1 c' Hs _ IH]; [done|]. intros [vs HI]. by eapply IH, inv_step. Qed.

(** Where nobody may take a port down, every run is calm. *)
Lemma calm_steps i c c' : ¬ revoke → (∃ vs, inv c.1.1 vs c.2) → rtc (traffic_step cfg) c c' → rtc (calm cfg i) c c'.
Proof.
  intros Hno HI Hsteps. induction Hsteps as [|c c1 c' Hs _ IH]; [done|]. destruct HI as [vs HI].
  eapply rtc_l; [|apply IH; by eapply inv_step]. split; [done|]. unfold up_at_slot.
  destruct (slot_at (snd c).1 i) as [y|] eqn:Hy; [|done]. intros Hup%Is_true_true_1.
  destruct Hs as [ps ks t ps' t' Hs|ps ks t q pk st st' t' Hq Hs]; cbn [fst snd] in *.
  - destruct (pub_inv_step revoke whole t0 Hdown _ _ _ _ _ _ HI Hs) as (vs' & _ & Hstep).
    destruct (ss_slot _ _ _ _ _ _ (Hstep i)) as [(E & _)|[Hd|[Hr _]]]; [|by rewrite (Hd y Hy) in Hup|done].
    by rewrite E, Hy, Hup.
  - destruct (packet_step_keeps cfg pk st t st' t' Hs) as (E & _). by rewrite E, Hy, Hup.
Qed.

(** A packet beside calm steps keeps seeing what the tables hold. *)
Lemma calm_sees i c c' q pk st st' : rtc (calm cfg i) c c' → (∃ vs, inv c.1.1 vs c.2) → i = pk_slot pk →
  c.1.2 !! q = Some (pk, st) → sees c.2 pk st → stage_ok pk st → c'.1.2 !! q = Some (pk, st') →
  sees c'.2 pk st' ∧ stage_ok pk st'.
Proof.
  intros Hsteps HI -> Hq Hsees Hok. revert st Hq Hsees Hok HI. induction Hsteps as [c|c c1 c' [Hs Hcalm] _ IH]; intros st Hq Hsees Hok [vs HI] Hq'.
  { rewrite Hq in Hq'. by injection Hq' as <-. }
  assert (∃ st1, c1.1.2 !! q = Some (pk, st1) ∧ sees c1.2 pk st1 ∧ stage_ok pk st1) as (st1 & Hq1 & Hsees1 & Hok1).
  2: { eapply (IH st1); try done. by eapply inv_step. }
  destruct Hs as [ps ks t ps' t' Hs|ps ks t r pk' s0 s1 t' Hr Hs]; cbn [fst snd] in *.
  - exists st. split_and!; [done| |done]. intros vals Hv. destruct (Hsees vals Hv) as (y & Hy & Hup & Hm).
    destruct (pub_inv_step revoke whole t0 Hdown _ _ _ _ _ _ HI Hs) as (vs' & _ & Hstep).
    destruct (ss_slot _ _ _ _ _ _ (Hstep (pk_slot pk))) as [(E1 & E2 & _)|[Hd|[_ Hd]]].
    + exists y. by rewrite E1, E2.
    + by rewrite (Hd y Hy) in Hup.
    + unfold up_at_slot in Hcalm. rewrite Hy, Hup in Hcalm. specialize (Hcalm I). destruct (slot_at (fst t') _) as [z|] eqn:Hz; [|done].
      by rewrite (Hd z Hz) in Hcalm.
  - destruct (packet_step_keeps cfg pk' s0 t s1 t' Hs) as (E1 & E2 & _).
    assert (Hsame : ∀ st, sees t pk st → sees t' pk st).
    { intros st2. apply sees_same; [by rewrite E1|]. unfold opts_at. by rewrite E2. }
    destruct (decide (r = q)) as [->|Hne].
    + rewrite Hq in Hr. injection Hr as <- <-. exists s1. split_and!; [|by eapply Hsame, packet_step_seen|by eapply packet_step_ok].
      apply list_lookup_insert_eq. by eapply lookup_lt_Some.
    + exists st. rewrite list_lookup_insert_ne by done. split_and!; [done|by apply Hsame|done].
Qed.

(** *** What is counted *)
Definition count_entry (i g : Z) (e : packet * stage) (x : SlotStats) : SlotStats :=
  match e with
  | (pk, Finished g' _ true) =>
      match pk_count pk with
      | Some (k, len) => if (pk_slot pk =? i) && (g' =? g) then count k len x else x
      | None => x
      end
  | _ => x
  end.
Definition tally (ks : list (packet * stage)) (i g : Z) : SlotStats := fold_right (count_entry i g) (no_counts g) ks.
Lemma count_entry_comm i g e e' x : count_entry i g e (count_entry i g e' x) = count_entry i g e' (count_entry i g e x).
Proof.
  destruct e as [pk [| | | |g1 v1 []|]], e' as [pk' [| | | |g2 v2 []|]]; cbn [count_entry]; try done.
  destruct (pk_count pk) as [[k len]|], (pk_count pk') as [[k' len']|]; try done.
  destruct (_ && _), (_ && _); try done. apply count_comm.
Qed.
Lemma tally_insert ks q pk st st' i g : ks !! q = Some (pk, st) → (∀ g vals b, st ≠ Finished g vals b) →
  tally (<[q := (pk, st')]> ks) i g = count_entry i g (pk, st') (tally ks i g).
Proof.
  intros Hq Hst. revert q Hq. induction ks as [|e ks IH]; intros [|q] Hq; [done..| |].
  - injection Hq as ->. change (count_entry i g (pk, st') (tally ks i g) = count_entry i g (pk, st') (count_entry i g (pk, st) (tally ks i g))).
    f_equal. destruct st as [| | | |g1 v1 b|]; try done. by destruct (Hst g1 v1 b).
  - change (count_entry i g e (tally (<[q := (pk, st')]> ks) i g) = count_entry i g (pk, st') (count_entry i g e (tally ks i g))).
    rewrite (IH q Hq). apply count_entry_comm.
Qed.
Lemma tally_none ks i g : (∀ q pk st g', ks !! q = Some (pk, st) → pk_slot pk = i → captured st = Some g' → g' ≠ g) → tally ks i g = no_counts g.
Proof.
  intros Hno. induction ks as [|[pk st] ks IH]; [done|]. simpl. rewrite IH by (intros q; apply (Hno (S q))).
  destruct st as [| | | |g1 v1 []|]; try done. cbn [count_entry]. destruct (pk_count pk) as [[k len]|]; [|done].
  destruct (Z.eqb_spec (pk_slot pk) i) as [Hi|]; [|done]. destruct (Z.eqb_spec g1 g) as [->|]; [|done].
  by destruct (Hno 0%nat pk (Finished g v1 true) g eq_refl Hi eq_refl).
Qed.

Record count_inv (vs : list view) (ks : list (packet * stage)) (t : tables) : Prop := {
  ci_gen : ∀ q pk st g, ks !! q = Some (pk, st) → captured st = Some g → g ≤ gen_of (stats_at t (pk_slot pk));
  ci_seen : ∀ q pk st g, ks !! q = Some (pk, st) → captured st = Some g → g = gen_of (stats_at t (pk_slot pk)) →
    fresh vs (pk_slot pk) → sees t pk st;
  ci_done : ∀ q pk st, ks !! q = Some (pk, st) → stage_ok pk st;
  ci_tally : ∀ i, fresh vs i → ∃ x, stats_at t i = Some x ∧ x = tally ks i (st_Generation x);
}.

Lemma count_inv_control vs vs' ks t t' : count_inv vs ks t → (∀ i, slot_step revoke vs vs' t t' i) → count_inv vs' ks t'.
Proof.
  intros [Hgen Hseen Hdone Htally] Hstep. split.
  - intros q pk st g Hq Hg. specialize (Hgen q pk st g Hq Hg).
    destruct (ss_stats _ _ _ _ _ _ (Hstep (pk_slot pk))) as [E|(g' & E & Hlt)]; rewrite E; [done|]. cbn [gen_of no_counts st_Generation]. lia.
  - intros q pk st g Hq Hg Heq Hf. destruct (ss_fresh _ _ _ _ _ _ (Hstep (pk_slot pk)) Hf) as [(g' & E & Hlt)|(Hf0 & E & Hs)].
    + specialize (Hgen q pk st g Hq Hg). rewrite E in Heq. cbn [gen_of no_counts st_Generation] in Heq. lia.
    + rewrite E in Heq. pose proof (Hseen q pk st g Hq Hg Heq Hf0) as Hsees. destruct Hs as [(E1 & E2 & _)|Hd]; [by eapply sees_same|].
      intros vals Hv. destruct (Hsees vals Hv) as (y & Hy & Hup & _). by rewrite (Hd y Hy) in Hup.
  - done.
  - intros i Hf. destruct (ss_fresh _ _ _ _ _ _ (Hstep i) Hf) as [(g & E & Hlt)|(Hf0 & E & _)]; [|rewrite E; by apply Htally].
    exists (no_counts g). split; [done|]. cbn [no_counts st_Generation]. symmetry. apply tally_none.
    intros q pk st g' Hq <- Hg ->. specialize (Hgen q pk st g Hq Hg). lia.
Qed.
Lemma tally_quiet ks q pk st st' i g : ks !! q = Some (pk, st) → (∀ g vals b, st ≠ Finished g vals b) →
  (∀ g vals, st' ≠ Finished g vals true) → tally (<[q := (pk, st')]> ks) i g = tally ks i g.
Proof.
  intros Hq Hst Hst'. rewrite (tally_insert _ _ _ st) by done. destruct st' as [| | | |g1 v1 []|]; try done. by destruct (Hst' g1 v1).
Qed.
Lemma tally_gen ks i g : st_Generation (tally ks i g) = g.
Proof.
  unfold tally. induction ks as [|[pk st] ks IH]; [done|]. simpl. destruct st as [| | | |g1 v1 []|]; try done. cbn [count_entry].
  destruct (pk_count pk) as [[k len]|]; [|done]. destruct (_ && _); [|done]. by rewrite count_gen.
Qed.
(** The counters after a packet's step are those of before and what it counted. *)
Lemma packet_step_counts ks q pk st t st' t' i x : ks !! q = Some (pk, st) → packet_step cfg pk st t = (st', t') →
  stats_at t i = Some x → x = tally ks i (st_Generation x) →
  ∃ x', stats_at t' i = Some x' ∧ x' = tally (<[q := (pk, st')]> ks) i (st_Generation x').
Proof.
  intros Hq Hs Hx Htally. assert (Hquiet : (∀ g vals b, st ≠ Finished g vals b) → (∀ g vals, st' ≠ Finished g vals true) → t' = t →
    ∃ x', stats_at t' i = Some x' ∧ x' = tally (<[q := (pk, st')]> ks) i (st_Generation x')).
  { intros H1 H2 ->. exists x. by rewrite (tally_quiet _ _ _ st). }
  unfold packet_step in Hs. destruct st as [|g|g|g vals|g vals b|].
  - injection Hs as <- <-. by apply Hquiet.
  - destruct (slot_at _ _) as [y|]; injection Hs as <- <-; [|by apply Hquiet]. by destruct (is_slot_free _); apply Hquiet.
  - destruct (slot_at _ _) as [y|]; injection Hs as <- <-; [|by apply Hquiet]. by destruct (_ <=? 0); apply Hquiet.
  - destruct (_ !! length vals) as [f|].
    { destruct (slot_at _ _) as [y|]; injection Hs as <- <-; [|by apply Hquiet]. by destruct (field_of _ _ _); apply Hquiet. }
    destruct (pk_count pk) as [[k len]|] eqn:Ec; [|injection Hs as <- <-; by apply Hquiet].
    rewrite on_count in Hs. destruct (counts t (pk_slot pk) g) eqn:Ek; injection Hs as <- <-; [|by apply Hquiet].
    unfold counts in Ek. apply andb_true_iff in Ek as [_ Eg%Z.eqb_eq]. unfold stats_at in *. cbn [snd].
    rewrite (proj1 (with_stats_at _ _)). destruct (decide (pk_slot pk = i)) as [<-|Hi].
    + rewrite lookup_insert_eq, Hx. rewrite Hx in Eg. cbn [gen_of] in Eg. eexists. split; [done|].
      rewrite (tally_insert _ _ _ (Passed g vals)) by done. cbn [count_entry]. rewrite Ec, count_gen, Eg, !Z.eqb_refl. cbn [andb]. by rewrite <-Eg, <-Htally.
    + rewrite lookup_insert_ne by done. exists x. split; [done|]. rewrite (tally_insert _ _ _ (Passed g vals)) by done.
      cbn [count_entry]. rewrite Ec. by destruct (Z.eqb_spec (pk_slot pk) i).
  - injection Hs as <- <-. exists x. rewrite list_insert_id by done. done.
  - injection Hs as <- <-. exists x. rewrite list_insert_id by done. done.
Qed.

Lemma count_inv_data vs ks t q pk st st' t' : count_inv vs ks t → ks !! q = Some (pk, st) → packet_step cfg pk st t = (st', t') →
  count_inv vs (<[q := (pk, st')]> ks) t'.
Proof.
  intros [Hgen Hseen Hdone Htally] Hq Hs. destruct (packet_step_keeps cfg pk st t st' t' Hs) as (E1 & E2 & E3).
  assert (Hsame : ∀ pk st, sees t pk st → sees t' pk st) by (intros pk2 st2; apply sees_same; [by rewrite E1|unfold opts_at; by rewrite E2]).
  split.
  - intros r pk2 st2 g [(<- & E & _)|(_ & Hr)]%list_lookup_insert_Some Hg; rewrite E3; [|by eapply Hgen]. injection E as <- <-.
    destruct (packet_step_captured cfg pk st t st' t' g Hs Hg) as [Hg'|[-> _]]; [by eapply Hgen|done].
  - intros r pk2 st2 g [(<- & E & _)|(_ & Hr)]%list_lookup_insert_Some Hg Heq Hf; rewrite E3 in Heq; [|by eapply Hsame, Hseen].
    injection E as <- <-. destruct (packet_step_captured cfg pk st t st' t' g Hs Hg) as [Hg'|[_ Hn]].
    + eapply Hsame, packet_step_seen; [done|exact Hs|by eapply Hseen].
    + intros vals Hv. by rewrite Hv in Hn.
  - intros r pk2 st2 [(<- & E & _)|(_ & Hr)]%list_lookup_insert_Some; [|by eapply Hdone]. injection E as <- <-.
    eapply packet_step_ok; [done|by eapply Hdone].
  - intros i Hf. destruct (Htally i Hf) as (x & Hx & Heq). by eapply packet_step_counts.
Qed.

Lemma count_inv_reach c c' : rtc (traffic_step cfg) c c' →
  (∃ vs, inv c.1.1 vs c.2 ∧ count_inv vs c.1.2 c.2) → ∃ vs, inv c'.1.1 vs c'.2 ∧ count_inv vs c'.1.2 c'.2.
Proof.
  induction 1 as [|c c1 c' Hs _ IH]; [done|]. intros (vs & HI & HC). apply IH. clear IH c'.
  destruct Hs as [ps ks t ps' t' Hs|ps ks t q pk st st' t' Hq Hs]; cbn [fst snd] in *.
  - destruct (pub_inv_step revoke whole t0 Hdown _ _ _ _ _ _ HI Hs) as (vs' & HI' & Hstep).
    exists vs'. split; [done|]. by eapply count_inv_control.
  - exists vs. split; [by eapply data_inv|by eapply count_inv_data].
Qed.
End invariant.
