(* ===== verification/TrafficSpec.v ===== *)
(** * What packets see and what they are counted for

    The theorems on the interleavings of [Traffic], on runs of [tenant]s and
    packets of one switch. *)
From S2P Require Import Prelude Errors GoStrings GoNet BpfTypes Mac Geneve Prog SlotTable Interleave.
From S2P Require Import Netns Netlink Config Metadata Loader Context Flock Attach AttachSpec PortSpec Maps Packet Skb Datapath Publication PublicationSpec Traffic.

Definition start (s : switchContext) (tenants : list (list session)) (packets : list packet) (t : tables) : config :=
  (map (tenant s) tenants, map (λ pk, (pk, Arrived)) packets, t).

Section runs.
Context (s : switchContext) (tenants : list (list session)) (packets : list packet) (slots : list SlotItem) (m : maps_state).
Context (Hctx : ctx_ok s slots) (Hfeat : Z.land (sc_Features (sx_cfg s)) SwitchFPortUp ≠ 0) (Hdown : free_down slots).
Notation whole := (requested s tenants slots).
Notation inv := (pub_inv (A:=unit) (some_detach tenants) whole (slots, m) (λ _ _ _, True)).

Lemma start_inv : inv (map (tenant s) tenants) (replicate (length (map (tenant s) tenants)) Blind) (slots, m).
Proof.
  apply pub_inv_init. intros p k Hp. rewrite list_lookup_fmap in Hp. apply fmap_Some in Hp as (ss & Hss & ->).
  eapply wp_pub_tenant; [done|by eapply list_elem_of_lookup_2|done].
Qed.
Lemma run_inv c : rtc (traffic_step (sx_cfg s)) (start s tenants packets (slots, m)) c → ∃ vs, inv c.1.1 vs c.2.
Proof. intros Hsteps. eapply inv_reach; [done|exact Hsteps|]. eexists. apply start_inv. Qed.
Lemma run_count_inv c : rtc (traffic_step (sx_cfg s)) (start s tenants packets (slots, m)) c →
  ∃ vs, inv c.1.1 vs c.2 ∧ count_inv vs c.1.2 c.2.
Proof.
  intros Hsteps. eapply count_inv_reach; [done|done|exact Hsteps|]. eexists. split; [apply start_inv|]. cbn [start fst snd].
  assert (Harr : ∀ q pk st, map (λ pk, (pk, Arrived)) packets !! q = Some (pk, st) → st = Arrived).
  { intros q pk st Hq. rewrite list_lookup_fmap in Hq. by apply fmap_Some in Hq as (pk' & _ & [= -> ->]). }
  assert (Hnone : ∀ i, ¬ fresh (replicate (length (map (tenant s) tenants)) Blind) i).
  { by intros i (p & y & o & c' & [? _]%lookup_replicate & _). }
  split.
  - by intros q pk st g ->%Harr.
  - by intros q pk st g ->%Harr.
  - by intros q pk st ->%Harr.
  - by intros i Hf%Hnone.
Qed.

(** A packet that has not passed the gate, and finishes while its port is not
    taken down, has seen what the tables hold. *)
Lemma calm_sees_whole c c' q pk st g vals b :
  rtc (traffic_step (sx_cfg s)) (start s tenants packets (slots, m)) c → c.1.2 !! q = Some (pk, st) → seen st = None →
  rtc (calm (sx_cfg s) (pk_slot pk)) c c' → c'.1.2 !! q = Some (pk, Finished g vals b) →
  ∃ y o, mapM (field_of y o) (pk_fields pk) = Some vals ∧ slot_at (fst c'.2) (pk_slot pk) = Some y ∧
    m_opts (snd c'.2) !! pk_slot pk = o ∧ is_up y = true ∧
    ((slot_at slots (pk_slot pk) = Some y ∧ m_opts m !! pk_slot pk = o) ∨ whole (pk_slot pk) y o).
Proof.
  intros Hsteps Hq Hst Hcalm Hq'. pose proof (run_inv c Hsteps) as Hinv.
  assert (Hsteps' : rtc (traffic_step (sx_cfg s)) (start s tenants packets (slots, m)) c').
  { etransitivity; [exact Hsteps|]. eapply rtc_subrel; [|exact Hcalm]. by intros ? ? []. }
  destruct (calm_sees (sx_cfg s) Hfeat _ _ (slots, m) Hdown _ c c' q pk st (Finished g vals b) Hcalm Hinv eq_refl Hq) as [Hsees Hok]; [|by destruct st|done|].
  { intros vs Hvs. by rewrite Hst in Hvs. }
  destruct (sees_finished _ _ _ _ _ Hsees Hok) as (y & Hy & Hup & Hm).
  destruct (run_inv c' Hsteps') as [vs HI]. destruct (inv_up _ _ (slots, m) Hdown _ _ _ _ _ _ HI Hy Hup) as [Hor _].
  exists y, (opts_at c'.2 (pk_slot pk)). by split_and!.
Qed.

(** C8: a packet works on one whole attachment, or its port was taken down
    under it.  Let any number of tenants of one switch, each in sessions of
    attaching a port, setting it up and detaching it, interleave with any number
    of packets, event by event, with arbitrary answers of the kernel apart from
    the maps, which hold what was written; let no free slot be up at the start.
    Take a packet at any point of such a run before it passes the publication
    gate, and let the run go on without its slot being taken down.  Whatever
    fields of the slot and of its options it then loads, in whatever order and
    however often: they are all fields of one slot value and one options value,
    which the tables still hold, and which are either those of the start, or
    exactly what an attachment or a set-port-up of a tenant asked for, on the
    device that provisioning gave the port. *)
Theorem packet_sees_one_attachment c c' q pk st g vals b :
  rtc (traffic_step (sx_cfg s)) (start s tenants packets (slots, m)) c → c.1.2 !! q = Some (pk, st) → seen st = None →
  rtc (calm (sx_cfg s) (pk_slot pk)) c c' → c'.1.2 !! q = Some (pk, Finished g vals b) →
  ∃ y o, mapM (field_of y o) (pk_fields pk) = Some vals ∧ slot_at (fst c'.2) (pk_slot pk) = Some y ∧
    m_opts (snd c'.2) !! pk_slot pk = o ∧ is_up y = true ∧
    ((slot_at slots (pk_slot pk) = Some y ∧ m_opts m !! pk_slot pk = o) ∨ requested s tenants slots (pk_slot pk) y o).
Proof. apply calm_sees_whole. Qed.

(** Where nobody detaches, that is every packet. *)
Theorem packet_sees_whole_attachment c q pk g vals b :
  ¬ some_detach tenants → rtc (traffic_step (sx_cfg s)) (start s tenants packets (slots, m)) c →
  c.1.2 !! q = Some (pk, Finished g vals b) → packets !! q = Some pk →
  ∃ y o, mapM (field_of y o) (pk_fields pk) = Some vals ∧ slot_at (fst c.2) (pk_slot pk) = Some y ∧
    m_opts (snd c.2) !! pk_slot pk = o ∧ is_up y = true ∧
    ((slot_at slots (pk_slot pk) = Some y ∧ m_opts m !! pk_slot pk = o) ∨ requested s tenants slots (pk_slot pk) y o).
Proof.
  intros Hno Hsteps Hq Hp. eapply (calm_sees_whole (start s tenants packets (slots, m)) c q pk Arrived); [done| |done| |done].
  - cbn [start fst snd]. by rewrite list_lookup_fmap, Hp.
  - eapply (calm_steps (sx_cfg s) _ _ (slots, m) Hdown); [exact Hno| |exact Hsteps]. eexists. apply start_inv.
Qed.

(** C9: the counters of an attachment count its own packets.  In the same runs,
    detachments included and without any assumption on when they happen: take a
    slot that was free at the start, is up, and has its counters marked ready.
    Its counters are exactly the sum of what the packets have counted that
    captured the present generation; none is lost, none counted twice; and each
    of these packets has loaded, of its slot and options, nothing but fields of
    the slot value and the options that the tables hold now, which are what the
    present attachment asked for.  So no packet of an earlier attachment is in
    them, however late it finishes. *)
Theorem counters_belong_to_attachment c i x y :
  rtc (traffic_step (sx_cfg s)) (start s tenants packets (slots, m)) c →
  slot_at slots i = Some x → si_InnerIp x = InnerIPFree →
  slot_at (fst c.2) i = Some y → is_up y = true → si_StatsReady y = 1 →
  requested s tenants slots i y (m_opts (snd c.2) !! i) ∧
  ∃ n, m_stats (snd c.2) !! i = Some n ∧ n = tally c.1.2 i (st_Generation n) ∧
    ∀ q pk vals b, c.1.2 !! q = Some (pk, Finished (st_Generation n) vals b) → pk_slot pk = i →
      mapM (field_of y (m_opts (snd c.2) !! i)) (pk_fields pk) = Some vals.
Proof.
  intros Hsteps Hx Hf Hy Hup Hready. destruct (run_count_inv c Hsteps) as (vs & HI & [_ Hseen Hdone Htally]).
  destruct (inv_ready _ _ (slots, m) Hdown _ _ _ _ _ _ _ HI Hx Hf Hy Hup) as [Hfresh Hw]; [by apply Z.eqb_eq|]. split; [done|].
  destruct (Htally i Hfresh) as (n & Hn & Heq). exists n. split_and!; [done..|]. intros q pk vals b Hq Hi. subst i.
  assert (Hsees : sees c.2 pk (Finished (st_Generation n) vals b)).
  { eapply Hseen; [exact Hq|done| |done]. by rewrite Hn. }
  destruct (sees_finished _ _ _ _ _ Hsees (Hdone _ _ _ Hq)) as (z & Hz & _ & Hm). rewrite Hy in Hz. injection Hz as <-. done.
Qed.
End runs.

(** ** Examples *)
Definition ex_first : AttachOptions := MkAttachOptions 1 0 "" (IPv4 10 0 0 7) (IPv4 10 0 0 1) 77 [] [] true true.
Definition ex_second : AttachOptions := MkAttachOptions 1 0 "" (IPv4 10 0 0 8) (IPv4 10 0 0 2) 88 [] [] false true.
(** A tenant attaches administratively down, sets the port up under another
    address, detaches, and attaches again. *)
Definition ex_tenants : list (list session) :=
  [[(ex_first, [UpPort (MkPortUpOptions 0 (IPv4 10 0 0 9) (IPv4 10 0 0 1) 78 [] []); DetachPort (MkDetachOptions 0 "" true)]);
    (ex_second, [])]].
Definition ex_packet : packet :=
  MkPacket 0 [FSlot si_InnerIp; FSlot si_TransitGatewayIp; FOpts gv_Len; FSlot si_TransitGeneveVni] (Some (TransitTx, 100)).
Definition ex_late : packet := MkPacket 0 [FSlot si_TransitGatewayIp; FSlot si_TransitGeneveVni] (Some (TransitTx, 60)).
Definition ex_packets : list packet := [ex_packet; ex_late].
Definition ex_tables : tables := (ex_free_port :: ex_table, with_stats maps_empty {[0 := no_counts 7]}).
Definition ex_start : config := start ex_switch ex_tenants ex_packets ex_tables.
Definition ctl (n : nat) : list (nat + nat) := replicate n (inl 0%nat).
Definition pkt (q n : nat) : list (nat + nat) := replicate n (inr q).
Lemma ex_free_down : free_down (fst ex_tables).
Proof.
  intros i x Hx _. unfold slot_at in Hx. destruct (i <? 0); [done|].
  assert (x ∈ ex_free_port :: ex_table) as Hin by (by eapply list_elem_of_lookup_2). revert Hin.
  apply (Forall_forall (λ x, is_up x = false)). decide_true.
Defined.

(** The packet finds the provisional owner, waits, and then the port up under
    another address. *)
Definition ex_waiting : config := traffic_run ex_cfg (ctl 20 ++ pkt 0 2) ex_start.
Definition ex_rest : list (nat + nat) := ctl 9 ++ pkt 0 3 ++ ctl 2 ++ pkt 0 3.
Definition ex_vals : list Z := [167772169; 167772161; 0; 78].
Lemma packet_sees_one_attachment_witness :
  ∃ y o, mapM (field_of y o) (pk_fields ex_packet) = Some ex_vals ∧ requested ex_switch ex_tenants (fst ex_tables) 0 y o.
Proof.
  destruct (packet_sees_one_attachment ex_switch ex_tenants ex_packets (fst ex_tables) (snd ex_tables)) with
    (c := ex_waiting) (c' := traffic_run ex_cfg ex_rest ex_waiting) (q := 0%nat) (pk := ex_packet)
    (st := Claimed 8) (g := 8) (vals := ex_vals) (b := true) as (y & o & Hvs & _ & _ & Hup & [[Hy _]|Hreq]).
  - decide_true.
  - by vm_compute.
  - exact ex_free_down.
  - apply traffic_run_sound.
  - by vm_compute.
  - done.
  - apply calm_run_sound. by vm_compute.
  - by vm_compute.
  - vm_compute in Hy. injection Hy as <-. by vm_compute in Hup.
  - by exists y, o.
Defined.

Definition ex_keeping : list (list session) := [[(ex_second, [])]].
Definition ex_kept : config :=
  traffic_run ex_cfg (ctl 60 ++ pkt 1 8) (start ex_switch ex_keeping ex_packets ex_tables).
Lemma packet_sees_whole_attachment_witness :
  ∃ y o, mapM (field_of y o) (pk_fields ex_late) = Some [167772162; 88] ∧ requested ex_switch ex_keeping (fst ex_tables) 0 y o.
Proof.
  destruct (packet_sees_whole_attachment ex_switch ex_keeping ex_packets (fst ex_tables) (snd ex_tables)) with
    (c := ex_kept) (q := 1%nat) (pk := ex_late) (g := 8) (vals := [167772162; 88]) (b := true)
    as (y & o & Hvs & _ & _ & Hup & [[Hy _]|Hreq]).
  - decide_true.
  - by vm_compute.
  - exact ex_free_down.
  - intros (ss & opts & cs & c & Hss & Hin & Hc & _). apply list_elem_of_singleton in Hss as ->.
    apply list_elem_of_singleton in Hin as [= -> ->]. by apply elem_of_nil in Hc.
  - apply traffic_run_sound.
  - by vm_compute.
  - done.
  - vm_compute in Hy. injection Hy as <-. by vm_compute in Hup.
  - by exists y, o.
Defined.

(** A packet that is overtaken by a detachment and the next attachment mixes the
    two: the gateway of the one with the network identifier of the other.  It is
    counted before the new attachment puts the counters at zero. *)
Definition ex_overtaking : list (nat + nat) := ctl 29 ++ pkt 1 4 ++ ctl 15 ++ pkt 1 2.
Definition ex_overtaken : config := traffic_run ex_cfg ex_overtaking ex_start.
Lemma detachment_mixes :
  ex_overtaken.1.2 !! 1%nat = Some (ex_late, Finished 8 [167772161; 88] true) ∧
  m_stats (snd ex_overtaken.2) !! 0 = Some (count TransitTx 60 (no_counts 8)).
Proof. by split; vm_compute. Qed.

(** Then the second attachment is published, and a packet of its own counted. *)
Definition ex_after : list (nat + nat) := ctl 20 ++ pkt 0 9.
Definition ex_counted : config := traffic_run ex_cfg ex_after ex_overtaken.
Lemma ex_counted_run : rtc (traffic_step ex_cfg) ex_start ex_counted.
Proof. transitivity ex_overtaken; [exact (traffic_run_sound ex_cfg ex_overtaking ex_start)|exact (traffic_run_sound ex_cfg ex_after ex_overtaken)]. Qed.
Lemma ex_counted_slot : ∃ y, slot_at (fst ex_counted.2) 0 = Some y ∧ is_up y = true ∧ si_StatsReady y = 1.
Proof. eexists; split_and!; [by vm_compute|done|done]. Qed.
Lemma counters_belong_to_attachment_witness :
  m_stats (snd ex_counted.2) !! 0 = Some (count TransitTx 100 (no_counts 9)) ∧
  ∃ y, slot_at (fst ex_counted.2) 0 = Some y ∧ requested ex_switch ex_tenants (fst ex_tables) 0 y (m_opts (snd ex_counted.2) !! 0).
Proof.
  split; [by vm_compute|]. destruct ex_counted_slot as (y & Hy & Hup & Hready). exists y. split; [exact Hy|].
  refine (proj1 (counters_belong_to_attachment ex_switch ex_tenants ex_packets (fst ex_tables) (snd ex_tables)
    _ _ ex_free_down ex_counted 0 ex_free_port y ex_counted_run _ _ Hy Hup Hready)).
  - decide_true.
  - by vm_compute.
  - reflexivity.
  - reflexivity.
Defined.
