(* ===== verification/Layout.v ===== *)
(** * The binary interface: bpf/common.h, the generated bindings and types.go

    The control plane and the datapath access the same bytes through struct
    declarations in two languages.  Here both are written as types, laid out by
    the rule the two compilers share (every scalar at the next multiple of its
    width, a struct as wide as its widest scalar asks for), and compared. *)
From S2P Require Import Prelude Errors GoStrings GoNet BpfTypes Geneve.

Inductive ctype :=
  | U8 | U16 | U32 | U64
  | Array (n : nat) (t : ctype)
  | Struct (fields : list (string * ctype)).

Fixpoint alignof (t : ctype) : nat :=
  match t with
  | U8 => 1 | U16 => 2 | U32 => 4 | U64 => 8
  | Array _ t => alignof t
  | Struct fs => (fix go fs := match fs with [] => 1 | (_, t) :: fs => Nat.max (alignof t) (go fs) end) fs
  end%nat.
Definition align_up (off a : nat) : nat := ((off + a - 1) / a * a)%nat.
Fixpoint sizeof (t : ctype) : nat :=
  match t with
  | U8 => 1 | U16 => 2 | U32 => 4 | U64 => 8
  | Array n t => n * sizeof t
  | Struct fs =>
      align_up ((fix go fs off := match fs with [] => off | (_, t) :: fs => go fs (align_up off (alignof t) + sizeof t) end) fs 0)
        (alignof (Struct fs))
  end%nat.
(** Where the fields of a struct begin. *)
Fixpoint offsets (fs : list (string * ctype)) (off : nat) : list (string * nat) :=
  match fs with
  | [] => []
  | (f, t) :: fs => let o := align_up off (alignof t) in (f, o) :: offsets fs (o + sizeof t)
  end.
Definition field_offsets (t : ctype) : list (string * nat) := match t with Struct fs => offsets fs 0 | _ => [] end.
Definition offsetof (t : ctype) (f : string) : nat :=
  match list_find (λ x, x.1 = f) (field_offsets t) with Some (_, (_, o)) => o | None => 0 end.
(** The offset and the width of every scalar, in order. *)
Fixpoint scalars (t : ctype) (off : nat) : list (nat * nat) :=
  match t with
  | U8 => [(off, 1)] | U16 => [(off, 2)] | U32 => [(off, 4)] | U64 => [(off, 8)]
  | Array n t => flat_map (λ i, scalars t (off + i * sizeof t)) (seq 0 n)
  | Struct fs =>
      (fix go fs o := match fs with
                      | [] => []
                      | (_, t) :: fs => let o := align_up o (alignof t) in scalars t o ++ go fs (o + sizeof t)
                      end) fs off
  end%nat.

(** ** bpf/common.h *)
Definition c_svc_key : ctype := Struct [("ip", U32); ("port", U16); ("proto", U8); ("_pad", U8)].
Definition c_svc_val : ctype := Struct [("ip", U32); ("port", U16); ("_pad", U16)].
Definition c_geneve_opts_value : ctype :=
  Struct [("len", U8); ("critical", U8); ("reserved", U16); ("data", Array (Z.to_nat MaxGeneveOptsLen) U8)].
Definition c_mgmt_cidr : ctype :=
  Struct [("ip", U32); ("mask", U32); ("ifindex", U32); ("mgmt_mac", Array 6 U8); ("_pad", Array 2 U8)].
Definition c_slot_item : ctype :=
  Struct [("ifindex", U32); ("inner_ip", U32); ("transit_ifindex", U32); ("transit_ip", U32); ("transit_gateway_ip", U32);
          ("transit_geneve_vni", U32); ("transit_mac", Array 6 U8); ("mode", U8); ("geneve_opts_len", U8);
          ("mgmt_cidr_count", U32); ("mgmt_cidrs_0", c_mgmt_cidr); ("generation", U32); ("flags", U32);
          ("mgmt_cidrs_ext", Array (Z.to_nat MaxMgmtCIDRExt) c_mgmt_cidr); ("stats_ready", U32)].
Definition c_switch_config : ctype :=
  Struct [("switch_mac", Array 6 U8); ("_pad", U16); ("n_ports", U32); ("floating_ip_base", U32); ("geneve_port_base", U32);
          ("geneve_encap_eth", U8); ("_pad3", Array 3 U8); ("transit_nexthop", U32); ("port_mac", Array 6 U8);
          ("generation_bits", U8); ("features", U8); ("geneve_locator", U8); ("geneve_tlv_type", U8); ("geneve_tlv_class", U16)].
Definition c_bpf_spin_lock : ctype := Struct [("val", U32)].
Definition c_slot_stats : ctype :=
  Struct [("lock", c_bpf_spin_lock); ("_pad", U32); ("generation", U64);
          ("mgmt_rx_packets", U64); ("mgmt_rx_bytes", U64); ("mgmt_tx_packets", U64); ("mgmt_tx_bytes", U64);
          ("transit_rx_packets", U64); ("transit_rx_bytes", U64); ("transit_tx_packets", U64); ("transit_tx_bytes", U64)].

(** ** The generated bindings, with the marker field every struct begins with *)
Definition HostLayout : string * ctype := ("_", Struct []).
Definition vswitchSvcKey : ctype := Struct [HostLayout; ("Ip", U32); ("Port", U16); ("Proto", U8); ("Pad", U8)].
Definition vswitchSvcVal : ctype := Struct [HostLayout; ("Ip", U32); ("Port", U16); ("Pad", U16)].
Definition vswitchGeneveOptsValue : ctype :=
  Struct [HostLayout; ("Len", U8); ("Critical", U8); ("Reserved", U16); ("Data", Array 64 U8)].
Definition vswitchMgmtCidr : ctype :=
  Struct [HostLayout; ("Ip", U32); ("Mask", U32); ("Ifindex", U32); ("MgmtMac", Array 6 U8); ("Pad", Array 2 U8)].
Definition vswitchSlotItem : ctype :=
  Struct [HostLayout; ("Ifindex", U32); ("InnerIp", U32); ("TransitIfindex", U32); ("TransitIp", U32); ("TransitGatewayIp", U32);
          ("TransitGeneveVni", U32); ("TransitMac", Array 6 U8); ("Mode", U8); ("GeneveOptsLen", U8);
          ("MgmtCidrCount", U32); ("MgmtCidrs0", vswitchMgmtCidr); ("Generation", U32); ("Flags", U32);
          ("MgmtCidrsExt", Array 2 vswitchMgmtCidr); ("StatsReady", U32)].
Definition vswitchSwitchConfig : ctype :=
  Struct [HostLayout; ("SwitchMac", Array 6 U8); ("Pad", U16); ("N_ports", U32); ("FloatingIpBase", U32); ("GenevePortBase", U32);
          ("GeneveEncapEth", U8); ("Pad3", Array 3 U8); ("TransitNexthop", U32); ("PortMac", Array 6 U8);
          ("GenerationBits", U8); ("Features", U8); ("GeneveLocator", U8); ("GeneveTlvType", U8); ("GeneveTlvClass", U16)].
Definition vswitchSlotStats : ctype :=
  Struct [HostLayout; ("Lock", Struct [HostLayout; ("Val", U32)]); ("Pad", U32); ("Generation", U64);
          ("MgmtRxPackets", U64); ("MgmtRxBytes", U64); ("MgmtTxPackets", U64); ("MgmtTxBytes", U64);
          ("TransitRxPackets", U64); ("TransitRxBytes", U64); ("TransitTxPackets", U64); ("TransitTxBytes", U64)].

(** The same declarations in the bindings for arm64. *)
Definition arm64_SvcKey : ctype := Struct [HostLayout; ("Ip", U32); ("Port", U16); ("Proto", U8); ("Pad", U8)].
Definition arm64_SvcVal : ctype := Struct [HostLayout; ("Ip", U32); ("Port", U16); ("Pad", U16)].
Definition arm64_GeneveOptsValue : ctype :=
  Struct [HostLayout; ("Len", U8); ("Critical", U8); ("Reserved", U16); ("Data", Array 64 U8)].
Definition arm64_MgmtCidr : ctype :=
  Struct [HostLayout; ("Ip", U32); ("Mask", U32); ("Ifindex", U32); ("MgmtMac", Array 6 U8); ("Pad", Array 2 U8)].
Definition arm64_SlotItem : ctype :=
  Struct [HostLayout; ("Ifindex", U32); ("InnerIp", U32); ("TransitIfindex", U32); ("TransitIp", U32); ("TransitGatewayIp", U32);
          ("TransitGeneveVni", U32); ("TransitMac", Array 6 U8); ("Mode", U8); ("GeneveOptsLen", U8);
          ("MgmtCidrCount", U32); ("MgmtCidrs0", arm64_MgmtCidr); ("Generation", U32); ("Flags", U32);
          ("MgmtCidrsExt", Array 2 arm64_MgmtCidr); ("StatsReady", U32)].
Definition arm64_SwitchConfig : ctype :=
  Struct [HostLayout; ("SwitchMac", Array 6 U8); ("Pad", U16); ("N_ports", U32); ("FloatingIpBase", U32); ("GenevePortBase", U32);
          ("GeneveEncapEth", U8); ("Pad3", Array 3 U8); ("TransitNexthop", U32); ("PortMac", Array 6 U8);
          ("GenerationBits", U8); ("Features", U8); ("GeneveLocator", U8); ("GeneveTlvType", U8); ("GeneveTlvClass", U16)].
Definition arm64_SlotStats : ctype :=
  Struct [HostLayout; ("Lock", Struct [HostLayout; ("Val", U32)]); ("Pad", U32); ("Generation", U64);
          ("MgmtRxPackets", U64); ("MgmtRxBytes", U64); ("MgmtTxPackets", U64); ("MgmtTxBytes", U64);
          ("TransitRxPackets", U64); ("TransitRxBytes", U64); ("TransitTxPackets", U64); ("TransitTxBytes", U64)].

(** The constants common.h exports, and the bindings' copies. *)
Definition exported_u32 : list (string * Z) :=
  [("__MAX_PORTS", 4096); ("__MAX_MGMT_CIDR_PER_SLOT", 3); ("__INNER_IP_FREE", 0); ("__INNER_IP_RESERVED", 0xFFFFFFFF);
   ("__PORT_KIND_VETH", 0); ("__PORT_KIND_TAP", 1); ("__PORT_F_UP", Z.shiftl 1 0); ("__SWITCH_F_PORT_UP", Z.shiftl 1 0);
   ("__SWITCH_F_DEFERRED_UP", Z.shiftl 1 1); ("__MAX_GENEVE_OPTS_LEN", 64); ("__GENEVE_PORT", 6081); ("__GENEVE_LOCATOR_PORT", 0);
   ("__GENEVE_LOCATOR_VNI", 1); ("__GENEVE_LOCATOR_TLV", 2); ("__GENEVE_VNI_LOCATOR_BITS", 12); ("__GENEVE_VNI_VALUE_MASK", 0x0fff)].
Definition vswitchExportedU32 : list (string * Z) :=
  [("MAX_PORTS", 4096); ("MAX_MGMT_CIDR_PER_SLOT", 3); ("INNER_IP_FREE", 0); ("INNER_IP_RESERVED", 4294967295);
   ("PORT_KIND_VETH", 0); ("PORT_KIND_TAP", 1); ("PORT_F_UP", 1); ("SWITCH_F_PORT_UP", 1);
   ("SWITCH_F_DEFERRED_UP", 2); ("MAX_GENEVE_OPTS_LEN", 64); ("GENEVE_PORT", 6081); ("GENEVE_LOCATOR_PORT", 0);
   ("GENEVE_LOCATOR_VNI", 1); ("GENEVE_LOCATOR_TLV", 2); ("GENEVE_VNI_LOCATOR_BITS", 12); ("GENEVE_VNI_VALUE_MASK", 4095)].
Definition arm64_ExportedU32 : list (string * Z) :=
  [("MAX_PORTS", 4096); ("MAX_MGMT_CIDR_PER_SLOT", 3); ("INNER_IP_FREE", 0); ("INNER_IP_RESERVED", 4294967295);
   ("PORT_KIND_VETH", 0); ("PORT_KIND_TAP", 1); ("PORT_F_UP", 1); ("SWITCH_F_PORT_UP", 1);
   ("SWITCH_F_DEFERRED_UP", 2); ("MAX_GENEVE_OPTS_LEN", 64); ("GENEVE_PORT", 6081); ("GENEVE_LOCATOR_PORT", 0);
   ("GENEVE_LOCATOR_VNI", 1); ("GENEVE_LOCATOR_TLV", 2); ("GENEVE_VNI_LOCATOR_BITS", 12); ("GENEVE_VNI_VALUE_MASK", 4095)].

(** ** pkg/internal/bpf/types.go: the constants as the package names them, and
    its compile-time assertions *)
Definition types_constants : list Z :=
  [MaxPorts; MaxMgmtCIDRPerSlot; InnerIPFree; InnerIPReserved; PortKindVeth; PortKindTap; PortFUp; SwitchFPortUp; SwitchFDeferredUp;
   MaxGeneveOptsLen; GenevePort; GeneveLocatorPort; GeneveLocatorVNI; GeneveLocatorTLV; GeneveVNILocatorBits; GeneveVNIValueMask].
Definition types_assertions : list (nat * nat) :=
  [(108, sizeof vswitchSlotItem); (56, offsetof vswitchSlotItem "Generation"); (60, offsetof vswitchSlotItem "Flags");
   (104, offsetof vswitchSlotItem "StatsReady"); (40, sizeof vswitchSwitchConfig); (34, offsetof vswitchSwitchConfig "GenerationBits");
   (35, offsetof vswitchSwitchConfig "Features"); (68, sizeof vswitchGeneveOptsValue); (80, sizeof vswitchSlotStats);
   (20, sizeof vswitchMgmtCidr); (8, sizeof vswitchSvcKey); (8, sizeof vswitchSvcVal)]%nat.
(** The assertions of switch_kern.c. *)
Definition kern_assertions : list (Z * Z) := [(Z.of_nat (offsetof c_slot_item "flags"), 60); (Z.shiftl 1 0, 1)].

(** ** The two sides agree *)
Definition same_layout (c go : ctype) : Prop := sizeof c = sizeof go ∧ alignof c = alignof go ∧ scalars c 0 = scalars go 0.
Lemma bindings_match :
  Forall (λ p, same_layout p.1 p.2)
    [(c_svc_key, vswitchSvcKey); (c_svc_val, vswitchSvcVal); (c_geneve_opts_value, vswitchGeneveOptsValue);
     (c_mgmt_cidr, vswitchMgmtCidr); (c_slot_item, vswitchSlotItem); (c_switch_config, vswitchSwitchConfig);
     (c_slot_stats, vswitchSlotStats);
     (c_svc_key, arm64_SvcKey); (c_svc_val, arm64_SvcVal); (c_geneve_opts_value, arm64_GeneveOptsValue);
     (c_mgmt_cidr, arm64_MgmtCidr); (c_slot_item, arm64_SlotItem); (c_switch_config, arm64_SwitchConfig);
     (c_slot_stats, arm64_SlotStats)].
Proof. repeat constructor. Qed.
Lemma constants_match :
  map snd exported_u32 = types_constants ∧ map snd vswitchExportedU32 = types_constants ∧ arm64_ExportedU32 = vswitchExportedU32 ∧
  map fst exported_u32 = map (λ n, "__" +:+ n) (map fst vswitchExportedU32).
Proof. by split_and!. Qed.
Lemma layout_assertions : Forall (λ p, p.1 = p.2) types_assertions ∧ Forall (λ p, p.1 = p.2) kern_assertions.
Proof. by split; repeat constructor. Qed.
