(* ===== verification/SlotMemory.v ===== *)
(** * The mapped bytes of the slot table

    [Prog] keeps the slot table as a list of records.  Here it is what
    [NewMmappedSlots] maps: bytes, every event a little-endian access at the
    offset [unsafe.Pointer] arithmetic and the struct layout give.  The records
    are what the bytes hold, whatever typed programs do to them in whatever
    interleaving.  An event that stores more than a word is still one step. *)
From S2P Require Import Prelude Errors GoStrings GoNet BpfTypes Prog SlotTable Interleave Netns Netlink Config MgmtService.
From S2P Require Import Metadata Loader Context Flock Attach AttachSpec Provision ProvisionSpec Stop StopSpec PortSpec.
From S2P Require Import Footprint Safety HostIo TapServer Typed Maps Packet Skb Datapath Layout.

(** ** Access *)
Definition stride : nat := Z.to_nat (slot_size (Z.of_nat (sizeof vswitchSlotItem))).
Definition base (i : Z) : nat := (Z.to_nat i * stride)%nat.
Definition bytes32_le (v : Z) : list Z := [u8 v; u8 (v / 256); u8 (v / 65536); u8 (v / 16777216)].

(** Field [f] of a slot or a prefix entry that begins at [b]. *)
Definition at_field (t : ctype) (b : nat) (f : string) : nat := (b + offsetof t f)%nat.
Definition cidr_read (mem : list Z) (b : nat) : MgmtCidr :=
  let at_ := at_field vswitchMgmtCidr b in
  MkMgmtCidr (get32_le mem (at_ "Ip")) (get32_le mem (at_ "Mask")) (get32_le mem (at_ "Ifindex"))
    (segment (at_ "MgmtMac") (at_ "MgmtMac" + 6) mem).
Definition slot_read (mem : list Z) (b : nat) : SlotItem :=
  let at_ := at_field vswitchSlotItem b in
  MkSlotItem (get32_le mem (at_ "Ifindex")) (get32_le mem (at_ "InnerIp")) (get32_le mem (at_ "TransitIfindex"))
    (get32_le mem (at_ "TransitIp")) (get32_le mem (at_ "TransitGatewayIp")) (get32_le mem (at_ "TransitGeneveVni"))
    (segment (at_ "TransitMac") (at_ "TransitMac" + 6) mem) (get8 mem (at_ "Mode")) (get8 mem (at_ "GeneveOptsLen"))
    (get32_le mem (at_ "MgmtCidrCount")) (cidr_read mem (at_ "MgmtCidrs0"))
    (get32_le mem (at_ "Generation")) (get32_le mem (at_ "Flags"))
    [cidr_read mem (at_ "MgmtCidrsExt"); cidr_read mem (at_ "MgmtCidrsExt" + sizeof vswitchMgmtCidr)]
    (get32_le mem (at_ "StatsReady")).

Definition cidr_bytes (c : MgmtCidr) : list Z :=
  bytes32_le (mc_Ip c) ++ bytes32_le (mc_Mask c) ++ bytes32_le (mc_Ifindex c) ++ mc_MgmtMac c ++ [0; 0].
(** The offset in the slot and the bytes of a store. *)
Definition store_at (w : slot_write) : nat * list Z :=
  let at_ := offsetof vswitchSlotItem in
  match w with
  | WIfindex v => (at_ "Ifindex", bytes32_le v)
  | WTransitIfindex v => (at_ "TransitIfindex", bytes32_le v)
  | WTransitIp v => (at_ "TransitIp", bytes32_le v)
  | WTransitGatewayIp v => (at_ "TransitGatewayIp", bytes32_le v)
  | WTransitGeneveVni v => (at_ "TransitGeneveVni", bytes32_le v)
  | WTransitMac m => (at_ "TransitMac", m)
  | WMode v => (at_ "Mode", [v])
  | WGeneveOptsLen v => (at_ "GeneveOptsLen", [v])
  | WMgmtCidrCount v => (at_ "MgmtCidrCount", bytes32_le v)
  | WMgmtCidrs0 c => (at_ "MgmtCidrs0", cidr_bytes c)
  | WMgmtCidrsExt j c => (at_ "MgmtCidrsExt" + j * sizeof vswitchMgmtCidr, cidr_bytes c)%nat
  | WGeneration v => (at_ "Generation", bytes32_le v)
  | WFlags v => (at_ "Flags", bytes32_le v)
  | WStatsReady v => (at_ "StatsReady", bytes32_le v)
  end.

(** ** Events on the mapping *)
Definition entries (mem : list Z) : nat := (length mem / stride)%nat.
Definition mapped (mem : list Z) (i : Z) : bool := (0 <=? i) && (Z.to_nat i <? entries mem)%nat.
Definition inner_ip_at (i : Z) : nat := (base i + Z.to_nat InnerIPOffset)%nat.
Definition byte_step {B} (e : ev B) (mem : list Z) : option (B * list Z) :=
  match e in ev B return option (B * list Z) with
  | ELoadIP i => if mapped mem i then Some (get32_le mem (inner_ip_at i), mem) else None
  | ECas i old new =>
      if mapped mem i
      then if get32_le mem (inner_ip_at i) =? old then Some (true, splice (inner_ip_at i) (bytes32_le new) mem) else Some (false, mem)
      else None
  | ELoadSlot i => if mapped mem i then Some (slot_read mem (base i), mem) else None
  | EStore i w => if mapped mem i then Some (tt, splice (base i + (store_at w).1) (store_at w).2 mem) else None
  | EKern _ => None
  end.
Inductive byte_pool_step {A} : list (prog A) * list Z → list (prog A) * list Z → Prop :=
  | byte_mem ps mem i B (e : ev B) k b mem' :
      ps !! i = Some (Vis e k) → byte_step e mem = Some (b, mem') → byte_pool_step (ps, mem) (<[i := k b]> ps, mem')
  | byte_kern ps mem i B (e : kev B) k b :
      ps !! i = Some (Vis (EKern e) k) → byte_pool_step (ps, mem) (<[i := k b]> ps, mem).

(** What the bytes hold. *)
Definition slots_of (mem : list Z) : list SlotItem := map (λ n, slot_read mem (n * stride)) (seq 0 (entries mem)).

(** Replace offsets and sizes by their values. *)
Ltac offs :=
  repeat match goal with
  | |- context [offsetof ?t ?f] => let n := eval vm_compute in (offsetof t f) in change (offsetof t f) with n
  | |- context [sizeof ?t] => let n := eval vm_compute in (sizeof t) in change (sizeof t) with n
  end.

(** ** Reading what was written *)
Lemma le32_ne off bs p i : (off + length bs ≤ length p)%nat → (i + 4 ≤ off ∨ off + length bs ≤ i)%nat →
  get32_le (splice off bs p) i = get32_le p i.
Proof. intros Hl Hi. unfold get32_le. by rewrite !get8_splice_ne by lia. Qed.
Lemma le32_value v : is_u32 v → u8 v + u8 (v / 256) * 256 + u8 (v / 65536) * 65536 + u8 (v / 16777216) * 16777216 = v.
Proof.
  intros Hv. unfold is_u32 in Hv. unfold u8. change (2 ^ 8) with 256.
  assert (v / 65536 = v / 256 / 256) as E1 by by rewrite Z.div_div. assert (v / 16777216 = v / 65536 / 256) as E2 by by rewrite Z.div_div.
  assert (v / 16777216 mod 256 = v / 16777216) as -> by (apply Z.mod_small; split; [apply Z.div_pos; lia|apply Z.div_lt_upper_bound; lia]).
  pose proof (Z.div_mod v 256 ltac:(lia)). pose proof (Z.div_mod (v / 256) 256 ltac:(lia)). pose proof (Z.div_mod (v / 65536) 256 ltac:(lia)). lia.
Qed.
Lemma get8_in off bs p k : (off + length bs ≤ length p)%nat → (k < length bs)%nat → get8 (splice off bs p) (off + k) = get8 bs k.
Proof. intros Hl Hk. rewrite get8_splice by done. rewrite bool_decide_eq_true_2 by lia. unfold get8. f_equal. lia. Qed.
Lemma le32_in off bs p k : (off + length bs ≤ length p)%nat → (k + 4 ≤ length bs)%nat →
  get32_le (splice off bs p) (off + k) = get32_le bs k.
Proof. intros Hl Hk. unfold get32_le. rewrite <-!Nat.add_assoc, !get8_in by lia. done. Qed.
Lemma segment_sub off bs p k n : (off + length bs ≤ length p)%nat → (k + n ≤ length bs)%nat →
  segment (off + k) (off + k + n) (splice off bs p) = segment k (k + n) bs.
Proof.
  intros Hl Hk. unfold segment. replace (off + k + n - (off + k))%nat with n by lia. replace (k + n - k)%nat with n by lia.
  apply list_eq. intros i. rewrite !list_lookup_fmap. destruct (decide (i < n)%nat).
  - rewrite !lookup_seq_lt by done. cbn [fmap option_fmap option_map]. by rewrite <-Nat.add_assoc, get8_in by lia.
  - by rewrite !lookup_seq_ge by lia.
Qed.
Lemma le32_eq off v p : is_u32 v → (off + 4 ≤ length p)%nat → get32_le (splice off (bytes32_le v) p) off = v.
Proof. intros Hv Hl. rewrite <-(Nat.add_0_r off) at 2. rewrite le32_in by (simpl; lia). by apply le32_value. Qed.
Lemma byte_eq off v p : (off + 1 ≤ length p)%nat → get8 (splice off [v] p) off = v.
Proof. intros Hl. rewrite <-(Nat.add_0_r off) at 2. by rewrite get8_in by (simpl; lia). Qed.
Lemma cidr_read_ne off bs p b : (off + length bs ≤ length p)%nat → (b + 20 ≤ off ∨ off + length bs ≤ b)%nat →
  cidr_read (splice off bs p) b = cidr_read p b.
Proof. intros Hl Hb. unfold cidr_read, at_field. offs. rewrite !le32_ne by lia. f_equal. apply segment_out; lia. Qed.
Lemma length_cidr_bytes c : mac_typed (mc_MgmtMac c) → length (cidr_bytes c) = 20%nat.
Proof. intros [Hm _]. unfold cidr_bytes. rewrite !length_app, Hm. done. Qed.
Lemma cidr_read_eq off c p : cidr_typed c → (off + 20 ≤ length p)%nat → cidr_read (splice off (cidr_bytes c) p) off = c.
Proof.
  intros [Hi Hm Hx Hmac] Hl. pose proof (length_cidr_bytes c Hmac) as Hlen. destruct Hmac as [Hmac _].
  destruct c as [ip mask ifx mac]. cbn [mc_Ip mc_Mask mc_Ifindex mc_MgmtMac] in *. do 7 (destruct mac as [|? mac]; try done).
  unfold cidr_read, at_field. offs. rewrite !le32_in by (rewrite ?Hlen; cbn; lia). f_equal; try by apply le32_value.
  by rewrite segment_sub by (rewrite ?Hlen; lia).
Qed.

Lemma store_size w : write_typed w → ((store_at w).1 + length (store_at w).2 ≤ 108)%nat.
Proof.
  destruct w; cbn [store_at fst snd]; offs; intros Hw; cbn [write_typed] in Hw; try (cbn [length bytes32_le]; lia).
  - destruct Hw as [Hm _]. lia.
  - rewrite length_cidr_bytes by apply Hw. lia.
  - destruct Hw as [Hj Hc]. rewrite length_cidr_bytes by apply Hc. lia.
Qed.
Lemma two_eq {A} (a b a' b' : A) : a = a' → b = b' → [a; b] = [a'; b'].
Proof. by intros -> ->. Qed.
(** One field of a slot after a store to it, or to another field. *)
Ltac same_field := first
  [ reflexivity
  | apply le32_ne; cbn [length bytes32_le]; lia | apply get8_splice_ne; cbn [length bytes32_le]; lia
  | apply cidr_read_ne; cbn [length bytes32_le]; lia | apply segment_out; cbn [length bytes32_le]; lia
  | apply le32_eq; [first [assumption | unfold is_u32 in *; lia] | lia] | apply byte_eq; lia
  | apply two_eq; apply cidr_read_ne; cbn [length bytes32_le]; lia ].
Lemma slot_read_ne off bs p b : (off + length bs ≤ length p)%nat → (b + 108 ≤ off ∨ off + length bs ≤ b)%nat →
  slot_read (splice off bs p) b = slot_read p b.
Proof. intros Hl Hb. unfold slot_read, at_field. offs. f_equal; same_field. Qed.
Lemma slot_read_store w p b : write_typed w → (b + 108 ≤ length p)%nat →
  slot_read (splice (b + (store_at w).1) (store_at w).2 p) b = write_slot w (slot_read p b).
Proof.
  intros Hw Hl. unfold slot_read, at_field. destruct w; cbn [store_at fst snd write_slot write_typed] in *; offs.
  1-5,7-9,12-14: f_equal; same_field.
  - destruct Hw as [Hm _]. f_equal; try same_field. rewrite <-Hm. apply segment_in. lia.
  - pose proof (length_cidr_bytes v (ct_mac _ Hw)) as Hc. f_equal; try same_field. apply cidr_read_eq; [done|lia].
  - destruct Hw as [Hj Hw]. pose proof (length_cidr_bytes v (ct_mac _ Hw)) as Hc.
    destruct j as [|[|j]]; [..|lia]; cbn [Nat.mul Nat.add]; f_equal; try same_field; apply two_eq; try same_field.
    all: match goal with |- cidr_read (splice ?o _ _) ?o' = _ => replace o' with o by lia end; apply cidr_read_eq; [done|lia].
Qed.

(** The owner's word, where [getInnerIPPtr] points. *)
Lemma inner_ip_field i : inner_ip_at i = at_field vswitchSlotItem (base i) "InnerIp".
Proof. unfold inner_ip_at, at_field. by offs. Qed.
Lemma read_inner_ip i mem : get32_le mem (inner_ip_at i) = si_InnerIp (slot_read mem (base i)).
Proof. by rewrite inner_ip_field. Qed.
Lemma slot_read_owner ip p i : is_u32 ip → (base i + 108 ≤ length p)%nat →
  slot_read (splice (inner_ip_at i) (bytes32_le ip) p) (base i) = set_InnerIp ip (slot_read p (base i)).
Proof.
  intros Hip Hl. rewrite inner_ip_field. unfold slot_read, at_field, set_InnerIp. offs. f_equal; same_field.
Qed.

(** ** The table the bytes hold *)
Lemma stride_eq : stride = 112%nat.
Proof. done. Qed.
Lemma mapped_room mem i : mapped mem i = true → 0 ≤ i ∧ (base i + 112 ≤ length mem)%nat.
Proof.
  unfold mapped, base, entries. rewrite stride_eq. intros [Hi%Z.leb_le Hn%Nat.ltb_lt]%andb_prop. split; [done|].
  pose proof (Nat.div_mod (length mem) 112). lia.
Qed.
Lemma slots_of_at mem i : slot_at (slots_of mem) i = if mapped mem i then Some (slot_read mem (base i)) else None.
Proof.
  unfold slot_at, slots_of, mapped. destruct (Z.ltb_spec i 0) as [Hlt|Hge].
  - by rewrite (proj2 (Z.leb_gt 0 i)) by lia.
  - rewrite (proj2 (Z.leb_le 0 i)) by lia. cbn [andb]. rewrite list_lookup_fmap.
    destruct (Nat.ltb_spec (Z.to_nat i) (entries mem)).
    + by rewrite lookup_seq_lt.
    + by rewrite lookup_seq_ge.
Qed.
(** A store inside slot [i] changes slot [i] only. *)
Lemma slots_of_splice mem i off bs : mapped mem i = true → (off + length bs ≤ 108)%nat →
  slots_of (splice (base i + off) bs mem) = set_slot (slots_of mem) i (slot_read (splice (base i + off) bs mem) (base i)).
Proof.
  intros Hm Hb. destruct (mapped_room _ _ Hm) as [Hi Hroom].
  assert (Hlen : length (splice (base i + off) bs mem) = length mem) by (apply length_splice; lia).
  apply list_eq. intros n. unfold set_slot. destruct (decide (n = Z.to_nat i)) as [->|Hn].
  - assert (Hs : slot_at (slots_of mem) i = Some (slot_read mem (base i))) by by rewrite slots_of_at, Hm.
    assert (Hs' : slot_at (slots_of (splice (base i + off) bs mem)) i = Some (slot_read (splice (base i + off) bs mem) (base i))).
    { rewrite slots_of_at. unfold mapped, entries in *. by rewrite Hlen, Hm. }
    unfold slot_at in Hs, Hs'. destruct (i <? 0); [done|]. rewrite Hs'. symmetry. apply list_lookup_insert_eq. by eapply lookup_lt_Some.
  - rewrite list_lookup_insert_ne by done. unfold slots_of, entries. rewrite Hlen, !list_lookup_fmap.
    destruct (decide (n < length mem / stride)%nat); [|by rewrite !lookup_seq_ge by lia].
    rewrite !lookup_seq_lt by done. cbn [fmap option_fmap option_map]. f_equal. apply slot_read_ne; [lia|].
    unfold base. rewrite stride_eq in *. simpl. destruct (Nat.lt_ge_cases n (Z.to_nat i)); nia.
Qed.

(** One event: the bytes do what the records do. *)
Lemma byte_step_refines {B} (e : ev B) mem b mem' : ev_typed B e → byte_step e mem = Some (b, mem') →
  mem_step e (slots_of mem) = Some (b, slots_of mem').
Proof.
  intros He. destruct e as [i|i old new|i|i w|C q]; cbn [byte_step mem_step ev_fits] in *; try done;
    rewrite slots_of_at; destruct (mapped mem i) eqn:Hm; try done; destruct (mapped_room _ _ Hm) as [Hi Hroom].
  - intros [= <- <-]. by rewrite read_inner_ip.
  - rewrite read_inner_ip. destruct (_ =? old); intros [= <- <-]; [|done]. f_equal. f_equal. rewrite <-slot_read_owner by (try done; lia).
    unfold inner_ip_at. symmetry. apply slots_of_splice; [done|]. change (4 + 4 ≤ 108)%nat. lia.
  - by intros [= <- <-].
  - intros [= <- <-]. f_equal. f_equal. rewrite <-slot_read_store by (try done; lia).
    symmetry. apply slots_of_splice; [done|]. by apply store_size.
Qed.
Lemma byte_step_total {B} (e : ev B) mem b s' : ev_typed B e → mem_step e (slots_of mem) = Some (b, s') →
  ∃ mem', byte_step e mem = Some (b, mem') ∧ s' = slots_of mem'.
Proof.
  intros He Hs. assert (is_Some (byte_step e mem)) as [[b' mem'] Hb].
  { destruct e as [i|i old new|i|i w|C q]; cbn [byte_step mem_step] in *; try done;
      rewrite slots_of_at in Hs; destruct (mapped mem i); try done. destruct (_ =? _); eauto. }
  pose proof (byte_step_refines e mem b' mem' He Hb) as Hm. rewrite Hs in Hm. injection Hm as -> ->. eauto.
Qed.

(** ** Pools *)
Section pools.
Context {A : Type}.
Implicit Types ps : list (prog A).

Lemma event_typed ps p B (e : ev B) k : Forall well_typed ps → ps !! p = Some (Vis e k) → ev_typed B e.
Proof. intros Hps Hp. destruct (proj1 (Forall_lookup _ _) Hps _ _ Hp) as [Hok _]. exact Hok. Qed.
Lemma byte_pool_down ps ps' mem mem' : Forall well_typed ps → byte_pool_step (ps, mem) (ps', mem') →
  pool_step (ps, slots_of mem) (ps', slots_of mem').
Proof.
  intros Hps Hstep. inversion Hstep; subst; [|by eapply pool_kern]. eapply pool_mem; [done|].
  apply byte_step_refines; [by eapply event_typed|done].
Qed.
Lemma byte_pool_up ps ps' mem s' : Forall well_typed ps → pool_step (ps, slots_of mem) (ps', s') →
  ∃ mem', byte_pool_step (ps, mem) (ps', mem') ∧ s' = slots_of mem'.
Proof.
  intros Hps Hstep. inversion Hstep as [? ? p B e k b ? Hp Hmem|]; subst; [|eexists; split; [by eapply byte_kern|done]].
  apply byte_step_total in Hmem as (mem' & Hb & ->); [|by eapply event_typed]. eexists. split; [by eapply byte_mem|done].
Qed.
Lemma byte_pool_runs ps ps' mem mem' : Forall well_typed ps → Forall slot_typed (slots_of mem) →
  rtc byte_pool_step (ps, mem) (ps', mem') → rtc pool_step (ps, slots_of mem) (ps', slots_of mem').
Proof.
  intros Hps Ht Hsteps. remember (ps, mem) as c eqn:Ec. remember (ps', mem') as c' eqn:Ec'. revert ps mem ps' mem' Ec Ec' Hps Ht.
  induction Hsteps as [c|c [p1 m1] c' Hs _ IH]; intros ps mem ps' mem' Ec Ec' Hps Ht.
  - rewrite Ec in Ec'. by simplify_eq.
  - subst c. apply byte_pool_down in Hs; [|done]. destruct (typed_pool_step _ _ _ _ Hps Ht Hs) as [Hps1 Ht1].
    eapply rtc_l; [exact Hs|]. by eapply IH.
Qed.
Lemma byte_pool_reaches ps ps' mem s' : Forall well_typed ps → Forall slot_typed (slots_of mem) →
  rtc pool_step (ps, slots_of mem) (ps', s') → ∃ mem', rtc byte_pool_step (ps, mem) (ps', mem') ∧ s' = slots_of mem'.
Proof.
  intros Hps Ht Hsteps. remember (ps, slots_of mem) as c eqn:Ec. remember (ps', s') as c' eqn:Ec'. revert ps mem ps' s' Ec Ec' Hps Ht.
  induction Hsteps as [c|c [p1 t1] c' Hs _ IH]; intros ps mem ps' s' Ec Ec' Hps Ht.
  - rewrite Ec in Ec'. simplify_eq. eexists. by split.
  - subst c. destruct (byte_pool_up _ _ _ _ Hps Hs) as (m1 & Hb & ->). destruct (typed_pool_step _ _ _ _ Hps Ht Hs) as [Hps1 Ht1].
    destruct (IH p1 m1 ps' s' eq_refl Ec' Hps1 Ht1) as (mem' & Hsteps & ->). exists mem'. split; [|done]. by eapply rtc_l.
Qed.
End pools.

(** C6: the mapped bytes implement the slot table.  Let any number of attach,
    detach, reserve, set-port-up, release, stop and provision calls and of
    provider connections with typed options run on the bytes of the mapping,
    every access at the offset that the pointer arithmetic and the struct
    layout give, in little-endian order.  Then they go through exactly the same
    interleavings, with the same answers and results, as on the table of
    records that the bytes hold, and the bytes hold that table again at the
    end: accesses stay inside their slot and their field. *)
Theorem slot_memory_refines s calls mem ps :
  bytes (sc_SwitchMac (sx_cfg s)) → Forall (typed_call s) calls → Forall slot_typed (slots_of mem) →
  (∀ mem', rtc byte_pool_step (calls, mem) (ps, mem') → rtc pool_step (calls, slots_of mem) (ps, slots_of mem')) ∧
  (∀ slots', rtc pool_step (calls, slots_of mem) (ps, slots') →
     ∃ mem', rtc byte_pool_step (calls, mem) (ps, mem') ∧ slots' = slots_of mem').
Proof.
  intros Hmac Hcalls Ht. assert (Hps : Forall well_typed calls).
  { eapply Forall_impl; [exact Hcalls|]. intros p. by apply typed_call_well_typed. }
  split; intros t Hsteps; [by apply byte_pool_runs|by apply byte_pool_reaches].
Qed.

(** The bytes of four slots: the first free, the others reserved. *)
Definition ex_memory : list Z :=
  replicate 112 0 ++ concat (replicate 3 (splice 4 (bytes32_le InnerIPReserved) (replicate 112 0))).
Definition ex_attach_alone : list (prog unit) := [discard (Attach ex_switch (ex_attach 1))].
Lemma slot_memory_refines_witness :
  let r := pool_run (replicate 40 0%nat) ex_attach_alone (MkWorld (slots_of ex_memory) tt) in
  ∃ mem', rtc byte_pool_step (ex_attach_alone, ex_memory) (r.1, mem') ∧ slots_of mem' = w_slots r.2 ∧
    get32_le mem' 4 = 167772167 ∧ get32_le mem' 60 = PortFUp.
Proof.
  intros r. destruct (proj2 (slot_memory_refines ex_switch ex_attach_alone ex_memory r.1 ltac:(decide_true)
    ltac:(repeat constructor; decide_true) ltac:(repeat apply Forall_cons_2; try apply Forall_nil_2; constructor; decide_true))
    (w_slots r.2)) as (mem' & Hsteps & Hslots).
  - apply (pool_run_sound _ _ (MkWorld (slots_of ex_memory) tt)).
  - exists mem'. split; [done|]. split; [done|]. pose proof (slots_of_at mem' 0) as H0. rewrite <-Hslots in H0.
    assert (Hr : slot_at (w_slots r.2) 0 = Some (MkSlotItem 0 167772167 0 0 167772161 77 mac_zero 0 0 0 MgmtCidr_zero 0 PortFUp
      [MgmtCidr_zero; MgmtCidr_zero] 0)) by by vm_compute.
    rewrite Hr in H0. destruct (mapped mem' 0); [|done]. remember (slot_read mem' (base 0)) as y eqn:Ey. injection H0 as <-.
    split; [exact (eq_sym (f_equal si_InnerIp Ey))|exact (eq_sym (f_equal si_Flags Ey))].
Defined.
